(* ===== verification/_CoqProject ===== *)
-Q . S2P
Prelude.v
RustString.v
SchedTypes.v
Scheduler.v
SchedulerFacts.v
SchedulerLedger.v
SchedulerInfo.v
SchedulerTheorems.v
SysConfigStore.v
SysConfigFacts.v
SysConfigTheorems.v
SysConfigListing.v
SchedService.v
SchedServiceTheorems.v
KLogTypes.v
KLogDedup.v
KLogMemory.v
KLogManager.v
KLogFacts.v
KLogTheorems.v
KLogMemoryFacts.v
RaftLog.v
Lists.v
KMsg.v
KMsgKeys.v
KMsgSpec.v
KMsgRefine.v
KMsgTheorems.v
AiccQueue.v
AiccQueueFacts.v
TaskTypes.v
TaskAcl.v
TaskAclTheorems.v
WfJson.v
WfTypes.v
WfSchema.v
WfGraph.v
WfGraphFacts.v
WfTarjan.v
WfAnalysis.v
WfCompile.v
WfGraphLinks.v
WfAnalysisFacts.v
WfCompileFacts.v
WfSchemaFacts.v
WfTheorems.v
WfRun.v
WfOrch.v
WfTick.v
WfTrace.v
WfRunFacts.v
WfRounds.v
WfRunTheorems.v
Cron.v
CronFacts.v
Trigger.v
TriggerTheorems.v
TaskTables.v
TaskService.v
TaskLife.v
TaskLifeTheorems.v
AiTypes.v
AiRegistry.v
AiSession.v
AiRouter.v
AiRoute.v
AiOrder.v
AiRegistryFacts.v
AiSessionFacts.v
AiRouterFacts.v
AiExpansion.v
AiResolve.v
AiTheorems.v
AiRouteTheorems.v
AiBuiltin.v
KEventPattern.v
KEventRing.v
KEventRingFacts.v
KEventService.v
KEventTheorems.v
