(* ===== verification/Prelude.v ===== *)
(** * BuckyOS: a verification development

    BuckyOS is a personal cloud: a zone of devices run by kernel services that
    keep their shared state in one configuration store.  This library models
    the parts that decide things - where services run, what a write to the
    configuration means, what the replicated log keeps, which request is
    admitted, who may see a task - and proves what makes each of them right.
    Paths below are under [src/src/] of the repository.

    ** The parts and how they meet

    - The node scheduler ([kernel/scheduler]) reads a snapshot of the zone,
      decides in [schedule] and emits actions.  Actions become transactions on
      the configuration store: a map from keys to [KVAction]s.
    - The configuration service ([kernel/sys_config_service]) keeps the keys
      with a revision each and executes the transactions atomically, under a
      compare-and-swap on a main key.
    - The replicated log ([kernel/klog]) is a raft state machine: the raft
      library calls the log storage and [KLogStateMachine::apply], which calls
      the state store manager, which calls a state store through a trait.
    - The AI service ([frame/aicc]) admits requests through a queue with a
      bounded number of slots, shared by threads and async tasks.  For an
      admitted request it chooses a model: of what the providers declare, of the
      logical names of the session, and of the policy of the request.
    - The task manager ([kernel/task_manager]) keeps the tasks of the zone in
      tables: each command checks the permission of its caller, and changes a row
      in a transaction under the revision that was read.  The workflow engine and
      the AI service keep their work in such tasks.
    - The message queue service ([kernel/kmsg]) keeps the messages, the queues
      and the cursors of their readers in the trees of a key value store.
    - The event bus ([kernel/kevent], [kernel/buckyos-api]) carries events
      between the processes of a node through ring buffers in shared memory, and
      between nodes through their daemons.
    - The workflow engine ([kernel/workflow]) analyses the definition a client
      submits, compiles it to nodes and drives runs of them; its scheduled tasks
      start runs and tasks at the times of their triggers.

    ** Files

    Shared: [Prelude] (machine integers, the [result] of a call that may fail
    or panic, stable sorting, folds that stop at an error, the unspecified
    traversal order of hash maps as the class [HashOrder], the tactic
    [by_compute], the hint database [maps], and [Versioned], the interface of a
    store with revisions), [RustString] (the string
    operations of Rust on bytes, printing and parsing of integers), [Lists] (filters,
    sorted lists, ordered maps, and maps as lists inside recursive types).

    Node scheduler, [kernel/scheduler/src/scheduler.rs]:
    [SchedTypes] has its data, [Scheduler] every operation of [NodeScheduler]
    up to [schedule], each giving the state it leaves and its result.
    [SchedulerFacts] is placement, [SchedulerLedger] the invariant of the
    shadow resource ledger, [SchedulerInfo] the published service infos,
    [SchedulerTheorems] the properties.  [SchedService] goes on to what the
    actions write ([service.rs], part of [app.rs]) and to the gateway's
    selectors ([system_config_agent.rs]), with [SchedServiceTheorems].

    Configuration store, [sys_config_service/src/sled_provider.rs]:
    [SysConfigStore] has the operations of [SledStore] on a map that holds keys
    and revision records side by side, as the tree of the code does.
    [SysConfigFacts] gives the abstract store (values and revisions apart) and
    the refinement; [SysConfigTheorems] the properties of writes and
    transactions, on [Versioned];
    [SysConfigListing] those of listings.

    Replicated log, [kernel/klog/src]: [KLogTypes] ([lib.rs], the data of
    [state_store/store.rs], and the class [KLogStateStore] with the trait's
    operations and the laws a store owes the manager), [KLogDedup] (the cache of
    request ids), [KLogMemory] ([state_store/memory.rs], an instance), [KLogManager] (the manager of [store.rs] and
    [state_machine/machine.rs], for any store), [KLogFacts],
    [KLogTheorems] (proved against the interface) and [KLogMemoryFacts]
    (proved of the in-memory store).  [RaftLog] is [logs/memory.rs] with the
    log it implements.

    Admission queue, [frame/aicc/src/complete_request_queue.rs]: [AiccQueue] is
    a step relation over threads, [AiccQueueFacts] has its invariants and
    two states no step leads out of.

    Task access control, [kernel/task_manager/src/acl.rs]: [TaskTypes] (the
    data, from [buckyos-api/src/task_mgr.rs]), [TaskAcl] (all of [acl.rs] and
    the queries of [task_store.rs] it makes), [TaskAclTheorems].

    Life of tasks, [kernel/task_manager/src]: [TaskTables] ([task_store.rs]: the
    tables, every query and every transaction), [TaskService] ([json_schema.rs]; of
    [server.rs] the caller and every handler, as a program ([Prog]) of operations
    on the store; [step] interleaves any number of them).  [TaskLife] has
    what may become of a task ([moves], [ended]), the table of transitions
    ([permitted]: which request may make what of a task), and the proof that
    every handler keeps to it: [safe] says of a program that each of its steps
    keeps a guarantee, whatever the others do between them ([evolves], which each
    of them guarantees), with a rule for each construct.  [TaskLifeTheorems]
    has the properties, executable schedules ([play]) and the runs of examples.

    Message queue, [kernel/kmsg/src/sled_msg_queue.rs]: [KMsg] has every handler
    on the three trees, [KMsgKeys] the keys of messages and their order,
    [KMsgSpec] the service as a specification of lists, [KMsgRefine]
    the simulation, [KMsgTheorems] the properties.

    Workflow definitions, [kernel/workflow/src]: [WfJson] (JSON documents),
    [WfTypes] ([buckyos-api/src/workflow_dsl.rs], [workflow_types.rs]),
    [WfSchema] ([schema.rs]), [WfGraph] (the graph of [compiler.rs]),
    [WfAnalysis] ([analysis.rs]), [WfCompile] (the rest of [compiler.rs],
    [error.rs]).  [WfGraphFacts] is the traversals, by search with a stack,
    [WfTarjan] the strongly connected components, [WfGraphLinks] says what a good
    definition is without the analysis, and shows the graph against the links
    of the definition, [WfAnalysisFacts] one lemma per check,
    [WfCompileFacts] the analysis and the compiler as a whole,
    [WfSchemaFacts] the recursion on schemas, [WfTheorems] the properties.

    Workflow runs, [kernel/workflow/src/orchestrator.rs]: [WfRun] has the state
    of a run ([buckyos-api/src/workflow_runtime.rs]), the class [Services] of
    what the orchestrator calls (clock, object store, dispatcher, task tracker,
    executor adapters, hash) and the monad of its methods, which keep the run
    they changed when they fail.  [WfOrch] and [WfTick] are the orchestrator,
    function by function.  [WfTrace] gives each method as a list of updates and
    events, once for all methods; properties are proved of the updates:
    [WfRunFacts] (the calls, reachable runs, the numbering, the invariant,
    who is next, the status), [WfRounds] (rounds end).
    [WfRunTheorems] instantiates the services to run examples and has the
    properties.

    Scheduled tasks, [kernel/workflow/src/scheduled_task_manager.rs] and the
    handlers of schedules in [server.rs]: [Cron] has the triggers (cron
    expressions, intervals, single times; reading them from a request; time
    zones; the next time and the times that are due) over the class [Calendar],
    the part of chrono they use, with its laws; [CronFacts] the Gregorian
    instance of it and the properties of triggers.  [Trigger] has the targets and
    how they are rendered, the store of schedules and fires ([Store]), and the
    handlers as programs ([Prog]): trees of operations on the store, each done
    under its lock, and of questions to the rest of the system.  [run] runs a
    program alone; [step] interleaves any number of them, new requests at any
    point.  It ends with what a schedule's root task keeps
    of it ([buckyos-api/src/taskdata.rs]).  [TriggerTheorems] has the properties.

    Choice of models, [frame/aicc/src]: [AiTypes] (the operations on f64,
    and [model_types.rs]: providers, models, policies, names, traces),
    [AiRegistry] ([model_registry.rs]: the inventories of the providers, the
    index of exact names, what a logical name offers by default), [AiSession]
    ([model_session.rs]: the tree of logical names of a session, its patches
    and locks), [AiRouter] ([model_router.rs]: from a name to candidates;
    [model_scheduler.rs]: the score), [AiRoute] (of [aicc.rs]:
    [route_request] with the policies, the estimates of cost, the ledger of
    what was billed, and the attempts of the decision).  The registry, the
    providers, the session configuration, the ledger and the catalogue are the
    fields of [ServiceState], which [route_request] takes and returns; a method
    of the router that writes a trace is in the monad [tracing].  [AiOrder] has
    the order of priorities (the class [TotalCompare]), [AiRegistryFacts],
    [AiSessionFacts] and [AiRouterFacts] one lemma per operation, [AiExpansion]
    the routes a logical name has and that the expansion finds them,
    [AiResolve] a request from its name to its candidates.  [AiTheorems],
    [AiRouteTheorems] and [AiBuiltin] have the properties, the last those of
    the built-in configuration, after its data ([default_logical_tree.rs], the
    whole of it).  The service of the examples is in [AiTheorems].

    Event bus: [KEventPattern] (names, patterns and their redundancy, of
    [buckyos-api/src/kevent_client.rs]), [KEventRing]
    ([buckyos-api/src/kevent_ringbuffer.rs]: a ring with its writer and readers
    as a step relation, one step per atomic access and per byte copied; whole
    calls on the region of all rings; handles with their cursors),
    [KEventService] (the daemon, [kevent/src/service.rs], with sessions and
    peers, and the client of [kevent_client.rs]), [KEventRingFacts] (the
    invariant of a ring under every interleaving, what a ring at rest holds, and
    the cursors of a reader of all rings), [KEventTheorems] (the properties).
    The sizes of the rings are the class [Layout]; examples use those of the
    code.

    ** What the theorems show

    - Placement never gives a node more than it has, chooses the best of the
      nodes that fit, creates and removes as many instances as the spec asks
      for, tears down what is deleted and stops what is disabled; a round
      without changes changes nothing; service infos list exactly the live
      instances and are refreshed at a bounded rate.
    - A transaction does to the abstract store what its actions say, all or
      nothing; two writers under the same revision cannot both succeed; revisions
      never fall; listings show every key of a user and no internal record.
    - A request id is applied at most once while it is remembered; the ids the
      leader allocates are new and increasing; a guarded put is a
      compare-and-swap; replicas that apply the same entries agree (with equal
      clocks); the raft log is a sequence with a purged prefix; snapshots
      restore what was saved.
    - The queue never runs more than its capacity, wakes in order of arrival and
      keeps account of its slots; except for the two races shown reachable.
    - The message queue gives, along any run of calls, the replies of a
      specification whose queues are lists; a reader that commits gets each
      message once and in order; indexes survive the keys they are stored in;
      and a post between the two ends of a deletion is lost.
    - A workflow the analysis finds no error in is well formed; the compiler
      then fails on executors only and gives the nodes and links of the
      definition; Tarjan's algorithm and the traversals are exact on every
      graph; references are read exactly as printed; the analysis ends unless a
      schema refers to itself, and then it never does; and a cycle may go
      uncounted.
    - A round of a run ends, whatever the services answer; it takes the nodes
      that are pending and whose dependencies have finished, and leaves the
      status its nodes have; the events of calls are numbered without gaps, and
      nodes that wait for people are listed.  In runs of examples: loops never
      start, nor does a step where two paths of a branch meet, a parallel node
      is not told of a person's approval, a failed round is completed by the
      next one, and a node of an aborted run is sent off again.
    - However scans and requests interleave, a time of a scheduled task is
      started at most once.  A cron trigger fires next at the first time its
      fields admit, of those a minute apart within a year, for times and starts
      up to 2^61 seconds from the epoch; the built-in time zones are those of the
      law; a fire leaves one record and one change of the schedule; the root task
      keeps all of a schedule.  But the policies [skip] and [manual] never fire
      and [run_once] fires for every missed time, a schedule that fires one time
      at a scan is stuck at a time that was begun by hand, a leap day or a
      skipped single time ends a schedule, and a restart does not know what was
      fired.
    - The candidates for a logical name are the models its routes lead to, each
      once and by its best route, unless the items of the name form a loop, which
      is found and reported; the policy admits those it says, of which the ones
      remain that none comes before by the weights along their routes, across
      branches too, where the design document compares siblings only; and the
      least score is selected.  The attempts of a decision keep to the policy of
      the request, where the configuration does not set another, and to locked
      fields of the configuration.  The index of exact names is what the
      providers declare, after any changes.  With the built-in configuration no
      name runs into a loop.  In examples: the override of a node passes
      a lock, and the fallback of a definition is not consulted.
    - While a ring has one writer no reader sees a torn event, an event twice,
      or events out of order, in any interleaving; a call drains what is unread
      in order; a process gets no ring of another that lives.  But two handles of
      one process, or two processes at once, can share a ring, and then events
      are torn.  Patterns match what they stand for, and the ones dropped are
      redundant; the ones left may still be, as the test of the code is on their
      texts.  A connection leaves no reader behind; an event accepted at a
      node reaches every reader of the zone once, an event of a client on the
      rings under another name than the node's only those of the node, and a
      long one none.
    - However requests of the task manager interleave, a task becomes what the
      table of transitions says: its identity, its input and the target of its
      executor stay, its revisions are its events, a result is final.  Tasks form trees;
      a creation repeated with the same schema, input, parent and kind of
      executor gives the same task, whatever its policy; the pages of a listing give each
      task once; a recursive request reaches all descendants in trees of up to
      500 tasks.  The guards the code checks before its transactions, such as
      that a task has not ended, hold when a request gave a revision it had
      seen.  In examples of requests that guess a revision, a task that has ended
      runs again and a runner that was replaced commits; a request without a
      revision replaces a pending cancellation.
    - The permission on a task is the union of the rules that apply, a
      boundary isolates what is below it, and trimming hides exactly the rest,
      to which the progress belongs for who may see metadata only.

    ** Modelling

    Integers are [Z] with their width written out: [unsigned_op] gives a panic
    in a debug build and wraps in a release build, and theorems hold for both
    unless they name one.  Floats are IEEE doubles of the standard library's
    [SpecFloat].  A [HashMap] is a [gmap] traversed in the order [HashOrder]
    chooses, of which no theorem assumes more than that it is a permutation.
    Clock readings are arguments.  [unwrap] on [None], [unimplemented!] and
    checked overflow are [Panic].  A [&mut self] method returns the state it
    leaves also when it fails.  JSON, binary encodings, log identifiers of the
    raft library, the role check and device descriptions are parameters.

    Recursion that is not structural has fuel, and its bound is stated where it
    is used: printing a u64 has fuel 20, the number of its digits (a lemma of
    [RustString] shows that it is enough); trimming strings and
    stripping a prefix have the length of the string, and each step shortens
    it; the walk to the root of a task tree has the 129 steps after which the
    code itself stops; a search of the workflow graph has one round per entry
    it may push, the recursion to a terminal edge and Tarjan's one call per
    node, and the facts prove each of them total.  The functions on schemas
    have a depth of calls instead, as the code has nothing that bounds it:
    [analysis_terminates] gives a depth that is enough for schemas without
    circles.  The loop of [tick] has a round for each attempt left to a node,
    times the nodes, and one for each node that is pending or ready:
    [tick_terminates] shows that it never runs out.  Event numbers, attempts and
    iterations of a run are not wrapped.  The expansion of a logical name has
    one call per name that can be visited, two more than the nodes of the
    session's tree, and [expansion_exact] shows that it never runs out.

    The search for the next minute of a cron trigger has its rounds as a
    parameter, and [Running] says that they were used up: 527042 of them, two
    more than the minutes of 366 days, are enough by [next_fire_exact] unless
    the search reaches the end of i64, where it may not end at all.  The
    questions of a handler ([query]) stand for calls of the task manager, of the
    stores of definitions and runs, and of the orchestrator: the creation of a
    run, its first round and its insertion are one question.  What one computation
    of due times reads from the clock is one reading.

    A transaction on a task is one step: it writes under the revision it has read,
    and the same revision is the same row.  It reads the clock once, and what it
    takes from outside is a [Tick].  Which tasks a caller may see is computed in
    one step.  [Process] has the tables a request found when it arrived, for
    the theorems only.  The walk over a tree has one round for each task that may be
    found, [subtree_exact] shows that it ends before they are used up.  SHA-256,
    the text of JSON scalars and the verification of tokens are parameters.

    The steps of a ring are sequentially consistent: the orderings the code
    asks for are weaker, and allow on some hardware what they do not.  The
    copies of a call at rest have fuel for a slot's bytes and the accesses
    around them.  Calls on the daemon, the client and the directory of rings run
    one after the other.

    For the choice of models these are parameters: the numbers of a JSON
    document and their reading as u64, what a provider estimates a request to
    cost, the hook and the source of a refresh, and the overlay a request
    carries, after it was parsed.  The fields of a trace that only sum it up
    for users are left out.

    ** Not modelled

    I/O failures of sled, of databases and of locks (poisoning); the RocksDB
    and SQLite stores, which implement the interface of [KLogTypes] over
    libraries; the network of the log service; the RPC front ends; the
    parts of the scheduler that read and write the JSON documents of the zone;
    and of the event bus the futexes, timers, HTTP streams, and the links of a
    bridge with their backoff. The
    dispatch of the scheduler's actions to configuration changes and the
    dispatcher of promised tasks, which leases them over a database of its own,
    are left for a later extension. *)
From Stdlib Require Import ZArith Lia Ascii Sorted Permutation Floats.SpecFloat.
From stdpp Require Import base tactics numbers gmap strings sorting list.

#[global] Set Default Goal Selector "!".
#[global] Open Scope string_scope.
#[global] Open Scope list_scope.
#[global] Open Scope Z_scope.

(** ** Machine integers *)

Definition u16_max : Z := 65535.
Definition u32_max : Z := 4294967295.
Definition u64_max : Z := 18446744073709551615.

(** [x.saturating_sub(y)] on an unsigned type. *)
Definition sat_sub (x y : Z) : Z := Z.max 0 (x - y).

(** [x.saturating_add(y)] on u64. *)
Definition sat_add64 (x y : Z) : Z := Z.min u64_max (x + y).

Definition is_u16 (x : Z) : Prop := 0 <= x <= u16_max.
Definition is_u32 (x : Z) : Prop := 0 <= x <= u32_max.
Definition is_u64 (x : Z) : Prop := 0 <= x <= u64_max.

(** The two arithmetic modes of rustc: overflow checks on (debug) or off
    (the release profile of [Cargo.toml], which does not turn them on). *)
Inductive build := Debug | Release.

#[global] Instance build_eq_dec : EqDecision build.
Proof. solve_decision. Defined.

(** ** Results with panics *)

(** What a call of a fallible Rust function gives: a value, an [Err] with its
    message, or a panic (failed [unwrap], checked overflow, [unimplemented!]). *)
Inductive result (A : Type) : Type :=
| Ok (a : A)
| Err (msg : string)
| Panic.
Arguments Ok {A} _.
Arguments Err {A} _.
Arguments Panic {A}.

#[global] Instance result_ret : MRet result := fun _ a => Ok a.
#[global] Instance result_bind : MBind result :=
  fun _ _ f r => match r with Ok a => f a | Err m => Err m | Panic => Panic end.

(** An unsigned operation whose exact value is [v], at [2^w - 1 = top]. *)
Definition unsigned_op (b : build) (top v : Z) : result Z :=
  if (0 <=? v) && (v <=? top) then Ok v
  else match b with Debug => Panic | Release => Ok (v mod (top + 1)) end.

Definition is_ok {A} (r : result A) : bool :=
  match r with Ok _ => true | _ => false end.

(** ** Partial equality, the [PartialEq] of the source *)

(** [PartialEq] is not reflexive in the presence of floats, so the derived
    comparisons of the source are boolean functions and not Leibniz equality. *)
Class PartialEq (A : Type) := peq : A -> A -> bool.

#[global] Instance peq_dec {A} `{EqDecision A} : PartialEq A | 100 :=
  fun x y => bool_decide (x = y).

#[global] Instance peq_option {A} `{PartialEq A} : PartialEq (option A) :=
  fun x y => match x, y with
             | Some a, Some b => peq a b
             | None, None => true
             | _, _ => false
             end.

#[global] Instance peq_prod {A B} `{PartialEq A} `{PartialEq B} : PartialEq (A * B) :=
  fun x y => peq x.1 y.1 && peq x.2 y.2.

Fixpoint peq_list_go {A} (e : A -> A -> bool) (l k : list A) : bool :=
  match l, k with
  | [], [] => true
  | x :: l, y :: k => e x y && peq_list_go e l k
  | _, _ => false
  end.

#[global] Instance peq_list {A} `{PartialEq A} : PartialEq (list A) :=
  peq_list_go peq.

(** [HashMap]'s [PartialEq]: same length, and every entry of the left map has
    an equal entry in the right one. *)
#[global] Instance peq_gmap {K V} `{Countable K} `{PartialEq V} : PartialEq (gmap K V) :=
  fun m1 m2 =>
    bool_decide (size m1 = size m2) &&
    forallb (fun kv => match m2 !! kv.1 with
                       | Some v => peq kv.2 v
                       | None => false
                       end) (map_to_list m1).

(** IEEE binary64 and binary32 values, through the Standard Library's
    executable specification of floating-point arithmetic. *)
Abbreviation float := spec_float.
Abbreviation f64_prec := 53%Z.
Abbreviation f64_emax := 1024%Z.
Definition f64_add : float -> float -> float := SFadd f64_prec f64_emax.
Definition f64_sub : float -> float -> float := SFsub f64_prec f64_emax.
Definition f64_mul : float -> float -> float := SFmul f64_prec f64_emax.
Definition f64_div : float -> float -> float := SFdiv f64_prec f64_emax.
(** [n as f64] for an unsigned [n]: round to nearest, ties to even. *)
Definition f64_of_Z (n : Z) : float := binary_normalize f64_prec f64_emax n 0 false.

#[global] Instance peq_float : PartialEq float := SFeqb.

(** ** Tactics *)

(** Prove a decidable proposition by evaluating its decision procedure. *)
Ltac by_compute := match goal with |- ?P => apply (@bool_decide_eq_true_1 P _) end; vm_compute; reflexivity.

(** ** Stable sorting, [slice::sort_by] *)

Section stable_sort.
Context {A : Type} (leb : A -> A -> bool).

(** Insertion before the first strictly greater element keeps equal elements
    in their original order: the result of any stable sort. *)
Fixpoint insert_stable (x : A) (l : list A) : list A :=
  match l with
  | [] => [x]
  | y :: l => if leb x y then x :: y :: l else y :: insert_stable x l
  end.

Fixpoint sort_stable (l : list A) : list A :=
  match l with
  | [] => []
  | x :: l => insert_stable x (sort_stable l)
  end.

Lemma insert_stable_perm x l : insert_stable x l ≡ₚ x :: l.
Proof.
  induction l as [|y l IH]; simpl; [done|].
  destruct (leb x y); [done|]. rewrite IH. by constructor.
Qed.

Lemma sort_stable_perm l : sort_stable l ≡ₚ l.
Proof.
  induction l as [|x l IH]; simpl; [done|]. rewrite insert_stable_perm. by f_equiv.
Qed.

Lemma sort_stable_length l : length (sort_stable l) = length l.
Proof. apply Permutation_length, sort_stable_perm. Qed.

Lemma elem_of_sort_stable x l : x ∈ sort_stable l <-> x ∈ l.
Proof. by rewrite sort_stable_perm. Qed.

Context (P : A -> Prop)
        (leb_total : forall x y, P x -> P y -> leb x y = true \/ leb y x = true)
        (leb_trans : forall x y z, P x -> P y -> P z ->
           leb x y = true -> leb y z = true -> leb x z = true).

Lemma insert_stable_sorted x l :
  P x -> Forall P l ->
  StronglySorted (fun a b => leb a b = true) l ->
  StronglySorted (fun a b => leb a b = true) (insert_stable x l).
Proof using leb_total leb_trans.
  intros Hx Hl. induction 1 as [|y l Hs IH Hy]; simpl; [repeat constructor|].
  inversion_clear Hl as [|? ? Py Pl]. destruct (leb x y) eqn:E.
  - constructor; [by constructor|]. constructor; [done|].
    rewrite Forall_forall in Hy, Pl. apply Forall_forall. eauto.
  - constructor; [auto|]. rewrite insert_stable_perm. constructor; [|done].
    destruct (leb_total x y); congruence.
Qed.

Lemma sort_stable_sorted l :
  Forall P l -> StronglySorted (fun a b => leb a b = true) (sort_stable l).
Proof using leb_total leb_trans.
  induction 1 as [|x l Hx Hl IH]; simpl; [constructor|].
  apply insert_stable_sorted; [done| |done]. by rewrite sort_stable_perm.
Qed.

(** Sorting what is selected is selecting from what is sorted. *)
Lemma insert_stable_first x l : Forall (fun y => leb x y = true) l -> insert_stable x l = x :: l.
Proof. intros [|y l' Hy _]; simpl; [done|]. by rewrite Hy. Qed.

Lemma insert_stable_filter (p : A -> bool) x l :
  P x -> Forall P l -> StronglySorted (fun a b => leb a b = true) l ->
  List.filter p (insert_stable x l) = if p x then insert_stable x (List.filter p l) else List.filter p l.
Proof using leb_trans.
  intros Hx Hl. induction 1 as [|y l Hs IH Hy]; simpl; [by destruct (p x)|].
  inversion_clear Hl as [|? ? Py Pl]. destruct (leb x y) eqn:E; simpl.
  - destruct (p x) eqn:Ex; [|done]. symmetry. change (if p y then y :: List.filter p l else List.filter p l) with (List.filter p (y :: l)).
    apply insert_stable_first. apply Forall_forall. intros z [Hz _]%list_elem_of_In%filter_In.
    apply list_elem_of_In in Hz. apply elem_of_cons in Hz as [->|Hz]; [done|]. rewrite Forall_forall in Hy, Pl. eauto.
  - rewrite IH by done. destruct (p x), (p y) eqn:Ey; simpl; rewrite ?E; done.
Qed.

Lemma sort_stable_filter (p : A -> bool) l :
  Forall P l -> sort_stable (List.filter p l) = List.filter p (sort_stable l).
Proof using leb_total leb_trans.
  induction 1 as [|x l Hx Hl IH]; simpl; [done|].
  rewrite insert_stable_filter; [|done|by rewrite sort_stable_perm|by apply sort_stable_sorted].
  destruct (p x); simpl; by rewrite IH.
Qed.
End stable_sort.

(** Sorting by an integer key, and by key in descending order. *)
Lemma sort_by_key_sorted {A} (key : A -> Z) (l : list A) :
  StronglySorted (fun x y => key x <= key y) (sort_stable (fun x y => key x <=? key y) l).
Proof.
  assert (Hs : StronglySorted (fun x y => (key x <=? key y) = true) (sort_stable (fun x y => key x <=? key y) l)).
  { apply (sort_stable_sorted _ (fun _ => True)); [| |by apply Forall_true].
    - intros x y _ _. destruct (Z.leb_spec (key x) (key y)); [by left|right; apply Z.leb_le; lia].
    - intros x y z _ _ _ ?%Z.leb_le ?%Z.leb_le. apply Z.leb_le. lia. }
  induction Hs as [|x k Hk IH Hx]; constructor; [done|]. eapply Forall_impl; [exact Hx|].
  intros y ?%Z.leb_le. done.
Qed.

(** ** Lists *)

(** The part of a strongly sorted list kept by [take] is above the rest. *)
Lemma StronglySorted_take_drop {A} (R : A -> A -> Prop) k l x y :
  StronglySorted R l -> x ∈ take k l -> y ∈ drop k l -> R x y.
Proof.
  intros Hs. revert k. induction Hs as [|z l Hl IH Hz]; intros [|k]; simpl; try set_solver.
  intros [->|Hx]%elem_of_cons Hy; [|by eapply IH].
  rewrite Forall_forall in Hz. apply Hz. eapply elem_of_submseteq, submseteq_drop. done.
Qed.

Lemma existsb_false {A} (p : A -> bool) l :
  existsb p l = false <-> Forall (fun x => p x = false) l.
Proof.
  rewrite <- not_true_iff_false, existsb_exists, Forall_forall. split.
  - intros Hn x Hx. apply not_true_iff_false. intros Hp. apply Hn. exists x.
    by rewrite <- list_elem_of_In.
  - intros Hf (x & Hx%list_elem_of_In & Hp). by rewrite Hf in Hp.
Qed.

Lemma elem_of_filterb {A} (p : A -> bool) (l : list A) x :
  x ∈ List.filter p l <-> p x = true /\ x ∈ l.
Proof. rewrite !list_elem_of_In, filter_In. naive_solver. Qed.

Lemma filterb_sublist {A} (p : A -> bool) (l : list A) : List.filter p l `sublist_of` l.
Proof. induction l as [|x l IH]; simpl; [constructor|]. destruct (p x); by constructor. Qed.

(** Equal keys keep their original order: the elements of one class of the
    preorder come out in the order they went in. *)
Section stability.
Context {A : Type} (leb : A -> A -> bool) (P : A -> bool).
Context (same_class : forall x y, P x = true -> P y = true -> leb x y = true).

Lemma filter_insert_stable x l :
  List.filter P (insert_stable leb x l) =
  if P x then x :: List.filter P l else List.filter P l.
Proof using same_class.
  induction l as [|y l IH]; simpl; [done|].
  destruct (leb x y) eqn:E; simpl; [done|]. rewrite IH.
  destruct (P x) eqn:Ex, (P y) eqn:Ey; try done.
  by rewrite same_class in E.
Qed.

Lemma filter_sort_stable l : List.filter P (sort_stable leb l) = List.filter P l.
Proof using same_class.
  induction l as [|x l IH]; simpl; [done|]. rewrite filter_insert_stable, IH. done.
Qed.
End stability.

(** ** The order on floats *)

Definition is_nan (f : float) : bool := match f with S754_nan => true | _ => false end.

(** A key whose lexicographic order is the order of the non-NaN floats. *)
Definition float_key (f : float) : Z * Z * Z :=
  match f with
  | S754_zero _ => (0, 0, 0)
  | S754_infinity true => (-2, 0, 0)
  | S754_infinity false => (2, 0, 0)
  | S754_nan => (0, 0, 0)
  | S754_finite true m e => (-1, - e, Z.neg m)
  | S754_finite false m e => (1, e, Z.pos m)
  end.

Definition key_compare (x y : Z * Z * Z) : comparison :=
  match x.1.1 ?= y.1.1 with
  | Eq => match x.1.2 ?= y.1.2 with Eq => x.2 ?= y.2 | c => c end
  | c => c
  end.

Lemma SFcompare_key f g :
  SFcompare f g =
  if is_nan f || is_nan g then None else Some (key_compare (float_key f) (float_key g)).
Proof.
  destruct f as [[]|[]| |[] m e], g as [[]|[]| |[] m' e']; try reflexivity;
    unfold key_compare; cbn [float_key fst snd is_nan orb]; f_equal.
  - rewrite Z.compare_opp, (Z.compare_antisym e e'). by cbn; destruct (e ?= e').
Qed.

(** Descending order of scores: [x] goes before [y] unless [x < y]. *)
Definition score_geb (x y : float) : bool :=
  match SFcompare y x with Some Gt => false | _ => true end.

Lemma key_compare_le x y :
  key_compare x y <> Gt <->
  x.1.1 < y.1.1 \/ x.1.1 = y.1.1 /\ (x.1.2 < y.1.2 \/ x.1.2 = y.1.2 /\ x.2 <= y.2).
Proof.
  unfold key_compare.
  destruct (Z.compare_spec x.1.1 y.1.1), (Z.compare_spec x.1.2 y.1.2),
    (Z.compare_spec x.2 y.2); split; intros; try done; try lia; naive_solver lia.
Qed.

Lemma score_geb_spec x y :
  is_nan x = false -> is_nan y = false ->
  score_geb x y = true <-> key_compare (float_key y) (float_key x) <> Gt.
Proof.
  intros Hx Hy. unfold score_geb. rewrite SFcompare_key, Hx, Hy. simpl.
  by destruct (key_compare _ _).
Qed.

Lemma score_geb_total x y :
  is_nan x = false -> is_nan y = false -> score_geb x y = true \/ score_geb y x = true.
Proof. intros Hx Hy. rewrite !score_geb_spec, !key_compare_le by done. lia. Qed.

Lemma score_geb_trans x y z :
  is_nan x = false -> is_nan y = false -> is_nan z = false ->
  score_geb x y = true -> score_geb y z = true -> score_geb x z = true.
Proof. intros Hx Hy Hz. rewrite !score_geb_spec, !key_compare_le by done. lia. Qed.

(** ** Iteration with early exit *)

(** A [for] loop whose body may return early with [?] or panic: the state
    reached so far is kept. *)
Fixpoint fold_result {S A : Type} (f : S -> A -> S * result unit) (s : S) (l : list A)
  : S * result unit :=
  match l with
  | [] => (s, Ok ())
  | a :: l =>
    match f s a with
    | (s', Ok _) => fold_result f s' l
    | (s', e) => (s', e)
    end
  end.

(** An invariant of the body is an invariant of the loop. *)
Lemma fold_result_ind {S A} (f : S -> A -> S * result unit) (P : S -> Prop) s l :
  P s -> (forall s a, a ∈ l -> P s -> P (f s a).1) -> P (fold_result f s l).1.
Proof.
  revert s. induction l as [|a l IH]; intros s Hs Hf; simpl; [done|].
  destruct (f s a) as [s' r] eqn:E.
  assert (P s') by (specialize (Hf s a); rewrite E in Hf; set_solver).
  destruct r; [|done..]. apply IH; [done|]. intros. apply Hf; set_solver.
Qed.

(** The order in which a [HashMap] or [HashSet] is traversed is unspecified:
    the model takes it as a parameter. *)
Class HashOrder := {
  iter : forall {V : Type}, gmap string V -> list (string * V);
  iter_perm : forall {V} (m : gmap string V), iter m ≡ₚ map_to_list m
}.

(** One such order, for evaluation on concrete inputs. *)
Definition canonical_order : HashOrder :=
  {| iter := fun V m => map_to_list m; iter_perm := fun V m => Permutation_refl _ |}.

Section hash_order.
Context `{HashOrder} {V : Type}.
Implicit Types (m : gmap string V).

Definition keys m : list string := (iter m).*1.
Definition values m : list V := (iter m).*2.

Lemma elem_of_iter m k v : (k, v) ∈ iter m <-> m !! k = Some v.
Proof. by rewrite iter_perm, elem_of_map_to_list. Qed.

Lemma elem_of_keys m k : k ∈ keys m <-> is_Some (m !! k).
Proof.
  unfold keys. rewrite list_elem_of_fmap. split.
  - intros [[k' v] [-> Hv]]. apply elem_of_iter in Hv. by exists v.
  - intros [v Hv]. exists (k, v). by rewrite elem_of_iter.
Qed.

Lemma elem_of_values m v : v ∈ values m <-> exists k, m !! k = Some v.
Proof.
  unfold values. rewrite list_elem_of_fmap. split.
  - intros [[k' v'] [-> Hv]]. exists k'. by apply elem_of_iter.
  - intros [k Hk]. exists (k, v). by rewrite elem_of_iter.
Qed.

Lemma NoDup_keys m : NoDup (keys m).
Proof. unfold keys. rewrite iter_perm. apply NoDup_fst_map_to_list. Qed.
End hash_order.

(** ** Automation *)

(** Facts on sorted lists and on the traversal of hash maps that side
    conditions ask for. *)
Create HintDb maps.
#[export] Hint Resolve sort_stable_perm sort_by_key_sorted NoDup_keys iter_perm : maps.
#[export] Hint Rewrite @elem_of_sort_stable @elem_of_filterb @elem_of_iter @elem_of_keys @elem_of_values : maps.

(** ** Stores with revisions

    The interface of a store that keeps a revision number beside each entry:
    a step either leaves an entry and its revision alone or raises the
    revision.  What a client that reads, computes and writes back under a
    revision check relies on is proved here once, for every such store. *)

Class Versioned (S K V : Type) := {
  v_inv : S -> Prop;
  v_key : K -> Prop;
  v_value : S -> K -> option V;
  v_rev : S -> K -> Z;
  v_step : S -> S -> Prop;
  v_step_inv : forall s s', v_inv s -> v_step s s' -> v_inv s';
  v_step_rev : forall s s' k, v_inv s -> v_step s s' -> v_key k ->
    v_rev s' k = v_rev s k /\ v_value s' k = v_value s k \/ v_rev s k < v_rev s' k
}.

Section versioned.
Context {S K V : Type} `{Versioned S K V}.
Implicit Types (s : S) (k : K).

Lemma steps_inv s s' : v_inv s -> rtc v_step s s' -> v_inv s'.
Proof. intros Hs. induction 1; eauto using v_step_inv. Qed.

(** Along any run the revision of an entry never decreases, and an entry whose
    revision is the same at both ends has its old value: there is no ABA. *)
Lemma steps_rev s s' k :
  v_inv s -> rtc v_step s s' -> v_key k ->
  v_rev s' k = v_rev s k /\ v_value s' k = v_value s k \/ v_rev s k < v_rev s' k.
Proof.
  intros Hs Hr Hk. induction Hr as [s|s s1 s2 H1 _ IH]; [by left|].
  destruct (IH (v_step_inv _ _ Hs H1)) as [[E1 E2]|], (v_step_rev _ _ _ Hs H1 Hk) as [[E3 E4]|];
    [left; split; congruence|right; lia..].
Qed.

Lemma steps_rev_le s s' k : v_inv s -> rtc v_step s s' -> v_key k -> v_rev s k <= v_rev s' k.
Proof. intros Hs Hr Hk. destruct (steps_rev s s' k Hs Hr Hk); lia. Qed.

(** Optimistic concurrency: whatever ran in between, if the revision a client
    read is still the current one then so is the value it read. *)
Lemma steps_unchanged s s' k :
  v_inv s -> rtc v_step s s' -> v_key k -> v_rev s' k = v_rev s k -> v_value s' k = v_value s k.
Proof. intros Hs Hr Hk E. destruct (steps_rev s s' k Hs Hr Hk) as [[]|]; [done|lia]. Qed.

(** An entry that was written once is at a higher revision from then on. *)
Lemma steps_written s s1 s' k :
  v_inv s -> v_step s s1 -> v_rev s k < v_rev s1 k -> rtc v_step s1 s' -> v_key k ->
  v_rev s k < v_rev s' k.
Proof.
  intros Hs H1 Hlt Hr Hk. pose proof (steps_rev_le s1 s' k (v_step_inv _ _ Hs H1) Hr Hk). lia.
Qed.
End versioned.
