(* ===== verification/RustString.v ===== *)
(** Strings of the source.  A Rust [str] is its sequence of UTF-8 bytes, here a
    [string]; [str::split] on an ASCII character, [str::trim] (with the Unicode
    white space of the Rust standard library), [str::starts_with] and
    [str::join] are written on those bytes, and so are decimal printing and
    parsing of unsigned 64-bit integers, [to_string] and [str::parse::<u64>]. *)
From Stdlib Require Import ZArith Lia Ascii.
From stdpp Require Import base tactics numbers gmap strings list.
From S2P Require Import Prelude.

(** ** Splitting and joining *)

(** [s.split(c).collect::<Vec<&str>>()] for an ASCII separator. *)
Fixpoint split_on (c : ascii) (s : string) : list string :=
  match s with
  | EmptyString => [""]
  | String a s =>
    if Ascii.eqb a c then "" :: split_on c s
    else match split_on c s with
         | h :: t => String a h :: t
         | [] => [String a ""]
         end
  end.

(** [parts.join(sep)]. *)
Fixpoint join (sep : string) (l : list string) : string :=
  match l with
  | [] => ""
  | [s] => s
  | s :: l => s +:+ sep +:+ join sep l
  end.

(** [s.contains(c)] for an ASCII character. *)
Fixpoint contains_char (c : ascii) (s : string) : bool :=
  match s with
  | EmptyString => false
  | String a s => Ascii.eqb a c || contains_char c s
  end.

(** [s.starts_with(p)]. *)
Fixpoint starts_with (p s : string) : bool :=
  match p, s with
  | EmptyString, _ => true
  | String a p, String b s => Ascii.eqb a b && starts_with p s
  | String _ _, EmptyString => false
  end.

(** [str::rsplit_once]: what is before and after the last one. *)
Fixpoint rsplit_once (c : ascii) (s : string) : option (string * string) :=
  match s with
  | EmptyString => None
  | String a s =>
    match rsplit_once c s with
    | Some (l, r) => Some (String a l, r)
    | None => if Ascii.eqb a c then Some (EmptyString, s) else None
    end
  end.

(** The ASCII part of [str::to_lowercase]. *)
Definition ascii_lower (a : ascii) : ascii :=
  let n := nat_of_ascii a in
  if ((65 <=? n) && (n <=? 90))%nat then ascii_of_nat (n + 32) else a.

Fixpoint to_lower (s : string) : string :=
  match s with
  | EmptyString => EmptyString
  | String a s => String (ascii_lower a) (to_lower s)
  end.

(** [str]'s [Ord]: lexicographic on bytes. *)
Fixpoint string_leb (s t : string) : bool :=
  match s, t with
  | EmptyString, _ => true
  | String _ _, EmptyString => false
  | String a s, String b t =>
    if Ascii.eqb a b then string_leb s t
    else (nat_of_ascii a <? nat_of_ascii b)%nat
  end.

(** ** Trimming *)

Definition bytes := list Z.
Definition bytes_of (s : string) : bytes :=
  (fun a => Z.of_N (N_of_ascii a)) <$> String.list_ascii_of_string s.
Definition string_of (l : bytes) : string :=
  String.string_of_list_ascii ((fun z => ascii_of_N (Z.to_N z)) <$> l).

(** The white space of one byte: tab to carriage return, and space. *)
Definition ascii_ws (a : Z) : bool := (9 <=? a) && (a <=? 13) || (a =? 32).

(** The last byte of a white space character U+2000 .. U+203F, whose encoding
    starts with 226 128. *)
Definition e280_ws (b : Z) : bool :=
  (128 <=? b) && (b <=? 138) || (b =? 168) || (b =? 169) || (b =? 175).

(** The other white space characters of two and three bytes. *)
Definition ws2 (a b : Z) : bool := (a =? 194) && ((b =? 133) || (b =? 160)).
Definition ws3 (a b c : Z) : bool :=
  (a =? 226) && (b =? 128) && e280_ws c
  || (a =? 225) && (b =? 154) && (c =? 128)
  || (a =? 226) && (b =? 129) && (c =? 159)
  || (a =? 227) && (b =? 128) && (c =? 128).

(** One character of Unicode's [White_Space] at the front of the string: what
    is left after it. *)
Definition strip_ws (l : bytes) : option bytes :=
  match l with
  | [] => None
  | a :: l =>
    if ascii_ws a then Some l else
    match l with
    | [] => None
    | b :: l =>
      if ws2 a b then Some l else
      match l with
      | [] => None
      | c :: l => if ws3 a b c then Some l else None
      end
    end
  end.

(** The same character at the back, on the reversed bytes. *)
Definition strip_ws_rev (l : bytes) : option bytes :=
  match l with
  | [] => None
  | a :: l =>
    if ascii_ws a then Some l else
    match l with
    | [] => None
    | b :: l =>
      if ws2 b a then Some l else
      match l with
      | [] => None
      | c :: l => if ws3 c b a then Some l else None
      end
    end
  end.

(** Strip while there is something to strip; the fuel is the length, and each
    round removes at least one byte. *)
Fixpoint strip_all (strip : bytes -> option bytes) (fuel : nat) (l : bytes) : bytes :=
  match fuel with
  | O => l
  | S fuel => match strip l with Some l' => strip_all strip fuel l' | None => l end
  end.

Definition trim_start (l : bytes) : bytes := strip_all strip_ws (length l) l.
Definition trim_end (l : bytes) : bytes :=
  rev (strip_all strip_ws_rev (length l) (rev l)).

(** [s.trim()]. *)
Definition trim (s : string) : string := string_of (trim_end (trim_start (bytes_of s))).

(** ** Lemmas *)

Lemma append_cons a s t : String a s +:+ t = String a (s +:+ t).
Proof. done. Qed.

Lemma append_nil_l s : "" +:+ s = s.
Proof. done. Qed.

Lemma string_app_assoc (s t u : string) : (s +:+ t) +:+ u = s +:+ t +:+ u.
Proof. induction s as [|a s IH]; [done|]. by rewrite !append_cons, IH. Qed.

Lemma split_on_nonempty c s : split_on c s <> [].
Proof. destruct s as [|a s]; simpl; [done|]. destruct (Ascii.eqb a c), (split_on c s); done. Qed.

Lemma split_on_no_sep c s : contains_char c s = false -> split_on c s = [s].
Proof.
  induction s as [|a s IH]; simpl; [done|].
  destruct (Ascii.eqb a c); simpl; [done|]. intros. by rewrite IH.
Qed.

Lemma split_on_app c s t :
  contains_char c s = false -> split_on c (s +:+ String c t) = s :: split_on c t.
Proof.
  induction s as [|a s IH]; simpl; intros Hs.
  - by rewrite Ascii.eqb_refl.
  - destruct (Ascii.eqb a c); simpl in *; [done|]. by rewrite IH.
Qed.

Lemma contains_char_app c s t :
  contains_char c (s +:+ t) = contains_char c s || contains_char c t.
Proof. induction s as [|a s IH]; simpl; [done|]. by rewrite IH, orb_assoc. Qed.

Lemma join_cons sep s l : l <> [] -> join sep (s :: l) = s +:+ sep +:+ join sep l.
Proof. by destruct l. Qed.

Lemma join_head_char sep a h l : join sep (String a h :: l) = String a (join sep (h :: l)).
Proof. by destruct l. Qed.

Lemma join_split c s : join (String c "") (split_on c s) = s.
Proof.
  induction s as [|a s IH]; simpl; [done|].
  destruct (Ascii.eqb_spec a c) as [->|Hne].
  - rewrite join_cons, IH by apply split_on_nonempty. done.
  - destruct (split_on c s) as [|h t] eqn:E; [by destruct (split_on_nonempty c s)|].
    by rewrite join_head_char, IH.
Qed.

Lemma starts_with_spec p s : starts_with p s = true <-> exists t, s = p +:+ t.
Proof.
  revert s. induction p as [|a p IH]; intros s; simpl.
  - split; [by exists s|done].
  - destruct s as [|b s].
    + split; [done|]. by intros [].
    + rewrite andb_true_iff, IH, Ascii.eqb_eq. split.
      * intros [-> [t ->]]. by exists t.
      * intros [t [= <- ->]]. eauto.
Qed.

Lemma string_leb_refl s : string_leb s s = true.
Proof. induction s as [|a s IH]; simpl; [done|]. by rewrite Ascii.eqb_refl. Qed.

Lemma nat_of_ascii_inj a b : nat_of_ascii a = nat_of_ascii b -> a = b.
Proof. intros E. by rewrite <- (ascii_nat_embedding a), E, ascii_nat_embedding. Qed.

Lemma string_leb_total s t : string_leb s t = true \/ string_leb t s = true.
Proof.
  revert t. induction s as [|a s IH]; intros [|b t]; simpl; [by left|by left|by right|].
  rewrite (Ascii.eqb_sym b a). destruct (Ascii.eqb_spec a b) as [|Hne]; [apply IH|].
  rewrite !Nat.ltb_lt. assert (nat_of_ascii a <> nat_of_ascii b); [|lia].
  intros E. by apply Hne, nat_of_ascii_inj.
Qed.

Lemma string_leb_trans s t u :
  string_leb s t = true -> string_leb t u = true -> string_leb s u = true.
Proof.
  revert t u. induction s as [|a s IH]; intros [|b t] [|c u]; simpl; try done.
  destruct (Ascii.eqb_spec a b) as [->|?], (Ascii.eqb_spec b c) as [->|?];
    rewrite ?Ascii.eqb_refl; try done.
  - apply IH.
  - destruct (Ascii.eqb_spec a c); done.
  - rewrite !Nat.ltb_lt. destruct (Ascii.eqb_spec a c) as [->|?]; [lia|].
    rewrite Nat.ltb_lt. lia.
Qed.

Lemma string_leb_antisym s t : string_leb s t = true -> string_leb t s = true -> s = t.
Proof.
  revert t. induction s as [|a s IH]; intros [|b t]; simpl; try done.
  rewrite (Ascii.eqb_sym b a). destruct (Ascii.eqb_spec a b) as [->|].
  - intros. f_equal. by apply IH.
  - rewrite !Nat.ltb_lt. lia.
Qed.

(** ** Trimming twice *)

Lemma strip_all_done strip l fuel : strip l = None -> strip_all strip fuel l = l.
Proof. intros E. by destruct fuel; simpl; rewrite ?E. Qed.

Lemma strip_all_none strip :
  (forall l l', strip l = Some l' -> (length l' < length l)%nat) ->
  forall fuel l, (length l <= fuel)%nat -> strip (strip_all strip fuel l) = None.
Proof.
  intros Hs. induction fuel as [|fuel IH]; intros l Hl; simpl.
  - destruct (strip l) as [l'|] eqn:E; [|done]. apply Hs in E. lia.
  - destruct (strip l) as [l'|] eqn:E; [|done]. apply Hs in E. apply IH. lia.
Qed.

(** Stripping removes characters at the front of the bytes it is given. *)
Lemma strip_all_suffix strip :
  (forall l l', strip l = Some l' -> l' `suffix_of` l) ->
  forall fuel l, strip_all strip fuel l `suffix_of` l.
Proof.
  intros Hs. induction fuel as [|fuel IH]; intros l; simpl; [done|].
  destruct (strip l) as [l'|] eqn:E; [|done]. transitivity l'; [apply IH|by apply Hs].
Qed.

Lemma strip_ws_shorter l l' : strip_ws l = Some l' -> l' `suffix_of` l /\ (length l' < length l)%nat.
Proof.
  unfold strip_ws. destruct l as [|a l]; [done|]. destruct (ascii_ws a).
  { intros [= ->]. split; [by exists [a]|simpl; lia]. }
  destruct l as [|b l]; [done|]. destruct (ws2 a b).
  { intros [= ->]. split; [by exists [a; b]|simpl; lia]. }
  destruct l as [|c l]; [done|]. destruct (ws3 a b c); [|done].
  intros [= ->]. split; [by exists [a; b; c]|simpl; lia].
Qed.

Lemma strip_ws_rev_shorter l l' :
  strip_ws_rev l = Some l' -> l' `suffix_of` l /\ (length l' < length l)%nat.
Proof.
  unfold strip_ws_rev. destruct l as [|a l]; [done|]. destruct (ascii_ws a).
  { intros [= ->]. split; [by exists [a]|simpl; lia]. }
  destruct l as [|b l]; [done|]. destruct (ws2 b a).
  { intros [= ->]. split; [by exists [a; b]|simpl; lia]. }
  destruct l as [|c l]; [done|]. destruct (ws3 c b a); [|done].
  intros [= ->]. split; [by exists [a; b; c]|simpl; lia].
Qed.

Lemma strip_ws_app l k : strip_ws (l ++ k) = None -> strip_ws l = None.
Proof.
  unfold strip_ws. destruct l as [|a l]; [done|]. simpl. destruct (ascii_ws a); [done|].
  destruct l as [|b l]; [done|]. simpl. destruct (ws2 a b); [done|].
  destruct l as [|c l]; [done|]. simpl. by destruct (ws3 a b c).
Qed.

Definition trim_bytes (l : bytes) : bytes := trim_end (trim_start l).

Lemma trim_start_none l : strip_ws (trim_start l) = None.
Proof. apply strip_all_none; [|done]. intros ?? H. by apply strip_ws_shorter in H as []. Qed.

Lemma trim_end_prefix l : trim_end l `prefix_of` l.
Proof.
  unfold trim_end. destruct (strip_all_suffix strip_ws_rev) with (fuel := length l) (l := rev l) as [k E].
  - intros ?? H. by apply strip_ws_rev_shorter in H as [].
  - exists (rev k). apply (f_equal (@rev Z)) in E. by rewrite rev_involutive, rev_app_distr in E.
Qed.

Lemma trim_end_none l : strip_ws_rev (rev (trim_end l)) = None.
Proof.
  unfold trim_end. rewrite rev_involutive. apply strip_all_none; [|by rewrite length_rev].
  intros ?? H. by apply strip_ws_rev_shorter in H as [].
Qed.

Lemma trim_bytes_idemp l : trim_bytes (trim_bytes l) = trim_bytes l.
Proof.
  unfold trim_bytes at 1. set (z := trim_bytes l).
  assert (Hs : strip_ws z = None).
  { destruct (trim_end_prefix (trim_start l)) as [k E]. apply (strip_ws_app z k).
    unfold z, trim_bytes. rewrite <- E. apply trim_start_none. }
  unfold trim_start. rewrite strip_all_done by done.
  unfold trim_end at 1. rewrite strip_all_done; [apply rev_involutive|]. apply trim_end_none.
Qed.

Lemma bytes_of_string_of l : Forall (fun z => 0 <= z <= 255) l -> bytes_of (string_of l) = l.
Proof.
  intros Hl. unfold bytes_of, string_of. rewrite String.list_ascii_of_string_of_list_ascii.
  induction Hl as [|z l Hz _ IH]; csimpl; [done|]. rewrite IH. f_equal.
  rewrite N_ascii_embedding by lia. lia.
Qed.

Lemma bytes_of_range s : Forall (fun z => 0 <= z <= 255) (bytes_of s).
Proof.
  unfold bytes_of. apply Forall_fmap, Forall_true. intros a. simpl.
  pose proof (N_ascii_bounded a). lia.
Qed.

Lemma trim_bytes_sub l : exists k j, l = k ++ trim_bytes l ++ j.
Proof.
  destruct (trim_end_prefix (trim_start l)) as [j Ej].
  destruct (strip_all_suffix strip_ws) with (fuel := length l) (l := l) as [k Ek].
  { intros ?? H. by apply strip_ws_shorter in H as []. }
  exists k, j. unfold trim_bytes. by rewrite <- Ej.
Qed.

Lemma trim_idemp s : trim (trim s) = trim s.
Proof.
  unfold trim at 1 3. fold (trim_bytes (bytes_of (trim s))). fold (trim_bytes (bytes_of s)).
  f_equal. unfold trim. fold (trim_bytes (bytes_of s)). rewrite bytes_of_string_of.
  - apply trim_bytes_idemp.
  - pose proof (bytes_of_range s) as Hr. destruct (trim_bytes_sub (bytes_of s)) as (k & j & E).
    rewrite E in Hr. apply Forall_app in Hr as [_ Hr]. by apply Forall_app in Hr as [Hr _].
Qed.

(** ** The last occurrence of a character *)

Lemma rsplit_once_None c s : rsplit_once c s = None <-> contains_char c s = false.
Proof.
  induction s as [|a s IH]; simpl; [done|].
  destruct (rsplit_once c s) as [[l r]|]; destruct (contains_char c s); destruct (Ascii.eqb a c); naive_solver.
Qed.

Lemma rsplit_once_app c s t :
  contains_char c t = false -> rsplit_once c (s +:+ String c t) = Some (s, t).
Proof.
  intros Ht. induction s as [|a s IH]; simpl; [|by rewrite IH].
  rewrite (proj2 (rsplit_once_None c t)) by done. by rewrite Ascii.eqb_refl.
Qed.

Lemma rsplit_once_Some c s l r :
  rsplit_once c s = Some (l, r) -> s = l +:+ String c r /\ contains_char c r = false.
Proof.
  revert l. induction s as [|a s IH]; intros l; simpl; [done|].
  destruct (rsplit_once c s) as [[l' r']|] eqn:E.
  - intros [= <- <-]. destruct (IH l' eq_refl) as [-> ?]. done.
  - destruct (Ascii.eqb_spec a c); [|done]. intros [= <- <-]. subst. by apply rsplit_once_None in E.
Qed.

(** ** Characters *)

Definition is_ascii_alphanumeric (a : ascii) : bool :=
  let n := Z.of_nat (nat_of_ascii a) in
  (48 <=? n) && (n <=? 57) || (65 <=? n) && (n <=? 90) || (97 <=? n) && (n <=? 122).

(** [s.chars().all(p)], for a [p] of ASCII characters only. *)
Fixpoint all_chars (p : ascii -> bool) (s : string) : bool :=
  match s with EmptyString => true | String a s => p a && all_chars p s end.

Lemma all_chars_contains p c s : all_chars p s = true -> p c = false -> contains_char c s = false.
Proof.
  intros Hs Hc. induction s as [|a s IH]; simpl in *; [done|]. apply andb_true_iff in Hs as [Ha Hs].
  rewrite IH by done. destruct (Ascii.eqb_spec a c); [congruence|done].
Qed.

(** ** Decimal numbers *)

Definition digit_char (d : Z) : ascii := ascii_of_N (Z.to_N (48 + d)).

Definition char_digit (c : ascii) : option Z :=
  let n := Z.of_N (N_of_ascii c) in
  if (48 <=? n) && (n <=? 57) then Some (n - 48) else None.

Fixpoint print_go (fuel : nat) (n : Z) (acc : string) : string :=
  match fuel with
  | O => acc
  | S fuel =>
    let acc := String (digit_char (n mod 10)) acc in
    if n / 10 =? 0 then acc else print_go fuel (n / 10) acc
  end.

(** [n.to_string()]: a u64 has at most 20 digits. *)
Definition u64_to_string (n : Z) : string := print_go 20 n "".

(** The digits of [s] after the value read so far; an overflow or a character
    that is no digit ends the parse with the error's message. *)
Fixpoint parse_go (acc : Z) (s : string) : string + Z :=
  match s with
  | EmptyString => inr acc
  | String c s =>
    match char_digit c with
    | None => inl "invalid digit found in string"
    | Some d =>
      let acc := acc * 10 + d in
      if acc <=? u64_max then parse_go acc s
      else inl "number too large to fit in target type"
    end
  end.

(** [s.parse::<u64>()] *)
Definition parse_u64 (s : string) : string + Z :=
  match s with
  | EmptyString => inl "cannot parse integer from empty string"
  | String "+" EmptyString | String "-" EmptyString => inl "invalid digit found in string"
  | String "+" s => parse_go 0 s
  | s => parse_go 0 s
  end.

(** [str::split_once] *)
Fixpoint split_once (c : ascii) (s : string) : option (string * string) :=
  match s with
  | EmptyString => None
  | String a s =>
    if Ascii.eqb a c then Some (EmptyString, s)
    else match split_once c s with Some (l, r) => Some (String a l, r) | None => None end
  end.

Lemma split_once_app c s t : contains_char c s = false -> split_once c (s +:+ String c t) = Some (s, t).
Proof.
  induction s as [|a s IH]; simpl; [by rewrite Ascii.eqb_refl|]. intros [-> Hs]%orb_false_iff. by rewrite IH.
Qed.

Definition i64_min : Z := -9223372036854775808.
Definition i64_max : Z := 9223372036854775807.
Definition is_i64 (z : Z) : Prop := i64_min <= z <= i64_max.

(** [i64::to_string] *)
Definition i64_to_string (n : Z) : string :=
  if n <? 0 then "-" +:+ u64_to_string (- n) else u64_to_string n.

(** [s.parse::<iN>().ok()], for the type whose greatest value is [top]. *)
Definition parse_signed (top : Z) (s : string) : option Z :=
  match s with
  | String "-" EmptyString => None
  | String "-" digits =>
    match digits with
    | String "+" _ => None
    | _ => match parse_u64 digits with inr v => if v <=? top + 1 then Some (- v) else None | inl _ => None end
    end
  | _ => match parse_u64 s with inr v => if v <=? top then Some v else None | inl _ => None end
  end.

Lemma char_digit_char d : 0 <= d <= 9 -> char_digit (digit_char d) = Some d.
Proof.
  intros Hd. assert (E : d = 0 \/ d = 1 \/ d = 2 \/ d = 3 \/ d = 4 \/ d = 5 \/ d = 6 \/ d = 7
    \/ d = 8 \/ d = 9) by lia.
  repeat destruct E as [->|E]; [reflexivity..|]. by subst.
Qed.

(** Reading back what was printed, in front of any rest. *)
Lemma parse_print_go fuel n s :
  0 <= n <= u64_max -> n < 10 ^ Z.of_nat fuel -> (0 < fuel)%nat ->
  parse_go 0 (print_go fuel n s) = parse_go n s.
Proof.
  revert n s. induction fuel as [|fuel IH]; intros n s Hn Hf Hp; [lia|]. cbn [print_go].
  assert (Hm : 0 <= n mod 10 <= 9) by (pose proof (Z.mod_pos_bound n 10); lia).
  assert (Hd : n = 10 * (n / 10) + n mod 10) by (apply Z.div_mod; lia).
  assert (H0 : 0 <= n / 10) by (apply Z.div_pos; lia).
  assert (Hstep : parse_go (n / 10) (String (digit_char (n mod 10)) s) = parse_go n s).
  { cbn [parse_go]. rewrite char_digit_char by done.
    replace (n / 10 * 10 + n mod 10) with n by lia. by rewrite (proj2 (Z.leb_le n _)) by lia. }
  destruct (Z.eqb_spec (n / 10) 0) as [E|E]; [by rewrite <- Hstep, E|].
  destruct fuel as [|fuel].
  - simpl in Hf. lia.
  - rewrite IH; [done|lia| |lia].
    rewrite Nat2Z.inj_succ, Z.pow_succ_r in Hf by lia. lia.
Qed.

Lemma print_go_digit fuel n s :
  (0 < fuel)%nat -> exists d s', 0 <= d <= 9 /\ print_go fuel n s = String (digit_char d) s'.
Proof.
  revert n s. induction fuel as [|fuel IH]; intros n s Hf; [lia|]. cbn [print_go].
  pose proof (Z.mod_pos_bound n 10). case_match; [exists (n mod 10), s; split; [lia|done]|].
  destruct fuel as [|fuel]; [|by apply IH; lia].
  cbn [print_go]. exists (n mod 10), s. split; [lia|done].
Qed.

Lemma print_go_no_char c fuel n s :
  (forall d, 0 <= d <= 9 -> digit_char d <> c) -> contains_char c (print_go fuel n s) = contains_char c s.
Proof.
  intros Hc. revert n s. induction fuel as [|fuel IH]; intros n s; [done|]. cbn [print_go].
  assert (E : contains_char c (String (digit_char (n mod 10)) s) = contains_char c s).
  { simpl. pose proof (Z.mod_pos_bound n 10). destruct (Ascii.eqb_spec (digit_char (n mod 10)) c) as [Hd|]; [|done].
    destruct (Hc (n mod 10)); [lia|done]. }
  case_match; [done|]. by rewrite IH.
Qed.

(** The round trip on every u64. *)
Lemma parse_u64_to_string n : 0 <= n <= u64_max -> parse_u64 (u64_to_string n) = inr n.
Proof.
  intros Hn. unfold u64_to_string.
  assert (E : parse_go 0 (print_go 20 n "") = inr n).
  { rewrite parse_print_go; [done|done|unfold u64_max in *; lia|lia]. }
  destruct (print_go_digit 20 n "") as (d & s & Hd & Ep); [lia|].
  rewrite Ep in *. rewrite <- E.
  assert (Ed : d = 0 \/ d = 1 \/ d = 2 \/ d = 3 \/ d = 4 \/ d = 5 \/ d = 6 \/ d = 7
    \/ d = 8 \/ d = 9) by lia.
  repeat destruct Ed as [->|Ed]; try reflexivity. by subst.
Qed.

Lemma u64_to_string_no_sign n s : u64_to_string n <> String "-" s.
Proof.
  unfold u64_to_string. destruct (print_go_digit 20 n "") as (d & s' & Hd & ->); [lia|]. intros [= E _].
  pose proof (char_digit_char d Hd) as Hc. rewrite E in Hc. discriminate Hc.
Qed.

(** The round trip on every i64. *)
Lemma parse_i64_to_string n : is_i64 n -> parse_signed i64_max (i64_to_string n) = Some n.
Proof.
  unfold is_i64, i64_min, i64_max, i64_to_string. intros Hn. destruct (Z.ltb_spec n 0) as [Hs|Hs].
  - destruct (print_go_digit 20 (- n) "") as (d & s & Hd & Ep); [lia|]. change (print_go 20 (- n) "") with (u64_to_string (- n)) in Ep.
    pose proof (parse_u64_to_string (- n)) as Hp. rewrite Ep in *. change ("-" +:+ String (digit_char d) s) with (String "-" (String (digit_char d) s)).
    unfold parse_signed. rewrite Hp by (unfold u64_max; lia).
    assert (E : - n <=? 9223372036854775807 + 1 = true) by (apply Z.leb_le; lia). rewrite E, Z.opp_involutive.
    assert (Ed : d = 0 \/ d = 1 \/ d = 2 \/ d = 3 \/ d = 4 \/ d = 5 \/ d = 6 \/ d = 7 \/ d = 8 \/ d = 9) by lia.
    repeat destruct Ed as [->|Ed]; try reflexivity. by subst.
  - destruct (print_go_digit 20 n "") as (d & s & Hd & Ep); [lia|]. change (print_go 20 n "") with (u64_to_string n) in Ep.
    pose proof (parse_u64_to_string n) as Hp. rewrite Ep in *.
    unfold parse_signed. rewrite Hp by (unfold u64_max; lia).
    assert (E : n <=? 9223372036854775807 = true) by (apply Z.leb_le; lia). rewrite E.
    assert (Ed : d = 0 \/ d = 1 \/ d = 2 \/ d = 3 \/ d = 4 \/ d = 5 \/ d = 6 \/ d = 7 \/ d = 8 \/ d = 9) by lia.
    repeat destruct Ed as [->|Ed]; try reflexivity. by subst.
Qed.

Lemma u64_to_string_no_colon n : contains_char ":" (u64_to_string n) = false.
Proof.
  unfold u64_to_string. rewrite print_go_no_char; [done|]. intros d Hd E.
  pose proof (char_digit_char d Hd) as Hc. rewrite E in Hc. discriminate Hc.
Qed.
