(* ===== verification/SchedTypes.v ===== *)
(** Data of the node scheduler ([kernel/scheduler/src/scheduler.rs]): service
    specs, nodes, users, replica instances, service infos, actions and the
    scheduler snapshot, with the conversions the source declares on them. *)
From Stdlib Require Import ZArith Lia Ascii.
From stdpp Require Import base tactics gmap strings list.
From S2P Require Import Prelude RustString.

(** ** States of [buckyos_api] the scheduler reads and writes *)

Inductive ServiceState :=
| SS_New | SS_Running | SS_Stopped | SS_Stopping | SS_Restarting | SS_Updating | SS_Deleted.

Inductive ServiceInstanceState :=
| SIS_Deploying | SIS_NotExist | SIS_Exited | SIS_Started | SIS_Stopped.

Definition BASE_APP_PORT : Z := 10000.
Definition MAX_APP_INDEX : Z := 2048.

(** ** Service specs *)

Inductive ServiceSpecType := Kernel | Service | App | Agent.

Definition spec_type_of_string (s : string) : ServiceSpecType :=
  match s with
  | "kernel" => Kernel
  | "service" => Service
  | "frame" => Service
  | "agent" => Agent
  | "app" => App
  | _ => App
  end.

Definition is_app_like (t : ServiceSpecType) : bool :=
  match t with App | Agent => true | _ => false end.

Inductive ServiceSpecState :=
| SpecNew | Deployed | DeployFailed | SpecAbnormal | Disable | SpecDeleted.

Definition spec_state_display (s : ServiceSpecState) : string :=
  match s with
  | SpecNew => "New"
  | Deployed => "Deployed"
  | DeployFailed => "DeployFailed"
  | SpecAbnormal => "Abnormal"
  | Disable => "Disable"
  | SpecDeleted => "Deleted"
  end.

Definition to_config_state (s : ServiceSpecState) : result ServiceState :=
  match s with
  | SpecNew => Ok SS_New
  | Deployed => Ok SS_Running
  | Disable => Ok SS_Stopped
  | SpecDeleted => Ok SS_Deleted
  | DeployFailed | SpecAbnormal =>
    Err ("cannot persist scheduler-only service state " +:+ spec_state_display s
         +:+ " to config")
  end.

Definition spec_state_of_string (s : string) : ServiceSpecState :=
  match s with
  | "New" => SpecNew
  | "Deployed" => Deployed
  | "DeployFailed" => DeployFailed
  | "Abnormal" => SpecAbnormal
  | "Unavailable" => Disable
  | "Deleted" => SpecDeleted
  | _ => Disable
  end.

Definition spec_state_of_config (s : ServiceState) : ServiceSpecState :=
  match s with
  | SS_New => SpecNew
  | SS_Running => Deployed
  | SS_Stopped => Disable
  | SS_Stopping => Disable
  | SS_Restarting => SpecAbnormal
  | SS_Updating => SpecAbnormal
  | SS_Deleted => SpecDeleted
  end.

Record ServiceSpec := mkSpec {
  sp_id : string;
  sp_app_id : string;
  sp_app_index : Z;
  sp_owner_id : string;
  sp_spec_type : ServiceSpecType;
  sp_state : ServiceSpecState;
  sp_best_instance_count : Z;
  sp_need_container : bool;
  sp_required_cpu_mhz : Z;
  sp_required_memory : Z;
  sp_required_gpu_tflops : float;
  sp_required_gpu_mem : Z;
  sp_node_affinity : option string;
  sp_network_affinity : option string;
  sp_service_ports_config : gmap string Z
}.

(** ** Users *)

Inductive UserType := Admin | User | Limited.

Definition user_type_of_string (s : string) : UserType :=
  match s with
  | "admin" => Admin
  | "user" => User
  | "limited" => Limited
  | _ => User
  end.

Record UserItem := mkUser {
  us_userid : string;
  us_user_type : UserType;
  us_res_pool_id : option string
}.

(** ** Nodes *)

Inductive OPTaskBody := NodeInitBaseService.
Inductive OPTaskState := TaskNew | TaskRunning | TaskDone | TaskFailed.

Record OPTask := mkOPTask {
  op_id : string;
  op_creator_id : option string;
  op_body : OPTaskBody;
  op_create_time : Z;
  op_create_step_id : Z;
  op_max_timeout_sec : Z;
  op_status : OPTaskState;
  op_start_time : Z
}.

Record NodeResource := mkNodeResource {
  nr_total_capacity : Z;
  nr_used_capacity : Z
}.

Inductive NodeType :=
| OOD | Server | Desktop | Mobile | Sensor | IoTController | UnknownClient (s : string).

Definition node_type_of_string (s : string) : NodeType :=
  match s with
  | "ood" => OOD
  | "server" => Server
  | "desktop" => Desktop
  | "mobile" => Mobile
  | "sensor" => Sensor
  | "controller" => IoTController
  | _ => UnknownClient s
  end.

Inductive NodeState :=
| NodeNew | NodePrepare | NodeReady | NodeAbnormal | NodeUnavailable | NodeRemoving | NodeDeleted.

Definition node_state_display (s : NodeState) : string :=
  match s with
  | NodeNew => "New"
  | NodePrepare => "Prepare"
  | NodeReady => "Ready"
  | NodeAbnormal => "Abnormal"
  | NodeUnavailable => "Unavailable"
  | NodeRemoving => "Removing"
  | NodeDeleted => "Deleted"
  end.

Definition node_state_of_string (s : string) : NodeState :=
  match s with
  | "New" => NodeNew
  | "Prepare" => NodePrepare
  | "Ready" => NodeReady
  | "Abnormal" => NodeAbnormal
  | "Unavailable" => NodeUnavailable
  | "Removing" => NodeRemoving
  | "Deleted" => NodeDeleted
  | _ => NodeNew
  end.

Record NodeItem := mkNode {
  nd_id : string;
  nd_node_type : NodeType;
  nd_labels : list string;
  nd_network_zone : string;
  nd_support_container : bool;
  nd_state : NodeState;
  nd_available_cpu_mhz : Z;
  nd_total_cpu_mhz : Z;
  nd_available_memory : Z;
  nd_total_memory : Z;
  nd_available_gpu_memory : Z;
  nd_total_gpu_memory : Z;
  nd_gpu_tflops : float;
  nd_resources : gmap string NodeResource;
  nd_op_tasks : list OPTask
}.

(** ** Replica instances, service infos, actions *)

Inductive InstanceState := InstPrepare | InstRunning | Suspended | InstDeleted.

Definition instance_state_of_string (s : string) : InstanceState :=
  match to_lower s with
  | "prepare" => InstPrepare
  | "running" => InstRunning
  | "suspended" => Suspended
  | "deleted" => InstDeleted
  | _ => InstPrepare
  end.

Definition instance_state_of_report (s : ServiceInstanceState) : InstanceState :=
  match s with
  | SIS_Started => InstRunning
  | _ => Suspended
  end.

Definition instance_state_to_string (s : InstanceState) : string :=
  match s with
  | InstPrepare => "prepare"
  | InstRunning => "running"
  | Suspended => "suspended"
  | InstDeleted => "deleted"
  end.

Record ReplicaInstance := mkInstance {
  ri_node_id : string;
  ri_spec_id : string;
  ri_res_limits : gmap string float;
  ri_instance_id : string;
  ri_last_update_time : Z;
  ri_state : InstanceState;
  ri_service_ports : gmap string Z
}.

Definition is_app_instance (i : ReplicaInstance) : bool := contains_char "@" (ri_spec_id i).

Inductive ServiceInfo :=
| SingleInstance (i : ReplicaInstance)
| RandomCluster (m : gmap string (Z * ReplicaInstance)).

Inductive SchedulerAction :=
| ChangeNodeStatus (id : string) (s : NodeState)
| CreateOPTask (t : OPTask)
| ChangeServiceStatus (id : string) (s : ServiceSpecState)
| InstanceReplica (i : ReplicaInstance)
| UpdateInstance (id : string) (i : ReplicaInstance)
| RemoveInstance (spec_id instance_id node_id : string)
| UpdateServiceInfo (id : string) (i : ServiceInfo).

(** The scheduler snapshot. *)
Record NodeScheduler := mkSched {
  ns_schedule_step_id : Z;
  ns_users : gmap string UserItem;
  ns_default_user_id : string;
  ns_nodes : gmap string NodeItem;
  ns_specs : gmap string ServiceSpec;
  ns_replica_instances : gmap string ReplicaInstance;
  ns_service_infos : gmap string ServiceInfo;
  ns_service_info_refresh_times : gmap string Z;
  ns_schedule_time : Z
}.

(** ** Equality *)

#[export] Instance ServiceState_eq_dec : EqDecision ServiceState.
Proof. solve_decision. Defined.
#[export] Instance ServiceInstanceState_eq_dec : EqDecision ServiceInstanceState.
Proof. solve_decision. Defined.
#[export] Instance ServiceSpecType_eq_dec : EqDecision ServiceSpecType.
Proof. solve_decision. Defined.
#[export] Instance ServiceSpecState_eq_dec : EqDecision ServiceSpecState.
Proof. solve_decision. Defined.
#[export] Instance UserType_eq_dec : EqDecision UserType.
Proof. solve_decision. Defined.
#[export] Instance UserItem_eq_dec : EqDecision UserItem.
Proof. solve_decision. Defined.
#[export] Instance OPTaskBody_eq_dec : EqDecision OPTaskBody.
Proof. solve_decision. Defined.
#[export] Instance OPTaskState_eq_dec : EqDecision OPTaskState.
Proof. solve_decision. Defined.
#[export] Instance OPTask_eq_dec : EqDecision OPTask.
Proof. solve_decision. Defined.
#[export] Instance NodeResource_eq_dec : EqDecision NodeResource.
Proof. solve_decision. Defined.
#[export] Instance NodeType_eq_dec : EqDecision NodeType.
Proof. solve_decision. Defined.
#[export] Instance NodeState_eq_dec : EqDecision NodeState.
Proof. solve_decision. Defined.
#[export] Instance InstanceState_eq_dec : EqDecision InstanceState.
Proof. solve_decision. Defined.

(** The derived [PartialEq] of the types that hold floats. *)
#[export] Instance peq_ServiceSpec : PartialEq ServiceSpec := fun a b =>
  peq (sp_id a) (sp_id b) && peq (sp_app_id a) (sp_app_id b) &&
  peq (sp_app_index a) (sp_app_index b) && peq (sp_owner_id a) (sp_owner_id b) &&
  peq (sp_spec_type a) (sp_spec_type b) && peq (sp_state a) (sp_state b) &&
  peq (sp_best_instance_count a) (sp_best_instance_count b) &&
  peq (sp_need_container a) (sp_need_container b) &&
  peq (sp_required_cpu_mhz a) (sp_required_cpu_mhz b) &&
  peq (sp_required_memory a) (sp_required_memory b) &&
  peq (sp_required_gpu_tflops a) (sp_required_gpu_tflops b) &&
  peq (sp_required_gpu_mem a) (sp_required_gpu_mem b) &&
  peq (sp_node_affinity a) (sp_node_affinity b) &&
  peq (sp_network_affinity a) (sp_network_affinity b) &&
  peq (sp_service_ports_config a) (sp_service_ports_config b).

#[export] Instance peq_NodeItem : PartialEq NodeItem := fun a b =>
  peq (nd_id a) (nd_id b) && peq (nd_node_type a) (nd_node_type b) &&
  peq (nd_labels a) (nd_labels b) && peq (nd_network_zone a) (nd_network_zone b) &&
  peq (nd_support_container a) (nd_support_container b) &&
  peq (nd_state a) (nd_state b) &&
  peq (nd_available_cpu_mhz a) (nd_available_cpu_mhz b) &&
  peq (nd_total_cpu_mhz a) (nd_total_cpu_mhz b) &&
  peq (nd_available_memory a) (nd_available_memory b) &&
  peq (nd_total_memory a) (nd_total_memory b) &&
  peq (nd_available_gpu_memory a) (nd_available_gpu_memory b) &&
  peq (nd_total_gpu_memory a) (nd_total_gpu_memory b) &&
  peq (nd_gpu_tflops a) (nd_gpu_tflops b) &&
  peq (nd_resources a) (nd_resources b) && peq (nd_op_tasks a) (nd_op_tasks b).

#[export] Instance peq_ReplicaInstance : PartialEq ReplicaInstance := fun a b =>
  peq (ri_node_id a) (ri_node_id b) && peq (ri_spec_id a) (ri_spec_id b) &&
  peq (ri_res_limits a) (ri_res_limits b) &&
  peq (ri_instance_id a) (ri_instance_id b) &&
  peq (ri_last_update_time a) (ri_last_update_time b) &&
  peq (ri_state a) (ri_state b) && peq (ri_service_ports a) (ri_service_ports b).

#[export] Instance peq_ServiceInfo : PartialEq ServiceInfo := fun a b =>
  match a, b with
  | SingleInstance i, SingleInstance j => peq i j
  | RandomCluster m, RandomCluster n => peq m n
  | _, _ => false
  end.

(** ** Field updates ([x.f = v]) *)

Definition set_spec_state (st : ServiceSpecState) (s : ServiceSpec) : ServiceSpec :=
  mkSpec (sp_id s) (sp_app_id s) (sp_app_index s) (sp_owner_id s) (sp_spec_type s) st
    (sp_best_instance_count s) (sp_need_container s) (sp_required_cpu_mhz s)
    (sp_required_memory s) (sp_required_gpu_tflops s) (sp_required_gpu_mem s)
    (sp_node_affinity s) (sp_network_affinity s) (sp_service_ports_config s).

Definition set_best_instance_count (n : Z) (s : ServiceSpec) : ServiceSpec :=
  mkSpec (sp_id s) (sp_app_id s) (sp_app_index s) (sp_owner_id s) (sp_spec_type s)
    (sp_state s) n (sp_need_container s) (sp_required_cpu_mhz s)
    (sp_required_memory s) (sp_required_gpu_tflops s) (sp_required_gpu_mem s)
    (sp_node_affinity s) (sp_network_affinity s) (sp_service_ports_config s).

Definition set_node_state (st : NodeState) (n : NodeItem) : NodeItem :=
  mkNode (nd_id n) (nd_node_type n) (nd_labels n) (nd_network_zone n)
    (nd_support_container n) st (nd_available_cpu_mhz n) (nd_total_cpu_mhz n)
    (nd_available_memory n) (nd_total_memory n) (nd_available_gpu_memory n)
    (nd_total_gpu_memory n) (nd_gpu_tflops n) (nd_resources n) (nd_op_tasks n).

Definition set_node_available (cpu mem gpu : Z) (n : NodeItem) : NodeItem :=
  mkNode (nd_id n) (nd_node_type n) (nd_labels n) (nd_network_zone n)
    (nd_support_container n) (nd_state n) cpu (nd_total_cpu_mhz n)
    mem (nd_total_memory n) gpu
    (nd_total_gpu_memory n) (nd_gpu_tflops n) (nd_resources n) (nd_op_tasks n).

Definition set_instance_state (st : InstanceState) (i : ReplicaInstance) : ReplicaInstance :=
  mkInstance (ri_node_id i) (ri_spec_id i) (ri_res_limits i) (ri_instance_id i)
    (ri_last_update_time i) st (ri_service_ports i).

Definition set_users (m : gmap string UserItem) (d : string) (s : NodeScheduler) :=
  mkSched (ns_schedule_step_id s) m d (ns_nodes s) (ns_specs s) (ns_replica_instances s)
    (ns_service_infos s) (ns_service_info_refresh_times s) (ns_schedule_time s).

Definition set_nodes (m : gmap string NodeItem) (s : NodeScheduler) :=
  mkSched (ns_schedule_step_id s) (ns_users s) (ns_default_user_id s) m (ns_specs s)
    (ns_replica_instances s) (ns_service_infos s) (ns_service_info_refresh_times s)
    (ns_schedule_time s).

Definition set_specs (m : gmap string ServiceSpec) (s : NodeScheduler) :=
  mkSched (ns_schedule_step_id s) (ns_users s) (ns_default_user_id s) (ns_nodes s) m
    (ns_replica_instances s) (ns_service_infos s) (ns_service_info_refresh_times s)
    (ns_schedule_time s).

Definition set_instances (m : gmap string ReplicaInstance) (s : NodeScheduler) :=
  mkSched (ns_schedule_step_id s) (ns_users s) (ns_default_user_id s) (ns_nodes s)
    (ns_specs s) m (ns_service_infos s) (ns_service_info_refresh_times s)
    (ns_schedule_time s).

Definition set_infos (m : gmap string ServiceInfo) (t : gmap string Z) (s : NodeScheduler) :=
  mkSched (ns_schedule_step_id s) (ns_users s) (ns_default_user_id s) (ns_nodes s)
    (ns_specs s) (ns_replica_instances s) m t (ns_schedule_time s).
