(* ===== verification/Scheduler.v ===== *)
(** The node scheduler ([kernel/scheduler/src/scheduler.rs]): instance ids,
    port allocation, node filtering and scoring, placement with the shadow
    resource ledger, node review, service infos, and [schedule] itself.

    [NodeScheduler] methods taking [&mut self] give the state they leave behind
    next to their result, errors included.  The traversal order of every
    [HashMap] is the parameter [HashOrder]; [clock_at id] is the clock reading
    made when instance [id] is created, [now] the one of [calc_service_infos]. *)
From Stdlib Require Import ZArith Lia Ascii Floats.SpecFloat.
From stdpp Require Import base tactics gmap strings list.
From S2P Require Import Prelude RustString SchedTypes.

Definition SMALL_SYSTEM_NODE_COUNT : nat := 7.
Definition INSTANCE_ALIVE_TIME : Z := 90.
Definition SERVICE_INFO_REFRESH_INTERVAL : Z := 30.

(** ** Identifiers *)

(** [spec_id@owner_id@node_id] *)
Definition parse_instance_id (instance_id : string) : result (string * string * string) :=
  match split_on "@" instance_id with
  | [a; o; n] => Ok (a, o, n)
  | [a; n] => Ok (a, "root", n)
  | _ => Err ("Invalid instance_id format: " +:+ instance_id)
  end.

Definition parse_spec_id (spec_id : string) : result (string * string) :=
  match split_on "@" spec_id with
  | [a; o] => Ok (a, o)
  | _ => Ok (spec_id, "root")
  end.

Definition create_replica_instance_id (spec : ServiceSpec) (node_id : string) : string :=
  sp_id spec +:+ "@" +:+ node_id.

(** ** Construction and access *)

Definition new_empty (step_id now : Z) : NodeScheduler :=
  mkSched step_id ∅ "" ∅ ∅ ∅ ∅ ∅ now.

Definition new (step_id : Z) (users : gmap string UserItem) (nodes : gmap string NodeItem)
    (specs : gmap string ServiceSpec) (replica_instances : gmap string ReplicaInstance)
    (service_infos : gmap string ServiceInfo) (now : Z) : NodeScheduler :=
  mkSched step_id users "" nodes specs replica_instances service_infos ∅ now.

Definition add_user (user : UserItem) (s : NodeScheduler) : NodeScheduler :=
  set_users (<[us_userid user := user]> (ns_users s))
    (if String.eqb (ns_default_user_id s) "" then us_userid user else ns_default_user_id s) s.

Definition add_node (node : NodeItem) (s : NodeScheduler) : NodeScheduler :=
  set_nodes (<[nd_id node := node]> (ns_nodes s)) s.

Definition add_service_spec (spec : ServiceSpec) (s : NodeScheduler) : NodeScheduler :=
  set_specs (<[sp_id spec := spec]> (ns_specs s)) s.

Definition get_service_spec (s : NodeScheduler) (spec_id : string) : option ServiceSpec :=
  ns_specs s !! spec_id.

Definition get_replica_instance (s : NodeScheduler) (id : string) : option ReplicaInstance :=
  ns_replica_instances s !! id.

Definition add_replica_instance (i : ReplicaInstance) (s : NodeScheduler) : NodeScheduler :=
  set_instances (<[ri_instance_id i := i]> (ns_replica_instances s)) s.

Definition needs_snapshot_persist (s : NodeScheduler) (last : option NodeScheduler) : bool :=
  match last with
  | None => true
  | Some l =>
    negb (peq (ns_default_user_id s) (ns_default_user_id l))
    || negb (peq (ns_users s) (ns_users l))
    || negb (peq (ns_nodes s) (ns_nodes l))
    || negb (peq (ns_specs s) (ns_specs l))
    || negb (peq (ns_replica_instances s) (ns_replica_instances l))
    || negb (peq (ns_service_infos s) (ns_service_infos l))
    || negb (peq (ns_service_info_refresh_times s) (ns_service_info_refresh_times l))
  end.

(** ** Node filter and score *)

Definition filter_node_for_instance (node : NodeItem) (spec : ServiceSpec) : bool :=
  if negb (bool_decide (nd_state node = NodeReady)) then false
  else if negb (bool_decide (nd_node_type node = OOD))
       && negb (bool_decide (nd_node_type node = Server)) then false
  else if sp_need_container spec && negb (nd_support_container node) then false
  else if (nd_available_cpu_mhz node <? sp_required_cpu_mhz spec)
       || (nd_available_memory node <? sp_required_memory spec) then false
  else if (nd_available_gpu_memory node <? sp_required_gpu_mem spec)
       || SFltb (nd_gpu_tflops node) (sp_required_gpu_tflops spec) then false
  else match sp_node_affinity spec with
       | Some affinity => bool_decide (affinity ∈ nd_labels node)
       | None => true
       end.

Definition score_node (node : NodeItem) (spec : ServiceSpec) : float :=
  let score := f64_of_Z 0 in
  let score :=
    if 0 <? nd_total_cpu_mhz node then
      let cpu_ratio :=
        f64_div (f64_sub (f64_of_Z (nd_available_cpu_mhz node))
                         (f64_of_Z (sp_required_cpu_mhz spec)))
                (f64_of_Z (nd_total_cpu_mhz node)) in
      let mem_ratio :=
        f64_div (f64_sub (f64_of_Z (nd_available_memory node))
                         (f64_of_Z (sp_required_memory spec)))
                (f64_of_Z (Z.max (nd_total_memory node) 1)) in
      f64_add score
        (f64_mul (f64_div (f64_add cpu_ratio mem_ratio) (f64_of_Z 2)) (f64_of_Z 100))
    else score in
  let score :=
    if 0 <? nd_total_cpu_mhz node then
      let idle_ratio :=
        f64_div (f64_of_Z (nd_available_cpu_mhz node)) (f64_of_Z (nd_total_cpu_mhz node)) in
      f64_add score (f64_mul idle_ratio (f64_of_Z 50))
    else score in
  match sp_network_affinity spec with
  | Some a => if String.eqb (nd_network_zone node) a then f64_add score (f64_of_Z 30) else score
  | None => score
  end.

(** [sort_by(|a, b| b.0.partial_cmp(&a.0).unwrap())]: descending and stable.  A
    sort of two or more elements compares each of them at least once, so a NaN
    among them reaches the [unwrap]. *)
Definition sort_scored {A} (l : list (float * A)) : result (list (float * A)) :=
  if existsb (fun x => is_nan x.1) l && (2 <=? length l)%nat then Panic
  else Ok (sort_stable (fun x y => score_geb x.1 y.1) l).

Section scheduler.
Context `{HashOrder} (b : build) (clock_at : string -> Z).

(** ** Placement *)

Definition alloc_replica_instance_port (app_index : Z) (service_name : string)
    (expose_port : option Z) : result Z :=
  if String.eqb service_name "www" then
    if app_index =? 0 then
      match expose_port with Some p => Ok p | None => Ok 0 end
    else
      x ← unsigned_op b u16_max (app_index * 16);
      unsigned_op b u16_max (x + BASE_APP_PORT)
  else match expose_port with Some p => Ok p | None => Ok 0 end.

Fixpoint alloc_service_ports (spec : ServiceSpec) (l : list (string * Z))
    (ports : gmap string Z) : result (gmap string Z) :=
  match l with
  | [] => Ok ports
  | (service_name, expose_port) :: l =>
    p ← alloc_replica_instance_port (sp_app_index spec) service_name (Some expose_port);
    alloc_service_ports spec l (<[service_name := p]> ports)
  end.

Definition make_instance (spec : ServiceSpec) (ports : gmap string Z) (node : NodeItem)
  : ReplicaInstance :=
  let id := create_replica_instance_id spec (nd_id node) in
  mkInstance (nd_id node) (sp_id spec) ∅ id (clock_at id) InstRunning ports.

Definition create_replica_instance (spec : ServiceSpec) (node_list : list NodeItem)
  : result (list ReplicaInstance) :=
  match List.filter (fun node => filter_node_for_instance node spec) node_list with
  | [] => Err "No suitable node found for service_spec"
  | candidates =>
    let candidate_node_count := Z.of_nat (length candidates) mod (u32_max + 1) in
    let instance_count := Z.min (sp_best_instance_count spec) candidate_node_count in
    scored ← sort_scored ((fun node => (score_node node spec, node)) <$> candidates);
    let selected := take (Z.to_nat instance_count) scored in
    ports ← alloc_service_ports spec (iter (sp_service_ports_config spec)) ∅;
    Ok ((fun sn => make_instance spec ports sn.2) <$> selected)
  end.

(** ** Reconciliation of one spec against the shadow ledger *)

(** [if let Some(x) = l.iter_mut().find(p) { *x = f(x) }] *)
Fixpoint update_first {A} (p : A -> bool) (f : A -> A) (l : list A) : list A :=
  match l with
  | [] => []
  | x :: l => if p x then f x :: l else x :: update_first p f l
  end.

Definition charge_node (spec : ServiceSpec) (n : NodeItem) : NodeItem :=
  set_node_available (sat_sub (nd_available_cpu_mhz n) (sp_required_cpu_mhz spec))
    (sat_sub (nd_available_memory n) (sp_required_memory spec))
    (sat_sub (nd_available_gpu_memory n) (sp_required_gpu_mem spec)) n.

Definition charge_shadow (spec : ServiceSpec) (shadow : list NodeItem)
    (i : ReplicaInstance) : list NodeItem :=
  update_first (fun n => String.eqb (nd_id n) (ri_node_id i)) (charge_node spec) shadow.

Definition existing_instances (s : NodeScheduler) (spec : ServiceSpec) : list ReplicaInstance :=
  List.filter (fun i => String.eqb (ri_spec_id i) (sp_id spec)
                        && negb (bool_decide (ri_state i = InstDeleted)))
    (values (ns_replica_instances s)).

Definition reconcile_spec_instances (s : NodeScheduler) (spec : ServiceSpec)
    (shadow : list NodeItem) : list NodeItem * result (list ReplicaInstance) :=
  let existing := existing_instances s spec in
  let existing_count := Z.of_nat (length existing) mod (u32_max + 1) in
  let desired_count := sp_best_instance_count spec in
  if desired_count <=? existing_count then (shadow, Ok [])
  else
    let existing_node_ids := ri_node_id <$> existing in
    let available :=
      List.filter (fun n => negb (bool_decide (nd_id n ∈ existing_node_ids))) shadow in
    let desired_spec := set_best_instance_count (desired_count - existing_count) spec in
    match create_replica_instance desired_spec available with
    | Ok new_instances => (fold_left (charge_shadow spec) new_instances shadow, Ok new_instances)
    | e => (shadow, e)
    end.

(** ** Step 2: spec changes *)

(** The local state of [schedule_spec_change]. *)
Record spec_loop := mkLoop {
  lp_sched : NodeScheduler;
  lp_shadow : list NodeItem;
  lp_actions : list SchedulerAction
}.

Definition insert_instances (l : list ReplicaInstance) (s : NodeScheduler) : NodeScheduler :=
  fold_left (fun s i => add_replica_instance i s) l s.

Definition remove_spec_instance (acc : NodeScheduler * list SchedulerAction)
    (instance_id : string) : NodeScheduler * list SchedulerAction :=
  match ns_replica_instances acc.1 !! instance_id with
  | Some i =>
    (set_instances (delete instance_id (ns_replica_instances acc.1)) acc.1,
     acc.2 ++ [RemoveInstance (ri_spec_id i) (ri_instance_id i) (ri_node_id i)])
  | None => acc
  end.

Definition stop_spec_instance (acc : NodeScheduler * list SchedulerAction)
    (instance_id : string) : NodeScheduler * list SchedulerAction :=
  match ns_replica_instances acc.1 !! instance_id with
  | Some i =>
    let i := set_instance_state Suspended i in
    (set_instances (<[instance_id := i]> (ns_replica_instances acc.1)) acc.1,
     acc.2 ++ [UpdateInstance (ri_instance_id i) i])
  | None => acc
  end.

Definition set_spec_state_at (spec_id : string) (st : ServiceSpecState) (s : NodeScheduler)
  : NodeScheduler :=
  set_specs (alter (set_spec_state st) spec_id (ns_specs s)) s.

Definition instance_ids_where (p : ReplicaInstance -> bool) (s : NodeScheduler) : list string :=
  (List.filter (fun kv => p kv.2) (iter (ns_replica_instances s))).*1.

Definition spec_change_step (st : spec_loop) (spec_id : string) : spec_loop * result unit :=
  let s := lp_sched st in
  match ns_specs s !! spec_id with
  | None => (st, Ok ())
  | Some spec =>
    match sp_state spec with
    | SpecNew | Deployed =>
      match reconcile_spec_instances s spec (lp_shadow st) with
      | (shadow, Ok new_instances) =>
        let s := insert_instances new_instances s in
        let actions := lp_actions st ++ (InstanceReplica <$> new_instances) in
        if bool_decide (sp_state spec = SpecNew) then
          (mkLoop (set_spec_state_at spec_id Deployed s) shadow
             (actions ++ [ChangeServiceStatus spec_id Deployed]), Ok ())
        else (mkLoop s shadow actions, Ok ())
      | (shadow, Err m) => (mkLoop s shadow (lp_actions st), Err m)
      | (shadow, Panic) => (mkLoop s shadow (lp_actions st), Panic)
      end
    | SpecDeleted =>
      let ids := instance_ids_where (fun i => String.eqb (ri_spec_id i) spec_id) s in
      let r := fold_left remove_spec_instance ids (s, lp_actions st) in
      (mkLoop (set_spec_state_at spec_id SpecDeleted r.1) (lp_shadow st)
         (r.2 ++ [ChangeServiceStatus spec_id SpecDeleted]), Ok ())
    | Disable =>
      if negb (is_app_like (sp_spec_type spec)) then (st, Ok ())
      else
        let ids := instance_ids_where
          (fun i => String.eqb (ri_spec_id i) spec_id
                    && negb (bool_decide (ri_state i = Suspended))
                    && negb (bool_decide (ri_state i = InstDeleted))) s in
        let r := fold_left stop_spec_instance ids (s, lp_actions st) in
        (mkLoop r.1 (lp_shadow st) r.2, Ok ())
    | _ => (st, Ok ())
    end
  end.

Definition initial_shadow (s : NodeScheduler) : list NodeItem :=
  List.filter (fun n => bool_decide (nd_state n = NodeReady)) (values (ns_nodes s)).

Definition schedule_spec_change (s : NodeScheduler)
  : NodeScheduler * result (list SchedulerAction) :=
  match fold_result spec_change_step (mkLoop s (initial_shadow s) []) (keys (ns_specs s)) with
  | (st, Ok _) => (lp_sched st, Ok (lp_actions st))
  | (st, Err m) => (lp_sched st, Err m)
  | (st, Panic) => (lp_sched st, Panic)
  end.

Definition spec_differs (spec last_spec : ServiceSpec) : bool :=
  negb (peq (sp_state spec) (sp_state last_spec))
  || negb (peq (sp_best_instance_count spec) (sp_best_instance_count last_spec))
  || negb (peq (sp_required_cpu_mhz spec) (sp_required_cpu_mhz last_spec))
  || negb (peq (sp_required_memory spec) (sp_required_memory last_spec))
  || negb (peq (sp_node_affinity spec) (sp_node_affinity last_spec))
  || negb (peq (sp_network_affinity spec) (sp_network_affinity last_spec)).

Definition is_spec_changed (s : NodeScheduler) (last : option NodeScheduler) : bool :=
  match last with
  | None => true
  | Some l =>
    if negb (bool_decide (size (ns_specs s) = size (ns_specs l))) then true
    else existsb (fun kv => match ns_specs l !! kv.1 with
                            | None => true
                            | Some last_spec => spec_differs kv.2 last_spec
                            end) (iter (ns_specs s))
  end.

(** ** Step 1: node review *)

Definition resort_node (node : NodeItem) : option (NodeItem * SchedulerAction) :=
  match nd_state node with
  | NodeNew => Some (set_node_state NodePrepare node, ChangeNodeStatus (nd_id node) NodePrepare)
  | NodeRemoving =>
    Some (set_node_state NodeDeleted node, ChangeNodeStatus (nd_id node) NodeDeleted)
  | _ => None
  end.

(** [check_node_op_tasks] returns [Ok] without looking at the tasks. *)
Definition check_node_op_tasks (node : NodeItem) (actions : list SchedulerAction)
  : list SchedulerAction * result unit := (actions, Ok ()).

Definition resort_nodes_step (acc : NodeScheduler * list SchedulerAction) (node_id : string)
  : (NodeScheduler * list SchedulerAction) * result unit :=
  let '(actions, r) :=
    match ns_nodes acc.1 !! node_id with
    | Some node => check_node_op_tasks node acc.2
    | None => (acc.2, Ok ())
    end in
  match r with
  | Ok _ =>
    match ns_nodes acc.1 !! node_id ≫= resort_node with
    | Some (node, action) =>
      ((set_nodes (<[node_id := node]> (ns_nodes acc.1)) acc.1, actions ++ [action]), Ok ())
    | None => ((acc.1, actions), Ok ())
    end
  | e => ((acc.1, actions), e)
  end.

Definition resort_nodes (s : NodeScheduler) : NodeScheduler * result (list SchedulerAction) :=
  match fold_result resort_nodes_step (s, []) (keys (ns_nodes s)) with
  | ((s, actions), Ok _) => (s, Ok actions)
  | ((s, _), Err m) => (s, Err m)
  | ((s, _), Panic) => (s, Panic)
  end.

(** ** Step 4: service infos *)

(** [spec_id -> instances], built in one pass over the instances. *)
Definition build_spec_index (l : list ReplicaInstance) : gmap string (list ReplicaInstance) :=
  fold_left (fun m i =>
    <[ri_spec_id i := default [] (m !! ri_spec_id i) ++ [i]]> m) l ∅.

Fixpoint collect_alive (now : Z) (l : list ReplicaInstance)
    (info_map : gmap string (Z * ReplicaInstance)) : result (gmap string (Z * ReplicaInstance)) :=
  match l with
  | [] => Ok info_map
  | i :: l =>
    if bool_decide (ri_state i = InstRunning) then
      age ← unsigned_op b u64_max (now - ri_last_update_time i);
      if age <? INSTANCE_ALIVE_TIME
      then collect_alive now l (<[ri_instance_id i := (100, i)]> info_map)
      else collect_alive now l info_map
    else collect_alive now l info_map
  end.

Definition new_service_info (info_map : gmap string (Z * ReplicaInstance)) : ServiceInfo :=
  match map_to_list info_map with
  | [(_, (_, i))] => SingleInstance i
  | _ => RandomCluster info_map
  end.

Definition calc_spec_info (now : Z) (last : option NodeScheduler)
    (index : gmap string (list ReplicaInstance))
    (acc : NodeScheduler * list SchedulerAction) (spec_id : string)
  : (NodeScheduler * list SchedulerAction) * result unit :=
  let s := acc.1 in
  match collect_alive now (default [] (index !! spec_id)) ∅ with
  | Err m => (acc, Err m)
  | Panic => (acc, Panic)
  | Ok info_map =>
    let new_info := new_service_info info_map in
    let old_info := last ≫= fun l => ns_service_infos l !! spec_id in
    let old_refresh_time :=
      default 0
        (match last ≫= fun l => ns_service_info_refresh_times l !! spec_id with
         | Some t => Some t
         | None => (fun _ => default 0 (ns_schedule_time <$> last)) <$> old_info
         end) in
    let is_need_update :=
      match old_info with Some old => negb (peq old new_info) | None => true end in
    let set i t := set_infos (<[spec_id := i]> (ns_service_infos s))
                     (<[spec_id := t]> (ns_service_info_refresh_times s)) s in
    if is_need_update then
      match old_info with
      | Some old =>
        if sat_sub now old_refresh_time <? SERVICE_INFO_REFRESH_INTERVAL
        then ((set old old_refresh_time, acc.2), Ok ())
        else ((set new_info now, acc.2 ++ [UpdateServiceInfo spec_id new_info]), Ok ())
      | None => ((set new_info now, acc.2 ++ [UpdateServiceInfo spec_id new_info]), Ok ())
      end
    else ((set new_info old_refresh_time, acc.2), Ok ())
  end.

Definition calc_service_infos (now : Z) (last : option NodeScheduler) (s : NodeScheduler)
  : NodeScheduler * result (list SchedulerAction) :=
  let index := build_spec_index (values (ns_replica_instances s)) in
  match fold_result (calc_spec_info now last index) (s, []) (keys (ns_specs s)) with
  | ((s, actions), Ok _) => (s, Ok actions)
  | ((s, _), Err m) => (s, Err m)
  | ((s, _), Panic) => (s, Panic)
  end.

(** ** One round of scheduling *)

Definition schedule (now : Z) (last : option NodeScheduler) (s : NodeScheduler)
  : NodeScheduler * result (list SchedulerAction) :=
  if bool_decide (size (ns_nodes s) = 0%nat) then (s, Err "No nodes found")
  else
    let is_small_system := (size (ns_nodes s) <=? SMALL_SYSTEM_NODE_COUNT)%nat in
    match resort_nodes s with
    | (s, Ok node_actions) =>
      if negb (bool_decide (node_actions = [])) && is_small_system then (s, Ok node_actions)
      else
        match (if is_spec_changed s last then schedule_spec_change s else (s, Ok [])) with
        | (s, Ok spec_actions) =>
          match calc_service_infos now last s with
          | (s, Ok info_actions) => (s, Ok (node_actions ++ spec_actions ++ info_actions))
          | e => e
          end
        | e => e
        end
    | e => e
    end.
End scheduler.
