(* ===== verification/SchedulerFacts.v ===== *)
(** Placement in the node scheduler: what [create_replica_instance],
    [reconcile_spec_instances] and [schedule_spec_change] promise. *)
From Stdlib Require Import ZArith Lia Ascii Sorted Permutation Floats.SpecFloat.
From stdpp Require Import base tactics numbers gmap strings sorting list.
From S2P Require Import Prelude RustString SchedTypes Scheduler.


(** ** Placement of one spec *)

Definition candidates (spec : ServiceSpec) (nodes : list NodeItem) : list NodeItem :=
  List.filter (fun node => filter_node_for_instance node spec) nodes.

Lemma sort_scored_ok {A} (l l' : list (float * A)) :
  sort_scored l = Ok l' ->
  l' ≡ₚ l /\ StronglySorted (fun x y => score_geb x.1 y.1 = true) l'.
Proof.
  unfold sort_scored. destruct (existsb _ l) eqn:E; simpl.
  - destruct l as [|x [|y l]]; simpl; try done. intros [= <-]. split; [done|].
    repeat constructor.
  - intros [= <-]. split; [apply sort_stable_perm|].
    apply existsb_false in E.
    apply (sort_stable_sorted _ (fun x => is_nan x.1 = false)); [..|done].
    + intros. by apply score_geb_total.
    + intros x y z. apply score_geb_trans.
Qed.

Lemma create_replica_instance_spec `{HashOrder} b clock spec nodes l :
  create_replica_instance b clock spec nodes = Ok l ->
  candidates spec nodes <> [] /\
  exists ports scored k,
    l = (fun sn => make_instance clock spec ports sn.2) <$> take k scored /\
    scored ≡ₚ ((fun n => (score_node n spec, n)) <$> candidates spec nodes) /\
    StronglySorted (fun x y => score_geb x.1 y.1 = true) scored /\
    k = Z.to_nat (Z.min (sp_best_instance_count spec)
          (Z.of_nat (length (candidates spec nodes)) mod (u32_max + 1))).
Proof.
  unfold create_replica_instance. fold (candidates spec nodes).
  destruct (candidates spec nodes) as [|n ns] eqn:E; [done|]. intros Hl. split; [done|].
  simpl mbind in Hl. unfold mbind, result_bind in Hl.
  destruct (sort_scored _) as [scored| |] eqn:Es; try done.
  destruct (alloc_service_ports _ _ _ _) as [ports| |]; try done.
  injection Hl as <-. apply sort_scored_ok in Es as [Hp Hs].
  by eexists ports, scored, _.
Qed.

Lemma candidates_sublist spec nodes : candidates spec nodes `sublist_of` nodes.
Proof. apply filterb_sublist. Qed.

Lemma candidates_best_count k spec nodes :
  candidates (set_best_instance_count k spec) nodes = candidates spec nodes.
Proof. done. Qed.

(** The nodes chosen by a successful placement: candidates, each once. *)
Lemma create_replica_instance_nodes `{HashOrder} b clock spec nodes l :
  create_replica_instance b clock spec nodes = Ok l ->
  exists ports sel, l = make_instance clock spec ports <$> sel /\
    sel ⊆+ candidates spec nodes /\
    length sel = Nat.min (Z.to_nat (Z.min (sp_best_instance_count spec)
      (Z.of_nat (length (candidates spec nodes)) mod (u32_max + 1))))
      (length (candidates spec nodes)).
Proof.
  intros (_ & ports & scored & k & -> & Hp & _ & ->)%create_replica_instance_spec.
  exists ports, (take (Z.to_nat (Z.min (sp_best_instance_count spec)
      (Z.of_nat (length (candidates spec nodes)) mod (u32_max + 1)))) scored).*2.
  split; [by rewrite <- list_fmap_compose|]. split.
  - trans (scored.*2); [by apply fmap_submseteq, sublist_submseteq, sublist_take|].
    rewrite Hp, <- list_fmap_compose. apply Permutation_submseteq.
    by rewrite (list_fmap_ext _ id) , list_fmap_id by done.
  - by rewrite length_fmap, length_take, Hp, length_fmap.
Qed.

Lemma make_instance_node clock spec ports n :
  ri_node_id (make_instance clock spec ports n) = nd_id n.
Proof. done. Qed.

(** ** The shadow ledger *)

Lemma update_first_NoDup k f (l : list NodeItem) :
  NoDup (nd_id <$> l) ->
  update_first (fun n => String.eqb (nd_id n) k) f l =
  (fun n => if String.eqb (nd_id n) k then f n else n) <$> l.
Proof.
  induction l as [|n l IH]; simpl; [done|]. intros [Hn Hl]%NoDup_cons.
  destruct (String.eqb_spec (nd_id n) k) as [<-|]; [|by rewrite IH].
  f_equal. rewrite <- (list_fmap_id l) at 1. apply list_fmap_ext. intros i m Hm.
  destruct (String.eqb_spec (nd_id m) (nd_id n)) as [E|]; [|done].
  destruct Hn. rewrite <- E. apply list_elem_of_fmap_2, list_elem_of_lookup. eauto.
Qed.

(** Charging distinct nodes changes exactly those nodes, once each. *)
Lemma charge_shadow_all spec (new : list ReplicaInstance) (shadow : list NodeItem) :
  NoDup (nd_id <$> shadow) -> NoDup (ri_node_id <$> new) ->
  fold_left (charge_shadow spec) new shadow =
  (fun n => if bool_decide (nd_id n ∈ ri_node_id <$> new) then charge_node spec n else n)
    <$> shadow.
Proof.
  intros Hs. revert shadow Hs. induction new as [|i new IH]; intros shadow Hs Hnew; simpl.
  - rewrite <- (list_fmap_id shadow) at 1. done.
  - apply NoDup_cons in Hnew as [Hi Hnew]. unfold charge_shadow at 2.
    rewrite update_first_NoDup by done. rewrite IH; [|by rewrite <- list_fmap_compose;
      erewrite list_fmap_ext; [exact Hs|]; intros ???; simpl; by case_match|done].
    rewrite <- list_fmap_compose. apply list_fmap_ext. intros j n _. simpl.
    destruct (String.eqb_spec (nd_id n) (ri_node_id i)) as [E|Hne]; simpl.
    + rewrite E. rewrite bool_decide_eq_false_2 by done.
      by rewrite bool_decide_eq_true_2 by constructor.
    + erewrite bool_decide_ext; [done|]. set_solver.
Qed.

(** ** No overselling *)

(** A resource the ledger tracks: what a node has left, what a spec asks. *)
Record resource := mkResource {
  res_avail : NodeItem -> Z;
  res_req : ServiceSpec -> Z
}.

Definition cpu_resource := mkResource nd_available_cpu_mhz sp_required_cpu_mhz.
Definition memory_resource := mkResource nd_available_memory sp_required_memory.
Definition gpu_resource := mkResource nd_available_gpu_memory sp_required_gpu_mem.
Definition ledger_resources := [cpu_resource; memory_resource; gpu_resource].

(** The instances a list of actions creates. *)
Definition replicas (acts : list SchedulerAction) : list ReplicaInstance :=
  omap (fun a => match a with InstanceReplica i => Some i | _ => None end) acts.

(** What instance [i] costs node [k] under the specs of [s]. *)
Definition cost (r : resource) (s : NodeScheduler) (k : string) (i : ReplicaInstance) : Z :=
  if String.eqb (ri_node_id i) k
  then default 0 (res_req r <$> ns_specs s !! ri_spec_id i) else 0.

Definition demand (r : resource) (s : NodeScheduler) (k : string)
    (l : list ReplicaInstance) : Z :=
  fold_right Z.add 0 (cost r s k <$> l).

(** The snapshot of [create_scheduler_by_system_config]: maps keyed by the
    items' own ids, unsigned quantities. *)
Record wf_sched (s : NodeScheduler) : Prop := {
  wf_nodes : map_Forall (fun k n => nd_id n = k) (ns_nodes s);
  wf_specs : map_Forall (fun k sp => sp_id sp = k) (ns_specs s);
  wf_avail : forall k n r, ns_nodes s !! k = Some n -> r ∈ ledger_resources -> 0 <= res_avail r n;
  wf_req : forall k sp r, ns_specs s !! k = Some sp -> r ∈ ledger_resources -> 0 <= res_req r sp
}.

(** What the filter means for a node and a spec. *)
Record placeable (n : NodeItem) (sp : ServiceSpec) : Prop := {
  pl_ready : nd_state n = NodeReady;
  pl_type : nd_node_type n = OOD \/ nd_node_type n = Server;
  pl_container : sp_need_container sp = true -> nd_support_container n = true;
  pl_resources : forall r, r ∈ ledger_resources -> res_req r sp <= res_avail r n;
  pl_tflops : SFltb (nd_gpu_tflops n) (sp_required_gpu_tflops sp) = false;
  pl_affinity : forall a, sp_node_affinity sp = Some a -> a ∈ nd_labels n
}.

Lemma filter_node_conj n sp :
  filter_node_for_instance n sp =
  bool_decide (nd_state n = NodeReady)
  && (bool_decide (nd_node_type n = OOD) || bool_decide (nd_node_type n = Server))
  && (negb (sp_need_container sp) || nd_support_container n)
  && (sp_required_cpu_mhz sp <=? nd_available_cpu_mhz n)
  && (sp_required_memory sp <=? nd_available_memory n)
  && (sp_required_gpu_mem sp <=? nd_available_gpu_memory n)
  && negb (SFltb (nd_gpu_tflops n) (sp_required_gpu_tflops sp))
  && match sp_node_affinity sp with
     | Some a => bool_decide (a ∈ nd_labels n) | None => true end.
Proof.
  unfold filter_node_for_instance. rewrite !Z.ltb_antisym.
  destruct (bool_decide _); [|done].
  destruct (bool_decide _), (bool_decide _), (sp_need_container sp),
    (nd_support_container n), (_ <=? _), (_ <=? _), (_ <=? _), (SFltb _ _); done.
Qed.

Lemma ledger_forall (P : resource -> Prop) :
  (forall r, r ∈ ledger_resources -> P r) <->
  P cpu_resource /\ P memory_resource /\ P gpu_resource.
Proof. unfold ledger_resources. set_solver. Qed.

Lemma filter_node_placeable n sp : filter_node_for_instance n sp = true <-> placeable n sp.
Proof.
  rewrite filter_node_conj, !andb_true_iff, !orb_true_iff, !bool_decide_eq_true,
    !negb_true_iff, !Z.leb_le. split.
  - intros [[[[[[[? ?] Hc] ?] ?] ?] ?] Ha]. split; try done.
    + intros Hn. rewrite Hn in Hc. naive_solver.
    + by apply ledger_forall.
    + intros a E. rewrite E in Ha. by apply bool_decide_eq_true in Ha.
  - intros [? ? Hc Hr ? Ha]. apply ledger_forall in Hr as (? & ? & ?).
    split_and!; try done.
    + destruct (sp_need_container sp); auto.
    + destruct (sp_node_affinity sp); [apply bool_decide_eq_true; auto|done].
Qed.

Lemma replicas_app l k : replicas (l ++ k) = replicas l ++ replicas k.
Proof. apply omap_app. Qed.

Lemma replicas_fmap (l : list ReplicaInstance) : replicas (InstanceReplica <$> l) = l.
Proof. unfold replicas. induction l as [|i l IH]; csimpl; [done|]. by rewrite IH. Qed.

Lemma elem_of_replicas i acts : i ∈ replicas acts <-> InstanceReplica i ∈ acts.
Proof.
  unfold replicas. rewrite list_elem_of_omap. split; [|naive_solver].
  intros (a & Ha & E). destruct a; naive_solver.
Qed.

Lemma demand_cons r s k i l : demand r s k (i :: l) = cost r s k i + demand r s k l.
Proof. done. Qed.

Lemma cost_other r s k i : ri_node_id i <> k -> cost r s k i = 0.
Proof. unfold cost. by destruct (String.eqb_spec (ri_node_id i) k). Qed.

Lemma cost_here r s i sp :
  ns_specs s !! ri_spec_id i = Some sp -> cost r s (ri_node_id i) i = res_req r sp.
Proof. unfold cost. rewrite String.eqb_refl. by intros ->. Qed.

Lemma demand_app r s k l l' : demand r s k (l ++ l') = demand r s k l + demand r s k l'.
Proof. induction l as [|i l IH]; csimpl; [done|]. rewrite !demand_cons. lia. Qed.

Lemma demand_absent r s k l : k ∉ ri_node_id <$> l -> demand r s k l = 0.
Proof.
  induction l as [|i l IH]; csimpl; [done|].
  intros [Hi Hl]%not_elem_of_cons. by rewrite demand_cons, cost_other, IH.
Qed.

(** Instances of one spec on distinct nodes cost each of those nodes one unit
    of the spec. *)
Lemma demand_once r s k id sp (l : list ReplicaInstance) :
  ns_specs s !! id = Some sp -> Forall (fun i => ri_spec_id i = id) l ->
  NoDup (ri_node_id <$> l) ->
  demand r s k l = if bool_decide (k ∈ ri_node_id <$> l) then res_req r sp else 0.
Proof.
  intros Hsp. induction 1 as [|i l Hi Hl IH]; csimpl; [done|].
  intros [Hn Hnd]%NoDup_cons. rewrite demand_cons.
  destruct (decide (ri_node_id i = k)) as [<-|Hne].
  - rewrite demand_absent, bool_decide_eq_true_2 by (done || constructor).
    erewrite cost_here by (by rewrite Hi). lia.
  - rewrite cost_other, IH by done. erewrite bool_decide_ext; [by simpl|]. set_solver.
Qed.

(** The three instance folds leave the specs alone; only placement creates. *)
Lemma insert_instances_specs l s : ns_specs (insert_instances l s) = ns_specs s.
Proof. unfold insert_instances. revert s. induction l; intros s; simpl; [done|]. by rewrite IHl. Qed.

Lemma fold_instances_frame (f : NodeScheduler * list SchedulerAction -> string ->
    NodeScheduler * list SchedulerAction) ids acc :
  (forall acc id, ns_specs (f acc id).1 = ns_specs acc.1 /\
     replicas (f acc id).2 = replicas acc.2) ->
  ns_specs (fold_left f ids acc).1 = ns_specs acc.1 /\
  replicas (fold_left f ids acc).2 = replicas acc.2.
Proof.
  intros Hf. revert acc. induction ids as [|id ids IH]; intros acc; simpl; [done|].
  destruct (IH (f acc id)) as [-> ->]. apply Hf.
Qed.

Lemma remove_spec_instance_frame acc id :
  ns_specs (remove_spec_instance acc id).1 = ns_specs acc.1 /\
  replicas (remove_spec_instance acc id).2 = replicas acc.2.
Proof.
  unfold remove_spec_instance. case_match; simpl; [|done].
  by rewrite replicas_app, app_nil_r.
Qed.

Lemma stop_spec_instance_frame acc id :
  ns_specs (stop_spec_instance acc id).1 = ns_specs acc.1 /\
  replicas (stop_spec_instance acc id).2 = replicas acc.2.
Proof.
  unfold stop_spec_instance. case_match; simpl; [|done].
  by rewrite replicas_app, app_nil_r.
Qed.

(** ** Reconciliation of one spec *)

Lemma submseteq_NoDup {A} (l k : list A) : l ⊆+ k -> NoDup k -> NoDup l.
Proof. intros [k' ->]%submseteq_Permutation. by intros [? _]%NoDup_app. Qed.

Lemma set_best_placeable k n sp : placeable n (set_best_instance_count k sp) <-> placeable n sp.
Proof. by rewrite <- !filter_node_placeable. Qed.

Section reconcile.
Context `{HashOrder} (b : build) (clock_at : string -> Z).

(** New instances belong to the spec, sit on distinct placeable nodes of the
    ledger that do not host the spec yet, and each of those nodes is charged
    once. *)
Lemma reconcile_spec_instances_ok s sp shadow shadow' new :
  reconcile_spec_instances b clock_at s sp shadow = (shadow', Ok new) ->
  NoDup (nd_id <$> shadow) ->
  Forall (fun i => ri_spec_id i = sp_id sp) new /\
  NoDup (ri_node_id <$> new) /\
  (forall k, k ∈ ri_node_id <$> new -> exists n, n ∈ shadow /\ nd_id n = k /\
     placeable n sp /\ k ∉ ri_node_id <$> existing_instances s sp) /\
  shadow' = (fun n => if bool_decide (nd_id n ∈ ri_node_id <$> new)
                      then charge_node sp n else n) <$> shadow.
Proof.
  intros Hr Hs. unfold reconcile_spec_instances in Hr.
  destruct (_ <=? _).
  { injection Hr as <- <-. split_and!; [constructor|constructor|set_solver|].
    by rewrite <- (list_fmap_id shadow) at 1. }
  destruct (create_replica_instance _ _ _ _) as [l| |] eqn:Hc; try done.
  injection Hr as <- <-. apply create_replica_instance_nodes in Hc as (ports & sel & -> & Hsel & _).
  set (av := List.filter _ _) in Hsel.
  assert (Hids : forall sp, ri_node_id <$> (make_instance clock_at sp ports <$> sel)
                            = nd_id <$> sel) by (intros; by rewrite <- list_fmap_compose).
  assert (NoDup (nd_id <$> sel)).
  { eapply submseteq_NoDup; [by apply fmap_submseteq|].
    eapply submseteq_NoDup; [|exact Hs].
    apply fmap_submseteq, sublist_submseteq.
    etrans; [apply candidates_sublist|apply filterb_sublist]. }
  rewrite Hids. split_and!.
  - apply Forall_fmap, Forall_true. done.
  - done.
  - intros k (n & -> & Hn)%list_elem_of_fmap.
    pose proof (elem_of_submseteq _ _ _ Hn Hsel) as Hc.
    apply elem_of_filterb in Hc as [Hp [Hex Hc]%elem_of_filterb].
    apply negb_true_iff, bool_decide_eq_false in Hex.
    exists n. split_and!; try done. by apply filter_node_placeable.
  - rewrite charge_shadow_all, Hids; [done|done|by rewrite Hids].
Qed.
End reconcile.
