(* ===== verification/SchedulerLedger.v ===== *)
(** The shadow resource ledger of [schedule_spec_change]: an invariant of the
    loop over the specs, and what it gives at the end. *)
From Stdlib Require Import ZArith Lia Floats.SpecFloat.
From stdpp Require Import base tactics numbers gmap strings sorting list.
From S2P Require Import Prelude RustString SchedTypes Scheduler SchedulerFacts.

(** The ledger keeps one entry per [Ready] node, whose availability is the
    node's own minus what the instances created so far cost it; the specs only
    change state; every instance created so far sits on a node that could host
    it at the start. *)
Record ledger_inv `{HashOrder} (s0 : NodeScheduler) (st : spec_loop) : Prop := {
  li_ids : nd_id <$> lp_shadow st = nd_id <$> initial_shadow s0;
  li_shadow : forall n, n ∈ lp_shadow st ->
    exists n0 cpu mem gpu, ns_nodes s0 !! nd_id n = Some n0 /\
      n = set_node_available cpu mem gpu n0 /\
      forall r, r ∈ ledger_resources ->
        0 <= res_avail r n /\
        res_avail r n = res_avail r n0 - demand r s0 (nd_id n) (replicas (lp_actions st));
  li_placed : forall i, i ∈ replicas (lp_actions st) ->
    ri_node_id i ∈ nd_id <$> initial_shadow s0 /\
    exists n sp, ns_nodes s0 !! ri_node_id i = Some n /\
      ns_specs s0 !! ri_spec_id i = Some sp /\ placeable n sp;
  li_specs : forall id sp, ns_specs (lp_sched st) !! id = Some sp ->
    exists state, ns_specs s0 !! id = Some (set_spec_state state sp)
}.

Section ledger.
Context `{HashOrder} (b : build) (clock_at : string -> Z).
Context (s0 : NodeScheduler) (Hwf : wf_sched s0).

Lemma elem_of_initial_shadow n :
  n ∈ initial_shadow s0 <-> nd_state n = NodeReady /\ ns_nodes s0 !! nd_id n = Some n.
Proof using Hwf.
  unfold initial_shadow. rewrite elem_of_filterb, bool_decide_eq_true, elem_of_values.
  split; [|naive_solver]. intros [? [k Hk]]. pose proof (wf_nodes _ Hwf _ _ Hk); simpl in *. by subst.
Qed.

Lemma initial_shadow_NoDup : NoDup (nd_id <$> initial_shadow s0).
Proof using Hwf.
  eapply (submseteq_NoDup _ (keys (ns_nodes s0))); [|apply NoDup_keys].
  unfold initial_shadow, keys, values.
  trans (nd_id <$> (iter (ns_nodes s0)).*2).
  { apply fmap_submseteq, sublist_submseteq, filterb_sublist. }
  rewrite <- list_fmap_compose. erewrite list_fmap_ext; [done|].
  intros i [k n] Hi. simpl.
  apply (wf_nodes _ Hwf k n), elem_of_iter, list_elem_of_lookup. eauto.
Qed.

Lemma demand_nonneg r k l : r ∈ ledger_resources -> 0 <= demand r s0 k l.
Proof using Hwf.
  intros Hr. induction l as [|i l IH]; [done|]. rewrite demand_cons.
  assert (0 <= cost r s0 k i); [|lia]. unfold cost. case_match; [|done].
  destruct (ns_specs s0 !! ri_spec_id i) as [sp|] eqn:E; simpl; [|done].
  by eapply wf_req.
Qed.

Lemma ledger_inv_init : ledger_inv s0 (mkLoop s0 (initial_shadow s0) []).
Proof using Hwf.
  split; simpl; [done| |set_solver|].
  - intros n [_ Hn]%elem_of_initial_shadow.
    exists n, (nd_available_cpu_mhz n), (nd_available_memory n), (nd_available_gpu_memory n).
    split_and!; [done|by destruct n|]. intros r Hr. unfold demand. simpl.
    split; [by eapply wf_avail|lia].
  - intros id sp Hsp. exists (sp_state sp). by destruct sp.
Qed.

(** Steps that keep the ledger and create nothing. *)
Lemma ledger_inv_frame st st' :
  ledger_inv s0 st -> lp_shadow st' = lp_shadow st ->
  replicas (lp_actions st') = replicas (lp_actions st) ->
  (forall id sp, ns_specs (lp_sched st') !! id = Some sp ->
     exists state sp', ns_specs (lp_sched st) !! id = Some sp' /\ sp = set_spec_state state sp') ->
  ledger_inv s0 st'.
Proof.
  intros [Hids Hsh Hpl Hsp] Es Er Hspecs. split; rewrite ?Es, ?Er; try done.
  intros id sp (state & sp' & Hsp' & ->)%Hspecs.
  apply Hsp in Hsp' as [state' ->]. by exists state'.
Qed.

Lemma placeable_mono n n0 sp sp' cpu mem gpu state :
  placeable n sp -> n = set_node_available cpu mem gpu n0 -> sp' = set_spec_state state sp ->
  (forall r, r ∈ ledger_resources -> res_avail r n <= res_avail r n0) ->
  placeable n0 sp'.
Proof.
  intros [Hr Ht Hc Hres Hf Ha] -> -> Hle. split; simpl in *; try done.
  apply ledger_forall in Hres as (? & ? & ?). apply ledger_forall in Hle as (? & ? & ?).
  simpl in *. apply ledger_forall. simpl. lia.
Qed.

Lemma charge_node_avail sp n r :
  r ∈ ledger_resources -> res_req r sp <= res_avail r n ->
  res_avail r (charge_node sp n) = res_avail r n - res_req r sp.
Proof.
  revert r. apply (ledger_forall (fun r => res_req r sp <= res_avail r n ->
    res_avail r (charge_node sp n) = res_avail r n - res_req r sp)).
  simpl. unfold sat_sub. lia.
Qed.

Lemma res_req_state r state sp :
  r ∈ ledger_resources -> res_req r (set_spec_state state sp) = res_req r sp.
Proof.
  revert r. by apply (ledger_forall (fun r => res_req r (set_spec_state state sp) = res_req r sp)).
Qed.

(** One placement keeps the ledger. *)
Lemma ledger_inv_place st sp shadow new state :
  ledger_inv s0 st -> ns_specs s0 !! sp_id sp = Some (set_spec_state state sp) ->
  reconcile_spec_instances b clock_at (lp_sched st) sp (lp_shadow st) = (shadow, Ok new) ->
  forall acts sched,
  replicas acts = replicas (lp_actions st) ++ new ->
  (forall id sp, ns_specs sched !! id = Some sp ->
     exists state sp', ns_specs (lp_sched st) !! id = Some sp' /\ sp = set_spec_state state sp') ->
  ledger_inv s0 (mkLoop sched shadow acts).
Proof using Hwf.
  intros [Hids Hsh Hpl Hsp] Hsp0 Hrec acts sched Hacts Hspecs.
  apply reconcile_spec_instances_ok in Hrec as (Hspec & Hnd & Hnew & ->);
    [|rewrite Hids; apply initial_shadow_NoDup].
  set (new_ids := ri_node_id <$> new) in *.
  assert (Hcost : forall r k, r ∈ ledger_resources -> demand r s0 k new =
            if bool_decide (k ∈ new_ids) then res_req r sp else 0).
  { intros r k Hr. rewrite <- (res_req_state r state sp Hr). by eapply demand_once. }
  split; simpl.
  - rewrite <- Hids, <- list_fmap_compose. apply list_fmap_ext. intros ? n _. simpl. by case_match.
  - intros n' (n & -> & Hn)%list_elem_of_fmap. rewrite Hacts.
    destruct (Hsh n Hn) as (n0 & cpu & mem & gpu & Hn0 & En & Hr).
    case_bool_decide as Hin.
    + destruct (Hnew _ Hin) as (m & Hm & Em & Hp & _).
      assert (m = n) as ->.
      { apply list_elem_of_lookup in Hm as [j Hj], Hn as [j' Hj'].
        assert (j = j') as ->; [|congruence].
        eapply (NoDup_lookup (nd_id <$> lp_shadow st) _ _ (nd_id n));
          [rewrite Hids; apply initial_shadow_NoDup|..];
          rewrite list_lookup_fmap, ?Hj, ?Hj'; simpl; congruence. }
      eexists n0, _, _, _. split; [exact Hn0|]. split; [by rewrite En|].
      intros r Hr'. destruct (Hr r Hr') as [H1 H2].
      rewrite demand_app, Hcost, bool_decide_eq_true_2 by done. simpl.
      rewrite charge_node_avail by (done || by apply Hp). pose proof (pl_resources _ _ Hp r Hr'). lia.
    + exists n0, cpu, mem, gpu. split_and!; [done..|]. intros r Hr'.
      rewrite demand_app, Hcost, bool_decide_eq_false_2 by done. rewrite Z.add_0_r. auto.
  - intros i. rewrite Hacts, elem_of_app. intros [Hi|Hi]; [auto|].
    assert (Hid : ri_node_id i ∈ new_ids) by by apply list_elem_of_fmap_2.
    destruct (Hnew _ Hid) as (n & Hn & En & Hp & _).
    destruct (Hsh n Hn) as (n0 & cpu & mem & gpu & Hn0 & Esn & Hr). split.
    + rewrite <- Hids, <- En. by apply list_elem_of_fmap_2.
    + rewrite Forall_forall in Hspec. rewrite (Hspec _ Hi), <- En.
      eexists n0, _. split; [done|]. split; [done|].
      eapply placeable_mono; [exact Hp|exact Esn|done|]. intros r Hr'.
      destruct (Hr r Hr') as [_ ->]. pose proof (demand_nonneg r (nd_id n) (replicas (lp_actions st)) Hr'). lia.
  - intros id sp1 (state1 & sp' & Hsp' & ->)%Hspecs.
    apply Hsp in Hsp' as [state' ->]. by exists state'.
Qed.

(** A step may only change the state of a spec. *)
Definition specs_kept (s s' : NodeScheduler) : Prop :=
  forall id sp, ns_specs s' !! id = Some sp ->
    exists state sp', ns_specs s !! id = Some sp' /\ sp = set_spec_state state sp'.

Lemma specs_kept_eq s s' : ns_specs s' = ns_specs s -> specs_kept s s'.
Proof. intros E id sp Hsp. rewrite E in Hsp. exists (sp_state sp), sp. split; [done|]. by destruct sp. Qed.

Lemma specs_kept_state_at s s' id state :
  ns_specs s' = ns_specs s -> specs_kept s (set_spec_state_at id state s').
Proof.
  intros E id' sp. simpl. rewrite E, lookup_alter. case_decide as Hid.
  - subst id'. intros (sp' & Hsp' & ->)%fmap_Some. exists state, sp'. done.
  - intros Hsp. exists (sp_state sp), sp. split; [done|]. by destruct sp.
Qed.

Lemma ledger_inv_step st id :
  ledger_inv s0 st -> ledger_inv s0 (spec_change_step b clock_at st id).1.
Proof using Hwf.
  intros Hinv. unfold spec_change_step.
  destruct (ns_specs (lp_sched st) !! id) as [sp|] eqn:Esp; [|done].
  destruct (li_specs _ _ Hinv _ _ Esp) as [state Hsp0].
  assert (sp_id sp = id) as Hid by exact (wf_specs _ Hwf _ _ Hsp0).
  assert (Hplace : forall shadow new acts sched,
    reconcile_spec_instances b clock_at (lp_sched st) sp (lp_shadow st) = (shadow, Ok new) ->
    replicas acts = replicas (lp_actions st) ++ new -> specs_kept (lp_sched st) sched ->
    ledger_inv s0 (mkLoop sched shadow acts)).
  { intros. eapply ledger_inv_place; try done. by rewrite Hid. }
  assert (Hkeep : forall m, (exists shadow, reconcile_spec_instances b clock_at (lp_sched st) sp
    (lp_shadow st) = (shadow, m)) -> is_ok m = false ->
    ledger_inv s0 (mkLoop (lp_sched st)
      (reconcile_spec_instances b clock_at (lp_sched st) sp (lp_shadow st)).1 (lp_actions st))).
  { intros m [shadow E] Hm. eapply ledger_inv_frame; [exact Hinv| |done|by apply specs_kept_eq].
    revert E. unfold reconcile_spec_instances. destruct (_ <=? _); simpl; [by intros [= <- <-]|].
    destruct (create_replica_instance _ _ _ _); simpl; [by intros [= <- <-]|done..]. }
  destruct (sp_state sp) eqn:Est; simpl; try done.
  1,2: destruct (reconcile_spec_instances b clock_at (lp_sched st) sp (lp_shadow st))
         as [shadow [new|m|]] eqn:Er; simpl;
       [|by eapply (Hkeep (Err m)); eauto|by eapply (Hkeep Panic); eauto].
  - eapply Hplace; [done| |by apply specs_kept_state_at, insert_instances_specs].
    rewrite !replicas_app, replicas_fmap. by rewrite app_nil_r.
  - eapply Hplace; [done| |by apply specs_kept_eq, insert_instances_specs].
    by rewrite !replicas_app, replicas_fmap.
  - destruct (is_app_like _); simpl; [|done].
    edestruct (fold_instances_frame stop_spec_instance) as [E1 E2]; [apply stop_spec_instance_frame|].
    eapply ledger_inv_frame; [exact Hinv|done|simpl; by rewrite E2|by apply specs_kept_eq; simpl; rewrite E1].
  - edestruct (fold_instances_frame remove_spec_instance) as [E1 E2]; [apply remove_spec_instance_frame|].
    eapply ledger_inv_frame; [exact Hinv|done| |by apply specs_kept_state_at; simpl; rewrite E1].
    simpl. by rewrite replicas_app, E2, app_nil_r.
Qed.

Lemma schedule_spec_change_inv s' acts :
  schedule_spec_change b clock_at s0 = (s', Ok acts) ->
  exists st, ledger_inv s0 st /\ lp_actions st = acts /\ lp_sched st = s'.
Proof using Hwf.
  unfold schedule_spec_change. intros Hs.
  pose proof (fold_result_ind (spec_change_step b clock_at) (ledger_inv s0)
    (mkLoop s0 (initial_shadow s0) []) (keys (ns_specs s0)) ledger_inv_init) as Hinv.
  destruct (fold_result _ _ _) as [st [[]|m|]]; try done. simpl in *.
  injection Hs as <- <-. exists st. split; [|done].
  apply Hinv. intros. by apply ledger_inv_step.
Qed.
End ledger.
