(* ===== verification/SchedulerInfo.v ===== *)
(** Service infos of the node scheduler: what [calc_service_infos] publishes
    for each spec, and when. *)
From Stdlib Require Import ZArith Lia Sorted Permutation Floats.SpecFloat.
From stdpp Require Import base tactics numbers gmap strings sorting list.
From S2P Require Import Prelude RustString SchedTypes Scheduler SchedulerFacts.

(** ** The inverted index *)

Lemma fold_spec_index l (m : gmap string (list ReplicaInstance)) id :
  default [] (fold_left (fun m i =>
    <[ri_spec_id i := default [] (m !! ri_spec_id i) ++ [i]]> m) l m !! id) =
  default [] (m !! id) ++ List.filter (fun i => String.eqb (ri_spec_id i) id) l.
Proof.
  revert m. induction l as [|i l IH]; intros m; simpl; [by rewrite app_nil_r|].
  rewrite IH, lookup_insert. case_decide as Hi.
  - subst. rewrite String.eqb_refl. simpl. by rewrite <- app_assoc.
  - by destruct (String.eqb_spec (ri_spec_id i) id).
Qed.

(** The index gives each spec its instances, as a scan of all of them would. *)
Lemma build_spec_index_lookup l id :
  default [] (build_spec_index l !! id) =
  List.filter (fun i => String.eqb (ri_spec_id i) id) l.
Proof. unfold build_spec_index. rewrite fold_spec_index. by rewrite lookup_empty. Qed.

(** ** Live instances *)

(** An instance with a recent enough proof of life. *)
Definition live_at (now : Z) (i : ReplicaInstance) : Prop :=
  ri_state i = InstRunning /\ 0 <= now - ri_last_update_time i < INSTANCE_ALIVE_TIME.

#[export] Instance live_at_dec now i : Decision (live_at now i).
Proof. unfold live_at. apply _. Defined.

(** Times are u64, and the clock is past its first 90 seconds. *)
Definition times_ok (now : Z) (l : list ReplicaInstance) : Prop :=
  INSTANCE_ALIVE_TIME <= now <= u64_max /\ Forall (fun i => is_u64 (ri_last_update_time i)) l.

Lemma age_live b now t age :
  INSTANCE_ALIVE_TIME <= now <= u64_max -> is_u64 t ->
  unsigned_op b u64_max (now - t) = Ok age ->
  (age <? INSTANCE_ALIVE_TIME) = bool_decide (0 <= now - t < INSTANCE_ALIVE_TIME).
Proof.
  unfold unsigned_op, is_u64, INSTANCE_ALIVE_TIME, u64_max. intros Hn Ht.
  destruct (0 <=? now - t) eqn:E; simpl.
  - destruct (now - t <=? _) eqn:E'; [|lia]. intros [= <-].
    apply eq_bool_prop_intro. rewrite !Is_true_true, bool_decide_eq_true. lia.
  - destruct b; [done|]. intros [= <-]. rewrite bool_decide_eq_false_2 by lia.
    apply Z.ltb_ge. rewrite <- (Z_mod_plus_full _ 1), Z.mod_small by lia. lia.
Qed.

Definition add_member (m : gmap string (Z * ReplicaInstance)) (i : ReplicaInstance) :=
  <[ri_instance_id i := (100, i)]> m.

Lemma collect_alive_eq b now l m m' :
  times_ok now l -> collect_alive b now l m = Ok m' ->
  m' = fold_left add_member (List.filter (fun i => bool_decide (live_at now i)) l) m.
Proof.
  intros [Hn Ht]. revert m. induction Ht as [|i l Hi Ht IH]; intros m Hc; simpl in *.
  { by injection Hc as ->. }
  case_bool_decide as Hrun.
  - destruct (unsigned_op _ _ _) as [age| |] eqn:Ha; simpl in Hc; try done.
    apply (age_live b now) in Ha; [|done|done]. rewrite Ha in Hc.
    case_bool_decide as Hlive.
    + rewrite bool_decide_eq_true_2 by done. by apply IH.
    + rewrite bool_decide_eq_false_2 by (by intros []). by apply IH.
  - rewrite bool_decide_eq_false_2 by (by intros []). by apply IH.
Qed.

Lemma fold_add_member l m id i :
  NoDup (ri_instance_id <$> l) ->
  (fold_left add_member l m !! id = Some i) <->
  (exists j, i = (100, j) /\ j ∈ l /\ ri_instance_id j = id)
  \/ (~ id ∈ (ri_instance_id <$> l) /\ m !! id = Some i).
Proof.
  revert m. induction l as [|k l IH]; intros m Hnd; csimpl.
  { set_solver. }
  apply NoDup_cons in Hnd as [Hk Hnd]. rewrite IH by done. unfold add_member.
  rewrite lookup_insert. setoid_rewrite elem_of_cons. split.
  - intros [(j & -> & Hj & <-)|[Hid Hm]]; [naive_solver|].
    case_decide; [simplify_eq; left; eauto|]. right. set_solver.
  - intros [(j & -> & [->|Hj] & <-)|[Hid Hm]].
    + right. by rewrite decide_True by done.
    + left. eauto.
    + right. split; [set_solver|]. rewrite decide_False; [done|set_solver].
Qed.

(** ** The outcome for one spec *)

Definition info_members (info : ServiceInfo) : gmap string ReplicaInstance :=
  match info with
  | SingleInstance i => {[ri_instance_id i := i]}
  | RandomCluster m => snd <$> m
  end.

(** The live instances of a spec. *)
Definition live_members (now : Z) (s : NodeScheduler) (spec_id : string)
  : gmap string ReplicaInstance :=
  filter (fun kv => ri_spec_id kv.2 = spec_id /\ live_at now kv.2) (ns_replica_instances s).

Definition instances_keyed (s : NodeScheduler) : Prop :=
  map_Forall (fun k i => ri_instance_id i = k) (ns_replica_instances s).

Definition instance_times_ok (now : Z) (s : NodeScheduler) : Prop :=
  INSTANCE_ALIVE_TIME <= now <= u64_max /\
  map_Forall (fun _ i => is_u64 (ri_last_update_time i)) (ns_replica_instances s).

Lemma new_service_info_members m :
  map_Forall (fun k wi => ri_instance_id wi.2 = k) m ->
  info_members (new_service_info m) = snd <$> m /\
  match new_service_info m with
  | SingleInstance _ => size m = 1%nat
  | RandomCluster m' => m' = m /\ size m <> 1%nat
  end.
Proof.
  intros Hk. unfold new_service_info.
  destruct (map_to_list m) as [|[k [w i]] [|p l]] eqn:E; simpl.
  - split; [done|]. split; [done|]. by rewrite <- length_map_to_list, E.
  - assert (m = {[k := (w, i)]}) as -> by (by rewrite <- (list_to_map_to_list m), E; simpl).
    rewrite map_Forall_singleton in Hk. simpl in Hk. subst.
    by rewrite map_fmap_singleton, map_size_singleton.
  - split; [done|]. split; [done|]. by rewrite <- length_map_to_list, E.
Qed.

Lemma values_ids_NoDup `{HashOrder} (m : gmap string ReplicaInstance) :
  map_Forall (fun k i => ri_instance_id i = k) m -> NoDup (ri_instance_id <$> values m).
Proof.
  intros Hk. unfold values. rewrite <- list_fmap_compose.
  erewrite list_fmap_ext; [apply (NoDup_keys m)|]. intros j [k i] Hi. simpl.
  apply (Hk k i), elem_of_iter, list_elem_of_lookup. eauto.
Qed.

Lemma collect_members `{HashOrder} b now s spec_id m :
  instances_keyed s -> instance_times_ok now s ->
  collect_alive b now
    (default [] (build_spec_index (values (ns_replica_instances s)) !! spec_id)) ∅ = Ok m ->
  m = pair 100 <$> live_members now s spec_id.
Proof.
  intros Hk [Hn Ht]. rewrite build_spec_index_lookup. intros Hc.
  apply collect_alive_eq in Hc.
  2: { split; [done|]. apply Forall_forall. intros i [_ [k Hi]%elem_of_values]%elem_of_filterb.
       by eapply Ht. }
  apply map_eq. intros id. apply option_eq. intros wi. rewrite Hc, fold_add_member.
  - rewrite lookup_fmap, fmap_Some. unfold live_members.
    setoid_rewrite map_lookup_filter_Some. setoid_rewrite elem_of_filterb.
    setoid_rewrite elem_of_filterb. setoid_rewrite elem_of_values.
    setoid_rewrite bool_decide_eq_true. setoid_rewrite String.eqb_eq. split.
    + intros [(j & -> & (Hl & Hs & k & Hi) & Hid)|[_ ?]]; [|set_solver].
      exists j. pose proof (Hk _ _ Hi) as E. simpl in E. by subst.
    + intros (j & [Hj [Hs Hl]] & ->). left. exists j. pose proof (Hk _ _ Hj) as E.
      simpl in *. naive_solver.
  - eapply submseteq_NoDup; [|by apply (values_ids_NoDup (ns_replica_instances s))].
    apply fmap_submseteq, sublist_submseteq.
    etrans; [apply filterb_sublist|apply filterb_sublist].
Qed.

(** ** The loop over the specs *)

Definition old_info (last : option NodeScheduler) (spec_id : string) : option ServiceInfo :=
  last ≫= fun l => ns_service_infos l !! spec_id.

(** The time an already published info counts as refreshed. *)
Definition old_refresh (last : option NodeScheduler) (spec_id : string) : Z :=
  match last with
  | None => 0
  | Some l =>
    match ns_service_info_refresh_times l !! spec_id, ns_service_infos l !! spec_id with
    | Some t, _ => t
    | None, Some _ => ns_schedule_time l
    | None, None => 0
    end
  end.

(** What becomes of a spec's published info: the info kept, its refresh time,
    and whether it is published now. *)
Definition publish (now : Z) (last : option NodeScheduler) (spec_id : string)
    (new_info : ServiceInfo) : ServiceInfo * Z * bool :=
  match old_info last spec_id with
  | None => (new_info, now, true)
  | Some old =>
    if peq old new_info then (new_info, old_refresh last spec_id, false)
    else if sat_sub now (old_refresh last spec_id) <? SERVICE_INFO_REFRESH_INTERVAL
    then (old, old_refresh last spec_id, false)
    else (new_info, now, true)
  end.

Definition publish_actions (spec_id : string) (o : ServiceInfo * Z * bool) : list SchedulerAction :=
  if o.2 then [UpdateServiceInfo spec_id o.1.1] else [].

Lemma calc_spec_info_eq b now last index acc spec_id :
  calc_spec_info b now last index acc spec_id =
  match collect_alive b now (default [] (index !! spec_id)) ∅ with
  | Err m => (acc, Err m)
  | Panic => (acc, Panic)
  | Ok m =>
    let o := publish now last spec_id (new_service_info m) in
    ((set_infos (<[spec_id := o.1.1]> (ns_service_infos acc.1))
        (<[spec_id := o.1.2]> (ns_service_info_refresh_times acc.1)) acc.1,
      acc.2 ++ publish_actions spec_id o), Ok ())
  end.
Proof.
  unfold calc_spec_info. destruct (collect_alive _ _ _ _) as [m| |]; [|done..].
  unfold publish, publish_actions. cbv zeta.
  change (last ≫= fun l => ns_service_infos l !! spec_id) with (old_info last spec_id).
  assert (E : default 0 (match last ≫= (fun l => ns_service_info_refresh_times l !! spec_id) with
      | Some t => Some t
      | None => (fun _ => default 0 (ns_schedule_time <$> last)) <$>
          old_info last spec_id end) = old_refresh last spec_id).
  { unfold old_refresh, old_info. destruct last as [l|]; simpl; [|done].
    destruct (ns_service_info_refresh_times l !! spec_id); simpl; [done|].
    by destruct (ns_service_infos l !! spec_id). }
  rewrite E. destruct (old_info last spec_id) as [old|]; [|done].
  destruct (peq old _); simpl; [by rewrite app_nil_r|].
  destruct (_ <? _); simpl; by rewrite ?app_nil_r.
Qed.

Lemma calc_loop b now last index ids s acts s' acts' :
  fold_result (calc_spec_info b now last index) (s, acts) ids = ((s', acts'), Ok ()) ->
  NoDup ids ->
  exists infos times, s' = set_infos infos times s /\
  (forall id, id ∉ ids -> infos !! id = ns_service_infos s !! id
     /\ times !! id = ns_service_info_refresh_times s !! id) /\
  (forall id, id ∈ ids -> exists m,
     collect_alive b now (default [] (index !! id)) ∅ = Ok m /\
     let o := publish now last id (new_service_info m) in
     infos !! id = Some o.1.1 /\ times !! id = Some o.1.2 /\
     (forall a, UpdateServiceInfo id a ∈ acts' ->
        UpdateServiceInfo id a ∈ acts \/ UpdateServiceInfo id a ∈ publish_actions id o) /\
     (forall a, a ∈ publish_actions id o -> a ∈ acts')) /\
  (forall a, a ∈ acts -> a ∈ acts') /\
  (forall a, a ∈ acts' -> a ∈ acts \/ exists id i, id ∈ ids /\ a = UpdateServiceInfo id i).
Proof.
  revert s acts. induction ids as [|id ids IH]; intros s acts Hf Hnd; simpl in Hf.
  { injection Hf as <- <-. exists (ns_service_infos s), (ns_service_info_refresh_times s).
    split_and!; [by destruct s|done|set_solver|done|auto]. }
  apply NoDup_cons in Hnd as [Hid Hnd]. rewrite calc_spec_info_eq in Hf.
  destruct (collect_alive _ _ _ _) as [m| |] eqn:Hm; try done. simpl in Hf.
  set (o := publish now last id (new_service_info m)) in *.
  destruct (IH _ _ Hf Hnd) as (infos & times & -> & Hout & Hin & Hmono & Horig). clear IH Hf.
  exists infos, times. simpl in Hout. split_and!; [done| | | |].
  - intros id' [Hne Hid']%not_elem_of_cons. destruct (Hout id' Hid') as [-> ->].
    by rewrite !lookup_insert_ne.
  - intros id' [->|Hid']%elem_of_cons.
    + exists m. split; [done|]. fold o. destruct (Hout id Hid) as [-> ->].
      rewrite !lookup_insert_eq. split_and!; [done|done| |].
      * intros a [Ha|(id' & i & Hid' & [= -> ->])]%Horig; [|done].
        apply elem_of_app in Ha. done.
      * intros a Ha. apply Hmono, elem_of_app. auto.
    + destruct (Hin id' Hid') as (m' & Hm' & H1 & H2 & H3 & H4).
      exists m'. split; [done|]. cbv zeta. split_and!; [exact H1|exact H2| |exact H4].
      intros a [Ha|Ha]%H3; [|auto].
      apply elem_of_app in Ha as [|Ha]; [auto|]. exfalso.
      unfold publish_actions in Ha. destruct o.2; set_solver.
  - intros a Ha. apply Hmono, elem_of_app. auto.
  - intros a [Ha|(id' & i & Hid' & ->)]%Horig.
    + apply elem_of_app in Ha as [|Ha]; [auto|]. right.
      unfold publish_actions in Ha. destruct o.2; set_solver.
    + right. exists id', i. split; [by constructor|done].
Qed.

Lemma calc_service_infos_spec `{HashOrder} b now last s s' acts :
  calc_service_infos b now last s = (s', Ok acts) ->
  instances_keyed s -> instance_times_ok now s ->
  exists infos times, s' = set_infos infos times s /\
  (forall id, id ∈ dom (ns_specs s) -> exists info,
     info_members info = live_members now s id /\
     (match info with
      | SingleInstance _ => size (live_members now s id) = 1%nat
      | RandomCluster m => m = pair 100 <$> live_members now s id
                           /\ size (live_members now s id) <> 1%nat
      end) /\
     let o := publish now last id info in
     infos !! id = Some o.1.1 /\ times !! id = Some o.1.2 /\
     (forall a, UpdateServiceInfo id a ∈ acts <-> o.2 = true /\ a = info)) /\
  (forall a, a ∈ acts -> exists id i, id ∈ dom (ns_specs s) /\ a = UpdateServiceInfo id i).
Proof.
  unfold calc_service_infos. intros Hc Hk Ht.
  destruct (fold_result _ _ _) as [[s1 acts1] [[]| |]] eqn:Hf; try done.
  injection Hc as <- <-. apply calc_loop in Hf as (infos & times & -> & _ & Hin & _ & Horig);
    [|apply NoDup_keys].
  exists infos, times. split; [done|]. split.
  - intros id [sp Hid]%elem_of_dom. destruct (Hin id) as (m & Hm & H1 & H2 & H3 & H4).
    { apply elem_of_keys. by exists sp. }
    apply collect_members in Hm; [|done..]. subst m.
    destruct (new_service_info_members (pair 100 <$> live_members now s id)) as [Hmem Hsize].
    { intros k wi. rewrite lookup_fmap, fmap_Some. intros (i & Hi & ->). simpl.
      apply map_lookup_filter_Some in Hi as [Hi _]. by apply Hk. }
    set (info := new_service_info _) in *. exists info. split; [|split].
    + rewrite Hmem, <- map_fmap_compose. apply map_fmap_id.
    + destruct info; rewrite map_size_fmap in Hsize; done.
    + split_and!; [done..|]. intros a.
      assert (Hpa : UpdateServiceInfo id a ∈ publish_actions id (publish now last id info)
                    <-> (publish now last id info).2 = true /\ a = info).
      { unfold publish_actions, publish. destruct (old_info last id) as [old|]; simpl; [|set_solver].
        destruct (peq old info); simpl; [set_solver|]. destruct (_ <? _); set_solver. }
      rewrite <- Hpa. split; [|apply H4]. intros [|]%H3; [set_solver|done].
  - intros a [|(id & i & Hid & ->)]%Horig; [set_solver|]. exists id, i. split; [|done].
    apply elem_of_dom. by apply elem_of_keys.
Qed.
