(* ===== verification/SchedulerTheorems.v ===== *)
(** What the node scheduler promises: placement, node review, teardown of
    deleted and disabled specs, service infos, and the phases of [schedule]. *)
From Stdlib Require Import ZArith Lia Ascii Sorted Permutation Floats.SpecFloat.
From stdpp Require Import base tactics numbers gmap strings sorting list.
From S2P Require Import Prelude RustString SchedTypes Scheduler SchedulerFacts SchedulerLedger SchedulerInfo.

(** ** Lemmas *)

(** What [resort_node] makes of a node. *)
Definition reviewed_state (st : NodeState) : NodeState :=
  match st with NodeNew => NodePrepare | NodeRemoving => NodeDeleted | st => st end.

Definition review_node (n : NodeItem) : NodeItem := set_node_state (reviewed_state (nd_state n)) n.

Definition review_action (n : NodeItem) : option SchedulerAction :=
  match nd_state n with
  | NodeNew => Some (ChangeNodeStatus (nd_id n) NodePrepare)
  | NodeRemoving => Some (ChangeNodeStatus (nd_id n) NodeDeleted)
  | _ => None
  end.

Lemma resort_node_eq n :
  resort_node n = (fun a => (review_node n, a)) <$> review_action n.
Proof. by unfold resort_node, review_action, review_node; destruct (nd_state n). Qed.

Lemma review_node_id n : review_action n = None -> review_node n = n.
Proof. by unfold review_action, review_node; destruct n; simpl; case_match. Qed.

Lemma set_nodes_eq s m : m = ns_nodes s -> set_nodes m s = s.
Proof. intros ->. by destruct s. Qed.

Lemma resort_nodes_step_ok acc id :
  resort_nodes_step acc id =
  ((set_nodes (alter review_node id (ns_nodes acc.1)) acc.1,
    acc.2 ++ option_list (ns_nodes acc.1 !! id ≫= review_action)), Ok ()).
Proof.
  destruct acc as [s acts]. unfold resort_nodes_step, check_node_op_tasks. simpl.
  destruct (ns_nodes s !! id) as [n|] eqn:En; simpl.
  - rewrite resort_node_eq. destruct (review_action n) as [a|] eqn:Ea; simpl.
    + do 3 f_equal. apply map_eq. intros k. rewrite lookup_alter, lookup_insert.
      case_decide; [|done]. subst. by rewrite En.
    + rewrite app_nil_r, set_nodes_eq; [done|]. apply map_eq. intros k.
      rewrite lookup_alter. case_decide; [|done]. subst. rewrite En. simpl.
      by rewrite review_node_id.
  - rewrite app_nil_r, set_nodes_eq; [done|]. apply map_eq. intros k.
    rewrite lookup_alter. case_decide; [|done]. subst. by rewrite En.
Qed.

Lemma resort_nodes_fold ids s acts :
  NoDup ids ->
  fold_result resort_nodes_step (s, acts) ids =
  ((set_nodes (map_imap (fun k n => Some (if bool_decide (k ∈ ids) then review_node n else n))
     (ns_nodes s)) s,
    acts ++ concat ((fun id => option_list (ns_nodes s !! id ≫= review_action)) <$> ids)), Ok ()).
Proof.
  revert s acts. induction ids as [|id ids IH]; intros s acts Hnd; cbn [fold_result].
  - simpl. rewrite app_nil_r, set_nodes_eq; [done|].
    apply map_eq. intros k. rewrite map_lookup_imap. by destruct (_ !! k).
  - apply NoDup_cons in Hnd as [Hid Hnd]. rewrite resort_nodes_step_ok, IH by done.
    simpl. f_equal. f_equal.
    + destruct s; unfold set_nodes; simpl. f_equal. apply map_eq. intros k.
      rewrite !map_lookup_imap, lookup_alter. case_decide as Hk.
      * subst. destruct (_ !! k); simpl; [|done].
        by rewrite bool_decide_eq_false_2, bool_decide_eq_true_2 by (done || constructor).
      * destruct (_ !! k); simpl; [|done]. do 2 f_equal.
        erewrite bool_decide_ext; [done|]. set_solver.
    + rewrite <- app_assoc. f_equal. f_equal. f_equal. apply list_fmap_ext.
      intros j k Hk. rewrite lookup_alter_ne; [done|]. intros ->.
      apply Hid, list_elem_of_lookup. eauto.
Qed.

(** A loop that touches one key per round, each key once. *)
Section pointwise.
Context {V A : Type} (f : option V -> option V) (g : option V -> list A).

Definition pointwise_step (acc : gmap string V * list A) (id : string) :=
  (partial_alter f id acc.1, acc.2 ++ g (acc.1 !! id)).

Lemma fold_pointwise ids m acts :
  NoDup ids ->
  (forall k, (fold_left pointwise_step ids (m, acts)).1 !! k =
     if bool_decide (k ∈ ids) then f (m !! k) else m !! k) /\
  (fold_left pointwise_step ids (m, acts)).2 = acts ++ concat ((fun id => g (m !! id)) <$> ids).
Proof.
  revert m acts. induction ids as [|id ids IH]; intros m acts Hnd; csimpl.
  - by rewrite app_nil_r.
  - apply NoDup_cons in Hnd as [Hid Hnd].
    destruct (IH (partial_alter f id m) (acts ++ g (m !! id)) Hnd) as [H1 H2].
    unfold pointwise_step at 2 4. simpl. split.
    + intros k. rewrite H1, lookup_partial_alter. case_decide as Hk.
      * subst. by rewrite bool_decide_eq_false_2, bool_decide_eq_true_2 by (done || constructor).
      * erewrite bool_decide_ext; [done|]. set_solver.
    + rewrite H2, <- app_assoc. f_equal. f_equal. f_equal. apply list_fmap_ext.
      intros j k Hk. rewrite lookup_partial_alter_ne; [done|]. intros ->.
      apply Hid, list_elem_of_lookup. eauto.
Qed.
End pointwise.

Definition removed (i : option ReplicaInstance) : list SchedulerAction :=
  match i with
  | Some i => [RemoveInstance (ri_spec_id i) (ri_instance_id i) (ri_node_id i)]
  | None => []
  end.

Definition stopped (i : option ReplicaInstance) : list SchedulerAction :=
  match i with
  | Some i => [UpdateInstance (ri_instance_id i) (set_instance_state Suspended i)]
  | None => []
  end.

Lemma set_instances_eq s m : m = ns_replica_instances s -> set_instances m s = s.
Proof. intros ->. by destruct s. Qed.

Lemma partial_alter_same {V} (f : option V -> option V) k (m : gmap string V) :
  f (m !! k) = m !! k -> partial_alter f k m = m.
Proof. intros E. apply map_eq. intros j. rewrite lookup_partial_alter. by case_decide; subst. Qed.

Lemma remove_fold_pointwise ids s acts :
  fold_left remove_spec_instance ids (s, acts) =
  let r := fold_left (pointwise_step (fun _ => None) removed) ids (ns_replica_instances s, acts) in
  (set_instances r.1 s, r.2).
Proof.
  revert s acts. induction ids as [|id ids IH]; intros s acts; simpl.
  - by rewrite set_instances_eq.
  - unfold remove_spec_instance at 2, pointwise_step at 2 4. simpl.
    destruct (ns_replica_instances s !! id) eqn:E; simpl; rewrite IH; simpl; [done|].
    by rewrite app_nil_r, partial_alter_same.
Qed.

Lemma stop_fold_pointwise ids s acts :
  fold_left stop_spec_instance ids (s, acts) =
  let r := fold_left (pointwise_step (fmap (set_instance_state Suspended)) stopped) ids
             (ns_replica_instances s, acts) in
  (set_instances r.1 s, r.2).
Proof.
  revert s acts. induction ids as [|id ids IH]; intros s acts; simpl.
  - by rewrite set_instances_eq.
  - unfold stop_spec_instance at 2, pointwise_step at 2 4. simpl.
    destruct (ns_replica_instances s !! id) as [i|] eqn:E; simpl; rewrite IH; simpl.
    + replace (partial_alter _ id _) with (<[id:=set_instance_state Suspended i]> (ns_replica_instances s));
        [done|].
      apply map_eq. intros k. rewrite lookup_insert, lookup_partial_alter.
      case_decide; [|done]. subst. by rewrite E.
    + rewrite app_nil_r, partial_alter_same; [done|]. by rewrite E.
Qed.

Lemma elem_of_instance_ids `{HashOrder} p s id :
  id ∈ instance_ids_where p s <->
  exists i, ns_replica_instances s !! id = Some i /\ p i = true.
Proof.
  unfold instance_ids_where. rewrite list_elem_of_fmap. split.
  - intros ([k i] & -> & [Hp Hi%elem_of_iter]%elem_of_filterb). eauto.
  - intros (i & Hi & Hp). exists (id, i). split; [done|].
    apply elem_of_filterb. by rewrite elem_of_iter.
Qed.

Lemma instance_ids_NoDup `{HashOrder} p s : NoDup (instance_ids_where p s).
Proof.
  eapply submseteq_NoDup; [|apply (NoDup_keys (ns_replica_instances s))].
  apply fmap_submseteq, sublist_submseteq, filterb_sublist.
Qed.

Lemma review_all `{HashOrder} (m : gmap string NodeItem) :
  map_imap (fun k n => Some (if bool_decide (k ∈ keys m) then review_node n else n)) m
  = review_node <$> m.
Proof.
  apply map_eq. intros k. rewrite map_lookup_imap, lookup_fmap.
  destruct (m !! k) as [n|] eqn:E; simpl; [|done].
  by rewrite bool_decide_eq_true_2 by (apply elem_of_keys; eauto).
Qed.

Lemma resort_nodes_eq `{HashOrder} s :
  resort_nodes s =
  (set_nodes (review_node <$> ns_nodes s) s,
   Ok (concat ((fun id => option_list (ns_nodes s !! id ≫= review_action)) <$> keys (ns_nodes s)))).
Proof.
  unfold resort_nodes. rewrite resort_nodes_fold by apply NoDup_keys. simpl.
  by rewrite review_all.
Qed.

Lemma elem_of_review_actions `{HashOrder} s a :
  a ∈ concat ((fun id => option_list (ns_nodes s !! id ≫= review_action)) <$> keys (ns_nodes s)) <->
  exists k n, ns_nodes s !! k = Some n /\ review_action n = Some a.
Proof.
  rewrite list_elem_of_In, in_concat. setoid_rewrite <- list_elem_of_In.
  setoid_rewrite list_elem_of_fmap. split.
  - intros (x & (k & -> & Hk) & Ha). destruct (ns_nodes s !! k) as [n|] eqn:E; simpl in *; [|set_solver].
    destruct (review_action n) eqn:En; set_solver.
  - intros (k & n & Hk & Hn). exists [a]. split; [|set_solver]. exists k. split.
    + rewrite Hk. simpl. by rewrite Hn.
    + apply elem_of_keys. eauto.
Qed.

Lemma set_specs_instances s m : ns_replica_instances (set_specs m s) = ns_replica_instances s.
Proof. done. Qed.

(** Concrete inputs for the witnesses: two [Ready] OODs, one spec. *)
Definition demo_node (id : string) (st : NodeState) (cpu : Z) : NodeItem :=
  mkNode id OOD [] "zone" true st cpu 4000 8000 16000 0 0 (f64_of_Z 0) ∅ [].

Definition demo_spec (id : string) (st : ServiceSpecState) (cpu count : Z) : ServiceSpec :=
  mkSpec id id 1 "root" App st count false cpu 1000 (f64_of_Z 0) 0 None None
    {["www" := 8080]}.

Definition demo_instance (spec node : string) (st : InstanceState) (t : Z) : ReplicaInstance :=
  mkInstance node spec ∅ (spec +:+ "@" +:+ node) t st ∅.

Definition demo_sched : NodeScheduler :=
  add_service_spec (demo_spec "app" SpecNew 1500 2)
    (add_node (demo_node "ood1" NodeReady 2000)
      (add_node (demo_node "ood2" NodeReady 3000) (new_empty 1 1000))).

Definition demo_gone : NodeScheduler :=
  add_service_spec (demo_spec "old" SpecDeleted 10 1)
    (add_replica_instance (demo_instance "old" "ood1" InstRunning 990)
      (add_replica_instance (demo_instance "app" "ood2" InstRunning 990)
        (add_node (demo_node "ood1" NodeReady 2000) (new_empty 1 1000)))).

Lemma demo_wf : wf_sched demo_sched.
Proof.
  split.
  - by_compute.
  - by_compute.
  - intros k n r Hn Hr. revert r Hr. apply ledger_forall.
    assert (Ha : map_Forall (fun _ n => 0 <= nd_available_cpu_mhz n /\
      0 <= nd_available_memory n /\ 0 <= nd_available_gpu_memory n) (ns_nodes demo_sched))
      by by_compute.
    exact (Ha k n Hn).
  - intros k sp r Hsp Hr. revert r Hr. apply ledger_forall.
    assert (Ha : map_Forall (fun _ sp => 0 <= sp_required_cpu_mhz sp /\
      0 <= sp_required_memory sp /\ 0 <= sp_required_gpu_mem sp) (ns_specs demo_sched))
      by by_compute.
    exact (Ha k sp Hsp).
Qed.

(** ** Properties *)

(** C1: One pass of [schedule_spec_change] never oversells a node: the CPU,
    memory and GPU memory asked by all the instances it creates on a node,
    whatever specs they belong to, fit in what the node had available. *)
Theorem schedule_spec_change_no_oversell `{HashOrder} (b : build) (clock_at : string -> Z)
    (s s' : NodeScheduler) (acts : list SchedulerAction) (k : string) (n : NodeItem)
    (r : resource) :
  wf_sched s ->
  schedule_spec_change b clock_at s = (s', Ok acts) ->
  ns_nodes s !! k = Some n -> r ∈ ledger_resources ->
  demand r s k (replicas acts) <= res_avail r n.
Proof.
  intros Hwf Hs Hn Hr. apply schedule_spec_change_inv in Hs as (st & Hinv & <- & _); [|done].
  destruct (decide (k ∈ nd_id <$> initial_shadow s)) as [Hk|Hk].
  - rewrite <- (li_ids _ _ Hinv) in Hk. apply list_elem_of_fmap in Hk as (m & -> & Hm).
    destruct (li_shadow _ _ Hinv m Hm) as (n0 & cpu & mem & gpu & Hn0 & Em & Hres).
    rewrite Hn in Hn0. injection Hn0 as <-. destruct (Hres r Hr). lia.
  - rewrite demand_absent; [by eapply wf_avail|].
    intros (i & -> & Hi)%list_elem_of_fmap. by apply Hk, (li_placed _ _ Hinv).
Qed.

Lemma schedule_spec_change_no_oversell_witness :
  let r := schedule_spec_change (H := canonical_order) Release (fun _ => 1000) demo_sched in
  match r with
  | (_, Ok acts) =>
    demand cpu_resource demo_sched "ood1" (replicas acts) = 1500 /\
    demand cpu_resource demo_sched "ood1" (replicas acts)
      <= res_avail cpu_resource (demo_node "ood1" NodeReady 2000)
  | _ => False
  end.
Proof.
  pose proof (schedule_spec_change_no_oversell (H := canonical_order) Release (fun _ => 1000)
    demo_sched) as Hthm.
  destruct (schedule_spec_change _ _ _) as [s' [acts|m|]] eqn:E;
    [|vm_compute in E; discriminate..].
  split.
  - vm_compute in E. injection E as _ <-. reflexivity.
  - eapply Hthm; [exact demo_wf|reflexivity|reflexivity|by constructor].
Defined.

(** C35: Every instance [schedule_spec_change] creates belongs to a spec of the
    snapshot and sits on a node that can host it: [Ready], an OOD or server,
    with container support if the spec needs it, enough of every resource and
    the affinity label. *)
Theorem schedule_spec_change_placement `{HashOrder} (b : build) (clock_at : string -> Z)
    (s s' : NodeScheduler) (acts : list SchedulerAction) (i : ReplicaInstance) :
  wf_sched s ->
  schedule_spec_change b clock_at s = (s', Ok acts) ->
  InstanceReplica i ∈ acts ->
  exists n sp, ns_nodes s !! ri_node_id i = Some n /\ ns_specs s !! ri_spec_id i = Some sp /\
    placeable n sp.
Proof.
  intros Hwf Hs Hi. apply schedule_spec_change_inv in Hs as (st & Hinv & <- & _); [|done].
  apply elem_of_replicas in Hi. by apply (li_placed _ _ Hinv).
Qed.

Lemma schedule_spec_change_placement_witness :
  match schedule_spec_change (H := canonical_order) Release (fun _ => 1000) demo_sched with
  | (_, Ok (InstanceReplica i :: _)) =>
    exists n sp, ns_nodes demo_sched !! ri_node_id i = Some n /\
      ns_specs demo_sched !! ri_spec_id i = Some sp /\ placeable n sp
  | _ => False
  end.
Proof.
  pose proof (schedule_spec_change_placement (H := canonical_order) Release (fun _ => 1000)
    demo_sched) as Hthm.
  destruct (schedule_spec_change _ _ _) as [s' [acts|m|]] eqn:E;
    [|vm_compute in E; discriminate..].
  destruct acts as [|[] acts]; try (vm_compute in E; discriminate).
  eapply Hthm; [exact demo_wf|reflexivity|by constructor].
Defined.

(** A successful reconciliation fills the gap to [best_instance_count] as
    far as there are nodes: as many new instances as are missing, or as there
    are placeable nodes not yet hosting the spec, on distinct such nodes; when
    nothing is missing it creates nothing. *)
Theorem reconcile_spec_instances_count `{HashOrder} (b : build) (clock_at : string -> Z)
    (s : NodeScheduler) (sp : ServiceSpec) (shadow shadow' : list NodeItem)
    (new : list ReplicaInstance) :
  let existing := existing_instances s sp in
  let free := List.filter (fun n => filter_node_for_instance n sp
      && negb (bool_decide (nd_id n ∈ ri_node_id <$> existing))) shadow in
  Z.of_nat (length existing) <= u32_max -> Z.of_nat (length shadow) <= u32_max ->
  NoDup (nd_id <$> shadow) ->
  reconcile_spec_instances b clock_at s sp shadow = (shadow', Ok new) ->
  Z.of_nat (length new) =
    Z.min (Z.max 0 (sp_best_instance_count sp - Z.of_nat (length existing)))
          (if sp_best_instance_count sp <=? Z.of_nat (length existing) then 0
           else Z.of_nat (length free)) /\
  NoDup (ri_node_id <$> new) /\
  (forall i, i ∈ new -> ri_node_id i ∉ ri_node_id <$> existing).
Proof.
  intros existing free He Hsh Hnd Hr.
  pose proof (reconcile_spec_instances_ok b clock_at s sp shadow shadow' new Hr Hnd)
    as (_ & Hnew & Hnodes & _).
  split; [|split; [done|]].
  - revert Hr. unfold reconcile_spec_instances. fold existing. rewrite Z.mod_small by lia.
    destruct (_ <=? _) eqn:E; [intros [= <- <-]; simpl; lia|].
    destruct (create_replica_instance _ _ _ _) as [l| |] eqn:Hc; try done.
    intros [= <- <-]. apply create_replica_instance_nodes in Hc as (ports & sel & -> & _ & Hlen).
    rewrite length_fmap, Hlen, candidates_best_count. simpl.
    assert (Hf : candidates sp (List.filter
      (fun n => negb (bool_decide (nd_id n ∈ ri_node_id <$> existing))) shadow) = free).
    { unfold candidates, free. clear. induction shadow as [|n l IH]; simpl; [done|].
      destruct (negb _); simpl; rewrite IH; [by rewrite andb_true_r|by rewrite andb_false_r]. }
    rewrite Hf. assert (length free <= length shadow)%nat by (apply sublist_length, filterb_sublist).
    rewrite Z.mod_small by lia. lia.
  - intros i Hi. by destruct (Hnodes (ri_node_id i)) as (_ & _ & _ & _ & ?);
      [apply list_elem_of_fmap_2|].
Qed.

Lemma reconcile_spec_instances_count_witness :
  exists shadow' new,
    reconcile_spec_instances (H := canonical_order) Release (fun _ => 1000) demo_sched
      (demo_spec "app" SpecNew 2500 2)
      [demo_node "ood1" NodeReady 2000; demo_node "ood2" NodeReady 3000] = (shadow', Ok new) /\
    length new = 1%nat /\ NoDup (ri_node_id <$> new).
Proof.
  destruct (reconcile_spec_instances (H := canonical_order) Release (fun _ => 1000) demo_sched
      (demo_spec "app" SpecNew 2500 2)
      [demo_node "ood1" NodeReady 2000; demo_node "ood2" NodeReady 3000])
    as [shadow' [new| |]] eqn:E; [|vm_compute in E; discriminate..].
  exists shadow', new. split; [done|].
  assert (Z.of_nat (length new) = 1 /\ NoDup (ri_node_id <$> new)) as [? ?]; [|split; [lia|done]].
  eapply (reconcile_spec_instances_count (H := canonical_order) Release) in E;
    [|vm_compute; discriminate|vm_compute; discriminate|by_compute].
  destruct E as (E1 & E2 & _). split; [|exact E2]. rewrite E1. vm_compute. reflexivity.
Defined.

(** Placement takes the best-scored nodes: a node that could host the spec
    and was left out scores no higher than any node that was chosen. *)
Theorem create_replica_instance_best `{HashOrder} (b : build) (clock_at : string -> Z)
    (sp : ServiceSpec) (nodes : list NodeItem) (l : list ReplicaInstance)
    (i : ReplicaInstance) (n : NodeItem) :
  create_replica_instance b clock_at sp nodes = Ok l ->
  i ∈ l -> n ∈ nodes -> filter_node_for_instance n sp = true ->
  nd_id n ∉ ri_node_id <$> l ->
  exists m, m ∈ nodes /\ nd_id m = ri_node_id i /\
    score_geb (score_node m sp) (score_node n sp) = true.
Proof.
  intros Hc Hi Hn Hf Hout.
  apply create_replica_instance_spec in Hc as (_ & ports & scored & k & -> & Hp & Hs & _).
  apply list_elem_of_fmap in Hi as ([sc m] & -> & Hm).
  assert (Hsc : (sc, m) ∈ scored) by (eapply elem_of_submseteq; [done|]; apply submseteq_take).
  rewrite Hp in Hsc. apply list_elem_of_fmap in Hsc as (m' & [= -> ->] & Hm').
  apply elem_of_filterb in Hm' as [_ Hm'].
  exists m'. split; [done|]. split; [done|].
  assert (Hn' : (score_node n sp, n) ∈ scored).
  { rewrite Hp. apply list_elem_of_fmap. exists n. split; [done|]. by apply elem_of_filterb. }
  rewrite <- (take_drop k scored), elem_of_app in Hn'. destruct Hn' as [Hn'|Hn'].
  - destruct Hout. apply list_elem_of_fmap.
    exists (make_instance clock_at sp ports n). split; [done|].
    apply list_elem_of_fmap. by exists (score_node n sp, n).
  - apply (StronglySorted_take_drop _ k _ _ _ Hs Hm Hn').
Qed.

Lemma create_replica_instance_best_witness :
  match create_replica_instance (H := canonical_order) Release (fun _ => 1000)
    (demo_spec "app" SpecNew 100 1)
    [demo_node "ood1" NodeReady 2000; demo_node "ood2" NodeReady 3000] with
  | Ok [i] => ri_node_id i = "ood2" /\
      exists m, m ∈ [demo_node "ood1" NodeReady 2000; demo_node "ood2" NodeReady 3000] /\
        nd_id m = ri_node_id i /\
        score_geb (score_node m (demo_spec "app" SpecNew 100 1))
          (score_node (demo_node "ood1" NodeReady 2000) (demo_spec "app" SpecNew 100 1)) = true
  | _ => False
  end.
Proof.
  destruct (create_replica_instance _ _ _ _) as [l| |] eqn:E; [|vm_compute in E; discriminate..].
  destruct l as [|i [|]]; [vm_compute in E; discriminate| |vm_compute in E; discriminate].
  assert (Hi : ri_node_id i = "ood2") by (vm_compute in E; by injection E as <-).
  split; [exact Hi|].
  eapply (create_replica_instance_best _ _ _ _ _ i); [exact E|by constructor|by constructor|
    vm_compute; reflexivity|]. csimpl. rewrite Hi. by_compute.
Defined.

(** [resort_nodes] never fails, moves every [New] node to [Prepare] and
    every [Removing] node to [Deleted], changes nothing else, reports exactly
    those moves, and has nothing left to do when run again. *)
Theorem resort_nodes_correct `{HashOrder} (s : NodeScheduler) :
  exists acts,
    resort_nodes s = (set_nodes (review_node <$> ns_nodes s) s, Ok acts) /\
    (forall a, a ∈ acts <-> exists k n, ns_nodes s !! k = Some n /\ review_action n = Some a) /\
    map_Forall (fun _ n => nd_state n <> NodeNew /\ nd_state n <> NodeRemoving)
      (ns_nodes (resort_nodes s).1) /\
    resort_nodes (resort_nodes s).1 = ((resort_nodes s).1, Ok []).
Proof.
  eexists. split; [apply resort_nodes_eq|]. split; [apply elem_of_review_actions|].
  rewrite resort_nodes_eq. simpl. rewrite resort_nodes_eq.
  set (m := review_node <$> ns_nodes s).
  assert (Hm : map_Forall (fun _ n => nd_state n <> NodeNew /\ nd_state n <> NodeRemoving) m).
  { intros k n. unfold m. rewrite lookup_fmap, fmap_Some. intros (n' & _ & ->).
    unfold review_node, reviewed_state; simpl. by destruct (nd_state n'). }
  split; [done|]. simpl. f_equal.
  - rewrite (set_nodes_eq _ (review_node <$> m)); [done|]. simpl.
    apply map_eq. intros k. rewrite lookup_fmap. destruct (m !! k) as [n|] eqn:E; simpl; [|done].
    destruct (Hm k n E). f_equal. apply review_node_id.
    unfold review_action. by destruct (nd_state n).
  - f_equal. destruct (concat _) as [|a l] eqn:E; [done|].
    assert (Ha : a ∈ a :: l) by constructor. rewrite <- E in Ha.
    apply (elem_of_review_actions (set_nodes m s)) in Ha as (k & n & Hk & Hn).
    destruct (Hm k n Hk). revert Hn. unfold review_action. by destruct (nd_state n).
Qed.

(** When a spec is marked [Deleted], its step removes every instance of
    the spec and no other, with one [RemoveInstance] action for each, and
    confirms the state. *)
Theorem deleted_spec_torn_down `{HashOrder} (b : build) (clock_at : string -> Z)
    (st : spec_loop) (id : string) (sp : ServiceSpec) :
  ns_specs (lp_sched st) !! id = Some sp -> sp_state sp = SpecDeleted ->
  exists st' removals,
    spec_change_step b clock_at st id = (st', Ok ()) /\
    ns_replica_instances (lp_sched st') =
      filter (fun kv => ri_spec_id kv.2 <> id) (ns_replica_instances (lp_sched st)) /\
    lp_shadow st' = lp_shadow st /\
    lp_actions st' = lp_actions st ++ removals ++ [ChangeServiceStatus id SpecDeleted] /\
    (forall a, a ∈ removals <-> exists key i,
       ns_replica_instances (lp_sched st) !! key = Some i /\ ri_spec_id i = id /\
       a = RemoveInstance (ri_spec_id i) (ri_instance_id i) (ri_node_id i)).
Proof.
  intros Hsp Hst. unfold spec_change_step. rewrite Hsp, Hst, remove_fold_pointwise. simpl.
  set (ids := instance_ids_where _ _).
  assert (Hids : forall k, k ∈ ids <-> exists i,
            ns_replica_instances (lp_sched st) !! k = Some i /\ ri_spec_id i = id).
  { intros k. unfold ids. rewrite elem_of_instance_ids. by setoid_rewrite String.eqb_eq. }
  destruct (fold_pointwise (fun _ => None) removed ids (ns_replica_instances (lp_sched st))
    (lp_actions st)) as [H1 H2]; [apply instance_ids_NoDup|].
  eexists _, _. split; [done|]. simpl. split_and!; [|done|by rewrite H2, <- app_assoc|].
  - apply map_eq. intros k. rewrite H1. apply option_eq. intros i.
    rewrite map_lookup_filter_Some. case_bool_decide as Hk.
    + apply Hids in Hk as (j & Hj & Hjs). split; [done|]. intros [Hi Hne]. naive_solver.
    + split; [|by intros []]. intros Hi. split; [done|]. intros Hs. apply Hk, Hids. eauto.
  - intros a. rewrite list_elem_of_In, in_concat. setoid_rewrite <- list_elem_of_In.
    setoid_rewrite list_elem_of_fmap. split.
    + intros (x & (k & -> & Hk) & Ha). apply Hids in Hk as (i & Hi & Hs).
      rewrite Hi in Ha. simpl in Ha. exists k, i. set_solver.
    + intros (k & i & Hi & Hs & ->). eexists. split; [|by constructor].
      exists k. split; [by rewrite Hi|]. apply Hids. eauto.
Qed.

Lemma deleted_spec_torn_down_witness :
  exists st' removals,
    spec_change_step (H := canonical_order) Release (fun _ => 0) (mkLoop demo_gone [] []) "old"
      = (st', Ok ()) /\
    ns_replica_instances (lp_sched st') =
      filter (fun kv => ri_spec_id kv.2 <> "old") (ns_replica_instances demo_gone) /\
    lp_actions st' = removals ++ [ChangeServiceStatus "old" SpecDeleted].
Proof.
  destruct (deleted_spec_torn_down (H := canonical_order) Release (fun _ => 0)
    (mkLoop demo_gone [] []) "old" (demo_spec "old" SpecDeleted 10 1) eq_refl eq_refl)
    as (st' & removals & H1 & H2 & _ & H3 & _).
  exists st', removals. split; [exact H1|]. split; [exact H2|exact H3].
Defined.

(** Disabling an app-like spec stops every instance of it that is neither
    suspended nor deleted, with one [UpdateInstance] each, and deletes none. *)
Theorem disabled_spec_stopped `{HashOrder} (b : build) (clock_at : string -> Z)
    (st : spec_loop) (id : string) (sp : ServiceSpec) :
  ns_specs (lp_sched st) !! id = Some sp -> sp_state sp = Disable ->
  is_app_like (sp_spec_type sp) = true ->
  exists st' stops,
    spec_change_step b clock_at st id = (st', Ok ()) /\
    (forall k i, ns_replica_instances (lp_sched st) !! k = Some i ->
       ns_replica_instances (lp_sched st') !! k = Some
         (if bool_decide (ri_spec_id i = id /\ ri_state i <> InstDeleted)
          then set_instance_state Suspended i else i)) /\
    dom (ns_replica_instances (lp_sched st')) = dom (ns_replica_instances (lp_sched st)) /\
    lp_actions st' = lp_actions st ++ stops /\
    (forall a, a ∈ stops <-> exists k i,
       ns_replica_instances (lp_sched st) !! k = Some i /\ ri_spec_id i = id /\
       ri_state i <> Suspended /\ ri_state i <> InstDeleted /\
       a = UpdateInstance (ri_instance_id i) (set_instance_state Suspended i)).
Proof.
  intros Hsp Hst Happ. unfold spec_change_step. rewrite Hsp, Hst, Happ, stop_fold_pointwise. simpl.
  set (ids := instance_ids_where _ _).
  assert (Hids : forall k, k ∈ ids <-> exists i, ns_replica_instances (lp_sched st) !! k = Some i
            /\ ri_spec_id i = id /\ ri_state i <> Suspended /\ ri_state i <> InstDeleted).
  { intros k. unfold ids. rewrite elem_of_instance_ids.
    setoid_rewrite andb_true_iff. setoid_rewrite andb_true_iff.
    setoid_rewrite negb_true_iff. setoid_rewrite bool_decide_eq_false.
    setoid_rewrite String.eqb_eq. naive_solver. }
  destruct (fold_pointwise (fmap (set_instance_state Suspended)) stopped ids
    (ns_replica_instances (lp_sched st)) (lp_actions st)) as [H1 H2]; [apply instance_ids_NoDup|].
  eexists _, _. split; [done|]. simpl. split_and!; [| |by rewrite H2|].
  - intros k i Hi. rewrite H1, Hi. simpl. case_bool_decide as Hk; case_bool_decide as Hs; try done.
    + apply Hids in Hk as (j & Hj & ?). naive_solver.
    + f_equal. destruct (decide (ri_state i = Suspended)) as [E|E].
      * destruct i; simpl in *. by subst.
      * destruct Hk. apply Hids. exists i. naive_solver.
  - apply set_eq. intros k. rewrite !elem_of_dom, H1.
    case_bool_decide; by rewrite ?fmap_is_Some.
  - intros a. rewrite list_elem_of_In, in_concat. setoid_rewrite <- list_elem_of_In.
    setoid_rewrite list_elem_of_fmap. split.
    + intros (x & (k & -> & Hk) & Ha). apply Hids in Hk as (i & Hi & Hs).
      rewrite Hi in Ha. simpl in Ha. exists k, i. set_solver.
    + intros (k & i & Hi & Hs & H3 & H4 & ->). eexists. split; [|by constructor].
      exists k. split; [by rewrite Hi|]. apply Hids. eauto.
Qed.

Definition demo_disabled : NodeScheduler :=
  add_service_spec (demo_spec "app" Disable 10 1)
    (add_replica_instance (demo_instance "app" "ood1" InstRunning 990)
      (add_replica_instance (demo_instance "app" "ood2" Suspended 990) (new_empty 1 1000))).

Lemma disabled_spec_stopped_witness :
  exists st' stops,
    spec_change_step (H := canonical_order) Release (fun _ => 0) (mkLoop demo_disabled [] []) "app"
      = (st', Ok ()) /\
    ns_replica_instances (lp_sched st') !! "app@ood1"
      = Some (demo_instance "app" "ood1" Suspended 990) /\
    lp_actions st' = stops.
Proof.
  destruct (disabled_spec_stopped (H := canonical_order) Release (fun _ => 0)
    (mkLoop demo_disabled [] []) "app" (demo_spec "app" Disable 10 1) eq_refl eq_refl eq_refl)
    as (st' & stops & H1 & H2 & _ & H3 & _).
  exists st', stops. split; [exact H1|]. split; [|exact H3].
  exact (H2 "app@ood1" (demo_instance "app" "ood1" InstRunning 990) eq_refl).
Defined.

Lemma demo_times s now :
  bool_decide (INSTANCE_ALIVE_TIME <= now <= u64_max) = true ->
  bool_decide (map_Forall (fun _ i => 0 <= ri_last_update_time i /\
    ri_last_update_time i <= u64_max) (ns_replica_instances s)) = true ->
  instance_times_ok now s.
Proof. intros H1%bool_decide_eq_true H2%bool_decide_eq_true. by split. Qed.

(** After [calc_service_infos], every spec has a service info whose members
    are exactly its live instances (running, proof of life less than 90 s
    old), as a single instance when there is one and a cluster otherwise; the
    stored info, its refresh time and the published actions follow the
    refresh rule of [publish], and nothing else is published. *)
Theorem calc_service_infos_correct `{HashOrder} (b : build) (now : Z)
    (last : option NodeScheduler) (s s' : NodeScheduler) (acts : list SchedulerAction) (id : string) :
  calc_service_infos b now last s = (s', Ok acts) ->
  instances_keyed s -> instance_times_ok now s -> id ∈ dom (ns_specs s) ->
  exists info,
    info_members info = live_members now s id /\
    (match info with
     | SingleInstance _ => size (live_members now s id) = 1%nat
     | RandomCluster m => m = pair 100 <$> live_members now s id
                          /\ size (live_members now s id) <> 1%nat
     end) /\
    ns_service_infos s' !! id = Some (publish now last id info).1.1 /\
    ns_service_info_refresh_times s' !! id = Some (publish now last id info).1.2 /\
    (forall a, UpdateServiceInfo id a ∈ acts <-> (publish now last id info).2 = true /\ a = info) /\
    ns_replica_instances s' = ns_replica_instances s /\ ns_specs s' = ns_specs s.
Proof.
  intros Hc Hk Ht Hid.
  destruct (calc_service_infos_spec b now last s s' acts Hc Hk Ht) as (infos & times & -> & Hin & _).
  destruct (Hin id Hid) as (info & H1 & H2 & H3 & H4 & H5). exists info. done.
Qed.

Lemma calc_service_infos_correct_witness :
  exists s' acts info,
    calc_service_infos (H := canonical_order) Release 1000 None demo_gone = (s', Ok acts) /\
    info_members info = live_members 1000 demo_gone "old" /\
    UpdateServiceInfo "old" info ∈ acts.
Proof.
  destruct (calc_service_infos (H := canonical_order) Release 1000 None demo_gone)
    as [s' [acts| |]] eqn:E; [|vm_compute in E; discriminate..].
  destruct (calc_service_infos_correct (H := canonical_order) Release 1000 None demo_gone s' acts "old" E)
    as (info & H1 & _ & _ & _ & H2 & _).
  - by_compute.
  - apply demo_times; vm_compute; reflexivity.
  - by_compute.
  - exists s', acts, info. split; [reflexivity|]. split; [exact H1|]. apply H2. by split.
Defined.

(** The info of a spec that was already published is published again only
    when it has changed and the last refresh is at least 30 s old. *)
Theorem service_info_refresh_throttled `{HashOrder} (b : build) (now : Z)
    (last s s' : NodeScheduler) (acts : list SchedulerAction) (id : string)
    (old info : ServiceInfo) (t : Z) :
  calc_service_infos b now (Some last) s = (s', Ok acts) ->
  instances_keyed s -> instance_times_ok now s ->
  ns_service_infos last !! id = Some old ->
  ns_service_info_refresh_times last !! id = Some t ->
  UpdateServiceInfo id info ∈ acts ->
  peq old info = false /\ SERVICE_INFO_REFRESH_INTERVAL <= now - t.
Proof.
  intros Hc Hk Ht Hold Hrefresh Hact.
  destruct (calc_service_infos_spec b now (Some last) s s' acts Hc Hk Ht)
    as (infos & times & -> & Hin & Horig).
  destruct (Horig _ Hact) as (id' & i & Hid & [= <- <-]).
  destruct (Hin id Hid) as (info' & _ & _ & _ & _ & H5).
  apply H5 in Hact as [Hp ->]. revert Hp. unfold publish, old_info, old_refresh. simpl.
  rewrite Hold, Hrefresh. destruct (peq old info'); [done|].
  destruct (_ <? _) eqn:E; [done|]. intros _. split; [done|].
  unfold sat_sub, SERVICE_INFO_REFRESH_INTERVAL in *. lia.
Qed.

Definition demo_last : NodeScheduler :=
  set_infos {["old" := RandomCluster ∅]} {["old" := 960]} demo_gone.

Lemma service_info_refresh_throttled_witness :
  exists s' acts, calc_service_infos (H := canonical_order) Release 1000 (Some demo_last) demo_gone
    = (s', Ok acts) /\
  exists info, UpdateServiceInfo "old" info ∈ acts /\
    peq (RandomCluster ∅) info = false /\ 30 <= 1000 - 960.
Proof.
  destruct (calc_service_infos (H := canonical_order) Release 1000 (Some demo_last) demo_gone)
    as [s' [acts| |]] eqn:E; [|vm_compute in E; discriminate..].
  exists s', acts. split; [reflexivity|].
  exists (SingleInstance (demo_instance "old" "ood1" InstRunning 990)).
  assert (Ha : UpdateServiceInfo "old" (SingleInstance (demo_instance "old" "ood1" InstRunning 990))
               ∈ acts) by (vm_compute in E; injection E as _ <-; left).
  split; [exact Ha|].
  apply (service_info_refresh_throttled (H := canonical_order) Release 1000 demo_last demo_gone
    s' acts "old" (RandomCluster ∅) _ 960); [exact E|by_compute|
    apply demo_times; vm_compute; reflexivity|reflexivity|reflexivity|exact Ha].
Defined.

(** A small system (at most 7 nodes) with a node to initialise or remove
    gets a round of node actions only: the nodes are reviewed, and specs,
    instances and service infos stay as they were. *)
Theorem schedule_small_system `{HashOrder} (b : build) (clock_at : string -> Z) (now : Z)
    (last : option NodeScheduler) (s : NodeScheduler) (k : string) (n : NodeItem) :
  (size (ns_nodes s) <= SMALL_SYSTEM_NODE_COUNT)%nat ->
  ns_nodes s !! k = Some n -> (nd_state n = NodeNew \/ nd_state n = NodeRemoving) ->
  exists acts,
    schedule b clock_at now last s = (set_nodes (review_node <$> ns_nodes s) s, Ok acts) /\
    acts <> [] /\ forall a, a ∈ acts -> exists id st, a = ChangeNodeStatus id st.
Proof.
  intros Hsize Hn Hst. unfold schedule. rewrite bool_decide_eq_false_2.
  2: { intros E%map_size_empty_inv. by rewrite E in Hn. }
  rewrite resort_nodes_eq. set (acts := concat _).
  assert (Ha : exists a, a ∈ acts).
  { destruct Hst as [Hst|Hst]; eexists; apply elem_of_review_actions; exists k, n;
      (split; [done|]); unfold review_action; by rewrite Hst. }
  assert (Hne : acts <> []) by (destruct Ha as [a Ha]; intros E; rewrite E in Ha; set_solver).
  exists acts. rewrite bool_decide_eq_false_2 by done.
  rewrite (proj2 (Nat.leb_le _ _) Hsize). simpl. split; [done|]. split; [done|].
  intros a (k' & n' & _ & Hr)%elem_of_review_actions. revert Hr. unfold review_action.
  destruct (nd_state n'); try done; intros [= <-]; eauto.
Qed.

Definition demo_fresh : NodeScheduler :=
  add_node (demo_node "ood3" NodeNew 2000) demo_sched.

Lemma schedule_small_system_witness :
  exists acts,
    schedule (H := canonical_order) Release (fun _ => 0) 1000 None demo_fresh
      = (set_nodes (review_node <$> ns_nodes demo_fresh) demo_fresh, Ok acts) /\ acts <> [].
Proof.
  destruct (schedule_small_system (H := canonical_order) Release (fun _ => 0) 1000 None demo_fresh
    "ood3" (demo_node "ood3" NodeNew 2000)) as (acts & H1 & H2 & _).
  - apply Nat.leb_le. vm_compute. reflexivity.
  - reflexivity.
  - left. reflexivity.
  - exists acts. split; [exact H1|exact H2].
Defined.

(** When no spec has changed since the last snapshot, a round leaves the
    specs and the instances alone and emits only node and service-info
    actions; with no node at all it fails and changes nothing. *)
Theorem schedule_unchanged_specs `{HashOrder} (b : build) (clock_at : string -> Z) (now : Z)
    (last : option NodeScheduler) (s s' : NodeScheduler) (acts : list SchedulerAction) :
  is_spec_changed s last = false ->
  schedule b clock_at now last s = (s', Ok acts) ->
  ns_nodes s <> ∅ /\
  ns_replica_instances s' = ns_replica_instances s /\ ns_specs s' = ns_specs s /\
  forall a, a ∈ acts -> (exists id st, a = ChangeNodeStatus id st)
                        \/ (exists id i, a = UpdateServiceInfo id i).
Proof.
  intros Hch. unfold schedule. case_bool_decide as Hsz; [done|]. rewrite resort_nodes_eq.
  set (node_acts := concat _).
  assert (Hnode : forall a, a ∈ node_acts -> exists id st, a = ChangeNodeStatus id st).
  { intros a (k' & n' & _ & Hr)%elem_of_review_actions. revert Hr. unfold review_action.
    destruct (nd_state n'); try done; intros [= <-]; eauto. }
  intros Hs. split. { intros E. rewrite E, map_size_empty in Hsz. done. }
  destruct (negb _ && _); [injection Hs as <- <-; naive_solver|].
  set (s1 := set_nodes _ s) in *.
  replace (is_spec_changed s1 last) with (is_spec_changed s last) in Hs by done.
  rewrite Hch in Hs. unfold calc_service_infos in Hs.
  destruct (fold_result _ _ _) as [[s2 acts2] [[]| |]] eqn:Hf; try done.
  injection Hs as <- <-.
  apply calc_loop in Hf as (infos & times & -> & _ & _ & _ & Horig); [|apply NoDup_keys].
  split; [done|]. split; [done|].
  intros a [Ha|Ha]%elem_of_app; [auto|].
  apply Horig in Ha as [|(id & i & _ & ->)]; [set_solver|eauto].
Qed.

Lemma schedule_unchanged_specs_witness :
  exists s' acts,
    schedule (H := canonical_order) Release (fun _ => 0) 1000 (Some demo_gone) demo_gone
      = (s', Ok acts) /\ ns_replica_instances s' = ns_replica_instances demo_gone.
Proof.
  destruct (schedule (H := canonical_order) Release (fun _ => 0) 1000 (Some demo_gone) demo_gone)
    as [s' [acts| |]] eqn:E; [|vm_compute in E; discriminate..].
  exists s', acts. split; [reflexivity|].
  eapply (schedule_unchanged_specs (H := canonical_order) Release (fun _ => 0) 1000 (Some demo_gone));
    [vm_compute; reflexivity|exact E].
Defined.

(** The id given to an instance parses back to its app, owner and node, for
    both spec id formats ([app@owner] and a bare service name, owned by
    [root]), as long as the parts hold no ['@']. *)
Theorem instance_id_roundtrip (sp : ServiceSpec) (app owner node : string) :
  contains_char "@" app = false -> contains_char "@" owner = false ->
  contains_char "@" node = false ->
  (sp_id sp = app +:+ "@" +:+ owner ->
   parse_instance_id (create_replica_instance_id sp node) = Ok (app, owner, node) /\
   parse_spec_id (sp_id sp) = Ok (app, owner)) /\
  (sp_id sp = app ->
   parse_instance_id (create_replica_instance_id sp node) = Ok (app, "root", node) /\
   parse_spec_id (sp_id sp) = Ok (app, "root")).
Proof.
  intros Ha Ho Hn. unfold parse_instance_id, parse_spec_id, create_replica_instance_id.
  split; intros ->.
  - change ("@" +:+ node) with (String "@" node). change ("@" +:+ owner) with (String "@" owner).
    rewrite string_app_assoc, append_cons.
    by rewrite !split_on_app, !split_on_no_sep by done.
  - change ("@" +:+ node) with (String "@" node).
    by rewrite split_on_app, !split_on_no_sep by done.
Qed.

Lemma instance_id_roundtrip_witness :
  parse_instance_id (create_replica_instance_id (demo_spec "files@alice" SpecNew 1 1) "ood1")
    = Ok ("files", "alice", "ood1").
Proof.
  apply (instance_id_roundtrip (demo_spec "files@alice" SpecNew 1 1) "files" "alice" "ood1");
    reflexivity.
Defined.

(** Port allocation for [www]: every app index up to [MAX_APP_INDEX] gets,
    in either build, a port of its own inside u16, at least 16 away from any
    other app's; index 3471 is the first to overflow, which panics with
    overflow checks and without them wraps to port 0. *)
Theorem www_port_bounds (b : build) (i j : Z) (e e' : option Z) :
  1 <= i <= MAX_APP_INDEX -> 1 <= j <= MAX_APP_INDEX ->
  alloc_replica_instance_port b i "www" e = Ok (10000 + 16 * i) /\
  BASE_APP_PORT < 10000 + 16 * i <= 42768 /\
  (i <> j -> exists p q, alloc_replica_instance_port b i "www" e = Ok p /\
     alloc_replica_instance_port b j "www" e' = Ok q /\ 16 <= Z.abs (p - q)) /\
  alloc_replica_instance_port Debug 3471 "www" e = Panic /\
  alloc_replica_instance_port Release 3471 "www" e = Ok 0.
Proof.
  unfold MAX_APP_INDEX, BASE_APP_PORT. intros Hi Hj.
  assert (Hp : forall i e, 1 <= i <= 2048 ->
            alloc_replica_instance_port b i "www" e = Ok (10000 + 16 * i)).
  { intros k e0 Hk. unfold alloc_replica_instance_port, unsigned_op, u16_max, BASE_APP_PORT. simpl.
    rewrite (proj2 (Z.eqb_neq _ _)) by lia. unfold mbind, result_bind.
    rewrite !(proj2 (Z.leb_le _ _)) by lia. simpl.
    rewrite !(proj2 (Z.leb_le _ _)) by lia. simpl. f_equal. lia. }
  split; [auto|]. split; [lia|]. split; [|by split].
  intros Hne. exists (10000 + 16 * i), (10000 + 16 * j). split_and!; [auto..|lia].
Qed.

Lemma www_port_bounds_witness :
  alloc_replica_instance_port Release 2048 "www" None = Ok 42768.
Proof.
  destruct (www_port_bounds Release 2048 1 None None) as [E _];
    [unfold MAX_APP_INDEX; lia..|]. exact E.
Defined.
