(* ===== verification/SysConfigStore.v ===== *)
(** The system configuration store
    ([kernel/sys_config_service/src/sled_provider.rs]): a key-value map with a
    revision counter beside each key, written in atomic transactions, with
    compare-and-swap on the revision of a main key.

    A sled tree is a map from keys to values, and a [db.transaction] runs to
    its end or leaves the tree as it was; storage (I/O) failures are not
    modelled.  Parsing, printing and updating JSON are parameters. *)
From Stdlib Require Import ZArith Lia Ascii.
From stdpp Require Import base tactics numbers gmap strings sorting list.
From S2P Require Import Prelude RustString.

Inductive KVStoreErrors :=
| KeyNotFound (key : string)
| KeyExist (key : string)
| RevisionMismatch (key : string) (expected actual : Z)
| InternalError (msg : string).

(** [Result<T, KVStoreErrors>]; [list_direct_children] may panic as well. *)
Definition kv_result (A : Type) : Type := KVStoreErrors + A.

#[export] Instance kv_ret : MRet kv_result := fun _ a => inr a.
#[export] Instance kv_bind : MBind kv_result :=
  fun _ _ f r => match r with inl e => inl e | inr a => f a end.

(** [KVAction] of the transaction: per key, what to do with it. *)
Inductive KVAction (Value : Type) :=
| KVCreate (v : string)
| KVUpdate (v : string)
| KVAppend (v : string)
| KVSetByJsonPath (paths : gmap string (option Value))
| KVRemove.
Arguments KVCreate {Value} _.
Arguments KVUpdate {Value} _.
Arguments KVAppend {Value} _.
Arguments KVSetByJsonPath {Value} _.
Arguments KVRemove {Value}.

Notation sled := (gmap string string).

Definition INTERNAL_META_PREFIX : string := "__meta/".
Definition REVISION_PREFIX : string := "__meta/revision/".

Definition revision_key (key : string) : string := REVISION_PREFIX +:+ key.
Definition is_internal_key (key : string) : bool := starts_with INTERNAL_META_PREFIX key.

Definition current_revision (db : sled) (key : string) : kv_result Z :=
  match db !! revision_key key with
  | None => inr 0
  | Some raw => match parse_u64 raw with
                | inl m => inl (InternalError m)
                | inr r => inr r
                end
  end.

Definition checked_next (key : string) (r : Z) : kv_result Z :=
  if r <? u64_max then inr (r + 1)
  else inl (InternalError ("revision overflow for key: " +:+ key)).

Definition next_revision (db : sled) (key : string) : kv_result Z :=
  r ← current_revision db key; checked_next key r.

Definition write_revision (db : sled) (key : string) (revision : Z) : sled :=
  <[revision_key key := u64_to_string revision]> db.

(** [db.transaction(body)]: an abort leaves the tree as it was. *)
Definition transaction {A} (db : sled) (r : kv_result (sled * A)) : sled * kv_result A :=
  match r with
  | inr (db', a) => (db', inr a)
  | inl e => (db, inl e)
  end.

Definition get_with_revision (db : sled) (key : string) : kv_result (option (string * Z)) :=
  match db !! key with
  | None => inr None
  | Some value => r ← current_revision db key; mret (Some (value, r))
  end.

Definition get (db : sled) (key : string) : kv_result (option string) :=
  o ← get_with_revision db key; mret (fst <$> o).

Definition set (db : sled) (key value : string) : sled * kv_result unit :=
  transaction db (r ← next_revision db key;
                  mret (write_revision (<[key := value]> db) key r, ())).

Definition create (db : sled) (key value : string) : sled * kv_result unit :=
  transaction db
    (match db !! key with
     | Some _ => inl (KeyExist key)
     | None => r ← next_revision db key;
               mret (write_revision (<[key := value]> db) key r, ())
     end).

Definition delete_key (db : sled) (key : string) : sled * kv_result unit :=
  transaction db
    (match db !! key with
     | None => inl (KeyNotFound key)
     | Some _ => r ← next_revision db key;
                 mret (write_revision (delete key db) key r, ())
     end).

(** [scan_prefix]: the entries under a prefix, in key order. *)
Definition scan_prefix (db : sled) (prefix : string) : list (string * string) :=
  sort_stable (fun x y => string_leb x.1 y.1)
    (List.filter (fun kv => starts_with prefix kv.1) (map_to_list db)).

Definition list_data (db : sled) (key_prefix : string) : gmap string string :=
  fold_left (fun m kv => if is_internal_key kv.1 then m else <[kv.1 := kv.2]> m)
    (scan_prefix db key_prefix) ∅.

Definition list_keys (db : sled) (key_prefix : string) : list string :=
  List.filter (fun k => negb (is_internal_key k)) ((scan_prefix db key_prefix).*1).

(** [s.ends_with("/")] *)
Fixpoint ends_with_slash (s : string) : bool :=
  match s with
  | EmptyString => false
  | String c EmptyString => Ascii.eqb c "/"
  | String _ s => ends_with_slash s
  end.

Fixpoint drop_chars (n : nat) (s : string) : string :=
  match n, s with
  | S n, String _ s => drop_chars n s
  | _, s => s
  end.

(** [s.trim_start_matches(p)]: [p] is removed as many times as it repeats. *)
Fixpoint trim_start_matches_go (fuel : nat) (p s : string) : string :=
  match fuel with
  | O => s
  | S fuel =>
    if starts_with p s then trim_start_matches_go fuel p (drop_chars (String.length p) s) else s
  end.

Definition trim_start_matches (p s : string) : string :=
  match p with
  | EmptyString => s
  | _ => trim_start_matches_go (String.length s) p s
  end.

(** [&s[1..]] panics when byte 1 is inside a character. *)
Definition slice_from_1 (s : string) : result string :=
  match s with
  | EmptyString => Panic
  | String _ EmptyString => Ok ""
  | String _ (String c t) =>
    let n := Z.of_N (N_of_ascii c) in
    if (128 <=? n) && (n <=? 191) then Panic else Ok (String c t)
  end.

Definition direct_child (prefix key : string) : result string :=
  let suffix := trim_start_matches prefix key in
  rest ← (if ends_with_slash suffix then slice_from_1 suffix else Ok suffix);
  match split_on "/" rest with
  | child :: _ => Ok child
  | [] => Panic
  end.

Fixpoint collect_children (prefix : string) (keys acc : list string) : result (list string) :=
  match keys with
  | [] => Ok acc
  | key :: keys =>
    if is_internal_key key then collect_children prefix keys acc
    else
      child ← direct_child prefix key;
      collect_children prefix keys
        (if bool_decide (child ∈ acc) then acc else acc ++ [child])
  end.

Definition list_direct_children (db : sled) (prefix : string) : result (list string) :=
  let prefix := if String.eqb prefix "" || ends_with_slash prefix then prefix
                else prefix +:+ "/" in
  collect_children prefix ((scan_prefix db prefix).*1) [].

(** ** Transactions *)

Section json.
Context {Value : Type} (from_slice : string -> string + Value) (to_vec : Value -> string + string)
  (set_json_by_path : Value -> string -> option Value -> Value).
Context `{HashOrder}.

Definition set_by_path (db : sled) (key json_path : string) (value : Value)
  : sled * kv_result unit :=
  transaction db
    (match db !! key with
     | None => inl (KeyNotFound key)
     | Some raw =>
       match from_slice raw with
       | inl m => inl (InternalError m)
       | inr current =>
         match to_vec (set_json_by_path current json_path (Some value)) with
         | inl m => inl (InternalError m)
         | inr updated =>
           r ← next_revision db key;
           mret (write_revision (<[key := updated]> db) key r, ())
         end
       end
     end).

(** A batch: per key, the value to insert or a removal. *)
Notation batch := (gmap string (option string)).

Definition apply_batch (b : batch) (db : sled) : sled :=
  merge (fun new old => match new with Some o => o | None => old end) b db.

(** What the action puts in the batch for its key; it reads the tree as it was
    before the transaction. *)
Definition action_effect (db : sled) (key : string) (action : KVAction Value)
  : kv_result (option string) :=
  match action with
  | KVCreate value =>
    match db !! key with Some _ => inl (KeyExist key) | None => inr (Some value) end
  | KVUpdate value => inr (Some value)
  | KVAppend value =>
    match db !! key with
    | None => inl (KeyNotFound key)
    | Some existing => inr (Some (existing +:+ value))
    end
  | KVSetByJsonPath paths =>
    match db !! key with
    | None => inl (KeyNotFound key)
    | Some raw =>
      match from_slice raw with
      | inl m => inl (InternalError m)
      | inr existing =>
        match to_vec (fold_left (fun v p => set_json_by_path v p.1 p.2) (iter paths) existing) with
        | inl m => inl (InternalError m)
        | inr updated => inr (Some updated)
        end
      end
    end
  | KVRemove => inr None
  end.

Fixpoint exec_actions (db : sled) (l : list (string * KVAction Value)) (b : batch)
    (revisions : gmap string Z) : kv_result (batch * gmap string Z) :=
  match l with
  | [] => inr (b, revisions)
  | (key, action) :: l =>
    e ← action_effect db key action;
    revisions ← (match revisions !! key with
                 | Some _ => mret revisions
                 | None => r ← next_revision db key; mret (<[key := r]> revisions)
                 end);
    exec_actions db l (<[key := e]> b) revisions
  end.

(** The revision check of the main key, and the revision it will get. *)
Definition check_main_key (db : sled) (main_key : option (string * Z))
  : kv_result (gmap string Z) :=
  match main_key with
  | None => inr ∅
  | Some (key, expected) =>
    actual ← current_revision db key;
    if actual =? expected then
      next ← checked_next key actual; mret {[key := next]}
    else inl (RevisionMismatch key expected actual)
  end.

Definition exec_tx (db : sled) (tx : gmap string (KVAction Value))
    (main_key : option (string * Z)) : sled * kv_result unit :=
  transaction db
    (revisions ← check_main_key db main_key;
     br ← exec_actions db (iter tx) ∅ revisions;
     let b := fold_left (fun b kr => <[revision_key kr.1 := Some (u64_to_string kr.2)]> b)
                (iter br.2) br.1 in
     mret (apply_batch b db, ())).
End json.
