(* ===== verification/SysConfigFacts.v ===== *)
(** What the configuration store promises: it implements a map with one
    monotone revision counter per key, its transactions are atomic, and a
    compare-and-swap that succeeds excludes every other write in between. *)
From Stdlib Require Import ZArith Lia Ascii.
From stdpp Require Import base tactics numbers gmap strings sorting list relations.
From S2P Require Import Prelude RustString SysConfigStore.

(** ** The abstract store *)

(** A key of the users of the store, as opposed to the revision entries. *)
Definition user_key (k : string) : Prop := is_internal_key k = false.

#[export] Instance user_key_dec k : Decision (user_key k).
Proof. unfold user_key. apply _. Defined.

(** What a client sees of a key: its value, and its revision. *)
Definition value_of (db : sled) (k : string) : option string :=
  if decide (user_key k) then db !! k else None.

Definition revision_of (db : sled) (k : string) : Z :=
  match current_revision db k with inr r => r | inl _ => 0 end.

(** Every revision entry is the decimal form of a u64. *)
Definition wf_store (db : sled) : Prop :=
  forall k raw, db !! revision_key k = Some raw ->
    exists r, 0 <= r <= u64_max /\ raw = u64_to_string r.

(** [db'] is [db] after a write of [v] to [k] (a removal if [v] is [None]):
    the value is there, the revision is one more, other keys are as before. *)
Record wrote (db db' : sled) (k : string) (v : option string) : Prop := {
  wrote_value : value_of db' k = v;
  wrote_revision : revision_of db' k = revision_of db k + 1;
  wrote_other : forall k', user_key k' -> k' <> k ->
    value_of db' k' = value_of db k' /\ revision_of db' k' = revision_of db k'
}.

(** A call that does not fail. *)
Definition succeeds {E A} (r : E + A) : Prop := exists a, r = inr a.

(** ** Keys *)

Lemma string_app_inj_l p s t : p +:+ s = p +:+ t -> s = t.
Proof. induction p as [|c p IH]; [done|]. rewrite !append_cons. intros [= E]. auto. Qed.

Lemma revision_key_inj k k' : revision_key k = revision_key k' -> k = k'.
Proof. apply string_app_inj_l. Qed.

Lemma revision_key_internal k : is_internal_key (revision_key k) = true.
Proof. apply starts_with_spec. exists ("revision/" +:+ k). by rewrite <- string_app_assoc. Qed.

Lemma user_key_not_revision k k' : user_key k -> k <> revision_key k'.
Proof. unfold user_key. intros Hk ->. by rewrite revision_key_internal in Hk. Qed.

#[local] Hint Resolve user_key_not_revision : core.

Lemma value_of_user db k : user_key k -> value_of db k = db !! k.
Proof. unfold value_of. by case_decide. Qed.

Lemma current_revision_wf db k :
  wf_store db -> current_revision db k = inr (revision_of db k) /\ 0 <= revision_of db k <= u64_max.
Proof.
  intros Hwf. unfold revision_of, current_revision.
  destruct (db !! revision_key k) as [raw|] eqn:E; [|by split; [|unfold u64_max]].
  destruct (Hwf k raw E) as (r & Hr & ->). by rewrite parse_u64_to_string.
Qed.

Lemma revision_of_entry db k r :
  0 <= r <= u64_max -> db !! revision_key k = Some (u64_to_string r) -> revision_of db k = r.
Proof. intros Hr E. unfold revision_of, current_revision. by rewrite E, parse_u64_to_string. Qed.

Lemma revision_of_same db db' k :
  db' !! revision_key k = db !! revision_key k -> revision_of db' k = revision_of db k.
Proof. unfold revision_of, current_revision. by intros ->. Qed.

Lemma next_revision_wf db k :
  wf_store db ->
  next_revision db k =
  if revision_of db k <? u64_max then inr (revision_of db k + 1)
  else inl (InternalError ("revision overflow for key: " +:+ k)).
Proof. intros Hwf. unfold next_revision. by destruct (current_revision_wf db k Hwf) as [-> _]. Qed.

(** ** Single writes *)

(** A write of the value and the next revision of a user key. *)
Lemma wrote_entry db db' k v :
  wf_store db -> user_key k -> revision_of db k < u64_max ->
  db' !! k = v -> (forall k', user_key k' -> k' <> k -> db' !! k' = db !! k') ->
  (forall k', db' !! revision_key k' = if decide (k' = k) then Some (u64_to_string (revision_of db k + 1))
                                       else db !! revision_key k') ->
  wf_store db' /\ wrote db db' k v.
Proof.
  intros Hwf Hk Hr Hv Ho Hrev. destruct (current_revision_wf db k Hwf) as [_ Hr'].
  split; [|split].
  - intros k' raw. rewrite Hrev. case_decide; [|apply Hwf].
    intros [= <-]. exists (revision_of db k + 1). split; [lia|done].
  - by rewrite value_of_user.
  - apply revision_of_entry; [lia|]. by rewrite Hrev, decide_True.
  - intros k' Hk' Hne. split.
    + rewrite !value_of_user by done. auto.
    + apply revision_of_same. by rewrite Hrev, decide_False.
Qed.

Lemma write_insert db k v :
  wf_store db -> user_key k -> revision_of db k < u64_max ->
  let db' := write_revision (<[k := v]> db) k (revision_of db k + 1) in
  wf_store db' /\ wrote db db' k (Some v).
Proof.
  intros Hwf Hk Hr. apply wrote_entry; try done; unfold write_revision.
  - rewrite lookup_insert_ne by (intros E; by apply (user_key_not_revision k k)).
    apply lookup_insert_eq.
  - intros k' Hk' Hne. rewrite !lookup_insert_ne; [done|congruence|].
    intros E. by apply (user_key_not_revision k' k).
  - intros k'. rewrite lookup_insert. case_decide as E.
    + apply revision_key_inj in E as ->. by rewrite decide_True.
    + rewrite decide_False by congruence. rewrite lookup_insert_ne; [done|]. by auto.
Qed.

Lemma write_delete db k :
  wf_store db -> user_key k -> revision_of db k < u64_max ->
  let db' := write_revision (delete k db) k (revision_of db k + 1) in
  wf_store db' /\ wrote db db' k None.
Proof.
  intros Hwf Hk Hr. apply wrote_entry; try done; unfold write_revision.
  - rewrite lookup_insert_ne by (intros E; by apply (user_key_not_revision k k)).
    apply lookup_delete_eq.
  - intros k' Hk' Hne. rewrite lookup_insert_ne, lookup_delete_ne; [done|congruence|].
    intros E. by apply (user_key_not_revision k' k).
  - intros k'. rewrite lookup_insert. case_decide as E.
    + apply revision_key_inj in E as ->. by rewrite decide_True.
    + rewrite decide_False by congruence. rewrite lookup_delete_ne; [done|]. by auto.
Qed.

(** ** Transactions *)

Section tx.
Context {Value : Type} (from_slice : string -> string + Value) (to_vec : Value -> string + string)
  (set_json_by_path : Value -> string -> option Value -> Value).
Context `{HashOrder}.
Implicit Types (db : sled) (l : list (string * KVAction Value)) (tx : gmap string (KVAction Value)).

Local Abbreviation effect := (action_effect from_slice to_vec set_json_by_path).
Local Abbreviation actions := (exec_actions from_slice to_vec set_json_by_path).
Local Abbreviation execute := (exec_tx from_slice to_vec set_json_by_path).

(** The revision a key of the loop ends up with. *)
Definition bumped db (l : list string) (revs : gmap string Z) (k : string) : option Z :=
  match revs !! k with
  | Some r => Some r
  | None => if decide (k ∈ l) then Some (revision_of db k + 1) else None
  end.

(** What the loop over the actions of a transaction has built at its end. *)
Lemma exec_actions_ok db l b revs b' revs' :
  wf_store db -> NoDup l.*1 -> actions db l b revs = inr (b', revs') ->
  (forall k a, (k, a) ∈ l -> exists e, effect db k a = inr e /\ b' !! k = Some e) /\
  (forall k, k ∉ l.*1 -> b' !! k = b !! k) /\
  (forall k, revs' !! k = bumped db l.*1 revs k) /\
  (forall k, k ∈ l.*1 -> revs !! k = None -> revision_of db k < u64_max).
Proof using Type.
  intros Hwf. revert b revs. induction l as [|[k a] l IH]; intros b revs Hnd; csimpl.
  - intros [= <- <-]. split_and!; try set_solver. intros k. unfold bumped.
    destruct (revs !! k); [done|]. by rewrite decide_False by set_solver.
  - inversion_clear Hnd as [|? ? Hk Hl]. destruct (effect db k a) as [m|e] eqn:Ee; [done|]. simpl.
    set (R := match revs !! k with Some _ => _ | None => _ end).
    assert (HR : R = match revs !! k with
                     | Some _ => inr revs
                     | None => if revision_of db k <? u64_max
                               then inr (<[k := revision_of db k + 1]> revs)
                               else inl (InternalError ("revision overflow for key: " +:+ k))
                     end).
    { unfold R. destruct (revs !! k); [done|]. rewrite next_revision_wf by done.
      by case_match. }
    clearbody R. subst R. intros Hrun.
    assert (Hlt : revs !! k = None -> revision_of db k < u64_max).
    { intros E. rewrite E in Hrun. destruct (Z.ltb_spec (revision_of db k) u64_max); [done|].
      by simpl in Hrun. }
    set (revs1 := if decide (revs !! k = None) then <[k := revision_of db k + 1]> revs else revs).
    assert (Hrun' : actions db l (<[k := e]> b) revs1 = inr (b', revs')).
    { rewrite <- Hrun. unfold revs1. case_decide as E.
      - rewrite E. by destruct (Z.ltb_spec (revision_of db k) u64_max); [|specialize (Hlt E); lia].
      - by destruct (revs !! k). }
    destruct (IH _ _ Hl Hrun') as (H1 & H2 & H3 & H4).
    split_and!.
    + intros k' a' [[= -> ->]|Hin]%elem_of_cons; [|by apply H1].
      exists e. rewrite H2 by done. by rewrite lookup_insert_eq.
    + intros k' Hk'. rewrite H2 by set_solver. rewrite lookup_insert_ne; set_solver.
    + intros k'. rewrite H3. unfold bumped, revs1.
      destruct (decide (k = k')) as [->|Hne].
      * case_decide as E; [rewrite lookup_insert_eq, E, decide_True by set_solver; done|].
        by destruct (revs !! k').
      * assert (Hs : (if decide (revs !! k = None) then <[k:=revision_of db k + 1]> revs else revs) !! k'
                   = revs !! k') by (case_decide; [by rewrite lookup_insert_ne|done]).
        rewrite Hs. destruct (revs !! k'); [done|].
        destruct (decide (k' ∈ l.*1)); [by rewrite decide_True by set_solver|].
        by rewrite decide_False by set_solver.
    + intros k' [->|Hin]%elem_of_cons E; [by apply Hlt|].
      destruct (decide (k' = k)) as [->|Hne]; [by apply Hlt|]. apply H4; [done|].
      unfold revs1. case_decide; [by rewrite lookup_insert_ne by congruence|done].
Qed.

(** ... and when it gets there. *)
Lemma exec_actions_succeeds db l b revs :
  wf_store db ->
  (forall k a, (k, a) ∈ l -> succeeds (effect db k a)) ->
  (forall k, k ∈ l.*1 -> revs !! k = None -> revision_of db k < u64_max) ->
  succeeds (actions db l b revs).
Proof using Type.
  intros Hwf. revert b revs. induction l as [|[k a] l IH]; intros b revs He Hr; csimpl; [by eexists|].
  destruct (He k a) as [e ->]; [set_solver|]. simpl.
  destruct (revs !! k) eqn:E; simpl.
  - apply IH; [set_solver|]. intros k' Hk'. apply Hr. set_solver.
  - rewrite next_revision_wf by done. destruct (Z.ltb_spec (revision_of db k) u64_max) as [_|Hge].
    + simpl. apply IH; [set_solver|]. intros k' Hk' E'.
      apply Hr; [set_solver|]. by apply lookup_insert_None in E' as [].
    + assert (k ∈ ((k, a) :: l).*1) as Hin by set_solver. specialize (Hr k Hin E). lia.
Qed.

Lemma revisions_batch_revision (revs : gmap string Z) (b : gmap string (option string)) k :
  fold_left (fun b kr => <[revision_key kr.1 := Some (u64_to_string kr.2)]> b) (iter revs) b
    !! revision_key k =
  match revs !! k with
  | Some r => Some (Some (u64_to_string r))
  | None => b !! revision_key k
  end.
Proof using Type.
  assert (Hgo : forall (l : list (string * Z)) (b : gmap string (option string)), NoDup l.*1 ->
    fold_left (fun b kr => <[revision_key kr.1 := Some (u64_to_string kr.2)]> b) l b !! revision_key k =
    match (list_to_map l : gmap string Z) !! k with
    | Some r => Some (Some (u64_to_string r))
    | None => b !! revision_key k
    end).
  { clear. induction l as [|[k' r] l IH]; intros b Hnd; csimpl; [done|].
    inversion_clear Hnd as [|? ? Hk' Hl]. rewrite IH by done.
    destruct (decide (k' = k)) as [->|Hne].
    - rewrite lookup_insert_eq. rewrite not_elem_of_list_to_map_1 by done. by rewrite lookup_insert_eq.
    - rewrite (lookup_insert_ne _ k' k) by done. destruct (_ !! k); [done|].
      rewrite lookup_insert_ne; [done|]. by intros ?%revision_key_inj. }
  rewrite Hgo by (apply NoDup_keys).
  assert (E : (list_to_map (iter revs) : gmap string Z) = revs).
  { rewrite <- (list_to_map_to_list revs) at 2.
    apply list_to_map_proper; [apply (NoDup_keys revs)|auto with maps]. }
  by rewrite E.
Qed.

Lemma revisions_batch_user (revs : gmap string Z) (b : gmap string (option string)) k :
  user_key k ->
  fold_left (fun b kr => <[revision_key kr.1 := Some (u64_to_string kr.2)]> b) (iter revs) b !! k =
  b !! k.
Proof using Type.
  intros Hk. generalize (iter revs). intros l. revert b.
  induction l as [|[k' r] l IH]; intros b; csimpl; [done|].
  rewrite IH. rewrite lookup_insert_ne; [done|]. intros E. by apply (user_key_not_revision k k').
Qed.

Lemma lookup_apply_batch (b : gmap string (option string)) db k :
  apply_batch b db !! k = match b !! k with Some o => o | None => db !! k end.
Proof using Type. unfold apply_batch. rewrite lookup_merge. by destruct (b !! k), (db !! k). Qed.

(** The key whose revision the transaction checks. *)
Definition main_name (main_key : option (string * Z)) : option string := fst <$> main_key.

Definition user_tx tx (main_key : option (string * Z)) : Prop :=
  (forall k a, tx !! k = Some a -> user_key k) /\ (forall k, main_name main_key = Some k -> user_key k).

(** [main_key] names no key, or one at the expected revision. *)
Definition main_matches db (main_key : option (string * Z)) : Prop :=
  match main_key with
  | None => True
  | Some (k, expected) => revision_of db k = expected /\ revision_of db k < u64_max
  end.

(** The state of every key after a transaction that was applied. *)
Definition tx_applied db db' tx main_key : Prop :=
  main_matches db main_key /\
  forall k, user_key k ->
  match tx !! k with
  | Some a => revision_of db' k = revision_of db k + 1 /\
              exists v, effect db k a = inr v /\ value_of db' k = v
  | None => value_of db' k = value_of db k /\
            revision_of db' k =
            revision_of db k + (if decide (main_name main_key = Some k) then 1 else 0)
  end.

Lemma check_main_key_ok db main_key revs :
  wf_store db -> check_main_key db main_key = inr revs ->
  main_matches db main_key /\
  revs = match main_key with None => ∅ | Some (k, _) => {[k := revision_of db k + 1]} end.
Proof using Type.
  intros Hwf. destruct main_key as [[k r]|]; simpl; [|by intros [= <-]].
  destruct (current_revision_wf db k Hwf) as [-> _]. simpl.
  destruct (Z.eqb_spec (revision_of db k) r) as [<-|]; [|done].
  unfold checked_next. destruct (Z.ltb_spec (revision_of db k) u64_max); [|done].
  by intros [= <-].
Qed.

Lemma check_main_key_succeeds db main_key :
  wf_store db -> main_matches db main_key -> succeeds (check_main_key db main_key).
Proof using Type.
  intros Hwf. destruct main_key as [[k r]|]; simpl; [|by eexists].
  destruct (current_revision_wf db k Hwf) as [-> _]. simpl. intros [-> ?].
  rewrite Z.eqb_refl. unfold checked_next. destruct (Z.ltb_spec r u64_max); [|lia].
  by eexists.
Qed.

Lemma elem_of_tx tx k a : (k, a) ∈ iter tx <-> tx !! k = Some a.
Proof using Type. apply elem_of_iter. Qed.

(** A transaction that was applied. *)
Lemma exec_tx_applied_aux db db' tx main_key :
  wf_store db -> user_tx tx main_key -> execute db tx main_key = (db', inr tt) ->
  wf_store db' /\ tx_applied db db' tx main_key /\
  forall k a, tx !! k = Some a -> revision_of db k < u64_max.
Proof using Type.
  intros Hwf [Htx Hmk]. unfold exec_tx.
  destruct (check_main_key db main_key) as [|revs0] eqn:E0; [done|]. simpl.
  destruct (actions db (iter tx) ∅ revs0) as [|[b revs]] eqn:E1; [done|]. intros [= <-].
  destruct (check_main_key_ok _ _ _ Hwf E0) as [Hmain Hrevs0].
  destruct (exec_actions_ok _ _ _ _ _ _ Hwf (NoDup_keys tx) E1) as (H1 & H2 & H3 & H4).
  assert (Hin : forall k, k ∈ (iter tx).*1 <-> is_Some (tx !! k)) by apply elem_of_keys.
  set (b' := fold_left _ _ _).
  assert (Hrev : forall k, apply_batch b' db !! revision_key k =
    match bumped db (iter tx).*1 revs0 k with
    | Some r => Some (u64_to_string r) | None => db !! revision_key k end).
  { intros k. rewrite lookup_apply_batch. unfold b'. rewrite revisions_batch_revision, H3.
    destruct (bumped _ _ _ _); [done|]. rewrite H2; [done|]. rewrite Hin. intros [a Ha].
    apply (user_key_not_revision (revision_key k) k); eauto. }
  assert (Hval : forall k, user_key k -> apply_batch b' db !! k =
    match b !! k with Some o => o | None => db !! k end).
  { intros k Hk. rewrite lookup_apply_batch. unfold b'. by rewrite revisions_batch_user. }
  assert (Hb : forall k r, bumped db (iter tx).*1 revs0 k = Some r ->
    r = revision_of db k + 1 /\ revision_of db k < u64_max).
  { intros k r. unfold bumped. destruct (revs0 !! k) as [r0|] eqn:E.
    - intros [= <-]. rewrite Hrevs0 in E. destruct main_key as [[k0 ?]|]; [|done].
      apply lookup_singleton_Some in E as [-> <-]. by destruct Hmain.
    - case_decide; [|done]. intros [= <-]. auto. }
  assert (Hr : forall k, revision_of (apply_batch b' db) k =
    match bumped db (iter tx).*1 revs0 k with
    | Some r => r | None => revision_of db k end).
  { intros k. specialize (Hrev k). destruct (bumped _ _ _ _) as [r|] eqn:E.
    - apply Hb in E as [-> ?]. destruct (current_revision_wf db k Hwf) as [_ ?].
      apply revision_of_entry; [lia|done].
    - by apply revision_of_same. }
  split_and!.
  - intros k raw. rewrite Hrev. destruct (bumped _ _ _ _) as [r|] eqn:E; [|apply Hwf].
    intros [= <-]. exists r. apply Hb in E as [-> ?].
    destruct (current_revision_wf db k Hwf) as [_ ?]. split; [lia|done].
  - split; [done|]. intros k Hk. rewrite Hr. rewrite !value_of_user, Hval by done.
    destruct (tx !! k) as [a|] eqn:Ea.
    + assert (Hka : (k, a) ∈ iter tx) by (by apply elem_of_tx).
      destruct (H1 k a Hka) as (e & He & Hbe). rewrite Hbe. split; [|by eexists].
      destruct (bumped db (iter tx).*1 revs0 k) eqn:E; [by apply Hb in E as []|].
      unfold bumped in E. destruct (revs0 !! k); [done|].
      rewrite decide_True in E; [done|]. apply Hin. by eexists.
    + rewrite H2 by (rewrite Hin; intros []; congruence). rewrite lookup_empty. split; [done|].
      unfold bumped. rewrite Hrevs0. destruct main_key as [[k0 ?]|]; simpl.
      * destruct (decide (Some k0 = Some k)) as [[= ->]|Hne].
        -- by rewrite lookup_singleton_eq.
        -- rewrite lookup_singleton_ne by congruence.
           rewrite decide_False by (rewrite Hin; intros []; congruence). lia.
      * rewrite lookup_empty.
        rewrite decide_False by (rewrite Hin; intros []; congruence). lia.
  - intros k a Ha. destruct (revs0 !! k) as [r0|] eqn:E.
    + apply (Hb k r0). unfold bumped. by rewrite E.
    + apply H4; [|done]. apply Hin. by eexists.
Qed.

(** ... and when it is. *)
Lemma exec_tx_succeeds_aux db tx main_key :
  wf_store db -> main_matches db main_key ->
  (forall k a, tx !! k = Some a -> succeeds (effect db k a) /\ revision_of db k < u64_max) ->
  (execute db tx main_key).2 = inr tt.
Proof using Type.
  intros Hwf Hmain Htx. unfold exec_tx.
  destruct (check_main_key_succeeds db main_key Hwf Hmain) as [revs0 ->]. simpl.
  destruct (exec_actions_succeeds db (iter tx) ∅ revs0 Hwf) as [[b revs] E].
  - intros k a Hka%elem_of_tx. by apply Htx in Hka as [].
  - intros k [a Ha]%elem_of_keys _. by apply Htx in Ha as [].
  - by rewrite E.
Qed.

Lemma exec_tx_fails db tx main_key e :
  (execute db tx main_key).2 = inl e -> (execute db tx main_key).1 = db.
Proof using Type.
  unfold exec_tx. by destruct (check_main_key db main_key); [|simpl; destruct (actions _ _ _ _)].
Qed.
End tx.
