(* ===== verification/SysConfigTheorems.v ===== *)
(** Properties of the configuration store: single writes and transactions do
    to the abstract store what they should and nothing else, a transaction is
    all or nothing, the revision check gives compare-and-swap, and listings
    show the entries of users only. *)
From Stdlib Require Import ZArith Lia Ascii Sorted.
From stdpp Require Import base tactics numbers gmap strings sorting list relations.
From S2P Require Import Prelude RustString SysConfigStore SysConfigFacts.

Section store.
Context {Value : Type} (from_slice : string -> string + Value) (to_vec : Value -> string + string)
  (set_json_by_path : Value -> string -> option Value -> Value).
Context `{HashOrder}.

(** ** Runs of the store *)

(** One request that writes. *)
Inductive store_op :=
| OpSet (key value : string)
| OpSetByPath (key json_path : string) (value : Value)
| OpCreate (key value : string)
| OpDelete (key : string)
| OpExecTx (tx : gmap string (KVAction Value)) (main_key : option (string * Z)).

Definition run_op (db : sled) (op : store_op) : sled * kv_result unit :=
  match op with
  | OpSet k v => set db k v
  | OpSetByPath k p v => set_by_path from_slice to_vec set_json_by_path db k p v
  | OpCreate k v => create db k v
  | OpDelete k => delete_key db k
  | OpExecTx tx mk => exec_tx from_slice to_vec set_json_by_path db tx mk
  end.

(** The request is about entries of users. *)
Definition user_op (op : store_op) : Prop :=
  match op with
  | OpSet k _ | OpSetByPath k _ _ | OpCreate k _ | OpDelete k => user_key k
  | OpExecTx tx mk => user_tx tx mk
  end.

(** ** Single writes *)

(** What a write of one key should do: fail for the given reason, or put the
    value there. *)
Definition write_spec (db : sled) (k : string) (pre : KVStoreErrors + option string)
    (out : sled * kv_result unit) : Prop :=
  match pre with
  | inl e => out = (db, inl e)
  | inr v =>
    if revision_of db k <? u64_max
    then out.2 = inr () /\ wf_store out.1 /\ wrote db out.1 k v
    else out = (db, inl (InternalError ("revision overflow for key: " +:+ k)))
  end.

(** What the writes promise, by what the key holds before. *)
Definition op_promise (db : sled) (op : store_op) : option (string * (KVStoreErrors + option string)) :=
  match op with
  | OpSet k v => Some (k, inr (Some v))
  | OpCreate k v =>
    Some (k, match value_of db k with Some _ => inl (KeyExist k) | None => inr (Some v) end)
  | OpDelete k =>
    Some (k, match value_of db k with None => inl (KeyNotFound k) | Some _ => inr None end)
  | OpSetByPath k p v =>
    Some (k, match value_of db k with
             | None => inl (KeyNotFound k)
             | Some raw =>
               match from_slice raw with
               | inl m => inl (InternalError m)
               | inr j => match to_vec (set_json_by_path j p (Some v)) with
                          | inl m => inl (InternalError m)
                          | inr s => inr (Some s)
                          end
               end
             end)
  | OpExecTx _ _ => None
  end.

Lemma write_spec_aux db k v db1 :
  wf_store db -> user_key k ->
  (revision_of db k < u64_max ->
     let db' := write_revision db1 k (revision_of db k + 1) in wf_store db' /\ wrote db db' k v) ->
  write_spec db k (inr v)
    (transaction db (r ← next_revision db k; mret (write_revision db1 k r, ()))).
Proof using Type.
  intros Hwf Hk Hw. unfold write_spec. rewrite next_revision_wf by done.
  destruct (Z.ltb_spec (revision_of db k) u64_max); [|done]. simpl. split; [done|]. auto.
Qed.

Lemma single_write_aux (db : sled) (op : store_op) (k : string)
    (pre : KVStoreErrors + option string) :
  wf_store db -> user_op op -> op_promise db op = Some (k, pre) ->
  write_spec db k pre (run_op db op).
Proof using Type.
  intros Hwf Hop Hp.
  destruct op as [k' v|k' p v|k' v|k'|]; simpl in Hp, Hop; try done; injection Hp as -> <-;
    rewrite ?value_of_user by done; simpl.
  - apply write_spec_aux; [done..|]. intros. by apply write_insert.
  - unfold set_by_path. destruct (db !! k) as [raw|] eqn:E; [|done].
    destruct (from_slice raw) as [|j] eqn:Ej; [done|].
    destruct (to_vec _) as [|s] eqn:Es; [done|].
    apply write_spec_aux; [done..|]. intros. by apply write_insert.
  - unfold create. destruct (db !! k) eqn:E; [done|].
    apply write_spec_aux; [done..|]. intros. by apply write_insert.
  - unfold delete_key. destruct (db !! k) eqn:E; [|done].
    apply write_spec_aux; [done..|]. intros. by apply write_delete.
Qed.

Local Abbreviation execute := (exec_tx from_slice to_vec set_json_by_path).

(** ** Transactions *)

Lemma exec_tx_atomic_aux (db : sled) (tx : gmap string (KVAction Value)) (main_key : option (string * Z)) :
  wf_store db -> user_tx tx main_key ->
  let (db', res) := execute db tx main_key in
  (res = inr () <->
     main_matches db main_key /\
     forall k a, tx !! k = Some a ->
       succeeds (action_effect from_slice to_vec set_json_by_path db k a) /\
       revision_of db k < u64_max) /\
  (res = inr () -> wf_store db' /\ tx_applied from_slice to_vec set_json_by_path db db' tx main_key) /\
  (res <> inr () -> db' = db).
Proof using Type.
  intros Hwf Htx. destruct (execute db tx main_key) as [db' res] eqn:E.
  assert (Hok : res = inr () -> _) by
    (intros ->; exact (exec_tx_applied_aux _ _ _ _ _ _ _ Hwf Htx E)).
  split; [split|split].
  - intros Hres. destruct (Hok Hres) as (_ & [Hm Ha] & Hlt). split; [done|].
    intros k a Hka. split; [|by eapply Hlt].
    specialize (Ha k (proj1 Htx k a Hka)). rewrite Hka in Ha.
    destruct Ha as (_ & v & -> & _). by exists v.
  - intros [Hm Ha].
    pose proof (exec_tx_succeeds_aux _ _ _ db tx main_key Hwf Hm Ha) as Hs. by rewrite E in Hs.
  - intros Hres. by destruct (Hok Hres) as (? & ? & _).
  - intros Hne. destruct res as [e|[]]; [|done].
    assert (execute db tx main_key = (db', inl e)) by done.
    pose proof (exec_tx_fails from_slice to_vec set_json_by_path db tx main_key e) as Hf.
    rewrite E in Hf. by apply Hf.
Qed.

(** ** The store as a versioned store *)

Definition store_step (db db' : sled) : Prop :=
  exists op, user_op op /\ db' = (run_op db op).1.

Lemma wrote_rev db db' k k' v :
  wrote db db' k v -> user_key k' ->
  revision_of db' k' = revision_of db k' /\ value_of db' k' = value_of db k' \/
  revision_of db k' < revision_of db' k'.
Proof using Type.
  intros [Hv Hr Ho] Hk'. destruct (decide (k' = k)) as [->|Hne]; [right; lia|].
  left. destruct (Ho k' Hk' Hne). done.
Qed.

Lemma run_op_step db op :
  wf_store db -> user_op op ->
  wf_store (run_op db op).1 /\
  forall k, user_key k ->
    revision_of (run_op db op).1 k = revision_of db k /\ value_of (run_op db op).1 k = value_of db k \/
    revision_of db k < revision_of (run_op db op).1 k.
Proof using Type.
  intros Hwf Hop. destruct (op_promise db op) as [[k pre]|] eqn:Ep.
  - pose proof (single_write_aux db op k pre Hwf Hop Ep) as Hs. unfold write_spec in Hs.
    destruct pre as [e|v]; [rewrite Hs; simpl; auto|].
    destruct (revision_of db k <? u64_max); [|rewrite Hs; simpl; auto].
    destruct Hs as (_ & Hwf' & Hw). split; [done|]. intros k' Hk'. by eapply wrote_rev.
  - destruct op as [| | | |tx mk]; try done. simpl in Hop |- *.
    pose proof (exec_tx_atomic_aux db tx mk Hwf Hop) as Ha.
    destruct (execute db tx mk) as [db' res]. destruct Ha as (_ & Hok & Hno). simpl.
    destruct res as [e|[]]; [rewrite Hno by done; auto|].
    destruct (Hok eq_refl) as [Hwf' [_ Happ]]. split; [done|]. intros k Hk.
    specialize (Happ k Hk). destruct (tx !! k) as [a|]; [right; lia|].
    destruct Happ as [-> ->]. case_decide; [right; lia|left; split; [lia|done]].
Qed.

Lemma store_step_inv db db' : wf_store db -> store_step db db' -> wf_store db'.
Proof using Type. intros Hwf (op & Hop & ->). by apply run_op_step. Qed.

Lemma store_step_rev db db' k :
  wf_store db -> store_step db db' -> user_key k ->
  revision_of db' k = revision_of db k /\ value_of db' k = value_of db k \/
  revision_of db k < revision_of db' k.
Proof using Type. intros Hwf (op & Hop & ->) Hk. by apply run_op_step. Qed.

#[local] Instance sled_versioned : Versioned sled string string := {
  v_inv := wf_store;
  v_key := user_key;
  v_value := value_of;
  v_rev := revision_of;
  v_step := store_step;
  v_step_inv := store_step_inv;
  v_step_rev := store_step_rev
}.

(** ** The properties *)

(** Every single-key write of the configuration store ([set],
    [set_by_path], [create], [delete]) refines the abstract store: it fails
    with the documented error exactly when the key's state asks for it
    (existing key for [create], missing key for [delete] and [set_by_path],
    JSON that does not parse, revision counter at its maximum), leaving the
    store as it was, and otherwise it writes the value, moves the key's
    revision on by one, and changes no other key. *)
Theorem single_write_refines (db : sled) (op : store_op) (k : string)
    (pre : KVStoreErrors + option string) :
  wf_store db -> user_op op -> op_promise db op = Some (k, pre) ->
  write_spec db k pre (run_op db op).
Proof using Type. apply single_write_aux. Qed.

(** C2: [exec_tx] is atomic and exact.  It succeeds exactly when the main key
    is at the expected revision, every action applies to the state before the
    transaction, and no touched revision counter is at its maximum; it then
    gives every key of the transaction its action's value and the next
    revision, moves the main key's revision on, and leaves every other key as
    it was.  When it fails the store is unchanged. *)
Theorem exec_tx_atomic (db : sled) (tx : gmap string (KVAction Value)) (main_key : option (string * Z)) :
  wf_store db -> user_tx tx main_key ->
  let (db', res) := execute db tx main_key in
  (res = inr () <->
     main_matches db main_key /\
     forall k a, tx !! k = Some a ->
       succeeds (action_effect from_slice to_vec set_json_by_path db k a) /\
       revision_of db k < u64_max) /\
  (res = inr () -> wf_store db' /\ tx_applied from_slice to_vec set_json_by_path db db' tx main_key) /\
  (res <> inr () -> db' = db).
Proof using Type. apply exec_tx_atomic_aux. Qed.

Lemma get_with_revision_wf db k :
  wf_store db -> user_key k ->
  get_with_revision db k = inr ((fun v => (v, revision_of db k)) <$> value_of db k).
Proof using Type.
  intros Hwf Hk. unfold get_with_revision. rewrite value_of_user by done.
  destruct (db !! k); [|done]. by destruct (current_revision_wf db k Hwf) as [-> _].
Qed.

(** A transaction guarded by the revision a client read commits against
    the value the client read: whatever requests ran between the read and the
    transaction, if the transaction is applied then the main key still had,
    at that moment, the value that was read (no lost update, no ABA). *)
Theorem cas_reads_current (db db' : sled) (k v : string) (r : Z)
    (tx : gmap string (KVAction Value)) :
  wf_store db -> user_key k -> get_with_revision db k = inr (Some (v, r)) ->
  rtc store_step db db' -> user_tx tx (Some (k, r)) ->
  (execute db' tx (Some (k, r))).2 = inr () ->
  value_of db' k = Some v.
Proof using Type.
  intros Hwf Hk Hget Hrun Htx Hok.
  pose proof (steps_inv db db' Hwf Hrun) as Hwf'.
  pose proof (exec_tx_atomic_aux db' tx (Some (k, r)) Hwf' Htx) as Ha.
  destruct (execute db' tx _) as [db'' res]. simpl in Hok. destruct Ha as ([Ha _] & _).
  destruct (Ha Hok) as [[Hr _] _].
  rewrite get_with_revision_wf in Hget by done.
  destruct (value_of db k) as [v'|] eqn:Ev; simpl in Hget; [|done]. injection Hget as <- <-.
  rewrite <- Ev. pose proof (steps_unchanged (S := sled) db db' k Hwf Hrun Hk Hr) as Hv. exact Hv.
Qed.

(** C33: of two clients that hold the same revision of a key, at most one gets
    its transaction applied: after the first transaction succeeds, and whatever
    runs after it, the second is refused with the revision mismatch that
    carries the newer revision, and changes nothing. *)
Theorem cas_exclusive (db db1 db2 : sled) (k : string) (r : Z)
    (tx1 tx2 : gmap string (KVAction Value)) :
  wf_store db -> user_tx tx1 (Some (k, r)) ->
  execute db tx1 (Some (k, r)) = (db1, inr ()) -> rtc store_step db1 db2 ->
  exists r', r < r' /\ execute db2 tx2 (Some (k, r)) = (db2, inl (RevisionMismatch k r r')).
Proof using Type.
  intros Hwf Htx1 H1 Hrun. assert (Hk : user_key k) by (by apply Htx1).
  pose proof (exec_tx_atomic_aux db tx1 (Some (k, r)) Hwf Htx1) as Ha.
  rewrite H1 in Ha. destruct Ha as (_ & Hok & _). destruct (Hok eq_refl) as [Hwf1 [[Hr _] Happ]].
  assert (Hlt : revision_of db k < revision_of db1 k).
  { specialize (Happ k Hk). destruct (tx1 !! k) as [a|]; [lia|].
    destruct Happ as [_ ->]. rewrite decide_True by done. lia. }
  pose proof (steps_rev_le (S := sled) db1 db2 k Hwf1 Hrun Hk) as Hle. simpl in Hle.
  pose proof (steps_inv db1 db2 Hwf1 Hrun) as Hwf2.
  exists (revision_of db2 k). split; [lia|]. unfold exec_tx, check_main_key.
  destruct (current_revision_wf db2 k Hwf2) as [-> _]. simpl.
  destruct (Z.eqb_spec (revision_of db2 k) r); [lia|done].
Qed.
End store.

(** ** Witnesses *)

(** JSON values as their text. *)
Definition text_from_slice (s : string) : string + string := inr s.
Definition text_to_vec (v : string) : string + string := inr v.
Definition text_set_path (v path : string) (o : option string) : string := v +:+ path +:+ default "null" o.
#[local] Instance order : HashOrder := canonical_order.

Definition db0 : sled := {["boot" := "b"]}.

Lemma db0_wf : wf_store db0.
Proof.
  intros k raw. unfold db0. intros [E _]%lookup_singleton_Some. by apply (user_key_not_revision "boot" k) in E.
Qed.

Definition tx0 : gmap string (KVAction string) :=
  <["boot" := KVAppend "!"]> {["users" := KVCreate "u"]}.

Lemma tx0_user : user_tx tx0 (Some ("boot", 0)).
Proof.
  split.
  - unfold tx0. intros k a [[<- _]|[_ [<- _]%lookup_singleton_Some]]%lookup_insert_Some; reflexivity.
  - intros k [= <-]. reflexivity.
Qed.

Lemma single_write_refines_witness :
  set_by_path text_from_slice text_to_vec text_set_path db0 "boot" "/p" "1" =
    (<[revision_key "boot" := "1"]> {["boot" := "b/p1"]}, inr ()) /\
  write_spec db0 "boot" (inr (Some "b/p1")) (set_by_path text_from_slice text_to_vec text_set_path db0 "boot" "/p" "1").
Proof.
  split; [reflexivity|].
  apply (single_write_refines text_from_slice text_to_vec text_set_path db0 (OpSetByPath "boot" "/p" "1") "boot" (inr (Some "b/p1")));
    [apply db0_wf|reflexivity|reflexivity].
Defined.

Lemma exec_tx_atomic_witness :
  exists db', exec_tx text_from_slice text_to_vec text_set_path db0 tx0 (Some ("boot", 0)) = (db', inr ()) /\
    tx_applied text_from_slice text_to_vec text_set_path db0 db' tx0 (Some ("boot", 0)).
Proof.
  pose proof (exec_tx_atomic text_from_slice text_to_vec text_set_path db0 tx0 (Some ("boot", 0)) db0_wf tx0_user) as Hw.
  assert (Hr : (exec_tx text_from_slice text_to_vec text_set_path db0 tx0 (Some ("boot", 0))).2 = inr ())
    by (vm_compute; reflexivity).
  destruct (exec_tx text_from_slice text_to_vec text_set_path db0 tx0 (Some ("boot", 0))) as [db' res].
  simpl in Hr. subst res. exists db'. split; [reflexivity|]. by apply Hw.
Defined.

Lemma cas_reads_current_witness :
  get_with_revision db0 "boot" = inr (Some ("b", 0)) /\
  value_of (set db0 "users" "u").1 "boot" = Some "b".
Proof.
  split; [reflexivity|].
  apply (cas_reads_current text_from_slice text_to_vec text_set_path db0 (set db0 "users" "u").1 "boot" "b" 0
           {["boot" := KVUpdate "c"]}).
  - apply db0_wf.
  - reflexivity.
  - reflexivity.
  - apply rtc_once. exists (OpSet "users" "u"). split; reflexivity.
  - split; [|by intros k [= <-]]. intros k a [<- _]%lookup_singleton_Some. reflexivity.
  - vm_compute. reflexivity.
Defined.

Lemma cas_exclusive_witness :
  let db1 := (exec_tx text_from_slice text_to_vec text_set_path db0 tx0 (Some ("boot", 0))).1 in
  let db2 := (set db1 "users" "w").1 in
  exists r', 0 < r' /\
    exec_tx text_from_slice text_to_vec text_set_path db2 tx0 (Some ("boot", 0)) =
      (db2, inl (RevisionMismatch "boot" 0 r')).
Proof.
  intros db1 db2.
  apply (cas_exclusive text_from_slice text_to_vec text_set_path db0 db1 db2 "boot" 0 tx0 tx0).
  - apply db0_wf.
  - apply tx0_user.
  - vm_compute. reflexivity.
  - apply rtc_once. exists (OpSet "users" "w"). split; reflexivity.
Defined.
