(* ===== verification/SysConfigListing.v ===== *)
(** The listings of the configuration store: what [list_data], [list_keys] and
    [list_direct_children] return, and that internal entries never show. *)
From Stdlib Require Import ZArith Lia Ascii Sorted.
From stdpp Require Import base tactics numbers gmap strings sorting list.
From S2P Require Import Prelude RustString SysConfigStore SysConfigFacts.

Definition key_leb (x y : string * string) : bool := string_leb x.1 y.1.

Lemma elem_of_scan db p k v :
  (k, v) ∈ scan_prefix db p <-> db !! k = Some v /\ starts_with p k = true.
Proof.
  unfold scan_prefix. autorewrite with maps. rewrite elem_of_map_to_list. naive_solver.
Qed.

Lemma NoDup_scan db p : NoDup ((scan_prefix db p).*1).
Proof.
  unfold scan_prefix. rewrite sort_stable_perm.
  eapply sublist_NoDup; [apply (NoDup_fst_map_to_list db)|apply fmap_sublist, filterb_sublist].
Qed.

Lemma scan_sorted db p : StronglySorted (fun k k' => string_leb k k' = true) ((scan_prefix db p).*1).
Proof.
  unfold scan_prefix. set (l := List.filter _ _).
  assert (Hs : StronglySorted (fun x y => key_leb x y = true) (sort_stable key_leb l)).
  { apply (sort_stable_sorted _ (fun _ => True)); [| |by apply Forall_true].
    - intros. apply string_leb_total.
    - intros x y z _ _ _. apply string_leb_trans. }
  unfold key_leb in Hs. induction Hs as [|x m Hm IH Hx]; csimpl; constructor; [done|].
  by rewrite Forall_fmap.
Qed.

Lemma elem_of_scan_keys db p k :
  k ∈ (scan_prefix db p).*1 <-> is_Some (db !! k) /\ starts_with p k = true.
Proof.
  rewrite list_elem_of_fmap. split.
  - intros ([k' v] & -> & Hin%elem_of_scan). naive_solver.
  - intros ([v Hv] & Hp). exists (k, v). by rewrite elem_of_scan.
Qed.

(** The keys a listing under [p] is about. *)
Definition listed (db : sled) (p k : string) : Prop :=
  user_key k /\ is_Some (db !! k) /\ starts_with p k = true.

Lemma list_data_fold l (m : gmap string string) k :
  NoDup l.*1 -> (forall k, k ∈ l.*1 -> m !! k = None) ->
  fold_left (fun m kv => if is_internal_key kv.1 then m else <[kv.1 := kv.2]> m) l m !! k =
  if is_internal_key k then m !! k
  else match (list_to_map l : gmap string string) !! k with Some v => Some v | None => m !! k end.
Proof.
  revert m. induction l as [|[k' v] l IH]; intros m Hnd Hm; csimpl; [by case_match|].
  inversion_clear Hnd as [|? ? Hk' Hl]. rewrite IH; [|done|].
  - destruct (decide (k' = k)) as [->|Hne].
    + rewrite not_elem_of_list_to_map_1 by done.
      destruct (is_internal_key k); [done|]. by rewrite !lookup_insert_eq.
    + rewrite (lookup_insert_ne _ k' k) by done.
      destruct (is_internal_key k'); [done|]. by rewrite lookup_insert_ne.
  - intros k'' Hk''. destruct (is_internal_key k'); [apply Hm; set_solver|].
    rewrite lookup_insert_ne; [|set_solver]. apply Hm. set_solver.
Qed.

Lemma list_data_lookup db p k :
  list_data db p !! k = if starts_with p k then value_of db k else None.
Proof.
  unfold list_data. rewrite list_data_fold by (apply NoDup_scan || set_solver). rewrite lookup_empty.
  unfold value_of. case_decide as Hu; unfold user_key in Hu.
  - rewrite Hu. destruct (starts_with p k) eqn:Ep.
    + destruct (db !! k) as [v|] eqn:Ev.
      * assert (Hs : (list_to_map (scan_prefix db p) : gmap string string) !! k = Some v).
        { apply elem_of_list_to_map_1; [apply NoDup_scan|]. by apply elem_of_scan. }
        by rewrite Hs.
      * rewrite not_elem_of_list_to_map_1; [done|]. rewrite elem_of_scan_keys. intros [[] _]. congruence.
    + rewrite not_elem_of_list_to_map_1; [done|]. rewrite elem_of_scan_keys. intros [_ ?]. congruence.
  - destruct (is_internal_key k); [by destruct (starts_with p k)|done].
Qed.

(** [list_data] returns exactly the entries of users under the prefix with
    their values, and [list_keys] the same keys, each once, in key order;
    revision entries never show. *)
Theorem listings_correct (db : sled) (p : string) :
  (forall k, list_data db p !! k = if starts_with p k then value_of db k else None) /\
  (forall k, k ∈ list_keys db p <-> listed db p k) /\
  NoDup (list_keys db p) /\
  StronglySorted (fun k k' => string_leb k k' = true) (list_keys db p).
Proof.
  split_and!.
  - apply list_data_lookup.
  - intros k. unfold list_keys, listed, user_key.
    rewrite elem_of_filterb, elem_of_scan_keys, negb_true_iff. tauto.
  - unfold list_keys. eapply sublist_NoDup; [apply NoDup_scan|apply filterb_sublist].
  - unfold list_keys. pose proof (scan_sorted db p) as Hs. revert Hs.
    generalize ((scan_prefix db p).*1). intros l. induction 1 as [|k l Hl IH Hk]; simpl; [constructor|].
    destruct (negb (is_internal_key k)); [|done]. constructor; [done|].
    rewrite Forall_forall in Hk |- *. intros k' [_ Hk']%elem_of_filterb. auto.
Qed.

(** ** Direct children *)

Definition first_segment (s : string) : string :=
  match split_on "/" s with c :: _ => c | [] => "" end.

Lemma starts_with_append p s : starts_with p (p +:+ s) = true.
Proof. apply starts_with_spec. by exists s. Qed.

Lemma drop_chars_append p s : drop_chars (String.length p) (p +:+ s) = s.
Proof. induction p as [|c p IH]; [by rewrite append_nil_l; destruct s|]. by rewrite append_cons. Qed.

Lemma trim_start_matches_once p s :
  p <> "" -> starts_with p s = false -> trim_start_matches p (p +:+ s) = s.
Proof.
  intros Hp Hs. unfold trim_start_matches. destruct p as [|c p]; [done|].
  rewrite append_cons. cbn [String.length trim_start_matches_go].
  rewrite <- append_cons, starts_with_append.
  change (S (String.length p)) with (String.length (String c p)). rewrite drop_chars_append.
  destruct (String.length (p +:+ s)) as [|n]; cbn [trim_start_matches_go]; by rewrite ?Hs.
Qed.

(** The suffix of a listed key that the code cuts off as intended. *)
Definition plain_suffix (p s : string) : Prop :=
  ends_with_slash s = false /\ (p <> "" -> starts_with p s = false).

Lemma direct_child_plain p s : plain_suffix p s -> direct_child p (p +:+ s) = Ok (first_segment s).
Proof.
  intros [Hs Hp]. unfold direct_child.
  assert (Ht : trim_start_matches p (p +:+ s) = s).
  { destruct p as [|c p]; [done|]. apply trim_start_matches_once; [done|]. by apply Hp. }
  rewrite Ht, Hs. simpl. unfold first_segment.
  destruct (split_on "/" s) eqn:E; [by apply split_on_nonempty in E|done].
Qed.

Lemma collect_children_ok p keys acc :
  NoDup acc ->
  (forall k, k ∈ keys -> user_key k -> exists s, k = p +:+ s /\ plain_suffix p s) ->
  exists l, collect_children p keys acc = Ok l /\ NoDup l /\
    forall c, c ∈ l <-> c ∈ acc \/ exists s, p +:+ s ∈ keys /\ user_key (p +:+ s) /\ c = first_segment s.
Proof.
  revert acc. induction keys as [|k keys IH]; intros acc Hacc Hk; simpl.
  { exists acc. split_and!; [done..|]. set_solver. }
  destruct (is_internal_key k) eqn:Ei.
  { destruct (IH acc Hacc) as (l & -> & Hl & Hin); [set_solver|]. exists l. split_and!; [done..|].
    intros c. rewrite Hin. split; [set_solver|]. intros [|(s & Hs & Hu & ->)]; [by left|].
    right. apply elem_of_cons in Hs as [<-|]; [|eauto]. unfold user_key in Hu. congruence. }
  destruct (Hk k) as (s & -> & Hs); [by left|done|]. rewrite direct_child_plain by done. simpl.
  edestruct (IH (if bool_decide (first_segment s ∈ acc) then acc else acc ++ [first_segment s]))
    as (l & -> & Hl & Hin); [|set_solver|].
  { case_bool_decide; [done|]. apply NoDup_app. split_and!; [done|set_solver|apply NoDup_singleton]. }
  exists l. split_and!; [done..|]. intros c. rewrite Hin.
  assert (Hc : c ∈ (if bool_decide (first_segment s ∈ acc) then acc else acc ++ [first_segment s])
               <-> c ∈ acc \/ c = first_segment s) by (case_bool_decide; set_solver).
  rewrite Hc. split.
  - intros [[? | ->]|(s' & ? & ? & ->)]; [by left|right; exists s|right; exists s']; set_solver.
  - intros [?|(s' & Hs' & Hu & ->)]; [tauto|]. apply elem_of_cons in Hs' as [E|?].
    + apply string_app_inj_l in E as ->. tauto.
    + right. eauto.
Qed.

(** The prefix [list_direct_children] scans for. *)
Definition dir_prefix (prefix : string) : string :=
  if String.eqb prefix "" || ends_with_slash prefix then prefix else prefix +:+ "/".

(** When no key under the directory repeats the directory's name right
    after it or ends in a slash, [list_direct_children] succeeds and returns
    each first path segment below the directory once, and nothing else. *)
Theorem list_direct_children_correct (db : sled) (prefix : string) :
  (forall s, listed db (dir_prefix prefix) (dir_prefix prefix +:+ s) ->
     plain_suffix (dir_prefix prefix) s) ->
  exists l, list_direct_children db prefix = Ok l /\ NoDup l /\
    forall c, c ∈ l <->
      exists s, listed db (dir_prefix prefix) (dir_prefix prefix +:+ s) /\ c = first_segment s.
Proof.
  intros Hplain. unfold list_direct_children. fold (dir_prefix prefix). set (p := dir_prefix prefix) in *.
  assert (Hkeys : forall s, p +:+ s ∈ (scan_prefix db p).*1 /\ user_key (p +:+ s) <-> listed db p (p +:+ s)).
  { intros s. rewrite elem_of_scan_keys. unfold listed. tauto. }
  destruct (collect_children_ok p ((scan_prefix db p).*1) []) as (l & -> & Hl & Hin).
  - constructor.
  - intros k Hk Hu. pose proof Hk as [_ [s ->]%starts_with_spec]%elem_of_scan_keys.
    exists s. split; [done|]. apply Hplain, Hkeys. done.
  - exists l. split_and!; [done..|]. intros c. rewrite Hin. setoid_rewrite <- Hkeys. set_solver.
Qed.

(** [trim_start_matches] removes the directory as often as it repeats: below
    ["a"], the key ["a/a/b"] is listed as ["b"], not as ["a"]. *)
Lemma repeated_prefix_lost :
  list_direct_children {["a/a/b" := "v"]} "a" = Ok ["b"].
Proof. reflexivity. Qed.

(** ** Witnesses *)

Definition listing_db : sled := <["a/b" := "1"]> (<["a/c/d" := "2"]> {[revision_key "a/b" := "1"]}).

Lemma list_direct_children_correct_witness :
  exists l, list_direct_children listing_db "a" = Ok l /\ NoDup l /\ "c" ∈ l.
Proof.
  destruct (list_direct_children_correct listing_db "a") as (l & El & Hl & Hin).
  - intros s (Hu & [v Hv] & _). change (dir_prefix "a") with "a/" in *. unfold listing_db in Hv.
    apply lookup_insert_Some in Hv as [[E _]|[_ [[E _]|[_ [E _]%lookup_singleton_Some]]%lookup_insert_Some]].
    + change "a/b" with ("a/" +:+ "b") in E. apply string_app_inj_l in E as <-. split; reflexivity.
    + change "a/c/d" with ("a/" +:+ "c/d") in E. apply string_app_inj_l in E as <-. split; reflexivity.
    + rewrite append_cons in E. discriminate E.
  - exists l. split; [done|]. split; [done|]. apply Hin. exists "c/d". split; [|reflexivity].
    split; [reflexivity|]. split; [by exists "2"|reflexivity].
Defined.
