(* ===== verification/SchedService.v ===== *)
(** What the scheduler's actions become in the configuration store: the changes
    of [kernel/scheduler/src/service.rs] for kernel services, those of
    [app.rs] for installed apps, and the selectors of the node gateway
    ([system_config_agent.rs]).

    Device descriptions, service configurations and JSON are types of other
    crates or plain serialisation: they are parameters. *)
From Stdlib Require Import ZArith Lia Ascii Sorted.
From stdpp Require Import base tactics numbers gmap strings sorting list.
From S2P Require Import Prelude RustString SchedTypes Scheduler SysConfigStore.

(** [ServiceNode] and the published [ServiceInfo] of [buckyos-api]. *)
Record ServiceNode {DID : Type} := {
  node_did : DID;
  node_net_id : option string;
  node_service_state : ServiceInstanceState;
  node_weight : Z;
  node_service_port : gmap string Z
}.
Arguments ServiceNode _ : clear implicits.

Record PublishedInfo {DID : Type} := { selector_type : string; node_list : gmap string (ServiceNode DID) }.
Arguments PublishedInfo _ : clear implicits.

Section service.
Context {DID DeviceInfo Json KernelServiceSpec : Type}.
(** The fields of [DeviceInfo] that are read, and the JSON of the values that
    are written. *)
Context (device_id : DeviceInfo -> DID) (device_net_id : DeviceInfo -> option string)
        (info_to_string : PublishedInfo DID -> string + string)
        (state_json : ServiceState -> Json) (instance_state_json : ServiceInstanceState -> Json)
        (instance_config_json : ServiceInstanceState -> KernelServiceSpec -> string -> string + Json).
Context `{HashOrder}.

Abbreviation tx_actions := (gmap string (KVAction Json)).

Definition node_config_key (node_id : string) : string := "nodes/" +:+ node_id +:+ "/config".

Definition instance_service (new_instance : ReplicaInstance) (server_config : KernelServiceSpec)
  : result tx_actions :=
  match instance_config_json SIS_Started server_config (ri_node_id new_instance) with
  | inl e => Err e
  | inr v => Ok {[ node_config_key (ri_node_id new_instance) :=
                   KVSetByJsonPath {[ "kernel/" +:+ ri_spec_id new_instance := Some v ]} ]}
  end.

Definition uninstance_service (instance : ReplicaInstance) : result tx_actions :=
  Ok {[ node_config_key (ri_node_id instance) :=
        KVSetByJsonPath {[ "kernel/" +:+ ri_spec_id instance := None ]} ]}.

(** [unimplemented!()] *)
Definition update_service_instance (instance : ReplicaInstance) : result tx_actions := Panic.

Definition service_node (device : DeviceInfo) (weight : Z) (ports : gmap string Z) : ServiceNode DID :=
  {| node_did := device_id device; node_net_id := device_net_id device; node_service_state := SIS_Started;
     node_weight := weight; node_service_port := ports |}.

Definition published_info (service_info : ServiceInfo) (device_list : gmap string DeviceInfo)
  : PublishedInfo DID :=
  {| selector_type := "random";
     node_list :=
       match service_info with
       | RandomCluster cluster =>
         fold_left (fun m (kv : string * (Z * ReplicaInstance)) =>
             match device_list !! kv.1 with
             | Some device => <[kv.1 := service_node device kv.2.1 (ri_service_ports kv.2.2)]> m
             | None => m
             end) (iter cluster) ∅
       | SingleInstance instance =>
         match device_list !! ri_node_id instance with
         | Some device => {[ ri_node_id instance := service_node device 100 (ri_service_ports instance) ]}
         | None => ∅
         end
       end |}.

Definition update_service_info (spec_id : string) (service_info : ServiceInfo)
    (device_list : gmap string DeviceInfo) : result tx_actions :=
  match info_to_string (published_info service_info device_list) with
  | inl e => Err e
  | inr s => Ok {[ "services/" +:+ spec_id +:+ "/info" := KVUpdate s ]}
  end.

Definition set_service_state (spec_id : string) (state : ServiceSpecState) : result tx_actions :=
  st ← to_config_state state;
  mret {[ "services/" +:+ spec_id +:+ "/spec" := KVSetByJsonPath {[ "state" := Some (state_json st) ]} ]}.

(** ** Apps *)

Definition SYSTEM_APP_OWNER_ID : string := "system".

Definition zone_app_spec_key (app_id : string) : string := "zone/apps/" +:+ app_id +:+ "/spec".

Definition app_service_spec_key_candidates (user_id installation_id : string) : list string :=
  let keys := [ "users/" +:+ user_id +:+ "/apps/" +:+ installation_id +:+ "/spec";
                "users/" +:+ user_id +:+ "/agents/" +:+ installation_id +:+ "/spec" ] in
  if String.eqb user_id SYSTEM_APP_OWNER_ID then zone_app_spec_key installation_id :: keys else keys.

Definition uninstance_app_service (instance : ReplicaInstance) : result tx_actions :=
  let node_instance_id := ri_spec_id instance +:+ "@" +:+ ri_node_id instance in
  Ok {[ node_config_key (ri_node_id instance) :=
        KVSetByJsonPath
          (<[ "/apps/" +:+ node_instance_id +:+ "/app_spec/state" := Some (state_json SS_Deleted) ]>
          (<[ "/apps/" +:+ node_instance_id +:+ "/target_state" := Some (instance_state_json SIS_Stopped) ]> ∅)) ]}.

Definition update_app_service_instance (instance : ReplicaInstance) : result tx_actions :=
  let node_instance_id := ri_spec_id instance +:+ "@" +:+ ri_node_id instance in
  let app_state := match ri_state instance with InstDeleted => SS_Deleted | _ => SS_Stopped end in
  Ok {[ node_config_key (ri_node_id instance) :=
        KVSetByJsonPath
          (<[ "/apps/" +:+ node_instance_id +:+ "/app_spec/state" := Some (state_json app_state) ]>
          (<[ "/apps/" +:+ node_instance_id +:+ "/target_state" := Some (instance_state_json SIS_Stopped) ]> ∅)) ]}.

Definition set_app_service_state (spec_id : string) (state : ServiceSpecState)
    (input_config : gmap string string) : result tx_actions :=
  au ← parse_spec_id spec_id;
  let '(app_id, user_id) := au in
  let key := default ("users/" +:+ user_id +:+ "/apps/" +:+ app_id +:+ "/spec")
               (List.find (fun k => bool_decide (is_Some (input_config !! k)))
                          (app_service_spec_key_candidates user_id app_id)) in
  st ← to_config_state state;
  mret {[ key := KVSetByJsonPath {[ "state" := Some (state_json st) ]} ]}.
End service.

(** ** Selectors of the node gateway *)

Definition FIXED_SERVICE_WEIGHT : Z := 100.

Record NodeGatewaySelectorTarget := { target_port : Z; target_weight : Z }.

Definition get_spec_id_from_service_info_id (service_info_id : string) : string * string :=
  match rsplit_once ":" service_info_id with
  | None => (service_info_id, "www")
  | Some (spec_id, service_name) =>
    if contains_char "@" service_name then (service_info_id, "www") else (spec_id, service_name)
  end.

Section selectors.
Context `{HashOrder}.

(** The first of the names that has a port. *)
Definition first_port (ports : gmap string Z) (names : list string) : option Z :=
  head (omap (fun n => ports !! n) names).

Definition select_gateway_port (service_ports : gmap string Z) (service_name : string) : option Z :=
  match service_ports !! service_name with
  | Some port => Some port
  | None =>
    match first_port service_ports ["www"; "http"; "https"; "main"] with
    | Some port => Some port
    | None =>
      if (size service_ports =? 1)%nat then head (values service_ports)
      else snd <$> head (sort_stable (fun l r => string_leb l.1 r.1) (iter service_ports))
    end
  end.

Definition build_service_selector (service_info : ServiceInfo) (service_name : string)
  : option (gmap string NodeGatewaySelectorTarget) :=
  let selector :=
    match service_info with
    | SingleInstance instance =>
      match select_gateway_port (ri_service_ports instance) service_name with
      | Some port => {[ ri_node_id instance := {| target_port := port; target_weight := FIXED_SERVICE_WEIGHT |} ]}
      | None => ∅
      end
    | RandomCluster cluster =>
      fold_left (fun m (wi : Z * ReplicaInstance) =>
          match select_gateway_port (ri_service_ports wi.2) service_name with
          | Some port => <[ ri_node_id wi.2 := {| target_port := port; target_weight := wi.1 |} ]> m
          | None => m
          end) (values cluster) ∅
    end in
  if decide (selector = ∅) then None else Some selector.
End selectors.
