(* ===== verification/SchedServiceTheorems.v ===== *)
(** What the published service infos and the gateway selectors hold, and the
    names of service infos. *)
From Stdlib Require Import ZArith Lia Ascii Sorted Permutation.
From stdpp Require Import base tactics numbers gmap strings sorting list.
From S2P Require Import Prelude RustString SchedTypes Scheduler SchedulerInfo SysConfigStore SchedService.

(** ** Collecting a list in a map *)

Section collect.
Context {A B : Type} (g : A -> string) (f : A -> option B).

Definition collect (l : list A) (m : gmap string B) : gmap string B :=
  fold_left (fun m x => match f x with Some v => <[g x := v]> m | None => m end) l m.

(** Where the keys tell apart the elements that are kept, the order of the
    list does not matter. *)
Lemma collect_lookup l (m : gmap string B) k v :
  (forall x y, x ∈ l -> y ∈ l -> g x = g y -> is_Some (f x) -> is_Some (f y) -> f x = f y) ->
  collect l m !! k = Some v <->
  (exists x, x ∈ l /\ g x = k /\ f x = Some v)
  \/ ((forall x, x ∈ l -> g x = k -> f x = None) /\ m !! k = Some v).
Proof.
  unfold collect. revert m. induction l as [|a l IH]; intros m Hinj; simpl.
  { set_solver. }
  rewrite IH by (intros; apply Hinj; set_solver).
  destruct (f a) as [w|] eqn:Ea.
  - rewrite lookup_insert. split.
    + intros [(x & Hx & <- & Hv)|[Hn Hm]]; [left; exists x; set_solver|].
      case_decide as Hk; simplify_eq; [left; exists a; set_solver|].
      right. split; [|done]. intros x [->|Hx]%elem_of_cons Hg; [done|auto].
    + intros [(x & [->|Hx]%elem_of_cons & <- & Hv)|[Hn Hm]].
      * destruct (decide (Exists (fun y => g y = g a /\ is_Some (f y)) l))
          as [(y & Hy & Hg & [u Hu])%Exists_exists|Hno].
        { left. exists y. split_and!; [done..|]. rewrite <- Hv. apply Hinj; rewrite ?Hu, ?Hv; set_solver. }
        right. split; [|rewrite decide_True by done; congruence].
        intros y Hy Hg. destruct (f y) eqn:E; [|done]. exfalso. apply Hno, Exists_exists. exists y. rewrite E. eauto.
      * left. eauto.
      * assert (g a <> k) by (intros Hg; specialize (Hn a); rewrite Ea in Hn; set_solver).
        right. rewrite decide_False by done. split; [|done]. intros. apply Hn; set_solver.
  - split.
    + intros [(x & Hx & <- & Hv)|[Hn Hm]]; [left; exists x; set_solver|].
      right. split; [|done]. intros x [->|Hx]%elem_of_cons Hg; [done|auto].
    + intros [(x & [->|Hx]%elem_of_cons & <- & Hv)|[Hn Hm]]; [congruence|left; eauto|].
      right. split; [|done]. intros. apply Hn; set_solver.
Qed.
End collect.

Lemma collect_is_Some {A B} (g : A -> string) (f : A -> option B) l m k :
  is_Some (collect g f l m !! k) <->
  (exists x, x ∈ l /\ g x = k /\ is_Some (f x)) \/ is_Some (m !! k).
Proof.
  unfold collect. revert m. induction l as [|a l IH]; intros m; simpl; [set_solver|].
  rewrite IH. setoid_rewrite elem_of_cons.
  destruct (f a) as [w|] eqn:E; [rewrite lookup_insert_is_Some'|]; split.
  - intros [(x & ? & ? & ?)|[<-|?]]; [left; eauto|left|by right]. exists a. rewrite E. eauto.
  - intros [(x & [->|?] & ? & ?)|?]; [right; by left|left; eauto|right; by right].
  - intros [(x & ? & ? & ?)|?]; [left; eauto|by right].
  - intros [(x & [->|?] & ? & Hx)|?]; [rewrite E in Hx; by destruct Hx|left; eauto|by right].
Qed.

(** ** What is published *)

Section published.
Context {DID DeviceInfo : Type} (device_id : DeviceInfo -> DID)
        (device_net_id : DeviceInfo -> option string) `{HashOrder}.
Notation published := (published_info device_id device_net_id).
Notation node_of := (service_node device_id device_net_id).

(** The device of a published node is the one named by the key of the cluster,
    or by the node of a single instance. *)
Lemma published_nodes info devices n node :
  node_list (published info devices) !! n = Some node <->
  exists device w i, devices !! n = Some device /\ node = node_of device w (ri_service_ports i) /\
    match info with
    | RandomCluster cluster => cluster !! n = Some (w, i)
    | SingleInstance j => i = j /\ n = ri_node_id j /\ w = 100
    end.
Proof.
  destruct info as [j|cluster]; simpl.
  - destruct (devices !! ri_node_id j) as [d|] eqn:E; [rewrite lookup_singleton_Some|rewrite lookup_empty];
      naive_solver.
  - assert (forall l m, fold_left (fun m (kv : string * (Z * ReplicaInstance)) =>
        match devices !! kv.1 with
        | Some device => <[kv.1 := node_of device kv.2.1 (ri_service_ports kv.2.2)]> m
        | None => m
        end) l m = collect fst (fun kv => (fun d => node_of d kv.2.1 (ri_service_ports kv.2.2)) <$> devices !! kv.1) l m)
      as -> by (induction l as [|kv l IH]; intros m; simpl; [done|]; rewrite IH; by destruct (devices !! kv.1)).
    rewrite collect_lookup.
    2: { intros [k [w i]] [k' [w' i']] Hk%elem_of_iter Hk'%elem_of_iter. simpl. intros -> _ _.
         by rewrite Hk in Hk'; simplify_eq. }
    rewrite lookup_empty. setoid_rewrite fmap_Some. split.
    + intros [([k [w i]] & Hk%elem_of_iter & Hn & d & Hd & ->)|[_ ?]]; [|done]. simpl in *. subst.
      exists d, w, i. eauto.
    + intros (d & w & i & Hd & -> & Hk). left. exists (n, (w, i)). rewrite elem_of_iter. simpl. eauto.
Qed.
End published.

(** The live instances of a spec with their weights, as the scheduler collects
    them ([collect_members]). *)
Definition live_cluster (now : Z) (s : NodeScheduler) (spec_id : string)
  : gmap string (Z * ReplicaInstance) := pair 100 <$> live_members now s spec_id.

Lemma live_cluster_lookup now s spec_id k wi :
  live_cluster now s spec_id !! k = Some wi <->
  exists i, live_members now s spec_id !! k = Some i /\ wi = (100, i).
Proof. unfold live_cluster. rewrite lookup_fmap, fmap_Some. done. Qed.

Lemma cluster_info now s spec_id :
  instances_keyed s -> size (live_members now s spec_id) <> 1%nat ->
  new_service_info (live_cluster now s spec_id) =
  RandomCluster (live_cluster now s spec_id).
Proof.
  intros Hk Hsize.
  destruct (new_service_info_members (live_cluster now s spec_id)) as [_ Hm].
  { intros k wi. rewrite live_cluster_lookup. intros (i & Hi & ->). simpl.
    apply map_lookup_filter_Some in Hi as [Hi _]. by apply (Hk k i). }
  destruct (new_service_info _); [|by destruct Hm as [-> _]].
  by unfold live_cluster in Hm; rewrite map_size_fmap in Hm.
Qed.

(** ** Gateway ports *)

Definition wanted_ports (service_name : string) : list string :=
  [service_name; "www"; "http"; "https"; "main"].

(** The port of name [n] is the one to serve [service_name]: the first of the
    wanted names that is there, or the least name where none is. *)
Definition preferred_port (ports : gmap string Z) (service_name n : string) : Prop :=
  (exists i, wanted_ports service_name !! i = Some n /\
     forall j m, (j < i)%nat -> wanted_ports service_name !! j = Some m -> ports !! m = None)
  \/ ((forall m, m ∈ wanted_ports service_name -> ports !! m = None) /\
      forall m, is_Some (ports !! m) -> string_leb n m = true).

Lemma first_port_spec ports names :
  match first_port ports names with
  | Some p => exists i n, names !! i = Some n /\ ports !! n = Some p /\
      forall j m, (j < i)%nat -> names !! j = Some m -> ports !! m = None
  | None => forall m, m ∈ names -> ports !! m = None
  end.
Proof.
  unfold first_port. induction names as [|n names IH]; csimpl; [set_solver|].
  destruct (ports !! n) as [p|] eqn:E; csimpl.
  - exists O, n. split_and!; [done..|lia].
  - destruct (head _) as [p|].
    + destruct IH as (i & n' & Hi & Hp & Hb). exists (S i), n'. split_and!; [done..|].
      intros [|j] m Hj Hm; simpl in Hm; [congruence|]. apply (Hb j); [lia|done].
    + intros m [->|Hm]%elem_of_cons; auto.
Qed.

Section gateway.
Context `{HashOrder}.

Lemma named_ports_first (ports : gmap string Z) name :
  select_gateway_port ports name =
  match first_port ports (wanted_ports name) with
  | Some p => Some p
  | None => if (size ports =? 1)%nat then head (values ports)
            else snd <$> head (sort_stable (fun l r => string_leb l.1 r.1) (iter ports))
  end.
Proof.
  unfold select_gateway_port, first_port, wanted_ports. csimpl. by destruct (ports !! name).
Qed.

Lemma sort_ports_sorted (l : list (string * Z)) :
  StronglySorted (fun x y => string_leb x.1 y.1 = true) (sort_stable (fun l r => string_leb l.1 r.1) l).
Proof.
  apply (sort_stable_sorted _ (fun _ => True)); [| |by apply Forall_true].
  - intros. apply string_leb_total.
  - intros x y z _ _ _. apply string_leb_trans.
Qed.

Lemma least_port (ports : gmap string Z) :
  match snd <$> head (sort_stable (fun l r => string_leb l.1 r.1) (iter ports)) with
  | Some p => exists n, ports !! n = Some p /\ forall m, is_Some (ports !! m) -> string_leb n m = true
  | None => ports = ∅
  end.
Proof.
  pose proof (sort_stable_perm (fun l r : string * Z => string_leb l.1 r.1) (iter ports)) as Hp.
  pose proof (sort_ports_sorted (iter ports)) as Hs.
  destruct (sort_stable _ _) as [|[n p] l]; csimpl.
  - apply map_to_list_empty_iff, Permutation_nil_r. by rewrite <- iter_perm, <- Hp.
  - exists n. split.
    + apply elem_of_iter. rewrite <- Hp. set_solver.
    + intros m [q Hq]. apply elem_of_iter in Hq. rewrite <- Hp in Hq.
      apply elem_of_cons in Hq as [[= -> ->]|Hq]; [apply string_leb_refl|].
      apply StronglySorted_inv in Hs as [_ Hs]. rewrite Forall_forall in Hs. by apply (Hs (m, q)).
Qed.

Lemma only_port (ports : gmap string Z) :
  size ports = 1%nat -> exists n p, ports = {[n := p]} /\ head (values ports) = Some p.
Proof.
  intros Hs. rewrite <- length_map_to_list in Hs.
  destruct (map_to_list ports) as [|[n p] [|]] eqn:E; [done| |done]. exists n, p.
  assert (ports = {[n := p]}) as -> by (by rewrite <- (list_to_map_to_list ports), E). split; [done|].
  unfold values. pose proof (iter_perm {[n := p]}) as Hp. rewrite map_to_list_singleton in Hp.
  by apply Permutation_singleton_r in Hp as ->.
Qed.

Lemma select_gateway_port_aux (ports : gmap string Z) name :
  match select_gateway_port ports name with
  | Some p => exists n, ports !! n = Some p /\ preferred_port ports name n
  | None => ports = ∅
  end.
Proof.
  rewrite named_ports_first. pose proof (first_port_spec ports (wanted_ports name)) as Hf.
  destruct (first_port _ _) as [p|].
  { destruct Hf as (i & n & Hi & Hp & Hb). exists n. split; [done|]. left. eauto. }
  destruct (Nat.eqb_spec (size ports) 1) as [H1|H1].
  - destruct (only_port _ H1) as (n & p & -> & ->). exists n. rewrite lookup_singleton_eq.
    split; [done|]. right. split; [done|]. intros m [q [-> _]%lookup_singleton_Some].
    apply string_leb_refl.
  - pose proof (least_port ports) as Hl. destruct (snd <$> head _); [|done].
    destruct Hl as (n & Hp & Hn). exists n. split; [done|]. by right.
Qed.

Lemma select_gateway_port_None (ports : gmap string Z) name :
  select_gateway_port ports name = None <-> ports = ∅.
Proof.
  pose proof (select_gateway_port_aux ports name) as Hs. split.
  - intros E. by rewrite E in Hs.
  - intros ->. destruct (select_gateway_port _ _); [|done]. by destruct Hs as (n & ? & _).
Qed.
End gateway.

(** The port the gateway gives a service is the port of the preferred
    name: the service's own, else [www], [http], [https] or [main], else the
    least name; there is none only for an instance without ports.  The order
    in which the hash map is traversed makes no difference. *)
Theorem select_gateway_port_preferred `{HashOrder} (ports : gmap string Z) (service_name : string) :
  match select_gateway_port ports service_name with
  | Some port => exists n, ports !! n = Some port /\ preferred_port ports service_name n
  | None => ports = ∅
  end.
Proof. apply select_gateway_port_aux. Qed.

(** ** Selectors *)

(** The instances of a service info with their weights. *)
Definition info_entries (info : ServiceInfo) : gmap string (Z * ReplicaInstance) :=
  match info with
  | SingleInstance i => {[ri_instance_id i := (FIXED_SERVICE_WEIGHT, i)]}
  | RandomCluster m => m
  end.

Definition target_of `{HashOrder} (service_name : string) (wi : Z * ReplicaInstance)
  : option NodeGatewaySelectorTarget :=
  (fun port => {| target_port := port; target_weight := wi.1 |})
    <$> select_gateway_port (ri_service_ports wi.2) service_name.

Definition one_per_node (info : ServiceInfo) : Prop :=
  forall k k' wi wi', info_entries info !! k = Some wi -> info_entries info !! k' = Some wi' ->
    ri_node_id wi.2 = ri_node_id wi'.2 -> wi = wi'.

Section selector.
Context `{HashOrder}.

Lemma selector_collect info name :
  build_service_selector info name =
  let selector := collect (fun wi => ri_node_id wi.2) (target_of name) (values (info_entries info)) ∅ in
  if decide (selector = ∅) then None else Some selector.
Proof.
  assert (forall (l : list (Z * ReplicaInstance)) m, fold_left (fun m (wi : Z * ReplicaInstance) =>
      match select_gateway_port (ri_service_ports wi.2) name with
      | Some port => <[ri_node_id wi.2 := {| target_port := port; target_weight := wi.1 |}]> m
      | None => m
      end) l m = collect (fun wi => ri_node_id wi.2) (target_of name) l m) as Hf.
  { unfold target_of. induction l as [|wi l IH]; intros m; simpl; [done|]. rewrite IH.
    by destruct (select_gateway_port _ _). }
  unfold build_service_selector. destruct info as [i|c]; simpl; [|by rewrite Hf].
  assert (values {[ri_instance_id i := (FIXED_SERVICE_WEIGHT, i)]} = [(FIXED_SERVICE_WEIGHT, i)]) as ->.
  { unfold values. pose proof (iter_perm {[ri_instance_id i := (FIXED_SERVICE_WEIGHT, i)]}) as Hp.
    rewrite map_to_list_singleton in Hp. by apply Permutation_singleton_r in Hp as ->. }
  simpl. unfold target_of. simpl. by destruct (select_gateway_port _ _).
Qed.

Lemma selector_default info name :
  default ∅ (build_service_selector info name) =
  collect (fun wi => ri_node_id wi.2) (target_of name) (values (info_entries info)) ∅.
Proof. rewrite selector_collect. cbv zeta. case_decide as E; [by rewrite E|done]. Qed.

Lemma selector_empty info name :
  default ∅ (build_service_selector info name) = ∅ <-> build_service_selector info name = None.
Proof. rewrite selector_collect. cbv zeta. by case_decide. Qed.

Lemma selector_nodes info name n :
  is_Some (default ∅ (build_service_selector info name) !! n) <->
  exists k wi, info_entries info !! k = Some wi /\ ri_node_id wi.2 = n /\ ri_service_ports wi.2 <> ∅.
Proof.
  rewrite selector_default, collect_is_Some, lookup_empty. setoid_rewrite elem_of_values.
  assert (forall wi, is_Some (target_of name wi) <-> ri_service_ports wi.2 <> ∅) as Ht.
  { intros wi. unfold target_of. rewrite fmap_is_Some, <- not_eq_None_Some. by rewrite select_gateway_port_None. }
  setoid_rewrite Ht. split.
  - intros [(wi & [k ?] & ?)|[? ?]]; [eauto|done].
  - intros (k & wi & ? & ?). left. eauto.
Qed.

Lemma selector_lookup_aux info name n t :
  one_per_node info ->
  default ∅ (build_service_selector info name) !! n = Some t <->
  exists k wi, info_entries info !! k = Some wi /\ ri_node_id wi.2 = n /\ target_of name wi = Some t.
Proof.
  intros Hone. rewrite selector_default, collect_lookup, lookup_empty; setoid_rewrite elem_of_values.
  - split; [intros [(wi & [k ?] & ?)|[_ ?]]; [eauto|done]|]. intros (k & wi & ? & ?). left. eauto.
  - intros wi wi' [k Hk] [k' Hk'] Hn _ _. by rewrite (Hone _ _ _ _ Hk Hk' Hn).
Qed.
End selector.

(** Where a service has at most one instance per node, its gateway
    selector sends traffic to exactly the nodes of its instances with a port,
    to the port the gateway chooses and with the weight of the instance; there
    is no selector exactly where no instance has a port. *)
Theorem service_selector_exact `{HashOrder} info service_name :
  one_per_node info ->
  (forall n t, default ∅ (build_service_selector info service_name) !! n = Some t <->
     exists k w i, info_entries info !! k = Some (w, i) /\ ri_node_id i = n /\
       target_weight t = w /\
       select_gateway_port (ri_service_ports i) service_name = Some (target_port t))
  /\ (build_service_selector info service_name = None <->
      forall k w i, info_entries info !! k = Some (w, i) -> ri_service_ports i = ∅).
Proof.
  intros Hone. split.
  - intros n t. rewrite selector_lookup_aux by done. unfold target_of. setoid_rewrite fmap_Some. split.
    + intros (k & [w i] & Hk & Hn & port & Hp & ->). exists k, w, i. done.
    + intros (k & w & i & Hk & Hn & <- & Hp). exists k, (target_weight t, i). simpl. split_and!; [done..|].
      exists (target_port t). split; [done|]. by destruct t.
  - rewrite <- (selector_empty info service_name). split.
    + intros E k w i Hk. destruct (decide (ri_service_ports i = ∅)) as [|Hp]; [done|].
      assert (is_Some (default ∅ (build_service_selector info service_name) !! ri_node_id i)) as [t Ht].
      { apply selector_nodes. exists k, (w, i). done. }
      by rewrite E in Ht.
    + intros Hall. apply map_empty. intros n. apply eq_None_not_Some.
      intros (k & [w i] & Hk & _ & Hp)%selector_nodes. by apply Hp, (Hall k w).
Qed.

Lemma service_selector_exact_witness :
  let H := canonical_order in
  let inst spec node port := {| ri_node_id := node; ri_spec_id := spec; ri_res_limits := ∅;
    ri_instance_id := spec +:+ "-" +:+ node; ri_last_update_time := 0; ri_state := InstRunning;
    ri_service_ports := port |} in
  let info := RandomCluster (<["a" := (100, inst "s" "n1" {["www" := 80]})]>
                            (<["b" := (50, inst "s" "n2" ∅)]> ∅)) in
  build_service_selector info "www" = Some {["n1" := {| target_port := 80; target_weight := 100 |}]} /\
  (build_service_selector info "www" = None <->
   forall k w i, info_entries info !! k = Some (w, i) -> ri_service_ports i = ∅).
Proof.
  intros H inst info. split; [vm_compute; reflexivity|].
  refine (proj2 (service_selector_exact info "www" _)).
  intros k k' wi wi' Hk Hk' Hn. change (info_entries info) with
    (<["a" := (100, inst "s" "n1" {["www" := 80]})]> (<["b" := (50, inst "s" "n2" ∅)]> ∅
      : gmap string (Z * ReplicaInstance))) in *.
  apply lookup_insert_Some in Hk as [[_ <-]|[_ Hk]]; apply lookup_insert_Some in Hk' as [[_ <-]|[_ Hk']];
    try apply lookup_singleton_Some in Hk as [_ <-]; try apply lookup_singleton_Some in Hk' as [_ <-];
    done.
Defined.

(** What is published for a service with several live instances lists its
    devices under the names of its instances: an entry [n] is there only if
    [n] is both the id of a live instance and the name of a device.  Where no
    instance is called like a device, the published list of nodes is empty,
    although the gateway's selector has the node of every instance that has a
    port. *)
Theorem cluster_published_by_instance_id `{HashOrder} {DID DeviceInfo : Type}
    (device_id : DeviceInfo -> DID) (device_net_id : DeviceInfo -> option string)
    (devices : gmap string DeviceInfo) now (s : NodeScheduler) (spec_id service_name : string) :
  instances_keyed s ->
  size (live_members now s spec_id) <> 1%nat ->
  let info := new_service_info (live_cluster now s spec_id) in
  (forall n, is_Some (node_list (published_info device_id device_net_id info devices) !! n) <->
     is_Some (live_members now s spec_id !! n) /\ is_Some (devices !! n))
  /\ ((forall n d, devices !! n = Some d -> ns_replica_instances s !! n = None) ->
      node_list (published_info device_id device_net_id info devices) = ∅ /\
      forall k i, live_members now s spec_id !! k = Some i -> ri_service_ports i <> ∅ ->
        is_Some (default ∅ (build_service_selector info service_name) !! ri_node_id i)).
Proof.
  intros Hk Hsize. rewrite (cluster_info now s spec_id) by done. intros info.
  assert (forall n, is_Some (node_list (published_info device_id device_net_id info devices) !! n) <->
     is_Some (live_members now s spec_id !! n) /\ is_Some (devices !! n)) as Hn.
  { intros n. split.
    - intros [node (d & w & i & Hd & _ & Hm)%published_nodes]. simpl in Hm.
      apply live_cluster_lookup in Hm as (j & Hj & _). eauto.
    - intros [[i Hi] [d Hd]]. eexists. apply published_nodes. exists d, 100, i. split_and!; [done..|].
      apply live_cluster_lookup. eauto. }
  split; [done|]. intros Hdisj. split.
  - apply map_empty. intros n. apply eq_None_not_Some. rewrite Hn. intros [[i Hi] [d Hd]].
    apply map_lookup_filter_Some in Hi as [Hi _]. by rewrite (Hdisj n d Hd) in Hi.
  - intros k i Hi Hp. apply selector_nodes. exists k, (100, i). split_and!; [|done..].
    apply live_cluster_lookup. eauto.
Qed.

Lemma cluster_published_by_instance_id_witness :
  let H := canonical_order in
  let inst node := mkInstance node "svc" ∅ ("svc-" +:+ node) 990 InstRunning {["www" := 3300]} in
  let s := add_replica_instance (inst "ood1") (add_replica_instance (inst "ood2") (new_empty 1 1000)) in
  let info := new_service_info (live_cluster 1000 s "svc") in
  let devices : gmap string string := <["ood1" := "did:ood1"]> (<["ood2" := "did:ood2"]> ∅) in
  is_Some (default ∅ (build_service_selector info "www") !! "ood1") /\
  node_list (published_info id (fun _ => None) info devices) = ∅.
Proof.
  intros H inst s info devices.
  assert (He : forall (P : string -> ReplicaInstance -> Prop), P "svc-ood1" (inst "ood1") ->
            P "svc-ood2" (inst "ood2") -> map_Forall P (ns_replica_instances s)).
  { intros P H1 H2 k i Hi. change (ns_replica_instances s) with
      (<["svc-ood1" := inst "ood1"]> (<["svc-ood2" := inst "ood2"]> ∅ : gmap string ReplicaInstance)) in Hi.
    apply lookup_insert_Some in Hi as [[<- <-]|[_ Hi]]; [done|].
    apply lookup_singleton_Some in Hi as [<- <-]. done. }
  assert (Hsize : size (live_members 1000 s "svc") <> 1%nat) by (vm_compute; done).
  destruct (cluster_published_by_instance_id id (fun _ => None) devices 1000 s "svc" "www"
              (He _ eq_refl eq_refl) Hsize) as [_ [Hempty _]].
  { intros n d Hd. apply lookup_insert_Some in Hd as [[<- _]|[_ Hd]]; [by vm_compute|].
    apply lookup_singleton_Some in Hd as [<- _]. by vm_compute. }
  split; [|exact Hempty]. vm_compute. eauto.
Defined.

(** ** Names of service infos *)

(** A service info id is a spec id, a colon and the name of a service, or
    a spec id alone, whose service is [www]; reading an id gives back the parts
    it was made of, also where the colon belongs to the spec id of an app
    ([app@user]), and every id is read as one of the two forms. *)
Theorem service_info_id_roundtrip (spec_id service_name : string) :
  contains_char ":" service_name = false ->
  (contains_char "@" service_name = false ->
     get_spec_id_from_service_info_id (spec_id +:+ ":" +:+ service_name) = (spec_id, service_name))
  /\ (contains_char ":" spec_id = false -> get_spec_id_from_service_info_id spec_id = (spec_id, "www"))
  /\ (contains_char "@" service_name = true ->
      get_spec_id_from_service_info_id (spec_id +:+ ":" +:+ service_name) =
      (spec_id +:+ ":" +:+ service_name, "www"))
  /\ (forall id s n, get_spec_id_from_service_info_id id = (s, n) ->
      id = s +:+ ":" +:+ n \/ (id = s /\ n = "www")).
Proof.
  intros Hn. unfold get_spec_id_from_service_info_id. split_and!.
  - intros Ha. change (":" +:+ service_name) with (String ":" service_name).
    by rewrite rsplit_once_app, Ha.
  - intros Hs%rsplit_once_None. by rewrite Hs.
  - intros Ha. change (":" +:+ service_name) with (String ":" service_name).
    by rewrite rsplit_once_app, Ha.
  - intros id s n. destruct (rsplit_once ":" id) as [[l r]|] eqn:E; [|intros [= <- <-]; by right].
    apply rsplit_once_Some in E as [-> _]. destruct (contains_char "@" r); intros [= <- <-]; [by right|by left].
Qed.

Lemma service_info_id_roundtrip_witness :
  get_spec_id_from_service_info_id ("blog@alice" +:+ ":" +:+ "api") = ("blog@alice", "api").
Proof. by apply (service_info_id_roundtrip "blog@alice" "api"). Defined.
