(* ===== verification/KLogTypes.v ===== *)
(** The data of the replicated log service ([kernel/klog/src/lib.rs],
    [state_store/store.rs]): log entries, metadata entries, the requests of the
    raft log and their responses, queries; and the interface of a state store
    (trait [KLogStateStore]) with what every implementation promises to the
    manager above it: the entries are appended, the metadata entries form a map
    whose revisions count the puts, and a failed call leaves both as they were.

    The raft library is a third-party crate: its log identifiers, votes and
    memberships are type parameters where they are used. *)
From Stdlib Require Import ZArith Lia Ascii.
From stdpp Require Import base tactics numbers gmap strings sorting list.
From S2P Require Import Prelude RustString.

Inductive KLogError := InvalidFormat (msg : string).

(** [KResult<T>] *)
Abbreviation kresult A := (KLogError + A)%type.

Inductive KLogLevel := LTrace | LDebug | LInfo | LWarn | LError | LFatal.

#[export] Instance KLogLevel_eq_dec : EqDecision KLogLevel.
Proof. solve_decision. Defined.

Record KLogEntry := {
  id : Z;
  timestamp : Z;
  node_id : Z;
  request_id : option string;
  level : KLogLevel;
  source : option string;
  attrs : gmap string string;
  message : string
}.

Definition set_entry_id (e : KLogEntry) (i : Z) : KLogEntry :=
  {| id := i; timestamp := timestamp e; node_id := node_id e; request_id := request_id e;
     level := level e; source := source e; attrs := attrs e; message := message e |}.

Record KLogMetaEntry := {
  key : string;
  value : string;
  updated_at : Z;
  updated_by : Z;
  revision : Z
}.

Definition set_meta_revision (m : KLogMetaEntry) (r : Z) : KLogMetaEntry :=
  {| key := key m; value := value m; updated_at := updated_at m; updated_by := updated_by m;
     revision := r |}.

Inductive KLogRequest :=
| AppendLog (item : KLogEntry)
| PutMeta (item : KLogMetaEntry) (expected_revision : option Z)
| DeleteMeta (key : string).

Inductive KLogResponse :=
| RespOk
| RespEmpty
| AppendOk (id : Z)
| MetaPutOk (key : string) (revision : Z)
| MetaPutConflict (key : string) (expected_revision : Z) (current_revision : option Z)
| MetaDeleteOk (key : string) (existed : bool) (prev_meta : option KLogMetaEntry)
| RespErr (msg : string).

Inductive KLogMetaPutResult :=
| Stored (item : KLogMetaEntry)
| VersionConflict (expected_revision : Z) (current_revision : option Z).

Inductive KLogQueryOrder := Asc | Desc.

#[export] Instance KLogQueryOrder_eq_dec : EqDecision KLogQueryOrder.
Proof. solve_decision. Defined.

Record KLogQuery := {
  start_id : option Z;
  end_id : option Z;
  limit : nat;
  query_order : KLogQueryOrder;
  query_level : option KLogLevel;
  query_source : option string;
  attr_key : option string;
  attr_value : option string
}.

Record KLogStateSnapshotData := {
  entries : list KLogEntry;
  meta_entries : list KLogMetaEntry
}.

(** [opt.map(str::trim).filter(|v| !v.is_empty())] *)
Definition normalize (o : option string) : option string :=
  match o with
  | Some v => let v := trim v in if String.eqb v "" then None else Some v
  | None => None
  end.

Definition normalize_request_id : option string -> option string := normalize.

(** [e.id.saturating_add(1)], the greatest of them, or a default. *)
Definition max_next (default : Z) (l : list KLogEntry) : Z :=
  match l with
  | [] => default
  | e :: l => fold_left (fun m e => Z.max m (sat_add64 (id e) 1)) l (sat_add64 (id e) 1)
  end.

(** The request ids of a batch with the ids of their entries. *)
Definition request_id_pairs (l : list KLogEntry) : list (string * Z) :=
  omap (fun e => (fun r => (r, id e)) <$> normalize_request_id (request_id e)) l.

(** ** Counting up: the greatest next id *)

Lemma fold_max_spec l m :
  m <= fold_left (fun m e => Z.max m (sat_add64 (id e) 1)) l m /\
  Forall (fun e => sat_add64 (id e) 1 <= fold_left (fun m e => Z.max m (sat_add64 (id e) 1)) l m) l /\
  (fold_left (fun m e => Z.max m (sat_add64 (id e) 1)) l m = m \/
   exists e, e ∈ l /\ fold_left (fun m e => Z.max m (sat_add64 (id e) 1)) l m = sat_add64 (id e) 1).
Proof.
  revert m. induction l as [|e l IH]; intros m; simpl.
  { split_and!; [lia|constructor|by left]. }
  destruct (IH (Z.max m (sat_add64 (id e) 1))) as (H1 & H2 & H3). split_and!.
  - lia.
  - constructor; [lia|done].
  - destruct H3 as [->|(e' & ? & ?)]; [|right; exists e'; split; [by right|done]].
    destruct (Z.max_spec m (sat_add64 (id e) 1)) as [[_ ->]|[_ ->]]; [|by left].
    right. exists e. split; [by left|done].
Qed.

Lemma max_next_above d l e : e ∈ l -> sat_add64 (id e) 1 <= max_next d l.
Proof.
  destruct l as [|e0 l]; [set_solver|]. unfold max_next.
  destruct (fold_max_spec l (sat_add64 (id e0) 1)) as (H1 & H2 & _).
  rewrite Forall_forall in H2. intros [->|Hin]%elem_of_cons; [done|by apply H2].
Qed.

Lemma max_next_attained d l : l <> [] -> exists e, e ∈ l /\ max_next d l = sat_add64 (id e) 1.
Proof.
  destruct l as [|e0 l]; [done|]. intros _. unfold max_next.
  destruct (fold_max_spec l (sat_add64 (id e0) 1)) as (_ & _ & [->|(e & He & ->)]).
  - exists e0. split; [by left|done].
  - exists e. split; [by right|done].
Qed.

(** ** State stores *)

(** [KLogStateMachineMeta]; [Bytes] is the content of a snapshot. *)
Record KLogStateMachineMeta {LogId Membership : Type} := {
  last_applied_log_id : option LogId;
  last_membership : Membership
}.
Arguments KLogStateMachineMeta _ _ : clear implicits.

(** The operations.  A call that reads the clock gets its reading. *)
Class KLogStateStore (LogId Membership Bytes S : Type) := {
  ss_append : S -> Z -> list KLogEntry -> S * kresult unit;
  ss_query : S -> KLogQuery -> kresult (list KLogEntry);
  ss_put_meta : S -> KLogMetaEntry -> S * kresult KLogMetaEntry;
  ss_delete_meta : S -> string -> S * kresult (option KLogMetaEntry);
  ss_get_meta : S -> string -> kresult (option KLogMetaEntry);
  ss_list_meta : S -> option string -> nat -> kresult (list KLogMetaEntry);
  ss_build_snapshot : S -> kresult Bytes;
  ss_install_snapshot : S -> Bytes -> S * kresult unit;
  ss_load_next_log_id : S -> kresult (option Z);
  ss_save_next_log_id : S -> Z -> S * kresult unit;
  ss_load_state_machine_meta : S -> kresult (option (KLogStateMachineMeta LogId Membership));
  ss_save_state_machine_meta : S -> KLogStateMachineMeta LogId Membership -> S * kresult unit;
  ss_lookup_recent_request_id : S -> string -> Z -> S * kresult (option Z)
}.

(** The revision a put gives to a key. *)
Definition put_revision (metas : gmap string KLogMetaEntry) (k : string) : Z :=
  match metas !! k with
  | Some m => sat_add64 (revision m) 1
  | None => 1
  end.

(** What a store holds, as its clients see it. *)
Record store_view := { view_logs : list KLogEntry; view_metas : gmap string KLogMetaEntry }.

Definition put_view (v : store_view) (item : KLogMetaEntry) : store_view :=
  {| view_logs := view_logs v;
     view_metas := <[key item := set_meta_revision item (put_revision (view_metas v) (key item))]>
                     (view_metas v) |}.

Class KLogStateStoreLaws {LogId Membership Bytes S} (St : KLogStateStore LogId Membership Bytes S) := {
  ss_view : S -> store_view;
  law_append : forall s now es s' r, ss_append s now es = (s', r) ->
    ss_view s' = match r with
                 | inr _ => {| view_logs := view_logs (ss_view s) ++ es;
                               view_metas := view_metas (ss_view s) |}
                 | inl _ => ss_view s
                 end;
  law_put_meta : forall s item s' r, ss_put_meta s item = (s', r) ->
    match r with
    | inr st => st = set_meta_revision item (put_revision (view_metas (ss_view s)) (key item)) /\
                ss_view s' = put_view (ss_view s) item
    | inl _ => ss_view s' = ss_view s
    end;
  law_delete_meta : forall s k s' r, ss_delete_meta s k = (s', r) ->
    match r with
    | inr o => o = view_metas (ss_view s) !! k /\
               ss_view s' = {| view_logs := view_logs (ss_view s);
                               view_metas := delete k (view_metas (ss_view s)) |}
    | inl _ => ss_view s' = ss_view s
    end;
  law_get_meta : forall s k o, ss_get_meta s k = inr o -> o = view_metas (ss_view s) !! k;
  law_save_next : forall s n s' r, ss_save_next_log_id s n = (s', r) -> ss_view s' = ss_view s;
  law_save_meta : forall s m s' r, ss_save_state_machine_meta s m = (s', r) -> ss_view s' = ss_view s;
  law_lookup : forall s rid now s' r, ss_lookup_recent_request_id s rid now = (s', r) ->
    ss_view s' = ss_view s
}.
