(* ===== verification/KLogDedup.v ===== *)
(** The cache of recent request ids ([RequestDedupCache] of
    [kernel/klog/src/state_store/store.rs]; [RequestDedupIndex] of
    [memory.rs] is the same code): the records, and a queue of when each was
    made that drives expiry and the bound on the number of records. *)
From Stdlib Require Import ZArith Lia Ascii Sorted.
From stdpp Require Import base tactics numbers gmap strings sorting list.
From S2P Require Import Prelude RustString.

Definition REQUEST_DEDUP_WINDOW_MS : Z := 5 * 60 * 1000.
Definition REQUEST_DEDUP_MAX_ITEMS : Z := 10000.

Record RequestDedupRecord := { log_id : Z; seen_at_ms : Z }.

Record RequestDedupCache := {
  records : gmap string RequestDedupRecord;
  order : list (Z * string)
}.

Definition empty_cache : RequestDedupCache := {| records := ∅; order := [] |}.

(** The loop pops the front of the queue until it is fresh and the records are
    within the bound; it ends because every round pops. *)
Fixpoint cleanup_go (now_ms : Z) (records : gmap string RequestDedupRecord) (order : list (Z * string))
  : RequestDedupCache :=
  match order with
  | [] => {| records := records; order := [] |}
  | (seen_at, request_id) :: rest =>
    let expired := REQUEST_DEDUP_WINDOW_MS <? sat_sub now_ms seen_at in
    if expired || (REQUEST_DEDUP_MAX_ITEMS <? Z.of_nat (size records)) then
      let remove := match records !! request_id with
                    | Some v => seen_at_ms v =? seen_at
                    | None => false
                    end in
      cleanup_go now_ms (if remove then delete request_id records else records) rest
    else {| records := records; order := order |}
  end.

Definition cleanup (c : RequestDedupCache) (now_ms : Z) : RequestDedupCache :=
  cleanup_go now_ms (records c) (order c).

Definition dedup_lookup (c : RequestDedupCache) (request_id : string) (now_ms : Z)
  : RequestDedupCache * option Z :=
  let c := cleanup c now_ms in
  (c, log_id <$> records c !! request_id).

Definition remember (c : RequestDedupCache) (request_id : string) (log_id now_ms : Z)
  : RequestDedupCache :=
  let c := cleanup c now_ms in
  let c := {| records := <[request_id := {| log_id := log_id; seen_at_ms := now_ms |}]> (records c);
              order := order c ++ [(now_ms, request_id)] |} in
  cleanup c now_ms.

Definition dedup_clear (c : RequestDedupCache) : RequestDedupCache := empty_cache.

(** Remember a batch of requests at one time. *)
Definition remember_all (c : RequestDedupCache) (pairs : list (string * Z)) (now_ms : Z)
  : RequestDedupCache :=
  fold_left (fun c p => remember c p.1 p.2 now_ms) pairs c.

(** ** The abstract view *)

(** The history of a cache, newest first: request, log id, time. *)
Abbreviation history := (list (string * Z * Z)).

Fixpoint latest (h : history) (r : string) : option (Z * Z) :=
  match h with
  | [] => None
  | (r', i, t) :: h => if decide (r' = r) then Some (i, t) else latest h r
  end.

(** The cache [c] at a time not before [now] stands for the history [h]. *)
Record cache_repr (h : history) (now : Z) (c : RequestDedupCache) : Prop := {
  repr_sound : forall r v, records c !! r = Some v -> latest h r = Some (log_id v, seen_at_ms v);
  repr_backed : forall r v, records c !! r = Some v -> (seen_at_ms v, r) ∈ order c;
  repr_sorted : StronglySorted (fun x y : Z * string => x.1 <= y.1) (order c);
  repr_time : Forall (fun x : Z * string => x.1 <= now) (order c);
  repr_length : (length (order c) <= length h)%nat;
  repr_complete : Z.of_nat (length h) <= REQUEST_DEDUP_MAX_ITEMS ->
    forall r i t, latest h r = Some (i, t) -> now - t <= REQUEST_DEDUP_WINDOW_MS ->
      is_Some (records c !! r)
}.

(** Every record is backed by a place in the queue, so there are no more
    records than places. *)
Lemma backed_size (recs : gmap string RequestDedupRecord) (ord : list (Z * string)) :
  (forall r v, recs !! r = Some v -> (seen_at_ms v, r) ∈ ord) -> (size recs <= length ord)%nat.
Proof.
  intros Hb. rewrite <- length_map_to_list, <- (length_fmap fst), <- (length_fmap snd ord).
  apply submseteq_length, NoDup_submseteq; [apply NoDup_fst_map_to_list|].
  intros r ([r' v] & -> & Hv%elem_of_map_to_list)%list_elem_of_fmap.
  apply list_elem_of_fmap. exists (seen_at_ms v, r'). split; [done|]. by apply Hb.
Qed.

Lemma repr_later h now now' c : now <= now' -> cache_repr h now c -> cache_repr h now' c.
Proof.
  intros Hle [H1 H2 H3 H4 H5 H6]. split; [done..| |done|].
  - eapply Forall_impl; [exact H4|]. simpl. lia.
  - intros Hl r i t Hr Ht. eapply H6; [done..|]. lia.
Qed.

(** One round of the cleanup loop. *)
Lemma repr_pop h now recs t r rest :
  cache_repr h now {| records := recs; order := (t, r) :: rest |} ->
  (REQUEST_DEDUP_WINDOW_MS <? sat_sub now t) || (REQUEST_DEDUP_MAX_ITEMS <? Z.of_nat (size recs)) = true ->
  cache_repr h now
    {| records := if match recs !! r with Some v => seen_at_ms v =? t | None => false end
                  then delete r recs else recs;
       order := rest |}.
Proof.
  intros [H1 H2 H3 H4 H5 H6] Hpop; simpl in *.
  set (recs' := if match recs !! r with Some v => seen_at_ms v =? t | None => false end then delete r recs else recs).
  assert (Hsub : forall r' v, recs' !! r' = Some v ->
                   recs !! r' = Some v /\ ~ (r' = r /\ seen_at_ms v = t)).
  { intros r' v. unfold recs'. destruct (recs !! r) as [v0|] eqn:E0.
    - destruct (Z.eqb_spec (seen_at_ms v0) t).
      + intros [? ?]%lookup_delete_Some. split; [done|]. naive_solver.
      + intros ?. split; [done|]. intros [-> ?]. congruence.
    - intros ?. split; [done|]. intros [-> ?]. congruence. }
  inversion_clear H3. inversion_clear H4. split; simpl; [| |done..|lia|].
  - intros r' v [? _]%Hsub. by apply H1.
  - intros r' v [Hv Hne]%Hsub. specialize (H2 r' v Hv). apply elem_of_cons in H2 as [[= <- <-]|]; naive_solver.
  - intros Hlen r' i t' Hr' Ht'. destruct (H6 Hlen r' i t' Hr' Ht') as [v Hv].
    assert (Hexp : REQUEST_DEDUP_WINDOW_MS < now - t).
    { apply orb_true_iff in Hpop as [Hp|Hp]; apply Z.ltb_lt in Hp; [unfold sat_sub in Hp|].
      - assert (0 <= REQUEST_DEDUP_WINDOW_MS) by done. lia.
      - pose proof (backed_size recs ((t, r) :: rest) H2) as Hs. simpl in Hs. lia. }
    unfold recs'. destruct (recs !! r) as [v0|] eqn:E0; [|by exists v].
    destruct (Z.eqb_spec (seen_at_ms v0) t) as [E|]; [|by exists v].
    rewrite lookup_delete_ne; [by exists v|]. intros <-.
    rewrite E0 in Hv. injection Hv as ->. rewrite (H1 r v E0) in Hr'. injection Hr' as <- <-. lia.
Qed.

Lemma repr_cleanup_go h now recs ord :
  cache_repr h now {| records := recs; order := ord |} -> cache_repr h now (cleanup_go now recs ord).
Proof.
  revert recs. induction ord as [|[t r] rest IH]; intros recs Hr; cbn [cleanup_go]; [done|].
  destruct (_ || _) eqn:E; [|done]. apply IH. by apply repr_pop.
Qed.

Lemma repr_cleanup h now now' c :
  now <= now' -> cache_repr h now c -> cache_repr h now' (cleanup c now').
Proof. intros Hle Hr. apply repr_cleanup_go. destruct c. by eapply repr_later. Qed.

(** After a cleanup the queue is fresh and the records are within the bound. *)
Lemma cleanup_fresh now recs ord :
  match order (cleanup_go now recs ord) with
  | [] => True
  | (t, _) :: _ => sat_sub now t <= REQUEST_DEDUP_WINDOW_MS /\
                   Z.of_nat (size (records (cleanup_go now recs ord))) <= REQUEST_DEDUP_MAX_ITEMS
  end.
Proof.
  revert recs. induction ord as [|[t r] rest IH]; intros recs; cbn [cleanup_go order records]; [done|].
  destruct (_ || _) eqn:E; [apply IH|]. simpl. apply orb_false_iff in E as [E1 E2].
  apply Z.ltb_ge in E1, E2. done.
Qed.

Lemma cleanup_window h now c r v :
  cache_repr h now (cleanup c now) -> records (cleanup c now) !! r = Some v ->
  now - seen_at_ms v <= REQUEST_DEDUP_WINDOW_MS.
Proof.
  intros Hr Hv. pose proof (cleanup_fresh now (records c) (order c)) as Hf. fold (cleanup c now) in Hf.
  pose proof (repr_backed _ _ _ Hr r v Hv) as Hin. pose proof (repr_sorted _ _ _ Hr) as Hs.
  destruct (order (cleanup c now)) as [|[t r'] rest]; [set_solver|].
  unfold sat_sub in Hf. inversion_clear Hs as [|? ? _ Hall]. rewrite Forall_forall in Hall.
  apply elem_of_cons in Hin as [[= -> ->]|Hin]; [lia|]. specialize (Hall _ Hin). simpl in Hall. lia.
Qed.

Lemma repr_remember h now now' c r i :
  now <= now' -> cache_repr h now c -> cache_repr ((r, i, now') :: h) now' (remember c r i now').
Proof.
  intros Hle Hr. apply (repr_cleanup h now now' c Hle) in Hr. unfold remember.
  apply repr_cleanup_go. destruct Hr as [H1 H2 H3 H4 H5 H6]. split; simpl.
  - intros r' v. rewrite lookup_insert. case_decide as E; [by intros [= <-]|].
    by apply H1.
  - intros r' v. rewrite lookup_insert. case_decide as E; [intros [= <-]; subst; set_solver|].
    intros Hv. apply elem_of_app. left. by apply H2.
  - clear H1 H2 H5 H6. induction H3 as [|x l Hl IH Hx]; simpl; [repeat constructor|].
    inversion_clear H4. constructor; [auto|]. apply Forall_app. split; [done|]. by constructor.
  - apply Forall_app. split; [done|]. by constructor.
  - rewrite length_app. simpl. lia.
  - intros Hl r' i' t' Hr' Ht'. rewrite lookup_insert. case_decide as E; [by eexists|].
    by eapply H6; [lia|..].
Qed.

Lemma repr_empty now : cache_repr [] now empty_cache.
Proof. split; simpl; try done; constructor. Qed.

(** ** Runs of a cache *)

Inductive dedup_op :=
| DRemember (request_id : string) (log_id now_ms : Z)
| DLookup (request_id : string) (now_ms : Z).

Definition op_time (o : dedup_op) : Z :=
  match o with DRemember _ _ t | DLookup _ t => t end.

Definition dedup_step (c : RequestDedupCache) (o : dedup_op) : RequestDedupCache :=
  match o with
  | DRemember r i t => remember c r i t
  | DLookup r t => (dedup_lookup c r t).1
  end.

Definition dedup_run (ops : list dedup_op) : RequestDedupCache := fold_left dedup_step ops empty_cache.

(** What was remembered, newest first. *)
Definition remembered (ops : list dedup_op) : history :=
  rev (omap (fun o => match o with DRemember r i t => Some (r, i, t) | _ => None end) ops).

Lemma repr_run_go ops h now c now' :
  cache_repr h now c -> StronglySorted Z.le (map op_time ops) ->
  Forall (fun t => now <= t <= now') (map op_time ops) -> now <= now' ->
  cache_repr (remembered ops ++ h) now' (fold_left dedup_step ops c).
Proof.
  revert h now c. induction ops as [|o ops IH]; intros h now c Hr Hs Ht Hle; simpl.
  { by eapply repr_later. }
  simpl in Hs, Ht. inversion_clear Hs as [|? ? Hs' Hge]. inversion_clear Ht as [|? ? Ho Ht'].
  assert (Hf : Forall (fun t => op_time o <= t <= now') (map op_time ops)).
  { rewrite Forall_forall in Hge, Ht' |- *. intros t Hin. split; [by apply Hge|by apply Ht']. }
  destruct o as [r i t|r t]; cbn [dedup_step op_time] in *.
  - unfold remembered. csimpl. rewrite <- app_assoc. apply (IH _ t); [|done..|lia].
    by eapply repr_remember; [|done]; lia.
  - unfold remembered. csimpl. apply (IH _ t); [|done..|lia]. unfold dedup_lookup. simpl.
    by eapply repr_cleanup; [|done]; lia.
Qed.
