(* ===== verification/KLogMemory.v ===== *)
(** The in-memory state store ([kernel/klog/src/state_store/memory.rs]): the
    entries, the metadata map, the next id, the state machine metadata and the
    request index.  Each operation of the code takes its locks one after the
    other; the raft state machine calls them one at a time, which is how they
    are modelled.  The binary encoding of snapshots is a parameter. *)
From Stdlib Require Import ZArith Lia Ascii Sorted.
From stdpp Require Import base tactics numbers gmap strings sorting list.
From S2P Require Import Prelude RustString KLogTypes KLogDedup.

(** [RequestDedupIndex]: the code of [RequestDedupCache] once more. *)
Abbreviation RequestDedupIndex := RequestDedupCache.
Definition index_lookup (c : RequestDedupIndex) (request_id : string) (now_ms : Z)
  : RequestDedupIndex * option Z := dedup_lookup c request_id now_ms.
Definition index_remember (c : RequestDedupIndex) (request_id : string) (log_id now_ms : Z)
  : RequestDedupIndex := remember c request_id log_id now_ms.
Definition index_clear (c : RequestDedupIndex) : RequestDedupIndex := empty_cache.
Definition index_cleanup (c : RequestDedupIndex) (now_ms : Z) : RequestDedupIndex := cleanup c now_ms.

(** [v.trim()] of an optional text, when something is left. *)
Definition trimmed (o : option string) : option string := normalize o.

(** [filter.map(test).unwrap_or(true)] *)
Definition opt_test {A} (o : option A) (p : A -> bool) : bool :=
  match o with Some a => p a | None => true end.

(** The filter of [query] on one entry. *)
Definition query_match (q : KLogQuery) (e : KLogEntry) : bool :=
  opt_test (start_id q) (fun start => start <=? id e) &&
  opt_test (end_id q) (fun last => id e <=? last) &&
  opt_test (query_level q) (fun l => bool_decide (level e = l)) &&
  opt_test (trimmed (query_source q))
    (fun s => match trimmed (source e) with Some v => String.eqb v s | None => false end) &&
  opt_test (trimmed (attr_key q))
    (fun k => match attrs e !! k with
              | Some v => opt_test (trimmed (attr_value q)) (fun expect => String.eqb v expect)
              | None => false
              end).

(** The loop of [list_meta]: it stops as soon as [limit] entries are out. *)
Fixpoint list_meta_go (metas : gmap string KLogMetaEntry) (prefix : option string) (limit : nat)
    (out : list KLogMetaEntry) (keys : list string) : list KLogMetaEntry :=
  match keys with
  | [] => out
  | k :: keys =>
    if opt_test prefix (fun p => starts_with p k) then
      match metas !! k with
      | Some item =>
        let out := out ++ [item] in
        if Nat.leb limit (length out) then out else list_meta_go metas prefix limit out keys
      | None => list_meta_go metas prefix limit out keys
      end
    else list_meta_go metas prefix limit out keys
  end.

Section memory.
Context {LogId Membership Bytes : Type}.
(** [bincode]: the encoding of a snapshot and its decoding, in the current and
    in the old form. *)
Context (encode : KLogStateSnapshotData -> string + Bytes)
        (decode : Bytes -> option KLogStateSnapshotData)
        (decode_old : Bytes -> string + list KLogEntry).
Context `{HashOrder}.

Record MemoryStateStore := {
  logs : list KLogEntry;
  metas : gmap string KLogMetaEntry;
  next_log_id : Z;
  state_machine_meta : option (KLogStateMachineMeta LogId Membership);
  request_dedup : RequestDedupIndex
}.

Definition new : MemoryStateStore :=
  {| logs := []; metas := ∅; next_log_id := 1; state_machine_meta := None;
     request_dedup := empty_cache |}.

(** The compare-and-exchange loop raises the counter to the candidate. *)
Definition append (s : MemoryStateStore) (now_ms : Z) (entries : list KLogEntry)
  : MemoryStateStore * kresult unit :=
  let pairs := request_id_pairs entries in
  let candidate_next := max_next 0 entries in
  ({| logs := logs s ++ entries;
      metas := metas s;
      next_log_id := if (0 <? candidate_next) && (next_log_id s <? candidate_next)
                     then candidate_next else next_log_id s;
      state_machine_meta := state_machine_meta s;
      request_dedup := remember_all (request_dedup s) pairs now_ms |}, inr ()).

Definition query (s : MemoryStateStore) (q : KLogQuery) : kresult (list KLogEntry) :=
  match trimmed (attr_key q), trimmed (attr_value q) with
  | None, Some _ => inr []
  | _, _ =>
    let entries := List.filter (query_match q) (logs s) in
    let entries := sort_stable (fun x y => id x <=? id y) entries in
    let entries := if decide (query_order q = Desc) then rev entries else entries in
    inr (take (limit q) entries)
  end.

Definition put_meta (s : MemoryStateStore) (item : KLogMetaEntry)
  : MemoryStateStore * kresult KLogMetaEntry :=
  let next_revision := match metas s !! key item with
                       | Some v => sat_add64 (revision v) 1
                       | None => 1
                       end in
  let stored := set_meta_revision item next_revision in
  ({| logs := logs s; metas := <[key item := stored]> (metas s); next_log_id := next_log_id s;
      state_machine_meta := state_machine_meta s; request_dedup := request_dedup s |}, inr stored).

Definition delete_meta (s : MemoryStateStore) (k : string)
  : MemoryStateStore * kresult (option KLogMetaEntry) :=
  ({| logs := logs s; metas := delete k (metas s); next_log_id := next_log_id s;
      state_machine_meta := state_machine_meta s; request_dedup := request_dedup s |},
   inr (metas s !! k)).

Definition get_meta (s : MemoryStateStore) (k : string) : kresult (option KLogMetaEntry) :=
  inr (metas s !! k).

Definition list_meta (s : MemoryStateStore) (prefix : option string) (limit : nat)
  : kresult (list KLogMetaEntry) :=
  match limit with
  | O => inr []
  | _ => inr (list_meta_go (metas s) (normalize prefix) limit []
                (sort_stable string_leb (keys (metas s))))
  end.

Definition build_snapshot (s : MemoryStateStore) : kresult Bytes :=
  let data := {| entries := logs s;
                 meta_entries := sort_stable (fun a b => string_leb (key a) (key b)) (values (metas s)) |} in
  match encode data with
  | inr bytes => inr bytes
  | inl e => inl (InvalidFormat ("Failed to serialize logs for snapshot: " +:+ e))
  end.

Definition decode_snapshot_data (data : Bytes) : kresult KLogStateSnapshotData :=
  match decode data with
  | Some d => inr d
  | None =>
    match decode_old data with
    | inr es => inr {| entries := es; meta_entries := [] |}
    | inl e => inl (InvalidFormat ("Failed to decode state snapshot: " +:+ e))
    end
  end.

Definition install_snapshot (s : MemoryStateStore) (snapshot : Bytes) : MemoryStateStore * kresult unit :=
  match decode_snapshot_data snapshot with
  | inl e => (s, inl e)
  | inr d =>
    ({| logs := entries d;
        metas := fold_left (fun m item => <[key item := item]> m) (meta_entries d) ∅;
        next_log_id := max_next 1 (entries d);
        state_machine_meta := state_machine_meta s;
        request_dedup := index_clear (request_dedup s) |}, inr ())
  end.

Definition load_next_log_id (s : MemoryStateStore) : kresult (option Z) := inr (Some (next_log_id s)).

Definition save_next_log_id (s : MemoryStateStore) (n : Z) : MemoryStateStore * kresult unit :=
  ({| logs := logs s; metas := metas s; next_log_id := n;
      state_machine_meta := state_machine_meta s; request_dedup := request_dedup s |}, inr ()).

Definition load_state_machine_meta (s : MemoryStateStore)
  : kresult (option (KLogStateMachineMeta LogId Membership)) := inr (state_machine_meta s).

Definition save_state_machine_meta (s : MemoryStateStore) (m : KLogStateMachineMeta LogId Membership)
  : MemoryStateStore * kresult unit :=
  ({| logs := logs s; metas := metas s; next_log_id := next_log_id s;
      state_machine_meta := Some m; request_dedup := request_dedup s |}, inr ()).

Definition lookup_recent_request_id (s : MemoryStateStore) (request_id : string) (now_ms : Z)
  : MemoryStateStore * kresult (option Z) :=
  match normalize_request_id (Some request_id) with
  | None => (s, inr None)
  | Some r =>
    let (dedup, o) := index_lookup (request_dedup s) r now_ms in
    ({| logs := logs s; metas := metas s; next_log_id := next_log_id s;
        state_machine_meta := state_machine_meta s; request_dedup := dedup |}, inr o)
  end.

#[export] Instance memory_store : KLogStateStore LogId Membership Bytes MemoryStateStore := {
  ss_append := append;
  ss_query := query;
  ss_put_meta := put_meta;
  ss_delete_meta := delete_meta;
  ss_get_meta := get_meta;
  ss_list_meta := list_meta;
  ss_build_snapshot := build_snapshot;
  ss_install_snapshot := install_snapshot;
  ss_load_next_log_id := load_next_log_id;
  ss_save_next_log_id := save_next_log_id;
  ss_load_state_machine_meta := load_state_machine_meta;
  ss_save_state_machine_meta := save_state_machine_meta;
  ss_lookup_recent_request_id := lookup_recent_request_id
}.

(** ** The memory store keeps the promises of a state store *)

Definition memory_view (s : MemoryStateStore) : store_view :=
  {| view_logs := logs s; view_metas := metas s |}.

#[export] Instance memory_store_laws : KLogStateStoreLaws memory_store.
Proof using Type.
  refine {| ss_view := memory_view |}; cbn [memory_store ss_append ss_put_meta ss_delete_meta ss_get_meta
    ss_save_next_log_id ss_save_state_machine_meta ss_lookup_recent_request_id].
  - by intros s now es s' r [= <- <-].
  - by intros s item s' r [= <- <-].
  - by intros s k s' r [= <- <-].
  - by intros s k o [= <-].
  - by intros s n s' r [= <- <-].
  - by intros s m s' r [= <- <-].
  - intros s rid now s' r. unfold lookup_recent_request_id.
    destruct (normalize_request_id (Some rid)); [|by intros [= <- <-]].
    unfold index_lookup, dedup_lookup. by intros [= <- <-].
Defined.
End memory.

Arguments MemoryStateStore _ _ : clear implicits.
