(* ===== verification/KLogManager.v ===== *)
(** The state store manager ([KLogStateStoreManager] of
    [kernel/klog/src/state_store/store.rs]) over any state store, and the raft
    state machine above it ([kernel/klog/src/state_machine/machine.rs]).

    A call that reads the clock takes its readings from [clk], the first one
    at [clk 0].  [apply] runs its requests one after the other; the atomic
    counter and the locks of the manager make each operation one step. *)
From Stdlib Require Import ZArith Lia Ascii Sorted.
From stdpp Require Import base tactics numbers gmap strings sorting list.
From S2P Require Import Prelude RustString KLogTypes KLogDedup.

Abbreviation clock := (nat -> Z).

Section manager.
Context {LogId Mem Membership Bytes S : Type} `{St : KLogStateStore LogId Membership Bytes S}.

Record KLogStateStoreManager := {
  state_store : S;
  mgr_next_log_id : Z;
  mgr_dedup : RequestDedupCache
}.

Implicit Types (m : KLogStateStoreManager).

Definition with_store m (s : S) : KLogStateStoreManager :=
  {| state_store := s; mgr_next_log_id := mgr_next_log_id m; mgr_dedup := mgr_dedup m |}.
Definition with_dedup m (c : RequestDedupCache) : KLogStateStoreManager :=
  {| state_store := state_store m; mgr_next_log_id := mgr_next_log_id m; mgr_dedup := c |}.
Definition with_next m (n : Z) : KLogStateStoreManager :=
  {| state_store := state_store m; mgr_next_log_id := n; mgr_dedup := mgr_dedup m |}.

Definition manager_new (s : S) : kresult KLogStateStoreManager :=
  match ss_load_next_log_id s with
  | inl e => inl e
  | inr o => inr {| state_store := s; mgr_next_log_id := default 1 o; mgr_dedup := empty_cache |}
  end.

Definition advance_next_log_id m (candidate_next : Z) : KLogStateStoreManager * kresult unit :=
  if candidate_next =? 0 then (m, inr ())
  else if mgr_next_log_id m <? candidate_next then
    let m := with_next m candidate_next in
    let (s, r) := ss_save_next_log_id (state_store m) candidate_next in
    (with_store m s, r)
  else (m, inr ()).

Definition remember_request_ids m (pairs : list (string * Z)) (now_ms : Z) : KLogStateStoreManager :=
  with_dedup m (remember_all (mgr_dedup m) pairs now_ms).

(** [clk 0]: the reading of the store's [append]; [clk 1]: of the manager. *)
Definition mgr_append m (clk : clock) (entries : list KLogEntry) : KLogStateStoreManager * kresult unit :=
  let pairs := request_id_pairs entries in
  let committed_next := max_next 0 entries in
  let (s, r) := ss_append (state_store m) (clk 0%nat) entries in
  let m := with_store m s in
  match r with
  | inl e => (m, inl e)
  | inr _ =>
    let (m, r) := advance_next_log_id m committed_next in
    match r with
    | inl e => (m, inl e)
    | inr _ => (remember_request_ids m pairs (clk 1%nat), inr ())
    end
  end.

(** [fetch_add] wraps around. *)
Definition alloc_log_id m : KLogStateStoreManager * Z :=
  (with_next m ((mgr_next_log_id m + 1) mod (u64_max + 1)), mgr_next_log_id m).

Definition peek_next_log_id m : Z := mgr_next_log_id m.

Definition prepare_append_entry m (item : KLogEntry) : KLogStateStoreManager * KLogEntry :=
  if id item =? 0 then
    let (m, i) := alloc_log_id m in (m, set_entry_id item i)
  else (m, item).

Definition find_recent_request_id m (request_id : string) (now_ms : Z)
  : KLogStateStoreManager * option Z :=
  match normalize_request_id (Some request_id) with
  | None => (m, None)
  | Some r =>
    let (c, o) := dedup_lookup (mgr_dedup m) r now_ms in
    let m := with_dedup m c in
    match o with
    | Some i => (m, Some i)
    | None =>
      let (s, res) := ss_lookup_recent_request_id (state_store m) r now_ms in
      let m := with_store m s in
      match res with
      | inr (Some i) => (with_dedup m (remember (mgr_dedup m) r i now_ms), Some i)
      | inr None => (m, None)
      | inl _ => (m, None)
      end
    end
  end.

(** [clk 0]: the reading of the lookup; then those of [append]. *)
Definition append_prepared_entry m (clk : clock) (item : KLogEntry) : KLogStateStoreManager * kresult Z :=
  let (m, found) := match normalize_request_id (request_id item) with
                    | Some r => find_recent_request_id m r (clk 0%nat)
                    | None => (m, None)
                    end in
  match found with
  | Some existing_id => (m, inr existing_id)
  | None =>
    let (m, r) := mgr_append m (fun n => clk (Datatypes.S n)) [item] in
    match r with
    | inl e => (m, inl e)
    | inr _ => (m, inr (id item))
    end
  end.

Definition mgr_build_snapshot m : kresult Bytes := ss_build_snapshot (state_store m).
Definition query_entries m (q : KLogQuery) : kresult (list KLogEntry) := ss_query (state_store m) q.

Definition put_meta_entry m (item : KLogMetaEntry) : KLogStateStoreManager * kresult KLogMetaEntry :=
  let (s, r) := ss_put_meta (state_store m) item in (with_store m s, r).

(** The check of [put_meta_entry_with_expected_revision]: expecting revision 0
    is expecting that there is no entry. *)
Definition revision_matches (expected : Z) (current : option KLogMetaEntry) : bool :=
  if expected =? 0 then match current with None => true | Some _ => false end
  else match current with Some v => revision v =? expected | None => false end.

Definition put_meta_entry_with_expected_revision m (item : KLogMetaEntry) (expected : option Z)
  : KLogStateStoreManager * kresult KLogMetaPutResult :=
  let put m :=
    let (m, r) := put_meta_entry m item in
    (m, match r with inl e => inl e | inr st => inr (Stored st) end) in
  match expected with
  | None => put m
  | Some exp =>
    match ss_get_meta (state_store m) (key item) with
    | inl e => (m, inl e)
    | inr current =>
      if revision_matches exp current then put m
      else (m, inr (VersionConflict exp (revision <$> current)))
    end
  end.

Definition delete_meta_key m (k : string) : KLogStateStoreManager * kresult (option KLogMetaEntry) :=
  let (s, r) := ss_delete_meta (state_store m) k in (with_store m s, r).
Definition get_meta_entry m (k : string) : kresult (option KLogMetaEntry) := ss_get_meta (state_store m) k.
Definition list_meta_entries m (prefix : option string) (limit : nat) : kresult (list KLogMetaEntry) :=
  ss_list_meta (state_store m) prefix limit.

Definition mgr_install_snapshot m (snapshot : Bytes) : KLogStateStoreManager * kresult unit :=
  let (s, r) := ss_install_snapshot (state_store m) snapshot in
  let m := with_store m s in
  match r with
  | inl e => (m, inl e)
  | inr _ =>
    match ss_load_next_log_id (state_store m) with
    | inl e => (m, inl e)
    | inr o => (with_dedup (with_next m (default 1 o)) empty_cache, inr ())
    end
  end.

(** ** The raft state machine *)

(** [EntryPayload] and [Entry] of the raft library. *)
Inductive EntryPayload :=
| Blank
| Normal (req : KLogRequest)
| MembershipPayload (mem : Mem).

Record Entry := { entry_log_id : LogId; payload : EntryPayload }.

(** [StateMachineData] with the manager below it. *)
Record KLogStateMachine := {
  sm_last_applied : option LogId;
  sm_membership : Membership;
  sm_store : KLogStateStoreManager
}.

(** [StoredMembership::new(Some(log_id), mem)] *)
Context (stored_membership : LogId -> Mem -> Membership).

Definition state_machine_new m (default_membership : Membership) : kresult KLogStateMachine :=
  match ss_load_state_machine_meta (state_store m) with
  | inl e => inl e
  | inr (Some meta) => inr {| sm_last_applied := last_applied_log_id meta;
                              sm_membership := last_membership meta; sm_store := m |}
  | inr None => inr {| sm_last_applied := None; sm_membership := default_membership; sm_store := m |}
  end.

Definition error_text (e : KLogError) : string :=
  match e with InvalidFormat m => "Invalid format: " +:+ m end.

Definition process_request m (clk : clock) (req : KLogRequest) : KLogStateStoreManager * KLogResponse :=
  match req with
  | AppendLog item =>
    let (m, r) := append_prepared_entry m clk item in
    (m, match r with inr i => AppendOk i | inl e => RespErr (error_text e) end)
  | PutMeta item expected =>
    let (m, r) := put_meta_entry_with_expected_revision m item expected in
    (m, match r with
        | inr (Stored st) => MetaPutOk (key item) (revision st)
        | inr (VersionConflict exp cur) => MetaPutConflict (key item) exp cur
        | inl e => RespErr (error_text e)
        end)
  | DeleteMeta k =>
    let (m, r) := delete_meta_key m k in
    (m, match r with
        | inr prev => MetaDeleteOk k (match prev with Some _ => true | None => false end) prev
        | inl e => RespErr (error_text e)
        end)
  end.

(** One round of the loop of [apply]. *)
Definition apply_entry (sm : KLogStateMachine) (clk : clock) (e : Entry)
  : KLogStateMachine * KLogResponse :=
  let sm := {| sm_last_applied := Some (entry_log_id e); sm_membership := sm_membership sm;
               sm_store := sm_store sm |} in
  match payload e with
  | Blank => (sm, RespEmpty)
  | Normal req =>
    let (m, resp) := process_request (sm_store sm) clk req in
    ({| sm_last_applied := sm_last_applied sm; sm_membership := sm_membership sm; sm_store := m |}, resp)
  | MembershipPayload mem =>
    ({| sm_last_applied := sm_last_applied sm;
        sm_membership := stored_membership (entry_log_id e) mem;
        sm_store := sm_store sm |}, RespEmpty)
  end.

(** The loop; the clock readings of the [i]-th entry are [clks i]. *)
Fixpoint apply_entries (sm : KLogStateMachine) (clks : nat -> clock) (l : list Entry)
  : KLogStateMachine * list KLogResponse :=
  match l with
  | [] => (sm, [])
  | e :: l =>
    let (sm, resp) := apply_entry sm (clks 0%nat) e in
    let (sm, resps) := apply_entries sm (fun n => clks (Datatypes.S n)) l in
    (sm, resp :: resps)
  end.

Definition persist_state_machine_meta (sm : KLogStateMachine) : KLogStateMachine * kresult unit :=
  let (s, r) := ss_save_state_machine_meta (state_store (sm_store sm))
                  {| last_applied_log_id := sm_last_applied sm; last_membership := sm_membership sm |} in
  ({| sm_last_applied := sm_last_applied sm; sm_membership := sm_membership sm;
      sm_store := with_store (sm_store sm) s |}, r).

Definition apply (sm : KLogStateMachine) (clks : nat -> clock) (l : list Entry)
  : KLogStateMachine * kresult (list KLogResponse) :=
  let (sm, resps) := apply_entries sm clks l in
  let (sm, r) := persist_state_machine_meta sm in
  (sm, match r with inl e => inl e | inr _ => inr resps end).

Definition applied_state (sm : KLogStateMachine) : option LogId * Membership :=
  (sm_last_applied sm, sm_membership sm).

(** [install_snapshot] once the file is read: the store first, then the
    persisted metadata, then the data in memory. *)
Definition sm_install_snapshot (sm : KLogStateMachine) (last : option LogId) (mem : Membership)
    (klog_data : Bytes) : KLogStateMachine * kresult unit :=
  let (m, r) := mgr_install_snapshot (sm_store sm) klog_data in
  let sm := {| sm_last_applied := sm_last_applied sm; sm_membership := sm_membership sm; sm_store := m |} in
  match r with
  | inl e => (sm, inl e)
  | inr _ =>
    let (s, r) := ss_save_state_machine_meta (state_store m)
                    {| last_applied_log_id := last; last_membership := mem |} in
    let m := with_store m s in
    match r with
    | inl e => ({| sm_last_applied := sm_last_applied sm; sm_membership := sm_membership sm; sm_store := m |}, inl e)
    | inr _ => ({| sm_last_applied := last; sm_membership := mem; sm_store := m |}, inr ())
    end
  end.
End manager.

Arguments KLogStateStoreManager _ : clear implicits.
Arguments KLogStateMachine _ _ _ : clear implicits.
Arguments EntryPayload _ : clear implicits.
Arguments Entry _ _ : clear implicits.
