(* ===== verification/KLogFacts.v ===== *)
(** Facts about the manager and the state machine of the log service, for any
    state store that keeps the promises of the interface; last its log ids: along
    any run, an id allocated on the leader is new to the store, and ids come out
    in strictly increasing order. *)
From Stdlib Require Import ZArith Lia Ascii Sorted.
From stdpp Require Import base tactics numbers gmap strings sorting list.
From S2P Require Import Prelude RustString KLogTypes KLogDedup KLogManager.

Lemma normalize_idemp r r' : normalize r = Some r' -> normalize (Some r') = Some r'.
Proof.
  unfold normalize. destruct r as [s|]; [|done].
  destruct (String.eqb_spec (trim s) "") as [E|E]; [done|]. intros [= <-].
  rewrite trim_idemp. by destruct (String.eqb_spec (trim s) "").
Qed.

(** The request ids of the entries, in order. *)
Definition entry_requests (l : list KLogEntry) : list string :=
  omap (fun e => normalize_request_id (request_id e)) l.

Section facts.
Context {LogId Mem Membership Bytes S : Type} `{St : KLogStateStore LogId Membership Bytes S}.
Context {Laws : KLogStateStoreLaws St}.
Context (stored_membership : LogId -> Mem -> Membership).
Implicit Types (m : KLogStateStoreManager S).

Definition mgr_logs m : list KLogEntry := view_logs (ss_view (state_store m)).
Definition mgr_metas m : gmap string KLogMetaEntry := view_metas (ss_view (state_store m)).

Lemma advance_view m c m' r :
  advance_next_log_id m c = (m', r) ->
  ss_view (state_store m') = ss_view (state_store m) /\ mgr_dedup m' = mgr_dedup m.
Proof using Laws.
  unfold advance_next_log_id. destruct (c =? 0); [by intros [= <- <-]|].
  destruct (_ <? c); [|by intros [= <- <-]].
  destruct (ss_save_next_log_id _ _) as [s' r'] eqn:E. intros [= <- <-]. simpl.
  by apply law_save_next in E.
Qed.

(** An [append] of one entry: on success the entry is in the store and its
    request is remembered; the metadata never changes. *)
Lemma mgr_append_one m clk item m' r :
  mgr_append m clk [item] = (m', r) ->
  mgr_metas m' = mgr_metas m /\
  match r with
  | inr _ => mgr_logs m' = mgr_logs m ++ [item] /\
             mgr_dedup m' = match normalize_request_id (request_id item) with
                            | Some rid => remember (mgr_dedup m) rid (id item) (clk 1%nat)
                            | None => mgr_dedup m
                            end
  | inl _ => mgr_logs m' = mgr_logs m \/ mgr_logs m' = mgr_logs m ++ [item]
  end.
Proof using Laws.
  unfold mgr_append, mgr_logs, mgr_metas.
  destruct (ss_append _ _ _) as [s' r0] eqn:Ea. apply law_append in Ea.
  destruct r0 as [e|u].
  { intros [= <- <-]. simpl. rewrite Ea. auto. }
  destruct (advance_next_log_id _ _) as [m1 r1] eqn:Eadv. apply advance_view in Eadv as [Ev Ed].
  simpl in Ev, Ed. rewrite Ea in Ev. destruct r1 as [e|u']; intros [= <- <-]; simpl; rewrite Ev.
  - simpl. auto.
  - simpl. split_and!; [done..|]. unfold remember_all, request_id_pairs. csimpl. rewrite Ed.
    by destruct (normalize_request_id (request_id item)).
Qed.

(** Looking a request up changes neither entries nor metadata. *)
Lemma find_recent_view m rid now m' o :
  find_recent_request_id m rid now = (m', o) -> ss_view (state_store m') = ss_view (state_store m).
Proof using Laws.
  unfold find_recent_request_id. destruct (normalize_request_id _) as [r|]; [|by intros [= <- <-]].
  destruct (dedup_lookup _ _ _) as [c [i|]]; [by intros [= <- <-]|].
  destruct (ss_lookup_recent_request_id _ _ _) as [s' res] eqn:El. apply law_lookup in El.
  by destruct res as [|[|]]; intros [= <- <-]; simpl.
Qed.

(** What a lookup finds is what the cache remembers from then on; when it finds
    nothing the cache is only cleaned up. *)
Lemma find_recent_cache h now m rid now' m' o :
  cache_repr h now (mgr_dedup m) -> now <= now' -> normalize (Some rid) = Some rid ->
  find_recent_request_id m rid now' = (m', o) ->
  exists h', cache_repr h' now' (mgr_dedup m') /\
    match o with
    | Some i => (exists t, latest h rid = Some (i, t)) /\ h' = h \/ h' = (rid, i, now') :: h /\
                 records (cleanup (mgr_dedup m) now') !! rid = None
    | None => h' = h /\ records (cleanup (mgr_dedup m) now') !! rid = None
    end.
Proof using Laws.
  intros Hr Hle Hn. unfold find_recent_request_id, normalize_request_id. rewrite Hn.
  pose proof (repr_cleanup h now now' _ Hle Hr) as Hc. unfold dedup_lookup.
  destruct (records (cleanup (mgr_dedup m) now') !! rid) as [v|] eqn:Ev; simpl.
  - intros [= <- <-]. exists h. split; [done|]. left. split; [|done].
    exists (seen_at_ms v). by apply (repr_sound _ _ _ Hc).
  - destruct (ss_lookup_recent_request_id _ _ _) as [s' res].
    destruct res as [e|[i|]]; intros [= <- <-].
    + exists h. done.
    + exists ((rid, i, now') :: h). split; [|by right]. simpl. by apply (repr_remember h now').
    + exists h. done.
Qed.

(** ** One request of the state machine *)

Definition item_request (req : KLogRequest) : option string :=
  match req with AppendLog item => normalize_request_id (request_id item) | _ => None end.

Definition is_error (resp : KLogResponse) : bool :=
  match resp with RespErr _ => true | _ => false end.

(** The readings of one request are in order. *)
Definition clock_ok (clk : clock) (from until : Z) : Prop :=
  from <= clk 0%nat /\ clk 0%nat <= clk 1%nat /\ clk 1%nat <= clk 2%nat /\ clk 2%nat <= until.

(** What the history of requests keeps from one request to the next. *)
Definition remembers (h h' : history) : Prop :=
  forall r i t, latest h r = Some (i, t) -> latest h' r = Some (i, t).

Lemma latest_in_window h now c t0 :
  cache_repr h now c -> Forall (fun x : string * Z * Z => t0 <= x.2) h ->
  forall r i t, latest h r = Some (i, t) -> t0 <= t.
Proof using Type.
  intros _ Hh r i t. induction Hh as [|[[r' i'] t'] h Ht _ IH]; simpl; [done|].
  case_decide; [by intros [= <- <-]|apply IH].
Qed.

(** The request has an entry in the history that a lookup within the window
    will find. *)
Lemma latest_hit h now c now' t0 r i t :
  cache_repr h now c -> now <= now' -> Forall (fun x : string * Z * Z => t0 <= x.2) h ->
  now' <= t0 + REQUEST_DEDUP_WINDOW_MS -> Z.of_nat (length h) <= REQUEST_DEDUP_MAX_ITEMS ->
  latest h r = Some (i, t) -> exists v, records (cleanup c now') !! r = Some v /\ log_id v = i.
Proof using Type.
  intros Hr Hle Hh Hw Hlen Hl. pose proof (repr_cleanup h now now' c Hle Hr) as Hc.
  pose proof (latest_in_window h now c t0 Hr Hh r i t Hl) as Ht.
  destruct (repr_complete _ _ _ Hc Hlen r i t Hl) as [v Hv]; [lia|]. exists v. split; [done|].
  pose proof (repr_sound _ _ _ Hc r v Hv) as Hs. rewrite Hl in Hs. by injection Hs.
Qed.

Lemma append_prepared_request h now m clk item m' i t0 :
  cache_repr h now (mgr_dedup m) -> clock_ok clk now (t0 + REQUEST_DEDUP_WINDOW_MS) ->
  Forall (fun x : string * Z * Z => t0 <= x.2) h -> t0 <= now ->
  Z.of_nat (length h) <= REQUEST_DEDUP_MAX_ITEMS ->
  append_prepared_entry m clk item = (m', inr i) ->
  exists h' new, cache_repr h' (clk 2%nat) (mgr_dedup m') /\ (length h' <= length h + 1)%nat /\
    Forall (fun x : string * Z * Z => t0 <= x.2) h' /\ remembers h h' /\
    mgr_logs m' = mgr_logs m ++ new /\ mgr_metas m' = mgr_metas m /\
    (new = [] \/ new = [item] /\
       forall r, normalize_request_id (request_id item) = Some r -> latest h r = None) /\
    (forall r, normalize_request_id (request_id item) = Some r -> exists t, latest h' r = Some (i, t)).
Proof using Laws.
  intros Hr (Hc0 & Hc1 & Hc2 & Hc3) Hh Ht0 Hlen. unfold append_prepared_entry.
  destruct (normalize_request_id (request_id item)) as [r|] eqn:Er.
  - destruct (find_recent_request_id m r (clk 0%nat)) as [m1 o] eqn:Ef.
    pose proof (find_recent_view _ _ _ _ _ Ef) as Hv.
    pose proof Er as Hn. apply normalize_idemp in Hn.
    destruct (find_recent_cache h now m r _ m1 o Hr Hc0 Hn Ef) as (h1 & Hr1 & Ho).
    assert (Hnone : records (cleanup (mgr_dedup m) (clk 0%nat)) !! r = None -> latest h r = None).
    { intros Hn'. destruct (latest h r) as [[i' t']|] eqn:El; [|done].
      destruct (latest_hit h now _ (clk 0%nat) t0 r i' t' Hr Hc0 Hh ltac:(lia) Hlen El) as (v & Hv' & _).
      congruence. }
    destruct o as [i'|].
    + intros [= <- <-]. exists h1, []. rewrite app_nil_r. unfold mgr_logs, mgr_metas. rewrite Hv.
      assert (Hr2 : cache_repr h1 (clk 2%nat) (mgr_dedup m1)) by (eapply repr_later; [|exact Hr1]; lia).
      destruct Ho as [[[t Ht] ->]|[-> Hn']].
      * split_and!; [done|lia|done|by intros ???|done|done|by left|].
        intros r' [= <-]. by exists t.
      * split_and!; [done|simpl; lia|constructor; [simpl; lia|done]| |done|done|by left|].
        -- intros r'' i'' t'' Hl. simpl. case_decide as E; [|done]. subst. rewrite Hnone in Hl; done.
        -- intros r' [= <-]. exists (clk 0%nat). simpl. by rewrite decide_True.
    + destruct Ho as [-> Hn'].
      destruct (mgr_append m1 _ [item]) as [m2 res] eqn:Ea.
      destruct (mgr_append_one _ _ _ _ _ Ea) as [Hm2 Hres].
      destruct res as [e|u]; intros [= <- <-]. destruct Hres as [Hl2 Hd2]. rewrite Er in Hd2.
      exists ((r, id item, clk 2%nat) :: h), [item].
      assert (El : mgr_logs m1 = mgr_logs m /\ mgr_metas m1 = mgr_metas m)
        by (unfold mgr_logs, mgr_metas; by rewrite Hv).
      destruct El as [El Em].
      split_and!.
      * rewrite Hd2. apply (repr_remember h (clk 0%nat)); [lia|done].
      * simpl. lia.
      * constructor; [simpl; lia|done].
      * intros r' i' t' Hl. simpl. case_decide as E; [|done]. subst. rewrite Hnone in Hl; done.
      * by rewrite Hl2, El.
      * by rewrite Hm2, Em.
      * right. split; [done|]. intros r' [= <-]. auto.
      * intros r' [= <-]. exists (clk 2%nat). simpl. by rewrite decide_True.
  - destruct (mgr_append m _ [item]) as [m2 res] eqn:Ea.
    destruct (mgr_append_one _ _ _ _ _ Ea) as [Hm2 Hres].
    destruct res as [e|u]; intros [= <- <-]. destruct Hres as [Hl2 Hd2]. rewrite Er in Hd2.
    exists h, [item]. rewrite Hd2.
    split_and!; [eapply repr_later; [|done]; lia|lia|done|by intros ???|done|done|by right|done].
Qed.

Lemma put_meta_entry_view m item m' r :
  put_meta_entry m item = (m', r) ->
  mgr_dedup m' = mgr_dedup m /\ mgr_next_log_id m' = mgr_next_log_id m /\
  match r with
  | inr st => st = set_meta_revision item (put_revision (mgr_metas m) (key item)) /\
              ss_view (state_store m') = put_view (ss_view (state_store m)) item
  | inl _ => ss_view (state_store m') = ss_view (state_store m)
  end.
Proof using Laws.
  unfold put_meta_entry. destruct (ss_put_meta _ _) as [s' r'] eqn:E. intros [= <- <-].
  apply law_put_meta in E. simpl. done.
Qed.

(** The three outcomes of a guarded put. *)
Lemma guarded_put_view m item expected m' r :
  put_meta_entry_with_expected_revision m item expected = (m', r) ->
  mgr_dedup m' = mgr_dedup m /\ mgr_logs m' = mgr_logs m /\ mgr_next_log_id m' = mgr_next_log_id m /\
  match r with
  | inr (Stored st) =>
    st = set_meta_revision item (put_revision (mgr_metas m) (key item)) /\
    mgr_metas m' = <[key item := st]> (mgr_metas m) /\
    (forall e, expected = Some e -> revision_matches e (mgr_metas m !! key item) = true)
  | inr (VersionConflict e cur) =>
    m' = m /\ expected = Some e /\ cur = revision <$> mgr_metas m !! key item /\
    revision_matches e (mgr_metas m !! key item) = false
  | inl _ => mgr_metas m' = mgr_metas m
  end.
Proof using Laws.
  unfold put_meta_entry_with_expected_revision.
  assert (Hput : forall r', (let (m0, r0) := put_meta_entry m item in
             (m0, match r0 with inl e => inl e | inr st => inr (Stored st) end)) = (m', r') ->
    mgr_dedup m' = mgr_dedup m /\ mgr_logs m' = mgr_logs m /\ mgr_next_log_id m' = mgr_next_log_id m /\
    match r' with
    | inr (Stored st) => st = set_meta_revision item (put_revision (mgr_metas m) (key item)) /\
                         mgr_metas m' = <[key item := st]> (mgr_metas m)
    | inr (VersionConflict _ _) => False
    | inl _ => mgr_metas m' = mgr_metas m
    end).
  { intros r'. destruct (put_meta_entry m item) as [m0 r0] eqn:E. apply put_meta_entry_view in E as (Hd & Hn & E).
    intros [= <- <-]. unfold mgr_logs, mgr_metas in *. destruct r0 as [e|st]; [by rewrite E|].
    destruct E as [-> E]. by rewrite E. }
  destruct expected as [e|].
  - destruct (ss_get_meta _ _) as [err|cur] eqn:Eg; [by intros [= <- <-]|].
    apply law_get_meta in Eg. fold (mgr_metas m) in Eg. subst cur.
    destruct (revision_matches e (mgr_metas m !! key item)) eqn:Em; [|by intros [= <- <-]].
    intros E. apply Hput in E as (? & ? & ? & E). split_and!; [done..|].
    destruct r as [|[st|]]; [done| |done]. destruct E as [-> ->]. split_and!; [done..|]. congruence.
  - intros E. apply Hput in E as (? & ? & ? & E). split_and!; [done..|].
    destruct r as [|[st|]]; [done| |done]. destruct E as [-> ->]. by split_and!.
Qed.

Lemma delete_meta_view m k m' r :
  delete_meta_key m k = (m', r) ->
  mgr_dedup m' = mgr_dedup m /\ mgr_logs m' = mgr_logs m /\ mgr_next_log_id m' = mgr_next_log_id m /\
  match r with
  | inr o => o = mgr_metas m !! k /\ mgr_metas m' = delete k (mgr_metas m)
  | inl _ => mgr_metas m' = mgr_metas m
  end.
Proof using Laws.
  unfold delete_meta_key, mgr_logs, mgr_metas. destruct (ss_delete_meta _ _) as [s' r'] eqn:E.
  intros [= <- <-]. apply law_delete_meta in E. simpl.
  destruct r' as [e|o]; [by rewrite E|]. destruct E as [-> E]. by rewrite E.
Qed.

(** ** A run of [apply] *)

(** The readings of [n] requests, each after those of the request before. *)
Fixpoint clocks_ok (clks : nat -> clock) (n : nat) (from until : Z) : Prop :=
  match n with
  | O => True
  | Datatypes.S n =>
    clock_ok (clks 0%nat) from until /\
    clocks_ok (fun k => clks (Datatypes.S k)) n (clks 0%nat 2%nat) until
  end.

(** The entry asks to append under the request id [r]. *)
Definition appends_under (e : Entry LogId Mem) (r : string) : Prop :=
  exists item, payload e = Normal (AppendLog item) /\ normalize_request_id (request_id item) = Some r.

(** From [m] with the history [h] to [m1] with [h1], at time [now]: the request
    ids of the new entries are new to the history. *)
Record history_step (h h1 : history) (t0 now : Z) m m1 (new : list KLogEntry) : Prop := {
  hs_repr : cache_repr h1 now (mgr_dedup m1);
  hs_length : (length h1 <= length h + 1)%nat;
  hs_since : Forall (fun x : string * Z * Z => t0 <= x.2) h1;
  hs_remembers : remembers h h1;
  hs_logs : mgr_logs m1 = mgr_logs m ++ new;
  hs_nodup : NoDup (entry_requests new);
  hs_fresh : forall r, r ∈ entry_requests new -> latest h r = None /\ exists x, latest h1 r = Some x
}.

Lemma history_step_none h now t0 now' m m1 :
  cache_repr h now (mgr_dedup m) -> now <= now' -> Forall (fun x : string * Z * Z => t0 <= x.2) h ->
  mgr_dedup m1 = mgr_dedup m -> mgr_logs m1 = mgr_logs m -> history_step h h t0 now' m m1 [].
Proof using Type.
  intros Hr Hle Hh Hd Hl. split; [|lia|done|by intros ???|by rewrite app_nil_r|constructor|set_solver].
  rewrite Hd. by eapply repr_later.
Qed.

Lemma process_request_history h now m clk req m' resp t0 :
  cache_repr h now (mgr_dedup m) -> clock_ok clk now (t0 + REQUEST_DEDUP_WINDOW_MS) ->
  Forall (fun x : string * Z * Z => t0 <= x.2) h -> t0 <= now ->
  Z.of_nat (length h) <= REQUEST_DEDUP_MAX_ITEMS ->
  process_request m clk req = (m', resp) -> is_error resp = false ->
  exists h' new, history_step h h' t0 (clk 2%nat) m m' new /\
    (forall r, item_request req = Some r -> exists i t, resp = AppendOk i /\ latest h' r = Some (i, t)).
Proof using Laws.
  intros Hr Hc Hh Ht Hlen. pose proof Hc as (? & ? & ? & ?).
  destruct req as [item|item expected|k]; simpl.
  - destruct (append_prepared_entry m clk item) as [m1 r] eqn:E. intros [= <- <-].
    destruct r as [e|i]; [done|]. intros _.
    destruct (append_prepared_request _ _ _ _ _ _ _ _ Hr Hc Hh Ht Hlen E)
      as (h' & new & ? & ? & ? & ? & ? & ? & Hnew & Hi).
    exists h', new. split; [split; try done|].
    + destruct Hnew as [->|[-> _]]; [constructor|]. unfold entry_requests. csimpl.
      destruct (normalize_request_id _); [apply NoDup_singleton|constructor].
    + intros r. destruct Hnew as [->|[-> Hn]]; [set_solver|]. unfold entry_requests. csimpl.
      destruct (normalize_request_id _) as [r0|]; [|set_solver].
      intros ->%list_elem_of_singleton. split; [by apply Hn|]. destruct (Hi r0 eq_refl) as [t ?]. eauto.
    + intros r Hr'. destruct (Hi r Hr') as [t ?]. eauto.
  - destruct (put_meta_entry_with_expected_revision m item expected) as [m1 r] eqn:E.
    intros [= <- <-] _. apply guarded_put_view in E as (Hd & Hl & _).
    exists h, []. split; [|done]. by apply (history_step_none h now); [|lia|..].
  - destruct (delete_meta_key m k) as [m1 r] eqn:E.
    intros [= <- <-] _. apply delete_meta_view in E as (Hd & Hl & _).
    exists h, []. split; [|done]. by apply (history_step_none h now); [|lia|..].
Qed.

Implicit Types (sm : KLogStateMachine LogId Membership S).

Lemma apply_entry_history h now sm clk e sm1 resp t0 :
  cache_repr h now (mgr_dedup (sm_store sm)) -> clock_ok clk now (t0 + REQUEST_DEDUP_WINDOW_MS) ->
  Forall (fun x : string * Z * Z => t0 <= x.2) h -> t0 <= now ->
  Z.of_nat (length h) <= REQUEST_DEDUP_MAX_ITEMS ->
  apply_entry stored_membership sm clk e = (sm1, resp) -> is_error resp = false ->
  exists h1 new, history_step h h1 t0 (clk 2%nat) (sm_store sm) (sm_store sm1) new /\
    (forall r, appends_under e r -> exists i t, resp = AppendOk i /\ latest h1 r = Some (i, t)).
Proof using Laws.
  intros Hr Hc Hh Ht Hlen E Hok. pose proof Hc as (? & ? & ? & ?).
  unfold apply_entry in E. destruct (payload e) as [|req|mem] eqn:Ep.
  - injection E as <- <-. exists h, []. split; [by apply (history_step_none h now); [|lia|..]|].
    intros r (item & Hp & _). congruence.
  - cbn [sm_store] in E. destruct (process_request _ _ req) as [m1 resp1] eqn:Er. injection E as <- <-.
    destruct (process_request_history h now _ _ _ _ _ t0 Hr Hc Hh Ht Hlen Er Hok) as (h1 & new & Hs & Hi).
    exists h1, new. split; [done|]. intros r (item & Hp & Hn). rewrite Ep in Hp.
    injection Hp as ->. by apply Hi.
  - injection E as <- <-. exists h, []. split; [by apply (history_step_none h now); [|lia|..]|].
    intros r (item & Hp & _). congruence.
Qed.

Lemma apply_entries_history l h now sm clks sm' resps t0 :
  cache_repr h now (mgr_dedup (sm_store sm)) ->
  clocks_ok clks (length l) now (t0 + REQUEST_DEDUP_WINDOW_MS) ->
  Forall (fun x : string * Z * Z => t0 <= x.2) h -> t0 <= now ->
  Z.of_nat (length h + length l) <= REQUEST_DEDUP_MAX_ITEMS ->
  apply_entries stored_membership sm clks l = (sm', resps) ->
  Forall (fun r => is_error r = false) resps ->
  exists h' new, remembers h h' /\
    mgr_logs (sm_store sm') = mgr_logs (sm_store sm) ++ new /\ NoDup (entry_requests new) /\
    (forall r, r ∈ entry_requests new -> latest h r = None) /\
    (forall n e r, l !! n = Some e -> appends_under e r ->
       exists i t, resps !! n = Some (AppendOk i) /\ latest h' r = Some (i, t)).
Proof using Laws.
  revert h now sm clks sm' resps. induction l as [|e l IH]; intros h now sm clks sm' resps Hr Hc Hh Ht Hlen; cbn [apply_entries].
  - intros [= <- <-] _. exists h, []. rewrite app_nil_r. split_and!; [by intros ???|done|constructor|set_solver|done].
  - destruct (apply_entry stored_membership sm (clks 0%nat) e) as [sm1 resp] eqn:E1.
    destruct (apply_entries stored_membership sm1 _ l) as [sm2 resps2] eqn:E2.
    intros [= <- <-] Hok. inversion_clear Hok as [|? ? Hok1 Hok2]. destruct Hc as [Hc1 Hc2].
    cbn [length] in Hlen, Hc2.
    destruct (apply_entry_history h now _ _ _ _ _ t0 Hr Hc1 Hh Ht ltac:(lia) E1 Hok1)
      as (h1 & new1 & [Hr1 Hl1 Hh1 Hrem1 Hlogs1 Hnd1 Hnew1] & Hresp1).
    destruct (IH h1 _ _ _ _ _ Hr1 Hc2 Hh1 ltac:(destruct Hc1 as (?&?&?&?); lia) ltac:(lia) E2 Hok2)
      as (h2 & new2 & Hrem2 & Hlogs2 & Hnd2 & Hnew2 & Hresp2).
    exists h2, (new1 ++ new2). split_and!.
    + intros r i t Hl. by apply Hrem2, Hrem1.
    + by rewrite Hlogs2, Hlogs1, app_assoc.
    + unfold entry_requests in *. rewrite omap_app. apply NoDup_app. split_and!; [done| |done].
      intros r Hr' Hr''. destruct (Hnew1 r Hr') as [_ [x Hx]]. rewrite (Hnew2 r Hr'') in Hx. done.
    + intros r. unfold entry_requests in *. rewrite omap_app.
      intros [Hr'|Hr']%elem_of_app; [by apply Hnew1|]. specialize (Hnew2 r Hr').
      destruct (latest h r) as [[i t]|] eqn:El; [|done]. apply Hrem1 in El. congruence.
    + intros [|n] e' r Hn Ha; simpl in Hn.
      * injection Hn as <-. destruct (Hresp1 r Ha) as (i & t & -> & Hl). exists i, t. split; [done|]. by apply Hrem2.
      * by apply Hresp2 with (n := n) in Ha.
Qed.
End facts.

(** ** Log ids *)

Section ids.
Context {LogId Membership Bytes S : Type} `{St : KLogStateStore LogId Membership Bytes S}.
Context {Laws : KLogStateStoreLaws St}.
Implicit Types (m : KLogStateStoreManager S).

(** Every id in the store is below the next id. *)
Definition ids_below m : Prop :=
  0 <= mgr_next_log_id m <= u64_max /\
  forall e, e ∈ mgr_logs m -> sat_add64 (id e) 1 <= mgr_next_log_id m.

Inductive mgr_op :=
| MPrepare (item : KLogEntry)
| MAppend (clk : clock) (item : KLogEntry)
| MFind (request_id : string) (now_ms : Z)
| MPut (item : KLogMetaEntry) (expected : option Z)
| MDelete (k : string).

(** One operation; the id it allocated, if it did. *)
Definition mgr_step m (op : mgr_op) : KLogStateStoreManager S * option Z :=
  match op with
  | MPrepare item =>
    let (m', item') := prepare_append_entry m item in
    (m', if id item =? 0 then Some (id item') else None)
  | MAppend clk item => ((append_prepared_entry m clk item).1, None)
  | MFind r now => ((find_recent_request_id m r now).1, None)
  | MPut item expected => ((put_meta_entry_with_expected_revision m item expected).1, None)
  | MDelete k => ((delete_meta_key m k).1, None)
  end.

(** The ids allocated along a run, each with the entries of the store then. *)
Fixpoint allocated m (ops : list mgr_op) : list (Z * list KLogEntry) :=
  match ops with
  | [] => []
  | op :: ops =>
    let (m', o) := mgr_step m op in
    match o with
    | Some i => (i, mgr_logs m) :: allocated m' ops
    | None => allocated m' ops
    end
  end.

(** The operation keeps the counter away from its maximum: an entry that comes
    with its own id has one with room above it. *)
Definition op_bounded (room : Z) (op : mgr_op) : Prop :=
  match op with MAppend _ item => 0 <= id item /\ id item + 1 + room <= u64_max | _ => True end.

Lemma find_recent_next m r now :
  mgr_next_log_id (find_recent_request_id m r now).1 = mgr_next_log_id m.
Proof using Type.
  unfold find_recent_request_id. destruct (normalize_request_id _); [|done].
  destruct (dedup_lookup _ _ _) as [c [i|]]; [done|].
  destruct (ss_lookup_recent_request_id _ _ _) as [s' res]. by destruct res as [|[|]].
Qed.

(** What an append does to the counter and to the entries. *)
Lemma mgr_append_ids m clk item m' r :
  mgr_append m clk [item] = (m', r) ->
  (mgr_logs m' = mgr_logs m /\ mgr_next_log_id m' = mgr_next_log_id m) \/
  (mgr_logs m' = mgr_logs m ++ [item] /\
   mgr_next_log_id m' = if sat_add64 (id item) 1 =? 0 then mgr_next_log_id m
                        else Z.max (mgr_next_log_id m) (sat_add64 (id item) 1)).
Proof using Laws.
  unfold mgr_append, mgr_logs. destruct (ss_append _ _ _) as [s' r0] eqn:Ea. apply law_append in Ea.
  destruct r0 as [e|u]; [intros [= <- <-]; simpl; rewrite Ea; auto|].
  destruct (advance_next_log_id _ _) as [m1 r1] eqn:Eadv.
  pose proof (advance_view _ _ _ _ Eadv) as [Ev _]. simpl in Ev. rewrite Ea in Ev.
  assert (Hn : mgr_next_log_id m1 = if sat_add64 (id item) 1 =? 0 then mgr_next_log_id m
                        else Z.max (mgr_next_log_id m) (sat_add64 (id item) 1)).
  { revert Eadv. unfold advance_next_log_id. simpl.
    destruct (sat_add64 (id item) 1 =? 0); [by intros [= <- _]|].
    destruct (Z.ltb_spec (mgr_next_log_id m) (sat_add64 (id item) 1)); simpl; [|intros [= <- _]; simpl; lia].
    destruct (ss_save_next_log_id _ _). intros [= <- _]. simpl. lia. }
  destruct r1 as [e|u']; intros [= <- <-]; right; simpl; rewrite Ev; done.
Qed.

Lemma append_prepared_ids m clk item :
  let m' := (append_prepared_entry m clk item).1 in
  (mgr_logs m' = mgr_logs m /\ mgr_next_log_id m' = mgr_next_log_id m) \/
  (mgr_logs m' = mgr_logs m ++ [item] /\
   mgr_next_log_id m' = if sat_add64 (id item) 1 =? 0 then mgr_next_log_id m
                        else Z.max (mgr_next_log_id m) (sat_add64 (id item) 1)).
Proof using Laws.
  simpl. unfold append_prepared_entry. destruct (match normalize_request_id _ with Some _ => _ | None => _ end)
    as [m1 found] eqn:E1.
  assert (Hm1 : mgr_logs m1 = mgr_logs m /\ mgr_next_log_id m1 = mgr_next_log_id m).
  { destruct (normalize_request_id (request_id item)) as [r|]; [|by injection E1 as <- <-].
    pose proof (find_recent_view _ _ _ _ _ E1) as Hv. pose proof (find_recent_next m r (clk 0%nat)) as Hn.
    rewrite E1 in Hn. unfold mgr_logs. by rewrite Hv. }
  destruct Hm1 as [Hl Hn]. destruct found as [i|]; simpl; [by left|].
  destruct (mgr_append m1 _ [item]) as [m2 r] eqn:Ea.
  destruct (mgr_append_ids _ _ _ _ _ Ea) as [[E2 E3]|[E2 E3]]; rewrite Hl, Hn in *; destruct r; simpl; auto.
Qed.

(** One operation keeps every id below the next one, moves the counter up, and
    leaves room for the rest. *)
Lemma mgr_step_ids m op room :
  ids_below m -> 0 <= room -> mgr_next_log_id m + 1 + room <= u64_max -> op_bounded room op ->
  let (m', o) := mgr_step m op in
  ids_below m' /\ mgr_next_log_id m' + room <= u64_max /\ mgr_next_log_id m <= mgr_next_log_id m' /\
  (forall i, o = Some i -> i = mgr_next_log_id m /\ i < mgr_next_log_id m').
Proof using Laws.
  intros [Hn Hids] Hroom Hb Hop. destruct op as [item|clk item|r now|item expected|k]; simpl.
  - unfold prepare_append_entry. destruct (id item =? 0); simpl.
    + assert (Hmod : (mgr_next_log_id m + 1) mod (u64_max + 1) = mgr_next_log_id m + 1)
        by (apply Z.mod_small; lia).
      rewrite Hmod. split_and!; [split; [simpl; lia|]|lia|lia|intros i [= <-]; lia].
      intros e He. specialize (Hids e He). simpl. lia.
    + split_and!; [done|lia|lia|done].
  - pose proof (append_prepared_ids m clk item) as Ha. simpl in Ha.
    destruct Ha as [[Hl He]|[Hl He]]; unfold ids_below; rewrite Hl, He;
      [split_and!; [lia..|done|lia|lia|done]|].
    destruct Hop as [Hpos Hop]. assert (Es : sat_add64 (id item) 1 = id item + 1) by (unfold sat_add64; lia).
    rewrite Es. destruct (Z.eqb_spec (id item + 1) 0); [lia|]. split_and!; [lia..| |lia|lia|done].
    intros e [Hin| ->%list_elem_of_singleton]%elem_of_app; [specialize (Hids e Hin); lia|lia].
  - pose proof (find_recent_next m r now) as E.
    destruct (find_recent_request_id m r now) as [m1 o] eqn:Ef. simpl in *.
    apply find_recent_view in Ef. unfold ids_below, mgr_logs in *. rewrite E, Ef.
    split_and!; [lia..|done|lia|lia|done].
  - destruct (put_meta_entry_with_expected_revision m item expected) as [m1 r1] eqn:E. simpl.
    apply guarded_put_view in E as (_ & Hl & E & _). unfold ids_below. rewrite Hl, E.
    split_and!; [lia..|done|lia|lia|done].
  - destruct (delete_meta_key m k) as [m1 r1] eqn:E. simpl.
    apply delete_meta_view in E as (_ & Hl & E & _). unfold ids_below. rewrite Hl, E.
    split_and!; [lia..|done|lia|lia|done].
Qed.

(** The ids the leader allocates are new: along any run of the manager in
    which the counter stays away from the end of its range, every allocated id
    is greater than all ids in the store at that moment, and the allocated ids
    are strictly increasing (no id is given out twice). *)
Theorem allocated_ids_fresh m (ops : list mgr_op) :
  ids_below m -> mgr_next_log_id m + Z.of_nat (length ops) <= u64_max ->
  Forall (op_bounded (Z.of_nat (length ops))) ops ->
  Forall (fun x : Z * list KLogEntry => mgr_next_log_id m <= x.1 /\ Forall (fun e => id e < x.1) x.2)
    (allocated m ops) /\
  StronglySorted Z.lt (allocated m ops).*1.
Proof using Laws.
  assert (Hgen : forall room, Z.of_nat (length ops) <= room -> ids_below m ->
    mgr_next_log_id m + Z.of_nat (length ops) <= u64_max -> Forall (op_bounded room) ops ->
    Forall (fun x : Z * list KLogEntry => mgr_next_log_id m <= x.1 /\ Forall (fun e => id e < x.1) x.2)
      (allocated m ops) /\ StronglySorted Z.lt (allocated m ops).*1); [|intros H1 H2 H3; by apply (Hgen (Z.of_nat (length ops))); [lia|..]].
  intros room. revert m. induction ops as [|op ops IH]; intros m Hroom Hids Hb Hops;
    cbn [allocated]; [split; constructor|].
  inversion_clear Hops as [|? ? Hop Hops']. cbn [length] in *.
  assert (Hop' : op_bounded (Z.of_nat (length ops)) op) by (destruct op; simpl in *; lia || done).
  pose proof (mgr_step_ids m op (Z.of_nat (length ops)) Hids ltac:(lia) ltac:(lia) Hop') as Hstep.
  destruct (mgr_step m op) as [m' o]. destruct Hstep as (Hids' & Hb' & Hle & Ho).
  destruct (IH m' ltac:(lia) Hids' Hb' Hops') as [IH1 IH2].
  assert (IH1' : Forall (fun x : Z * list KLogEntry => mgr_next_log_id m <= x.1 /\ Forall (fun e => id e < x.1) x.2)
      (allocated m' ops)) by (eapply Forall_impl; [exact IH1|]; simpl; intros ? []; split; [lia|done]).
  destruct o as [i|]; [|done]. destruct (Ho i eq_refl) as [-> Hlt]. csimpl. split.
  - constructor; [|done]. split; [simpl; lia|]. apply Forall_forall. intros e He.
    destruct Hids as [_ Hids]. specialize (Hids e He). unfold sat_add64 in Hids. simpl. lia.
  - constructor; [done|]. apply Forall_fmap. eapply Forall_impl; [exact IH1|]. simpl. lia.
Qed.
End ids.
