(* ===== verification/KLogTheorems.v ===== *)
(** Properties of the log service for any state store that keeps its promises:
    requests are applied at most once, the guarded put of metadata is a
    compare-and-swap, and replicas agree; with the limits of the last two. *)
From Stdlib Require Import ZArith Lia Ascii Sorted.
From stdpp Require Import base tactics numbers gmap strings sorting list relations.
From S2P Require Import Prelude RustString KLogTypes KLogDedup KLogMemory KLogManager KLogFacts.

(** The request cache answers exactly: after any run of the cache with a
    clock that does not go back, a hit is the id last remembered for the
    request, not older than the window; as long as no more requests were
    remembered than the cache holds, everything remembered within the window
    is a hit; and the cache never holds more records than its bound. *)
Theorem dedup_lookup_exact (ops : list dedup_op) (r : string) (now : Z) :
  StronglySorted Z.le (map op_time ops) -> Forall (fun t => 0 <= t <= now) (map op_time ops) -> 0 <= now ->
  let (c, o) := dedup_lookup (dedup_run ops) r now in
  (forall i, o = Some i -> exists t, latest (remembered ops) r = Some (i, t) /\ now - t <= REQUEST_DEDUP_WINDOW_MS) /\
  (Z.of_nat (length (remembered ops)) <= REQUEST_DEDUP_MAX_ITEMS ->
   forall i t, latest (remembered ops) r = Some (i, t) -> now - t <= REQUEST_DEDUP_WINDOW_MS -> o = Some i) /\
  Z.of_nat (size (records c)) <= REQUEST_DEDUP_MAX_ITEMS.
Proof.
  intros Hs Ht Hnow.
  pose proof (repr_run_go ops [] 0 empty_cache now (repr_empty 0) Hs Ht Hnow) as Hr. rewrite app_nil_r in Hr.
  fold (dedup_run ops) in Hr. pose proof (repr_cleanup _ now now _ (Z.le_refl _) Hr) as Hc.
  unfold dedup_lookup. split_and!.
  - intros i. destruct (records _ !! r) as [v|] eqn:Ev; [|done]. intros [= <-].
    exists (seen_at_ms v). split; [by apply (repr_sound _ _ _ Hc)|].
    by apply (cleanup_window (remembered ops) now (dedup_run ops) r).
  - intros Hlen i t Hl Hw. destruct (repr_complete _ _ _ Hc Hlen r i t Hl Hw) as [v Hv].
    pose proof (repr_sound _ _ _ Hc r v Hv) as E. rewrite Hl in E. injection E as -> ->.
    by rewrite Hv.
  - pose proof (cleanup_fresh now (records (dedup_run ops)) (order (dedup_run ops))) as Hf.
    fold (cleanup (dedup_run ops) now) in Hf. pose proof (backed_size _ _ (repr_backed _ _ _ Hc)) as Hb.
    destruct (order (cleanup (dedup_run ops) now)) as [|[t r'] rest]; [|by destruct Hf].
    simpl in Hb. assert (0 <= REQUEST_DEDUP_MAX_ITEMS) by done. lia.
Qed.

Section theorems.
Context {LogId Mem Membership Bytes S : Type} `{St : KLogStateStore LogId Membership Bytes S}.
Context {Laws : KLogStateStoreLaws St}.
Context (stored_membership : LogId -> Mem -> Membership).
Implicit Types (m : KLogStateStoreManager S).

(** C15: a request is appended at most once.  When the state machine applies a
    sequence of raft entries without a storage error, within one window of its
    clock, with a fresh cache and no more entries than the cache holds, then
    all appends that carry one request id answer one and the same log id, and
    the entries added to the store carry pairwise different request ids. *)
Theorem append_at_most_once (sm sm' : KLogStateMachine LogId Membership S) (clks : nat -> clock)
    (l : list (Entry LogId Mem)) (resps : list KLogResponse) (t0 : Z) :
  mgr_dedup (sm_store sm) = empty_cache ->
  clocks_ok clks (length l) t0 (t0 + REQUEST_DEDUP_WINDOW_MS) ->
  Z.of_nat (length l) <= REQUEST_DEDUP_MAX_ITEMS ->
  apply_entries stored_membership sm clks l = (sm', resps) ->
  Forall (fun r => is_error r = false) resps ->
  (exists assigned : string -> Z, forall n e r, l !! n = Some e -> appends_under e r ->
     resps !! n = Some (AppendOk (assigned r))) /\
  exists new, mgr_logs (sm_store sm') = mgr_logs (sm_store sm) ++ new /\ NoDup (entry_requests new).
Proof using Laws.
  intros Hd Hc Hlen Happ Hok.
  destruct (apply_entries_history stored_membership l [] t0 sm clks sm' resps t0) as (h & new & _ & Hl & Hnd & _ & Hr);
    try done.
  - rewrite Hd. apply repr_empty.
  - split; [|by exists new]. exists (fun r => match latest h r with Some (i, _) => i | None => 0 end).
    intros n e r Hn Ha. destruct (Hr n e r Hn Ha) as (i & t & -> & ->). done.
Qed.

(** ** Metadata *)

(** A request other than a removal, on counters that are not exhausted. *)
Definition meta_step m m' : Prop :=
  (exists item expected, (forall e, mgr_metas m !! key item = Some e -> revision e < u64_max) /\
     m' = (put_meta_entry_with_expected_revision m item expected).1) \/
  (exists clk item, m' = (append_prepared_entry m clk item).1) \/
  (exists r now, m' = (find_recent_request_id m r now).1).

Definition metas_ok m : Prop := forall k e, mgr_metas m !! k = Some e -> 1 <= revision e <= u64_max.

Definition meta_rev m (k : string) : Z :=
  match mgr_metas m !! k with Some e => revision e | None => 0 end.

Lemma append_prepared_metas m clk item :
  mgr_metas (append_prepared_entry m clk item).1 = mgr_metas m.
Proof using Laws.
  unfold append_prepared_entry. destruct (match normalize_request_id _ with Some _ => _ | None => _ end)
    as [m1 found] eqn:E1.
  assert (Hm : mgr_metas m1 = mgr_metas m).
  { destruct (normalize_request_id _); [|by injection E1 as <- <-].
    apply find_recent_view in E1. unfold mgr_metas. by rewrite E1. }
  destruct found; [done|]. destruct (mgr_append m1 _ [item]) as [m2 r] eqn:Ea.
  apply mgr_append_one in Ea as [Ea _]. destruct r; simpl; congruence.
Qed.

Lemma meta_step_put m m' :
  meta_step m m' ->
  mgr_metas m' = mgr_metas m \/
  exists item, (forall e, mgr_metas m !! key item = Some e -> revision e < u64_max) /\
    mgr_metas m' = <[key item := set_meta_revision item (put_revision (mgr_metas m) (key item))]> (mgr_metas m).
Proof using Laws.
  intros [(item & expected & Hlt & ->)|[(clk & item & ->)|(r & now & ->)]].
  - destruct (put_meta_entry_with_expected_revision m item expected) as [m1 r1] eqn:E. simpl.
    apply guarded_put_view in E as (_ & _ & _ & E). destruct r1 as [e|[st|e cur]].
    + by left.
    + right. exists item. split; [done|]. by destruct E as (-> & -> & _).
    + left. by destruct E as [-> _].
  - left. apply append_prepared_metas.
  - left. destruct (find_recent_request_id m r now) as [m1 o] eqn:E. apply find_recent_view in E.
    unfold mgr_metas. simpl. by rewrite E.
Qed.

Lemma put_revision_above metas k e :
  1 <= revision e -> metas !! k = Some e -> revision e < u64_max -> put_revision metas k = revision e + 1.
Proof using Type. intros ? E ?. unfold put_revision. rewrite E. unfold sat_add64. lia. Qed.

Lemma meta_step_inv m m' : metas_ok m -> meta_step m m' -> metas_ok m'.
Proof using Laws.
  intros Hok [E|(item & Hlt & E)]%meta_step_put k e; rewrite E; [apply Hok|].
  rewrite lookup_insert. case_decide as Ek; [|apply Hok]. intros [= <-]. simpl.
  unfold put_revision. destruct (mgr_metas m !! key item) as [e0|] eqn:E0; [|by unfold u64_max].
  specialize (Hlt e0 eq_refl). apply Hok in E0. unfold sat_add64. lia.
Qed.

Lemma meta_step_rev m m' k :
  metas_ok m -> meta_step m m' -> True ->
  meta_rev m' k = meta_rev m k /\ mgr_metas m' !! k = mgr_metas m !! k \/ meta_rev m k < meta_rev m' k.
Proof using Laws.
  unfold meta_rev. intros Hok [->|(item & Hlt & ->)]%meta_step_put _; [by left|].
  rewrite lookup_insert. case_decide as Ek; [subst k|by left]. right. simpl.
  destruct (mgr_metas m !! key item) as [e0|] eqn:E0; [|unfold put_revision; rewrite E0; lia].
  pose proof (Hok _ _ E0). rewrite (put_revision_above _ _ e0); [lia|lia|done|by apply Hlt].
Qed.

#[local] Instance meta_versioned : Versioned (KLogStateStoreManager S) string KLogMetaEntry := {
  v_inv := metas_ok;
  v_key _ := True;
  v_value m k := mgr_metas m !! k;
  v_rev := meta_rev;
  v_step := meta_step;
  v_step_inv := meta_step_inv;
  v_step_rev := meta_step_rev
}.

(** The guarded put is a compare-and-swap as long as nothing is deleted: a
    client read the entry [cur]; whatever puts and appends ran in between, its
    put guarded by [cur]'s revision either finds exactly [cur] still there and
    stores the next revision, or is refused with a greater current revision
    and changes nothing. *)
Theorem meta_cas m0 m1 m2 (item cur : KLogMetaEntry) (r : KLogMetaPutResult) :
  metas_ok m0 -> mgr_metas m0 !! key item = Some cur -> revision cur < u64_max ->
  rtc meta_step m0 m1 ->
  put_meta_entry_with_expected_revision m1 item (Some (revision cur)) = (m2, inr r) ->
  match r with
  | Stored st => mgr_metas m1 !! key item = Some cur /\ st = set_meta_revision item (revision cur + 1) /\
                 mgr_metas m2 !! key item = Some st
  | VersionConflict e c => e = revision cur /\ m2 = m1 /\ exists now, c = Some now /\ revision cur < now
  end.
Proof using Laws.
  intros Hok Hcur Hlt Hrun Hput.
  pose proof (steps_inv m0 m1 Hok Hrun) as Hok1.
  pose proof (steps_rev m0 m1 (key item) Hok Hrun I) as Hrev. simpl in Hrev. unfold meta_rev in Hrev.
  rewrite Hcur in Hrev. pose proof (Hok _ _ Hcur) as Hpos.
  apply guarded_put_view in Hput as (_ & _ & _ & Hput). destruct r as [st|e c].
  - destruct Hput as (-> & E2 & Hm). specialize (Hm _ eq_refl). unfold revision_matches in Hm.
    destruct (Z.eqb_spec (revision cur) 0); [lia|].
    destruct (mgr_metas m1 !! key item) as [e1|] eqn:E1; [|done]. apply Z.eqb_eq in Hm.
    assert (e1 = cur) as -> by (destruct Hrev as [[_ [=]]|]; [done|lia]).
    rewrite E2, lookup_insert_eq. rewrite (put_revision_above _ _ cur); [|lia|done|lia]. done.
  - destruct Hput as (-> & [= <-] & -> & Hm). unfold revision_matches in Hm.
    destruct (Z.eqb_spec (revision cur) 0); [lia|].
    destruct (mgr_metas m1 !! key item) as [e1|] eqn:E1.
    + apply Z.eqb_neq in Hm. split_and!; [done..|]. exists (revision e1). split; [done|].
      destruct Hrev as [[Hr _]|]; [congruence|done].
    + destruct Hrev as [[_ ?]|]; [done|lia].
Qed.

(** ** Agreement of replicas *)

(** An entry whose effect does not depend on the request cache. *)
Definition no_request_id (e : Entry LogId Mem) : Prop := forall r, ~ appends_under e r.

(** Two replicas show the same. *)
Definition same_replica (sm1 sm2 : KLogStateMachine LogId Membership S) : Prop :=
  ss_view (state_store (sm_store sm1)) = ss_view (state_store (sm_store sm2)) /\
  sm_last_applied sm1 = sm_last_applied sm2 /\ sm_membership sm1 = sm_membership sm2.

Lemma view_eq m1 m2 :
  ss_view (state_store m1) = ss_view (state_store m2) <->
  mgr_logs m1 = mgr_logs m2 /\ mgr_metas m1 = mgr_metas m2.
Proof using Type.
  unfold mgr_logs, mgr_metas. destruct (ss_view (state_store m1)), (ss_view (state_store m2)); simpl.
  split; [by intros [= -> ->]|by intros [-> ->]].
Qed.

Lemma process_request_agree m1 m2 clk1 clk2 req m1' m2' resp1 resp2 :
  ss_view (state_store m1) = ss_view (state_store m2) -> item_request req = None ->
  process_request m1 clk1 req = (m1', resp1) -> process_request m2 clk2 req = (m2', resp2) ->
  is_error resp1 = false -> is_error resp2 = false ->
  ss_view (state_store m1') = ss_view (state_store m2') /\ resp1 = resp2.
Proof using Laws.
  rewrite !view_eq. intros [El Em] Hreq. destruct req as [item|item expected|k]; simpl.
  - unfold append_prepared_entry. simpl in Hreq. rewrite Hreq.
    destruct (mgr_append m1 _ _) as [m1a r1] eqn:E1, (mgr_append m2 _ _) as [m2a r2] eqn:E2.
    apply mgr_append_one in E1 as [Hm1 E1], E2 as [Hm2 E2].
    destruct r1, r2; intros [= <- <-] [= <- <-]; try done. intros _ _.
    destruct E1 as [-> _], E2 as [-> _]. rewrite Hm1, Hm2, El, Em. done.
  - destruct (put_meta_entry_with_expected_revision m1 item expected) as [m1a r1] eqn:E1,
      (put_meta_entry_with_expected_revision m2 item expected) as [m2a r2] eqn:E2.
    apply guarded_put_view in E1 as (_ & Hl1 & _ & E1), E2 as (_ & Hl2 & _ & E2).
    destruct r1 as [e1|[st1|e1 c1]], r2 as [e2|[st2|e2 c2]];
      intros [= <- <-] [= <- <-] ? ?; try done; rewrite Hl1, Hl2.
    + destruct E1 as (-> & -> & _), E2 as (-> & -> & _). by rewrite Em.
    + destruct E1 as (_ & _ & E1), E2 as (_ & -> & _ & E2). specialize (E1 _ eq_refl). congruence.
    + destruct E2 as (_ & _ & E2), E1 as (_ & -> & _ & E1). specialize (E2 _ eq_refl). congruence.
    + destruct E1 as (-> & -> & -> & _), E2 as (-> & [= ->] & -> & _). by rewrite Em.
  - destruct (delete_meta_key m1 k) as [m1a r1] eqn:E1, (delete_meta_key m2 k) as [m2a r2] eqn:E2.
    apply delete_meta_view in E1 as (_ & Hl1 & _ & E1), E2 as (_ & Hl2 & _ & E2).
    destruct r1, r2; intros [= <- <-] [= <- <-] ? ?; try done.
    destruct E1 as [-> ->], E2 as [-> ->]. rewrite Hl1, Hl2, El, Em. done.
Qed.

Lemma apply_entry_agree sm1 sm2 clk1 clk2 e sm1' sm2' resp1 resp2 :
  same_replica sm1 sm2 -> no_request_id e ->
  apply_entry stored_membership sm1 clk1 e = (sm1', resp1) ->
  apply_entry stored_membership sm2 clk2 e = (sm2', resp2) ->
  is_error resp1 = false -> is_error resp2 = false -> same_replica sm1' sm2' /\ resp1 = resp2.
Proof using Laws.
  intros (Hv & Ha & Hm) He. unfold apply_entry. destruct (payload e) as [|req|mem] eqn:Ep.
  - by intros [= <- <-] [= <- <-].
  - cbn [sm_store]. destruct (process_request (sm_store sm1) clk1 req) as [m1 r1] eqn:E1,
      (process_request (sm_store sm2) clk2 req) as [m2 r2] eqn:E2.
    intros [= <- <-] [= <- <-] H1 H2.
    assert (Hreq : item_request req = None).
    { destruct req as [item| |]; [|done..]. simpl. destruct (normalize_request_id _) as [r|] eqn:Er; [|done].
      destruct (He r). by exists item. }
    destruct (process_request_agree _ _ _ _ _ _ _ _ _ Hv Hreq E1 E2 H1 H2) as [Hv' ->].
    split; [|done]. by split.
  - intros [= <- <-] [= <- <-]. split; [|done]. by split_and!.
Qed.

(** C37: replicas agree: two state machines that show the same and apply the
    same raft entries without storage errors show the same afterwards and
    answer the same, whatever their clocks read and whatever their request
    caches hold, provided no append carries a request id. *)
Theorem replicas_agree (l : list (Entry LogId Mem)) (sm1 sm2 : KLogStateMachine LogId Membership S) (clks1 clks2 : nat -> clock)
    (resps1 resps2 : list KLogResponse) sm1' sm2' :
  same_replica sm1 sm2 -> Forall no_request_id l ->
  apply_entries stored_membership sm1 clks1 l = (sm1', resps1) ->
  apply_entries stored_membership sm2 clks2 l = (sm2', resps2) ->
  Forall (fun r => is_error r = false) resps1 -> Forall (fun r => is_error r = false) resps2 ->
  same_replica sm1' sm2' /\ resps1 = resps2.
Proof using Laws.
  revert sm1 sm2 clks1 clks2 resps1 resps2. induction l as [|e l IH]; intros sm1 sm2 clks1 clks2 resps1 resps2 Hs Hl; cbn [apply_entries].
  { by intros [= <- <-] [= <- <-]. }
  inversion_clear Hl as [|? ? He Hl'].
  destruct (apply_entry stored_membership sm1 _ e) as [sm1a r1] eqn:E1,
    (apply_entry stored_membership sm2 _ e) as [sm2a r2] eqn:E2.
  destruct (apply_entries stored_membership sm1a _ l) as [sm1b rs1] eqn:F1,
    (apply_entries stored_membership sm2a _ l) as [sm2b rs2] eqn:F2.
  intros [= <- <-] [= <- <-] H1 H2. inversion_clear H1. inversion_clear H2.
  destruct (apply_entry_agree _ _ _ _ _ _ _ _ _ Hs He E1 E2) as [Hs' ->]; [done..|].
  destruct (IH _ _ _ _ _ _ Hs' Hl' F1 F2) as [? ->]; done.
Qed.
End theorems.
