(* ===== verification/KLogMemoryFacts.v ===== *)
(** Properties of the in-memory state store: queries return what they should in
    order, a snapshot restores what was saved; and two limits of the log
    service that show on it. *)
From Stdlib Require Import ZArith Lia Ascii Sorted.
From stdpp Require Import base tactics numbers gmap strings sorting list relations.
From S2P Require Import Prelude RustString KLogTypes KLogDedup KLogMemory KLogManager KLogFacts KLogTheorems.

Section memory.
Context {LogId Mem Membership Bytes : Type}.
Context (encode : KLogStateSnapshotData -> string + Bytes)
        (decode : Bytes -> option KLogStateSnapshotData)
        (decode_old : Bytes -> string + list KLogEntry).
Context `{HashOrder}.
Implicit Types (s : MemoryStateStore LogId Membership).

(** Earlier in the order of the query. *)
Definition before (o : KLogQueryOrder) (x y : KLogEntry) : Prop :=
  match o with Asc => id x <= id y | Desc => id y <= id x end.

Lemma ordered_sorted (o : KLogQueryOrder) (l : list KLogEntry) :
  let l' := sort_stable (fun x y => id x <=? id y) l in
  StronglySorted (before o) (if decide (o = Desc) then rev l' else l').
Proof using Type.
  simpl. set (l' := sort_stable _ l).
  assert (Hle : StronglySorted (fun x y => id x <= id y) l') by apply (sort_by_key_sorted id).
  clearbody l'. destruct o; [done|]. simpl.
  induction Hle as [|x k Hk IH Hx]; simpl; [constructor|].
  assert (Hall : Forall (fun y => id x <= id y) (rev k)) by (by rewrite <- Permutation_rev).
  clear Hx Hk. induction IH as [|y k' Hk' IH' Hy]; simpl; [repeat constructor|].
  inversion_clear Hall. constructor; [by apply IH'|]. apply Forall_app. split; [done|]. by constructor.
Qed.

(** [query] returns entries that match every filter, in the order of their
    ids, at most as many as the limit; the matching entries it leaves out all
    come after those it returns, and none is left out below the limit.  A value
    filter without a key filter returns nothing. *)
Theorem query_correct s (q : KLogQuery) :
  exists l, query s q = inr l /\
  (trimmed (attr_key q) = None /\ trimmed (attr_value q) <> None -> l = []) /\
  (trimmed (attr_key q) <> None \/ trimmed (attr_value q) = None ->
     StronglySorted (before (query_order q)) l /\ (length l <= limit q)%nat /\
     exists rest, List.filter (query_match q) (logs s) ≡ₚ l ++ rest /\
       (forall x y, x ∈ l -> y ∈ rest -> before (query_order q) x y) /\
       ((length l < limit q)%nat -> rest = [])).
Proof using Type.
  unfold query. set (ok := List.filter _ _).
  set (sorted := if decide (query_order q = Desc) then rev _ else _).
  assert (Hres : (trimmed (attr_key q) <> None \/ trimmed (attr_value q) = None) ->
    StronglySorted (before (query_order q)) (take (limit q) sorted) /\
    (length (take (limit q) sorted) <= limit q)%nat /\
     exists rest, ok ≡ₚ take (limit q) sorted ++ rest /\
       (forall x y, x ∈ take (limit q) sorted -> y ∈ rest -> before (query_order q) x y) /\
       ((length (take (limit q) sorted) < limit q)%nat -> rest = [])).
  { intros _. pose proof (ordered_sorted (query_order q) ok : StronglySorted _ sorted) as Hs. split_and!.
    - rewrite <- (take_drop (limit q) sorted) in Hs. by apply StronglySorted_app in Hs as (_ & ? & _).
    - rewrite length_take. lia.
    - exists (drop (limit q) sorted). rewrite take_drop. split_and!.
      + unfold sorted. symmetry. destruct (decide (query_order q = Desc)); [rewrite <- Permutation_rev|]; auto with maps.
      + intros x y Hx Hy. by apply (StronglySorted_take_drop _ (limit q) sorted).
      + rewrite length_take. intros Hlt. apply drop_ge. lia. }
  destruct (trimmed (attr_key q)) as [k|].
  - exists (take (limit q) sorted). split_and!; [done|by intros []|done].
  - destruct (trimmed (attr_value q)) as [v|].
    + exists []. split_and!; [done..|]. by intros [].
    + exists (take (limit q) sorted). split_and!; [done|by intros [_ []]|done].
Qed.

(** ** Snapshots *)

(** The metadata entries are stored under their own keys. *)
Definition metas_keyed s : Prop := forall k e, metas s !! k = Some e -> key e = k.

Lemma insert_all_keyed (m acc : gmap string KLogMetaEntry) (l : list KLogMetaEntry) :
  (forall k e, m !! k = Some e -> key e = k) -> (forall e, e ∈ l -> m !! key e = Some e) ->
  (forall k e, m !! k = Some e -> e ∈ l \/ acc !! k = Some e) ->
  (forall k e, acc !! k = Some e -> m !! k = Some e) ->
  fold_left (fun m item => <[key item := item]> m) l acc = m.
Proof using Type.
  revert acc. induction l as [|x l IH]; intros acc Hk Hl Hm Hacc; simpl.
  - apply map_eq. intros k. destruct (m !! k) as [e|] eqn:E.
    + destruct (Hm k e E) as [?|]; [set_solver|done].
    + destruct (acc !! k) as [e|] eqn:E'; [|done]. apply Hacc in E'. congruence.
  - apply IH; [done|set_solver| |].
    + intros k e He. destruct (Hm k e He) as [[->|Hin]%elem_of_cons|Ha]; [|by left|].
      * right. by rewrite (Hk k x He), lookup_insert_eq.
      * right. rewrite lookup_insert. case_decide as Ek; [|done]. rewrite <- He, <- Ek. symmetry. apply Hl. by left.
    + intros k e. rewrite lookup_insert. case_decide as Ek; [intros [= <-]; subst k; apply Hl; by left|apply Hacc].
Qed.

(** A snapshot restores what it saved: if the encoding of snapshots round
    trips, then installing in any store the snapshot built from a store
    succeeds and gives it the same entries and metadata, the next id after the
    largest id saved, and an empty request index; every query answers the
    same.  The state machine metadata of the store is not touched. *)
Theorem snapshot_roundtrip s s0 (b : Bytes) :
  (forall d b, encode d = inr b -> decode b = Some d) ->
  metas_keyed s -> build_snapshot encode s = inr b ->
  exists s', install_snapshot decode decode_old s0 b = (s', inr ()) /\
    logs s' = logs s /\ metas s' = metas s /\ next_log_id s' = max_next 1 (logs s) /\
    request_dedup s' = empty_cache /\ state_machine_meta s' = state_machine_meta s0 /\
    (forall q, query s' q = query s q).
Proof using Type.
  intros Hcodec Hkeys. unfold build_snapshot. destruct (encode _) as [e|b'] eqn:Ee; [done|]. intros [= ->].
  unfold install_snapshot, decode_snapshot_data. rewrite (Hcodec _ _ Ee). simpl.
  eexists. split; [done|]. simpl. split_and!; try done.
  apply insert_all_keyed; [done| | |by intros ??; rewrite lookup_empty].
  - intros e. rewrite elem_of_sort_stable. intros [k Hk]%elem_of_values. by rewrite (Hkeys k e Hk).
  - intros k e He. left. apply elem_of_sort_stable, elem_of_values. by exists k.
Qed.
End memory.

(** ** Witnesses *)

#[local] Instance order0 : HashOrder := canonical_order.

(** A store whose snapshots are kept as they are. *)
Definition plain_encode (d : KLogStateSnapshotData) : string + KLogStateSnapshotData := inr d.
Definition plain_decode (b : KLogStateSnapshotData) : option KLogStateSnapshotData := Some b.
Definition plain_decode_old (b : KLogStateSnapshotData) : string + list KLogEntry := inl "".
#[local] Instance plain_store : KLogStateStore Z unit KLogStateSnapshotData (MemoryStateStore Z unit) :=
  memory_store plain_encode plain_decode plain_decode_old.
#[local] Instance plain_laws : KLogStateStoreLaws plain_store :=
  memory_store_laws plain_encode plain_decode plain_decode_old.

Definition stored_mem (i : Z) (mem : unit) : unit := mem.

Definition mk_entry (i : Z) (r : option string) (msg : string) : KLogEntry :=
  {| id := i; timestamp := 0; node_id := 1; request_id := r; level := LInfo; source := None;
     attrs := ∅; message := msg |}.
Definition mk_meta (k v : string) : KLogMetaEntry :=
  {| key := k; value := v; updated_at := 0; updated_by := 1; revision := 0 |}.

Definition mgr0 : KLogStateStoreManager (MemoryStateStore Z unit) :=
  {| state_store := new; mgr_next_log_id := 1; mgr_dedup := empty_cache |}.
Definition sm0 : KLogStateMachine Z unit (MemoryStateStore Z unit) :=
  {| sm_last_applied := None; sm_membership := (); sm_store := mgr0 |}.

(** One request sent twice: the client did not see the first answer. *)
Definition retried : list (Entry Z unit) :=
  [{| entry_log_id := 1; payload := Normal (AppendLog (mk_entry 1 (Some "r1") "hello")) |};
   {| entry_log_id := 2; payload := Normal (AppendLog (mk_entry 2 (Some " r1 ") "hello")) |}].

(** All readings at [t]; or the readings of the second entry at [t']. *)
Definition steady (t : Z) : nat -> clock := fun _ _ => t.
Definition late (t t' : Z) : nat -> clock := fun n _ => match n with O => t | _ => t' end.

Lemma dedup_lookup_exact_witness :
  let (c, o) := dedup_lookup (dedup_run [DRemember "a" 7 10; DLookup "b" 11; DRemember "b" 8 12]) "a" 300010 in
  o = Some 7.
Proof.
  pose proof (dedup_lookup_exact [DRemember "a" 7 10; DLookup "b" 11; DRemember "b" 8 12] "a" 300010) as Hw.
  destruct (dedup_lookup _ "a" 300010) as [c o]. destruct Hw as (_ & Hw & _).
  - repeat constructor; simpl; lia.
  - repeat constructor; simpl; lia.
  - lia.
  - apply (Hw ltac:(done) 7 10); [reflexivity|]. by_compute.
Defined.

Lemma append_at_most_once_witness :
  exists sm' resps, apply_entries stored_mem sm0 (steady 5) retried = (sm', resps) /\
    exists assigned : string -> Z,
      resps !! 0%nat = Some (AppendOk (assigned "r1")) /\ resps !! 1%nat = Some (AppendOk (assigned "r1")).
Proof.
  assert (Hc : clocks_ok (steady 5) (length retried) 5 (5 + REQUEST_DEDUP_WINDOW_MS))
    by (unfold REQUEST_DEDUP_WINDOW_MS; simpl; unfold clock_ok, steady; lia).
  assert (Hok : Forall (fun r => is_error r = false) (apply_entries stored_mem sm0 (steady 5) retried).2)
    by (repeat constructor).
  destruct (apply_entries stored_mem sm0 (steady 5) retried) as [sm' resps] eqn:E. exists sm', resps.
  split; [done|].
  destruct (append_at_most_once stored_mem sm0 sm' (steady 5) retried resps 5 eq_refl Hc ltac:(done) E Hok)
    as [[assigned Ha] _].
  exists assigned. split.
  - apply (Ha 0%nat _ "r1" eq_refl). eexists. split; reflexivity.
  - apply (Ha 1%nat _ "r1" eq_refl). eexists. split; reflexivity.
Defined.

Lemma allocated_ids_fresh_witness :
  StronglySorted Z.lt (allocated mgr0 [MPrepare (mk_entry 0 None "a"); MAppend (fun _ => 5) (mk_entry 1 None "a");
                                       MPrepare (mk_entry 0 None "b")]).*1.
Proof.
  apply (allocated_ids_fresh mgr0).
  - split; [by_compute|]. intros e He. by apply elem_of_nil in He.
  - by_compute.
  - repeat constructor; by_compute.
Defined.

Definition mgr1 : KLogStateStoreManager (MemoryStateStore Z unit) := (put_meta_entry mgr0 (mk_meta "k" "v")).1.

Lemma mgr1_ok : metas_ok mgr1.
Proof.
  intros k e. change (mgr_metas mgr1) with (<["k" := set_meta_revision (mk_meta "k" "v") 1]> (∅ : gmap string KLogMetaEntry)).
  intros [[<- <-]|[_ Hk]]%lookup_insert_Some; [by_compute|]. by apply lookup_empty_Some in Hk.
Qed.

Lemma meta_cas_witness :
  exists m2, put_meta_entry_with_expected_revision mgr1 (mk_meta "k" "w") (Some 1) =
    (m2, inr (Stored (set_meta_revision (mk_meta "k" "w") 2))) /\
  mgr_metas m2 !! "k" = Some (set_meta_revision (mk_meta "k" "w") 2).
Proof.
  eexists. split; [reflexivity|].
  apply (meta_cas mgr1 mgr1 _ (mk_meta "k" "w") (set_meta_revision (mk_meta "k" "v") 1)
           (Stored (set_meta_revision (mk_meta "k" "w") 2))).
  - apply mgr1_ok.
  - reflexivity.
  - by_compute.
  - apply rtc_refl.
  - reflexivity.
Defined.

Definition plain_entries : list (Entry Z unit) :=
  [{| entry_log_id := 1; payload := Blank |};
   {| entry_log_id := 2; payload := Normal (AppendLog (mk_entry 1 None "x")) |};
   {| entry_log_id := 3; payload := Normal (PutMeta (mk_meta "k" "v") (Some 0)) |}].

Lemma replicas_agree_witness :
  same_replica (apply_entries stored_mem sm0 (steady 5) plain_entries).1
               (apply_entries stored_mem sm0 (steady 999999) plain_entries).1.
Proof.
  eapply (replicas_agree stored_mem plain_entries sm0 sm0 (steady 5) (steady 999999)
    (apply_entries stored_mem sm0 (steady 5) plain_entries).2
    (apply_entries stored_mem sm0 (steady 999999) plain_entries).2).
  - done.
  - repeat constructor; intros r (item & Hp & Hn); simpl in Hp; try discriminate Hp.
    injection Hp as <-. discriminate Hn.
  - apply surjective_pairing.
  - apply surjective_pairing.
  - repeat constructor.
  - repeat constructor.
Defined.

Lemma snapshot_roundtrip_witness :
  let s := state_store mgr1 in
  exists s', install_snapshot plain_decode plain_decode_old s (({| entries := []; meta_entries := [set_meta_revision (mk_meta "k" "v") 1] |})) = (s', inr ()) /\
    metas s' = metas s.
Proof.
  intros s.
  destruct (snapshot_roundtrip plain_encode plain_decode plain_decode_old s s
    {| entries := []; meta_entries := [set_meta_revision (mk_meta "k" "v") 1] |}) as (s' & Hs & _ & Hm & _).
  - by intros d b [= <-].
  - intros k e. change (metas s) with (<["k" := set_meta_revision (mk_meta "k" "v") 1]> (∅ : gmap string KLogMetaEntry)).
    intros [[<- <-]|[_ Hk]]%lookup_insert_Some; [reflexivity|]. by apply lookup_empty_Some in Hk.
  - reflexivity.
  - exists s'. split; [exact Hs|exact Hm].
Defined.

(** ** Two limits *)

(** The request cache is read by the clock of the replica: one that applies the
    retry more than a window after the first append stores it again, and the
    stores of the two replicas differ. *)
Lemma apply_depends_on_clock :
  mgr_logs (sm_store (apply_entries stored_mem sm0 (steady 0) retried).1) = [mk_entry 1 (Some "r1") "hello"] /\
  mgr_logs (sm_store (apply_entries stored_mem sm0 (late 0 300001) retried).1) =
    [mk_entry 1 (Some "r1") "hello"; mk_entry 2 (Some " r1 ") "hello"].
Proof. split; vm_compute; reflexivity. Qed.

(** A removal forgets the revision: after the key is removed and written again
    a put guarded by the revision of the removed entry is accepted. *)
Lemma delete_resets_revision :
  let m1 := mgr1 in
  let m2 := (delete_meta_key m1 "k").1 in
  let m3 := (put_meta_entry m2 (mk_meta "k" "other")).1 in
  revision <$> mgr_metas m1 !! "k" = Some 1 /\
  (put_meta_entry_with_expected_revision m3 (mk_meta "k" "mine") (Some 1)).2 =
    inr (Stored (set_meta_revision (mk_meta "k" "mine") 2)).
Proof. split; vm_compute; reflexivity. Qed.
