(* ===== verification/RaftLog.v ===== *)
(** The in-memory raft log ([kernel/klog/src/logs/memory.rs]): entries by index
    in a [BTreeMap], with the vote, the committed and the last purged id beside
    them; and the log it implements, a sequence of entries that starts after
    the purged ones.  The log id and its order belong to the raft library and
    are parameters. *)
From Stdlib Require Import ZArith Lia Ascii Sorted.
From stdpp Require Import base tactics numbers gmap strings sorting list.
From S2P Require Import Prelude KLogTypes KLogManager.

(** [std::ops::Bound] *)
Inductive bound := Included (i : Z) | Excluded (i : Z) | Unbounded.

(** [BTreeMap::iter]: the entries in key order. *)
Definition btree_iter {A} (m : gmap Z A) : list (Z * A) :=
  sort_stable (fun x y => x.1 <=? y.1) (map_to_list m).

Section log.
Context {LogId Mem Vote : Type} (index : LogId -> Z) (id_ltb : LogId -> LogId -> bool).
Abbreviation LogEntry := (Entry LogId Mem).

Record MemoryLogState := {
  last_purged : option LogId;
  last_applied : option LogId;
  last_committed : option LogId;
  vote : option Vote
}.

Record MemoryLogStorage := { state : MemoryLogState; raft_logs : gmap Z LogEntry }.

Definition log_new : MemoryLogStorage :=
  {| state := {| last_purged := None; last_applied := None; last_committed := None; vote := None |};
     raft_logs := ∅ |}.

Definition in_range (lo hi : bound) (i : Z) : bool :=
  match lo with Included l => l <=? i | Excluded l => l <? i | Unbounded => true end &&
  match hi with Included h => i <=? h | Excluded h => i <? h | Unbounded => true end.

(** [BTreeMap::range] panics on a range that is inside out. *)
Definition range_ok (lo hi : bound) : bool :=
  match lo, hi with
  | Excluded l, Excluded h => l <? h
  | Included l, (Included h | Excluded h) | Excluded l, Included h => l <=? h
  | _, _ => true
  end.

Definition try_get_log_entries (st : MemoryLogStorage) (lo hi : bound) : result (list LogEntry) :=
  if range_ok lo hi
  then Ok ((List.filter (fun ke => in_range lo hi ke.1) (btree_iter (raft_logs st))).*2)
  else Panic.

(** [LogState]: the last log id, and the last purged one. *)
Definition get_log_state (st : MemoryLogStorage) : option LogId * option LogId :=
  let last_log_id := (fun ke => entry_log_id ke.2) <$> last (btree_iter (raft_logs st)) in
  let last_purged_log_id := last_purged (state st) in
  (match last_log_id with Some i => Some i | None => last_purged_log_id end, last_purged_log_id).

Definition save_vote (st : MemoryLogStorage) (v : Vote) : MemoryLogStorage :=
  {| state := {| last_purged := last_purged (state st); last_applied := last_applied (state st);
                 last_committed := last_committed (state st); vote := Some v |};
     raft_logs := raft_logs st |}.
Definition read_vote (st : MemoryLogStorage) : option Vote := vote (state st).

Definition save_committed (st : MemoryLogStorage) (committed : option LogId) : MemoryLogStorage :=
  let rollback := match last_committed (state st), committed with
                  | Some cur, Some new => id_ltb new cur
                  | _, _ => false
                  end in
  if rollback then st
  else {| state := {| last_purged := last_purged (state st); last_applied := last_applied (state st);
                      last_committed := committed; vote := vote (state st) |};
          raft_logs := raft_logs st |}.
Definition read_committed (st : MemoryLogStorage) : option LogId := last_committed (state st).

Definition log_append (st : MemoryLogStorage) (entries : list LogEntry) : MemoryLogStorage :=
  {| state := state st;
     raft_logs := fold_left (fun m e => <[index (entry_log_id e) := e]> m) entries (raft_logs st) |}.

(** [split_off] leaves the keys below and returns the others. *)
Definition keep_below (i : Z) (m : gmap Z LogEntry) : gmap Z LogEntry := filter (fun ke => ke.1 < i) m.
Definition split_off (i : Z) (m : gmap Z LogEntry) : gmap Z LogEntry := filter (fun ke => i <= ke.1) m.

Definition truncate (st : MemoryLogStorage) (log_id : LogId) : MemoryLogStorage :=
  {| state := state st; raft_logs := keep_below (index log_id) (raft_logs st) |}.

Definition purge (b : build) (st : MemoryLogStorage) (log_id : LogId) : result MemoryLogStorage :=
  next ← unsigned_op b u64_max (index log_id + 1);
  mret {| state := {| last_purged := Some log_id; last_applied := last_applied (state st);
                      last_committed := last_committed (state st); vote := vote (state st) |};
          raft_logs := split_off next (raft_logs st) |}.

(** ** The log it implements *)

Record alog := { first : Z; a_entries : list LogEntry; a_purged : option LogId }.

Definition log_repr (st : MemoryLogStorage) (a : alog) : Prop :=
  (forall i, raft_logs st !! i = if decide (first a <= i) then a_entries a !! Z.to_nat (i - first a) else None) /\
  last_purged (state st) = a_purged a /\
  (forall n e, a_entries a !! n = Some e -> index (entry_log_id e) = first a + Z.of_nat n).

Inductive log_op :=
| LAppend (entries : list LogEntry)
| LTruncate (log_id : LogId)
| LPurge (log_id : LogId)
| LVote (v : Vote)
| LCommitted (c : option LogId).

(** What the raft library keeps to: entries follow the last one, and indexes
    are below the top of their range. *)
Definition log_op_ok (a : alog) (op : log_op) : Prop :=
  match op with
  | LAppend es => forall n e, es !! n = Some e ->
      index (entry_log_id e) = first a + Z.of_nat (length (a_entries a)) + Z.of_nat n
  | LPurge i => 0 <= index i < u64_max
  | _ => True
  end.

Definition log_step (b : build) (st : MemoryLogStorage) (op : log_op) : result MemoryLogStorage :=
  match op with
  | LAppend es => Ok (log_append st es)
  | LTruncate i => Ok (truncate st i)
  | LPurge i => purge b st i
  | LVote v => Ok (save_vote st v)
  | LCommitted c => Ok (save_committed st c)
  end.

Definition abs_step (a : alog) (op : log_op) : alog :=
  match op with
  | LAppend es => {| first := first a; a_entries := a_entries a ++ es; a_purged := a_purged a |}
  | LTruncate i => {| first := first a; a_entries := take (Z.to_nat (index i - first a)) (a_entries a);
                      a_purged := a_purged a |}
  | LPurge i => {| first := Z.max (first a) (index i + 1);
                   a_entries := drop (Z.to_nat (index i + 1 - first a)) (a_entries a);
                   a_purged := Some i |}
  | _ => a
  end.

Lemma lookup_append_all es (m : gmap Z LogEntry) (f : Z) i :
  (forall n e, es !! n = Some e -> index (entry_log_id e) = f + Z.of_nat n) ->
  fold_left (fun m e => <[index (entry_log_id e) := e]> m) es m !! i =
  match (if decide (f <= i) then es !! Z.to_nat (i - f) else None) with
  | Some e => Some e
  | None => m !! i
  end.
Proof using Type.
  revert m f. induction es as [|e es IH]; intros m f Hes; simpl.
  - by case_decide.
  - rewrite (IH _ (f + 1)).
    + pose proof (Hes 0%nat e eq_refl) as He. rewrite lookup_insert.
      destruct (decide (f + 1 <= i)), (decide (f <= i)); try lia.
      * replace (Z.to_nat (i - f)) with (S (Z.to_nat (i - (f + 1)))) by lia. simpl.
        destruct (es !! _); [done|]. by rewrite decide_False by lia.
      * replace (Z.to_nat (i - f)) with 0%nat by lia. simpl. by rewrite decide_True by lia.
      * by rewrite decide_False by lia.
    + intros n e' Hn. rewrite (Hes (S n) e' Hn). lia.
Qed.

Lemma lookup_keep_below i (m : gmap Z LogEntry) j :
  keep_below i m !! j = if decide (j < i) then m !! j else None.
Proof using Type.
  unfold keep_below. destruct (decide (j < i)) as [Hlt|Hge].
  - destruct (m !! j) as [e|] eqn:E; [by apply map_lookup_filter_Some|].
    apply map_lookup_filter_None. by left.
  - apply map_lookup_filter_None. right. intros e _. simpl. done.
Qed.

Lemma lookup_split_off i (m : gmap Z LogEntry) j :
  split_off i m !! j = if decide (i <= j) then m !! j else None.
Proof using Type.
  unfold split_off. destruct (decide (i <= j)) as [Hlt|Hge].
  - destruct (m !! j) as [e|] eqn:E; [by apply map_lookup_filter_Some|].
    apply map_lookup_filter_None. by left.
  - apply map_lookup_filter_None. right. intros e _. simpl. done.
Qed.

Lemma log_step_repr b st a op :
  log_repr st a -> log_op_ok a op -> exists st', log_step b st op = Ok st' /\ log_repr st' (abs_step a op).
Proof using Type.
  intros (Hm & Hp & Hi) Hok. destruct op as [es|i|i|v|c]; simpl.
  - eexists. split; [done|]. split_and!; [|done|]; simpl.
    + intros j. rewrite (lookup_append_all es _ (first a + Z.of_nat (length (a_entries a)))) by done.
      rewrite Hm. destruct (decide (first a <= j)); [|by rewrite decide_False by lia].
      case_decide.
      * rewrite lookup_app_r by lia.
        replace (Z.to_nat (j - first a) - length (a_entries a))%nat
          with (Z.to_nat (j - (first a + Z.of_nat (length (a_entries a))))) by lia.
        destruct (es !! _); [done|]. apply lookup_ge_None. lia.
      * rewrite lookup_app_l by lia. done.
    + intros n e He. apply lookup_app_Some in He as [He|[Hge He]]; [by apply Hi|].
      rewrite (Hok _ _ He). lia.
  - eexists. split; [done|]. split_and!; [|done|]; simpl.
    + intros j. rewrite lookup_keep_below, Hm. destruct (decide (first a <= j)); [|by case_decide].
      case_decide; [rewrite lookup_take_lt by lia; done|rewrite lookup_take_ge by lia; done].
    + intros n e [He _]%lookup_take_Some. by apply Hi.
  - unfold purge, unsigned_op. simpl in Hok.
    destruct (Z.leb_spec 0 (index i + 1)); [|lia]. destruct (Z.leb_spec (index i + 1) u64_max); [|lia].
    eexists. split; [done|]. split_and!; [|done|]; simpl.
    + intros j. rewrite lookup_split_off, Hm, lookup_drop.
      destruct (decide (Z.max (first a) (index i + 1) <= j)).
      * rewrite !decide_True by lia. f_equal. lia.
      * case_decide; [|done]. by rewrite decide_False by lia.
    + intros n e. rewrite lookup_drop. intros He. rewrite (Hi _ _ He). lia.
  - eexists. split; [done|]. by split_and!.
  - eexists. split; [done|]. unfold save_committed. by case_match; split_and!.
Qed.

(** The map in key order is the sequence of entries with their indexes. *)
Lemma btree_iter_repr st a :
  log_repr st a -> btree_iter (raft_logs st) = imap (fun n e => (first a + Z.of_nat n, e)) (a_entries a).
Proof using Type.
  intros (Hm & _ & _). set (R := fun x y : Z * LogEntry => x.1 <= y.1).
  assert (Hin : forall x, x ∈ btree_iter (raft_logs st) <-> x ∈ imap (fun n e => (first a + Z.of_nat n, e)) (a_entries a)).
  { intros [i e]. unfold btree_iter. rewrite elem_of_sort_stable, elem_of_map_to_list, Hm, elem_of_lookup_imap.
    split.
    - case_decide; [|done]. intros He. exists (Z.to_nat (i - first a)), e. split; [|done]. f_equal. lia.
    - intros (n & e' & [= -> ->] & He). rewrite decide_True by lia. by replace (Z.to_nat _) with n by lia. }
  assert (Hnd : NoDup (imap (fun n e => (first a + Z.of_nat n, e)) (a_entries a)).*1).
  { rewrite fmap_imap. apply NoDup_alt. intros i j x. rewrite !list_lookup_imap.
    destruct (a_entries a !! i), (a_entries a !! j); simpl; try done. intros [= <-] [= E]. lia. }
  apply (StronglySorted_unique_strong R).
  - intros [i e] [j e'] H1 H2 Hij Hji. apply Hin in H1. unfold R in *; simpl in *.
    assert (i = j) as -> by lia. apply elem_of_lookup_imap in H1 as (n & e1 & [= -> ->] & E1), H2 as (n' & e2 & [= E ->] & E2).
    assert (n = n') as -> by lia. congruence.
  - apply (sort_by_key_sorted fst).
  - clear. generalize (first a) as f. induction (a_entries a) as [|e l IH]; intros f; csimpl; [constructor|].
    constructor.
    + rewrite (imap_ext _ (fun n e => (f + 1 + Z.of_nat n, e))); [apply IH|]. intros; simpl. f_equal. lia.
    + apply Forall_forall. intros x (n & e' & -> & _)%elem_of_lookup_imap. unfold R. simpl. lia.
  - apply NoDup_Permutation; [|by eapply NoDup_fmap_1|done].
    unfold btree_iter. rewrite sort_stable_perm. apply NoDup_map_to_list.
Qed.

Fixpoint log_run (b : build) (st : MemoryLogStorage) (ops : list log_op) : result MemoryLogStorage :=
  match ops with
  | [] => Ok st
  | op :: ops => st ← log_step b st op; log_run b st ops
  end.

Fixpoint log_ops_ok (a : alog) (ops : list log_op) : Prop :=
  match ops with
  | [] => True
  | op :: ops => log_op_ok a op /\ log_ops_ok (abs_step a op) ops
  end.

Definition alog_new : alog := {| first := 0; a_entries := []; a_purged := None |}.

Lemma log_run_repr b st a ops :
  log_repr st a -> log_ops_ok a ops ->
  exists st', log_run b st ops = Ok st' /\ log_repr st' (fold_left abs_step ops a).
Proof using Type.
  revert st a. induction ops as [|op ops IH]; intros st a Hr Hok; simpl; [by exists st|].
  destruct Hok as [Hop Hok]. destruct (log_step_repr b st a op Hr Hop) as (st1 & -> & Hr1).
  by apply IH.
Qed.

Lemma filter_imap_snd (p : Z -> bool) (f : Z) (l : list LogEntry) :
  (forall n e, l !! n = Some e -> index (entry_log_id e) = f + Z.of_nat n) ->
  (List.filter (fun ke : Z * LogEntry => p ke.1) (imap (fun n e => (f + Z.of_nat n, e)) l)).*2 =
  List.filter (fun e => p (index (entry_log_id e))) l.
Proof using Type.
  revert f. induction l as [|e l IH]; intros f Hl; csimpl; [done|].
  rewrite (imap_ext _ (fun n e => (f + 1 + Z.of_nat n, e))) by (intros; simpl; f_equal; lia).
  rewrite (Hl 0%nat e eq_refl).
  assert (IH' := IH (f + 1)). specialize (IH' ltac:(intros n e' Hn; rewrite (Hl (S n) e' Hn); lia)).
  destruct (p _); csimpl; by rewrite IH'.
Qed.

Lemma last_imap (f : Z) (l : list LogEntry) :
  (fun ke : Z * LogEntry => entry_log_id ke.2) <$> last (imap (fun n e => (f + Z.of_nat n, e)) l) =
  entry_log_id <$> last l.
Proof using Type.
  revert f. induction l as [|e l IH]; intros f; csimpl; [done|].
  rewrite (imap_ext _ (fun n e => (f + 1 + Z.of_nat n, e))) by (intros; simpl; f_equal; lia).
  specialize (IH (f + 1)). destruct l as [|e' l]; [done|]. exact IH.
Qed.

(** C34: the in-memory raft log implements a sequence of entries behind a purged
    prefix: after any run of appends, truncations, purges, votes and commits
    that keeps to the contract of the raft library, no operation has panicked,
    [get_log_state] answers the id of the last entry of the sequence (of the
    last purged one when it is empty), and [try_get_log_entries] on a proper
    range returns the entries of the sequence in that range, in order. *)
Theorem raft_log_refines (b : build) (ops : list log_op) :
  log_ops_ok alog_new ops ->
  exists st, log_run b log_new ops = Ok st /\
    let a := fold_left abs_step ops alog_new in
    get_log_state st =
      (match last (a_entries a) with Some e => Some (entry_log_id e) | None => a_purged a end, a_purged a) /\
    forall lo hi, range_ok lo hi = true ->
      try_get_log_entries st lo hi =
        Ok (List.filter (fun e => in_range lo hi (index (entry_log_id e))) (a_entries a)).
Proof using Type.
  intros Hok. assert (Hnew : log_repr log_new alog_new).
  { split_and!; [|done..]. intros i. simpl. rewrite lookup_empty. by case_decide. }
  destruct (log_run_repr b log_new alog_new ops Hnew Hok) as (st & Hst & Hr). exists st. split; [done|].
  pose proof (btree_iter_repr st _ Hr) as Hb. destruct Hr as (_ & Hp & Hi). simpl. split.
  - unfold get_log_state. rewrite Hb, Hp, last_imap. by destruct (last _).
  - intros lo hi Hrange. unfold try_get_log_entries. rewrite Hrange, Hb. f_equal. by apply filter_imap_snd.
Qed.

(** The committed id the log reports never moves back while ids are given:
    after any run in which every saved id is a real one, the reported id is not
    below any id saved before. *)
Theorem committed_monotone (b : build) (st st' : MemoryLogStorage) (ops : list log_op) (c : LogId) :
  (forall x y z, id_ltb x y = false -> id_ltb y z = false -> id_ltb x z = false) ->
  (forall x, id_ltb x x = false) ->
  Forall (fun op => op <> LCommitted None) ops ->
  read_committed st = Some c -> log_run b st ops = Ok st' ->
  exists c', read_committed st' = Some c' /\ id_ltb c' c = false.
Proof using Type.
  intros Htrans Hrefl Hops Hc. revert st c Hc.
  induction Hops as [|op ops Hop _ IH]; intros st c Hc; simpl; [intros [= <-]; by exists c|].
  assert (Hstep : forall st1, log_step b st op = Ok st1 ->
                  exists c1, read_committed st1 = Some c1 /\ id_ltb c1 c = false).
  { intros st1. destruct op as [es|i|i|v|c0]; simpl; try (intros [= <-]; by exists c).
    - unfold purge. destruct (unsigned_op _ _ _); intros [= <-]. by exists c.
    - intros [= <-]. unfold read_committed, save_committed in *. rewrite Hc.
      destruct c0 as [c0|]; [|done]. destruct (id_ltb c0 c) eqn:E; [by exists c|by exists c0]. }
  destruct (log_step b st op) as [st1| |] eqn:E; [|done..]. intros Hrun.
  destruct (Hstep st1 eq_refl) as (c1 & Hc1 & Hle). destruct (IH st1 c1 Hc1 Hrun) as (c' & Hc' & Hle').
  exists c'. split; [done|]. by apply (Htrans _ c1).
Qed.
End log.

(** ** Witnesses *)

(** Log ids that are their index. *)
Definition z_index (i : Z) : Z := i.
Definition log_entry (i : Z) : Entry Z unit := {| entry_log_id := i; payload := Blank |}.

Definition sample_ops : list (log_op (LogId := Z) (Mem := unit) (Vote := unit)) :=
  [LAppend [log_entry 0; log_entry 1; log_entry 2; log_entry 3]; LCommitted (Some 2); LTruncate 3; LPurge 0].

Lemma raft_log_refines_witness :
  exists st, log_run z_index Z.ltb Release log_new sample_ops = Ok st /\
    get_log_state st = (Some 2, Some 0) /\
    try_get_log_entries st (Included 2) Unbounded = Ok [log_entry 2].
Proof.
  destruct (raft_log_refines z_index Z.ltb Release sample_ops) as (st & Hst & Hs & Hg).
  - split; [|split; [|split; [|split]]]; try by_compute; try done.
    intros [|[|[|[|n]]]] e; simpl; intros [= <-]; done.
  - exists st. split; [exact Hst|]. split; [exact Hs|exact (Hg (Included 2) Unbounded eq_refl)].
Defined.

Lemma committed_monotone_witness :
  exists st', log_run z_index Z.ltb Release (save_committed Z.ltb (log_new (Mem := unit) (Vote := unit)) (Some 5))
                [LCommitted (Some 3); LCommitted (Some 7)] = Ok st' /\
  exists c', read_committed st' = Some c' /\ (c' <? 5) = false.
Proof.
  eexists. split; [reflexivity|].
  apply (committed_monotone z_index Z.ltb Release (save_committed Z.ltb log_new (Some 5)) _
           [LCommitted (Some 3); LCommitted (Some 7)] 5).
  - intros x y z ?%Z.ltb_ge ?%Z.ltb_ge. apply Z.ltb_ge. lia.
  - apply Z.ltb_irrefl.
  - repeat constructor; discriminate.
  - reflexivity.
  - reflexivity.
Defined.
