(* ===== verification/Lists.v ===== *)
(** Lists and ordered maps: boolean filters, sorted lists and their uniqueness;
    a [BTreeMap] as a finite map that is listed by key ([btree]), a [BTreeSet]
    likewise, and a map inside a recursive type as the list of its entries by
    key ([alist_get], [alist_insert]). *)
From Stdlib Require Import ZArith Lia Ascii Sorted Permutation.
From stdpp Require Import base tactics numbers gmap strings sorting list.
From S2P Require Import Prelude RustString.

Section filterb.
Context {A : Type} (p : A -> bool).
Implicit Types l : list A.

Lemma StronglySorted_filterb (R : A -> A -> Prop) l :
  StronglySorted R l -> StronglySorted R (List.filter p l).
Proof.
  induction 1 as [|x l Hs IH Hx]; simpl; [constructor|].
  destruct (p x); [|done]. constructor; [done|].
  rewrite Forall_forall in *. intros y [_ Hy]%elem_of_filterb. auto.
Qed.

Lemma filterb_all l : Forall (fun x => p x = true) l -> List.filter p l = l.
Proof. induction 1 as [|x l Hx Hl IH]; simpl; [done|]. by rewrite Hx, IH. Qed.

Lemma filterb_none l : Forall (fun x => p x = false) l -> List.filter p l = [].
Proof. induction 1 as [|x l Hx Hl IH]; simpl; [done|]. by rewrite Hx, IH. Qed.

Lemma NoDup_filterb l : NoDup l -> NoDup (List.filter p l).
Proof.
  induction 1 as [|x l Hx Hl IH]; simpl; [constructor|].
  destruct (p x); [|done]. constructor; [|done]. intros [_ ?]%elem_of_filterb. done.
Qed.
End filterb.

Lemma StronglySorted_app_inv {A} (R : A -> A -> Prop) l k :
  StronglySorted R (l ++ k) <->
  StronglySorted R l /\ StronglySorted R k /\ (forall x y, x ∈ l -> y ∈ k -> R x y).
Proof.
  induction l as [|x l IH]; simpl.
  { split; [intros H; split_and!; [constructor|done|set_solver]|tauto]. }
  rewrite !StronglySorted_cons, IH, Forall_app, !Forall_forall. split.
  - intros ((Hx & Hk) & Hl & Hkk & Hlk). split_and!; [done..|]. intros a y [->|]%elem_of_cons; auto.
  - intros ((Hx & Hl) & Hk & Hlk). split_and!; auto; set_solver.
Qed.

Lemma StronglySorted_NoDup {A} (R : A -> A -> Prop) l :
  (forall x, ~ R x x) -> StronglySorted R l -> NoDup l.
Proof.
  intros HR. induction 1 as [|x l Hs IH Hx]; constructor; [|done].
  rewrite Forall_forall in Hx. intros Hin. by apply (HR x), Hx.
Qed.

(** Two lists without duplicates that are sorted by an order of the elements
    they share and hold the same elements are equal. *)
Lemma sorted_same_elements {A} (R : A -> A -> Prop) l k :
  (forall x y, x ∈ l -> y ∈ l -> R x y -> R y x -> x = y) ->
  NoDup l -> NoDup k -> StronglySorted R l -> StronglySorted R k ->
  (forall x, x ∈ l <-> x ∈ k) -> l = k.
Proof.
  intros Hanti Hl Hk Hsl Hsk Heq. apply (StronglySorted_unique_strong R); [|done..|by apply NoDup_Permutation].
  intros x y Hx Hy. apply Hanti; [done|by apply Heq].
Qed.

Lemma StronglySorted_fmap_impl {A B} (f : A -> B) (R : A -> A -> Prop) (S : B -> B -> Prop) l :
  (forall x y, x ∈ l -> y ∈ l -> R x y -> S (f x) (f y)) -> StronglySorted R l -> StronglySorted S (f <$> l).
Proof.
  intros Hf. induction 1 as [|x l Hs IH Hx]; csimpl; [constructor|]. constructor.
  - apply IH. intros; apply Hf; rewrite ?elem_of_cons; auto.
  - rewrite Forall_forall in Hx. apply Forall_fmap, Forall_forall. intros z Hz.
    apply Hf; [by left|by right|by apply Hx].
Qed.

Lemma fold_left_fmap {A B C} (f : C -> B -> C) (g : A -> B) l c :
  fold_left f (g <$> l) c = fold_left (fun c x => f c (g x)) l c.
Proof. revert c. induction l as [|x l IH]; intros c; [done|]. apply IH. Qed.

(** ** Sums *)

Lemma sum_list_le {A} (f g : A -> nat) l : (forall x, x ∈ l -> (f x <= g x)%nat) -> (sum_list (f <$> l) <= sum_list (g <$> l))%nat.
Proof.
  induction l as [|x l IH]; csimpl; intros Hfg; [done|].
  pose proof (Hfg x ltac:(by left)). specialize (IH ltac:(intros y Hy; apply Hfg; by right)). lia.
Qed.

Lemma sum_list_lt {A} (f g : A -> nat) l x :
  (forall x, x ∈ l -> (f x <= g x)%nat) -> x ∈ l -> (f x < g x)%nat -> (sum_list (f <$> l) < sum_list (g <$> l))%nat.
Proof.
  induction l as [|y l IH]; csimpl; intros Hfg Hx Hlt; [by apply elem_of_nil in Hx|].
  pose proof (Hfg y ltac:(by left)). apply elem_of_cons in Hx as [->|Hx].
  - pose proof (sum_list_le f g l ltac:(intros z Hz; apply Hfg; by right)). lia.
  - specialize (IH ltac:(intros z Hz; apply Hfg; by right) Hx Hlt). lia.
Qed.

Lemma sum_list_bound {A} (f : A -> nat) (n : nat) l : (forall x, x ∈ l -> (f x <= n)%nat) -> (sum_list (f <$> l) <= n * length l)%nat.
Proof.
  induction l as [|x l IH]; csimpl; intros Hf; [lia|].
  pose proof (Hf x ltac:(by left)). specialize (IH ltac:(intros y Hy; apply Hf; by right)). lia.
Qed.

(** ** Ordered maps and sets *)

Definition btree {V} (m : gmap string V) : list (string * V) :=
  sort_stable (fun x y => string_leb x.1 y.1) (map_to_list m).
Definition btree_keys {V} (m : gmap string V) : list string := (btree m).*1.
Definition btree_set (s : gset string) : list string := sort_stable string_leb (elements s).

Lemma elem_of_btree {V} (m : gmap string V) k v : (k, v) ∈ btree m <-> m !! k = Some v.
Proof. unfold btree. by rewrite elem_of_sort_stable, elem_of_map_to_list. Qed.

Lemma elem_of_btree_keys {V} (m : gmap string V) k : k ∈ btree_keys m <-> is_Some (m !! k).
Proof.
  unfold btree_keys. rewrite list_elem_of_fmap. split.
  - intros [[k' v] [-> Hv]]. apply elem_of_btree in Hv. by exists v.
  - intros [v Hv]. exists (k, v). by rewrite elem_of_btree.
Qed.

Lemma NoDup_btree_keys {V} (m : gmap string V) : NoDup (btree_keys m).
Proof. unfold btree_keys, btree. rewrite sort_stable_perm. apply NoDup_fst_map_to_list. Qed.

Lemma elem_of_btree_set s k : k ∈ btree_set s <-> k ∈ s.
Proof. unfold btree_set. by rewrite elem_of_sort_stable, elem_of_elements. Qed.

Lemma NoDup_btree_set (s : gset string) : NoDup (btree_set s).
Proof. unfold btree_set. rewrite sort_stable_perm. apply NoDup_elements. Qed.

Lemma btree_sorted {V} (m : gmap string V) : StronglySorted (fun x y => string_leb x.1 y.1 = true) (btree m).
Proof.
  apply (sort_stable_sorted _ (fun _ => True)); [| |by apply Forall_true].
  - intros. apply string_leb_total.
  - intros x y z _ _ _. apply string_leb_trans.
Qed.

Lemma btree_set_sorted (s : gset string) : StronglySorted (fun x y => string_leb x y = true) (btree_set s).
Proof.
  apply (sort_stable_sorted _ (fun _ => True)); [| |by apply Forall_true].
  - intros. apply string_leb_total.
  - intros x y z _ _ _. apply string_leb_trans.
Qed.

(** ** Maps as lists of entries *)

Section alist.
Context {V : Type}.

Fixpoint alist_get (k : string) (m : list (string * V)) : option V :=
  match m with
  | [] => None
  | (k', v) :: m => if String.eqb k k' then Some v else alist_get k m
  end.

(** Insertion in key order; a key that is there keeps its place. *)
Fixpoint alist_insert (k : string) (v : V) (m : list (string * V)) : list (string * V) :=
  match m with
  | [] => [(k, v)]
  | (k', v') :: m =>
    if String.eqb k k' then (k, v) :: m
    else if string_leb k k' then (k, v) :: (k', v') :: m
    else (k', v') :: alist_insert k v m
  end.

Lemma alist_get_elem k m v : alist_get k m = Some v -> (k, v) ∈ m.
Proof.
  induction m as [|[k' v'] m IH]; simpl; [done|].
  destruct (String.eqb_spec k k') as [->|]; [intros [= ->]; by left|right; auto].
Qed.

Lemma alist_get_insert k k' v m :
  alist_get k (alist_insert k' v m) = if String.eqb k k' then Some v else alist_get k m.
Proof.
  induction m as [|[c w] m IH]; simpl; [by destruct (String.eqb k k')|].
  destruct (String.eqb_spec k' c) as [->|Hc]; simpl.
  - by destruct (String.eqb_spec k c).
  - destruct (string_leb k' c); simpl; [done|]. rewrite IH.
    destruct (String.eqb_spec k c) as [->|]; [|done]. by destruct (String.eqb_spec c k').
Qed.

Lemma elem_of_alist_insert k v m x : x ∈ alist_insert k v m -> x = (k, v) \/ x ∈ m.
Proof.
  induction m as [|[c w] m IH]; simpl; [set_solver|].
  destruct (String.eqb k c); [set_solver|]. destruct (string_leb k c); set_solver.
Qed.
End alist.
