(* ===== verification/KMsg.v ===== *)
(** The message queue service ([kernel/kmsg/src/sled_msg_queue.rs], with the
    data of [kernel/buckyos-api/src/msg_queue.rs]): queues of messages in one
    sled tree, keyed by the name of the queue and the index of the message, a
    record of counters per queue, and subscriptions that remember how far they
    have read.

    A sled tree is a map from byte strings in key order; what is written is
    JSON, and each tree is shown with its values decoded, since the service
    only reads back what it wrote.  Storage failures and flushing are not
    modelled.  [b] is the arithmetic mode of the build. *)
From Stdlib Require Import ZArith Lia Ascii Sorted Permutation.
From stdpp Require Import base tactics numbers gmap strings sorting list.
From S2P Require Import Prelude RustString.

(** ** Data *)

Abbreviation QueueUrn := string.
Abbreviation MsgIndex := Z.
Abbreviation SubscriptionId := string.

Record Message := mkMessage {
  msg_index : MsgIndex;
  created_at : Z;
  payload : string;
  headers : gmap string string
}.

Record QueueConfig := mkConfig {
  max_messages : option Z;
  retention_seconds : option Z;
  sync_write : bool;
  other_app_can_read : bool;
  other_app_can_write : bool;
  other_user_can_read : bool;
  other_user_can_write : bool
}.

Record QueueStats := mkStats {
  st_message_count : Z;
  st_first_index : Z;
  st_last_index : Z;
  st_size_bytes : Z
}.

Inductive SubPosition := Earliest | Latest | At (index : MsgIndex).

Record QueueMeta := mkMeta {
  next_index : MsgIndex;
  message_count : Z;
  first_index : MsgIndex;
  last_index : MsgIndex;
  size_bytes : Z
}.

Record SubscriptionState := mkSub { sub_queue_urn : QueueUrn; cursor : MsgIndex }.

(** The five trees. *)
Record SledMsgQueue := mkQueues {
  queues : gmap string QueueConfig;
  queue_meta : gmap string QueueMeta;
  messages : gmap string Message;
  subs : gmap string SubscriptionState;
  meta : gmap string Z
}.

#[export] Instance QueueConfig_eq_dec : EqDecision QueueConfig.
Proof. solve_decision. Defined.
#[export] Instance QueueMeta_eq_dec : EqDecision QueueMeta.
Proof. solve_decision. Defined.
#[export] Instance Message_eq_dec : EqDecision Message.
Proof. solve_decision. Defined.
#[export] Instance SubscriptionState_eq_dec : EqDecision SubscriptionState.
Proof. solve_decision. Defined.
#[export] Instance SubPosition_eq_dec : EqDecision SubPosition.
Proof. solve_decision. Defined.

Definition empty_queues : SledMsgQueue := mkQueues ∅ ∅ ∅ ∅ ∅.

Definition set_queues f (q : SledMsgQueue) :=
  mkQueues (f (queues q)) (queue_meta q) (messages q) (subs q) (meta q).
Definition set_queue_meta f (q : SledMsgQueue) :=
  mkQueues (queues q) (f (queue_meta q)) (messages q) (subs q) (meta q).
Definition set_messages f (q : SledMsgQueue) :=
  mkQueues (queues q) (queue_meta q) (f (messages q)) (subs q) (meta q).
Definition set_subs f (q : SledMsgQueue) :=
  mkQueues (queues q) (queue_meta q) (messages q) (f (subs q)) (meta q).
Definition set_ids f (q : SledMsgQueue) :=
  mkQueues (queues q) (queue_meta q) (messages q) (subs q) (f (meta q)).

(** ** Keys *)

(** [u64::to_be_bytes], from the most significant of [n] bytes. *)
Fixpoint be_bytes (n : nat) (x : Z) : string :=
  match n with
  | O => EmptyString
  | S n => String (ascii_of_N (Z.to_N (Z.land (Z.shiftr x (8 * Z.of_nat n)) 255))) (be_bytes n x)
  end.

(** [u64::from_be_bytes]. *)
Fixpoint from_be_bytes (acc : Z) (s : string) : Z :=
  match s with
  | EmptyString => acc
  | String a s => from_be_bytes (Z.lor (Z.shiftl acc 8) (Z.of_N (N_of_ascii a))) s
  end.

Definition queue_key (queue_urn : QueueUrn) : string := queue_urn.

Definition message_prefix (queue_urn : QueueUrn) : string := queue_urn +:+ String (ascii_of_N 0) "".

Definition message_key (queue_urn : QueueUrn) (index : MsgIndex) : string :=
  message_prefix queue_urn +:+ be_bytes 8 index.

(** The part of a string after its first [n] bytes. *)
Fixpoint skip_bytes (n : nat) (s : string) : string :=
  match n, s with
  | S n, String _ s => skip_bytes n s
  | _, s => s
  end.

Definition decode_index_from_key (key : string) : option MsgIndex :=
  if (String.length key <? 8)%nat then None
  else Some (from_be_bytes 0 (skip_bytes (String.length key - 8) key)).

(** [str::contains] of a string. *)
Fixpoint contains_str (p s : string) : bool :=
  starts_with p s || match s with EmptyString => false | String _ s => contains_str p s end.

Definition calc_queue_urn (appid app_owner name : string) : QueueUrn :=
  let normalized := trim name in
  if starts_with "/" normalized || contains_str "::" normalized then normalized
  else appid +:+ "::" +:+ app_owner +:+ "::" +:+ normalized.

(** ** Scans of the message tree *)

Definition in_key_order : list (string * Message) -> list (string * Message) :=
  sort_stable (fun x y => string_leb x.1 y.1).

(** [tree.range(start..end)] and [tree.range(start..=end)]. *)
Definition range_to (tree : gmap string Message) (start stop : string) : list (string * Message) :=
  in_key_order (List.filter (fun kv => string_leb start kv.1 && negb (string_leb stop kv.1))
                            (map_to_list tree)).
Definition range_incl (tree : gmap string Message) (start stop : string) : list (string * Message) :=
  in_key_order (List.filter (fun kv => string_leb start kv.1 && string_leb kv.1 stop)
                            (map_to_list tree)).

(** The loop of [handle_fetch_messages] and [handle_read_message]: push, then
    stop when there are enough. *)
Fixpoint collect_messages (items : list (string * Message)) (length : nat) (msgs : list Message)
  : list Message :=
  match items with
  | [] => msgs
  | (_, msg) :: items =>
    let msgs := msgs ++ [msg] in
    if (length <=? List.length msgs)%nat then msgs else collect_messages items length msgs
  end.

Definition queue_not_found {A} (queue_urn : QueueUrn) : result A :=
  Err ("Queue not found: " +:+ queue_urn).
Definition sub_not_found {A} (sub_id : SubscriptionId) : result A :=
  Err ("Subscription not found: " +:+ sub_id).

Section kmsg.
Variable b : build.

Abbreviation u64 := (unsigned_op b u64_max).

(** A call that may change the trees. *)
Abbreviation M A := (SledMsgQueue * result A)%type.

(** The compare-and-swap loop of [next_id]: the round that succeeds is one
    step, and no other round changes anything. *)
Definition next_id (key : string) (q : SledMsgQueue) : M Z :=
  match u64 (default 0 (meta q !! key) + 1) with
  | Ok next => (set_ids <[key := next]> q, Ok next)
  | Err m => (q, Err m)
  | Panic => (q, Panic)
  end.

Definition get_queue_meta (q : SledMsgQueue) (queue_urn : QueueUrn) : result QueueMeta :=
  match queue_meta q !! queue_key queue_urn with
  | Some m => Ok m
  | None => queue_not_found queue_urn
  end.

Definition get_queue_config (q : SledMsgQueue) (queue_urn : QueueUrn) : result QueueConfig :=
  match queues q !! queue_key queue_urn with
  | Some c => Ok c
  | None => queue_not_found queue_urn
  end.

Definition store_queue_meta (queue_urn : QueueUrn) (m : QueueMeta) (q : SledMsgQueue) : SledMsgQueue :=
  set_queue_meta <[queue_key queue_urn := m]> q.

(** The name of a queue or subscription, or the next numbered one. *)
Definition given_or_numbered (given : option string) (prefix counter : string) (q : SledMsgQueue)
  : M string :=
  match given with
  | Some value => (q, Ok value)
  | None =>
    match next_id counter q with
    | (q, Ok n) => (q, Ok (prefix +:+ u64_to_string n))
    | (q, Err m) => (q, Err m)
    | (q, Panic) => (q, Panic)
    end
  end.

Definition handle_create_queue (name : option string) (appid app_owner : string) (config : QueueConfig)
    (q : SledMsgQueue) : M QueueUrn :=
  match given_or_numbered name "queue-" "queue_id" q with
  | (q, Ok name) =>
    let queue_urn := calc_queue_urn appid app_owner name in
    match queues q !! queue_key queue_urn with
    | Some _ => (q, Err ("Queue already exists: " +:+ queue_urn))
    | None =>
      (store_queue_meta queue_urn (mkMeta 1 0 0 0 0) (set_queues <[queue_key queue_urn := config]> q),
       Ok queue_urn)
    end
  | (q, Err m) => (q, Err m)
  | (q, Panic) => (q, Panic)
  end.

Definition handle_delete_queue (queue_urn : QueueUrn) (q : SledMsgQueue) : M unit :=
  match queues q !! queue_key queue_urn with
  | None => (q, queue_not_found queue_urn)
  | Some _ =>
    let q := set_queues (delete (queue_key queue_urn)) q in
    let q := set_messages (filter (fun kv => starts_with (message_prefix queue_urn) kv.1 = false)) q in
    let q := set_subs (filter (fun kv => sub_queue_urn kv.2 <> queue_urn)) q in
    (set_queue_meta (delete (queue_key queue_urn)) q, Ok ())
  end.

Definition handle_get_queue_stats (queue_urn : QueueUrn) (q : SledMsgQueue) : result QueueStats :=
  m ← get_queue_meta q queue_urn;
  mret (mkStats (message_count m) (first_index m) (last_index m) (size_bytes m)).

Definition handle_update_queue_config (queue_urn : QueueUrn) (config : QueueConfig) (q : SledMsgQueue)
  : M unit :=
  match queues q !! queue_key queue_urn with
  | None => (q, queue_not_found queue_urn)
  | Some _ => (set_queues <[queue_key queue_urn := config]> q, Ok ())
  end.

(** The counters after a post of [len] bytes, with the index of the message. *)
Definition count_post (m : QueueMeta) (len : Z) : result (QueueMeta * MsgIndex) :=
  let index := next_index m in
  next ← u64 (next_index m + 1);
  count ← u64 (message_count m + 1);
  size ← u64 (size_bytes m + len);
  mret (mkMeta next count (if first_index m =? 0 then index else first_index m) index size, index).

Definition handle_post_message (now : Z) (queue_urn : QueueUrn) (message : Message) (q : SledMsgQueue)
  : M MsgIndex :=
  match get_queue_config q queue_urn with
  | Err m => (q, Err m)
  | Panic => (q, Panic)
  | Ok _ =>
    let created := if created_at message =? 0 then now else created_at message in
    match queue_meta q !! queue_key queue_urn with
    | None => (q, queue_not_found queue_urn)
    | Some m =>
      match count_post m (Z.of_nat (String.length (payload message))) with
      | Ok (m, index) =>
        let stored_message := mkMessage index created (payload message) (headers message) in
        (set_queue_meta <[queue_key queue_urn := m]>
           (set_messages <[message_key queue_urn index := stored_message]> q), Ok index)
      | Err m => (q, Err m)
      | Panic => (q, Panic)
      end
    end
  end.

(** Where a subscription starts to read. *)
Definition position_cursor (m : QueueMeta) (position : SubPosition) : result MsgIndex :=
  match position with
  | Earliest => Ok (if first_index m =? 0 then 1 else first_index m)
  | Latest => u64 (last_index m + 1)
  | At index => Ok index
  end.

Definition handle_subscribe (queue_urn : QueueUrn) (sub_id : option SubscriptionId)
    (position : SubPosition) (q : SledMsgQueue) : M SubscriptionId :=
  match m ← get_queue_meta q queue_urn; position_cursor m position with
  | Err m => (q, Err m)
  | Panic => (q, Panic)
  | Ok c =>
    match given_or_numbered sub_id "sub-" "sub_id" q with
    | (q, Ok sub_id) =>
      match subs q !! sub_id with
      | Some _ => (q, Err ("Subscription already exists: " +:+ sub_id))
      | None => (set_subs <[sub_id := mkSub queue_urn c]> q, Ok sub_id)
      end
    | r => r
    end
  end.

Definition handle_unsubscribe (sub_id : SubscriptionId) (q : SledMsgQueue) : M unit :=
  match subs q !! sub_id with
  | None => (q, sub_not_found sub_id)
  | Some _ => (set_subs (delete sub_id) q, Ok ())
  end.

(** The messages of a queue from an index on, at most [length] of them. *)
Definition scan_messages (queue_urn : QueueUrn) (from : MsgIndex) (length : nat) (q : SledMsgQueue)
  : list Message :=
  collect_messages
    (range_incl (messages q) (message_key queue_urn from) (message_key queue_urn u64_max)) length [].

Definition handle_fetch_messages (sub_id : SubscriptionId) (length : nat) (auto_commit : bool)
    (q : SledMsgQueue) : M (list Message) :=
  match subs q !! sub_id with
  | None => (q, sub_not_found sub_id)
  | Some sub =>
    let msgs := scan_messages (sub_queue_urn sub) (cursor sub) length q in
    match (if auto_commit then last msgs else None) with
    | None => (q, Ok msgs)
    | Some m =>
      match u64 (msg_index m + 1) with
      | Ok c => (set_subs <[sub_id := mkSub (sub_queue_urn sub) c]> q, Ok msgs)
      | Err m => (q, Err m)
      | Panic => (q, Panic)
      end
    end
  end.

Definition handle_read_message (queue_urn : QueueUrn) (from : MsgIndex) (length : nat)
    (q : SledMsgQueue) : result (list Message) :=
  _ ← get_queue_meta q queue_urn;
  mret (scan_messages queue_urn from length q).

Definition handle_commit_ack (sub_id : SubscriptionId) (index : MsgIndex) (q : SledMsgQueue) : M unit :=
  match subs q !! sub_id with
  | None => (q, sub_not_found sub_id)
  | Some sub =>
    match u64 (index + 1) with
    | Ok c => (set_subs <[sub_id := mkSub (sub_queue_urn sub) c]> q, Ok ())
    | Err m => (q, Err m)
    | Panic => (q, Panic)
    end
  end.

Definition handle_seek (sub_id : SubscriptionId) (position : SubPosition) (q : SledMsgQueue) : M unit :=
  match subs q !! sub_id with
  | None => (q, sub_not_found sub_id)
  | Some sub =>
    match m ← get_queue_meta q (sub_queue_urn sub); position_cursor m position with
    | Ok c => (set_subs <[sub_id := mkSub (sub_queue_urn sub) c]> q, Ok ())
    | Err m => (q, Err m)
    | Panic => (q, Panic)
    end
  end.

(** [handle_delete_message_before] reads the counters, removes the messages
    one by one and writes the counters back, without a transaction: its two
    ends are steps of their own. *)
Definition delete_begin (queue_urn : QueueUrn) (q : SledMsgQueue) : result QueueMeta :=
  _ ← get_queue_config q queue_urn;
  get_queue_meta q queue_urn.

(** The counters once [removed] messages of [bytes] bytes are gone, from the
    tree that is left. *)
Definition count_removed (queue_urn : QueueUrn) (index : MsgIndex) (removed bytes : Z)
    (tree : gmap string Message) (m : QueueMeta) : QueueMeta :=
  let count := sat_sub (message_count m) removed in
  let size := sat_sub (size_bytes m) bytes in
  if count =? 0 then mkMeta (next_index m) count 0 0 size
  else
    let new_first :=
      match range_incl tree (message_key queue_urn index) (message_key queue_urn u64_max) with
      | [] => None
      | kv :: _ => decode_index_from_key kv.1
      end in
    mkMeta (next_index m) count (default (first_index m) new_first) (last_index m) size.

Definition delete_finish (queue_urn : QueueUrn) (index : MsgIndex) (m : QueueMeta) (q : SledMsgQueue)
  : M Z :=
  let items := range_to (messages q) (message_key queue_urn 0) (message_key queue_urn index) in
  let removed_bytes := foldr Z.add 0 ((fun kv => Z.of_nat (String.length (payload kv.2))) <$> items) in
  let removed_count := Z.of_nat (length items) in
  let q := set_messages (fun tree => fold_left (fun tree kv => delete kv.1 tree) items tree) q in
  if removed_count =? 0 then (q, Ok 0)
  else (store_queue_meta queue_urn (count_removed queue_urn index removed_count removed_bytes (messages q) m) q,
        Ok removed_count).

Definition handle_delete_message_before (queue_urn : QueueUrn) (index : MsgIndex) (q : SledMsgQueue)
  : M Z :=
  match delete_begin queue_urn q with
  | Ok m => delete_finish queue_urn index m q
  | Err m => (q, Err m)
  | Panic => (q, Panic)
  end.
End kmsg.
