(* ===== verification/KMsgKeys.v ===== *)
(** The keys of the message tree: big-endian indexes sort as numbers and read
    back, and the keys of one queue lie together, apart from those of others. *)
From Stdlib Require Import ZArith Lia Ascii Sorted Permutation.
From stdpp Require Import base tactics numbers gmap strings sorting list.
From S2P Require Import Prelude RustString KMsg.

(** ** Big-endian numbers *)

Lemma pow256_pos n : 0 < 2 ^ (8 * Z.of_nat n).
Proof. apply Z.pow_pos_nonneg; lia. Qed.

Lemma pow256_succ n : 2 ^ (8 * Z.of_nat (S n)) = 256 * 2 ^ (8 * Z.of_nat n).
Proof. rewrite Nat2Z.inj_succ, Z.mul_succ_r, Z.add_comm, Z.pow_add_r by lia. lia. Qed.

Definition digit (n : nat) (x : Z) : Z := (x / 2 ^ (8 * Z.of_nat n)) mod 256.

Lemma digit_range n x : 0 <= digit n x < 256.
Proof. unfold digit. apply Z.mod_pos_bound. lia. Qed.

Lemma be_bytes_cons n x :
  be_bytes (S n) x = String (ascii_of_N (Z.to_N (digit n x))) (be_bytes n x).
Proof.
  simpl. do 3 f_equal. unfold digit.
  change 255 with (Z.ones 8). by rewrite Z.land_ones, Z.shiftr_div_pow2 by lia.
Qed.

Lemma digit_ascii n x : Z.of_N (N_of_ascii (ascii_of_N (Z.to_N (digit n x)))) = digit n x.
Proof.
  pose proof (digit_range n x). rewrite N_ascii_embedding by lia. lia.
Qed.

Lemma be_bytes_length n x : String.length (be_bytes n x) = n.
Proof. induction n; simpl; auto. Qed.

(** A number below [256^(n+1)] is its first digit and the rest. *)
Lemma split_digit n x :
  x mod 2 ^ (8 * Z.of_nat (S n)) = 2 ^ (8 * Z.of_nat n) * digit n x + x mod 2 ^ (8 * Z.of_nat n).
Proof.
  unfold digit. rewrite pow256_succ, Z.mul_comm. pose proof (pow256_pos n).
  rewrite Z.rem_mul_r by lia. lia.
Qed.

Lemma from_be_bytes_app acc n x :
  0 <= acc -> from_be_bytes acc (be_bytes n x) = acc * 2 ^ (8 * Z.of_nat n) + x mod 2 ^ (8 * Z.of_nat n).
Proof.
  revert acc. induction n as [|n IH]; intros acc Ha.
  { simpl. rewrite Z.mod_1_r. lia. }
  rewrite be_bytes_cons. cbn [from_be_bytes]. rewrite digit_ascii.
  pose proof (digit_range n x).
  assert (Z.lor (Z.shiftl acc 8) (digit n x) = acc * 256 + digit n x) as ->.
  { rewrite Z.shiftl_mul_pow2 by lia. rewrite <- Z.lxor_lor, <- Z.add_nocarry_lxor; [lia|..];
      apply Z.bits_inj'; intros i Hi; rewrite Z.land_spec, Z.bits_0;
      rewrite Z.mul_pow2_bits by lia;
      (destruct (Z.ltb_spec i 8); [by rewrite (Z.testbit_neg_r acc) by lia|]);
      rewrite andb_comm; apply andb_false_iff; left;
      apply Z.bits_above_log2; try lia;
      (destruct (decide (digit n x = 0)) as [->|]; [simpl; lia|]);
      assert (Z.log2 (digit n x) < 8) by (apply Z.log2_lt_pow2; lia); lia. }
  rewrite IH by lia. rewrite split_digit, pow256_succ. ring.
Qed.

Lemma from_be_bytes_be_bytes x : is_u64 x -> from_be_bytes 0 (be_bytes 8 x) = x.
Proof.
  unfold is_u64, u64_max. intros Hx. rewrite from_be_bytes_app by lia.
  rewrite Z.mod_small; [lia|]. change (2 ^ (8 * Z.of_nat 8)) with 18446744073709551616. lia.
Qed.

Lemma be_bytes_leb n x y :
  string_leb (be_bytes n x) (be_bytes n y) =
  (x mod 2 ^ (8 * Z.of_nat n) <=? y mod 2 ^ (8 * Z.of_nat n)).
Proof.
  induction n as [|n IH]; [by rewrite !Z.mod_1_r|].
  rewrite !be_bytes_cons. cbn [string_leb]. rewrite IH, !split_digit.
  pose proof (digit_ascii n x) as Hx. pose proof (digit_ascii n y) as Hy.
  pose proof (Z.mod_pos_bound x _ (pow256_pos n)). pose proof (Z.mod_pos_bound y _ (pow256_pos n)).
  pose proof (pow256_pos n).
  destruct (Ascii.eqb_spec (ascii_of_N (Z.to_N (digit n x))) (ascii_of_N (Z.to_N (digit n y)))) as [E|E].
  - rewrite E in Hx. assert (digit n x = digit n y) as -> by congruence.
    apply eq_bool_prop_intro. rewrite !Is_true_true, !Z.leb_le. lia.
  - unfold nat_of_ascii. apply eq_bool_prop_intro. rewrite !Is_true_true, Nat.ltb_lt, Z.leb_le.
    assert (digit n x <> digit n y) by congruence.
    assert ((N.to_nat (N_of_ascii (ascii_of_N (Z.to_N (digit n x)))) <
             N.to_nat (N_of_ascii (ascii_of_N (Z.to_N (digit n y)))))%nat <-> digit n x < digit n y) as -> by lia.
    split; intros; nia.
Qed.

Lemma be_bytes_leb_u64 x y :
  is_u64 x -> is_u64 y -> string_leb (be_bytes 8 x) (be_bytes 8 y) = (x <=? y).
Proof.
  unfold is_u64, u64_max. intros Hx Hy. rewrite be_bytes_leb.
  change (2 ^ (8 * Z.of_nat 8)) with 18446744073709551616. by rewrite !Z.mod_small by lia.
Qed.

(** ** Prefixes *)

Lemma string_leb_app p s t : string_leb (p +:+ s) (p +:+ t) = string_leb s t.
Proof.
  induction p as [|a p IH]; [done|]. rewrite !append_cons. cbn [string_leb].
  by rewrite Ascii.eqb_refl.
Qed.

(** What lies between two strings with a prefix has the prefix. *)
Lemma between_prefix p s t k :
  string_leb (p +:+ s) k = true -> string_leb k (p +:+ t) = true -> exists r, k = p +:+ r.
Proof.
  revert k. induction p as [|a p IH]; intros k; [by exists k|].
  rewrite !append_cons. destruct k as [|c k]; [done|]. cbn [string_leb].
  destruct (Ascii.eqb_spec a c) as [->|Hac].
  - rewrite Ascii.eqb_refl. intros H1 H2. destruct (IH k H1 H2) as [r ->]. by exists r.
  - destruct (Ascii.eqb_spec c a) as [->|]; [done|]. rewrite !Nat.ltb_lt. lia.
Qed.

(** Names of queues hold no zero byte. *)
Definition nul : ascii := ascii_of_N 0.
Definition no_nul (s : string) : Prop := contains_char nul s = false.

Lemma no_nul_split u v r r' :
  no_nul u -> no_nul v -> u +:+ String nul r = v +:+ String nul r' -> u = v /\ r = r'.
Proof.
  unfold no_nul. revert v. induction u as [|a u IH]; intros [|c v] Hu Hv.
  - intros [= ->]. done.
  - rewrite append_nil_l, append_cons. intros [= <- _]. cbn in Hv. done.
  - rewrite append_nil_l, append_cons. intros [= -> _]. cbn in Hu. done.
  - rewrite !append_cons. intros [= -> E]. cbn [contains_char] in Hu, Hv.
    apply orb_false_iff in Hu as [_ Hu], Hv as [_ Hv]. destruct (IH v Hu Hv E) as [-> ->]. done.
Qed.

Lemma message_key_eq u i : message_key u i = u +:+ String nul (be_bytes 8 i).
Proof. unfold message_key, message_prefix. by rewrite string_app_assoc. Qed.

Lemma be_bytes_inj x y : is_u64 x -> is_u64 y -> be_bytes 8 x = be_bytes 8 y -> x = y.
Proof. intros Hx Hy E. by rewrite <- (from_be_bytes_be_bytes x), E, from_be_bytes_be_bytes. Qed.

Lemma message_key_inj u v i j :
  no_nul u -> no_nul v -> is_u64 i -> is_u64 j ->
  message_key u i = message_key v j -> u = v /\ i = j.
Proof.
  intros Hu Hv Hi Hj. rewrite !message_key_eq. intros [-> E]%no_nul_split; [|done..].
  split; [done|]. by apply be_bytes_inj.
Qed.

Lemma message_key_leb u i j :
  is_u64 i -> is_u64 j -> string_leb (message_key u i) (message_key u j) = (i <=? j).
Proof. intros. unfold message_key. by rewrite string_leb_app, be_bytes_leb_u64. Qed.

(** The keys between two of a queue are keys of the queue. *)
Lemma message_key_between u v i j k :
  no_nul u -> no_nul v ->
  string_leb (message_key u i) (message_key v k) = true ->
  string_leb (message_key v k) (message_key u j) = true -> v = u.
Proof.
  intros Hu Hv H1 H2.
  destruct (between_prefix (message_prefix u) (be_bytes 8 i) (be_bytes 8 j) _ H1 H2) as [r E].
  rewrite message_key_eq in E. unfold message_prefix in E. rewrite string_app_assoc in E.
  by apply no_nul_split in E as [-> _].
Qed.

Lemma starts_with_message_prefix u v i :
  no_nul u -> no_nul v -> starts_with (message_prefix u) (message_key v i) = bool_decide (u = v).
Proof.
  intros Hu Hv. apply eq_bool_prop_intro. rewrite !Is_true_true, starts_with_spec, bool_decide_eq_true.
  split.
  - intros [t E]. rewrite message_key_eq in E. unfold message_prefix in E. rewrite string_app_assoc in E.
    by apply no_nul_split in E as [-> _].
  - intros ->. by exists (be_bytes 8 i).
Qed.

Lemma string_length_app s t : String.length (s +:+ t) = (String.length s + String.length t)%nat.
Proof. induction s as [|a s IH]; [done|]. rewrite append_cons. simpl. by rewrite IH. Qed.

Lemma skip_bytes_app s t : skip_bytes (String.length s) (s +:+ t) = t.
Proof. induction s as [|a s IH]; [by destruct t|]. rewrite append_cons. simpl. done. Qed.

Lemma decode_index_from_message_key u i : is_u64 i -> decode_index_from_key (message_key u i) = Some i.
Proof.
  intros Hi. unfold decode_index_from_key, message_key. rewrite string_length_app, be_bytes_length.
  assert ((String.length (message_prefix u) + 8 <? 8)%nat = false) as -> by (apply Nat.ltb_ge; lia).
  rewrite Nat.add_sub, skip_bytes_app, from_be_bytes_be_bytes; done.
Qed.
