(* ===== verification/KMsgSpec.v ===== *)
(** What the message queue service promises: each queue is a list of messages
    in the order of their indexes, with the index the next one will get; its
    counters are functions of that list; a reader gets the messages from its
    cursor on.  [implements] relates the sled trees to such a state. *)
From Stdlib Require Import ZArith Lia Ascii Sorted Permutation.
From stdpp Require Import base tactics numbers gmap strings sorting list.
From S2P Require Import Prelude RustString KMsg KMsgKeys.

(** ** The abstract service *)

Record AQueue := mkAQueue { aq_config : QueueConfig; aq_next : MsgIndex; aq_log : list Message }.

Record AService := mkService {
  a_queues : gmap string AQueue;
  a_subs : gmap string SubscriptionState;
  a_ids : gmap string Z
}.

Definition message_len (m : Message) : Z := Z.of_nat (String.length (payload m)).
Definition total_len (l : list Message) : Z := foldr Z.add 0 (message_len <$> l).

Definition aq_meta (aq : AQueue) : QueueMeta :=
  mkMeta (aq_next aq) (Z.of_nat (length (aq_log aq)))
    (from_option msg_index 0 (head (aq_log aq))) (from_option msg_index 0 (last (aq_log aq)))
    (total_len (aq_log aq)).

(** The messages from an index on. *)
Definition from_index (i : MsgIndex) (l : list Message) : list Message :=
  List.filter (fun m => i <=? msg_index m) l.
Definition before_index (i : MsgIndex) (l : list Message) : list Message :=
  List.filter (fun m => msg_index m <? i) l.

Definition set_a_queues f (a : AService) := mkService (f (a_queues a)) (a_subs a) (a_ids a).
Definition set_a_subs f (a : AService) := mkService (a_queues a) (f (a_subs a)) (a_ids a).
Definition set_a_ids f (a : AService) := mkService (a_queues a) (a_subs a) (f (a_ids a)).

Section spec.
Variable b : build.

Abbreviation u64 := (unsigned_op b u64_max).
Abbreviation AM A := (AService * result A)%type.

Definition a_queue (a : AService) (urn : QueueUrn) : result AQueue :=
  match a_queues a !! urn with Some aq => Ok aq | None => queue_not_found urn end.

Definition a_name (given : option string) (prefix counter : string) (a : AService) : AM string :=
  match given with
  | Some value => (a, Ok value)
  | None =>
    match u64 (default 0 (a_ids a !! counter) + 1) with
    | Ok n => (set_a_ids <[counter := n]> a, Ok (prefix +:+ u64_to_string n))
    | Err m => (a, Err m)
    | Panic => (a, Panic)
    end
  end.

Definition a_create (name : option string) (appid app_owner : string) (config : QueueConfig) (a : AService)
  : AM QueueUrn :=
  match a_name name "queue-" "queue_id" a with
  | (a, Ok name) =>
    let urn := calc_queue_urn appid app_owner name in
    match a_queues a !! urn with
    | Some _ => (a, Err ("Queue already exists: " +:+ urn))
    | None => (set_a_queues <[urn := mkAQueue config 1 []]> a, Ok urn)
    end
  | r => r
  end.

Definition a_delete (urn : QueueUrn) (a : AService) : AM unit :=
  match a_queues a !! urn with
  | None => (a, queue_not_found urn)
  | Some _ =>
    (set_a_subs (filter (fun kv => sub_queue_urn kv.2 <> urn)) (set_a_queues (delete urn) a), Ok ())
  end.

Definition a_stats (urn : QueueUrn) (a : AService) : result QueueStats :=
  aq ← a_queue a urn;
  let m := aq_meta aq in mret (mkStats (message_count m) (first_index m) (last_index m) (size_bytes m)).

Definition a_config (urn : QueueUrn) (config : QueueConfig) (a : AService) : AM unit :=
  match a_queues a !! urn with
  | None => (a, queue_not_found urn)
  | Some aq => (set_a_queues <[urn := mkAQueue config (aq_next aq) (aq_log aq)]> a, Ok ())
  end.

(** A post appends the message under the next index. *)
Definition a_post (now : Z) (urn : QueueUrn) (m : Message) (a : AService) : AM MsgIndex :=
  match a_queues a !! urn with
  | None => (a, queue_not_found urn)
  | Some aq =>
    let m := mkMessage (aq_next aq) (if created_at m =? 0 then now else created_at m) (payload m) (headers m) in
    (set_a_queues <[urn := mkAQueue (aq_config aq) (aq_next aq + 1) (aq_log aq ++ [m])]> a, Ok (aq_next aq))
  end.

Definition a_position (urn : QueueUrn) (position : SubPosition) (a : AService) : result MsgIndex :=
  aq ← a_queue a urn;
  match position with
  | Earliest => Ok (from_option msg_index 1 (head (aq_log aq)))
  | Latest => u64 (from_option msg_index 0 (last (aq_log aq)) + 1)
  | At index => Ok index
  end.

Definition a_subscribe (urn : QueueUrn) (sub_id : option SubscriptionId) (position : SubPosition)
    (a : AService) : AM SubscriptionId :=
  match a_position urn position a with
  | Err m => (a, Err m)
  | Panic => (a, Panic)
  | Ok c =>
    match a_name sub_id "sub-" "sub_id" a with
    | (a, Ok sub_id) =>
      match a_subs a !! sub_id with
      | Some _ => (a, Err ("Subscription already exists: " +:+ sub_id))
      | None => (set_a_subs <[sub_id := mkSub urn c]> a, Ok sub_id)
      end
    | r => r
    end
  end.

Definition a_unsubscribe (sub_id : SubscriptionId) (a : AService) : AM unit :=
  match a_subs a !! sub_id with
  | None => (a, sub_not_found sub_id)
  | Some _ => (set_a_subs (delete sub_id) a, Ok ())
  end.

(** At least one message where there is one, whatever [length] says. *)
Definition a_scan (urn : QueueUrn) (from : MsgIndex) (length : nat) (a : AService) : list Message :=
  take (max 1 length) (from_index from (from_option aq_log [] (a_queues a !! urn))).

Definition a_fetch (sub_id : SubscriptionId) (length : nat) (auto_commit : bool) (a : AService)
  : AM (list Message) :=
  match a_subs a !! sub_id with
  | None => (a, sub_not_found sub_id)
  | Some sub =>
    let msgs := a_scan (sub_queue_urn sub) (cursor sub) length a in
    match (if auto_commit then last msgs else None) with
    | None => (a, Ok msgs)
    | Some m => (set_a_subs <[sub_id := mkSub (sub_queue_urn sub) (msg_index m + 1)]> a, Ok msgs)
    end
  end.

Definition a_read (urn : QueueUrn) (from : MsgIndex) (length : nat) (a : AService) : result (list Message) :=
  _ ← a_queue a urn;
  mret (a_scan urn from length a).

Definition a_set_cursor (sub_id : SubscriptionId) (c : SubscriptionState -> result MsgIndex) (a : AService)
  : AM unit :=
  match a_subs a !! sub_id with
  | None => (a, sub_not_found sub_id)
  | Some sub =>
    match c sub with
    | Ok c => (set_a_subs <[sub_id := mkSub (sub_queue_urn sub) c]> a, Ok ())
    | Err m => (a, Err m)
    | Panic => (a, Panic)
    end
  end.

Definition a_delete_before (urn : QueueUrn) (index : MsgIndex) (a : AService) : AM Z :=
  match a_queues a !! urn with
  | None => (a, queue_not_found urn)
  | Some aq =>
    (set_a_queues <[urn := mkAQueue (aq_config aq) (aq_next aq) (from_index index (aq_log aq))]> a,
     Ok (Z.of_nat (length (before_index index (aq_log aq)))))
  end.
End spec.

(** ** Calls *)

Inductive KCall :=
| CreateQueue (name : option string) (appid app_owner : string) (config : QueueConfig)
| DeleteQueue (urn : QueueUrn)
| GetStats (urn : QueueUrn)
| UpdateConfig (urn : QueueUrn) (config : QueueConfig)
| PostMessage (now : Z) (urn : QueueUrn) (m : Message)
| Subscribe (urn : QueueUrn) (sub_id : option SubscriptionId) (position : SubPosition)
| Unsubscribe (sub_id : SubscriptionId)
| FetchMessages (sub_id : SubscriptionId) (length : nat) (auto_commit : bool)
| ReadMessage (urn : QueueUrn) (from : MsgIndex) (length : nat)
| CommitAck (sub_id : SubscriptionId) (index : MsgIndex)
| Seek (sub_id : SubscriptionId) (position : SubPosition)
| DeleteMessageBefore (urn : QueueUrn) (index : MsgIndex).

Inductive KReply :=
| RName (s : string) | RUnit | RStats (s : QueueStats) | RIndex (i : Z) | RMessages (l : list Message).

(** A call's reply, among all replies. *)
Definition reply {S A} (f : A -> KReply) (r : S * result A) : S * result KReply :=
  (r.1, match r.2 with Ok x => Ok (f x) | Err m => Err m | Panic => Panic end).

Section calls.
Variable b : build.

Definition k_call (c : KCall) (q : SledMsgQueue) : SledMsgQueue * result KReply :=
  match c with
  | CreateQueue n i o c => reply RName (handle_create_queue b n i o c q)
  | DeleteQueue u => reply (fun _ => RUnit) (handle_delete_queue u q)
  | GetStats u => reply RStats (q, handle_get_queue_stats u q)
  | UpdateConfig u c => reply (fun _ => RUnit) (handle_update_queue_config u c q)
  | PostMessage now u m => reply RIndex (handle_post_message b now u m q)
  | Subscribe u s p => reply RName (handle_subscribe b u s p q)
  | Unsubscribe s => reply (fun _ => RUnit) (handle_unsubscribe s q)
  | FetchMessages s n auto => reply RMessages (handle_fetch_messages b s n auto q)
  | ReadMessage u i n => reply RMessages (q, handle_read_message u i n q)
  | CommitAck s i => reply (fun _ => RUnit) (handle_commit_ack b s i q)
  | Seek s p => reply (fun _ => RUnit) (handle_seek b s p q)
  | DeleteMessageBefore u i => reply RIndex (handle_delete_message_before u i q)
  end.

Definition a_call (c : KCall) (a : AService) : AService * result KReply :=
  match c with
  | CreateQueue n i o c => reply RName (a_create b n i o c a)
  | DeleteQueue u => reply (fun _ => RUnit) (a_delete u a)
  | GetStats u => reply RStats (a, a_stats u a)
  | UpdateConfig u c => reply (fun _ => RUnit) (a_config u c a)
  | PostMessage now u m => reply RIndex (a_post now u m a)
  | Subscribe u s p => reply RName (a_subscribe b u s p a)
  | Unsubscribe s => reply (fun _ => RUnit) (a_unsubscribe s a)
  | FetchMessages s n auto => reply RMessages (a_fetch s n auto a)
  | ReadMessage u i n => reply RMessages (a, a_read u i n a)
  | CommitAck s i => reply (fun _ => RUnit) (a_set_cursor s (fun _ => unsigned_op b u64_max (i + 1)) a)
  | Seek s p => reply (fun _ => RUnit) (a_set_cursor s (fun sub => a_position b (sub_queue_urn sub) p a) a)
  | DeleteMessageBefore u i => reply RIndex (a_delete_before u i a)
  end.

(** What a call brings along: indexes are u64, the name of a new queue holds
    no zero byte, and the counters of the queue have room for a message. *)
Definition position_ok (p : SubPosition) : Prop := match p with At i => is_u64 i | _ => True end.

Definition call_ok (c : KCall) (a : AService) : Prop :=
  match c with
  | CreateQueue n i o _ =>
    forall a' name, a_name b n "queue-" "queue_id" a = (a', Ok name) -> no_nul (calc_queue_urn i o name)
  | PostMessage _ u m => forall aq, a_queues a !! u = Some aq ->
      aq_next aq < u64_max /\ total_len (aq_log aq) + message_len m <= u64_max
  | Subscribe _ _ p | Seek _ p => position_ok p
  | ReadMessage _ i _ | CommitAck _ i | DeleteMessageBefore _ i => is_u64 i
  | _ => True
  end.
End calls.

(** ** The simulation relation *)

(** Indexes increase along a log and stay below the next one. *)
Record aq_wf (aq : AQueue) : Prop := {
  log_sorted : StronglySorted (fun m m' => msg_index m < msg_index m') (aq_log aq);
  log_bounded : Forall (fun m => 1 <= msg_index m < aq_next aq) (aq_log aq);
  next_u64 : 1 <= aq_next aq <= u64_max;
  size_u64 : total_len (aq_log aq) <= u64_max
}.

Record a_wf (a : AService) : Prop := {
  queues_wf : map_Forall (fun u aq => no_nul u /\ aq_wf aq) (a_queues a);
  subs_wf : map_Forall (fun _ sub => is_Some (a_queues a !! sub_queue_urn sub) /\ is_u64 (cursor sub)) (a_subs a)
}.

Record implements (q : SledMsgQueue) (a : AService) : Prop := {
  impl_wf : a_wf a;
  impl_subs : subs q = a_subs a;
  impl_ids : meta q = a_ids a;
  impl_queues : queues q = aq_config <$> a_queues a;
  impl_meta : queue_meta q = aq_meta <$> a_queues a;
  impl_messages : forall k m, messages q !! k = Some m <->
    exists u aq, a_queues a !! u = Some aq /\ m ∈ aq_log aq /\ k = message_key u (msg_index m)
}.
