(* ===== verification/KMsgRefine.v ===== *)
(** Each call of the message queue service does to its trees what the
    specification does to its logs, and gives the same reply. *)
From Stdlib Require Import ZArith Lia Ascii Sorted Permutation.
From stdpp Require Import base tactics numbers gmap strings sorting list.
From S2P Require Import Prelude RustString Lists KMsg KMsgKeys KMsgSpec.

(** ** Logs *)

Lemma from_index_sorted R i l : StronglySorted R l -> StronglySorted R (from_index i l).
Proof. intros Hs. unfold from_index. by apply StronglySorted_filterb. Qed.

Lemma elem_of_from_index i l m : m ∈ from_index i l <-> i <= msg_index m /\ m ∈ l.
Proof. unfold from_index. rewrite elem_of_filterb, Z.leb_le. tauto. Qed.

Lemma elem_of_before_index i l m : m ∈ before_index i l <-> msg_index m < i /\ m ∈ l.
Proof. unfold before_index. rewrite elem_of_filterb, Z.ltb_lt. tauto. Qed.

(** A sorted log is what comes before an index and what comes from it on. *)
Lemma log_split i l :
  StronglySorted (fun m m' => msg_index m < msg_index m') l ->
  l = before_index i l ++ from_index i l.
Proof.
  unfold before_index, from_index. induction 1 as [|m l Hs IH Hm]; [done|]. simpl.
  destruct (Z.ltb_spec (msg_index m) i) as [Hi|Hi], (Z.leb_spec i (msg_index m)); try lia.
  - simpl. by rewrite <- IH.
  - assert (List.filter (fun m => msg_index m <? i) l = []) as ->.
    { apply filterb_none. eapply Forall_impl; [exact Hm|]. intros m'. simpl. rewrite Z.ltb_ge. lia. }
    simpl. f_equal. symmetry. apply filterb_all. eapply Forall_impl; [exact Hm|].
    intros m'. simpl. rewrite Z.leb_le. lia.
Qed.

Lemma log_index_eq aq m m' :
  aq_wf aq -> m ∈ aq_log aq -> m' ∈ aq_log aq -> msg_index m = msg_index m' -> m = m'.
Proof.
  intros [Hs _ _ _]. induction Hs as [|x l Hs IH Hx]; [set_solver|].
  rewrite Forall_forall in Hx. intros [->|Hm]%elem_of_cons [->|Hm']%elem_of_cons; [done|..|auto];
    intros E; [apply Hx in Hm'|apply Hx in Hm]; lia.
Qed.

Lemma log_index_u64 aq m : aq_wf aq -> m ∈ aq_log aq -> 1 <= msg_index m < aq_next aq /\ is_u64 (msg_index m).
Proof.
  intros [_ Hb Hn _] Hm. rewrite Forall_forall in Hb. apply Hb in Hm. unfold is_u64. lia.
Qed.

Lemma log_NoDup aq : aq_wf aq -> NoDup (aq_log aq).
Proof. intros [Hs _ _ _]. eapply StronglySorted_NoDup; [|done]. intros x. simpl. lia. Qed.

(** ** Scans *)

Section scans.
Context (q : SledMsgQueue) (a : AService) (Hi : implements q a).

Definition keyed (u : QueueUrn) (m : Message) : string * Message := (message_key u (msg_index m), m).

(** A scan whose bounds pick out messages of one queue lists them in order. *)
Lemma scan_keys (P : string * Message -> bool) (Q : Message -> bool) u aq :
  a_queues a !! u = Some aq ->
  (forall v aq' m, a_queues a !! v = Some aq' -> m ∈ aq_log aq' ->
     P (keyed v m) = bool_decide (v = u) && Q m) ->
  in_key_order (List.filter P (map_to_list (messages q))) = keyed u <$> List.filter Q (aq_log aq).
Proof.
  intros Hu HP. destruct (queues_wf _ (impl_wf _ _ Hi) _ _ Hu) as [Hnul Hwf].
  apply (sorted_same_elements (fun x y => string_leb x.1 y.1 = true)).
  - intros [k m] [k' m']. unfold in_key_order. rewrite !elem_of_sort_stable, !elem_of_filterb.
    rewrite !elem_of_map_to_list. simpl. intros [_ Hk] [_ Hk'] H1 H2.
    pose proof (string_leb_antisym _ _ H1 H2) as ->. by simplify_eq.
  - unfold in_key_order. rewrite sort_stable_perm. apply NoDup_filterb, NoDup_map_to_list.
  - apply NoDup_fmap_2_strong; [|by apply NoDup_filterb, log_NoDup]. by intros x y _ _ [= _ ->].
  - apply (sort_stable_sorted _ (fun _ => True)); [| |by apply Forall_true].
    + intros. apply string_leb_total.
    + intros x y z _ _ _. apply string_leb_trans.
  - eapply StronglySorted_fmap_impl; [|apply StronglySorted_filterb, Hwf].
    intros x y [_ Hx]%elem_of_filterb [_ Hy]%elem_of_filterb Hxy. simpl.
    rewrite message_key_leb by (by eapply log_index_u64). apply Z.leb_le. lia.
  - intros [k m]. unfold in_key_order. rewrite elem_of_sort_stable, elem_of_filterb, elem_of_map_to_list.
    rewrite (impl_messages _ _ Hi), list_elem_of_fmap. setoid_rewrite elem_of_filterb. split.
    + intros (Hp & v & aq' & Hv & Hm & ->). pose proof (HP _ _ _ Hv Hm) as E. unfold keyed in E.
      rewrite Hp in E. symmetry in E. apply andb_true_iff in E as [->%bool_decide_eq_true HQ].
      simplify_eq. by exists m.
    + intros (m' & [= -> ->] & HQ & Hm). pose proof (HP _ _ _ Hu Hm) as E. unfold keyed in E.
      rewrite E, bool_decide_true, HQ by done. split; [done|]. by exists u, aq.
Qed.

(** Where a message stands against a bound of its own queue. *)
Lemma key_bounds u v aq m lo hi :
  no_nul u -> a_queues a !! v = Some aq -> m ∈ aq_log aq -> is_u64 lo -> is_u64 hi ->
  string_leb (message_key u lo) (message_key v (msg_index m)) &&
  string_leb (message_key v (msg_index m)) (message_key u hi) =
  bool_decide (v = u) && ((lo <=? msg_index m) && (msg_index m <=? hi)).
Proof.
  intros Hu Hv Hm Hlo Hhi. destruct (queues_wf _ (impl_wf _ _ Hi) _ _ Hv) as [Hnv Hwf].
  destruct (log_index_u64 _ _ Hwf Hm) as [_ Hm64]. case_bool_decide as E.
  - subst. by rewrite !message_key_leb.
  - apply andb_false_iff. destruct (string_leb (message_key u lo) _) eqn:E1; [|by left].
    right. apply not_true_iff_false. intros E2. by apply E, (message_key_between u v lo hi (msg_index m)).
Qed.

Lemma u64_max_ok : is_u64 u64_max. Proof. unfold is_u64, u64_max. lia. Qed.
Lemma zero_ok : is_u64 0. Proof. unfold is_u64, u64_max. lia. Qed.

Lemma range_incl_log u aq from :
  a_queues a !! u = Some aq -> is_u64 from ->
  range_incl (messages q) (message_key u from) (message_key u u64_max) = keyed u <$> from_index from (aq_log aq).
Proof.
  intros Hu Hf. destruct (queues_wf _ (impl_wf _ _ Hi) _ _ Hu) as [Hnul _].
  apply scan_keys; [done|]. intros v aq' m Hv Hm. simpl.
  rewrite (key_bounds u v aq' m from u64_max Hnul Hv Hm Hf u64_max_ok).
  destruct (queues_wf _ (impl_wf _ _ Hi) _ _ Hv) as [_ Hwf].
  destruct (log_index_u64 _ _ Hwf Hm) as [_ [_ Hm64]].
  by rewrite (proj2 (Z.leb_le _ _) Hm64), andb_true_r.
Qed.

Lemma range_to_log u aq index :
  a_queues a !! u = Some aq -> is_u64 index ->
  range_to (messages q) (message_key u 0) (message_key u index) = keyed u <$> before_index index (aq_log aq).
Proof.
  intros Hu Hx. destruct (queues_wf _ (impl_wf _ _ Hi) _ _ Hu) as [Hnul _].
  apply scan_keys; [done|]. intros v aq' m Hv Hm. simpl.
  destruct (queues_wf _ (impl_wf _ _ Hi) _ _ Hv) as [Hnv Hwf].
  destruct (log_index_u64 _ _ Hwf Hm) as [Hm1 Hm64]. case_bool_decide as E.
  - subst. rewrite !message_key_leb by (done || apply zero_ok).
    rewrite andb_true_l. apply eq_bool_prop_intro. rewrite !Is_true_true, andb_true_iff, negb_true_iff, Z.leb_le, Z.leb_gt, Z.ltb_lt. lia.
  - apply andb_false_iff. destruct (string_leb (message_key u 0) _) eqn:E1; [|by left].
    right. apply negb_false_iff.
    destruct (string_leb_total (message_key u index) (message_key v (msg_index m))) as [|E2]; [done|].
    exfalso. by apply E, (message_key_between u v 0 index (msg_index m)).
Qed.

Lemma collect_messages_take items length acc :
  (List.length acc < max 1 length)%nat ->
  collect_messages items length acc = acc ++ take (max 1 length - List.length acc) items.*2.
Proof.
  revert acc. induction items as [|[k m] items IH]; intros acc Ha; csimpl.
  { by rewrite take_nil, app_nil_r. }
  rewrite length_app. simpl. destruct (Nat.leb_spec length (List.length acc + 1)) as [Hl|Hl].
  - assert (max 1 length - List.length acc = 1)%nat as -> by lia. done.
  - rewrite IH by (rewrite length_app; simpl; lia). rewrite length_app. simpl.
    replace (max 1 length - List.length acc)%nat with (S (max 1 length - (List.length acc + 1))) by lia.
    simpl. by rewrite <- app_assoc.
Qed.

Lemma keyed_snd u l : (keyed u <$> l).*2 = l.
Proof. rewrite <- list_fmap_compose. by apply list_fmap_id. Qed.

(** No queue, no messages under its keys. *)
Lemma scan_messages_log u from length :
  is_Some (a_queues a !! u) -> is_u64 from ->
  scan_messages u from length q = a_scan u from length a.
Proof.
  intros [aq Hu] Hf. unfold scan_messages, a_scan. rewrite collect_messages_take by (simpl; lia).
  rewrite (range_incl_log u aq) by done. rewrite keyed_snd, Hu. simpl. by rewrite Nat.sub_0_r.
Qed.
End scans.

(** The two sides of a call give the same result and stay related. *)
Definition sim {A} (r : SledMsgQueue * result A) (r' : AService * result A) : Prop :=
  r.2 = r'.2 /\ implements r.1 r'.1.

Lemma sim_reply {A} (f : A -> KReply) r r' : sim r r' -> sim (reply f r) (reply f r').
Proof. unfold sim, reply. intros [-> Hi]. done. Qed.

(** ** Frames *)

Lemma implements_subs q a f :
  implements q a ->
  map_Forall (fun _ sub => is_Some (a_queues a !! sub_queue_urn sub) /\ is_u64 (cursor sub)) (f (a_subs a)) ->
  implements (set_subs f q) (set_a_subs f a).
Proof. intros [[Hq Hs] H1 H2 H3 H4 H5] Hf. split; simpl; [split|..]; try done. by rewrite H1. Qed.

Lemma implements_ids q a f : implements q a -> implements (set_ids f q) (set_a_ids f a).
Proof. intros [[Hq Hs] H1 H2 H3 H4 H5]. split; simpl; [split|..]; try done. by rewrite H2. Qed.

Lemma set_cursor_subs_wf a sub_id sub c :
  a_wf a -> a_subs a !! sub_id = Some sub -> is_u64 c ->
  map_Forall (fun _ sub => is_Some (a_queues a !! sub_queue_urn sub) /\ is_u64 (cursor sub))
    (<[sub_id := mkSub (sub_queue_urn sub) c]> (a_subs a)).
Proof.
  intros [_ Hs] Hsub Hc. apply map_Forall_insert_2; [|done]. simpl.
  split; [|done]. by apply (Hs _ _ Hsub).
Qed.

(** A result of unsigned arithmetic is a u64. *)
Lemma unsigned_op_u64 b v c : unsigned_op b u64_max v = Ok c -> is_u64 c.
Proof.
  unfold unsigned_op, is_u64. destruct (_ && _) eqn:E.
  - intros [= <-]. lia.
  - destruct b; intros [= <-]. pose proof (Z.mod_pos_bound v (u64_max + 1)). unfold u64_max in *. lia.
Qed.

Lemma unsigned_op_fits b v : 0 <= v <= u64_max -> unsigned_op b u64_max v = Ok v.
Proof. intros. unfold unsigned_op. by rewrite (proj2 (Z.leb_le 0 v)), (proj2 (Z.leb_le v u64_max)) by lia. Qed.

Section refine.
Variable b : build.

Lemma sim_name given prefix counter q a :
  implements q a -> sim (given_or_numbered b given prefix counter q) (a_name b given prefix counter a).
Proof.
  intros Hi. unfold given_or_numbered, a_name, next_id. destruct given; [done|].
  rewrite (impl_ids _ _ Hi). destruct (unsigned_op _ _ _); [|done..].
  split; [done|]. by apply implements_ids.
Qed.

Lemma a_name_queues given prefix counter a :
  a_queues (a_name b given prefix counter a).1 = a_queues a /\
  a_subs (a_name b given prefix counter a).1 = a_subs a.
Proof. unfold a_name. destruct given; [done|]. by destruct (unsigned_op _ _ _). Qed.

Lemma queue_config_lookup q a u :
  implements q a -> queues q !! queue_key u = aq_config <$> a_queues a !! u.
Proof. intros Hi. by rewrite (impl_queues _ _ Hi), lookup_fmap. Qed.

Lemma queue_meta_lookup q a u : implements q a -> queue_meta q !! queue_key u = aq_meta <$> a_queues a !! u.
Proof. intros Hi. by rewrite (impl_meta _ _ Hi), lookup_fmap. Qed.

(** ** Queues *)

(** A queue is replaced, with its messages. *)
Lemma implements_insert q a u aq config mt msgs :
  implements q a -> no_nul u -> aq_wf aq -> aq_config aq = config -> aq_meta aq = mt ->
  (forall k m, msgs !! k = Some m <->
     (exists v aq', v <> u /\ a_queues a !! v = Some aq' /\ m ∈ aq_log aq' /\ k = message_key v (msg_index m))
     \/ (m ∈ aq_log aq /\ k = message_key u (msg_index m))) ->
  implements (mkQueues (<[u := config]> (queues q)) (<[u := mt]> (queue_meta q)) msgs (subs q) (meta q))
             (set_a_queues <[u := aq]> a).
Proof.
  intros [[Hq Hs] H1 H2 H3 H4 H5] Hu Haq <- <- Hm. split; simpl; try done.
  - split; simpl.
    + by apply map_Forall_insert_2.
    + intros k sub Hk. destruct (Hs _ _ Hk) as [Hx Hc]. split; [|done].
      rewrite lookup_insert. by case_decide.
  - by rewrite H3, fmap_insert.
  - by rewrite H4, fmap_insert.
  - intros k m. rewrite Hm. split.
    + intros [(v & aq' & Hv & Hl & Hin & ->)|[Hin ->]].
      * exists v, aq'. by rewrite lookup_insert_ne.
      * exists u, aq. by rewrite lookup_insert_eq.
    + intros (v & aq' & Hl & Hin & ->). apply lookup_insert_Some in Hl as [[-> ->]|[Hv Hl]]; [by right|].
      left. exists v, aq'. done.
Qed.

(** The messages of the other queues, and those of this one. *)
Lemma messages_of_queue q a u aq :
  implements q a -> a_queues a !! u = Some aq ->
  forall k m, messages q !! k = Some m <->
    (exists v aq', v <> u /\ a_queues a !! v = Some aq' /\ m ∈ aq_log aq' /\ k = message_key v (msg_index m))
    \/ (m ∈ aq_log aq /\ k = message_key u (msg_index m)).
Proof.
  intros Hi Hu k m. rewrite (impl_messages _ _ Hi). split.
  - intros (v & aq' & Hv & Hm & ->). destruct (decide (v = u)) as [->|]; [simplify_eq; by right|].
    left. exists v, aq'. done.
  - intros [(v & aq' & _ & ?)|[? ?]]; [by exists v, aq'|by exists u, aq].
Qed.

Lemma messages_of_no_queue q a u :
  implements q a -> a_queues a !! u = None ->
  forall k m, messages q !! k = Some m <->
    (exists v aq', v <> u /\ a_queues a !! v = Some aq' /\ m ∈ aq_log aq' /\ k = message_key v (msg_index m)).
Proof.
  intros Hi Hu k m. rewrite (impl_messages _ _ Hi). split.
  - intros (v & aq' & Hv & Hm & ->). exists v, aq'. split_and!; [by intros ->; simplify_eq|done..].
  - intros (v & aq' & _ & ?). by exists v, aq'.
Qed.

Lemma empty_queue_wf config : aq_wf (mkAQueue config 1 []).
Proof. split; simpl; try constructor; unfold u64_max, total_len; simpl; lia. Qed.

Lemma sim_create name appid app_owner config q a :
  implements q a -> call_ok b (CreateQueue name appid app_owner config) a ->
  sim (handle_create_queue b name appid app_owner config q) (a_create b name appid app_owner config a).
Proof.
  intros Hi Hok. unfold handle_create_queue, a_create. simpl in Hok.
  pose proof (sim_name name "queue-" "queue_id" _ _ Hi) as Hn.
  destruct (given_or_numbered _ _ _ _ q) as [q1 r], (a_name _ _ _ _ a) as [a1 r'].
  destruct Hn as [E Hi1]. simpl in E, Hi1. subst r'. destruct r as [n| |]; [|done..].
  set (u := calc_queue_urn appid app_owner n). specialize (Hok _ _ eq_refl).
  rewrite (queue_config_lookup _ _ _ Hi1). destruct (a_queues a1 !! u) as [aq|] eqn:Hu; simpl; [done|].
  split; [done|].
  apply (implements_insert q1 a1 u (mkAQueue config 1 [])); [done|done|apply empty_queue_wf|done|done|].
  intros k m. simpl. rewrite (messages_of_no_queue _ _ _ Hi1 Hu). simpl. set_solver.
Qed.

Lemma sim_config u config q a :
  implements q a -> sim (handle_update_queue_config u config q) (a_config u config a).
Proof.
  intros Hi. unfold handle_update_queue_config, a_config. rewrite (queue_config_lookup _ _ _ Hi).
  destruct (a_queues a !! u) as [aq|] eqn:Hu; simpl; [|done]. split; [done|]. simpl.
  destruct (queues_wf _ (impl_wf _ _ Hi) _ _ Hu) as [Hn [W1 W2 W3 W4]].
  assert (queue_meta q = <[u := aq_meta aq]> (queue_meta q)) as E.
  { symmetry. apply insert_id. pose proof (queue_meta_lookup _ _ u Hi) as E. by rewrite Hu in E. }
  unfold set_queues. rewrite E at 1.
  apply (implements_insert q a u (mkAQueue config (aq_next aq) (aq_log aq))); [done..|].
  intros k m. by rewrite (messages_of_queue _ _ _ _ Hi Hu).
Qed.

Lemma sim_delete u q a : implements q a -> sim (handle_delete_queue u q) (a_delete u a).
Proof.
  intros Hi. unfold handle_delete_queue, a_delete. rewrite (queue_config_lookup _ _ _ Hi).
  destruct (a_queues a !! u) as [aq|] eqn:Hu; simpl; [|done]. split; [done|]. simpl.
  destruct Hi as [[Hq Hs] H1 H2 H3 H4 H5]. destruct (Hq _ _ Hu) as [Hn _]. split; simpl.
  - split; simpl; [by apply map_Forall_delete|].
    intros k sub [Hk Hne]%map_lookup_filter_Some. simpl in Hne. destruct (Hs _ _ Hk) as [? ?].
    rewrite lookup_delete_ne; done.
  - by rewrite H1.
  - done.
  - by rewrite H3, fmap_delete.
  - by rewrite H4, fmap_delete.
  - intros k m. rewrite map_lookup_filter_Some, H5. simpl. split.
    + intros [(v & aq' & Hv & Hm & ->) Hp]. destruct (Hq _ _ Hv) as [Hnv _].
      rewrite starts_with_message_prefix in Hp by done. apply bool_decide_eq_false in Hp.
      exists v, aq'. by rewrite lookup_delete_ne.
    + intros (v & aq' & [Hne Hv]%lookup_delete_Some & Hm & ->). destruct (Hq _ _ Hv) as [Hnv _].
      split; [by exists v, aq'|]. rewrite starts_with_message_prefix by done. by apply bool_decide_eq_false.
Qed.

(** ** Messages *)

Lemma get_meta q a u :
  implements q a -> get_queue_meta q u = (aq ← a_queue a u; mret (aq_meta aq)).
Proof.
  intros Hi. unfold get_queue_meta, a_queue. rewrite (queue_meta_lookup _ _ _ Hi).
  by destruct (a_queues a !! u).
Qed.

Lemma get_config q a u :
  implements q a -> get_queue_config q u = (aq ← a_queue a u; mret (aq_config aq)).
Proof.
  intros Hi. unfold get_queue_config, a_queue. rewrite (queue_config_lookup _ _ _ Hi).
  by destruct (a_queues a !! u).
Qed.

Lemma sim_stats u q a : implements q a -> sim (q, handle_get_queue_stats u q) (a, a_stats u a).
Proof.
  intros Hi. split; [|done]. simpl. unfold handle_get_queue_stats, a_stats.
  rewrite (get_meta _ _ _ Hi). unfold a_queue. by destruct (a_queues a !! u).
Qed.

(** Distinct indexes between 1 and the next one: no more messages than that. *)
Lemma log_length aq : aq_wf aq -> Z.of_nat (length (aq_log aq)) < aq_next aq.
Proof.
  intros [Hs Hb Hn _]. revert Hs Hb. generalize (aq_log aq). intros l Hs Hb.
  assert (Forall (fun m => 1 <= msg_index m) l) as H1 by (eapply Forall_impl; [exact Hb|simpl; lia]).
  assert (Forall (fun m => msg_index m < aq_next aq) l) as H2 by (eapply Forall_impl; [exact Hb|simpl; lia]).
  clear Hb. revert H2. generalize (aq_next aq) (proj1 Hn). revert Hs H1. induction l as [|m l IH] using rev_ind.
  - simpl. lia.
  - intros [Hs [_ Hlt]]%StronglySorted_app_inv [H1 Hm1]%Forall_app n _ [H2 Hm2]%Forall_app.
    rewrite Forall_singleton in Hm1, Hm2. rewrite length_app. simpl.
    destruct (decide (l = [])) as [->|Hl]; [simpl; lia|].
    assert (Forall (fun m' => msg_index m' < msg_index m) l) as Hall
      by (apply Forall_forall; intros m' Hm'; apply Hlt; set_solver).
    specialize (IH Hs H1 (msg_index m)). lapply IH; [|lia]. intros IH'. specialize (IH' Hall). lia.
Qed.

Lemma total_len_app l k : total_len (l ++ k) = total_len l + total_len k.
Proof. unfold total_len. induction l as [|m l IH]; csimpl; [lia|]. rewrite IH. lia. Qed.

Lemma total_len_nonneg l : 0 <= total_len l.
Proof. unfold total_len, message_len. induction l; csimpl; lia. Qed.

Lemma count_post_log aq m :
  aq_wf aq -> aq_next aq < u64_max -> total_len (aq_log aq) + message_len m <= u64_max ->
  count_post b (aq_meta aq) (message_len m) =
  Ok (aq_meta (mkAQueue (aq_config aq) (aq_next aq + 1)
        (aq_log aq ++ [mkMessage (aq_next aq) (created_at m) (payload m) (headers m)])), aq_next aq).
Proof.
  intros Hwf Hn Hl. pose proof (log_length _ Hwf) as Hlen. destruct Hwf as [_ Hb Hn' _].
  pose proof (total_len_nonneg (aq_log aq)). assert (0 <= message_len m) by (unfold message_len; lia).
  unfold count_post, aq_meta. simpl. rewrite !unsigned_op_fits by lia. simpl.
  rewrite length_app, last_snoc, total_len_app. simpl. do 2 f_equal.
  f_equal; [lia| |unfold total_len, message_len; simpl; lia].
  destruct (aq_log aq) as [|x l]; simpl; [done|]. apply Forall_cons in Hb as [Hx _].
  by rewrite (proj2 (Z.eqb_neq _ _)) by lia.
Qed.

Lemma post_wf aq m config :
  aq_wf aq -> aq_next aq < u64_max -> total_len (aq_log aq) + message_len m <= u64_max ->
  msg_index m = aq_next aq -> aq_wf (mkAQueue config (aq_next aq + 1) (aq_log aq ++ [m])).
Proof.
  intros [Hs Hb Hn Hsz] Hn' Hl Hm. split; simpl; try lia.
  - apply StronglySorted_app_inv. split_and!; [done|repeat constructor|].
    intros x y Hx ->%list_elem_of_singleton. rewrite Forall_forall in Hb. apply Hb in Hx. lia.
  - apply Forall_app. split; [eapply Forall_impl; [exact Hb|simpl; lia]|]. apply Forall_singleton. lia.
  - rewrite total_len_app. unfold total_len at 2. simpl. lia.
Qed.

Lemma sim_post now u m q a :
  implements q a -> call_ok b (PostMessage now u m) a -> sim (handle_post_message b now u m q) (a_post now u m a).
Proof.
  intros Hi Hok. unfold handle_post_message, a_post. rewrite (get_config _ _ _ Hi), (queue_meta_lookup _ _ _ Hi).
  unfold a_queue. destruct (a_queues a !! u) as [aq|] eqn:Hu; simpl; [|done].
  destruct (Hok aq Hu) as [Hn Hl]. destruct (queues_wf _ (impl_wf _ _ Hi) _ _ Hu) as [Hnul Hwf].
  set (m' := mkMessage (aq_next aq) _ _ _).
  pose proof (count_post_log aq m' Hwf Hn Hl) as E. change (message_len m') with (message_len m) in E.
  unfold message_len in E at 1. rewrite E. split; [done|]. simpl.
  assert (queues q = <[u := aq_config aq]> (queues q)) as Eq.
  { symmetry. apply insert_id. pose proof (queue_config_lookup _ _ u Hi) as E'. by rewrite Hu in E'. }
  unfold set_queue_meta, set_messages. simpl. rewrite Eq at 1.
  apply (implements_insert q a u (mkAQueue (aq_config aq) (aq_next aq + 1) (aq_log aq ++ [m'])));
    [done|done|by apply post_wf|done|done|].
  intros k x. simpl. rewrite lookup_insert_Some, (messages_of_queue _ _ _ _ Hi Hu), elem_of_app, list_elem_of_singleton.
  assert (is_u64 (aq_next aq)) as H64 by (destruct Hwf; unfold is_u64; lia). split.
  - intros [[<- <-]|[_ [Ho|[Hx ->]]]]; [right; split; [by right|done]|by left|right; split; [by left|done]].
  - intros [(v & aq' & Hv & Hv' & Hx & ->)|[[Hx| ->] ->]]; [right|right|by left].
    + split; [|left; by exists v, aq']. destruct (queues_wf _ (impl_wf _ _ Hi) _ _ Hv') as [Hnv Hwv].
      intros [-> _]%message_key_inj; [done..|]. by apply (log_index_u64 aq' x).
    + split; [|by right]. destruct (log_index_u64 _ _ Hwf Hx) as [Hx1 Hx2].
      intros [_ Hx3]%message_key_inj; [|done..]. lia.
Qed.

(** ** Subscriptions *)

Lemma position_log q a u p :
  implements q a -> (m ← get_queue_meta q u; position_cursor b m p) = a_position b u p a.
Proof.
  intros Hi. unfold a_position. rewrite (get_meta _ _ _ Hi). unfold a_queue.
  destruct (a_queues a !! u) as [aq|] eqn:Hu; [|done]. simpl. destruct p; simpl; try done.
  destruct (queues_wf _ (impl_wf _ _ Hi) _ _ Hu) as [_ [_ Hb _ _]].
  destruct (aq_log aq) as [|m l]; simpl; [done|]. apply Forall_cons in Hb as [Hm _].
  by rewrite (proj2 (Z.eqb_neq _ _)) by lia.
Qed.

Lemma position_u64 a u p c :
  a_wf a -> position_ok p -> a_position b u p a = Ok c -> is_u64 c /\ is_Some (a_queues a !! u).
Proof.
  intros Ha Hp. unfold a_position, a_queue. destruct (a_queues a !! u) as [aq|] eqn:Hu; [|done]. simpl.
  destruct (queues_wf _ Ha _ _ Hu) as [_ [_ Hb _ _]]. destruct p; simpl in *.
  - intros [= <-]. split; [|done]. destruct (aq_log aq) as [|m l] eqn:El; simpl; [unfold is_u64, u64_max; lia|].
    destruct (queues_wf _ Ha _ _ Hu) as [_ Hwf]. apply (log_index_u64 aq m Hwf). rewrite El. by left.
  - intros Hc%unsigned_op_u64. done.
  - by intros [= <-].
Qed.

Lemma sim_subscribe u sub_id p q a :
  implements q a -> position_ok p -> sim (handle_subscribe b u sub_id p q) (a_subscribe b u sub_id p a).
Proof.
  intros Hi Hp. unfold handle_subscribe, a_subscribe. rewrite (position_log _ _ _ _ Hi).
  destruct (a_position b u p a) as [c| |] eqn:Hc; [|done..].
  apply position_u64 in Hc as [Hc Hu]; [|apply Hi|done].
  pose proof (sim_name sub_id "sub-" "sub_id" _ _ Hi) as Hn.
  destruct (a_name_queues sub_id "sub-" "sub_id" a) as [Hq _].
  destruct (given_or_numbered _ _ _ _ q) as [q1 r], (a_name _ _ _ _ a) as [a1 r'].
  destruct Hn as [E Hi1]. simpl in E, Hi1, Hq. subst r'. destruct r as [n| |]; [|done..].
  rewrite (impl_subs _ _ Hi1). destruct (a_subs a1 !! n); [done|]. split; [done|]. simpl.
  apply implements_subs; [done|]. apply map_Forall_insert_2; [|by apply Hi1]. simpl. by rewrite Hq.
Qed.

Lemma sim_unsubscribe sub_id q a : implements q a -> sim (handle_unsubscribe sub_id q) (a_unsubscribe sub_id a).
Proof.
  intros Hi. unfold handle_unsubscribe, a_unsubscribe. rewrite (impl_subs _ _ Hi).
  destruct (a_subs a !! sub_id); [|done]. split; [done|]. apply implements_subs; [done|].
  apply map_Forall_delete, Hi.
Qed.

Lemma sim_set_cursor sub_id c q a :
  implements q a -> (forall sub i, a_subs a !! sub_id = Some sub -> c sub = Ok i -> is_u64 i) ->
  sim (match subs q !! sub_id with
       | None => (q, sub_not_found sub_id)
       | Some sub =>
         match c sub with
         | Ok i => (set_subs <[sub_id := mkSub (sub_queue_urn sub) i]> q, Ok ())
         | Err m => (q, Err m)
         | Panic => (q, Panic)
         end
       end) (a_set_cursor sub_id c a).
Proof.
  intros Hi Hc. unfold a_set_cursor. rewrite (impl_subs _ _ Hi).
  destruct (a_subs a !! sub_id) as [sub|] eqn:Hs; [|done]. destruct (c sub) as [i| |] eqn:Ei; [|done..].
  split; [done|]. apply implements_subs; [done|]. apply set_cursor_subs_wf; [apply Hi|done|by eapply Hc].
Qed.

Lemma sim_commit_ack sub_id i q a :
  implements q a -> sim (handle_commit_ack b sub_id i q) (a_set_cursor sub_id (fun _ => unsigned_op b u64_max (i + 1)) a).
Proof. intros Hi. apply (sim_set_cursor sub_id _ q a Hi). intros. by eapply unsigned_op_u64. Qed.

Lemma sim_seek sub_id p q a :
  implements q a -> position_ok p ->
  sim (handle_seek b sub_id p q) (a_set_cursor sub_id (fun sub => a_position b (sub_queue_urn sub) p a) a).
Proof.
  intros Hi Hp. unfold handle_seek. pose proof (sim_set_cursor sub_id (fun sub => a_position b (sub_queue_urn sub) p a) q a Hi) as Hs.
  destruct (subs q !! sub_id) as [sub|]; [rewrite (position_log _ _ _ _ Hi)|]; apply Hs;
    intros sub' i _ Hc; by apply position_u64 in Hc as [? _]; [|apply Hi|].
Qed.

Lemma sub_queue_log q a sub_id sub :
  implements q a -> a_subs a !! sub_id = Some sub -> is_Some (a_queues a !! sub_queue_urn sub) /\ is_u64 (cursor sub).
Proof. intros Hi Hs. by apply (subs_wf _ (impl_wf _ _ Hi) _ _ Hs). Qed.

Lemma a_scan_elem a u from n m :
  m ∈ a_scan u from n a -> exists aq, a_queues a !! u = Some aq /\ m ∈ aq_log aq /\ from <= msg_index m.
Proof.
  unfold a_scan. intros Hm%subseteq_take. destruct (a_queues a !! u) as [aq|]; simpl in Hm; [|by apply not_elem_of_nil in Hm].
  apply elem_of_from_index in Hm as [? ?]. eauto.
Qed.

Lemma sim_fetch sub_id n auto q a :
  implements q a -> sim (handle_fetch_messages b sub_id n auto q) (a_fetch sub_id n auto a).
Proof.
  intros Hi. unfold handle_fetch_messages, a_fetch. rewrite (impl_subs _ _ Hi).
  destruct (a_subs a !! sub_id) as [sub|] eqn:Hs; [|done].
  destruct (sub_queue_log _ _ _ _ Hi Hs) as [Hu Hc]. rewrite (scan_messages_log q a Hi) by done.
  destruct auto; [|done]. destruct (last _) as [m|] eqn:Hl; [|done].
  apply last_Some_elem_of in Hl. destruct (a_scan_elem _ _ _ _ _ Hl) as (aq & Hq & Hm & _).
  destruct (queues_wf _ (impl_wf _ _ Hi) _ _ Hq) as [_ Hwf].
  destruct (log_index_u64 _ _ Hwf Hm) as [Hm1 _]. destruct Hwf as [_ _ Hn _].
  rewrite unsigned_op_fits by lia. split; [done|]. apply implements_subs; [done|].
  apply set_cursor_subs_wf; [apply Hi|done|unfold is_u64; lia].
Qed.

Lemma sim_read u i n q a :
  implements q a -> is_u64 i -> sim (q, handle_read_message u i n q) (a, a_read u i n a).
Proof.
  intros Hi Hx. split; [|done]. simpl. unfold handle_read_message, a_read. rewrite (get_meta _ _ _ Hi).
  unfold a_queue. destruct (a_queues a !! u) eqn:Hu; [|done]. simpl.
  rewrite (scan_messages_log q a Hi) by eauto. done.
Qed.

(** ** Deletion *)

Lemma fold_delete_lookup (items : list (string * Message)) (tree : gmap string Message) k :
  fold_left (fun tree kv => delete kv.1 tree) items tree !! k =
  if decide (k ∈ items.*1) then None else tree !! k.
Proof.
  revert tree. induction items as [|[k' m] items IH]; intros tree; csimpl; [done|].
  rewrite IH. destruct (decide (k = k')) as [->|Hk].
  - rewrite lookup_delete_eq. rewrite (decide_True (P := k' ∈ k' :: _)) by (by left). by case_decide.
  - rewrite lookup_delete_ne by done. case_decide as E1; case_decide as E2; set_solver.
Qed.

Lemma total_len_keyed u l :
  foldr Z.add 0 ((fun kv : string * Message => Z.of_nat (String.length (payload kv.2))) <$> (keyed u <$> l)) = total_len l.
Proof. unfold total_len. by rewrite <- list_fmap_compose. Qed.

Lemma from_index_wf aq index config :
  aq_wf aq -> aq_wf (mkAQueue config (aq_next aq) (from_index index (aq_log aq))).
Proof.
  intros Hwf. pose proof (log_split index (aq_log aq) (log_sorted _ Hwf)) as E.
  pose proof (total_len_app (before_index index (aq_log aq)) (from_index index (aq_log aq))) as Et.
  rewrite <- E in Et. pose proof (total_len_nonneg (before_index index (aq_log aq))).
  destruct Hwf as [Hs Hb Hn Hsz]. split; simpl; [by apply from_index_sorted| |done|lia].
  rewrite Forall_forall in *. intros m [_ Hm]%elem_of_from_index. auto.
Qed.

(** What is left in the tree when the messages before [index] are gone. *)
Lemma delete_messages q a u aq index config :
  implements q a -> a_queues a !! u = Some aq -> is_u64 index -> config = aq_config aq ->
  let aq' := mkAQueue config (aq_next aq) (from_index index (aq_log aq)) in
  implements
    (mkQueues (<[u := config]> (queues q)) (<[u := aq_meta aq']> (queue_meta q))
       (fold_left (fun tree kv => delete kv.1 tree) (keyed u <$> before_index index (aq_log aq)) (messages q))
       (subs q) (meta q))
    (set_a_queues <[u := aq']> a).
Proof.
  intros Hi Hu Hx -> aq'. destruct (queues_wf _ (impl_wf _ _ Hi) _ _ Hu) as [Hnul Hwf].
  apply implements_insert; [done|done|by apply from_index_wf|done|done|].
  intros k m. rewrite fold_delete_lookup. case_decide as Hk.
  - split; [done|]. apply list_elem_of_fmap in Hk as ([k' m'] & -> & Hm').
    apply list_elem_of_fmap in Hm' as (x & [= -> ->] & [Hxi Hx']%elem_of_before_index). simpl.
    destruct (log_index_u64 _ _ Hwf Hx') as [_ Hx64].
    intros [(v & aqv & Hv & Hv' & Hm & E)|[[Hmi Hm]%elem_of_from_index E]].
    + destruct (queues_wf _ (impl_wf _ _ Hi) _ _ Hv') as [Hnv Hwv].
      apply message_key_inj in E as [-> _]; [done..|]. by eapply log_index_u64.
    + apply message_key_inj in E as [_ E]; [lia|done..|]. by eapply log_index_u64.
  - rewrite (messages_of_queue _ _ _ _ Hi Hu). simpl. split; (intros [|[Hm ->]]; [by left|right]).
    + split; [|done]. apply elem_of_from_index. split; [|done]. apply Z.le_ngt. intros Hlt. apply Hk.
      apply list_elem_of_fmap. exists (keyed u m). split; [done|].
      apply list_elem_of_fmap. exists m. split; [done|]. by apply elem_of_before_index.
    + split; [|done]. by apply elem_of_from_index in Hm as [_ ?].
Qed.

(** The counters that [handle_delete_message_before] computes are those of the
    log that is left. *)
Lemma count_removed_log q a u aq index :
  implements q a -> a_queues a !! u = Some aq -> is_u64 index ->
  let aq' := mkAQueue (aq_config aq) (aq_next aq) (from_index index (aq_log aq)) in
  count_removed u index (Z.of_nat (length (before_index index (aq_log aq))))
    (total_len (before_index index (aq_log aq)))
    (fold_left (fun tree kv => delete kv.1 tree) (keyed u <$> before_index index (aq_log aq)) (messages q))
    (aq_meta aq) = aq_meta aq'.
Proof.
  intros Hi Hu Hx aq'. destruct (queues_wf _ (impl_wf _ _ Hi) _ _ Hu) as [Hnul Hwf].
  pose proof (delete_messages q a u aq index _ Hi Hu Hx eq_refl) as Hi'.
  pose proof (log_split index (aq_log aq) (log_sorted _ Hwf)) as E.
  assert (total_len (aq_log aq) = total_len (before_index index (aq_log aq)) + total_len (from_index index (aq_log aq))) as Et
    by (rewrite E at 1; apply total_len_app).
  assert (length (aq_log aq) = length (before_index index (aq_log aq)) + length (from_index index (aq_log aq)))%nat as El
    by (rewrite E at 1; apply length_app).
  pose proof (total_len_nonneg (from_index index (aq_log aq))).
  unfold count_removed. simpl.
  assert (sat_sub (Z.of_nat (length (aq_log aq))) (Z.of_nat (length (before_index index (aq_log aq))))
          = Z.of_nat (length (from_index index (aq_log aq)))) as -> by (unfold sat_sub; lia).
  assert (sat_sub (total_len (aq_log aq)) (total_len (before_index index (aq_log aq)))
          = total_len (from_index index (aq_log aq))) as -> by (unfold sat_sub; lia).
  pose proof (range_incl_log _ _ Hi' u _ index (lookup_insert_eq _ _ _) Hx) as Hr. cbn [messages aq_log] in Hr.
  rewrite Hr. unfold aq_meta, aq'. cbn [aq_next aq_log aq_config].
  assert (from_index index (from_index index (aq_log aq)) = from_index index (aq_log aq)) as ->.
  { apply filterb_all. apply Forall_forall. intros m [? _]%elem_of_from_index. by apply Z.leb_le. }
  destruct (from_index index (aq_log aq)) as [|m l] eqn:Ef; [done|].
  assert (m ∈ aq_log aq) as Hm by (apply (elem_of_from_index index); rewrite Ef; by left).
  assert ((Z.of_nat (length (m :: l)) =? 0) = false) as -> by (simpl; lia).
  csimpl. rewrite decode_index_from_message_key by (by eapply log_index_u64). simpl.
  f_equal. by rewrite E, last_app_cons.
Qed.

Lemma sim_delete_before u index q a :
  implements q a -> is_u64 index -> sim (handle_delete_message_before u index q) (a_delete_before u index a).
Proof.
  intros Hi Hx. unfold handle_delete_message_before, delete_begin, a_delete_before.
  rewrite (get_config _ _ _ Hi), (get_meta _ _ _ Hi). unfold a_queue.
  destruct (a_queues a !! u) as [aq|] eqn:Hu; [|done]. simpl.
  destruct (queues_wf _ (impl_wf _ _ Hi) _ _ Hu) as [Hnul Hwf].
  unfold delete_finish. rewrite (range_to_log _ _ Hi u aq index Hu Hx), total_len_keyed, length_fmap.
  destruct (Z.eqb_spec (Z.of_nat (length (before_index index (aq_log aq)))) 0) as [H0|H0].
  - assert (before_index index (aq_log aq) = []) as E by (apply nil_length_inv; lia).
    rewrite E. split; [done|]. simpl.
    pose proof (log_split index (aq_log aq) (log_sorted _ Hwf)) as El. rewrite E in El. simpl in El.
    rewrite <- El. assert (set_a_queues <[u := mkAQueue (aq_config aq) (aq_next aq) (aq_log aq)]> a = a) as ->.
    { destruct a as [aqs asubs ids]. unfold set_a_queues. simpl. f_equal. apply insert_id. simpl in Hu.
      rewrite Hu. by destruct aq. }
    by destruct q.
  - split; [done|]. simpl. unfold store_queue_meta, set_queue_meta, set_messages. simpl.
    rewrite (count_removed_log q a u aq index Hi Hu Hx).
    assert (queues q = <[u := aq_config aq]> (queues q)) as Eq.
    { symmetry. apply insert_id. pose proof (queue_config_lookup _ _ u Hi) as E'. by rewrite Hu in E'. }
    rewrite Eq at 1. by apply delete_messages.
Qed.

Lemma k_call_sim c q a : implements q a -> call_ok b c a -> sim (k_call b c q) (a_call b c a).
Proof.
  intros Hi Hok. destruct c; simpl; apply sim_reply; simpl in Hok;
    eauto using sim_create, sim_delete, sim_stats, sim_config, sim_post, sim_subscribe, sim_unsubscribe,
      sim_fetch, sim_read, sim_commit_ack, sim_seek, sim_delete_before.
Qed.
End refine.

Lemma implements_empty : implements empty_queues (mkService ∅ ∅ ∅).
Proof.
  split; [split; apply map_Forall_empty|reflexivity..|].
  intros k m. simpl. rewrite lookup_empty. split; [done|]. by intros (u & aq & ? & _).
Qed.
