(* ===== verification/KMsgTheorems.v ===== *)
(** Properties of the message queue service: it implements its specification
    along any run, a committing reader gets each message exactly once, keys are
    faithful; and what happens where a deletion meets a post. *)
From Stdlib Require Import ZArith Lia Ascii Sorted Permutation.
From stdpp Require Import base tactics numbers gmap strings sorting list.
From S2P Require Import Prelude RustString Lists KMsg KMsgKeys KMsgSpec KMsgRefine.

(** ** Runs *)

Section runs.
Variable b : build.

Fixpoint k_run (cs : list KCall) (q : SledMsgQueue) : SledMsgQueue * list (result KReply) :=
  match cs with
  | [] => (q, [])
  | c :: cs => let '(q, r) := k_call b c q in let '(q, rs) := k_run cs q in (q, r :: rs)
  end.

Fixpoint a_run (cs : list KCall) (a : AService) : AService * list (result KReply) :=
  match cs with
  | [] => (a, [])
  | c :: cs => let '(a, r) := a_call b c a in let '(a, rs) := a_run cs a in (a, r :: rs)
  end.

(** Every call is fit for the state it meets. *)
Fixpoint run_ok (cs : list KCall) (a : AService) : Prop :=
  match cs with
  | [] => True
  | c :: cs => call_ok b c a /\ run_ok cs (a_call b c a).1
  end.

Lemma k_run_sim cs q a :
  implements q a -> run_ok cs a ->
  (k_run cs q).2 = (a_run cs a).2 /\ implements (k_run cs q).1 (a_run cs a).1.
Proof.
  revert q a. induction cs as [|c cs IH]; intros q a Hi; simpl; [done|]. intros [Hc Hcs].
  destruct (k_call_sim b c q a Hi Hc) as [Er Hi'].
  destruct (k_call b c q) as [q1 r], (a_call b c a) as [a1 r']. simpl in *. subst.
  destruct (IH _ _ Hi' Hcs) as [Er' Hi''].
  destruct (k_run cs q1), (a_run cs a1). simpl in *. by subst.
Qed.
End runs.

(** C3: from empty trees on, whatever calls are made in whatever order, the
    service gives the replies of its specification and its trees hold the
    specification's logs: each queue is the list of its messages by index, its
    counters are those of the list, and readers see the list from their cursor
    on.  Names of queues hold no zero byte and the counters have room. *)
Theorem kmsg_refines b cs :
  run_ok b cs (mkService ∅ ∅ ∅) ->
  (k_run b cs empty_queues).2 = (a_run b cs (mkService ∅ ∅ ∅)).2 /\
  implements (k_run b cs empty_queues).1 (a_run b cs (mkService ∅ ∅ ∅)).1.
Proof. intros Hok. apply k_run_sim; [apply implements_empty|done]. Qed.

Definition demo_message (s : string) : Message := mkMessage 0 0 s ∅.
Definition demo_config : QueueConfig := mkConfig None None false true false false false.
Definition demo_calls : list KCall :=
  [CreateQueue (Some "/a") "app" "me" demo_config; PostMessage 7 "/a" (demo_message "x");
   PostMessage 8 "/a" (demo_message "yz"); Subscribe "/a" None Earliest; FetchMessages "sub-1" 1 true;
   DeleteMessageBefore "/a" 2; GetStats "/a"; DeleteQueue "/a"; GetStats "/a"].

Lemma kmsg_refines_witness :
  (k_run Release demo_calls empty_queues).2 =
  [Ok (RName "/a"); Ok (RIndex 1); Ok (RIndex 2); Ok (RName "sub-1");
   Ok (RMessages [mkMessage 1 7 "x" ∅]); Ok (RIndex 1); Ok (RStats (mkStats 1 2 2 2)); Ok RUnit;
   Err "Queue not found: /a"].
Proof.
  destruct (kmsg_refines Release demo_calls) as [E _].
  { unfold demo_calls. simpl run_ok. split_and!; try done.
    - intros a' name [= <- <-]. reflexivity.
    - intros aq Haq. change (a_queues _) with ({["/a" := mkAQueue demo_config 1 []]} : gmap string AQueue) in Haq.
      apply lookup_singleton_Some in Haq as [_ <-]. vm_compute. done.
    - intros aq Haq. vm_compute in Haq. injection Haq as <-. vm_compute. done. }
  rewrite E. vm_compute. reflexivity.
Defined.

(** ** A committing reader *)

(** The messages that fetches of [sub] returned. *)
Fixpoint delivered (sub : SubscriptionId) (cs : list KCall) (rs : list (result KReply)) : list Message :=
  match cs, rs with
  | c :: cs, r :: rs =>
    match c, r with
    | FetchMessages s _ _, Ok (RMessages l) => if String.eqb s sub then l else []
    | _, _ => []
    end ++ delivered sub cs rs
  | _, _ => []
  end.

(** Calls that leave the reader to itself: its fetches commit, nobody moves or
    drops it, and nothing is deleted from its queue. *)
Definition leaves_reader (sub : SubscriptionId) (u : QueueUrn) (c : KCall) : Prop :=
  match c with
  | Unsubscribe s | CommitAck s _ | Seek s _ => s <> sub
  | FetchMessages s _ auto => s = sub -> auto = true
  | DeleteQueue v | DeleteMessageBefore v _ => v <> u
  | _ => True
  end.

Record reader (a : AService) (sub : SubscriptionId) (u : QueueUrn) (c0 c : MsgIndex) (d : list Message) : Prop := {
  reader_sub : a_subs a !! sub = Some (mkSub u c);
  reader_queue : exists aq, a_queues a !! u = Some aq /\ (c = c0 \/ c0 <= c <= aq_next aq) /\
                   d ++ from_index c (aq_log aq) = from_index c0 (aq_log aq)
}.

Lemma from_index_app i l k : from_index i (l ++ k) = from_index i l ++ from_index i k.
Proof. apply List.filter_app. Qed.

Section reader.
Context (b : build) (sub : SubscriptionId) (u : QueueUrn) (c0 : MsgIndex).

(** A step that keeps the subscription and the log of the queue. *)
Lemma reader_same a a' c d :
  reader a sub u c0 c d -> a_subs a' !! sub = a_subs a !! sub ->
  (forall aq, a_queues a !! u = Some aq -> exists aq', a_queues a' !! u = Some aq' /\
     aq_log aq' = aq_log aq /\ aq_next aq' = aq_next aq) ->
  reader a' sub u c0 c d.
Proof.
  intros [Hs (aq & Hq & Hc & Hd)] Es Eq. split; [by rewrite Es|].
  destruct (Eq aq Hq) as (aq' & Hq' & El & En). exists aq'. by rewrite El, En.
Qed.

Lemma reader_post now v m a c d :
  a_wf a -> reader a sub u c0 c d -> reader (a_post now v m a).1 sub u c0 c d.
Proof.
  intros Ha Hr. unfold a_post. destruct (a_queues a !! v) as [aqv|] eqn:Hv; [|done]. simpl.
  destruct (decide (v = u)) as [->|Hne].
  - destruct Hr as [Hs (aq & Hq & Hc & Hd)]. split; [done|]. simpl.
    rewrite Hv in Hq. injection Hq as <-. eexists. split; [by rewrite lookup_insert_eq|]. simpl. split; [lia|].
    rewrite !from_index_app, <- Hd, <- app_assoc. f_equal. f_equal.
    unfold from_index. simpl.
    destruct Hc as [->|Hc]; [done|].
    assert ((c <=? aq_next aqv) = true) as -> by lia. by assert ((c0 <=? aq_next aqv) = true) as -> by lia.
  - eapply reader_same; [done|done|]. intros aq Hq. exists aq. simpl. by rewrite lookup_insert_ne.
Qed.

(** A fetch hands out the next messages and moves the cursor behind them. *)
Lemma reader_fetch n a c d :
  a_wf a -> reader a sub u c0 c d ->
  exists l c', (a_fetch sub n true a).2 = Ok l /\ reader (a_fetch sub n true a).1 sub u c0 c' (d ++ l).
Proof.
  intros Ha [Hs (aq & Hq & Hc & Hd)]. unfold a_fetch. rewrite Hs. simpl. unfold a_scan. rewrite Hq. simpl.
  destruct (queues_wf _ Ha _ _ Hq) as [_ Hwf].
  set (rest := from_index c (aq_log aq)) in *. set (l := take (max 1 n) rest).
  assert (rest = l ++ drop (max 1 n) rest) as El by (symmetry; apply take_drop).
  destruct (last l) as [m|] eqn:Hl.
  - eexists _, (msg_index m + 1). split; [done|]. split; simpl; [by rewrite lookup_insert_eq|].
    exists aq. split; [done|].
    assert (m ∈ rest) as Hm by (rewrite El; apply elem_of_app; left; by apply last_Some_elem_of).
    apply elem_of_from_index in Hm as [Hcm Hm]. destruct (log_index_u64 _ _ Hwf Hm) as [Hm1 _].
    split; [right; lia|]. rewrite <- Hd, <- app_assoc. f_equal. rewrite El. f_equal.
    destruct (last_Some l m) as [Hx _]. destruct (Hx Hl) as [l' El'].
    assert (aq_log aq = before_index c (aq_log aq) ++ l' ++ [m] ++ drop (max 1 n) rest) as Elog.
    { rewrite (log_split c (aq_log aq)) at 1 by apply Hwf. f_equal. fold rest. rewrite El at 1. rewrite El'.
      by rewrite <- app_assoc. }
    pose proof (log_sorted _ Hwf) as Hsort. rewrite Elog in Hsort |- *.
    rewrite !StronglySorted_app_inv in Hsort. destruct Hsort as (_ & (_ & (_ & _ & H3) & H2) & H1).
    rewrite !from_index_app.
    assert (from_index (msg_index m + 1) (before_index c (aq_log aq)) = []) as ->.
    { apply filterb_none, Forall_forall. intros x Hx'. apply Z.leb_gt.
      assert (msg_index x < msg_index m) by (apply H1; [done|set_solver]). lia. }
    assert (from_index (msg_index m + 1) l' = []) as ->.
    { apply filterb_none, Forall_forall. intros x Hx'. apply Z.leb_gt.
      assert (msg_index x < msg_index m) by (apply H2; [done|set_solver]). lia. }
    assert (from_index (msg_index m + 1) [m] = []) as -> by (apply filterb_none; repeat constructor; lia).
    apply filterb_all, Forall_forall. intros x Hx'. apply Z.leb_le.
    assert (msg_index m < msg_index x) by (apply H3; [set_solver|done]). lia.
  - apply last_None in Hl. exists l, c. rewrite Hl. split; [done|]. rewrite app_nil_r.
    split; [done|]. exists aq. done.
Qed.

(** The messages one call hands to the reader. *)
Definition handed (call : KCall) (r : result KReply) : list Message :=
  match call, r with
  | FetchMessages s _ _, Ok (RMessages l) => if String.eqb s sub then l else []
  | _, _ => []
  end.

Lemma reader_set_cursor s f a c d :
  s <> sub -> reader a sub u c0 c d -> reader (a_set_cursor s f a).1 sub u c0 c d.
Proof.
  intros Hs Hr. unfold a_set_cursor. destruct (a_subs a !! s); [|done]. destruct (f _); [|done..].
  eapply reader_same; [done| |eauto]. simpl. by rewrite lookup_insert_ne.
Qed.

(** Changes to other queues and subscriptions. *)
Lemma reader_insert v aqv f a c d :
  reader a sub u c0 c d -> v <> u -> f (a_subs a) !! sub = a_subs a !! sub ->
  reader (set_a_subs f (set_a_queues <[v := aqv]> a)) sub u c0 c d.
Proof.
  intros Hr Hv Hf. eapply reader_same; [done|done|]. intros aq Hq. exists aq. simpl.
  by rewrite lookup_insert_ne.
Qed.

Lemma reader_names given prefix counter a c d :
  reader a sub u c0 c d -> reader (a_name b given prefix counter a).1 sub u c0 c d.
Proof.
  intros Hr. destruct (a_name_queues b given prefix counter a) as [Eq Es].
  eapply reader_same; [done|by rewrite Es|]. rewrite Eq. eauto.
Qed.

Lemma reader_create name appid owner config a c d :
  reader a sub u c0 c d -> reader (a_create b name appid owner config a).1 sub u c0 c d.
Proof.
  intros Hr. unfold a_create. pose proof (reader_names name "queue-" "queue_id" a c d Hr) as Hr1.
  destruct (a_name _ _ _ _ a) as [a1 r]. simpl in Hr1. destruct r as [n| |]; [|done..].
  destruct (a_queues a1 !! _) as [|] eqn:Hn; [done|]. apply (reader_insert _ _ id _ _ _ Hr1); [|done].
  destruct Hr1 as [_ (aq & Hq & _)]. intros E. rewrite E in Hn. congruence.
Qed.

Lemma reader_subscribe v sub_id p a c d :
  reader a sub u c0 c d -> reader (a_subscribe b v sub_id p a).1 sub u c0 c d.
Proof.
  intros Hr. unfold a_subscribe. destruct (a_position _ _ _ _); [|done..].
  pose proof (reader_names sub_id "sub-" "sub_id" a c d Hr) as Hr1.
  destruct (a_name _ _ _ _ a) as [a1 r]. simpl in Hr1. destruct r as [n| |]; [|done..].
  destruct (a_subs a1 !! n) as [|] eqn:Hn; [done|]. eapply reader_same; [done| |eauto]. simpl.
  rewrite lookup_insert_ne; [done|]. destruct Hr1 as [Hs _]. congruence.
Qed.

Lemma reader_delete v a c d : v <> u -> reader a sub u c0 c d -> reader (a_delete v a).1 sub u c0 c d.
Proof.
  intros Hv Hr. unfold a_delete. destruct (a_queues a !! v); [|done].
  eapply reader_same; [done| |].
  - simpl. destruct Hr as [Hs _]. rewrite Hs. apply map_lookup_filter_Some. split; [done|]. simpl. congruence.
  - intros aq Hq. exists aq. simpl. by rewrite lookup_delete_ne.
Qed.

Lemma reader_fetch_other s n auto a c d :
  s <> sub -> reader a sub u c0 c d -> reader (a_fetch s n auto a).1 sub u c0 c d.
Proof.
  intros Hs Hr. unfold a_fetch. destruct (a_subs a !! s); [|done].
  destruct (if auto then _ else None); [|done]. eapply reader_same; [done| |eauto]. simpl.
  by rewrite lookup_insert_ne.
Qed.

Lemma reader_step call a c d :
  a_wf a -> leaves_reader sub u call -> reader a sub u c0 c d ->
  exists c', reader (a_call b call a).1 sub u c0 c' (d ++ handed call (a_call b call a).2).
Proof.
  intros Ha Hl Hr. destruct call; simpl in Hl; cbn [a_call handed reply fst snd];
    try (exists c; rewrite app_nil_r).
  - by apply reader_create.
  - by apply reader_delete.
  - done.
  - unfold a_config. destruct (a_queues a !! urn) as [aq|] eqn:Hq; [|done].
    eapply reader_same; [done|done|]. intros aq' Hq'. simpl. rewrite lookup_insert. case_decide; [|by eauto].
    eexists. split; [done|]. naive_solver.
  - by apply reader_post.
  - by apply reader_subscribe.
  - unfold a_unsubscribe. destruct (a_subs a !! sub_id); [|done].
    eapply reader_same; [done| |eauto]. simpl. by rewrite lookup_delete_ne.
  - destruct (String.eqb_spec sub_id sub) as [->|Hne].
    + rewrite (Hl eq_refl). destruct (reader_fetch length a c d Ha Hr) as (l & c' & E & Hr').
      exists c'. by rewrite E.
    + exists c. assert (match (match (a_fetch sub_id length auto_commit a).2 with
        | Ok x => Ok (RMessages x) | Err m => Err m | Panic => Panic end : result KReply) with
        | Ok (RMessages _) => ([] : list Message) | _ => [] end = []) as ->
        by (by destruct (a_fetch _ _ _ a).2).
      rewrite app_nil_r. by apply reader_fetch_other.
  - done.
  - by apply reader_set_cursor.
  - by apply reader_set_cursor.
  - unfold a_delete_before. destruct (a_queues a !! urn) as [aqv|] eqn:Hq; [|done].
    by apply (reader_insert urn _ id).
Qed.

Lemma reader_run cs q a c d :
  implements q a -> run_ok b cs a -> Forall (leaves_reader sub u) cs -> reader a sub u c0 c d ->
  exists c', reader (a_run b cs a).1 sub u c0 c' (d ++ delivered sub cs (a_run b cs a).2).
Proof.
  revert q a c d. induction cs as [|call cs IH]; intros q a c d Hi.
  { intros _ _ Hr. exists c. simpl. by rewrite app_nil_r. }
  intros [Hok Hcs] [Hl Hls]%Forall_cons Hr. destruct (reader_step call a c d) as [c1 Hr1]; [apply Hi|done..|].
  destruct (k_call_sim b call q a Hi Hok) as [_ Hi1].
  destruct (IH _ _ _ _ Hi1 Hcs Hls Hr1) as [c2 Hr2]. exists c2.
  simpl. destruct (a_call b call a) as [a1 r]. simpl in *. destruct (a_run b cs a1) as [a2 rs].
  simpl in *. rewrite app_assoc. exact Hr2.
Qed.
End reader.

(** All messages of a queue in the order of their indexes. *)
Definition queue_log (u : QueueUrn) (q : SledMsgQueue) : list Message :=
  (range_incl (messages q) (message_key u 0) (message_key u u64_max)).*2.

Lemma queue_log_eq q a u aq :
  implements q a -> a_queues a !! u = Some aq -> queue_log u q = aq_log aq.
Proof.
  intros Hi Hq. unfold queue_log. rewrite (range_incl_log q a Hi u aq 0 Hq zero_ok), keyed_snd.
  destruct (queues_wf _ (impl_wf _ _ Hi) _ _ Hq) as [_ Hwf]. apply filterb_all, Forall_forall.
  intros m Hm. destruct (log_index_u64 _ _ Hwf Hm). apply Z.leb_le. lia.
Qed.

(** C38: a reader whose fetches commit gets every message of its queue from its
    cursor on exactly once and in order, however its fetches are cut and
    whatever posts and other readers come in between: what it was handed,
    followed by what lies from its cursor on, is the queue from where it began. *)
Theorem fetch_exactly_once b cs q a sub u c0 :
  implements q a -> run_ok b cs a -> Forall (leaves_reader sub u) cs ->
  subs q !! sub = Some (mkSub u c0) ->
  exists c, subs (k_run b cs q).1 !! sub = Some (mkSub u c) /\
    delivered sub cs (k_run b cs q).2 ++ from_index c (queue_log u (k_run b cs q).1)
    = from_index c0 (queue_log u (k_run b cs q).1).
Proof.
  intros Hi Hok Hl Hs. destruct (k_run_sim b cs q a Hi Hok) as [Er Hi'].
  rewrite (impl_subs _ _ Hi) in Hs. destruct (sub_queue_log _ _ _ _ Hi Hs) as [[aq Hq] _]. simpl in Hq.
  destruct (reader_run b sub u c0 cs q a c0 [] Hi Hok Hl) as [c [Hs' (aq' & Hq' & _ & Hd)]].
  { split; [done|]. exists aq. split_and!; [done|by left|done]. }
  exists c. rewrite (impl_subs _ _ Hi'), Er, (queue_log_eq _ _ u aq' Hi' Hq'). done.
Qed.

Definition reader_calls : list KCall :=
  [PostMessage 7 "/a" (demo_message "x"); PostMessage 8 "/a" (demo_message "yz");
   FetchMessages "s" 1 true; PostMessage 9 "/a" (demo_message "w"); FetchMessages "s" 5 true].

Lemma fetch_exactly_once_witness :
  let q := (k_run Release [CreateQueue (Some "/a") "app" "me" demo_config; Subscribe "/a" (Some "s") Earliest]
              empty_queues).1 in
  exists c, from_index c (queue_log "/a" (k_run Release reader_calls q).1) = [] /\
    delivered "s" reader_calls (k_run Release reader_calls q).2
    = [mkMessage 1 7 "x" ∅; mkMessage 2 8 "yz" ∅; mkMessage 3 9 "w" ∅].
Proof.
  intros q.
  set (aq := fun next log => mkAQueue demo_config next log).
  set (a := mkService {["/a" := aq 1 []]} {["s" := mkSub "/a" 1]} ∅).
  assert (Hi : implements q a).
  { destruct (k_run_sim Release [CreateQueue (Some "/a") "app" "me" demo_config; Subscribe "/a" (Some "s") Earliest]
      empty_queues (mkService ∅ ∅ ∅) implements_empty) as [_ Hi]; [|exact Hi].
    split; [|done]. intros a' name [= <- <-]. reflexivity. }
  destruct (fetch_exactly_once Release reader_calls q a "s" "/a" 1 Hi) as (c & Hs & E).
  - unfold reader_calls. simpl run_ok. split_and!; try done;
      intros aq' Haq; vm_compute in Haq; injection Haq as <-; vm_compute; done.
  - repeat constructor.
  - vm_compute. reflexivity.
  - exists c. assert (c = 4) as -> by (vm_compute in Hs; by injection Hs as <-).
    split; vm_compute; reflexivity.
Defined.

(** ** Keys *)

(** The keys of the message tree are faithful: the index reads back from
    the key, the keys of a queue are in the order of the indexes, and no key of
    another queue lies between two keys of a queue. *)
Theorem message_keys_faithful u v i j k :
  no_nul u -> no_nul v -> is_u64 i -> is_u64 j -> is_u64 k ->
  decode_index_from_key (message_key u i) = Some i
  /\ (string_leb (message_key u i) (message_key u j) = true <-> i <= j)
  /\ (message_key u i = message_key v j <-> u = v /\ i = j)
  /\ (string_leb (message_key u i) (message_key v k) = true ->
      string_leb (message_key v k) (message_key u j) = true -> u = v).
Proof.
  intros Hu Hv Hi Hj Hk. split_and!.
  - by apply decode_index_from_message_key.
  - by rewrite message_key_leb, Z.leb_le.
  - split; [by apply message_key_inj|]. by intros [-> ->].
  - intros H1 H2. symmetry. by eapply message_key_between.
Qed.

Lemma message_keys_faithful_witness :
  decode_index_from_key (message_key "app::me::inbox" 258) = Some 258 /\
  string_leb (message_key "app::me::inbox" 258) (message_key "app::me::inbox" 65535) = true.
Proof.
  assert (forall x, 0 <= x <= 65535 -> is_u64 x) as H64 by (intros; unfold is_u64, u64_max; lia).
  destruct (message_keys_faithful "app::me::inbox" "app::me::inbo" 258 65535 0) as (H1 & H2 & _);
    [reflexivity..|apply H64; lia|apply H64; lia|apply H64; lia|].
  split; [exact H1|]. apply H2. lia.
Defined.

(** A zero byte in the name of a queue breaks this: the queue ["/a"] reads, and
    its deletion removes, the messages of the queue whose name goes on with it. *)
Example nul_in_queue_name :
  let u := "/a" +:+ String nul "b" in
  let q := (k_run Release [CreateQueue (Some "/a") "app" "me" demo_config;
              CreateQueue (Some u) "app" "me" demo_config; PostMessage 7 u (demo_message "x")] empty_queues).1 in
  handle_read_message "/a" 0 10 q = Ok [mkMessage 1 7 "x" ∅] /\
  handle_read_message u 0 10 (handle_delete_queue "/a" q).1 = Ok [].
Proof. split; vm_compute; reflexivity. Qed.

(** ** A post between the two ends of a deletion *)

Lemma post_result b now u m q q' i mt :
  queue_meta q !! queue_key u = Some mt -> handle_post_message b now u m q = (q', Ok i) ->
  i = next_index mt /\ exists created, messages q' !! message_key u i = Some (mkMessage i created (payload m) (headers m)).
Proof.
  unfold handle_post_message. intros ->. destruct (get_queue_config q u); [|done..].
  unfold count_post. destruct (unsigned_op b _ (next_index mt + 1)); [|done..].
  destruct (unsigned_op b _ (message_count mt + 1)); [|done..].
  destruct (unsigned_op b _ (size_bytes mt + _)); [|done..]. simpl. intros [= <- <-].
  split; [done|]. eexists. simpl. by rewrite lookup_insert_eq.
Qed.

Lemma next_index_count_removed u index n k tree mt :
  next_index (count_removed u index n k tree mt) = next_index mt.
Proof. unfold count_removed. by destruct (_ =? 0). Qed.

(** [handle_delete_message_before] reads the counters of a queue before it
    removes the messages and writes them back afterwards; where a message is
    posted in between and the deletion removes something, the counters fall
    back to those before the post: the next message gets the same index and
    takes the place of the one posted, which is lost. *)
Theorem delete_loses_post b now now' u index m m' q a aq mt q1 i q2 n q3 j :
  implements q a -> a_queues a !! u = Some aq -> is_u64 index ->
  before_index index (aq_log aq) <> [] ->
  delete_begin u q = Ok mt ->
  call_ok b (PostMessage now u m) a -> handle_post_message b now u m q = (q1, Ok i) ->
  delete_finish u index mt q1 = (q2, Ok n) ->
  handle_post_message b now' u m' q2 = (q3, Ok j) ->
  j = i /\ exists created, messages q3 !! message_key u i = Some (mkMessage i created (payload m') (headers m')).
Proof.
  intros Hi Hq Hx Hb Hbegin Hok Hp1 Hfin Hp2.
  assert (mt = aq_meta aq) as ->.
  { unfold delete_begin in Hbegin. rewrite (get_config _ _ _ Hi), (get_meta _ _ _ Hi) in Hbegin.
    unfold a_queue in Hbegin. rewrite Hq in Hbegin. by injection Hbegin. }
  assert (i = aq_next aq) as ->.
  { pose proof (queue_meta_lookup q a u Hi) as E. rewrite Hq in E. by apply (post_result _ _ _ _ _ _ _ _ E) in Hp1 as [-> _]. }
  assert (exists aq', a_queues (a_post now u m a).1 !! u = Some aq' /\ before_index index (aq_log aq') <> []) as (aq' & Hq' & Hb').
  { unfold a_post. rewrite Hq. simpl. eexists. split; [by rewrite lookup_insert_eq|]. simpl.
    unfold before_index in *. rewrite List.filter_app. intros [E _]%app_eq_nil. done. }
  destruct (sim_post b now u m q a Hi Hok) as [_ Hi1]. rewrite Hp1 in Hi1. simpl in Hi1.
  unfold delete_finish in Hfin. rewrite (range_to_log _ _ Hi1 u aq' index Hq' Hx), length_fmap in Hfin.
  destruct (Z.eqb_spec (Z.of_nat (length (before_index index (aq_log aq')))) 0) as [H0|_].
  { exfalso. apply Hb', nil_length_inv. lia. }
  injection Hfin as Eq2 _.
  assert (exists mt2, queue_meta q2 !! queue_key u = Some mt2 /\ next_index mt2 = aq_next aq) as (mt2 & E2 & En).
  { subst q2. eexists. split; [apply lookup_insert_eq|]. by rewrite next_index_count_removed. }
  destruct (post_result _ _ _ _ _ _ _ _ E2 Hp2) as [-> Hm]. by rewrite En in *.
Qed.

Lemma delete_loses_post_witness :
  exists q mt q1 i q2 n q3,
    delete_begin "/a" q = Ok mt /\ handle_post_message Release 8 "/a" (demo_message "lost") q = (q1, Ok i) /\
    delete_finish "/a" 2 mt q1 = (q2, Ok n) /\
    handle_post_message Release 9 "/a" (demo_message "new") q2 = (q3, Ok i) /\
    queue_log "/a" q3 = [mkMessage i 9 "new" ∅].
Proof.
  set (calls := [CreateQueue (Some "/a") "app" "me" demo_config; PostMessage 7 "/a" (demo_message "x")]).
  set (q := (k_run Release calls empty_queues).1). set (a := (a_run Release calls (mkService ∅ ∅ ∅)).1).
  assert (Hi : implements q a).
  { destruct (k_run_sim Release calls empty_queues (mkService ∅ ∅ ∅) implements_empty) as [_ Hi]; [|exact Hi].
    unfold calls. simpl run_ok. split_and!; [intros a' name [= <- <-]; reflexivity| |done].
    intros aq Haq. vm_compute in Haq. injection Haq as <-. split; vm_compute; [reflexivity|discriminate]. }
  set (mt := aq_meta (mkAQueue demo_config 2 [mkMessage 1 7 "x" ∅])).
  set (r1 := handle_post_message Release 8 "/a" (demo_message "lost") q).
  set (r2 := delete_finish "/a" 2 mt r1.1).
  set (r3 := handle_post_message Release 9 "/a" (demo_message "new") r2.1).
  assert (E3 : r3.2 = Ok 2) by (vm_compute; reflexivity).
  assert (El : queue_log "/a" r3.1 = [mkMessage 2 9 "new" ∅]) by (vm_compute; reflexivity).
  destruct (delete_loses_post Release 8 9 "/a" 2 (demo_message "lost") (demo_message "new") q a
    (mkAQueue demo_config 2 [mkMessage 1 7 "x" ∅]) mt r1.1 2 r2.1 1 r3.1 2 Hi) as [Hj _].
  - vm_compute. reflexivity.
  - unfold is_u64, u64_max. lia.
  - discriminate.
  - vm_compute. reflexivity.
  - intros aq Haq. vm_compute in Haq. injection Haq as <-. split; vm_compute; [reflexivity|discriminate].
  - vm_compute. reflexivity.
  - vm_compute. reflexivity.
  - vm_compute. reflexivity.
  - exists q, mt, r1.1, 2, r2.1, 1, r3.1. split_and!; [vm_compute; reflexivity..|exact El].
Defined.

(** ** Bounds *)

(** An acknowledgement moves the cursor behind the index it names; that of
    the largest u64 panics in a debug build and sends the cursor back to zero in
    a release build, so that every message is handed out again. *)
Theorem commit_ack_bounds b sub_id sub index q :
  subs q !! sub_id = Some sub -> is_u64 index ->
  handle_commit_ack b sub_id index q =
  if index <? u64_max then (set_subs <[sub_id := mkSub (sub_queue_urn sub) (index + 1)]> q, Ok ())
  else match b with
       | Debug => (q, Panic)
       | Release => (set_subs <[sub_id := mkSub (sub_queue_urn sub) 0]> q, Ok ())
       end.
Proof.
  intros Hs Hx. unfold handle_commit_ack. rewrite Hs. unfold is_u64 in Hx.
  destruct (Z.ltb_spec index u64_max) as [Hlt|Hge]; [by rewrite unsigned_op_fits by lia|].
  assert (index = u64_max) as -> by lia. by destruct b.
Qed.

Lemma commit_ack_bounds_witness :
  let q := set_subs <["s" := mkSub "/a" 5]> empty_queues in
  handle_commit_ack Release "s" u64_max q = (set_subs <["s" := mkSub "/a" 0]> q, Ok ()) /\
  handle_commit_ack Debug "s" u64_max q = (q, Panic).
Proof.
  intros q. assert (H64 : is_u64 u64_max) by (unfold is_u64, u64_max; lia).
  split; [exact (commit_ack_bounds Release "s" (mkSub "/a" 5) u64_max q eq_refl H64)
         |exact (commit_ack_bounds Debug "s" (mkSub "/a" 5) u64_max q eq_refl H64)].
Defined.
