(* ===== verification/AiccQueue.v ===== *)
(** The admission queue of AI requests
    ([frame/aicc/src/complete_request_queue.rs]) as a step relation.

    The queue's mutex makes [enqueue], [remove_waiter] and the locked part of
    [release_slot] atomic; between them other threads run, so the points where
    the code is outside the lock are states here: a released waiter whose
    [ready] flag is not yet stored, one whose notification is not yet sent, a
    waiting task between its look at the flag and the creation of its
    [notified()] future, and a dropped ticket between its look at the flag and
    [remove_waiter].  A [Notified] future receives the [notify_waiters] calls
    made after its creation, and no earlier one. *)
From Stdlib Require Import ZArith Lia Sorted.
From stdpp Require Import base tactics numbers gmap fin_maps fin_map_dom relations list.
From S2P Require Import Prelude.

Inductive QueueAdmission := Running | Queued (position : nat).

Record AiMethodRequestQueueStats := { stat_max : nat; stat_in_flight : nat; stat_queued : nat }.

Record QueueState := { in_flight : nat; next_ticket_id : Z; waiters : list Z }.

(** Where the holder of a ticket is. *)
Inductive ticket_state :=
| TRunning        (* admitted at once, not used yet *)
| TQueued         (* queued: not polled yet, or woken and about to look at the flag *)
| TChecked        (* looked at the flag, no future yet *)
| TParked         (* waiting on its [notified()] future *)
| TDropping.      (* dropped: saw no flag, about to remove itself *)

#[export] Instance ticket_state_eq_dec : EqDecision ticket_state.
Proof. solve_decision. Defined.

Record system := {
  max_in_flight : nat;
  queue : QueueState;
  ready : gset Z;             (* the waiters whose [ready] flag is set *)
  releasing : list Z;         (* popped, flag not stored yet *)
  notifying : list Z;         (* flag stored, not notified yet *)
  tickets : gmap Z ticket_state;
  permits : nat
}.

Definition queue_new (max : nat) : system :=
  {| max_in_flight := Nat.max max 1;
     queue := {| in_flight := 0; next_ticket_id := 1; waiters := [] |};
     ready := ∅; releasing := []; notifying := []; tickets := ∅; permits := 0 |}.

Definition queue_stats (s : system) : AiMethodRequestQueueStats :=
  {| stat_max := max_in_flight s; stat_in_flight := in_flight (queue s);
     stat_queued := length (waiters (queue s)) |}.

(** ** The operations on the locked state *)

(** [enqueue]: the ticket's id and its admission. *)
Definition enqueue (max : nat) (q : QueueState) : QueueState * Z * QueueAdmission :=
  let ticket_id := next_ticket_id q in
  let next := sat_add64 (next_ticket_id q) 1 in
  if decide (in_flight q < max)%nat then
    ({| in_flight := S (in_flight q); next_ticket_id := next; waiters := waiters q |},
     ticket_id, Running)
  else
    ({| in_flight := in_flight q; next_ticket_id := next; waiters := waiters q ++ [ticket_id] |},
     ticket_id, Queued (S (length (waiters q)))).

(** [waiters.iter().position(..)] and [remove(index)]. *)
Fixpoint remove_first (i : Z) (l : list Z) : list Z :=
  match l with
  | [] => []
  | x :: l => if x =? i then l else x :: remove_first i l
  end.

Definition remove_waiter (q : QueueState) (ticket_id : Z) : QueueState :=
  {| in_flight := in_flight q; next_ticket_id := next_ticket_id q;
     waiters := remove_first ticket_id (waiters q) |}.

(** The locked part of [release_slot]: the waiter that takes the slot over. *)
Definition release_slot (q : QueueState) : QueueState * option Z :=
  match waiters q with
  | w :: ws => ({| in_flight := in_flight q; next_ticket_id := next_ticket_id q; waiters := ws |}, Some w)
  | [] => ({| in_flight := Nat.pred (in_flight q); next_ticket_id := next_ticket_id q; waiters := [] |}, None)
  end.

(** ** The system *)

Definition set_ticket (s : system) (i : Z) (t : ticket_state) : system :=
  {| max_in_flight := max_in_flight s; queue := queue s; ready := ready s; releasing := releasing s;
     notifying := notifying s; tickets := <[i := t]> (tickets s); permits := permits s |}.

Definition drop_ticket (s : system) (i : Z) : system :=
  {| max_in_flight := max_in_flight s; queue := queue s; ready := ready s; releasing := releasing s;
     notifying := notifying s; tickets := delete i (tickets s); permits := permits s |}.

Definition set_permits (s : system) (n : nat) : system :=
  {| max_in_flight := max_in_flight s; queue := queue s; ready := ready s; releasing := releasing s;
     notifying := notifying s; tickets := tickets s; permits := n |}.

(** A thread runs the locked part of [release_slot]. *)
Definition start_release (s : system) : system :=
  let (q, w) := release_slot (queue s) in
  {| max_in_flight := max_in_flight s; queue := q; ready := ready s;
     releasing := match w with Some w => releasing s ++ [w] | None => releasing s end;
     notifying := notifying s; tickets := tickets s; permits := permits s |}.

(** [ticket] to [QueuePermit]. *)
Definition take_permit (s : system) (i : Z) : system := set_permits (drop_ticket s i) (S (permits s)).

Definition enqueue_ticket (s : system) : system :=
  let '(q, i, adm) := enqueue (max_in_flight s) (queue s) in
  {| max_in_flight := max_in_flight s; queue := q; ready := ready s; releasing := releasing s;
     notifying := notifying s;
     tickets := <[i := match adm with Running => TRunning | Queued _ => TQueued end]> (tickets s);
     permits := permits s |}.

(** [waiter.ready.store(true)], and [notify_waiters()]. *)
Definition store_flag (s : system) (l : list Z) (w : Z) (l' : list Z) : system :=
  {| max_in_flight := max_in_flight s; queue := queue s; ready := {[w]} ∪ ready s;
     releasing := l ++ l'; notifying := notifying s ++ [w]; tickets := tickets s; permits := permits s |}.

Definition notify (s : system) (l : list Z) (w : Z) (l' : list Z) : system :=
  {| max_in_flight := max_in_flight s; queue := queue s; ready := ready s; releasing := releasing s;
     notifying := l ++ l';
     tickets := (if decide (tickets s !! w = Some TParked) then <[w := TQueued]> (tickets s) else tickets s);
     permits := permits s |}.

(** The dropped ticket calls [remove_waiter] and is gone. *)
Definition remove_ticket (s : system) (i : Z) : system :=
  {| max_in_flight := max_in_flight s; queue := remove_waiter (queue s) i; ready := ready s;
     releasing := releasing s; notifying := notifying s; tickets := delete i (tickets s);
     permits := permits s |}.

Inductive step : system -> system -> Prop :=
| step_enqueue s : step s (enqueue_ticket s)
(* [wait_for_turn] *)
| step_turn_running s i : tickets s !! i = Some TRunning -> step s (take_permit s i)
| step_turn_ready s i : tickets s !! i = Some TQueued -> i ∈ ready s -> step s (take_permit s i)
| step_turn_check s i : tickets s !! i = Some TQueued -> i ∉ ready s -> step s (set_ticket s i TChecked)
| step_turn_park s i : tickets s !! i = Some TChecked -> step s (set_ticket s i TParked)
(* [Drop for QueuePermit] *)
| step_permit_drop s n : permits s = S n -> step s (start_release (set_permits s n))
(* the unlocked part of [release_slot] *)
| step_store s l w l' : releasing s = l ++ w :: l' -> step s (store_flag s l w l')
| step_notify s l w l' : notifying s = l ++ w :: l' -> step s (notify s l w l')
(* [Drop for QueueTicket], also of a cancelled [wait_for_turn] *)
| step_drop_running s i : tickets s !! i = Some TRunning -> step s (start_release (drop_ticket s i))
| step_drop_ready s i t : tickets s !! i = Some t -> t = TQueued \/ t = TParked -> i ∈ ready s ->
    step s (start_release (drop_ticket s i))
| step_drop_queued s i t : tickets s !! i = Some t -> t = TQueued \/ t = TParked -> i ∉ ready s ->
    step s (set_ticket s i TDropping)
| step_remove s i : tickets s !! i = Some TDropping -> step s (remove_ticket s i).

Definition reachable (max : nat) : system -> Prop := rtc step (queue_new max).

(** ** Who holds a slot *)

(** The ticket stands for a slot: it was admitted at once, or its waiter was
    popped by a release. *)
Definition holds_slot (s : system) (i : Z) (t : ticket_state) : bool :=
  match t with TRunning => true | _ => bool_decide (i ∉ waiters (queue s)) end.

(** The requests that run or are free to. *)
Definition holders (s : system) : gmap Z ticket_state :=
  filter (fun it => holds_slot s it.1 it.2 = true) (tickets s).

Definition slots_used (s : system) : nat := permits s + size (holders s).
