(* ===== verification/AiccQueueFacts.v ===== *)
(** The admission queue of AI requests, over every interleaving: it never runs
    more requests than its capacity, never leaves a slot free while a request
    waits, hands slots over in the order of arrival, and keeps account of its
    slots in runs without a race between a dropped ticket and a release.  Two
    races of the code are shown to be reachable: a slot that is lost for good,
    and a wake-up that is lost. *)
From Stdlib Require Import ZArith Lia Sorted.
From stdpp Require Import base tactics numbers gmap fin_maps fin_map_dom relations list.
From S2P Require Import Prelude AiccQueue.

Implicit Types (s : system) (i w : Z).

Definition used_by (ws : list Z) (ts : gmap Z ticket_state) : gmap Z ticket_state :=
  filter (fun it => match it.2 with TRunning => true | _ => bool_decide (it.1 ∉ ws) end = true) ts.

Lemma holders_used s : holders s = used_by (waiters (queue s)) (tickets s).
Proof. done. Qed.

(** The slots taken but not accounted for. *)
Definition lost s : Z := Z.of_nat (in_flight (queue s)) - Z.of_nat (permits s) -
  Z.of_nat (size (used_by (waiters (queue s)) (tickets s))).

(** A dropped ticket whose waiter was popped after it looked at the flag. *)
Definition leaking s : Prop := exists i, tickets s !! i = Some TDropping /\ i ∉ waiters (queue s).

Record queue_core (m : nat) s : Prop := {
  inv_max : max_in_flight s = m /\ (1 <= m)%nat;
  inv_bound : (in_flight (queue s) <= m)%nat;
  inv_full : waiters (queue s) <> [] -> in_flight (queue s) = m;
  inv_sorted : StronglySorted Z.lt (waiters (queue s));
  inv_below : forall i, is_Some (tickets s !! i) \/ i ∈ waiters (queue s) \/ i ∈ ready s \/
    i ∈ releasing s \/ i ∈ notifying s -> i < next_ticket_id (queue s);
  inv_waiting : forall w, w ∈ waiters (queue s) -> exists t, tickets s !! w = Some t /\ t <> TRunning;
  inv_popped : forall w, w ∈ ready s \/ w ∈ releasing s -> w ∉ waiters (queue s)
}.

Definition queue_inv (m : nat) s : Prop := queue_core m s /\ 0 <= lost s.

(** ** Counting slots *)

Lemma used_delete ws ts i t :
  ts !! i = Some t ->
  Z.of_nat (size (used_by ws (delete i ts))) = Z.of_nat (size (used_by ws ts)) -
    (if decide (t = TRunning \/ i ∉ ws) then 1 else 0).
Proof.
  intros Ht. unfold used_by. rewrite map_filter_delete.
  set (f := filter _ ts). assert (Hf : f !! i = if decide (t = TRunning \/ i ∉ ws) then Some t else None).
  { unfold f. case_decide as Hd.
    - apply map_lookup_filter_Some. split; [done|]. simpl. destruct t; try done; apply bool_decide_eq_true; naive_solver.
    - apply map_lookup_filter_None. right. intros t' Ht'. rewrite Ht in Ht'. injection Ht' as <-. simpl.
      destruct t; try (intros ?%bool_decide_eq_true); naive_solver. }
  case_decide; rewrite ?map_size_delete, ?Hf; simpl; [|lia].
  assert (size f <> 0)%nat by (intros E%map_size_empty_iff; rewrite E in Hf; done). lia.
Qed.

Lemma used_insert_new ws ts i t :
  ts !! i = None ->
  Z.of_nat (size (used_by ws (<[i := t]> ts))) = Z.of_nat (size (used_by ws ts)) +
    (if decide (t = TRunning \/ i ∉ ws) then 1 else 0).
Proof.
  intros Hi. pose proof (used_delete ws (<[i := t]> ts) i t (lookup_insert_eq _ _ _)) as E.
  rewrite delete_insert_id in E by done. lia.
Qed.

(** Replacing a ticket by one that holds a slot as it did. *)
Lemma used_replace ws ts i t t' :
  ts !! i = Some t -> t <> TRunning -> t' <> TRunning ->
  size (used_by ws (<[i := t']> ts)) = size (used_by ws ts).
Proof.
  intros Hi Ht Ht'. rewrite <- (insert_delete_eq ts i t').
  pose proof (used_insert_new ws (delete i ts) i t' (lookup_delete_eq _ _)) as E1.
  pose proof (used_delete ws ts i t Hi) as E2.
  destruct (decide (i ∈ ws)).
  - rewrite decide_False in E1 by naive_solver. rewrite decide_False in E2 by naive_solver. lia.
  - rewrite decide_True in E1 by auto. rewrite decide_True in E2 by auto. lia.
Qed.

Lemma used_ext ws ws' ts :
  (forall i t, ts !! i = Some t -> t <> TRunning -> i ∈ ws <-> i ∈ ws') -> used_by ws ts = used_by ws' ts.
Proof.
  intros Hw. unfold used_by. apply map_filter_ext. intros i t Hi. simpl.
  destruct t; try done; rewrite !bool_decide_eq_true, (Hw i _ Hi); done.
Qed.

(** A waiter that is popped takes a slot over. *)
Lemma used_pop w ws ts t :
  w ∉ ws -> ts !! w = Some t -> t <> TRunning ->
  Z.of_nat (size (used_by ws ts)) = Z.of_nat (size (used_by (w :: ws) ts)) + 1.
Proof.
  intros Hw Ht Hr.
  pose proof (used_delete ws ts w t Ht) as E1. rewrite decide_True in E1 by auto.
  pose proof (used_delete (w :: ws) ts w t Ht) as E2. rewrite decide_False in E2 by (intros [|[]]; set_solver).
  rewrite (used_ext ws (w :: ws)) in E1; [lia|].
  intros i t' [Hne _]%lookup_delete_Some _. set_solver.
Qed.

Lemma elem_of_remove_first i l x :
  StronglySorted Z.lt l -> x ∈ remove_first i l <-> x ∈ l /\ x <> i.
Proof.
  induction 1 as [|y l Hl IH Hy]; simpl; [set_solver|].
  rewrite Forall_forall in Hy. destruct (Z.eqb_spec y i) as [->|Hne].
  - split; [|set_solver]. intros Hx. split; [by right|]. specialize (Hy x Hx). lia.
  - rewrite !elem_of_cons, IH. split; [|naive_solver]. intros [->|[? ?]]; [by split; [left|]|by split; [right|]].
Qed.

Lemma remove_first_sorted i l : StronglySorted Z.lt l -> StronglySorted Z.lt (remove_first i l).
Proof.
  induction 1 as [|y l Hl IH Hy]; simpl; [constructor|]. destruct (y =? i); [done|].
  constructor; [done|]. rewrite Forall_forall in Hy |- *. intros x Hx.
  apply elem_of_remove_first in Hx as [? _]; [|done]. by apply Hy.
Qed.

(** ** Every step keeps the invariant *)

Lemma release_core m s :
  queue_core m s -> queue_core m (start_release s) /\ (1 <= lost s -> lost (start_release s) = lost s - 1).
Proof.
  intros [Hm Hb Hf Hs Hlow Hw Hp]. unfold start_release, release_slot.
  destruct (waiters (queue s)) as [|w ws] eqn:Ew.
  - split; [split; simpl; [done|lia|done|constructor| |set_solver|set_solver]|].
    + intros i Hi. apply Hlow. set_solver.
    + unfold lost. rewrite Ew. simpl. lia.
  - inversion_clear Hs as [|? ? Hs' Hall]. rewrite Forall_forall in Hall.
    assert (Hnw : w ∉ ws) by (intros H%Hall; lia).
    destruct (Hw w) as (t & Ht & Hr); [by left|].
    split; [split; simpl; [done|lia| |done| | |]|].
    + intros _. by apply Hf.
    + intros i Hi. apply Hlow. set_solver.
    + intros w' Hw'. apply Hw. by right.
    + intros w' Hw'. assert (w' ∈ ready s \/ w' ∈ releasing s \/ w' = w) as [?|[?| ->]] by set_solver; [| |done];
        intros ?; apply (Hp w'); set_solver.
    + intros _. unfold lost. rewrite Ew. simpl. pose proof (used_pop w ws (tickets s) t Hnw Ht Hr). lia.
Qed.

(** A ticket leaves; its waiter is not in the queue. *)
Lemma drop_core m s i t :
  queue_core m s -> tickets s !! i = Some t -> i ∉ waiters (queue s) ->
  queue_core m (drop_ticket s i) /\ lost (drop_ticket s i) = lost s + 1.
Proof.
  intros [Hm Hb Hf Hs Hlow Hw Hp] Ht Hi. split.
  - split; simpl; [done..| | |done].
    + intros j Hj. apply Hlow. destruct Hj as [[x [_ Hx]%lookup_delete_Some]|?]; [left; by exists x|by right].
    + intros w Hin. destruct (Hw w Hin) as (x & Hx & Hr). exists x. split; [|done].
      rewrite lookup_delete_ne by set_solver. done.
  - unfold lost. simpl. rewrite (used_delete _ _ i t Ht), decide_True by auto. lia.
Qed.

Lemma running_not_waiting m s i : queue_core m s -> tickets s !! i = Some TRunning -> i ∉ waiters (queue s).
Proof. intros Hc Hi Hin. destruct (inv_waiting _ _ Hc i Hin) as (t & Ht & Hr). congruence. Qed.

Lemma set_permits_core m s n :
  queue_core m s -> queue_core m (set_permits s n) /\
  lost (set_permits s n) = lost s + Z.of_nat (permits s) - Z.of_nat n.
Proof. intros [? ? ? ? ? ? ?]. split; [by split|]. unfold lost. simpl. lia. Qed.

(** A ticket that is not running moves to another such state. *)
Lemma move_core m s i t t' :
  queue_core m s -> tickets s !! i = Some t -> t <> TRunning -> t' <> TRunning ->
  queue_core m (set_ticket s i t') /\ lost (set_ticket s i t') = lost s.
Proof.
  intros [Hm Hb Hf Hs Hlow Hw Hp] Ht Hr Hr'. split.
  - split; simpl; [done..| | |done].
    + intros j Hj. apply Hlow. destruct Hj as [[x Hx]|?]; [left|by right].
      apply lookup_insert_Some in Hx as [[-> _]|[_ ?]]; by eexists.
    + intros w Hin. destruct (decide (i = w)) as [->|Hne].
      * exists t'. by rewrite lookup_insert_eq.
      * destruct (Hw w Hin) as (x & Hx & Hrx). exists x. by rewrite lookup_insert_ne.
  - unfold lost. simpl. by rewrite (used_replace _ _ i t t').
Qed.

Lemma enqueue_core m s :
  queue_core m s -> sat_add64 (next_ticket_id (queue s)) 1 = next_ticket_id (queue s) + 1 ->
  queue_core m (enqueue_ticket s) /\ lost (enqueue_ticket s) = lost s.
Proof.
  intros [Hm Hb Hf Hs Hlow Hw Hp] Hnext. unfold enqueue_ticket, enqueue. rewrite Hnext. set (n := next_ticket_id (queue s)) in *.
  assert (Hnew : (tickets s !! n = None) /\ (n ∉ waiters (queue s)) /\ (n ∉ ready s) /\ (n ∉ releasing s)).
  { assert (Hn : forall P : Prop, (P -> is_Some (tickets s !! n) \/ n ∈ waiters (queue s) \/ n ∈ ready s \/
      n ∈ releasing s \/ n ∈ notifying s) -> ~ P) by (intros P HP HPP; specialize (Hlow n (HP HPP)); lia).
    split_and!; try (apply Hn; auto). apply eq_None_not_Some, Hn. auto. }
  destruct Hnew as (Hnt & Hnw & Hnr & Hnl). destruct (decide _) as [Hlt|Hge]; simpl.
  - split; [split; simpl|unfold lost; simpl; rewrite used_insert_new, decide_True by auto; lia].
    + done.
    + destruct Hm. lia.
    + intros Hne. specialize (Hf Hne). destruct Hm. lia.
    + done.
    + intros i [[x Hx]|Hi]; [|specialize (Hlow i (or_intror Hi)); lia].
      apply lookup_insert_Some in Hx as [[<- _]|[_ Hx]]; [lia|]. specialize (Hlow i (or_introl (ex_intro _ x Hx))). lia.
    + intros w Hin. destruct (Hw w Hin) as (x & Hx & ?). exists x. rewrite lookup_insert_ne; [done|congruence].
    + done.
  - split; [split; simpl|].
    + done.
    + done.
    + intros _. destruct Hm. lia.
    + assert (Hall : Forall (fun x => x < n) (waiters (queue s)))
        by (apply Forall_forall; intros x Hx; apply Hlow; auto).
      clear -Hs Hall. induction Hs as [|x l Hl IH Hx]; simpl; [repeat constructor|].
      inversion_clear Hall. constructor; [auto|]. apply Forall_app. split; [done|by constructor].
    + intros i Hi. assert (i = n \/ is_Some (tickets s !! i) \/ i ∈ waiters (queue s) \/ i ∈ ready s \/ i ∈ releasing s \/ i ∈ notifying s)
        as [->|Hi'].
      { destruct Hi as [[x Hx]|Hi]; [|set_solver].
        apply lookup_insert_Some in Hx as [[<- _]|[_ Hx]]; [by left|right; left; by exists x]. }
      * lia.
      * specialize (Hlow i Hi'). lia.
    + intros w [Hin| ->%list_elem_of_singleton]%elem_of_app.
      * destruct (Hw w Hin) as (x & Hx & ?). exists x. rewrite lookup_insert_ne; [done|congruence].
      * exists TQueued. by rewrite lookup_insert_eq.
    + intros w Hwr Hin. apply elem_of_app in Hin as [Hin| ->%list_elem_of_singleton]; [by apply (Hp w)|naive_solver].
    + unfold lost. simpl. rewrite used_insert_new by done. rewrite decide_False by (intros [|[]]; set_solver).
      rewrite (used_ext (waiters (queue s) ++ [n]) (waiters (queue s))); [lia|].
      intros i t Hi _. rewrite elem_of_app, list_elem_of_singleton. naive_solver congruence.
Qed.

Lemma remove_core m s i :
  queue_core m s -> tickets s !! i = Some TDropping ->
  queue_core m (remove_ticket s i) /\
  lost (remove_ticket s i) = lost s + (if decide (i ∈ waiters (queue s)) then 0 else 1).
Proof.
  intros [Hm Hb Hf Hs Hlow Hw Hp] Hi. simpl.
  assert (Hrem : forall x, x ∈ remove_first i (waiters (queue s)) <-> x ∈ waiters (queue s) /\ x <> i)
    by (intros x; by apply elem_of_remove_first).
  split; [split; simpl|].
  - done.
  - done.
  - intros Hne. apply Hf. intros E. by rewrite E in Hne.
  - by apply remove_first_sorted.
  - intros j Hj. apply Hlow. rewrite Hrem in Hj.
    destruct Hj as [[x [_ Hx]%lookup_delete_Some]|?]; [left; by exists x|tauto].
  - intros w [Hin Hne]%Hrem. destruct (Hw w Hin) as (x & Hx & Hr). exists x. by rewrite lookup_delete_ne.
  - intros w Hin [Hin' _]%Hrem. by apply (Hp w Hin).
  - unfold lost. simpl. rewrite (used_ext (remove_first i (waiters (queue s))) (waiters (queue s))).
    + rewrite (used_delete _ _ i TDropping Hi). repeat case_decide; naive_solver lia.
    + intros j t [Hne _]%lookup_delete_Some _. rewrite Hrem. naive_solver.
Qed.

(** One step of the system, whatever it is, keeps the invariant; the account of
    lost slots grows only when a dropped ticket that lost the race removes
    itself. *)
Lemma step_core m s s' :
  step s s' -> queue_core m s -> 0 <= lost s -> next_ticket_id (queue s) < u64_max ->
  queue_core m s' /\ (lost s' = lost s \/ leaking s /\ lost s' = lost s + 1).
Proof.
  intros Hstep Hc Hl Hn. destruct Hstep as [s|s i Hi|s i Hi Hr|s i Hi Hr|s i Hi|s n Hp|s l w l' Hw|s l w l' Hw|s i Hi|s i t Hi Ht Hr|s i t Hi Ht Hr|s i Hi].
  - destruct (enqueue_core m s Hc) as [? ?]; [unfold sat_add64; lia|]. auto.
  - destruct (drop_core m s i _ Hc Hi (running_not_waiting m s i Hc Hi)) as [Hc1 E1].
    destruct (set_permits_core m _ (S (permits s)) Hc1) as [? E2]. split; [done|left].
    unfold take_permit. rewrite E2, E1. simpl. lia.
  - assert (Hnw : i ∉ waiters (queue s)) by (apply (inv_popped _ _ Hc); auto).
    destruct (drop_core m s i _ Hc Hi Hnw) as [Hc1 E1].
    destruct (set_permits_core m _ (S (permits s)) Hc1) as [? E2]. split; [done|left].
    unfold take_permit. rewrite E2, E1. simpl. lia.
  - destruct (move_core m s i _ TChecked Hc Hi) as [? ?]; [done..|]. auto.
  - destruct (move_core m s i _ TParked Hc Hi) as [? ?]; [done..|]. auto.
  - destruct (set_permits_core m s n Hc) as [Hc1 E1]. destruct (release_core m _ Hc1) as [? E2].
    split; [done|left]. rewrite E2; lia.
  - split; [|by left]. destruct Hc as [Hm Hb Hf Hs Hlow Hwt Hp]. split; simpl; [done..| |done|].
    + intros j Hj. apply Hlow. rewrite Hw. set_solver.
    + intros j Hj. apply Hp. rewrite Hw. set_solver.
  - assert (Hc0 : queue_core m {| max_in_flight := max_in_flight s; queue := queue s; ready := ready s;
      releasing := releasing s; notifying := l ++ l'; tickets := tickets s; permits := permits s |}).
    { destruct Hc as [Hm Hb Hf Hs Hlow Hwt Hp]. split; simpl; [done..| |done|done].
      intros j Hj. apply Hlow. rewrite Hw. set_solver. }
    unfold notify. case_decide as Ht; [|by split; [|left]].
    destruct (move_core m _ w _ TQueued Hc0 Ht) as [? E]; [done..|]. split; [done|]. left. exact E.
  - destruct (drop_core m s i _ Hc Hi (running_not_waiting m s i Hc Hi)) as [Hc1 E1].
    destruct (release_core m _ Hc1) as [? E2]. split; [done|left]. rewrite E2; lia.
  - assert (Hnw : i ∉ waiters (queue s)) by (apply (inv_popped _ _ Hc); auto).
    destruct (drop_core m s i _ Hc Hi Hnw) as [Hc1 E1].
    destruct (release_core m _ Hc1) as [? E2]. split; [done|left]. rewrite E2; lia.
  - destruct (move_core m s i _ TDropping Hc Hi) as [? ?]; [by destruct Ht as [-> | ->]|done|]. auto.
  - destruct (remove_core m s i Hc Hi) as [? E]. split; [done|]. rewrite E; case_decide; [left; lia|].
    right. split; [by exists i|done].
Qed.

Lemma step_next s s' : step s s' -> next_ticket_id (queue s) <= u64_max -> next_ticket_id (queue s) <= next_ticket_id (queue s') <= u64_max.
Proof.
  assert (Hrel : forall s0, next_ticket_id (queue (start_release s0)) = next_ticket_id (queue s0))
    by (intros s0; unfold start_release, release_slot; by destruct (waiters (queue s0))).
  intros Hstep Hn. destruct Hstep; rewrite ?Hrel; simpl; try lia.
  unfold enqueue_ticket, enqueue. case_decide; simpl; unfold sat_add64; lia.
Qed.

Lemma steps_next s s' : rtc step s s' -> next_ticket_id (queue s) <= u64_max ->
  next_ticket_id (queue s) <= next_ticket_id (queue s') <= u64_max.
Proof.
  induction 1 as [s|s s1 s2 H1 _ IH]; intros Hn; [lia|].
  pose proof (step_next s s1 H1 Hn). specialize (IH ltac:(lia)). lia.
Qed.

Lemma queue_new_inv max : queue_inv (Nat.max max 1) (queue_new max) /\ lost (queue_new max) = 0.
Proof.
  assert (El : lost (queue_new max) = 0) by (unfold lost, used_by; simpl; rewrite map_filter_empty, map_size_empty; lia).
  split; [|done]. split; [|lia]. split; simpl; [lia|lia|done|constructor| |set_solver|set_solver].
  intros i [[x Hx]|Hi]; [by rewrite lookup_empty in Hx|set_solver].
Qed.

Lemma reachable_inv max s :
  reachable max s -> next_ticket_id (queue s) < u64_max -> queue_inv (Nat.max max 1) s.
Proof.
  unfold reachable. intros Hr. apply rtc_ind_r with (z := s) (P := fun s => next_ticket_id (queue s) < u64_max -> queue_inv (Nat.max max 1) s) in Hr; [done|..].
  - intros _. apply queue_new_inv.
  - clear. intros s s' Hs Hstep IH Hn.
    assert (Hn' : next_ticket_id (queue s) <= next_ticket_id (queue s')).
    { apply step_next; [done|]. by apply (steps_next (queue_new max) s Hs). }
    destruct IH as [Hc Hl]; [lia|]. destruct (step_core _ _ _ Hstep Hc Hl) as [? E]; [lia|].
    split; [done|]. destruct E as [E|[_ E]]; lia.
Qed.

(** ** The properties *)

(** The tickets that were admitted at once and not used yet. *)
Definition running_tickets s : gmap Z ticket_state := filter (fun it => it.2 = TRunning) (tickets s).

(** C30: the queue never admits more than its capacity: in every reachable
    state, over every interleaving of its operations, the permits, the tickets
    admitted at once and the waiters that were handed a slot are together at
    most the number in flight, which is at most the capacity (at least 1); and
    no request waits while a slot is free. *)
Theorem queue_capacity (max : nat) (s : system) :
  reachable max s -> next_ticket_id (queue s) < u64_max ->
  (slots_used s <= in_flight (queue s))%nat /\ (in_flight (queue s) <= Nat.max max 1)%nat /\
  (permits s + size (running_tickets s) <= Nat.max max 1)%nat /\
  (waiters (queue s) <> [] -> in_flight (queue s) = Nat.max max 1).
Proof.
  intros Hr Hn. destruct (reachable_inv max s Hr Hn) as [Hc Hl]. unfold lost in Hl.
  assert (Hu : (slots_used s <= in_flight (queue s))%nat) by (unfold slots_used; rewrite holders_used; lia).
  assert (Hrun : (size (running_tickets s) <= size (holders s))%nat).
  { apply map_subseteq_size. apply map_filter_subseteq_ext. intros i t Ht. simpl. by intros ->. }
  pose proof (inv_bound _ _ Hc). split_and!; [done|done|unfold slots_used in Hu; lia|apply Hc].
Qed.

(** Slots are handed over in the order of arrival: in every reachable state
    the waiting requests are queued in increasing order of their ticket ids,
    each after all tickets that exist, and a release hands its slot to the one
    that arrived first among those waiting. *)
Theorem queue_fifo (max : nat) (s : system) :
  reachable max s -> next_ticket_id (queue s) < u64_max ->
  StronglySorted Z.lt (waiters (queue s)) /\
  (forall i, is_Some (tickets s !! i) -> i < next_ticket_id (queue s)) /\
  (forall w, (release_slot (queue s)).2 = Some w ->
     w ∈ waiters (queue s) /\ forall w', w' ∈ waiters (queue s) -> w <= w').
Proof.
  intros Hr Hn. destruct (reachable_inv max s Hr Hn) as [Hc _]. pose proof (inv_sorted _ _ Hc) as Hs.
  split_and!; [done|intros i Hi; apply (inv_below _ _ Hc); auto|].
  intros w. unfold release_slot. destruct (waiters (queue s)) as [|w0 ws]; [done|]. intros [= <-].
  split; [by left|]. inversion_clear Hs as [|? ? _ Hall]. rewrite Forall_forall in Hall.
  intros w' [->|Hin]%elem_of_cons; [lia|]. specialize (Hall w' Hin). lia.
Qed.

(** A step of a run without the race between a dropped ticket and a release. *)
Definition clean_step s s' : Prop := step s s' /\ ~ leaking s.

(** Along every run in which no dropped ticket loses the race against a
    release, the slots are accounted for exactly: the number in flight is the
    number of permits, of tickets admitted at once and of waiters that were
    handed a slot.  So once all of them are gone, all slots are free again. *)
Theorem queue_slots_conserved (max : nat) (s : system) :
  rtc clean_step (queue_new max) s -> next_ticket_id (queue s) < u64_max ->
  in_flight (queue s) = slots_used s.
Proof.
  intros Hr Hn. enough (lost s = 0) as E by (unfold lost in E; unfold slots_used; rewrite holders_used; lia).
  revert Hn. apply rtc_ind_r with (z := s) (P := fun s => next_ticket_id (queue s) < u64_max -> lost s = 0) in Hr; [done|..].
  - intros _. apply queue_new_inv.
  - clear. intros s s' Hs [Hstep Hnl] IH Hn.
    assert (Hs' : rtc step (queue_new max) s) by (eapply rtc_subrel; [|exact Hs]; by intros ?? []).
    assert (Hn' : next_ticket_id (queue s) <= next_ticket_id (queue s')).
    { apply step_next; [done|]. by apply (steps_next (queue_new max) s Hs'). }
    destruct (reachable_inv max s Hs') as [Hc Hl]; [lia|].
    destruct (step_core _ _ _ Hstep Hc Hl) as [_ [E|[? _]]]; [lia| |done]. rewrite E. apply IH. lia.
Qed.

(** ** Races *)

(** Every slot is taken and nobody will ever give one back: no permit, no
    ticket admitted, no release under way, and the flags that are set belong to
    nobody, but for the ticket [p] that sleeps with its flag set. *)
Record stuck (p : Z) (s : system) : Prop := {
  stuck_full : in_flight (queue s) = max_in_flight s;
  stuck_permits : permits s = 0%nat;
  stuck_releasing : releasing s = [];
  stuck_notifying : p ∉ notifying s;
  stuck_ready : p ∈ ready s;
  stuck_below : p < next_ticket_id (queue s) <= u64_max /\ forall i, i ∈ ready s -> i < next_ticket_id (queue s);
  stuck_tickets : forall i t, tickets s !! i = Some t -> (i = p /\ t = TParked) \/ (i <> p /\ (i ∉ ready s) /\ t <> TRunning)
}.

Lemma stuck_move p s i t t' :
  stuck p s -> tickets s !! i = Some t -> t <> TParked \/ i ∉ ready s -> i <> p -> t' <> TRunning ->
  stuck p (set_ticket s i t') /\ tickets (set_ticket s i t') !! p = tickets s !! p.
Proof.
  intros [Hf Hp Hr Hn Hpr Hb Ht] Hi Hne Hip Hr'. split; [|by simpl; rewrite lookup_insert_ne].
  destruct (Ht i t Hi) as [[-> _]|(_ & Hir & _)]; [done|].
  split; simpl; try done. intros j u [[<- <-]|[_ Hj]]%lookup_insert_Some; [by right|by apply Ht].
Qed.

(** Nothing but the cancellation of [p] itself leads out of such a state. *)
Lemma stuck_step p s s' :
  stuck p s -> step s s' -> (tickets s !! p = None \/ is_Some (tickets s' !! p)) ->
  stuck p s' /\ tickets s' !! p = tickets s !! p.
Proof.
  intros Hstuck Hstep Hcan. pose proof Hstuck as [Hf Hp Hr Hn Hpr [Hb1 Hb2] Ht].
  destruct Hstep as [s|s i Hi|s i Hi Hir|s i Hi Hir|s i Hi|s n Hpn|s l w l' Hw|s l w l' Hw|s i Hi|s i t Hi Htt Hir|s i t Hi Htt Hir|s i Hi].
  - unfold enqueue_ticket, enqueue. rewrite decide_False by lia.
    assert (E : (sat_add64 (next_ticket_id (queue s)) 1 >= next_ticket_id (queue s)) /\
                sat_add64 (next_ticket_id (queue s)) 1 <= u64_max) by (unfold sat_add64; lia).
    split; [|simpl; rewrite lookup_insert_ne by lia; done]. split; simpl; try done.
    + split; [lia|]. intros i Hi. specialize (Hb2 i Hi). lia.
    + intros i t [[<- <-]|[_ Hi]]%lookup_insert_Some; [|by apply Ht]. right. split; [lia|].
      split; [|done]. intros Hi. specialize (Hb2 _ Hi). lia.
  - destruct (Ht i _ Hi) as [[_ [=]]|(_ & _ & [])]; done.
  - destruct (Ht i _ Hi) as [[_ [=]]|(_ & [] & _)]; done.
  - destruct (Ht i _ Hi) as [[_ [=]]|(? & ? & _)]. by apply stuck_move with (t := TQueued); auto.
  - destruct (Ht i _ Hi) as [[_ [=]]|(? & ? & _)]. by apply stuck_move with (t := TChecked); auto.
  - lia.
  - rewrite Hr in Hw. by destruct l.
  - assert (Hwp : w <> p) by (intros ->; apply Hn; rewrite Hw; set_solver).
    split; [|simpl; case_decide; [by rewrite lookup_insert_ne|done]]. split; simpl; try done.
    + rewrite Hw in Hn. set_solver.
    + intros i t. case_decide as Hd; [|by apply Ht].
      intros [[<- <-]|[_ Hi]]%lookup_insert_Some; [|by apply Ht].
      destruct (Ht w _ Hd) as [[-> _]|(? & ? & _)]; [done|by right].
  - destruct (Ht i _ Hi) as [[_ [=]]|(_ & _ & [])]; done.
  - destruct (Ht i _ Hi) as [[-> _]|(_ & [] & _)]; [|done]. exfalso.
    destruct Hcan as [Hcan|[u Hcan]]; [congruence|].
    assert (Hd : tickets (start_release (drop_ticket s p)) = delete p (tickets s))
      by (unfold start_release, release_slot; simpl; by destruct (waiters (queue s))).
    rewrite Hd in Hcan. by rewrite lookup_delete_eq in Hcan.
  - destruct (Ht i _ Hi) as [[-> ->]|(? & ? & ?)].
    + by destruct Hir.
    + by apply stuck_move with (t := t); auto.
  - destruct (Ht i _ Hi) as [[_ [=]]|(? & ? & _)]. split; [|simpl; by rewrite lookup_delete_ne].
    split; simpl; try done. intros j u [_ Hj]%lookup_delete_Some. by apply Ht.
Qed.

(** The state of a thread of steps in which the ticket [p] is not cancelled. *)
Definition uncancelled_step (p : Z) (s s' : system) : Prop := step s s' /\ is_Some (tickets s' !! p).

Lemma stuck_gone p s s' : stuck p s -> tickets s !! p = None -> rtc step s s' -> permits s' = 0%nat.
Proof.
  intros Hs Hp Hr. induction Hr as [s|s s1 s2 H1 _ IH]; [apply Hs|].
  destruct (stuck_step p s s1 Hs H1 (or_introl Hp)) as [Hs1 E]. apply IH; [done|]. congruence.
Qed.

Lemma stuck_asleep p s s' :
  stuck p s -> rtc (uncancelled_step p) s s' -> permits s' = 0%nat /\ tickets s' !! p = tickets s !! p.
Proof.
  intros Hs Hr. induction Hr as [s|s s1 s2 [H1 Hc] _ IH]; [split; [apply Hs|done]|].
  destruct (stuck_step p s s1 Hs H1 (or_intror Hc)) as [Hs1 E]. destruct (IH Hs1) as [? E']. split; [done|congruence].
Qed.

(** ** Runs *)

Definition q0 : system := queue_new 1.
(** Two requests: the first is admitted, the second queued. *)
Definition q2 : system := enqueue_ticket (enqueue_ticket q0).

Lemma q2_steps : rtc clean_step q0 q2.
Proof.
  eapply rtc_l; [split; [apply step_enqueue|]|apply rtc_once; split; [apply step_enqueue|]].
  - intros (i & Hi & _). change (tickets q0) with (∅ : gmap Z ticket_state) in Hi. by rewrite lookup_empty in Hi.
  - intros (i & Hi & _).
    change (tickets (enqueue_ticket q0)) with (<[1 := TRunning]> (∅ : gmap Z ticket_state)) in Hi.
    apply lookup_insert_Some in Hi as [[_ [=]]|[_ Hi]]. by rewrite lookup_empty in Hi.
Qed.

Lemma q2_reachable : reachable 1 q2.
Proof. eapply rtc_subrel; [|apply q2_steps]. by intros ?? []. Qed.

(** The second ticket is dropped: it has looked at its flag; then the first one
    is dropped and hands its slot to it; then the second removes itself. *)
Definition leaked : system :=
  notify (store_flag (remove_ticket (start_release (drop_ticket (set_ticket q2 2 TDropping) 1)) 2) [] 2 []) [] 2 [].

Lemma leaked_reachable : reachable 1 leaked.
Proof.
  eapply rtc_r; [eapply rtc_r; [eapply rtc_r; [eapply rtc_r; [eapply rtc_r; [apply q2_reachable|]|]|]|]|].
  - apply (step_drop_queued q2 2 TQueued); [reflexivity|by left|]. intros []%not_elem_of_empty.
  - apply (step_drop_running _ 1). reflexivity.
  - apply (step_remove _ 2). reflexivity.
  - apply (step_store _ [] 2 []). reflexivity.
  - apply (step_notify _ [] 2 []). reflexivity.
Qed.

(** The second ticket looks at its flag; the first is dropped, hands its slot
    over and notifies; then the second creates its future and sleeps. *)
Definition overslept : system :=
  set_ticket (notify (store_flag (start_release (drop_ticket (set_ticket q2 2 TChecked) 1)) [] 2 []) [] 2 []) 2 TParked.

Lemma overslept_reachable : reachable 1 overslept.
Proof.
  eapply rtc_r; [eapply rtc_r; [eapply rtc_r; [eapply rtc_r; [eapply rtc_r; [apply q2_reachable|]|]|]|]|].
  - apply (step_turn_check _ 2); [reflexivity|]. intros []%not_elem_of_empty.
  - apply (step_drop_running _ 1). reflexivity.
  - apply (step_store _ [] 2 []). reflexivity.
  - apply (step_notify _ [] 2 []). reflexivity.
  - apply (step_turn_park _ 2). reflexivity.
Qed.

(** The queue can lose a slot for good.  With capacity 1, when a queued
    ticket is dropped between its look at its flag and its removal from the
    queue, and the running one gives its slot up in between, the slot goes to a
    waiter nobody waits for: a state is reachable in which there are no tickets
    and no permits, the only slot is counted as taken, and no continuation
    whatsoever admits a request again. *)
Theorem queue_slot_leak :
  exists s, reachable 1 s /\ tickets s = ∅ /\ permits s = 0%nat /\ in_flight (queue s) = 1%nat /\
    forall s', rtc step s s' -> permits s' = 0%nat.
Proof.
  exists leaked. split; [apply leaked_reachable|]. split; [reflexivity|]. split; [reflexivity|]. split; [reflexivity|].
  intros s' Hs'. apply (stuck_gone 2 leaked s'); [|reflexivity|done].
  split; try reflexivity; try by_compute.
Qed.

(** The queue can lose a wake-up.  With capacity 1, when a release stores
    the flag of a queued request and notifies it between the request's look at
    the flag and the creation of its [notified()] future, a state is reachable
    in which the request holds the only slot, has its flag set, and sleeps: no
    continuation that does not cancel it ever wakes it, and no other request is
    admitted. *)
Theorem queue_lost_wakeup :
  exists s, reachable 1 s /\ tickets s !! 2 = Some TParked /\ 2 ∈ ready s /\
    forall s', rtc (uncancelled_step 2) s s' -> tickets s' !! 2 = Some TParked /\ permits s' = 0%nat.
Proof.
  exists overslept. split; [apply overslept_reachable|]. split; [reflexivity|]. split; [by_compute|].
  intros s' Hs'. destruct (stuck_asleep 2 overslept s') as [Hp E]; [|done|by rewrite E].
  split; try reflexivity; try by_compute.
Qed.

(** ** Witnesses *)

Lemma queue_capacity_witness : (slots_used q2 <= 1)%nat /\ in_flight (queue q2) = 1%nat.
Proof.
  destruct (queue_capacity 1 q2 q2_reachable ltac:(by_compute)) as (H1 & H2 & _ & H4).
  split; [lia|]. apply H4. by_compute.
Defined.

Lemma queue_fifo_witness : 2 ∈ waiters (queue q2) /\ (release_slot (queue q2)).2 = Some 2.
Proof.
  split; [|reflexivity]. by apply (queue_fifo 1 q2 q2_reachable ltac:(by_compute)).
Defined.

Lemma queue_slots_conserved_witness : in_flight (queue q2) = slots_used q2 /\ slots_used q2 = 1%nat.
Proof. split; [apply (queue_slots_conserved 1 q2 q2_steps); by_compute|reflexivity]. Defined.
