(* ===== verification/TaskTypes.v ===== *)
(** The data of the task manager ([kernel/buckyos-api/src/task_mgr.rs]) that
    access control works on: tasks, their executors and states, the actions and
    data scopes of the policy, and the grants.  JSON values are a type
    parameter. *)
From Stdlib Require Import ZArith Lia.
From stdpp Require Import base tactics numbers gmap strings list.
From S2P Require Import Prelude RustString.

Abbreviation TaskId := string.

Record ActorRef := { user_id : string; app_id : string; app_instance_id : option string }.

Record TaskOriginRef := { origin_kind : string; origin_id : string }.

Inductive TaskExecutorKind := KUnbound | KApp | KHumanSet.

Inductive TaskExecutor :=
| Unbound
| App (target_id : option string) (app_id : string) (app_instance_id : option string)
| HumanSet.

(** [TaskExecutor::kind] *)
Definition executor_kind (e : TaskExecutor) : TaskExecutorKind :=
  match e with Unbound => KUnbound | App _ _ _ => KApp | HumanSet => KHumanSet end.

Inductive TaskPhase := Promised | Accepted | PRunning | Waiting | Paused | Terminal.

Definition is_terminal (p : TaskPhase) : bool := match p with Terminal => true | _ => false end.

Inductive TaskWaitReasonKind :=
| Dispatch | Capacity | Authorization | HumanInput | ChildTask | Dependency | External | OtherReason.

Record TaskWaitReason := {
  reason_kind : TaskWaitReasonKind;
  reason_code : option string;
  related_task_id : option TaskId;
  reason_message : option string
}.

Inductive TaskOutcome := Succeeded | Failed | Canceled.

Inductive TaskControlAction := Pause | Resume | Cancel.

Record TaskControlRequest := {
  control_request_id : string;
  control_action : TaskControlAction;
  requested_by : ActorRef;
  requested_at : Z
}.

Inductive ControlAvailability := Available | Unavailable (reason : option string).
Inductive CancelCapability := CancelUnavailable (reason : option string) | Interrupt | Safe.

Record TaskControlProfile := {
  pause : ControlAvailability;
  resume : ControlAvailability;
  cancel : CancelCapability;
  profile_updated_at : Z
}.

Record ChildControlPolicy := { follow_pause : bool; follow_resume : bool; follow_cancel : bool }.

Definition follows (p : ChildControlPolicy) (a : TaskControlAction) : bool :=
  match a with Pause => follow_pause p | Resume => follow_resume p | Cancel => follow_cancel p end.

Inductive TaskAction :=
| ReadMeta | ReadInput | ReadResult | ReportProgress | Control | Commit | CreateChild | Reassign
| Grant | Archive.

#[export] Instance TaskAction_eq_dec : EqDecision TaskAction.
Proof. solve_decision. Defined.

Definition action_index (a : TaskAction) : nat :=
  match a with
  | ReadMeta => 0 | ReadInput => 1 | ReadResult => 2 | ReportProgress => 3 | Control => 4 | Commit => 5
  | CreateChild => 6 | Reassign => 7 | Grant => 8 | Archive => 9
  end%nat.

#[export] Instance TaskAction_countable : Countable TaskAction.
Proof.
  refine (inj_countable' action_index (fun n => match n with
    | 0 => ReadMeta | 1 => ReadInput | 2 => ReadResult | 3 => ReportProgress | 4 => Control | 5 => Commit
    | 6 => CreateChild | 7 => Reassign | 8 => Grant | _ => Archive end%nat) _).
  by intros [].
Defined.

Inductive TaskGrantSubject :=
| SubjectRootCreator
| SubjectCreator
| SubjectRunner
| SubjectAssignees
| SubjectUser (user_id : string)
| SubjectApp (app_id : string)
| SubjectPrincipal (user_id app_id : string)
| SubjectSystemRole (role : string).

Inductive TaskGrantScope := SelfOnly | Subtree | WholeTree.

(** Derived order: [MetaOnly < Payload < Full]. *)
Inductive TaskDataScope := MetaOnly | Payload | Full.

#[export] Instance TaskDataScope_eq_dec : EqDecision TaskDataScope.
Proof. solve_decision. Defined.

Definition scope_rank (s : TaskDataScope) : nat :=
  match s with MetaOnly => 0 | Payload => 1 | Full => 2 end%nat.

Definition scope_max (a b : TaskDataScope) : TaskDataScope :=
  if (scope_rank a <? scope_rank b)%nat then b else a.

Record TaskAclGrant := {
  grant_id : string;
  grant_task_id : TaskId;
  subject : TaskGrantSubject;
  actions : list TaskAction;
  grant_scope : TaskGrantScope;
  grant_data_scope : TaskDataScope;
  grant_created_by : ActorRef;
  grant_created_at : Z;
  revoked_at : option Z
}.

Record TaskError {Value : Type} := { error_code : string; error_message : string; detail : option Value }.
Arguments TaskError _ : clear implicits.

Record Task {Value : Type} := {
  task_id : TaskId;
  task_name : string;
  parent_id : option TaskId;
  root_id : TaskId;
  child_control_policy : ChildControlPolicy;
  schema_id : string;
  schema_version : Z;
  input : Value;
  input_digest : string;
  creator : ActorRef;
  idempotency_key : string;
  origin_ref : option TaskOriginRef;
  retry_of : option TaskId;
  supersedes : option TaskId;
  executor : TaskExecutor;
  runner_epoch : Z;
  assignees : option (list string);
  phase : TaskPhase;
  wait_reason : option TaskWaitReason;
  pending_control : option TaskControlRequest;
  control_profile : TaskControlProfile;
  progress : option Value;
  task_message : option string;
  outcome : option TaskOutcome;
  task_result : option Value;
  task_error : option (TaskError Value);
  completed_by : option ActorRef;
  policy_preset : string;
  permission_boundary : bool;
  task_revision : Z;
  data_scope : option TaskDataScope;
  created_at : Z;
  task_updated_at : Z;
  completed_at : option Z;
  archived_at : option Z
}.
Arguments Task _ : clear implicits.

Record TaskSummary := {
  sum_task_id : TaskId;
  sum_name : string;
  sum_parent_id : option TaskId;
  sum_root_id : TaskId;
  sum_schema_id : string;
  sum_schema_version : Z;
  sum_creator : ActorRef;
  sum_executor_kind : TaskExecutorKind;
  sum_phase : TaskPhase;
  sum_wait_reason : option TaskWaitReason;
  sum_pending_control_action : option TaskControlAction;
  sum_outcome : option TaskOutcome;
  sum_message : option string;
  sum_revision : Z;
  sum_created_at : Z;
  sum_updated_at : Z;
  sum_completed_at : option Z;
  sum_archived_at : option Z
}.

(** ** The order of data scopes *)

Lemma scope_max_spec a b c :
  (scope_rank (scope_max a b) <= scope_rank c)%nat <-> (scope_rank a <= scope_rank c /\ scope_rank b <= scope_rank c)%nat.
Proof. unfold scope_max. destruct (Nat.ltb_spec (scope_rank a) (scope_rank b)); lia. Qed.

Lemma scope_max_either a b : scope_max a b = a \/ scope_max a b = b.
Proof. unfold scope_max. destruct (_ <? _)%nat; auto. Qed.

Lemma scope_rank_inj a b : scope_rank a = scope_rank b -> a = b.
Proof. by destruct a, b. Qed.
