(* ===== verification/TaskAcl.v ===== *)
(** Access control of the task manager ([kernel/task_manager/src/acl.rs]) and
    the queries of the task store it rests on ([task_store.rs]).

    The store is its tables: the rows of [task], [task_assignee] and
    [task_acl_grant]; a query is what its SQL selects from them, and failures of
    the database are not modelled.  The zone's role check ([rbac::enforce]) is
    a parameter, and so are JSON values. *)
From Stdlib Require Import ZArith Lia.
From stdpp Require Import base tactics numbers gmap strings sorting list.
From S2P Require Import Prelude RustString TaskTypes.

Section acl.
Context {Value : Type} (null : Value).

(** A row of [task_assignee]. *)
Record assignee_row := { row_task_id : TaskId; row_user_id : string; row_revoked_at : option Z }.

Record TaskStore := {
  task_table : gmap TaskId (Task Value);
  assignee_table : list assignee_row;
  grant_table : list TaskAclGrant
}.

Definition live {A} (revoked : A -> option Z) (x : A) : bool :=
  match revoked x with None => true | Some _ => false end.

Definition active_assignees (store : TaskStore) (task_id : TaskId) : list string :=
  sort_stable string_leb
    (row_user_id <$> List.filter (fun r => String.eqb (row_task_id r) task_id && live row_revoked_at r)
                       (assignee_table store)).

Definition set_assignees (t : Task Value) (a : option (list string)) : Task Value :=
  {| task_id := task_id t; task_name := task_name t; parent_id := parent_id t; root_id := root_id t;
     child_control_policy := child_control_policy t; schema_id := schema_id t;
     schema_version := schema_version t; input := input t; input_digest := input_digest t;
     creator := creator t; idempotency_key := idempotency_key t; origin_ref := origin_ref t;
     retry_of := retry_of t; supersedes := supersedes t; executor := executor t;
     runner_epoch := runner_epoch t; assignees := a; phase := phase t; wait_reason := wait_reason t;
     pending_control := pending_control t; control_profile := control_profile t;
     progress := progress t; task_message := task_message t; outcome := outcome t;
     task_result := task_result t; task_error := task_error t; completed_by := completed_by t;
     policy_preset := policy_preset t; permission_boundary := permission_boundary t;
     task_revision := task_revision t; data_scope := data_scope t; created_at := created_at t;
     task_updated_at := task_updated_at t; completed_at := completed_at t; archived_at := archived_at t |}.

Definition attach_assignees (store : TaskStore) (t : Task Value) : Task Value :=
  match executor_kind (executor t) with
  | KHumanSet => set_assignees t (Some (active_assignees store (task_id t)))
  | _ => t
  end.

Definition get_task (store : TaskStore) (task_id : TaskId) : option (Task Value) :=
  attach_assignees store <$> task_table store !! task_id.

(** The walk from a task to its root.  The loop refuses to go on when more
    than 128 entries are in the chain: [room] is how many more may enter. *)
Fixpoint chain_go (store : TaskStore) (room : nat) (cursor : option TaskId)
  : result (list (TaskId * option TaskId * bool)) :=
  match cursor with
  | None => Ok []
  | Some current =>
    match room with
    | O => Err "task parent chain too deep or cyclic"
    | S room =>
      match task_table store !! current with
      | None => Ok []
      | Some row =>
        rest ← chain_go store room (parent_id row);
        mret ((current, parent_id row, permission_boundary row) :: rest)
      end
    end
  end.

Definition get_task_chain (store : TaskStore) (task_id : TaskId)
  : result (list (TaskId * option TaskId * bool)) := chain_go store 129 (Some task_id).

Definition active_grants_for (store : TaskStore) (ids : list TaskId) : list TaskAclGrant :=
  flat_map (fun i => List.filter (fun g => String.eqb (grant_task_id g) i && live revoked_at g)
                       (grant_table store)) ids.

Definition is_runner_app (e : TaskExecutor) (app : string) : bool :=
  match e with App _ a _ => String.eqb a app | _ => false end.

Definition is_tree_participant (store : TaskStore) (root user app : string) : bool :=
  existsb (fun kt => let t := kt.2 in
             String.eqb (root_id t) root &&
             (String.eqb (user_id (creator t)) user && String.eqb (app_id (creator t)) app ||
              is_runner_app (executor t) app)) (map_to_list (task_table store)) ||
  existsb (fun r => match task_table store !! row_task_id r with
                    | Some t => String.eqb (root_id t) root && String.eqb (row_user_id r) user &&
                                live row_revoked_at r
                    | None => false
                    end) (assignee_table store).

(** ** Principals and permissions *)

Context (enforce : string -> string -> string -> string -> option string -> bool)
        (default_sudo_userid : string -> string).

Definition task_collection_resource (owner : string) : string := "obj://task/" +:+ owner.

(** [TaskViewGate]: the answers of the role check for one request, per owner. *)
Abbreviation TaskViewGate := (gmap string bool).

Record Principal := {
  p_user_id : string;
  p_app_id : string;
  roles : list string;
  sudo : bool
}.

Definition actor_ref (p : Principal) : ActorRef :=
  {| user_id := p_user_id p; app_id := p_app_id p; app_instance_id := None |}.

Definition sudo_mode (p : Principal) : option string :=
  if sudo p then Some (default_sudo_userid (p_user_id p)) else None.

Definition may_view_user_tasks (memo : TaskViewGate) (p : Principal) (owner : string)
  : TaskViewGate * bool :=
  match memo !! owner with
  | Some cached => (memo, cached)
  | None =>
    let allowed := enforce (p_user_id p) (p_app_id p) (task_collection_resource owner) "read" (sudo_mode p) in
    (<[owner := allowed]> memo, allowed)
  end.

Record TaskPermission := {
  perm_actions : gset TaskAction;
  perm_scope : option TaskDataScope
}.

Definition no_permission : TaskPermission := {| perm_actions := ∅; perm_scope := None |}.

Definition allows (p : TaskPermission) (a : TaskAction) : bool := bool_decide (a ∈ perm_actions p).
Definition visible (p : TaskPermission) : bool := allows p ReadMeta.

Definition add_row (p : TaskPermission) (acts : list TaskAction) (scope : TaskDataScope) : TaskPermission :=
  {| perm_actions := list_to_set acts ∪ perm_actions p;
     perm_scope := Some (match perm_scope p with Some s => scope_max s scope | None => scope end) |}.

Definition root_creator_row := [ReadMeta; ReadInput; ReadResult; Control; CreateChild; Reassign; Grant; Archive].
Definition creator_row := [ReadMeta; ReadInput; ReadResult].
Definition runner_row := [ReadMeta; ReadInput; ReportProgress; Commit; CreateChild].
Definition assignee_actions := [ReadMeta; ReadInput; Commit; Reassign].

Definition expand_collaborative_tree_preset (p : TaskPermission)
    (is_root_creator is_creator is_runner is_assignee : bool) : TaskPermission :=
  let p := if is_root_creator then add_row p root_creator_row Full else p in
  let p := if is_creator then add_row p creator_row Full else p in
  let p := if is_runner then add_row p runner_row Full else p in
  if is_assignee then add_row p assignee_actions Full else p.

(** The nodes whose grants apply, and whether the root is among them: the chain
    up to the first permission boundary, that one included. *)
Fixpoint inheritable (chain : list (TaskId * option TaskId * bool)) : list TaskId * bool :=
  match chain with
  | [] => ([], false)
  | (i, parent, boundary) :: chain =>
    match parent with
    | None => ([i], true)
    | Some _ =>
      if boundary then ([i], false)
      else let (ids, root) := inheritable chain in (i :: ids, root)
    end
  end.

Definition is_actor (a : ActorRef) (p : Principal) : bool :=
  String.eqb (user_id a) (p_user_id p) && String.eqb (app_id a) (p_app_id p).

(** The relations of a principal to a task. *)
Record relations := {
  rel_root_creator : bool;
  rel_creator : bool;
  rel_runner : bool;
  rel_assignee : bool
}.

Definition task_relations (store : TaskStore) (p : Principal) (t : Task Value) (root_reachable : bool)
  : relations :=
  let is_creator := is_actor (creator t) p in
  let assignees := match assignees t with
                   | Some l => l
                   | None => match executor_kind (executor t) with
                             | KHumanSet => active_assignees store (task_id t)
                             | _ => []
                             end
                   end in
  {| rel_root_creator :=
       if root_reachable then
         match parent_id t with
         | None => is_creator
         | Some _ => match get_task store (root_id t) with
                     | Some root => is_actor (creator root) p
                     | None => false
                     end
         end
       else false;
     rel_creator := is_creator;
     rel_runner := is_runner_app (executor t) (p_app_id p);
     rel_assignee := existsb (String.eqb (p_user_id p)) assignees |}.

Definition subject_matches (r : relations) (p : Principal) (s : TaskGrantSubject) : bool :=
  match s with
  | SubjectRootCreator => rel_root_creator r
  | SubjectCreator => rel_creator r
  | SubjectRunner => rel_runner r
  | SubjectAssignees => rel_assignee r
  | SubjectUser u => String.eqb u (p_user_id p)
  | SubjectApp a => String.eqb a (p_app_id p)
  | SubjectPrincipal u a => String.eqb u (p_user_id p) && String.eqb a (p_app_id p)
  | SubjectSystemRole role => existsb (String.eqb role) (roles p)
  end.

Definition scope_covers (t : Task Value) (g : TaskAclGrant) : bool :=
  String.eqb (grant_task_id g) (task_id t) ||
  match grant_scope g with Subtree | WholeTree => true | SelfOnly => false end.

(** One round of the loop over the grants. *)
Definition add_grant (r : relations) (p : Principal) (t : Task Value) (perm : TaskPermission)
    (g : TaskAclGrant) : TaskPermission :=
  if scope_covers t g && subject_matches r p (subject g)
  then add_row perm (actions g) (grant_data_scope g) else perm.

Definition compute_permission (store : TaskStore) (memo : TaskViewGate) (p : Principal) (t : Task Value)
  : TaskViewGate * result TaskPermission :=
  match get_task_chain store (task_id t) with
  | Err e => (memo, Err e)
  | Panic => (memo, Panic)
  | Ok chain =>
    let (ids, root_reachable) := inheritable chain in
    let r := task_relations store p t root_reachable in
    let perm := expand_collaborative_tree_preset no_permission
                  (rel_root_creator r) (rel_creator r) (rel_runner r) (rel_assignee r) in
    let (memo, may_view) := may_view_user_tasks memo p (user_id (creator t)) in
    let perm := if may_view then add_row perm [ReadMeta; ReadInput; ReadResult] Full else perm in
    let perm := if root_reachable && negb (visible perm) &&
                   is_tree_participant store (root_id t) (p_user_id p) (p_app_id p)
                then add_row perm [ReadMeta] MetaOnly else perm in
    (memo, Ok (fold_left (add_grant r p t) (active_grants_for store ids) perm))
  end.

(** ** What a caller sees *)

Definition trim_task (t : Task Value) (perm : TaskPermission) : Task Value :=
  let scope := default MetaOnly (perm_scope perm) in
  let payload_scope := negb (bool_decide (scope = MetaOnly)) in
  let hide_input := negb (payload_scope && allows perm ReadInput) in
  let hide_result := negb (payload_scope && allows perm ReadResult) in
  let full := bool_decide (scope = Full) in
  {| task_id := task_id t; task_name := task_name t; parent_id := parent_id t; root_id := root_id t;
     child_control_policy := child_control_policy t; schema_id := schema_id t;
     schema_version := schema_version t;
     input := if hide_input then null else input t;
     input_digest := input_digest t; creator := creator t;
     idempotency_key := if full then idempotency_key t else "";
     origin_ref := if full then origin_ref t else None;
     retry_of := retry_of t; supersedes := supersedes t; executor := executor t;
     runner_epoch := runner_epoch t; assignees := assignees t; phase := phase t;
     wait_reason := wait_reason t; pending_control := pending_control t;
     control_profile := control_profile t;
     progress := if bool_decide (scope = MetaOnly) then None else progress t;
     task_message := task_message t; outcome := outcome t;
     task_result := if hide_result then None else task_result t;
     task_error := if hide_result
                   then (fun e => {| error_code := error_code e; error_message := ""; detail := None |}) <$> task_error t
                   else task_error t;
     completed_by := completed_by t; policy_preset := policy_preset t;
     permission_boundary := permission_boundary t; task_revision := task_revision t;
     data_scope := Some scope; created_at := created_at t; task_updated_at := task_updated_at t;
     completed_at := completed_at t; archived_at := archived_at t |}.

Definition summarize_task (t : Task Value) : TaskSummary :=
  {| sum_task_id := task_id t; sum_name := task_name t; sum_parent_id := parent_id t;
     sum_root_id := root_id t; sum_schema_id := schema_id t; sum_schema_version := schema_version t;
     sum_creator := {| user_id := user_id (creator t); app_id := app_id (creator t); app_instance_id := None |};
     sum_executor_kind := executor_kind (executor t); sum_phase := phase t;
     sum_wait_reason := wait_reason t;
     sum_pending_control_action := control_action <$> pending_control t;
     sum_outcome := outcome t; sum_message := task_message t; sum_revision := task_revision t;
     sum_created_at := created_at t; sum_updated_at := task_updated_at t;
     sum_completed_at := completed_at t; sum_archived_at := archived_at t |}.
End acl.

Arguments TaskStore _ : clear implicits.
