(* ===== verification/TaskAclTheorems.v ===== *)
(** Access control of the task manager: the computed permission is exactly the
    union of the rows that apply, grants above a permission boundary (and the
    order of grants) make no difference, and trimming hides exactly what the
    permission does not cover. *)
From Stdlib Require Import ZArith Lia.
From stdpp Require Import base tactics numbers gmap strings sorting list.
From S2P Require Import Prelude RustString TaskTypes TaskAcl.

Section acl.
Context {Value : Type} (null : Value).
Context (enforce : string -> string -> string -> string -> option string -> bool)
        (default_sudo_userid : string -> string).
Implicit Types (store : TaskStore Value) (t : Task Value) (p : Principal).

(** ** The policy, declaratively *)

(** The task and the ancestors whose grants reach it: up to the first
    permission boundary, that one included. *)
Inductive inherits store : TaskId -> TaskId -> Prop :=
| inherits_self i row : task_table store !! i = Some row -> inherits store i i
| inherits_up i row j k :
    task_table store !! i = Some row -> parent_id row = Some j -> permission_boundary row = false ->
    inherits store j k -> inherits store i k.

(** No boundary stands between the task and its root. *)
Definition root_reachable store (i : TaskId) : Prop :=
  exists k row, inherits store i k /\ task_table store !! k = Some row /\ parent_id row = None.

(** The role check, asked afresh. *)
Definition may_view p (owner : string) : bool :=
  enforce (p_user_id p) (p_app_id p) (task_collection_resource owner) "read" (sudo_mode default_sudo_userid p).

(** The relations, with the reachability of the root as a proposition. *)
Definition has_relations store p t (r : relations) : Prop :=
  exists b, (b = true <-> root_reachable store (task_id t)) /\ r = task_relations store p t b.

(** The rows of the policy that apply: what a principal gets, and why. *)
Inductive applies store p t : list TaskAction -> TaskDataScope -> Prop :=
| by_root_creator r : has_relations store p t r -> rel_root_creator r = true -> applies store p t root_creator_row Full
| by_creator : is_actor (creator t) p = true -> applies store p t creator_row Full
| by_runner : is_runner_app (executor t) (p_app_id p) = true -> applies store p t runner_row Full
| by_assignee r : has_relations store p t r -> rel_assignee r = true -> applies store p t assignee_actions Full
| by_view : may_view p (user_id (creator t)) = true -> applies store p t [ReadMeta; ReadInput; ReadResult] Full
| by_participation : root_reachable store (task_id t) ->
    is_tree_participant store (root_id t) (p_user_id p) (p_app_id p) = true ->
    applies store p t [ReadMeta] MetaOnly
| by_grant r g : has_relations store p t r -> g ∈ grant_table store -> revoked_at g = None ->
    inherits store (task_id t) (grant_task_id g) -> scope_covers t g = true ->
    subject_matches r p (subject g) = true -> applies store p t (actions g) (grant_data_scope g).

(** ** The chain *)

Lemma chain_inheritable store room i chain :
  chain_go store room (Some i) = Ok chain ->
  (forall k, k ∈ (inheritable chain).1 <-> inherits store i k) /\
  ((inheritable chain).2 = true <-> root_reachable store i).
Proof using Type.
  revert i chain. induction room as [|room IH]; intros i chain; cbn [chain_go]; [done|].
  destruct (task_table store !! i) as [row|] eqn:Ei.
  - destruct (parent_id row) as [j|] eqn:Ej.
    + destruct (chain_go store room (Some j)) as [rest| |] eqn:Er; intros [= <-]. cbn [inheritable].
      destruct (IH j rest Er) as [IH1 IH2]. destruct (permission_boundary row) eqn:Eb; simpl.
      * split.
        -- intros k. rewrite list_elem_of_singleton. split; [intros ->; by eapply inherits_self|].
           inversion 1; [done|]. congruence.
        -- split; [done|]. intros (k & row' & Hk & Hrow & Hp). inversion Hk; subst; congruence.
      * destruct (inheritable rest) as [ids root] eqn:Ein. simpl in *. split.
        -- intros k. rewrite elem_of_cons, IH1. split.
           ++ intros [->|Hk]; [by eapply inherits_self|by eapply inherits_up].
           ++ inversion 1; subst; [by left|right]. congruence.
        -- rewrite IH2. split.
           ++ intros (k & row' & Hk & ?). exists k, row'. split; [by eapply inherits_up|done].
           ++ intros (k & row' & Hk & Hrow & Hp). inversion Hk; subst; [congruence|].
              exists k, row'. split; [congruence|done].
    + assert (Hc : chain_go store room None = Ok []) by (by destruct room). rewrite Hc.
      intros [= <-]. simpl. split.
      * intros k. rewrite list_elem_of_singleton. split; [intros ->; by eapply inherits_self|].
        inversion 1; [done|]. congruence.
      * split; [|done]. intros _. exists i, row. split; [by eapply inherits_self|done].
  - intros [= <-]. simpl. split.
    + intros k. split; [set_solver|]. inversion 1; congruence.
    + split; [done|]. intros (k & row' & Hk & _). inversion Hk; congruence.
Qed.

Lemma elem_of_active_grants store ids g :
  g ∈ active_grants_for store ids <-> g ∈ grant_table store /\ revoked_at g = None /\ grant_task_id g ∈ ids.
Proof using Type.
  unfold active_grants_for. rewrite list_elem_of_In, in_flat_map. setoid_rewrite <- list_elem_of_In.
  setoid_rewrite elem_of_filterb. unfold live. split.
  - intros (i & Hi & [E%String.eqb_eq Hl]%andb_true_iff & Hg). subst i. by destruct (revoked_at g).
  - intros (Hg & Hr & Hi). exists (grant_task_id g). by rewrite String.eqb_refl, Hr.
Qed.

(** ** Adding rows *)

(** [perm] is the union of the rows [P]. *)
Definition union_of (P : list TaskAction -> TaskDataScope -> Prop) (perm : TaskPermission) : Prop :=
  (forall a, a ∈ perm_actions perm <-> exists acts sc, P acts sc /\ a ∈ acts) /\
  match perm_scope perm with
  | None => forall acts sc, ~ P acts sc
  | Some s => (exists acts, P acts s) /\ forall acts sc, P acts sc -> (scope_rank sc <= scope_rank s)%nat
  end.

Lemma union_add (P : list TaskAction -> TaskDataScope -> Prop) perm acts sc :
  union_of P perm -> union_of (fun a s => P a s \/ a = acts /\ s = sc) (add_row perm acts sc).
Proof using Type.
  intros [H1 H2]. split; simpl.
  - intros a. rewrite elem_of_union, elem_of_list_to_set, H1. naive_solver.
  - destruct (perm_scope perm) as [s|].
    + destruct H2 as [[a0 Ha0] Hmax]. split.
      * destruct (scope_max_either s sc) as [-> | ->]; eauto.
      * assert (Hle := proj1 (scope_max_spec s sc (scope_max s sc)) (Nat.le_refl _)).
        intros acts' sc' [Hp|[_ ->]]; [specialize (Hmax _ _ Hp)|]; lia.
    + split; [by eauto|]. intros acts' sc' [Hp|[_ ->]]; [by apply H2 in Hp|lia].
Qed.

Lemma union_ext (P Q : list TaskAction -> TaskDataScope -> Prop) perm :
  (forall a s, P a s <-> Q a s) -> union_of P perm -> union_of Q perm.
Proof using Type.
  intros E [H1 H2]. split; [intros a; rewrite H1; naive_solver|].
  destruct (perm_scope perm); [|naive_solver]. destruct H2 as [[acts ?] Hm]. split; [exists acts; by apply E|].
  intros acts' sc' HQ. eapply Hm, E, HQ.
Qed.

(** A row added under a condition. *)
Lemma union_add_if (P : list TaskAction -> TaskDataScope -> Prop) perm (b : bool) acts sc :
  union_of P perm ->
  union_of (fun a s => P a s \/ b = true /\ a = acts /\ s = sc) (if b then add_row perm acts sc else perm).
Proof using Type.
  intros H. destruct b.
  - eapply union_ext; [|by apply union_add]. naive_solver.
  - eapply union_ext; [|done]. naive_solver.
Qed.

(** The union determines the permission. *)
Lemma union_unique (P : list TaskAction -> TaskDataScope -> Prop) perm perm' :
  union_of P perm -> union_of P perm' -> perm = perm'.
Proof using Type.
  intros [H1 H2] [H1' H2']. destruct perm as [a s], perm' as [a' s']; simpl in *. f_equal.
  - apply set_eq. intros x. by rewrite H1, H1'.
  - destruct s as [s|], s' as [s'|]; [|naive_solver..].
    destruct H2 as [[x Hx] Hm], H2' as [[y Hy] Hm']. f_equal. apply scope_rank_inj.
    specialize (Hm _ _ Hy). specialize (Hm' _ _ Hx). lia.
Qed.

(** A row that only repeats what is there changes nothing. *)
Lemma union_visible (P : list TaskAction -> TaskDataScope -> Prop) perm :
  union_of P perm -> visible perm = true ->
  union_of (fun a s => P a s \/ a = [ReadMeta] /\ s = MetaOnly) perm.
Proof using Type.
  intros [H1 H2] Hv%bool_decide_eq_true. split.
  - intros a. rewrite H1. split; [naive_solver|].
    intros (acts & sc & [Hp|[-> ->]] & Ha); [eauto|]. apply list_elem_of_singleton in Ha as ->. by apply H1.
  - apply H1 in Hv as (acts & sc & Hp & _). destruct (perm_scope perm) as [s|]; [|by apply H2 in Hp].
    destruct H2 as [[x Hx] Hm]. split; [eauto|]. intros acts' sc' [Hp'|[_ ->]]; [by eapply Hm|simpl; lia].
Qed.

(** The participation row, added only when nothing else lets the task be seen. *)
Lemma union_participation (P : list TaskAction -> TaskDataScope -> Prop) perm (b w : bool) :
  union_of P perm ->
  union_of (fun a s => P a s \/ (b = true /\ w = true) /\ a = [ReadMeta] /\ s = MetaOnly)
    (if b && negb (visible perm) && w then add_row perm [ReadMeta] MetaOnly else perm).
Proof using Type.
  intros H. destruct b, w, (visible perm) eqn:Ev; cbn [andb negb];
    try (eapply union_ext; [|exact H]; intros a s; split; [by left|by intros [|[[] _]]]).
  - eapply union_ext; [|exact (union_visible _ _ H Ev)]. intros a s. tauto.
  - eapply union_ext; [|apply union_add, H]. intros a s. tauto.
Qed.

Lemma union_grants (P : list TaskAction -> TaskDataScope -> Prop) perm r p t l :
  union_of P perm ->
  union_of (fun a s => P a s \/ exists g, g ∈ l /\ scope_covers t g = true /\ subject_matches r p (subject g) = true /\
                                 a = actions g /\ s = grant_data_scope g)
    (fold_left (add_grant r p t) l perm).
Proof using Type.
  revert P perm. induction l as [|g l IH]; intros P perm H; simpl.
  { eapply union_ext; [|exact H]. set_solver. }
  apply (union_add_if P perm (scope_covers t g && subject_matches r p (subject g)) (actions g) (grant_data_scope g)) in H.
  eapply union_ext; [|apply IH, H]. simpl. intros a s. setoid_rewrite elem_of_cons. setoid_rewrite andb_true_iff.
  naive_solver.
Qed.

Lemma union_preset rc c ru asg :
  union_of (fun a s => s = Full /\ (rc = true /\ a = root_creator_row \/ c = true /\ a = creator_row \/
                                    ru = true /\ a = runner_row \/ asg = true /\ a = assignee_actions))
    (expand_collaborative_tree_preset no_permission rc c ru asg).
Proof using Type.
  assert (H0 : union_of (fun _ _ => False) no_permission) by (split; simpl; [set_solver|naive_solver]).
  unfold expand_collaborative_tree_preset.
  apply (union_add_if _ _ rc root_creator_row Full) in H0. apply (union_add_if _ _ c creator_row Full) in H0.
  apply (union_add_if _ _ ru runner_row Full) in H0. apply (union_add_if _ _ asg assignee_actions Full) in H0.
  eapply union_ext; [|exact H0]. naive_solver.
Qed.

(** The memo of the role check holds only answers of the role check. *)
Definition memo_ok p (memo : gmap string bool) : Prop := forall o b, memo !! o = Some b -> b = may_view p o.

Lemma may_view_memo p memo owner :
  memo_ok p memo ->
  let (memo', b) := may_view_user_tasks enforce default_sudo_userid memo p owner in
  memo_ok p memo' /\ b = may_view p owner.
Proof using Type.
  intros Hm. unfold may_view_user_tasks. destruct (memo !! owner) as [b|] eqn:E; [by split; [|apply Hm]|].
  split; [|done]. intros o b [[<- <-]|[_ Ho]]%lookup_insert_Some; [done|by apply Hm].
Qed.

(** The computed permission as a union of rows, given the reachability of the
    root. *)
Lemma compute_permission_union store memo p t memo' perm :
  memo_ok p memo -> compute_permission enforce default_sudo_userid store memo p t = (memo', Ok perm) ->
  memo_ok p memo' /\ union_of (applies store p t) perm.
Proof using Type.
  intros Hmemo. unfold compute_permission, get_task_chain.
  destruct (chain_go store 129 (Some (task_id t))) as [chain| |] eqn:Ec; [|done..].
  destruct (chain_inheritable _ _ _ _ Ec) as [Hids Hroot]. destruct (inheritable chain) as [ids b]. simpl in *.
  set (r := task_relations store p t b). assert (Hr : has_relations store p t r) by (by exists b).
  assert (Hr' : forall r', has_relations store p t r' -> r' = r).
  { intros r' (b' & Hb' & ->). unfold r. f_equal. destruct b, b'; naive_solver. }
  pose proof (may_view_memo p memo (user_id (creator t)) Hmemo) as Hv.
  destruct (may_view_user_tasks _ _ memo p _) as [memo1 v]. destruct Hv as [Hm1 ->].
  intros [= <- <-]. split; [done|].
  pose proof (union_preset (rel_root_creator r) (rel_creator r) (rel_runner r) (rel_assignee r)) as H1.
  apply (union_add_if _ _ (may_view p (user_id (creator t))) [ReadMeta; ReadInput; ReadResult] Full) in H1.
  apply (union_participation _ _ b (is_tree_participant store (root_id t) (p_user_id p) (p_app_id p))) in H1.
  apply (union_grants _ _ r p t (active_grants_for store ids)) in H1. eapply union_ext; [|exact H1].
  intros a s. setoid_rewrite elem_of_active_grants. setoid_rewrite Hids. split.
  - intros [[[(-> & [[? ->]|[[? ->]|[[? ->]|[? ->]]]])|(? & -> & ->)]|([Hb ?] & -> & ->)]|(g & (? & ? & ?) & ? & ? & -> & ->)].
    + by eapply by_root_creator.
    + by apply by_creator.
    + by apply by_runner.
    + by eapply by_assignee.
    + by apply by_view.
    + apply by_participation; [|done]. by apply Hroot.
    + by eapply by_grant.
  - destruct 1 as [r' H ?|?|?|r' H ?|?|? ?|r' g H ? ? ? ? ?]; try (apply Hr' in H as ->); [naive_solver..| | ].
    + left. right. rewrite Hroot. naive_solver.
    + right. exists g. naive_solver.
Qed.

(** ** The properties *)

(** C17: the permission [compute_permission] returns is exactly the policy: an
    action is allowed iff some row that applies gives it (the preset's rows for
    the relations of the caller to the task, the owner's view, participation in
    a tree whose root is reachable, the active grants on the task and on its
    ancestors up to the first permission boundary), and the data scope is the
    greatest of the rows that apply (none if no row does).  The memo of the
    role check stays right. *)
Theorem compute_permission_exact store (memo : gmap string bool) p t memo' perm :
  memo_ok p memo -> compute_permission enforce default_sudo_userid store memo p t = (memo', Ok perm) ->
  memo_ok p memo' /\
  (forall a, allows perm a = true <-> exists acts sc, applies store p t acts sc /\ a ∈ acts) /\
  match perm_scope perm with
  | None => forall acts sc, ~ applies store p t acts sc
  | Some s => (exists acts, applies store p t acts s) /\
              forall acts sc, applies store p t acts sc -> (scope_rank sc <= scope_rank s)%nat
  end.
Proof using Type.
  intros Hm Hc. destruct (compute_permission_union store memo p t memo' perm Hm Hc) as [? [H1 H2]].
  split_and!; [done| |done]. intros a. unfold allows. by rewrite bool_decide_eq_true.
Qed.

Definition with_grants store (gs : list TaskAclGrant) : TaskStore Value :=
  {| task_table := task_table store; assignee_table := assignee_table store; grant_table := gs |}.

Lemma inherits_grants store gs i k : inherits (with_grants store gs) i k <-> inherits store i k.
Proof using Type. split; induction 1; [by eapply inherits_self|by eapply inherits_up|by eapply inherits_self|by eapply inherits_up]. Qed.

Lemma root_reachable_grants store gs i : root_reachable (with_grants store gs) i <-> root_reachable store i.
Proof using Type. unfold root_reachable. by setoid_rewrite inherits_grants. Qed.

Lemma has_relations_grants store gs p t r : has_relations (with_grants store gs) p t r <-> has_relations store p t r.
Proof using Type. unfold has_relations. by setoid_rewrite root_reachable_grants. Qed.

Lemma chain_grants store gs room i : chain_go (with_grants store gs) room i = chain_go store room i.
Proof using Type.
  revert i. induction room as [|room IH]; intros [i|]; cbn [chain_go]; [done..| |done].
  simpl. destruct (task_table store !! i); [|done]. by rewrite IH.
Qed.

Lemma applies_grants store gs p t :
  (forall g, inherits store (task_id t) (grant_task_id g) -> revoked_at g = None -> g ∈ gs <-> g ∈ grant_table store) ->
  forall acts sc, applies (with_grants store gs) p t acts sc <-> applies store p t acts sc.
Proof using Type.
  intros Hg acts sc. split.
  - destruct 1 as [r Hr|?|?|r Hr|?|Hroot|r g Hr Hin Hrev Hinh];
      rewrite ?has_relations_grants, ?root_reachable_grants, ?inherits_grants in *;
      [by eapply by_root_creator|by apply by_creator|by apply by_runner|by eapply by_assignee|by apply by_view
      |by apply by_participation|eapply by_grant; try done; by apply Hg].
  - destruct 1 as [r Hr|?|?|r Hr|?|Hroot|r g Hr Hin Hrev Hinh];
      [eapply by_root_creator|apply by_creator|apply by_runner|eapply by_assignee|apply by_view
      |apply by_participation|eapply by_grant];
      rewrite ?has_relations_grants, ?root_reachable_grants, ?inherits_grants; try done. by apply Hg.
Qed.

(** A permission boundary isolates, and the order of grants does not matter:
    two stores that differ only in their grants, and agree on the active grants
    anchored at the task or at an ancestor up to the first boundary, give every
    principal the same permission on the task, whatever grants they hold on
    other tasks and in whatever order they are stored. *)
Theorem permission_boundary_isolates store (gs : list TaskAclGrant) (memo : gmap string bool) p t :
  memo_ok p memo ->
  (forall g, inherits store (task_id t) (grant_task_id g) -> revoked_at g = None -> g ∈ gs <-> g ∈ grant_table store) ->
  compute_permission enforce default_sudo_userid (with_grants store gs) memo p t =
  compute_permission enforce default_sudo_userid store memo p t.
Proof using Type.
  intros Hm Hg.
  destruct (compute_permission enforce default_sudo_userid (with_grants store gs) memo p t) as [m1 r1] eqn:E1,
    (compute_permission enforce default_sudo_userid store memo p t) as [m2 r2] eqn:E2.
  assert (Hsame : m1 = m2 /\ match r1, r2 with
    | Ok _, Ok _ => True | Err e, Err e' => e = e' | Panic, Panic => True | _, _ => False end).
  { revert E1 E2. unfold compute_permission, get_task_chain. rewrite chain_grants.
    destruct (chain_go store 129 (Some (task_id t))) as [chain| |]; [|by intros [= <- <-] [= <- <-]..].
    destruct (inheritable chain) as [ids b]. destruct (may_view_user_tasks _ _ _ _ _) as [m v].
    by intros [= <- <-] [= <- <-]. }
  destruct Hsame as [-> Hs]. f_equal. destruct r1 as [p1| |], r2 as [p2| |]; try done; [|by rewrite Hs].
  apply compute_permission_union in E1 as [_ U1], E2 as [_ U2]; [|done..].
  f_equal. eapply union_unique; [|exact U2]. eapply union_ext; [|exact U1]. by apply applies_grants.
Qed.

(** What a permission lets its holder see. *)
Definition sees_input (perm : TaskPermission) : Prop :=
  default MetaOnly (perm_scope perm) <> MetaOnly /\ ReadInput ∈ perm_actions perm.
Definition sees_result (perm : TaskPermission) : Prop :=
  default MetaOnly (perm_scope perm) <> MetaOnly /\ ReadResult ∈ perm_actions perm.

(** Two tasks look the same to the holder of [perm]: their metadata is the same,
    and so is whatever else the permission covers.  Without the result, an
    error shows its code. *)
Record looks_same (perm : TaskPermission) (t1 t2 : Task Value) : Prop := {
  same_identity : task_id t1 = task_id t2 /\ task_name t1 = task_name t2 /\ parent_id t1 = parent_id t2 /\
    root_id t1 = root_id t2 /\ child_control_policy t1 = child_control_policy t2 /\ schema_id t1 = schema_id t2 /\
    schema_version t1 = schema_version t2 /\ input_digest t1 = input_digest t2 /\ creator t1 = creator t2 /\
    retry_of t1 = retry_of t2 /\ supersedes t1 = supersedes t2;
  same_state : executor t1 = executor t2 /\ runner_epoch t1 = runner_epoch t2 /\ assignees t1 = assignees t2 /\
    phase t1 = phase t2 /\ wait_reason t1 = wait_reason t2 /\ pending_control t1 = pending_control t2 /\
    control_profile t1 = control_profile t2 /\ task_message t1 = task_message t2 /\ outcome t1 = outcome t2 /\
    completed_by t1 = completed_by t2;
  same_access : policy_preset t1 = policy_preset t2 /\ permission_boundary t1 = permission_boundary t2 /\
    task_revision t1 = task_revision t2 /\ created_at t1 = created_at t2 /\ task_updated_at t1 = task_updated_at t2 /\
    completed_at t1 = completed_at t2 /\ archived_at t1 = archived_at t2;
  same_input : sees_input perm -> input t1 = input t2;
  same_result : sees_result perm -> task_result t1 = task_result t2 /\ task_error t1 = task_error t2;
  same_error_code : error_code <$> task_error t1 = error_code <$> task_error t2;
  same_envelope : default MetaOnly (perm_scope perm) = Full ->
    idempotency_key t1 = idempotency_key t2 /\ origin_ref t1 = origin_ref t2;
  same_progress : default MetaOnly (perm_scope perm) <> MetaOnly -> progress t1 = progress t2
}.

Lemma payload_visible perm a :
  (negb (bool_decide (default MetaOnly (perm_scope perm) = MetaOnly)) && allows perm a) =
  bool_decide (default MetaOnly (perm_scope perm) <> MetaOnly /\ a ∈ perm_actions perm).
Proof using Type.
  apply eq_bool_prop_intro. unfold allows. rewrite andb_True, negb_True, !bool_decide_spec. tauto.
Qed.

Lemma trimmed_error (e1 e2 : option (TaskError Value)) :
  (fun e => {| error_code := error_code e; error_message := ""; detail := (None : option Value) |}) <$> e1 =
  (fun e => {| error_code := error_code e; error_message := ""; detail := None |}) <$> e2 <->
  error_code <$> e1 = error_code <$> e2.
Proof using Type. destruct e1, e2; simpl; split; congruence. Qed.

(** C36: what [trim_task] leaves of a task for the holder of a permission: the
    trimmed forms of two tasks are equal if and only if the tasks look the same
    under the permission.  The metadata, the state and the code of an error are
    left; the input and the result (with the text of the error) if their action
    is granted and the scope is more than [MetaOnly]; the progress if the scope is
    more than [MetaOnly]; the idempotency key and the origin if it is [Full]; and
    nothing else.  Section 8.5 of the design document counts the progress to what
    participants see of the whole tree with [MetaOnly] ([meta_only_hides_progress]). *)
Theorem trim_task_exact (perm : TaskPermission) (t1 t2 : Task Value) :
  trim_task null t1 perm = trim_task null t2 perm <-> looks_same perm t1 t2.
Proof using Type.
  unfold trim_task. rewrite !payload_visible. fold (sees_input perm) (sees_result perm).
  split.
  - intros [= ]. split; try (split_and!; done).
    + intros Hs. rewrite bool_decide_eq_true_2 in * by done. done.
    + intros Hs. rewrite (bool_decide_eq_true_2 (sees_result perm)) in * by done. done.
    + case_bool_decide; simpl in *; [congruence|by apply trimmed_error].
    + intros Hs. rewrite (bool_decide_eq_true_2 (_ = Full)) in * by done. done.
    + intros Hs. rewrite (bool_decide_eq_false_2 (_ = MetaOnly)) in * by done. done.
  - intros [(? & ? & ? & ? & ? & ? & ? & ? & ? & ? & ?) (? & ? & ? & ? & ? & ? & ? & ? & ? & ?) (? & ? & ? & ? & ? & ? & ?) Hi Hr He Hv Hp].
    f_equal; try done.
    + case_bool_decide; simpl; auto.
    + case_bool_decide; [by apply Hv|done].
    + case_bool_decide; [by apply Hv|done].
    + case_bool_decide; [done|auto].
    + case_bool_decide; simpl; [by apply Hr|done].
    + case_bool_decide; simpl; [by apply Hr|by apply trimmed_error].
Qed.
(** Who has no more than [MetaOnly] does not see the progress. *)
Theorem meta_only_hides_progress (perm : TaskPermission) (t : Task Value) :
  default MetaOnly (perm_scope perm) = MetaOnly -> progress (trim_task null t perm) = None.
Proof using Type. intros E. unfold trim_task. cbn. by rewrite bool_decide_eq_true_2. Qed.
End acl.

(** ** Witnesses *)

Definition nobody (u a r act : string) (s : option string) : bool := false.
Definition sudo_of (u : string) : string := u +:+ "#sudo".

Definition actor (u a : string) : ActorRef := {| user_id := u; app_id := a; app_instance_id := None |}.

(** A task of [alice], with or without a parent, behind a boundary or not. *)
Definition mk_task (i : TaskId) (parent : option TaskId) (boundary : bool) : Task string :=
  {| task_id := i; task_name := i; parent_id := parent; root_id := "root";
     child_control_policy := {| follow_pause := true; follow_resume := true; follow_cancel := true |};
     schema_id := "s"; schema_version := 1; input := "in"; input_digest := "d"; creator := actor "alice" "app";
     idempotency_key := "k"; origin_ref := None; retry_of := None; supersedes := None; executor := Unbound;
     runner_epoch := 0; assignees := None; phase := Promised; wait_reason := None; pending_control := None;
     control_profile := {| pause := Unavailable None; resume := Unavailable None; cancel := Interrupt; profile_updated_at := 0 |};
     progress := None; task_message := None; outcome := None; task_result := None; task_error := None;
     completed_by := None; policy_preset := "collaborative_tree"; permission_boundary := boundary;
     task_revision := 1; data_scope := None; created_at := 0; task_updated_at := 0; completed_at := None;
     archived_at := None |}.

Definition grant_to_bob (on : TaskId) : TaskAclGrant :=
  {| grant_id := "g"; grant_task_id := on; subject := SubjectUser "bob"; actions := [Control];
     grant_scope := WholeTree; grant_data_scope := Payload; grant_created_by := actor "alice" "app";
     grant_created_at := 0; revoked_at := None |}.

Definition tree (gs : list TaskAclGrant) : TaskStore string :=
  {| task_table := <["root" := mk_task "root" None false]> {["leaf" := mk_task "leaf" (Some "root") true]};
     assignee_table := []; grant_table := gs |}.

Definition bob : Principal := {| p_user_id := "bob"; p_app_id := "bapp"; roles := []; sudo := false |}.
Definition alice : Principal := {| p_user_id := "alice"; p_app_id := "app"; roles := []; sudo := false |}.

Lemma memo_empty p : memo_ok nobody sudo_of p ∅.
Proof. intros o b Ho. by rewrite lookup_empty in Ho. Qed.

Lemma compute_permission_exact_witness :
  exists memo' perm, compute_permission nobody sudo_of (tree []) ∅ alice (mk_task "leaf" (Some "root") true) = (memo', Ok perm) /\
    allows perm ReadInput = true.
Proof.
  destruct (compute_permission nobody sudo_of (tree []) ∅ alice (mk_task "leaf" (Some "root") true))
    as [memo' [perm| |]] eqn:E; [|vm_compute in E; discriminate E..].
  exists memo', perm. split; [reflexivity|].
  destruct (compute_permission_exact nobody sudo_of (tree []) ∅ alice _ memo' perm (memo_empty alice) E) as (_ & Ha & _).
  apply Ha. exists creator_row, Full. split; [|set_solver]. apply by_creator. reflexivity.
Defined.

Lemma permission_boundary_isolates_witness :
  compute_permission nobody sudo_of (tree [grant_to_bob "root"]) ∅ bob (mk_task "leaf" (Some "root") true) =
  compute_permission nobody sudo_of (tree []) ∅ bob (mk_task "leaf" (Some "root") true).
Proof.
  apply (permission_boundary_isolates nobody sudo_of (tree []) [grant_to_bob "root"] ∅ bob); [apply memo_empty|].
  intros g Hg _. split; [|intros Hn; by apply elem_of_nil in Hn].
  intros ->%list_elem_of_singleton. exfalso. inversion Hg as [i row Hrow Ei|i row j k Hrow Hp Hb Hk Ei].
  vm_compute in Hrow. injection Hrow as <-. discriminate Hb.
Defined.
