(* ===== verification/WfJson.v ===== *)
(** JSON documents as the workflow engine takes them apart and builds them:
    the constructors of [serde_json::Value] it matches on, with the accessors it
    calls.  Numbers stay abstract.  An object lists its entries by key in
    increasing order, as the library's default map does. *)
From Stdlib Require Import ZArith Lia Ascii Sorted Permutation.
From stdpp Require Import base tactics numbers gmap strings sorting list.
From S2P Require Import Prelude RustString.

Inductive Value {Number : Type} : Type :=
| VNull
| VBool (b : bool)
| VNumber (n : Number)
| VString (s : string)
| VArray (l : list Value)
| VObject (m : list (string * Value)).
Arguments Value Number : clear implicits.

Section json.
Context {Number : Type}.
Abbreviation Value := (Value Number).

(** Induction with the hypothesis for every element and entry. *)
Lemma Value_nested_ind (P : Value -> Prop) :
  P VNull -> (forall b, P (VBool b)) -> (forall n, P (VNumber n)) -> (forall s, P (VString s)) ->
  (forall l, Forall P l -> P (VArray l)) -> (forall m, Forall (fun kv => P kv.2) m -> P (VObject m)) ->
  forall v, P v.
Proof.
  intros H1 H2 H3 H4 H5 H6. fix IH 1. intros [|b|n|s|l|m]; [done|auto|auto|auto| |].
  - apply H5. induction l as [|v l IHl]; constructor; [apply IH|exact IHl].
  - apply H6. induction m as [|[k v] m IHm]; constructor; [apply IH|exact IHm].
Qed.

(** ** Maps *)

Fixpoint map_get (k : string) (m : list (string * Value)) : option Value :=
  match m with
  | [] => None
  | (k', v) :: m => if String.eqb k k' then Some v else map_get k m
  end.

(** Insertion in key order; a key that is there keeps its place. *)
Fixpoint map_insert (k : string) (v : Value) (m : list (string * Value)) : list (string * Value) :=
  match m with
  | [] => [(k, v)]
  | (k', v') :: m =>
    if String.eqb k k' then (k, v) :: m
    else if string_leb k k' then (k, v) :: (k', v') :: m
    else (k', v') :: map_insert k v m
  end.

Definition map_of (l : list (string * Value)) : list (string * Value) :=
  fold_left (fun m kv => map_insert kv.1 kv.2 m) l [].

(** ** Accessors *)

Definition get (v : Value) (k : string) : option Value :=
  match v with VObject m => map_get k m | _ => None end.
Definition as_str (v : Value) : option string := match v with VString s => Some s | _ => None end.
Definition as_array (v : Value) : option (list Value) := match v with VArray l => Some l | _ => None end.
Definition as_object (v : Value) : option (list (string * Value)) :=
  match v with VObject m => Some m | _ => None end.
Definition is_null (v : Value) : bool := match v with VNull => true | _ => false end.

Lemma map_get_elem k m v : map_get k m = Some v -> (k, v) ∈ m.
Proof.
  induction m as [|[k' v'] m IH]; simpl; [done|].
  destruct (String.eqb_spec k k') as [->|]; [intros [= ->]; by left|right; auto].
Qed.

Lemma map_get_insert k k' v m :
  map_get k (map_insert k' v m) = if String.eqb k k' then Some v else map_get k m.
Proof.
  induction m as [|[c w] m IH]; simpl; [by destruct (String.eqb k k')|].
  destruct (String.eqb_spec k' c) as [->|Hc]; simpl.
  - by destruct (String.eqb_spec k c).
  - destruct (string_leb k' c); simpl; [done|]. rewrite IH.
    destruct (String.eqb_spec k c) as [->|]; [|done]. by destruct (String.eqb_spec c k').
Qed.
End json.
