(* ===== verification/WfTypes.v ===== *)
(** The workflow language ([kernel/buckyos-api/src/workflow_dsl.rs]), references
    and the compiled form of a workflow ([workflow_types.rs]). *)
From Stdlib Require Import ZArith Lia Ascii Sorted Permutation Floats.SpecFloat.
From stdpp Require Import base tactics numbers gmap strings sorting list.
From S2P Require Import Prelude RustString WfJson.

(** ** Definitions *)

Inductive StepType := Autonomous | HumanConfirm | HumanRequired.
Inductive OutputMode := OutSingle | FiniteSeekable | FiniteSequential.
Inductive JoinMode := JoinModeAll | JoinModeAny | JoinModeNOfM.
Inductive RetryFallback := FallbackHuman | FallbackAbort.

#[export] Instance StepType_eq_dec : EqDecision StepType. Proof. solve_decision. Defined.
#[export] Instance OutputMode_eq_dec : EqDecision OutputMode. Proof. solve_decision. Defined.
#[export] Instance JoinMode_eq_dec : EqDecision JoinMode. Proof. solve_decision. Defined.
#[export] Instance RetryFallback_eq_dec : EqDecision RetryFallback. Proof. solve_decision. Defined.

Record BudgetGuard := mkBudget {
  bg_max_tokens : option Z;
  bg_max_cost_usdb : option float;
  bg_max_duration : option string
}.

Record RetryGuard := mkRetry {
  rg_max_attempts : Z;
  rg_backoff : option string;
  rg_fallback : option RetryFallback
}.

Record GuardConfig := mkGuards {
  g_budget : option BudgetGuard;
  g_permissions : list string;
  g_retry : option RetryGuard;
  g_timeout : option string;
  g_amendment_auto_approve : option bool;
  g_max_cost_usdb : option float;
  g_max_duration : option string
}.

(** [GuardConfig::default()] *)
Definition default_guards : GuardConfig := mkGuards None [] None None None None None.

Record BranchNodeDefinition := mkBranch {
  br_id : string;
  br_on : string;
  br_paths : list (string * string);   (** a [BTreeMap], by key *)
  br_max_iterations : Z
}.

Record ParallelNodeDefinition := mkParallel {
  par_id : string;
  par_branches : list string;
  par_join : JoinMode;
  par_n : option Z
}.

Record ForEachNodeDefinition := mkForEach {
  fe_id : string;
  fe_items : string;
  fe_steps : list string;
  fe_max_items : Z;
  fe_concurrency : Z
}.

Inductive ControlNodeDefinition :=
| Branch (n : BranchNodeDefinition)
| Parallel (n : ParallelNodeDefinition)
| ForEach (n : ForEachNodeDefinition).

(** [ControlNodeDefinition::id] *)
Definition node_id (n : ControlNodeDefinition) : string :=
  match n with Branch n => br_id n | Parallel n => par_id n | ForEach n => fe_id n end.

Record EdgeDefinition := mkEdge { edge_from : string; edge_to : option string }.

Section dsl.
Context {Number : Type}.

Record StepDefinition := mkStep {
  step_id : string;
  step_name : string;
  step_executor : option string;
  step_type : StepType;
  step_input : option (Value Number);
  step_input_schema : option (Value Number);
  step_output_schema : Value Number;
  step_subject_ref : option string;
  step_prompt : option string;
  step_idempotent : bool;
  step_skippable : bool;
  step_output_mode : OutputMode;
  step_guards : option GuardConfig
}.

Record WorkflowDefinition := mkWorkflow {
  wf_schema_version : string;
  wf_id : string;
  wf_name : string;
  wf_description : option string;
  wf_trigger : Value Number;
  wf_steps : list StepDefinition;
  wf_nodes : list ControlNodeDefinition;
  wf_edges : list EdgeDefinition;
  wf_guards : option GuardConfig;
  wf_defs : list (string * Value Number)   (** a [BTreeMap], by key *)
}.
End dsl.
Arguments StepDefinition Number : clear implicits.
Arguments WorkflowDefinition Number : clear implicits.

(** ** References *)

Record RefPath := mkRef { ref_node_id : string; ref_field_path : list string }.

#[export] Instance RefPath_eq_dec : EqDecision RefPath. Proof. solve_decision. Defined.

Definition DOT : ascii := "."%char.

(** [raw.ends_with('}')], with what comes before. *)
Fixpoint strip_brace (s : string) : option string :=
  match s with
  | EmptyString => None
  | String c EmptyString => if Ascii.eqb c "}" then Some EmptyString else None
  | String c s => String c <$> strip_brace s
  end.

(** [RefPath::parse]: the slice [raw[2..raw.len() - 1]] is what is between the
    two brackets. *)
Definition ref_parse (raw : string) : option RefPath :=
  match raw with
  | String "$" (String "{" rest) =>
    inner ← strip_brace rest;
    match split_on DOT inner with
    | node :: "output" :: fields =>
      if String.eqb node "" then None else Some (mkRef node fields)
    | _ => None
    end
  | _ => None
  end.

(** [RefPath::as_string] *)
Definition ref_as_string (r : RefPath) : string :=
  match ref_field_path r with
  | [] => "${" +:+ ref_node_id r +:+ ".output}"
  | fields => "${" +:+ ref_node_id r +:+ ".output." +:+ join "." fields +:+ "}"
  end.

(** ** Executors *)

Inductive ExecutorRef := Actual (value : string) | SemanticPath (value : string).

#[export] Instance ExecutorRef_eq_dec : EqDecision ExecutorRef. Proof. solve_decision. Defined.

(** [str::split_once] of two characters: what is before and after. *)
Fixpoint split_once2 (a b : ascii) (s : string) : option (string * string) :=
  match s with
  | EmptyString => None
  | String c s' =>
    match s' with
    | String d rest => if Ascii.eqb c a && Ascii.eqb d b then Some (EmptyString, rest)
                       else prod_map (String c) id <$> split_once2 a b s'
    | EmptyString => None
    end
  end.

Definition split_colons : string -> option (string * string) := split_once2 ":" ":".

(** [ExecutorRef::parse] *)
Definition executor_parse (raw : string) : option ExecutorRef :=
  let trimmed := trim raw in
  if String.eqb trimmed "" then None
  else if starts_with "/" trimmed then Some (SemanticPath trimmed)
  else match split_colons trimmed with
       | Some (ns, _) =>
         if bool_decide (ns ∈ ["service"; "http"; "appservice"; "operator"; "func"])
         then Some (Actual trimmed) else None
       | None => None
       end.

Definition executor_as_str (e : ExecutorRef) : string :=
  match e with Actual value | SemanticPath value => value end.

Definition is_function_object (e : ExecutorRef) : bool :=
  match e with Actual value => starts_with "func::" value | _ => false end.

(** ** Compiled form *)

Section compiled.
Context {Number : Type}.

Inductive ValueTemplate :=
| Literal (v : Value Number)
| Reference (r : RefPath)
| TArray (l : list ValueTemplate)
| TObject (m : list (string * ValueTemplate)).

Inductive AwaitKind := Confirm | Required.
Inductive JoinStrategy := JoinAll | JoinAny | JoinNOfM (n : Z).

Inductive Expr :=
| Apply (executor : ExecutorRef) (fun_id : option string) (params : list (string * ValueTemplate))
    (output_mode : OutputMode) (idempotent : bool) (step_type : StepType) (guards : GuardConfig)
| Match (on : RefPath) (cases : list (string * string)) (max_iterations : Z)
| Par (branches : list string) (join : JoinStrategy)
| Map (collection : RefPath) (steps : list string) (max_items concurrency actual_concurrency : Z)
| Await (kind : AwaitKind) (subject : option RefPath) (prompt : option string)
    (output_schema : Value Number).
End compiled.
Arguments ValueTemplate Number : clear implicits.
Arguments Expr Number : clear implicits.

Record RetryPolicy := mkPolicy { max_attempts : Z; fallback : RetryFallback }.

(** [RetryPolicy::from(Option<RetryGuard>)] *)
Definition retry_policy_of (value : option RetryGuard) : RetryPolicy :=
  match value with
  | None => mkPolicy 1 FallbackHuman
  | Some g => mkPolicy (Z.max (rg_max_attempts g) 1) (default FallbackHuman (rg_fallback g))
  end.

(** ** References read back *)

Lemma strip_brace_app s : strip_brace (s +:+ "}") = Some s.
Proof.
  induction s as [|c s IH]; [done|]. rewrite append_cons. simpl. rewrite IH.
  by destruct s.
Qed.

Lemma strip_brace_Some s t : strip_brace s = Some t -> s = t +:+ "}".
Proof.
  revert t. induction s as [|c s IH]; intros t; [done|]. simpl. destruct s as [|c' s].
  - destruct (Ascii.eqb_spec c "}") as [->|]; [|done]. by intros [= <-].
  - intros (t' & Ht' & ->)%fmap_Some. by rewrite append_cons, <- (IH t' Ht').
Qed.

(** A reference whose parts hold no dot, with a node. *)
Definition ref_wf (r : RefPath) : Prop :=
  ref_node_id r <> "" /\ contains_char DOT (ref_node_id r) = false /\
  Forall (fun f => contains_char DOT f = false) (ref_field_path r).

Lemma split_join l :
  l <> [] -> Forall (fun f => contains_char DOT f = false) l -> split_on DOT (join "." l) = l.
Proof.
  induction l as [|f l IH]; [done|]. intros _ [Hf Hl]%Forall_cons. destruct l as [|g l].
  { simpl. by apply split_on_no_sep. }
  rewrite join_cons by done. change ("." +:+ join "." (g :: l)) with (String DOT (join "." (g :: l))).
  rewrite split_on_app, IH by done. done.
Qed.

Lemma ref_as_string_eq r :
  ref_as_string r = "${" +:+ join "." (ref_node_id r :: "output" :: ref_field_path r) +:+ "}".
Proof.
  unfold ref_as_string. destruct (ref_field_path r) as [|f l].
  - rewrite join_cons by done. change (join "." ["output"]) with "output".
    rewrite !string_app_assoc. reflexivity.
  - rewrite (join_cons "." (ref_node_id r)), (join_cons "." "output") by done. rewrite !string_app_assoc. reflexivity.
Qed.

Lemma split_on_no_char c s : Forall (fun f => contains_char c f = false) (split_on c s).
Proof.
  induction s as [|a s IH]; simpl; [repeat constructor|].
  destruct (Ascii.eqb_spec a c) as [->|Ha]; [by constructor|].
  pose proof (split_on_nonempty c s). destruct (split_on c s) as [|f l]; [done|]. apply Forall_cons in IH as [Hf Hl]. constructor; [|done].
  simpl. by apply Ascii.eqb_neq in Ha as ->.
Qed.
