(* ===== verification/WfSchema.v ===== *)
(** Schemas of the workflow language ([kernel/workflow/src/schema.rs]).

    The functions follow [$ref]s into the definitions of the workflow, so their
    recursion is not bounded by the document: they have a depth of calls
    [fuel], and [None] stands for a recursion deeper than that. *)
From Stdlib Require Import ZArith Lia Ascii Sorted Permutation.
From stdpp Require Import base tactics numbers gmap strings sorting list.
From S2P Require Import Prelude RustString WfJson.

(** [str::strip_prefix] *)
Fixpoint strip_prefix (p s : string) : option string :=
  match p, s with
  | EmptyString, s => Some s
  | String a p, String b s => if Ascii.eqb a b then strip_prefix p s else None
  | String _ _, EmptyString => None
  end.

Section schema.
Context {Number : Type} (number_eqb : Number -> Number -> bool).
Abbreviation Value := (Value Number).

(** [==] on values. *)
Fixpoint value_eqb (v w : Value) : bool :=
  match v, w with
  | VNull, VNull => true
  | VBool b, VBool c => Bool.eqb b c
  | VNumber n, VNumber m => number_eqb n m
  | VString s, VString t => String.eqb s t
  | VArray l, VArray k =>
    (fix go l k := match l, k with
                   | [], [] => true
                   | v :: l, w :: k => value_eqb v w && go l k
                   | _, _ => false
                   end) l k
  | VObject m, VObject n =>
    (fix go m n := match m, n with
                   | [], [] => true
                   | (k, v) :: m, (k', w) :: n => String.eqb k k' && value_eqb v w && go m n
                   | _, _ => false
                   end) m n
  | _, _ => false
  end.

Variable defs : list (string * Value).

Definition resolve_schema (schema : Value) : option Value :=
  match get schema "$ref" ≫= as_str with
  | Some ref_name => name ← strip_prefix "#/defs/" ref_name; map_get name defs
  | None => Some schema
  end.

(** The loop over the segments of [schema_at_path]. *)
Fixpoint descend (current : Value) (path : list string) : option Value :=
  match path with
  | [] => Some current
  | segment :: path =>
    current ← resolve_schema current;
    object ← as_object current;
    properties ← map_get "properties" object ≫= as_object;
    current ← map_get segment properties;
    descend current path
  end.

Definition schema_at_path (schema : Value) (path : list string) : option Value :=
  current ← resolve_schema schema;
  match path with
  | [] => Some current
  | _ => current ← descend current path; resolve_schema current
  end.

Definition schema_enum_values (schema : Value) : option (list string) :=
  resolved ← resolve_schema schema;
  l ← get resolved "enum" ≫= as_array;
  mapM as_str l.

Definition schema_type_names (schema : Value) : list string :=
  match get schema "type" with
  | Some (VString value) => [value]
  | Some (VArray values) => omap as_str values
  | _ => []
  end.

Definition expected_or_empty (v : option Value) : list (string * Value) := default [] (v ≫= as_object).

(** [iter().any] and the loops with an early [return false], of a predicate
    that may run out of depth: the first decided element ends them. *)
Fixpoint any_of {A} (p : A -> option bool) (l : list A) : option bool :=
  match l with
  | [] => Some false
  | x :: l => r ← p x; if r : bool then Some true else any_of p l
  end.
Fixpoint all_of {A} (p : A -> option bool) (l : list A) : option bool :=
  match l with
  | [] => Some true
  | x :: l => r ← p x; if r : bool then all_of p l else Some false
  end.

Fixpoint schema_accepts_null (fuel : nat) (schema : Value) : option bool :=
  match fuel with
  | O => None
  | S fuel =>
    match resolve_schema schema with
    | None => Some false
    | Some resolved =>
      match get resolved "type" with
      | Some (VString name) => Some (String.eqb name "null")
      | Some (VArray items) => Some (existsb (fun item => bool_decide (as_str item = Some "null")) items)
      | _ =>
        any_of (fun keyword =>
            match get resolved keyword ≫= as_array with
            | Some branches => any_of (schema_accepts_null fuel) branches
            | None => Some false
            end) ["anyOf"; "oneOf"]
      end
    end
  end.

(** Two checks of [schemas_compatible] that do not recurse. *)
Definition types_disjoint (actual expected : Value) : bool :=
  let actual_type := schema_type_names actual in
  let expected_type := schema_type_names expected in
  negb (bool_decide (expected_type = [])) && negb (bool_decide (actual_type = []))
  && forallb (fun kind => negb (bool_decide (kind ∈ expected_type))) actual_type.

Definition enum_mismatch (actual expected : Value) : bool :=
  match get expected "enum", get actual "enum" with
  | Some _, Some _ =>
    let expected_enum := default [] (schema_enum_values expected) in
    existsb (fun item => negb (bool_decide (item ∈ expected_enum))) (default [] (schema_enum_values actual))
  | _, _ => false
  end.

Fixpoint schemas_compatible (fuel : nat) (actual expected : Value) : option bool :=
  match fuel with
  | O => None
  | S fuel =>
    match resolve_schema actual, resolve_schema expected with
    | Some actual, Some expected =>
      let expected_type := schema_type_names expected in
      if types_disjoint actual expected then Some false
      else if enum_mismatch actual expected then Some false
      else
        r ← (if bool_decide ("object" ∈ expected_type) then
               let actual_props := expected_or_empty (get actual "properties") in
               let expected_props := expected_or_empty (get expected "properties") in
               all_of (fun required =>
                   match as_str required with
                   | None => Some true
                   | Some required_name =>
                     match map_get required_name actual_props, map_get required_name expected_props with
                     | Some actual_schema, Some expected_schema =>
                       schemas_compatible fuel actual_schema expected_schema
                     | _, _ => Some false
                     end
                   end) (default [] (get expected "required" ≫= as_array))
             else Some true);
        if negb r then Some false
        else if bool_decide ("array" ∈ expected_type) then
          match get actual "items", get expected "items" with
          | Some actual_items, Some expected_items => schemas_compatible fuel actual_items expected_items
          | None, Some _ => Some false
          | _, _ => Some true
          end
        else Some true
    | _, _ => Some false
    end
  end.

(** A computation that may run out of depth, or give no schema. *)
Definition bind2 {A B} (x : option (option A)) (f : A -> option (option B)) : option (option B) :=
  match x with Some (Some a) => f a | Some None => Some None | None => None end.

(** [properties.insert(key, normalize_schema(value)?)] for each key. *)
Fixpoint normalize_entries (norm : Value -> option (option Value)) (m : list (string * Value))
  : option (option (list (string * Value))) :=
  match m with
  | [] => Some (Some [])
  | (k, v) :: m => bind2 (norm v) (fun v => bind2 (normalize_entries norm m) (fun m => Some (Some ((k, v) :: m))))
  end.

Fixpoint normalize_schema (fuel : nat) (schema : Value) : option (option Value) :=
  match fuel with
  | O => None
  | S fuel =>
    match resolve_schema schema with
    | None => Some None
    | Some (VObject m) =>
      bind2 (match map_get "properties" m ≫= as_object with
             | Some properties =>
               bind2 (normalize_entries (normalize_schema fuel) properties)
                 (fun properties => Some (Some (map_insert "properties" (VObject properties) m)))
             | None => Some (Some m)
             end)
        (fun m =>
           match map_get "items" m with
           | Some items => bind2 (normalize_schema fuel items) (fun items => Some (Some (VObject (map_insert "items" items m))))
           | None => Some (Some (VObject m))
           end)
    | Some resolved => Some (Some resolved)
    end
  end.

Definition schemas_equal (fuel : nat) (l r : Value) : option bool :=
  match normalize_schema fuel (default VNull (resolve_schema l)) with
  | None => None
  | Some None => Some false
  | Some (Some l) =>
    match normalize_schema fuel (default VNull (resolve_schema r)) with
    | None => None
    | Some None => Some false
    | Some (Some r) => Some (value_eqb l r)
    end
  end.
End schema.
