(* ===== verification/WfGraph.v ===== *)
(** The graph of a workflow ([WorkflowGraph] of [kernel/workflow/src/compiler.rs])
    with its traversals, and the report of an analysis ([analysis.rs]).  First
    search with a stack and a set of visited nodes, the loop of every traversal
    of the graph: it ends, and visits exactly what can be reached, each node
    once. *)
From Stdlib Require Import ZArith Lia Ascii Sorted Permutation.
From stdpp Require Import base tactics numbers gmap strings sorting list relations.
From S2P Require Import Prelude RustString Lists WfJson WfTypes.

Lemma elem_of_rev {A} (x : A) l : x ∈ rev l <-> x ∈ l.
Proof. by rewrite !list_elem_of_In, <- in_rev. Qed.

(** The first and the last step of a path. *)
Lemma tc_inv_l {A} (R : A -> A -> Prop) x z : tc R x z -> exists y, R x y /\ rtc R y z.
Proof. destruct 1 as [x z H|x y z H Hc]; [by exists z|]. exists y. split; [done|by apply tc_rtc]. Qed.

Lemma tc_inv_r {A} (R : A -> A -> Prop) x z : tc R x z -> exists y, rtc R x y /\ R y z.
Proof.
  induction 1 as [x z H|x y z H Hc (w & Hw & Hz)]; [by exists x|].
  exists w. split; [by eapply rtc_l|done].
Qed.

Section worklist.
Context (next : string -> list string).

(** [while let Some(current) = stack.pop() { if !visited.insert(current) {
    continue } ... for next in .. { stack.push(next) } }]: the stack with its
    top first, and the nodes visited so far, the last one first. *)
Fixpoint explore (fuel : nat) (stack visited : list string) : option (list string) :=
  match stack with
  | [] => Some visited
  | current :: stack =>
    match fuel with
    | O => None
    | S fuel =>
      if decide (current ∈ visited) then explore fuel stack visited
      else explore fuel (rev (next current) ++ stack) (current :: visited)
    end
  end.

(** Enough rounds for a graph whose nodes with successors are among [nodes]:
    each node is expanded once. *)
Definition out_degree (n : string) : nat := length (next n).
Definition pending (nodes visited : list string) : nat :=
  sum_list (out_degree <$> List.filter (fun n => negb (bool_decide (n ∈ visited))) nodes).
Definition explore_fuel (nodes stack : list string) : nat := (length stack + pending nodes [])%nat.

Definition edge (a c : string) : Prop := c ∈ next a.

Lemma pending_visit nodes visited n :
  NoDup nodes -> (next n <> [] -> n ∈ nodes) -> n ∉ visited ->
  pending nodes visited = (out_degree n + pending nodes (n :: visited))%nat.
Proof.
  intros Hnd Hn Hv. unfold pending, out_degree at 2.
  assert (n ∉ nodes -> next n = []) as Hn' by (destruct (next n); naive_solver).
  clear Hn. induction Hnd as [|m nodes Hm Hnd IH]; csimpl.
  { rewrite Hn' by set_solver. done. }
  destruct (decide (n = m)) as [->|Hnm].
  - rewrite bool_decide_false, bool_decide_true by set_solver. csimpl. unfold out_degree at 1. f_equal.
    f_equal. f_equal. apply filter_ext_in. intros x Hx%list_elem_of_In. do 2 f_equal.
    apply bool_decide_ext. set_solver.
  - assert (bool_decide (m ∈ n :: visited) = bool_decide (m ∈ visited)) as ->
      by (apply bool_decide_ext; set_solver).
    destruct (bool_decide (m ∈ visited)); csimpl; rewrite IH by set_solver; lia.
Qed.

(** The loop ends. *)
Lemma explore_total nodes fuel stack visited :
  NoDup nodes -> (forall n, next n <> [] -> n ∈ nodes) ->
  (length stack + pending nodes visited <= fuel)%nat -> is_Some (explore fuel stack visited).
Proof.
  intros Hnd Hn. revert stack visited. induction fuel as [|fuel IH]; intros [|n stack] visited; simpl; try lia; eauto.
  intros Hf. case_decide as Hv.
  - apply IH. lia.
  - apply IH. rewrite length_app, length_rev. rewrite (pending_visit nodes visited n) in Hf by auto.
    unfold out_degree in Hf. lia.
Qed.

(** What has been visited is what was reachable. *)
Lemma explore_visited fuel stack visited result :
  explore fuel stack visited = Some result ->
  (forall a c, a ∈ visited -> edge a c -> c ∈ visited ++ stack) ->
  NoDup visited ->
  NoDup result /\
  forall n, n ∈ result <-> n ∈ visited \/ exists s, s ∈ stack /\ rtc edge s n.
Proof.
  revert stack visited. induction fuel as [|fuel IH]; intros [|m stack] visited; simpl; [|done| |].
  1,2: intros [= <-] _ Hnd; split; [done|]; set_solver.
  assert (forall visited : list string, (forall a c, a ∈ visited -> edge a c -> c ∈ visited ++ m :: stack) ->
    forall a n, a ∈ visited -> rtc edge a n -> n ∈ visited \/ exists s, s ∈ m :: stack /\ rtc edge s n) as Hreach.
  { clear. intros visited Hc a n Ha Hr. induction Hr as [a|a c n Hac Hr IHr]; [by left|].
    destruct (proj1 (elem_of_app _ _ _) (Hc a c Ha Hac)) as [Hcv|Hcs]; [by apply IHr|].
    right. by exists c. }
  intros He Hc Hnd. case_decide as Hv.
  - apply IH in He as [Hnd' Hr]; [|set_solver|done]. split; [done|]. intros n. rewrite Hr. split.
    + intros [|(s & ? & ?)]; [by left|right]. exists s. set_solver.
    + intros [|(s & [->|Hs]%elem_of_cons & Hsn)]; [by left| |right; eauto].
      assert (forall a c, a ∈ visited -> edge a c -> c ∈ visited ++ stack) as Hc' by set_solver.
      clear -Hv Hsn Hc'. induction Hsn as [s|s c n Hsc Hr IHr]; [by left|].
      destruct (proj1 (elem_of_app _ _ _) (Hc' s c Hv Hsc)) as [Hcv|Hcs]; [by apply IHr|]. right. eauto.
  - apply IH in He as [Hnd' Hr].
    + split; [done|]. intros n. rewrite Hr. split.
      * intros [[->|Hn]%elem_of_cons|(s & [Hs|Hs]%elem_of_app & Hsn)].
        -- right. exists m. split; [by left|done].
        -- by left.
        -- right. exists m. split; [by left|]. eapply rtc_l; [|done]. unfold edge. by rewrite elem_of_rev in Hs.
        -- right. exists s. split; [by right|done].
      * intros [Hn|(s & [->|Hs]%elem_of_cons & Hsn)]; [left; by right| |right; exists s; set_solver].
        apply rtc_inv in Hsn as [->|(c & Hmc & Hcn)]; [left; by left|]. right. exists c. split; [|done].
        apply elem_of_app. left. by rewrite elem_of_rev.
    + intros a c [->|Ha]%elem_of_cons Hac; [|specialize (Hc a c Ha Hac); set_solver].
      rewrite !elem_of_app, elem_of_rev. by right; left.
    + by constructor.
Qed.

Lemma explore_reachable nodes stack :
  NoDup nodes -> (forall n, next n <> [] -> n ∈ nodes) ->
  exists result, explore (explore_fuel nodes stack) stack [] = Some result /\ NoDup result /\
    forall n, n ∈ result <-> exists s, s ∈ stack /\ rtc edge s n.
Proof.
  intros Hnd Hn. destruct (explore_total nodes (explore_fuel nodes stack) stack [] Hnd Hn) as [r Hr].
  { unfold explore_fuel. lia. }
  exists r. split; [done|]. apply explore_visited in Hr as [Hnr Hr]; [|set_solver|constructor].
  split; [done|]. intros n. rewrite Hr. set_solver.
Qed.
End worklist.

(** ** Reports *)

Inductive AnalysisSeverity := SevError | SevWarning.

Record AnalysisIssue := mkIssue {
  severity : AnalysisSeverity;
  code : string;
  message : string;
  issue_node_id : option string
}.

Record AnalysisReport := mkReport { errors : list AnalysisIssue; warnings : list AnalysisIssue }.

Definition empty_report : AnalysisReport := mkReport [] [].

Definition report_push (sev : AnalysisSeverity) (code message : string) (node_id : option string)
    (report : AnalysisReport) : AnalysisReport :=
  let issue := mkIssue sev code message node_id in
  match sev with
  | SevError => mkReport (errors report ++ [issue]) (warnings report)
  | SevWarning => mkReport (errors report) (warnings report ++ [issue])
  end.

Definition has_errors (report : AnalysisReport) : bool := negb (bool_decide (errors report = [])).

#[export] Instance AnalysisSeverity_eq_dec : EqDecision AnalysisSeverity. Proof. solve_decision. Defined.
#[export] Instance AnalysisIssue_eq_dec : EqDecision AnalysisIssue. Proof. solve_decision. Defined.

(** ** The graph *)

Record WorkflowGraph := mkGraph {
  start_nodes : list string;
  terminal_from : gset string;
  incoming : gmap string (gset string);
  explicit_succ : gmap string (list string);
  all_succ : gmap string (list string);
  branch_targets : gmap string (list (string * string));
  parallel_branches : gmap string (list string);
  for_each_steps : gmap string (list string)
}.

Definition empty_graph : WorkflowGraph := mkGraph [] ∅ ∅ ∅ ∅ ∅ ∅ ∅.

Definition set_incoming f g := mkGraph (start_nodes g) (terminal_from g) (f (incoming g))
  (explicit_succ g) (all_succ g) (branch_targets g) (parallel_branches g) (for_each_steps g).
Definition set_explicit f g := mkGraph (start_nodes g) (terminal_from g) (incoming g)
  (f (explicit_succ g)) (all_succ g) (branch_targets g) (parallel_branches g) (for_each_steps g).
Definition set_all f g := mkGraph (start_nodes g) (terminal_from g) (incoming g)
  (explicit_succ g) (f (all_succ g)) (branch_targets g) (parallel_branches g) (for_each_steps g).

(** [map.entry(k).or_default()], left as it is or pushed to. *)
Definition or_default {V} (d : V) (k : string) (m : gmap string V) : gmap string V :=
  <[k := default d (m !! k)]> m.
Definition push_to (k v : string) (m : gmap string (list string)) : gmap string (list string) :=
  <[k := default [] (m !! k) ++ [v]]> m.
Definition insert_to (k v : string) (m : gmap string (gset string)) : gmap string (gset string) :=
  <[k := default ∅ (m !! k) ∪ {[v]}]> m.

Definition add_node (g : WorkflowGraph) (id : string) : WorkflowGraph :=
  set_all (or_default [] id) (set_explicit (or_default [] id) (set_incoming (or_default ∅ id) g)).

(** A link between two nodes, without an edge of the definition. *)
Definition add_link (from to : string) (g : WorkflowGraph) : WorkflowGraph :=
  set_all (push_to from to) (set_incoming (insert_to to from) g).

Definition add_edge (g : WorkflowGraph) (e : EdgeDefinition) : WorkflowGraph :=
  match edge_to e with
  | Some to => set_all (push_to (edge_from e) to)
                 (set_explicit (push_to (edge_from e) to) (set_incoming (insert_to to (edge_from e)) g))
  | None => mkGraph (start_nodes g) ({[edge_from e]} ∪ terminal_from g) (incoming g)
              (explicit_succ g) (all_succ g) (branch_targets g) (parallel_branches g) (for_each_steps g)
  end.

(** [steps.windows(2)] *)
Fixpoint windows2 (l : list string) : list (string * string) :=
  match l with
  | a :: ((c :: _) as l') => (a, c) :: windows2 l'
  | _ => []
  end.

Definition add_control (g : WorkflowGraph) (n : ControlNodeDefinition) : WorkflowGraph :=
  match n with
  | Branch branch =>
    fold_left (fun g target => add_link (br_id branch) target g) ((br_paths branch).*2)
      (mkGraph (start_nodes g) (terminal_from g) (incoming g) (explicit_succ g) (all_succ g)
         (<[br_id branch := br_paths branch]> (branch_targets g)) (parallel_branches g) (for_each_steps g))
  | Parallel parallel =>
    fold_left (fun g branch => add_link (par_id parallel) branch g) (par_branches parallel)
      (mkGraph (start_nodes g) (terminal_from g) (incoming g) (explicit_succ g) (all_succ g)
         (branch_targets g) (<[par_id parallel := par_branches parallel]> (parallel_branches g)) (for_each_steps g))
  | ForEach for_each =>
    let g := mkGraph (start_nodes g) (terminal_from g) (incoming g) (explicit_succ g) (all_succ g)
         (branch_targets g) (parallel_branches g) (<[fe_id for_each := fe_steps for_each]> (for_each_steps g)) in
    let g := match fe_steps for_each with
             | first :: _ => add_link (fe_id for_each) first g
             | [] => g
             end in
    fold_left (fun g w => add_link w.1 w.2 g) (windows2 (fe_steps for_each)) g
  end.

(** [WorkflowGraph::from_definition] *)
Definition from_definition {Number Entry} (workflow : WorkflowDefinition Number)
    (node_map : gmap string Entry) (report : AnalysisReport) : WorkflowGraph * AnalysisReport :=
  let g := fold_left add_node (btree_keys node_map) empty_graph in
  let g := fold_left add_edge (wf_edges workflow) g in
  let g := fold_left add_control (wf_nodes workflow) g in
  let starts := List.filter (fun id => bool_decide (default ∅ (incoming g !! id) = ∅)) (btree_keys node_map) in
  let g := mkGraph starts (terminal_from g) (incoming g) (explicit_succ g) (all_succ g)
             (branch_targets g) (parallel_branches g) (for_each_steps g) in
  (g, if bool_decide (starts = [])
      then report_push SevError "missing_start_node" "workflow does not contain a start node" None report
      else report).

(** ** Traversals *)

Definition successors (g : WorkflowGraph) (id : string) : list string := default [] (all_succ g !! id).
Definition explicit_successors (g : WorkflowGraph) (id : string) : list string :=
  default [] (explicit_succ g !! id).
Definition dependencies (g : WorkflowGraph) (id : string) : list string :=
  btree_set (default ∅ (incoming g !! id)).

(** What [is_upstream] goes on to from a node: its successors, and where it is
    a member of a scope, the explicit successors of the scope. *)
Definition scope_exits (g : WorkflowGraph) (scopes : gmap string (list string)) (current : string) : list string :=
  concat ((fun kv => if bool_decide (current ∈ kv.2) then explicit_successors g kv.1 else []) <$> btree scopes).

Definition upstream_next (g : WorkflowGraph) (current : string) : list string :=
  successors g current ++ scope_exits g (parallel_branches g) current ++ scope_exits g (for_each_steps g) current.

(** The loop of [is_upstream], which ends at the first sight of the target. *)
Fixpoint upstream_go (g : WorkflowGraph) (target : string) (fuel : nat) (stack visited : list string) : option bool :=
  match stack with
  | [] => Some false
  | current :: stack =>
    match fuel with
    | O => None
    | S fuel =>
      if decide (current ∈ visited) then upstream_go g target fuel stack visited
      else if decide (target ∈ upstream_next g current) then Some true
      else upstream_go g target fuel (rev (upstream_next g current) ++ stack) (current :: visited)
    end
  end.

(** The nodes that have successors, or may pass to those of a scope. *)
Definition graph_nodes (g : WorkflowGraph) : list string :=
  elements (dom (all_succ g) ∪ list_to_set (concat (btree (parallel_branches g)).*2)
            ∪ list_to_set (concat (btree (for_each_steps g)).*2)).

Definition is_upstream (g : WorkflowGraph) (source target : string) : option bool :=
  if String.eqb source target then Some false
  else upstream_go g target (explore_fuel (upstream_next g) (graph_nodes g) [source]) [source] [].

Definition reachable_from_starts (g : WorkflowGraph) : option (list string) :=
  let stack := rev (start_nodes g) in
  explore (successors g) (explore_fuel (successors g) (graph_nodes g) stack) stack [].

Definition downstream_from (g : WorkflowGraph) (root : string) : option (list string) :=
  let stack := rev (successors g root) in
  (fun l => rev l) <$> explore (successors g) (explore_fuel (successors g) (graph_nodes g) stack) stack [].

(** [reaches_terminal]: [visiting] is the path so far. *)
Fixpoint reaches_terminal (g : WorkflowGraph) (fuel : nat) (visiting : list string) (current : string) : option bool :=
  if decide (current ∈ terminal_from g) then Some true
  else if decide (current ∈ visiting) then Some false
  else
    match fuel with
    | O => None
    | S fuel =>
      (fix any l := match l with
                    | [] => Some false
                    | next :: l =>
                      r ← reaches_terminal g fuel (current :: visiting) next;
                      if r : bool then Some true else any l
                    end) (successors g current)
    end.

(** Paths do not repeat nodes, so one more step than there are nodes with
    successors ends each of them. *)
Definition terminal_fuel (g : WorkflowGraph) : nat := S (length (graph_nodes g)).

Definition has_terminal_path (g : WorkflowGraph) : option bool :=
  (fix any l := match l with
                | [] => Some false
                | start :: l =>
                  r ← reaches_terminal g (terminal_fuel g) [] start;
                  if r : bool then Some true else any l
                end) (start_nodes g).

(** ** Strongly connected components *)

Record tarjan := mkTarjan {
  tj_index : nat;
  indices : gmap string nat;
  lowlinks : gmap string nat;
  tj_stack : list string;
  on_stack : gset string;
  components : list (list string)
}.

(** [while let Some(item) = stack.pop()]: what is popped down to [node]. *)
Fixpoint pop_to (node : string) (stack : list string) : list string * list string :=
  match stack with
  | [] => ([], [])
  | item :: stack =>
    if String.eqb item node then ([item], stack)
    else let '(component, stack) := pop_to node stack in (item :: component, stack)
  end.

Definition set_lowlink (node : string) (n : nat) (t : tarjan) : tarjan :=
  mkTarjan (tj_index t) (indices t) (<[node := n]> (lowlinks t)) (tj_stack t) (on_stack t) (components t).

Definition enter (node : string) (t : tarjan) : tarjan :=
  mkTarjan (S (tj_index t)) (<[node := tj_index t]> (indices t)) (<[node := tj_index t]> (lowlinks t))
    (node :: tj_stack t) ({[node]} ∪ on_stack t) (components t).

Definition close (node : string) (t : tarjan) : tarjan :=
  if bool_decide (indices t !! node = lowlinks t !! node) then
    let '(component, stack) := pop_to node (tj_stack t) in
    mkTarjan (tj_index t) (indices t) (lowlinks t) stack (on_stack t ∖ list_to_set component)
      (components t ++ [component])
  else t.

Definition lower (node : string) (n : nat) (t : tarjan) : tarjan :=
  set_lowlink node (Nat.min (default 0%nat (lowlinks t !! node)) n) t.

(** [strong_connect]; the fuel is the depth of its calls. *)
Fixpoint strong_connect (g : WorkflowGraph) (fuel : nat) (node : string) (t : tarjan) : option tarjan :=
  match fuel with
  | O => None
  | S fuel =>
    close node <$>
      (fix each l t :=
         match l with
         | [] => Some t
         | next :: l =>
           match indices t !! next with
           | None =>
             t ← strong_connect g fuel next t;
             each l (lower node (default 0%nat (lowlinks t !! next)) t)
           | Some next_index =>
             each l (if decide (next ∈ on_stack t) then lower node next_index t else t)
           end
         end) (successors g node) (enter node t)
  end.

(** Each call is for a node not seen before. *)
Definition scc_fuel (g : WorkflowGraph) : nat :=
  S (length (elements (dom (incoming g) ∪ list_to_set (concat (btree (all_succ g)).*2)))).

Definition strongly_connected_components (g : WorkflowGraph) : option (list (list string)) :=
  components <$>
    fold_left (fun t node =>
        t ← t;
        match indices t !! node with
        | None => strong_connect g (scc_fuel g) node t
        | Some _ => Some t
        end) (btree_keys (incoming g)) (Some (mkTarjan 0 ∅ ∅ [] ∅ [])).
