(* ===== verification/WfGraphFacts.v ===== *)
(** The traversals of the workflow graph end and compute reachability. *)
From Stdlib Require Import ZArith Lia Ascii Sorted Permutation.
From stdpp Require Import base tactics numbers gmap strings sorting list relations.
From S2P Require Import Prelude RustString Lists WfJson WfTypes WfGraph.

Section facts.
Context (g : WorkflowGraph).

Definition succ (a c : string) : Prop := c ∈ successors g a.
Definition upstream_step (a c : string) : Prop := c ∈ upstream_next g a.

Lemma graph_nodes_NoDup : NoDup (graph_nodes g).
Proof. unfold graph_nodes. apply NoDup_elements. Qed.

Lemma scope_exits_covered scopes n :
  scope_exits g scopes n <> [] -> n ∈ concat (btree scopes).*2.
Proof.
  unfold scope_exits. generalize (btree scopes). intros l. induction l as [|[k v] l IH]; csimpl; [done|].
  case_bool_decide; rewrite elem_of_app; [by left|]. intros ?. right. auto.
Qed.

Lemma upstream_next_covered n : upstream_next g n <> [] -> n ∈ graph_nodes g.
Proof.
  unfold upstream_next, graph_nodes. rewrite elem_of_elements, !elem_of_union, !elem_of_list_to_set, elem_of_dom.
  intros H. destruct (successors g n) eqn:E1; [|left; left; unfold successors in E1; by destruct (all_succ g !! n)].
  destruct (scope_exits g (parallel_branches g) n) eqn:E2;
    [|left; right; apply scope_exits_covered; by rewrite E2].
  right. by apply scope_exits_covered.
Qed.

Lemma successors_covered n : successors g n <> [] -> n ∈ graph_nodes g.
Proof. intros H. apply upstream_next_covered. unfold upstream_next. by destruct (successors g n). Qed.

Lemma reachable_from_starts_aux :
  exists visited, reachable_from_starts g = Some visited /\ NoDup visited /\
    forall n, n ∈ visited <-> exists s, s ∈ start_nodes g /\ rtc succ s n.
Proof.
  destruct (explore_reachable (successors g) (graph_nodes g) (rev (start_nodes g)) graph_nodes_NoDup successors_covered)
    as (r & Hr & Hnd & Hn).
  exists r. split_and!; [done..|]. intros n. rewrite Hn. by setoid_rewrite elem_of_rev.
Qed.

Lemma downstream_from_aux root :
  exists l, downstream_from g root = Some l /\ NoDup l /\ forall n, n ∈ l <-> tc succ root n.
Proof.
  unfold downstream_from.
  destruct (explore_reachable (successors g) (graph_nodes g) (rev (successors g root)) graph_nodes_NoDup successors_covered)
    as (r & Hr & Hnd & Hn).
  rewrite Hr. exists (rev r). split_and!; [done|by apply NoDup_ListNoDup, NoDup_rev, NoDup_ListNoDup|].
  intros n. rewrite elem_of_rev, Hn. setoid_rewrite elem_of_rev. split.
  - intros (s & Hs & Hsn). by eapply tc_rtc_r; [apply tc_once|].
  - intros Hc. apply tc_inv_l in Hc as (s & ? & ?). eauto.
Qed.

(** ** Upstream *)

Lemma upstream_go_total target fuel stack visited :
  (length stack + pending (upstream_next g) (graph_nodes g) visited <= fuel)%nat ->
  is_Some (upstream_go g target fuel stack visited).
Proof.
  revert stack visited. induction fuel as [|fuel IH]; intros [|n stack] visited; simpl; try lia; eauto.
  intros Hf. case_decide as Hv; [apply IH; lia|]. case_decide; [by eauto|].
  apply IH. rewrite length_app, length_rev.
  rewrite (pending_visit (upstream_next g) (graph_nodes g) visited n) in Hf
    by (done || apply graph_nodes_NoDup || apply upstream_next_covered).
  unfold out_degree in Hf. lia.
Qed.

(** Where the loop does not see the target, it is the search without it. *)
Lemma upstream_go_explore target fuel stack visited b :
  upstream_go g target fuel stack visited = Some b ->
  Forall (fun a => target ∉ upstream_next g a) visited ->
  if b then exists s a, s ∈ stack /\ rtc upstream_step s a /\ upstream_step a target
  else exists result, explore (upstream_next g) fuel stack visited = Some result /\
         Forall (fun a => target ∉ upstream_next g a) result.
Proof.
  revert stack visited. induction fuel as [|fuel IH]; intros [|n stack] visited; simpl; [|done| |].
  1,2: intros [= <-] Hv; eauto.
  intros He Hv. case_decide as Hn.
  - apply IH in He; [|done]. destruct b; [|done].
    destruct He as (s & a & Hs & Hsa). exists s, a. split; [by right|done].
  - case_decide as Ht.
    + injection He as <-. exists n, n. split_and!; [by left|done|done].
    + apply IH in He; [|by constructor]. destruct b; [|done].
      destruct He as (s & a & [Hs|Hs]%elem_of_app & Hsa & Hat).
      * exists n, a. split_and!; [by left| |done]. eapply rtc_l; [|done].
        unfold upstream_step. by rewrite elem_of_rev in Hs.
      * exists s, a. split; [by right|done].
Qed.

Lemma is_upstream_aux source target :
  exists b, is_upstream g source target = Some b /\
    (b = true <-> source <> target /\ tc upstream_step source target).
Proof.
  unfold is_upstream. destruct (String.eqb_spec source target) as [->|Hne].
  { exists false. split; [done|]. naive_solver. }
  destruct (upstream_go_total target (explore_fuel (upstream_next g) (graph_nodes g) [source]) [source] []) as [b Hb].
  { unfold explore_fuel. lia. }
  exists b. split; [done|]. pose proof (upstream_go_explore _ _ _ _ _ Hb (Forall_nil_2 _)) as He. destruct b.
  - destruct He as (s & a & ->%list_elem_of_singleton & Hsa & Hat). split; [|done]. intros _.
    split; [done|]. by eapply tc_rtc_l; [|apply tc_once].
  - destruct He as (r & Hr & Hall). split; [done|]. intros [_ Hc].
    apply explore_visited in Hr as [_ Hr]; [|set_solver|constructor].
    apply tc_inv_r in Hc as (a & Hsa & Hat). rewrite Forall_forall in Hall.
    exfalso. apply (Hall a); [|done]. apply Hr. right. exists source. split; [by left|done].
Qed.

(** ** Terminal paths *)

(** The loop over successors of [reaches_terminal] and over the start nodes. *)
Definition any_node (p : string -> option bool) : list string -> option bool :=
  fix any l := match l with
               | [] => Some false
               | n :: l => r ← p n; if r : bool then Some true else any l
               end.

Lemma any_node_spec (p : string -> option bool) (Q : string -> Prop) l :
  (forall n, n ∈ l -> exists b, p n = Some b /\ (b = true <-> Q n)) ->
  exists b, any_node p l = Some b /\ (b = true <-> exists n, n ∈ l /\ Q n).
Proof.
  induction l as [|n l IH]; intros Hp; simpl; [exists false; set_solver|].
  destruct (Hp n) as ([] & -> & HQ); [by left|..]; simpl.
  - exists true. split; [done|]. split; [|done]. intros _. exists n. split; [by left|tauto].
  - destruct IH as (b & -> & Hb); [intros; apply Hp; by right|]. exists b. split; [done|]. rewrite Hb.
    split; intros (n' & Hn' & HQ'); exists n'; [split; [by right|done]|].
    apply elem_of_cons in Hn' as [->|Hn']; [|done]. by apply HQ in HQ'.
Qed.

(** A path from a node to a terminal one that keeps off some nodes. *)
Inductive terminal_path (avoid : list string) : string -> Prop :=
| path_end n : n ∈ terminal_from g -> terminal_path avoid n
| path_step n c : n ∉ avoid -> succ n c -> terminal_path avoid c -> terminal_path avoid n.

Lemma terminal_path_mono avoid avoid' n :
  avoid' ⊆ avoid -> terminal_path avoid n -> terminal_path avoid' n.
Proof. intros Hs. induction 1; [by apply path_end|]. eapply path_step; [|done|done]. set_solver. Qed.

(** A path can be cut so that it does not come back to its first node. *)
Lemma terminal_path_cut avoid n c :
  terminal_path avoid c -> terminal_path (n :: avoid) c \/ terminal_path (n :: avoid) n \/
  ((n ∉ avoid) /\ exists c', succ n c' /\ terminal_path (n :: avoid) c').
Proof.
  induction 1 as [c Hc|c c' Hc Hcc' Hp IH]; [left; by apply path_end|].
  destruct IH as [IH|[IH|IH]]; [|by right; left|by right; right].
  destruct (decide (c = n)) as [->|Hne].
  - right. right. split; [done|]. by exists c'.
  - left. eapply path_step; [|done|done]. set_solver.
Qed.

Lemma terminal_path_step avoid n :
  n ∉ terminal_from g ->
  terminal_path avoid n <-> (n ∉ avoid) /\ exists c, succ n c /\ terminal_path (n :: avoid) c.
Proof.
  intros Hn. split.
  - inversion 1 as [|? c Ha Hc Hp]; subst; [done|]. split; [done|].
    destruct (terminal_path_cut avoid n c Hp) as [Hp'|[Hp'|[_ Hp']]]; [by eauto| |done].
    inversion Hp'; subst; [done|set_solver].
  - intros (Ha & c & Hc & Hp). eapply path_step; [done..|]. eapply terminal_path_mono; [|done]. set_solver.
Qed.

Lemma reaches_terminal_spec fuel visiting n :
  NoDup visiting -> visiting ⊆ graph_nodes g -> (length (graph_nodes g) < fuel + length visiting)%nat ->
  exists b, reaches_terminal g fuel visiting n = Some b /\ (b = true <-> terminal_path visiting n).
Proof.
  revert visiting n. induction fuel as [|fuel IH]; intros visiting n Hnd Hsub Hf.
  { assert (visiting ⊆+ graph_nodes g) as Hl%submseteq_length; [|lia].
    apply NoDup_submseteq; [done|]. intros x Hx. by apply Hsub. }
  cbn [reaches_terminal]. destruct (decide (n ∈ terminal_from g)) as [Hn|Hn].
  { exists true. split; [done|]. split; [|done]. intros _. by apply path_end. }
  destruct (decide (n ∈ visiting)) as [Hv|Hv].
  { exists false. split; [done|]. split; [done|]. rewrite terminal_path_step by done. tauto. }
  pose proof (terminal_path_step visiting n Hn) as Hstep. setoid_rewrite Hstep. clear Hstep.
  destruct (decide (successors g n = [])) as [Es|Es%successors_covered].
  { exists false. rewrite Es. split; [done|]. split; [done|]. intros (_ & c & Hc & _). unfold succ in Hc.
    rewrite Es in Hc. set_solver. }
  change (exists b, any_node (reaches_terminal g fuel (n :: visiting)) (successors g n) = Some b /\
    (b = true <-> (n ∉ visiting) /\ exists c, succ n c /\ terminal_path (n :: visiting) c)).
  destruct (any_node_spec (reaches_terminal g fuel (n :: visiting)) (terminal_path (n :: visiting)) (successors g n)) as (b & -> & Hb).
  { intros c _. apply IH; [by constructor|set_solver|simpl; lia]. }
  exists b. split; [done|]. rewrite Hb. naive_solver.
Qed.

Lemma terminal_path_reachable n :
  terminal_path [] n <-> exists t, rtc succ n t /\ t ∈ terminal_from g.
Proof.
  split.
  - induction 1 as [n Hn|n c _ Hc _ (t & Ht & ?)]; [by exists n|]. exists t. split; [by eapply rtc_l|done].
  - intros (t & Hr & Ht). induction Hr as [n|n c t Hc _ IH]; [by apply path_end|].
    eapply path_step; [set_solver|done|auto].
Qed.

Lemma has_terminal_path_aux :
  exists b, has_terminal_path g = Some b /\
    (b = true <-> exists s t, s ∈ start_nodes g /\ rtc succ s t /\ t ∈ terminal_from g).
Proof.
  change (exists b, any_node (reaches_terminal g (terminal_fuel g) []) (start_nodes g) = Some b /\
    (b = true <-> exists s t, s ∈ start_nodes g /\ rtc succ s t /\ t ∈ terminal_from g)).
  destruct (any_node_spec (reaches_terminal g (terminal_fuel g) []) (terminal_path []) (start_nodes g)) as (b & -> & Hb).
  { intros n _. apply reaches_terminal_spec; [constructor|set_solver|unfold terminal_fuel; simpl; lia]. }
  exists b. split; [done|]. rewrite Hb. setoid_rewrite terminal_path_reachable. naive_solver.
Qed.
End facts.
