(* ===== verification/WfTarjan.v ===== *)
(** Tarjan's algorithm, as the workflow graph runs it, ends and gives the
    strongly connected components.

    A node is white until it is entered, grey while its call runs and black
    after it.  The stack holds the nodes whose component is not known yet. *)
From Stdlib Require Import ZArith Lia Ascii Sorted Permutation.
From stdpp Require Import base tactics numbers gmap strings sorting list relations.
From S2P Require Import Prelude RustString Lists WfJson WfTypes WfGraph WfGraphFacts.

Section tarjan.
Context (g : WorkflowGraph).
Local Open Scope nat_scope.
Implicit Types (t : tarjan) (grey : list string).

Abbreviation reach := (rtc (succ g)).

(** What the algorithm is to compute: classes of mutual reachability. *)
Definition is_scc (component : list string) : Prop :=
  component <> [] /\ forall x y, x ∈ component -> (y ∈ component <-> reach x y /\ reach y x).

Definition idx t (x : string) : nat := default 0 (indices t !! x).
Definition visited t : gset string := dom (indices t).

Lemma elem_of_visited t x : x ∈ visited t <-> is_Some (indices t !! x).
Proof. apply elem_of_dom. Qed.

Record inv grey t : Prop := {
  i_on : on_stack t = list_to_set (tj_stack t);
  i_nodup : NoDup (tj_stack t ++ concat (components t));
  i_visited : forall x, x ∈ visited t <-> x ∈ tj_stack t ++ concat (components t);
  i_bound : forall x, x ∈ visited t -> idx t x < tj_index t;
  i_grey : grey ⊆ tj_stack t;
  i_black : forall x y, x ∈ visited t -> x ∉ grey -> succ g x y -> y ∈ visited t;
  i_order : forall x y, x ∈ tj_stack t -> y ∈ tj_stack t -> idx t x <= idx t y -> reach x y;
  i_back : forall y, y ∈ tj_stack t -> exists x, x ∈ grey /\ idx t x <= idx t y /\ reach y x;
  i_scc : Forall is_scc (components t)
}.

(** What a call leaves alone. *)
Record extends t t' : Prop := {
  e_indices : indices t ⊆ indices t';
  e_index : tj_index t <= tj_index t';
  e_new : forall x, x ∈ visited t' -> x ∉ visited t -> tj_index t <= idx t' x;
  e_low : forall x, x ∈ visited t -> lowlinks t' !! x = lowlinks t !! x
}.

Lemma extends_visited t t' : extends t t' -> visited t ⊆ visited t'.
Proof. intros He. by apply subseteq_dom, He. Qed.

Lemma extends_idx t t' x : extends t t' -> x ∈ visited t -> idx t' x = idx t x.
Proof.
  intros He [n Hn]%elem_of_visited. unfold idx. rewrite Hn.
  by rewrite (lookup_weaken _ _ _ _ Hn (e_indices _ _ He)).
Qed.

#[export] Instance extends_preorder : PreOrder extends.
Proof.
  split; [by split|]. intros t1 t2 t3 H1 H2. split.
  - etrans; [apply H1|apply H2].
  - pose proof (e_index _ _ H1). pose proof (e_index _ _ H2). lia.
  - intros x H3 Hn. destruct (decide (x ∈ visited t2)) as [Hx|Hx].
    + rewrite (extends_idx t2) by done. by apply (e_new _ _ H1).
    + pose proof (e_new _ _ H2 x H3 Hx). pose proof (e_index _ _ H1). lia.
  - intros x Hx. rewrite (e_low _ _ H2) by (by apply (extends_visited _ _ H1)). by apply (e_low _ _ H1).
Qed.

Lemma stack_visited grey t x : inv grey t -> x ∈ tj_stack t -> x ∈ visited t.
Proof. intros Hi Hx. apply (i_visited _ _ Hi), elem_of_app. by left. Qed.

(** What a call for [node] with the stack [s] above the old one says. *)
Record post grey node t t' : Prop := {
  p_inv : inv grey t';
  p_extends : extends t t';
  p_node : node ∈ visited t';
  p_stack : exists s low, tj_stack t' = s ++ tj_stack t /\ (forall x, x ∈ s -> x ∉ visited t) /\
    lowlinks t' !! node = Some low /\
    (low = idx t' node \/ exists y, y ∈ tj_stack t' /\ idx t' y = low /\ reach node y) /\
    forall x y, x ∈ s -> y ∈ tj_stack t -> succ g x y -> low <= idx t' y
}.

(** ** The loop over successors *)

Definition each_succ (connect : string -> tarjan -> option tarjan) (node : string) :=
  fix each l t :=
    match l with
    | [] => Some t
    | next :: l =>
      match indices t !! next with
      | None => t ← connect next t; each l (lower node (default 0 (lowlinks t !! next)) t)
      | Some next_index => each l (if decide (next ∈ on_stack t) then lower node next_index t else t)
      end
    end.

(** The loop so far: [p] are the successors it has seen. *)
Record loop grey node (p : list string) t0 t : Prop := {
  l_inv : inv (node :: grey) t;
  l_extends : extends t0 t;
  l_idx : idx t node = tj_index t0;
  l_stack : exists s low, tj_stack t = s ++ node :: tj_stack t0 /\ (forall x, x ∈ s -> (x ∉ visited t0) /\ x <> node) /\
    lowlinks t !! node = Some low /\ low <= idx t node /\
    (exists y, y ∈ tj_stack t /\ idx t y = low /\ reach node y) /\
    (forall x y, x ∈ s -> y ∈ tj_stack t0 -> succ g x y -> low <= idx t y) /\
    forall y, y ∈ p -> y ∈ visited t /\ (y ∈ tj_stack t0 -> low <= idx t y)
}.

Lemma lower_inv grey node n t : inv grey t -> inv grey (lower node n t).
Proof. intros Hi. split; apply Hi. Qed.

Lemma loop_enter grey node t0 :
  inv grey t0 -> node ∉ visited t0 -> (forall x, x ∈ grey -> reach x node) -> loop grey node [] t0 (enter node t0).
Proof.
  intros Hi Hn Hg.
  assert (Hidx : forall x, x ∈ visited t0 -> idx (enter node t0) x = idx t0 x).
  { intros x Hx. unfold idx, enter. simpl. rewrite lookup_insert_ne; [done|]. by intros ->. }
  assert (Hself : idx (enter node t0) node = tj_index t0).
  { unfold idx, enter. simpl. by rewrite lookup_insert_eq. }
  assert (Hvis : forall x, x ∈ visited (enter node t0) <-> x = node \/ x ∈ visited t0).
  { intros x. unfold visited, enter. simpl. rewrite dom_insert. set_solver. }
  assert (Hst : forall x, x ∈ tj_stack t0 -> idx (enter node t0) x < tj_index t0 /\ reach x node).
  { intros x Hx. pose proof (stack_visited _ _ _ Hi Hx). rewrite Hidx by done. split; [by apply Hi|].
    destruct (i_back _ _ Hi x Hx) as (z & Hz & _ & Hxz). etrans; [done|]. auto. }
  split.
  - split.
    + simpl. by rewrite (i_on _ _ Hi).
    + simpl. constructor; [|apply Hi]. by rewrite <- (i_visited _ _ Hi).
    + intros x. rewrite Hvis. simpl. rewrite elem_of_cons. by rewrite (i_visited _ _ Hi).
    + intros x [->|Hx]%Hvis; [simpl; lia|]. rewrite Hidx by done. pose proof (i_bound _ _ Hi x Hx). simpl. lia.
    + simpl. pose proof (i_grey _ _ Hi). set_solver.
    + intros x y [->|Hx]%Hvis Hg' Hxy; [set_solver|]. apply Hvis. right. eapply (i_black _ _ Hi x); set_solver.
    + simpl. intros x y [->|Hx]%elem_of_cons [->|Hy]%elem_of_cons Hle; [done| | |].
      * destruct (Hst y Hy). lia.
      * by apply Hst.
      * apply (i_order _ _ Hi); [done..|]. by rewrite <- !Hidx by (by eapply stack_visited).
    + simpl. intros y [->|Hy]%elem_of_cons; [exists node; split_and!; [by left|lia|done]|].
      destruct (i_back _ _ Hi y Hy) as (x & Hx & Hle & Hr). exists x. split_and!; [by right| |done].
      pose proof (i_grey _ _ Hi x Hx) as Hxs. by rewrite !Hidx by (by eapply stack_visited).
    + apply Hi.
  - split.
    + simpl. apply insert_subseteq. by apply not_elem_of_dom.
    + simpl. lia.
    + intros x [->|Hx]%Hvis Hx'; [lia|done].
    + intros x Hx. simpl. apply lookup_insert_ne. by intros ->.
  - done.
  - exists [], (tj_index t0). simpl. split_and!; [done|set_solver|by rewrite lookup_insert_eq|lia| |set_solver|set_solver].
    exists node. split_and!; [by left|done|done].
Qed.

Lemma extends_lower t0 node n t : extends t0 t -> node ∉ visited t0 -> extends t0 (lower node n t).
Proof.
  intros He Hn. split; [apply He|apply He|apply He|]. intros x Hx. simpl.
  rewrite lookup_insert_ne by (by intros ->). by apply He.
Qed.

(** A successor that is known already. *)
Lemma loop_known grey node p next n t0 t :
  node ∉ visited t0 -> loop grey node p t0 t -> succ g node next -> indices t !! next = Some n ->
  loop grey node (p ++ [next]) t0 (if decide (next ∈ on_stack t) then lower node n t else t).
Proof.
  intros Hn [Hi He Hidx (s & low & Hs & Hns & Hlow & Hle & Hy & Hedge & Hp)] Hsucc Hnext.
  assert (next ∈ visited t) as Hv by (apply elem_of_visited; eauto).
  assert (idx t next = n) as Hin by (unfold idx; by rewrite Hnext).
  case_decide as Hon.
  - rewrite (i_on _ _ Hi), elem_of_list_to_set in Hon.
    split; [by apply lower_inv|by apply extends_lower|done|].
    exists s, (Nat.min low n). simpl. rewrite lookup_insert_eq, Hlow. unfold idx in *. simpl.
    split_and!; [done..|lia| | |].
    + destruct (Nat.min_spec low n) as [[_ ->]|[_ ->]]; [done|]. exists next. split_and!; [done..|by apply rtc_once].
    + intros x y Hx Hy' Hxy. specialize (Hedge x y Hx Hy' Hxy). lia.
    + intros y [Hyp | ->%list_elem_of_singleton]%elem_of_app.
      * destruct (Hp y Hyp) as [? Hl]. split; [done|]. intros Hy'. specialize (Hl Hy'). lia.
      * split; [done|]. rewrite Hin. intros _. lia.
  - split; [done..|]. exists s, low. split_and!; [done..|].
    intros y [Hyp | ->%list_elem_of_singleton]%elem_of_app; [by apply Hp|].
    split; [done|]. intros Hy'. destruct Hon. rewrite (i_on _ _ Hi), elem_of_list_to_set, Hs. set_solver.
Qed.

(** A successor that was white, after its call. *)
Lemma loop_connected grey node p next t0 t t1 :
  node ∉ visited t0 -> loop grey node p t0 t -> succ g node next -> next ∉ visited t ->
  post (node :: grey) next t t1 ->
  loop grey node (p ++ [next]) t0 (lower node (default 0 (lowlinks t1 !! next)) t1).
Proof.
  intros Hn [Hi He Hidx (s & low & Hs & Hns & Hlow & Hle & Hy & Hedge & Hp)] Hsucc Hnext
    [Hi1 He1 Hv1 (s1 & low1 & Hs1 & Hns1 & Hlow1 & Hw1 & Hedge1)].
  assert (Hnode : node ∈ visited t) by (eapply stack_visited; [done|]; rewrite Hs; set_solver).
  assert (Hkeep : forall x, x ∈ visited t -> idx t1 x = idx t x) by (intros x; by apply extends_idx).
  assert (Hst : forall x, x ∈ tj_stack t -> x ∈ visited t) by (intros x; by eapply stack_visited).
  assert (Hst0 : forall x, x ∈ tj_stack t0 -> x ∈ visited t) by (intros x Hx; apply Hst; rewrite Hs; set_solver).
  rewrite Hlow1. split; [by apply lower_inv| | |].
  - apply extends_lower; [|done]. by etrans.
  - change (idx t1 node = tj_index t0). by rewrite Hkeep.
  - exists (s1 ++ s), (Nat.min low low1). simpl. rewrite lookup_insert_eq, (e_low _ _ He1) by done. rewrite Hlow.
    change (idx (lower node _ t1)) with (idx t1). rewrite (Hkeep node) by done.
    split_and!; [rewrite Hs1, Hs; by rewrite app_assoc| |done|lia| | |].
    + intros x [Hx|Hx]%elem_of_app; [|by apply Hns]. split; [|by intros ->; apply (Hns1 node)].
      intros Hx0. apply (Hns1 x Hx). by apply (extends_visited _ _ He).
    + destruct (Nat.min_spec low low1) as [[_ ->]|[Hmin ->]].
      * destruct Hy as (y & Hys & <- & Hr). exists y. split_and!; [rewrite Hs1; set_solver|by apply Hkeep, Hst|done].
      * destruct Hw1 as [->|(y & Hys & Hyl & Hr)]; [|exists y; split_and!; [done..|by eapply rtc_l]].
        pose proof (e_new _ _ He1 next Hv1 Hnext). pose proof (i_bound _ _ Hi node Hnode). lia.
    + intros x y [Hx|Hx]%elem_of_app Hy' Hxy.
      * specialize (Hedge1 x y Hx). rewrite Hs in Hedge1. specialize (Hedge1 ltac:(set_solver) Hxy). lia.
      * specialize (Hedge x y Hx Hy' Hxy). rewrite Hkeep by auto. lia.
    + intros y [Hyp | ->%list_elem_of_singleton]%elem_of_app.
      * destruct (Hp y Hyp) as [Hyv Hl]. split; [by apply (extends_visited _ _ He1)|]. intros Hy'.
        specialize (Hl Hy'). rewrite Hkeep by auto. lia.
      * split; [done|]. intros Hy'. by destruct Hnext; auto.
Qed.

(** ** The end of a call *)

Lemma pop_to_app node s l : node ∉ s -> pop_to node (s ++ node :: l) = (s ++ [node], l).
Proof.
  induction s as [|x s IH]; intros Hn; simpl; [by rewrite String.eqb_refl|].
  destruct (String.eqb_spec x node) as [->|]; [set_solver|]. rewrite IH by set_solver. done.
Qed.

(** The loop over all successors is done. *)
Section finished.
Context (grey : list string) (node : string) (t0 t : tarjan) (s : list string) (low : nat).
Context (Hinv0 : inv grey t0) (Hnew : node ∉ visited t0) (Hgrey : forall x, x ∈ grey -> reach x node).
Context (Hi : inv (node :: grey) t) (He : extends t0 t) (Hidx : idx t node = tj_index t0).
Context (Hs : tj_stack t = s ++ node :: tj_stack t0) (Hns : forall x, x ∈ s -> (x ∉ visited t0) /\ x <> node).
Context (Hlow : lowlinks t !! node = Some low) (Hle : low <= idx t node).
Context (Hwit : exists y, y ∈ tj_stack t /\ idx t y = low /\ reach node y).
Context (Hedge : forall x y, x ∈ s -> y ∈ tj_stack t0 -> succ g x y -> low <= idx t y).
Context (Hsucc : forall y, succ g node y -> y ∈ visited t /\ (y ∈ tj_stack t0 -> low <= idx t y)).

Lemma fin_on x : x ∈ tj_stack t <-> x ∈ s \/ x = node \/ x ∈ tj_stack t0.
Proof. rewrite Hs, elem_of_app, elem_of_cons. done. Qed.

Lemma fin_old x : x ∈ tj_stack t0 -> idx t x < idx t node.
Proof.
  intros Hx. pose proof (stack_visited _ _ _ Hinv0 Hx) as Hv.
  rewrite (extends_idx _ _ _ He Hv), Hidx. by apply Hinv0.
Qed.

Lemma fin_young x : x ∈ s -> idx t node <= idx t x.
Proof.
  intros Hx. rewrite Hidx. apply (e_new _ _ He); [|by apply Hns].
  eapply stack_visited; [exact Hi|]. apply fin_on. by left.
Qed.

Lemma fin_node_on : node ∈ tj_stack t.
Proof. apply fin_on. by right; left. Qed.

Lemma fin_from_node x : x ∈ s ++ [node] -> reach node x.
Proof.
  intros Hx. apply (i_order _ _ Hi); [apply fin_node_on|apply fin_on; set_solver|].
  apply elem_of_app in Hx as [Hx|Hx]; [by apply fin_young|]. apply list_elem_of_singleton in Hx. by subst x.
Qed.

Lemma fin_to_node x : x ∈ tj_stack t -> reach x node.
Proof.
  intros Hx. destruct (i_back _ _ Hi x Hx) as (z & Hz & _ & Hxz). etrans; [exact Hxz|].
  apply elem_of_cons in Hz as [->|Hz]; [done|auto].
Qed.

(** An edge out of the component to a node that comes back. *)
Lemma fin_component_closed x y :
  low = idx t node -> x ∈ s ++ [node] -> succ g x y -> reach y node -> y ∈ s ++ [node].
Proof.
  intros Hroot Hx Hxy Hyn. destruct (decide (y ∈ s ++ [node])) as [|Hout]; [done|exfalso].
  assert (y ∈ visited t) as Hyv.
  { apply elem_of_app in Hx as [Hx|Hx].
    - apply (i_black _ _ Hi x); [eapply stack_visited; [done|]; apply fin_on; by left| |done].
      intros [->|Hg]%elem_of_cons; [by destruct (Hns node Hx)|].
      destruct (Hns x Hx) as [[] _]. by eapply stack_visited, (i_grey _ _ Hinv0).
    - apply list_elem_of_singleton in Hx as ->. by apply Hsucc. }
  apply (i_visited _ _ Hi), elem_of_app in Hyv as [Hyv|Hyv].
  - apply fin_on in Hyv as [Hy|[->|Hy]]; [set_solver..|]. pose proof (fin_old y Hy).
    enough (low <= idx t y) by lia. apply elem_of_app in Hx as [Hx|Hx]; [by eapply Hedge|].
    apply list_elem_of_singleton in Hx as ->. by apply Hsucc.
  - apply list_elem_of_In, in_concat in Hyv as (C & HC%list_elem_of_In & Hy%list_elem_of_In).
    pose proof (i_scc _ _ Hi) as Hscc. rewrite Forall_forall in Hscc. destruct (Hscc C HC) as [_ Hmut].
    assert (node ∈ C) as Hn.
    { apply (Hmut y); [done|]. split; [done|]. etrans; [by apply fin_from_node|]. by apply rtc_once. }
    pose proof (i_nodup _ _ Hi) as (_ & Hd & _)%NoDup_app. apply (Hd node fin_node_on).
    apply list_elem_of_In, in_concat. exists C. by rewrite <- !list_elem_of_In.
Qed.

Lemma fin_component : low = idx t node -> is_scc (s ++ [node]).
Proof.
  intros Hroot. split; [by destruct s|]. intros x y Hx. split.
  - intros Hy. assert (forall z, z ∈ s ++ [node] -> z ∈ tj_stack t) as Hz by (intros z ?; apply fin_on; set_solver).
    split; (etrans; [apply fin_to_node; by auto|by apply fin_from_node]).
  - intros [Hxy Hyx].
    assert (reach y node) as Hyn by (etrans; [exact Hyx|apply fin_to_node, fin_on; set_solver]). clear Hyx.
    revert Hx. induction Hxy as [x|x z y Hxz Hzy IH]; [done|]. intros Hx. apply IH; [done|].
    eapply fin_component_closed; [done|exact Hx|done|]. by etrans.
Qed.

Lemma fin_disjoint x : x ∈ s ++ [node] -> x ∉ tj_stack t0.
Proof.
  intros Hx Hx0. pose proof (stack_visited _ _ _ Hinv0 Hx0) as Hv.
  apply elem_of_app in Hx as [Hx|Hx]; [by destruct (Hns x Hx)|]. apply list_elem_of_singleton in Hx as ->. done.
Qed.

(** A root closes its component. *)
Lemma post_root : low = idx t node -> post grey node t0 (close node t).
Proof.
  intros Hroot.
  assert (Hc : close node t = mkTarjan (tj_index t) (indices t) (lowlinks t) (tj_stack t0)
    (on_stack t ∖ list_to_set (s ++ [node])) (components t ++ [s ++ [node]])).
  { unfold close. rewrite bool_decide_true, Hs, pop_to_app; [done|by intros []%Hns|].
    rewrite Hlow, Hroot. unfold idx. assert (node ∈ visited t) as [n Hn]%elem_of_visited
      by (eapply stack_visited, fin_node_on; done). by rewrite Hn. }
  assert (Hperm : tj_stack t ++ concat (components t) ≡ₚ tj_stack t0 ++ concat (components t ++ [s ++ [node]])).
  { rewrite Hs, concat_app. simpl. rewrite app_nil_r, (cons_middle node s), (app_assoc s [node]).
    rewrite (app_assoc (tj_stack t0)), <- (app_assoc (s ++ [node])). apply Permutation_app_comm. }
  rewrite Hc. split.
  - split; simpl.
    + rewrite (i_on _ _ Hi), Hs. apply set_eq. intros x. pose proof (fin_disjoint x) as Hd.
      rewrite elem_of_difference, !elem_of_list_to_set. rewrite !elem_of_app, elem_of_cons in *. set_solver.
    + rewrite <- Hperm. apply Hi.
    + intros x. rewrite <- Hperm. apply (i_visited _ _ Hi).
    + apply (i_bound _ _ Hi).
    + apply (i_grey _ _ Hinv0).
    + intros x y Hx Hg Hxy. destruct (decide (x = node)) as [->|Hne]; [by apply Hsucc|].
      apply (i_black _ _ Hi x); [done|set_solver|done].
    + intros x y Hx Hy. apply (i_order _ _ Hi); apply fin_on; auto.
    + intros y Hy. destruct (i_back _ _ Hi y) as (x & Hx & Hxl & Hr); [apply fin_on; auto|].
      apply elem_of_cons in Hx as [->|Hx]; [pose proof (fin_old y Hy); lia|]. by exists x.
    + apply Forall_app. split; [apply Hi|]. repeat constructor; by apply fin_component.
  - split; apply He.
  - simpl. apply (stack_visited _ _ _ Hi), fin_node_on.
  - exists [], low. simpl. split_and!; [done|set_solver|done|by left|set_solver].
Qed.

(** Another node stays on the stack. *)
Lemma post_inner : low < idx t node -> post grey node t0 (close node t).
Proof.
  intros Hlt. assert (Hc : close node t = t).
  { unfold close. rewrite bool_decide_false; [done|]. rewrite Hlow. intros Heq. unfold idx in Hlt. rewrite Heq in Hlt.
    simpl in Hlt. lia. }
  rewrite Hc. destruct Hwit as (y0 & Hy0 & Hy0l & Hr0).
  assert (Hbelow : y0 ∈ tj_stack t0).
  { apply fin_on in Hy0 as [Hy|[->|Hy]]; [|lia|done]. pose proof (fin_young y0 Hy). lia. }
  split.
  - split; try apply Hi.
    + intros x Hx. apply fin_on. right. right. by apply (i_grey _ _ Hinv0).
    + intros x y Hx Hg Hxy. destruct (decide (x = node)) as [->|Hne]; [by apply Hsucc|].
      apply (i_black _ _ Hi x); [done|set_solver|done].
    + intros y Hy. destruct (i_back _ _ Hi y Hy) as (x & [->|Hx]%elem_of_cons & Hxl & Hr); [|by exists x].
      destruct (i_back _ _ Hi y0 Hy0) as (z & [->|Hz]%elem_of_cons & Hzl & Hr'); [lia|].
      exists z. split_and!; [done|lia|]. etrans; [exact Hr|]. by etrans.
  - done.
  - apply (stack_visited _ _ _ Hi), fin_node_on.
  - exists (s ++ [node]), low. split_and!; [by rewrite Hs, <- app_assoc| |done|right; by exists y0|].
    + intros x [Hx|Hx]%elem_of_app; [by apply Hns|]. apply list_elem_of_singleton in Hx as ->. done.
    + intros x y [Hx|Hx]%elem_of_app Hy Hxy; [by eapply Hedge|]. apply list_elem_of_singleton in Hx as ->. by apply Hsucc.
Qed.

Lemma post_close : post grey node t0 (close node t).
Proof. destruct (Nat.eq_dec low (idx t node)); [by apply post_root|apply post_inner; lia]. Qed.
End finished.

(** ** The algorithm *)

(** The nodes that can be met. *)
Definition scc_nodes : gset string := dom (incoming g) ∪ list_to_set (concat (btree (all_succ g)).*2).

Lemma succ_scc_nodes x y : succ g x y -> y ∈ scc_nodes.
Proof.
  unfold succ, successors, scc_nodes. destruct (all_succ g !! x) as [l|] eqn:El; simpl; [|by intros ?%elem_of_nil].
  intros Hy. apply elem_of_union_r, elem_of_list_to_set, list_elem_of_In, in_concat. exists l.
  rewrite <- !list_elem_of_In. split; [|done]. apply list_elem_of_fmap. exists (x, l). by rewrite elem_of_btree.
Qed.

Lemma strong_connect_unfold fuel node t :
  strong_connect g (S fuel) node t =
  close node <$> each_succ (strong_connect g fuel) node (successors g node) (enter node t).
Proof. done. Qed.

Definition unseen t : nat := size (scc_nodes ∖ visited t).

Lemma unseen_extends t t' : extends t t' -> unseen t' <= unseen t.
Proof.
  intros He. unfold unseen. apply subseteq_size. pose proof (extends_visited _ _ He). set_solver.
Qed.

Lemma unseen_enter node t : node ∈ scc_nodes -> node ∉ visited t -> unseen (enter node t) < unseen t.
Proof.
  intros Hn Hv. unfold unseen. apply subset_size. unfold visited, enter. simpl. rewrite dom_insert.
  change (dom (indices t)) with (visited t). set_solver.
Qed.

Lemma each_succ_spec grey node fuel t0 l p t :
  node ∉ visited t0 ->
  (forall next t, next ∉ visited t -> next ∈ scc_nodes -> unseen t < fuel -> inv (node :: grey) t ->
     (forall x, x ∈ node :: grey -> reach x next) ->
     exists t', strong_connect g fuel next t = Some t' /\ post (node :: grey) next t t') ->
  (forall x, x ∈ grey -> reach x node) -> (forall y, y ∈ l -> succ g node y) -> unseen t < fuel ->
  loop grey node p t0 t ->
  exists t', each_succ (strong_connect g fuel) node l t = Some t' /\ loop grey node (p ++ l) t0 t'.
Proof.
  intros Hn Hconn Hg. revert p t. induction l as [|next l IH]; intros p t Hl Hf Hloop; simpl.
  { exists t. by rewrite app_nil_r. }
  assert (succ g node next) as Hnext by (apply Hl; by left).
  rewrite (cons_middle next p l), app_assoc. destruct (indices t !! next) as [n|] eqn:En.
  - apply IH; [intros; apply Hl; by right| |by apply loop_known]. case_decide; done.
  - assert (next ∉ visited t) as Hv by (rewrite elem_of_visited, En; by intros []).
    destruct (Hconn next t Hv) as (t1 & -> & Hpost); [by eapply succ_scc_nodes|done|by destruct Hloop| |].
    { intros x [->|Hx]%elem_of_cons; [by apply rtc_once|]. eapply rtc_r; [by apply Hg|done]. }
    simpl. apply IH; [intros; apply Hl; by right| |by eapply loop_connected].
    pose proof (unseen_extends _ _ (p_extends _ _ _ _ Hpost)). unfold unseen, visited in *. simpl in *. lia.
Qed.

Lemma strong_connect_spec fuel grey node t :
  node ∉ visited t -> node ∈ scc_nodes -> unseen t < fuel -> inv grey t -> (forall x, x ∈ grey -> reach x node) ->
  exists t', strong_connect g fuel node t = Some t' /\ post grey node t t'.
Proof.
  revert grey node t. induction fuel as [|fuel IH]; intros grey node t Hn Hu Hf Hi Hg; [lia|].
  rewrite strong_connect_unfold. pose proof (unseen_enter node t Hu Hn).
  destruct (each_succ_spec grey node fuel t (successors g node) [] (enter node t)) as (t' & -> & Hloop);
    [done| |done|done|lia|by apply loop_enter|].
  { intros next t1 ? ? ? ? ?. by apply IH. }
  exists (close node t'). split; [done|]. destruct Hloop as [Hi' He Hidx (s & low & ? & ? & ? & ? & ? & ? & Hp)].
  by apply (post_close grey node t t' s low).
Qed.

(** Between the calls of the outer loop nothing is on the stack. *)
Lemma inv_idle t : inv [] t -> tj_stack t = [].
Proof.
  intros Hi. destruct (tj_stack t) as [|y l] eqn:El; [done|].
  destruct (i_back _ _ Hi y) as (x & Hx & _); [rewrite El; by left|]. by apply elem_of_nil in Hx.
Qed.

#[local] Arguments strong_connect : simpl never.

Lemma connect_all l t :
  inv [] t -> (forall x, x ∈ l -> x ∈ scc_nodes) ->
  exists t', fold_left (fun o node => t ← o;
      match indices t !! node with None => strong_connect g (scc_fuel g) node t | Some _ => Some t end) l (Some t) = Some t' /\
    inv [] t' /\ visited t ⊆ visited t' /\ forall x, x ∈ l -> x ∈ visited t'.
Proof.
  revert t. induction l as [|x l IH]; intros t Hi Hl; simpl; [exists t; set_solver|].
  destruct (indices t !! x) as [n|] eqn:En.
  - destruct (IH t Hi) as (t' & ? & ? & Hs & ?); [set_solver|]. exists t'. split_and!; [done..|].
    intros y [->|Hy]%elem_of_cons; [apply Hs, elem_of_visited; eauto|auto].
  - destruct (strong_connect_spec (scc_fuel g) [] x t) as (t1 & -> & [Hi1 He1 Hx1 _]);
      [rewrite elem_of_visited, En; by intros []|set_solver| |done|set_solver|].
    { unfold scc_fuel, unseen. change (elements _) with (elements scc_nodes). fold (size scc_nodes).
      change (length (elements scc_nodes)) with (size scc_nodes).
      pose proof (subseteq_size (scc_nodes ∖ visited t) scc_nodes). set_solver by lia. }
    destruct (IH t1 Hi1) as (t' & ? & ? & Hs & ?); [set_solver|]. exists t'. split_and!; [done..| |].
    + etrans; [by apply extends_visited|done].
    + intros y [->|Hy]%elem_of_cons; [by apply Hs|auto].
Qed.

Lemma strongly_connected_components_aux :
  exists l, strongly_connected_components g = Some l /\ NoDup (concat l) /\ Forall is_scc l /\
    forall x, x ∈ dom (incoming g) -> exists C, C ∈ l /\ x ∈ C.
Proof.
  unfold strongly_connected_components.
  destruct (connect_all (btree_keys (incoming g)) (mkTarjan 0 ∅ ∅ [] ∅ [])) as (t & -> & Hi & _ & Hv).
  { split; simpl; try by constructor.
    - intros x. rewrite elem_of_visited, elem_of_nil. split; [by intros []|done].
    - by intros x []%elem_of_visited.
    - set_solver.
    - by intros x y []%elem_of_visited.
    - by intros x y ?%elem_of_nil.
    - by intros y ?%elem_of_nil. }
  { intros x Hx%elem_of_btree_keys%elem_of_dom. unfold scc_nodes. set_solver. }
  exists (components t). pose proof (inv_idle _ Hi) as Hs. split_and!; [done| |apply Hi|].
  - pose proof (i_nodup _ _ Hi) as Hnd. by rewrite Hs in Hnd.
  - intros x Hx%elem_of_dom%elem_of_btree_keys%Hv. apply (i_visited _ _ Hi) in Hx. rewrite Hs in Hx. simpl in Hx.
    apply list_elem_of_In, in_concat in Hx as (C & ? & ?). exists C. by rewrite !list_elem_of_In.
Qed.
End tarjan.
