(* ===== verification/WfAnalysis.v ===== *)
(** The static analysis of a workflow ([kernel/workflow/src/analysis.rs]).

    [depth] bounds the calls of the schema functions, which follow references
    between schemas: [None] is an analysis that goes deeper.  How Rust prints a
    list of strings for debugging and a float are parameters; only texts of
    messages use them. *)
From Stdlib Require Import ZArith Lia Ascii Sorted Permutation Floats.SpecFloat.
From stdpp Require Import base tactics numbers gmap strings sorting list.
From S2P Require Import Prelude RustString Lists WfJson WfTypes WfSchema WfGraph.

(** What the texts of messages are printed with. *)
Class Printing := { debug_strings : list string -> string; display_f64 : float -> string }.

Section analysis.
Context {Number : Type} (number_eqb : Number -> Number -> bool) `{Printing} (depth : nat).
Abbreviation Value := (Value Number).
Abbreviation WorkflowDefinition := (WorkflowDefinition Number).
Abbreviation StepDefinition := (StepDefinition Number).

Inductive NodeEntry := EStep (s : StepDefinition) | EControl (n : ControlNodeDefinition).

Record ParsedReference := mkParsed { owner_node_id : string; json_path : list string; reference : RefPath }.

Record AnalysisContext := mkContext {
  ctx_graph : WorkflowGraph;
  output_schemas : gmap string Value;
  parsed_refs : gmap string (list ParsedReference)
}.

Definition error := report_push SevError.
Definition warning := report_push SevWarning.

(** [`x`] in a message. *)
Definition quoted (s : string) : string := "`" +:+ s +:+ "`".

(** ** Nodes *)

Definition insert_node (id : string) (entry : NodeEntry) (acc : gmap string NodeEntry * AnalysisReport)
  : gmap string NodeEntry * AnalysisReport :=
  let '(node_map, report) := acc in
  (<[id := entry]> node_map,
   match node_map !! id with
   | Some _ => error "duplicate_node_id" ("duplicate node id " +:+ quoted id) (Some id) report
   | None => report
   end).

Definition build_node_map (workflow : WorkflowDefinition) (report : AnalysisReport)
  : gmap string NodeEntry * AnalysisReport :=
  let acc := fold_left (fun acc step => insert_node (step_id step) (EStep step) acc) (wf_steps workflow) (∅, report) in
  fold_left (fun acc node => insert_node (node_id node) (EControl node) acc) (wf_nodes workflow) acc.

Definition validate_edges (workflow : WorkflowDefinition) (node_map : gmap string NodeEntry)
    (report : AnalysisReport) : AnalysisReport :=
  fold_left (fun report edge =>
      let report :=
        if bool_decide (is_Some (node_map !! edge_from edge)) then report
        else error "edge_unknown_from" ("edge.from " +:+ quoted (edge_from edge) +:+ " does not exist")
               (Some (edge_from edge)) report in
      match edge_to edge with
      | Some to =>
        if bool_decide (is_Some (node_map !! to)) then report
        else error "edge_unknown_to" ("edge.to " +:+ quoted to +:+ " does not exist") (Some (edge_from edge)) report
      | None => report
      end) (wf_edges workflow) report.

(** ** Schemas of outputs *)

Definition branch_schema (paths : list (string * string)) : Value :=
  VObject (map_of
    [("type", VString "object");
     ("properties", VObject [("branch",
        VObject (map_of [("type", VString "string"); ("enum", VArray (VString <$> paths.*1))]))]);
     ("required", VArray [VString "branch"])]).

Definition object_schema (properties : list (string * Value)) : Value :=
  VObject (map_of [("type", VString "object"); ("properties", VObject properties)]).

Definition array_schema (items : Value) : Value :=
  VObject (map_of [("type", VString "array"); ("items", items)]).

Definition control_output_schema (node_map : gmap string NodeEntry) (node : ControlNodeDefinition)
    (acc : gmap string Value * AnalysisReport) : gmap string Value * AnalysisReport :=
  let '(result, report) := acc in
  match node with
  | Branch branch => (<[br_id branch := branch_schema (br_paths branch)]> result, report)
  | Parallel parallel =>
    let '(properties, report) :=
      fold_left (fun acc branch_id =>
          match node_map !! branch_id with
          | Some (EStep step) => (map_insert branch_id (step_output_schema step) acc.1, acc.2)
          | _ => (acc.1, error "parallel_branch_unknown"
                    ("parallel branch " +:+ quoted branch_id +:+ " must reference a step")
                    (Some (par_id parallel)) acc.2)
          end) (par_branches parallel) ([], report) in
    (<[par_id parallel := object_schema properties]> result, report)
  | ForEach for_each =>
    let last_schema := default (VObject []) (last (fe_steps for_each) ≫= fun id => result !! id) in
    (<[fe_id for_each := array_schema last_schema]> result, report)
  end.

Definition build_output_schemas (workflow : WorkflowDefinition) (node_map : gmap string NodeEntry)
    (report : AnalysisReport) : gmap string Value * AnalysisReport :=
  let result := fold_left (fun m step => <[step_id step := step_output_schema step]> m) (wf_steps workflow) ∅ in
  fold_left (fun acc node => control_output_schema node_map node acc) (wf_nodes workflow) (result, report).

(** ** References *)

Fixpoint collect_refs_from_value (owner : string) (path : list string) (value : Value)
    (acc : list ParsedReference * AnalysisReport) : list ParsedReference * AnalysisReport :=
  match value with
  | VString text =>
    if starts_with "${" text then
      match ref_parse text with
      | Some r => (acc.1 ++ [mkParsed owner path r], acc.2)
      | None => (acc.1, error "invalid_reference" ("invalid reference " +:+ quoted text) (Some owner) acc.2)
      end
    else acc
  | VArray items =>
    (fix go (index : Z) items acc :=
       match items with
       | [] => acc
       | item :: items =>
         go (index + 1) items (collect_refs_from_value owner (path ++ [u64_to_string index]) item acc)
       end) 0 items acc
  | VObject m =>
    (fix go m acc :=
       match m with
       | [] => acc
       | (key, item) :: m => go m (collect_refs_from_value owner (path ++ [key]) item acc)
       end) m acc
  | _ => acc
  end.

Definition step_refs (step : StepDefinition) (report : AnalysisReport) : list ParsedReference * AnalysisReport :=
  let acc := match step_input step with
             | Some input => collect_refs_from_value (step_id step) [] input ([], report)
             | None => ([], report)
             end in
  match step_subject_ref step with
  | None => acc
  | Some subject_ref =>
    match ref_parse subject_ref with
    | Some r => (acc.1 ++ [mkParsed (step_id step) ["subject_ref"] r], acc.2)
    | None => (acc.1, error "invalid_subject_ref" ("invalid subject_ref " +:+ quoted subject_ref)
                 (Some (step_id step)) acc.2)
    end
  end.

(** The one reference of a branch or a loop. *)
Definition control_ref (id field text code message : string) (report : AnalysisReport)
  : list ParsedReference * AnalysisReport :=
  match ref_parse text with
  | Some r => ([mkParsed id [field] r], report)
  | None => ([], error code (message +:+ quoted text) (Some id) report)
  end.

Definition control_refs (node : ControlNodeDefinition) (report : AnalysisReport)
  : list ParsedReference * AnalysisReport :=
  match node with
  | Branch branch => control_ref (br_id branch) "on" (br_on branch) "invalid_branch_ref" "invalid branch.on " report
  | ForEach for_each =>
    control_ref (fe_id for_each) "items" (fe_items for_each) "invalid_for_each_ref" "invalid for_each.items " report
  | Parallel _ => ([], report)
  end.

(** The references of one node, kept under its id. *)
Definition collect_node {A} (id : A -> string) (refs : A -> AnalysisReport -> list ParsedReference * AnalysisReport)
    (acc : gmap string (list ParsedReference) * AnalysisReport) (x : A)
  : gmap string (list ParsedReference) * AnalysisReport :=
  let '(result, report) := acc in
  let '(l, report) := refs x report in (<[id x := l]> result, report).

Definition collect_references (workflow : WorkflowDefinition) (report : AnalysisReport)
  : gmap string (list ParsedReference) * AnalysisReport :=
  let acc := fold_left (collect_node step_id step_refs) (wf_steps workflow) (∅, report) in
  fold_left (collect_node node_id control_refs) (wf_nodes workflow) acc.

Definition validate_reference (defs : list (string * Value)) (node_map : gmap string NodeEntry)
    (graph : WorkflowGraph) (schemas : gmap string Value) (owner_id : string) (report : AnalysisReport)
    (parsed : ParsedReference) : AnalysisReport :=
  let r := reference parsed in
  if bool_decide (node_map !! ref_node_id r = None) then
    error "reference_unknown_node" ("reference points to unknown node " +:+ quoted (ref_node_id r)) (Some owner_id) report
  else
    let report :=
      if negb (default false (is_upstream graph (ref_node_id r) owner_id)) && negb (String.eqb (ref_node_id r) owner_id)
      then error "reference_not_upstream"
             ("reference " +:+ quoted (ref_as_string r) +:+ " is not upstream of " +:+ quoted owner_id) (Some owner_id) report
      else report in
    match schemas !! ref_node_id r with
    | None => report
    | Some referenced_schema =>
      match schema_at_path defs referenced_schema (ref_field_path r) with
      | Some _ => report
      | None => error "reference_unknown_field"
                  ("reference path " +:+ quoted (join "." (ref_field_path r)) +:+ " does not exist in "
                   +:+ quoted (ref_node_id r) +:+ " output_schema") (Some owner_id) report
      end
    end.

(** A loop whose body may go too deep. *)
Definition fold_opt {A} (f : AnalysisReport -> A -> option AnalysisReport) (report : AnalysisReport) (l : list A)
  : option AnalysisReport := fold_left (fun r x => r ← r; f r x) l (Some report).

Definition schema_of_ref (defs : list (string * Value)) (schemas : gmap string Value) (r : RefPath) : option Value :=
  schema ← schemas !! ref_node_id r; schema_at_path defs schema (ref_field_path r).

Definition validate_input_schema (defs : list (string * Value)) (schemas : gmap string Value)
    (step : StepDefinition) (input_schema : Value) (report : AnalysisReport) (parsed : ParsedReference)
  : option AnalysisReport :=
  match schema_of_ref defs schemas (reference parsed), schema_at_path defs input_schema (json_path parsed) with
  | Some source_schema, Some expected_schema =>
    compatible ← schemas_compatible defs depth source_schema expected_schema;
    Some (if compatible : bool then report
          else error "input_schema_mismatch"
                 ("reference " +:+ quoted (ref_as_string (reference parsed)) +:+ " is incompatible with input_schema path "
                  +:+ quoted (join "." (json_path parsed))) (Some (step_id step)) report)
  | _, _ => Some report
  end.

Definition validate_references (workflow : WorkflowDefinition) (node_map : gmap string NodeEntry)
    (graph : WorkflowGraph) (refs : gmap string (list ParsedReference)) (schemas : gmap string Value)
    (report : AnalysisReport) : option AnalysisReport :=
  let report := fold_left (fun report kv =>
      fold_left (validate_reference (wf_defs workflow) node_map graph schemas kv.1) kv.2 report) (btree refs) report in
  fold_opt (fun report step =>
      match step_input_schema step with
      | None => Some report
      | Some input_schema =>
        fold_opt (validate_input_schema (wf_defs workflow) schemas step input_schema) report
          (List.filter (fun p => negb (bool_decide (head (json_path p) = Some "subject_ref")))
             (default [] (refs !! step_id step)))
      end) report (wf_steps workflow).

(** ** The graph *)

Definition validate_reachability (graph : WorkflowGraph) (node_map : gmap string NodeEntry) (report : AnalysisReport)
  : AnalysisReport :=
  let reachable := default [] (reachable_from_starts graph) in
  fold_left (fun report id =>
      if bool_decide (id ∈ reachable) then report
      else error "unreachable_node" ("node " +:+ quoted id +:+ " is not reachable from any start node") (Some id) report)
    (btree_keys node_map) report.

Definition validate_termination (graph : WorkflowGraph) (report : AnalysisReport) : AnalysisReport :=
  if default false (has_terminal_path graph) then report
  else error "missing_terminal_path" "workflow does not contain a path to any terminal edge" None report.

(** Some branch of the component counts its iterations. *)
Definition bounded_component (node_map : gmap string NodeEntry) (component : list string) : bool :=
  existsb (fun id => match node_map !! id with
                     | Some (EControl (Branch branch)) => 0 <? br_max_iterations branch
                     | _ => false
                     end) component.

Definition is_cycle (graph : WorkflowGraph) (component : list string) : bool :=
  (1 <? length component)%nat || existsb (fun id => bool_decide (id ∈ successors graph id)) component.

Definition validate_cycles (workflow : WorkflowDefinition) (graph : WorkflowGraph)
    (node_map : gmap string NodeEntry) (report : AnalysisReport) : AnalysisReport :=
  let report := fold_left (fun report component =>
      if is_cycle graph component && negb (bounded_component node_map component) then
        error "unbounded_cycle"
          ("cycle " +:+ debug_strings component +:+ " does not include a branch with max_iterations")
          (head component) report
      else report) (default [] (strongly_connected_components graph)) report in
  if bool_decide (wf_steps workflow = []) then
    error "missing_steps" "workflow must contain at least one step" None report
  else report.

(** ** Steps *)

Definition validate_subject_ref (defs : list (string * Value)) (schemas : gmap string Value)
    (report : AnalysisReport) (step : StepDefinition) : option AnalysisReport :=
  if bool_decide (step_type step <> HumanConfirm) then Some report
  else
    match step_subject_ref step with
    | None => Some (error "subject_ref_required" "human_confirm step requires subject_ref" (Some (step_id step)) report)
    | Some subject_ref =>
      match ref_parse subject_ref ≫= schema_of_ref defs schemas with
      | None => Some report
      | Some subject_schema =>
        match schema_at_path defs (step_output_schema step) ["final_subject"] with
        | None => Some (error "missing_final_subject" "human_confirm output_schema must contain final_subject"
                          (Some (step_id step)) report)
        | Some final_subject_schema =>
          equal ← schemas_equal number_eqb defs depth subject_schema final_subject_schema;
          Some (if equal : bool then report
                else error "subject_schema_mismatch" "subject_ref schema does not match output.final_subject schema"
                       (Some (step_id step)) report)
        end
      end
    end.

Definition validate_branch (defs : list (string * Value)) (schemas : gmap string Value)
    (report : AnalysisReport) (node : ControlNodeDefinition) : AnalysisReport :=
  match node with
  | Branch branch =>
    match (r ← ref_parse (br_on branch); source ← schema_of_ref defs schemas r; schema_enum_values defs source) with
    | None => report
    | Some enum_values =>
      let missing := List.filter (fun v => negb (bool_decide (v ∈ (br_paths branch).*1))) enum_values in
      if bool_decide (missing = []) then report
      else error "branch_not_exhaustive" ("branch is missing paths for " +:+ debug_strings missing)
             (Some (br_id branch)) report
    end
  | _ => report
  end.

Definition validate_skip (defs : list (string * Value)) (skippable : list string) (step : StepDefinition)
    (report : AnalysisReport) (parsed : ParsedReference) : option AnalysisReport :=
  let referenced := ref_node_id (reference parsed) in
  if bool_decide (referenced ∉ skippable) then Some report
  else
    match step_input_schema step with
    | None =>
      Some (warning "skip_compatibility_unknown"
              ("step " +:+ quoted (step_id step) +:+ " references skippable node " +:+ quoted referenced
               +:+ " but does not declare input_schema") (Some (step_id step)) report)
    | Some input_schema =>
      match schema_at_path defs input_schema (json_path parsed) with
      | None => Some report
      | Some expected_schema =>
        accepts ← schema_accepts_null defs depth expected_schema;
        Some (if accepts : bool then report
              else error "skip_incompatible"
                     ("step " +:+ quoted (step_id step) +:+ " references skippable node " +:+ quoted referenced
                      +:+ " but input path " +:+ quoted (join "." (json_path parsed)) +:+ " does not accept null")
                     (Some (step_id step)) report)
      end
    end.

Definition validate_skip_compatibility (workflow : WorkflowDefinition)
    (refs : gmap string (list ParsedReference)) (report : AnalysisReport) : option AnalysisReport :=
  let skippable := step_id <$> List.filter step_skippable (wf_steps workflow) in
  fold_opt (fun report step =>
      fold_opt (validate_skip (wf_defs workflow) skippable step) report (default [] (refs !! step_id step)))
    report (wf_steps workflow).

Definition step_budget (step : StepDefinition) : option float :=
  guards ← step_guards step;
  match g_max_cost_usdb guards with
  | Some cost => Some cost
  | None => g_budget guards ≫= bg_max_cost_usdb
  end.

Definition validate_budget (workflow : WorkflowDefinition) (report : AnalysisReport) : AnalysisReport :=
  match (guards ← wf_guards workflow; budget ← g_budget guards; bg_max_cost_usdb budget) with
  | None => report
  | Some global_budget =>
    let total_step_budget := fold_left f64_add (omap step_budget (wf_steps workflow)) (f64_of_Z 0) in
    if SFltb global_budget total_step_budget then
      warning "budget_overcommit"
        ("sum of step budgets (" +:+ display_f64 total_step_budget +:+ ") exceeds global budget ("
         +:+ display_f64 global_budget +:+ ")") None report
    else report
  end.

Definition validate_output_mode (defs : list (string * Value)) (report : AnalysisReport) (step : StepDefinition)
  : AnalysisReport :=
  match step_output_mode step with
  | OutSingle => report
  | FiniteSeekable | FiniteSequential =>
    match schema_at_path defs (step_output_schema step) ["element_schema"] with
    | Some _ => report
    | None => error "output_mode_schema" "finite output_mode requires output_schema.properties.element_schema"
                (Some (step_id step)) report
    end
  end.

Definition validate_for_each (workflow : WorkflowDefinition) (node_map : gmap string NodeEntry)
    (report : AnalysisReport) (node : ControlNodeDefinition) : AnalysisReport :=
  let output_modes : gmap string OutputMode :=
    fold_left (fun m step => <[step_id step := step_output_mode step]> m) (wf_steps workflow) ∅ in
  match node with
  | ForEach for_each =>
    match ref_parse (fe_items for_each) with
    | None => report
    | Some r =>
      let id := Some (fe_id for_each) in
      let mode := default OutSingle (output_modes !! ref_node_id r) in
      let report := if bool_decide (mode = OutSingle)
        then error "for_each_single_input" "for_each.items cannot reference a single output" id report else report in
      let report := if bool_decide (mode = FiniteSequential) && (1 <? fe_concurrency for_each)
        then warning "for_each_serialized"
               ("for_each " +:+ quoted (fe_id for_each) +:+ " requested concurrency "
                +:+ u64_to_string (fe_concurrency for_each)
                +:+ " but upstream is finite_sequential; actual concurrency will be 1") id report else report in
      let report := if bool_decide (fe_steps for_each = [])
        then error "for_each_missing_steps" "for_each requires at least one internal step" id report else report in
      fold_left (fun report sid =>
          match node_map !! sid with
          | Some (EStep _) => report
          | _ => error "for_each_step_unknown" ("for_each internal step " +:+ quoted sid +:+ " does not exist") id report
          end) (fe_steps for_each) report
    end
  | _ => report
  end.

(** ** The analysis *)

Definition analyze_workflow (workflow : WorkflowDefinition) : option (AnalysisReport * AnalysisContext) :=
  let defs := wf_defs workflow in
  let report := empty_report in
  let report := if String.eqb (trim (wf_schema_version workflow)) ""
    then error "schema_version" "schema_version is required" None report else report in
  let '(node_map, report) := build_node_map workflow report in
  let '(graph, report) := from_definition workflow node_map report in
  let '(schemas, report) := build_output_schemas workflow node_map report in
  let '(refs, report) := collect_references workflow report in
  let report := validate_edges workflow node_map report in
  report ← validate_references workflow node_map graph refs schemas report;
  let report := validate_reachability graph node_map report in
  let report := validate_termination graph report in
  let report := validate_cycles workflow graph node_map report in
  report ← fold_opt (validate_subject_ref defs schemas) report (wf_steps workflow);
  let report := fold_left (validate_branch defs schemas) (wf_nodes workflow) report in
  report ← validate_skip_compatibility workflow refs report;
  let report := validate_budget workflow report in
  let report := fold_left (validate_output_mode defs) (wf_steps workflow) report in
  let report := fold_left (validate_for_each workflow node_map) (wf_nodes workflow) report in
  Some (report, mkContext graph schemas refs).
End analysis.
