(* ===== verification/WfCompile.v ===== *)
(** The compiler of workflows ([kernel/workflow/src/compiler.rs]): a definition
    without analysis errors becomes a map of expression nodes.  The hash of an
    executor's name comes from a cryptographic library and is a parameter. *)
From Stdlib Require Import ZArith Lia Ascii Sorted Permutation Floats.SpecFloat.
From stdpp Require Import base tactics numbers gmap strings sorting list.
From S2P Require Import Prelude RustString Lists WfJson WfTypes WfSchema WfGraph WfAnalysis.

(** [WorkflowError] of [error.rs]. *)
Inductive WorkflowError :=
| Analysis (report : AnalysisReport)
| InvalidReference (raw : string)
| NodeNotFound (id : string)
| UnsupportedNode (id : string)
| NodeNotWaitingHuman (id : string)
| NodeNotSkippable (id : string)
| MissingPendingThunk (id : string)
| ThunkRunMismatch (id : string)
| ReferenceResolution (raw : string)
| InvalidHumanAction (id action : string)
| RollbackBlocked (id : string)
| Serialization (msg : string)
| ObjectStore (msg : string)
| Dispatcher (msg : string)
| TaskTracker (msg : string)
| ForEachItemsType (id actual : string)
| ForEachTooManyItems (id : string) (count max : Z)
| ForEachBodyNotApply (id body : string)
| MissingMapState (id : string)
| MissingParState (id : string)
| UnknownExecutorNamespace (id executor : string)
| UnresolvedSemanticExecutor (id executor : string)
| ExecutorNamespaceNotImplemented (id executor namespace : string).

(** [WorkflowResult] *)
Abbreviation wresult A := (WorkflowError + A)%type.

Definition wbind {A B} (r : wresult A) (f : A -> wresult B) : wresult B :=
  match r with inl e => inl e | inr a => f a end.

Section compile.
Context {Number : Type} (number_eqb : Number -> Number -> bool) `{Printing} (depth : nat).
Context (sha256_hex : string -> string).
Abbreviation Value := (Value Number).

Record CompiledNode := mkNodeC {
  cn_id : string;
  cn_name : string;
  cn_expr : Expr Number;
  cn_output_schema : option Value;
  cn_skippable : bool;
  cn_idempotent : bool
}.

Record CompiledWorkflow := mkCompiled {
  cw_schema_version : string;
  cw_workflow_id : string;
  cw_workflow_name : string;
  cw_definition : WorkflowDefinition Number;
  cw_nodes : gmap string CompiledNode;
  cw_graph : WorkflowGraph;
  cw_warnings : list AnalysisIssue
}.

(** [collect::<WorkflowResult<..>>]: the first error ends it. *)
Fixpoint wmap {A B} (f : A -> wresult B) (l : list A) : wresult (list B) :=
  match l with
  | [] => inr []
  | x :: l => wbind (f x) (fun y => wbind (wmap f l) (fun k => inr (y :: k)))
  end.

Fixpoint compile_value_template (value : Value) : wresult (ValueTemplate Number) :=
  match value with
  | VString text =>
    if starts_with "${" text then
      match ref_parse text with Some r => inr (Reference r) | None => inl (InvalidReference text) end
    else inr (Literal value)
  | VArray items => wbind (wmap compile_value_template items) (fun l => inr (TArray l))
  | VObject m =>
    wbind (wmap (fun kv => let '(k, v) := kv in wbind (compile_value_template v) (fun t => inr (k, t))) m)
      (fun l => inr (TObject l))
  | _ => inr (Literal value)
  end.

Definition hash_executor (executor : string) : string := sha256_hex executor.

Definition compile_params (input : option Value) : wresult (list (string * ValueTemplate Number)) :=
  match input with
  | Some (VObject m) =>
    wmap (fun kv => let '(k, v) := kv in wbind (compile_value_template v) (fun t => inr (k, t))) m
  | Some other => wbind (compile_value_template other) (fun t => inr [("value", t)])
  | None => inr []
  end.

Definition compile_step (step : StepDefinition Number) : wresult (Expr Number) :=
  let await kind :=
    inr (Await kind (step_subject_ref step ≫= ref_parse) (step_prompt step) (step_output_schema step)) in
  match step_type step with
  | Autonomous =>
    match step_executor step with
    | None => inl (Serialization ("autonomous step `" +:+ step_id step +:+ "` requires executor"))
    | Some executor_str =>
      match executor_parse executor_str with
      | None => inl (UnknownExecutorNamespace (step_id step) executor_str)
      | Some executor =>
        wbind (compile_params (step_input step)) (fun params =>
          inr (Apply executor
                 (if is_function_object executor then Some (hash_executor (executor_as_str executor)) else None)
                 params (step_output_mode step) (step_idempotent step) (step_type step)
                 (default default_guards (step_guards step))))
      end
    end
  | HumanConfirm => await Confirm
  | HumanRequired => await Required
  end.

Definition find_step (workflow : WorkflowDefinition Number) (id : string) : option (StepDefinition Number) :=
  List.find (fun step => String.eqb (step_id step) id) (wf_steps workflow).

Definition ref_or_invalid (raw : string) : wresult RefPath :=
  match ref_parse raw with Some r => inr r | None => inl (InvalidReference raw) end.

Definition compile_control_node (node : ControlNodeDefinition) (workflow : WorkflowDefinition Number)
  : wresult (string * string * Expr Number * Value) :=
  match node with
  | Branch branch =>
    wbind (ref_or_invalid (br_on branch)) (fun on =>
      inr (br_id branch, br_id branch, Match on (br_paths branch) (br_max_iterations branch),
           branch_schema (br_paths branch)))
  | Parallel parallel =>
    let join_strategy :=
      match par_join parallel with
      | JoinModeAll => JoinAll
      | JoinModeAny => JoinAny
      | JoinModeNOfM => JoinNOfM (default 1 (par_n parallel))
      end in
    let properties :=
      map_of (omap (fun id => (fun step => (id, step_output_schema step)) <$> find_step workflow id)
                (par_branches parallel)) in
    inr (par_id parallel, par_id parallel, Par (par_branches parallel) join_strategy, object_schema properties)
  | ForEach for_each =>
    let source_step :=
      List.find (fun step => match ref_parse (fe_items for_each) with
                             | Some r => String.eqb (ref_node_id r) (step_id step)
                             | None => false
                             end) (wf_steps workflow) in
    let actual_concurrency :=
      match step_output_mode <$> source_step with
      | Some FiniteSequential => 1
      | _ => Z.max (fe_concurrency for_each) 1
      end in
    let last_schema := default (VObject [])
      (step_output_schema <$> (last (fe_steps for_each) ≫= find_step workflow)) in
    wbind (ref_or_invalid (fe_items for_each)) (fun collection =>
      inr (fe_id for_each, fe_id for_each,
           Map collection (fe_steps for_each) (fe_max_items for_each) (fe_concurrency for_each) actual_concurrency,
           array_schema last_schema))
  end.

(** The loops over the steps and over the control nodes. *)
Fixpoint compile_steps (steps : list (StepDefinition Number)) (nodes : gmap string CompiledNode)
  : wresult (gmap string CompiledNode) :=
  match steps with
  | [] => inr nodes
  | step :: steps =>
    wbind (compile_step step) (fun expr =>
      compile_steps steps
        (<[step_id step := mkNodeC (step_id step) (step_name step) expr (Some (step_output_schema step))
                             (step_skippable step) (step_idempotent step)]> nodes))
  end.

Fixpoint compile_controls (workflow : WorkflowDefinition Number) (controls : list ControlNodeDefinition)
    (nodes : gmap string CompiledNode) : wresult (gmap string CompiledNode) :=
  match controls with
  | [] => inr nodes
  | node :: controls =>
    wbind (compile_control_node node workflow) (fun c =>
      let '(id, name, expr, output_schema) := c in
      compile_controls workflow controls (<[id := mkNodeC id name expr (Some output_schema) false true]> nodes))
  end.

(** [compile_workflow], with the warnings of [CompileOutput]. *)
Definition compile_workflow (definition : WorkflowDefinition Number)
  : option (wresult (CompiledWorkflow * list AnalysisIssue)) :=
  '(report, context) ← analyze_workflow number_eqb depth definition;
  Some (if has_errors report then inl (Analysis report)
        else
          wbind (compile_steps (wf_steps definition) ∅) (fun nodes =>
          wbind (compile_controls definition (wf_nodes definition) nodes) (fun nodes =>
            inr (mkCompiled (wf_schema_version definition) (wf_id definition) (wf_name definition) definition
                   nodes (ctx_graph context) (warnings report), warnings report)))).
End compile.
Arguments CompiledNode Number : clear implicits.
Arguments CompiledWorkflow Number : clear implicits.
