(* ===== verification/WfGraphLinks.v ===== *)
(** What makes a workflow definition a good one, in terms of the definition
    alone: the links it declares, the references it makes, and what the
    analysis is to guarantee of both.  The graph built from a definition holds
    exactly the links the definition declares. *)
From Stdlib Require Import ZArith Lia Ascii Sorted Permutation.
From stdpp Require Import base tactics numbers gmap strings sorting list relations.
From S2P Require Import Prelude RustString Lists WfJson WfTypes WfSchema WfGraph WfGraphFacts WfAnalysis.

Section definition.
Context {Number : Type}.
Abbreviation Value := (Value Number).
Implicit Types (w : WorkflowDefinition Number) (v : Value).

Definition node_ids w : list string := (step_id <$> wf_steps w) ++ (node_id <$> wf_nodes w).

(** ** Links *)

(** The links of a control node. *)
Definition control_links (n : ControlNodeDefinition) : list (string * string) :=
  match n with
  | Branch n => pair (br_id n) <$> (br_paths n).*2
  | Parallel n => pair (par_id n) <$> par_branches n
  | ForEach n =>
    match fe_steps n with first :: _ => [(fe_id n, first)] | [] => [] end ++ windows2 (fe_steps n)
  end.

Definition edge_links (e : EdgeDefinition) : list (string * string) :=
  match edge_to e with Some to => [(edge_from e, to)] | None => [] end.

Definition declared_links w : list (string * string) :=
  concat (edge_links <$> wf_edges w) ++ concat (control_links <$> wf_nodes w).

Definition linked w (a c : string) : Prop := (a, c) ∈ declared_links w.

(** The node [c] runs after the node [a]: a link, or an edge out of a scope that
    [a] is a member of. *)
Definition scope_members (n : ControlNodeDefinition) : list string :=
  match n with Branch _ => [] | Parallel n => par_branches n | ForEach n => fe_steps n end.

Definition runs_after w (a c : string) : Prop :=
  linked w a c \/
  exists n, n ∈ wf_nodes w /\ a ∈ scope_members n /\ exists e, e ∈ wf_edges w /\ edge_from e = node_id n /\ edge_to e = Some c.

(** ** References *)

(** The strings of a document. *)
Fixpoint texts v : list string :=
  match v with
  | VString s => [s]
  | VArray l => concat (texts <$> l)
  | VObject m => concat ((fun kv => texts kv.2) <$> m)
  | _ => []
  end.

(** The texts of a node that are to be references. *)
Definition step_ref_texts (s : StepDefinition Number) : list string :=
  List.filter (starts_with "${") (from_option texts [] (step_input s)) ++ option_list (step_subject_ref s).

Definition control_ref_texts (n : ControlNodeDefinition) : list string :=
  match n with Branch n => [br_on n] | ForEach n => [fe_items n] | Parallel _ => [] end.

Definition ref_texts w (owner text : string) : Prop :=
  (exists s, s ∈ wf_steps w /\ step_id s = owner /\ text ∈ step_ref_texts s)
  \/ (exists n, n ∈ wf_nodes w /\ node_id n = owner /\ text ∈ control_ref_texts n).

(** The value a reference to a node is taken from. *)
Definition is_step w (id : string) : Prop := id ∈ (step_id <$> wf_steps w).

(** ** Accepted definitions *)

(** What the output of a node holds, for a step: the schema under a path. *)
Definition output_has w (r : RefPath) (schema : Value) : Prop :=
  exists s, s ∈ wf_steps w /\ step_id s = ref_node_id r /\
    schema_at_path (wf_defs w) (step_output_schema s) (ref_field_path r) = Some schema.

(** A node no link goes to. *)
Definition starts w (id : string) : Prop := id ∈ node_ids w /\ forall a, ~ linked w a id.

Record well_formed w : Prop := {
  wf_version : trim (wf_schema_version w) <> "";
  wf_has_steps : wf_steps w <> [];
  wf_unique_ids : NoDup (node_ids w);
  wf_edges_known : forall e, e ∈ wf_edges w ->
    edge_from e ∈ node_ids w /\ forall c, edge_to e = Some c -> c ∈ node_ids w;
  (** every text that is to be a reference is one, to a node that has run when
      its owner runs, or to the owner itself *)
  wf_refs : forall owner text, ref_texts w owner text ->
    exists r, ref_parse text = Some r /\ ref_node_id r ∈ node_ids w /\
      (ref_node_id r = owner \/ tc (runs_after w) (ref_node_id r) owner) /\
      (is_step w (ref_node_id r) -> exists schema, output_has w r schema);
  wf_reachable : forall id, id ∈ node_ids w -> exists s, starts w s /\ rtc (linked w) s id;
  wf_terminal : exists s e, starts w s /\ e ∈ wf_edges w /\ edge_to e = None /\ rtc (linked w) s (edge_from e);
  (** a cycle of links meets, in the cycles it is part of, a branch that counts *)
  wf_cycles : forall a, tc (linked w) a a -> exists n, Branch n ∈ wf_nodes w /\ 0 < br_max_iterations n /\
    rtc (linked w) a (br_id n) /\ rtc (linked w) (br_id n) a;
  wf_scopes : forall n id, n ∈ wf_nodes w -> id ∈ scope_members n -> is_step w id;
  (** a loop has steps, and goes over the output of a step that is not single *)
  wf_loops : forall n, ForEach n ∈ wf_nodes w -> fe_steps n <> [] /\
    exists r s, ref_parse (fe_items n) = Some r /\ s ∈ wf_steps w /\ step_id s = ref_node_id r /\
      step_output_mode s <> OutSingle;
  (** a branch on an enumerated value has a path for each of its values *)
  wf_branches : forall n r schema values value, Branch n ∈ wf_nodes w -> ref_parse (br_on n) = Some r ->
    output_has w r schema -> schema_enum_values (wf_defs w) schema = Some values -> value ∈ values -> value ∈ (br_paths n).*1;
  wf_confirms : forall s, s ∈ wf_steps w -> step_type s = HumanConfirm -> is_Some (step_subject_ref s);
  wf_modes : forall s, s ∈ wf_steps w -> step_output_mode s <> OutSingle ->
    is_Some (schema_at_path (wf_defs w) (step_output_schema s) ["element_schema"])
}.
End definition.

(** The successors and the incoming nodes of a graph are those of a list of links. *)
Definition has_links (g : WorkflowGraph) (l : list (string * string)) : Prop :=
  forall a c, (c ∈ successors g a <-> (a, c) ∈ l) /\ (a ∈ default ∅ (incoming g !! c) <-> (a, c) ∈ l).

(** What of a graph the links of control nodes leave alone. *)
Definition same_edges (g g' : WorkflowGraph) : Prop :=
  explicit_succ g' = explicit_succ g /\ terminal_from g' = terminal_from g.
Definition same_scopes (g g' : WorkflowGraph) : Prop :=
  parallel_branches g' = parallel_branches g /\ for_each_steps g' = for_each_steps g.

#[export] Instance same_edges_preorder : PreOrder same_edges.
Proof. split; [done|]. intros x y z [??] [??]. split; congruence. Qed.
#[export] Instance same_scopes_preorder : PreOrder same_scopes.
Proof. split; [done|]. intros x y z [??] [??]. split; congruence. Qed.

Lemma push_to_elem k v m a c :
  c ∈ default [] (push_to k v m !! a) <-> c ∈ default [] (m !! a) \/ (a = k /\ c = v).
Proof.
  unfold push_to. destruct (decide (a = k)) as [->|Hne].
  - rewrite lookup_insert_eq. csimpl. rewrite elem_of_app, list_elem_of_singleton. naive_solver.
  - rewrite lookup_insert_ne by done. naive_solver.
Qed.

Lemma insert_to_elem k v m a c :
  c ∈ default ∅ (insert_to k v m !! a) <-> c ∈ default ∅ (m !! a) \/ (a = k /\ c = v).
Proof.
  unfold insert_to. destruct (decide (a = k)) as [->|Hne].
  - rewrite lookup_insert_eq. csimpl. rewrite elem_of_union, elem_of_singleton. naive_solver.
  - rewrite lookup_insert_ne by done. naive_solver.
Qed.

Lemma or_default_lookup {V} (d : V) k m a : default d (or_default d k m !! a) = default d (m !! a).
Proof. unfold or_default. destruct (decide (a = k)) as [->|]; [by rewrite lookup_insert_eq|by rewrite lookup_insert_ne]. Qed.

Lemma has_links_empty : has_links empty_graph [].
Proof. intros a c. unfold successors. simpl. rewrite !lookup_empty. set_solver. Qed.

Lemma add_link_links a c g l :
  has_links g l -> has_links (add_link a c g) (l ++ [(a, c)]).
Proof.
  intros Hl x y. destruct (Hl x y) as [Hs Hi]. unfold successors, add_link in *. simpl.
  rewrite push_to_elem, insert_to_elem, Hs, Hi, elem_of_app, list_elem_of_singleton. naive_solver.
Qed.

(** A loop that adds the links of each element. *)
Lemma fold_links {A} (f : WorkflowGraph -> A -> WorkflowGraph) (links : A -> list (string * string)) k g l :
  (forall g l x, has_links g l -> has_links (f g x) (l ++ links x)) ->
  has_links g l -> has_links (fold_left f k g) (l ++ concat (links <$> k)).
Proof.
  intros Hf. revert g l. induction k as [|x k IH]; intros g l Hl; csimpl; [by rewrite app_nil_r|].
  rewrite app_assoc. auto.
Qed.

Lemma fold_preorder {A} (R : WorkflowGraph -> WorkflowGraph -> Prop) `{!PreOrder R}
    (f : WorkflowGraph -> A -> WorkflowGraph) k g :
  (forall g x, R g (f g x)) -> R g (fold_left f k g).
Proof.
  intros Hf. revert g. induction k as [|x k IH]; intros g; simpl; [reflexivity|].
  transitivity (f g x); auto.
Qed.

Lemma add_node_links g l id : has_links g l -> has_links (add_node g id) (l ++ []).
Proof.
  intros Hl x y. destruct (Hl x y) as [Hs Hi]. unfold successors, add_node in *. simpl.
  by rewrite !or_default_lookup, app_nil_r.
Qed.

Lemma add_edge_links g l e : has_links g l -> has_links (add_edge g e) (l ++ edge_links e).
Proof.
  intros Hl. unfold add_edge, edge_links. destruct (edge_to e) as [c|]; [|by rewrite app_nil_r].
  intros x y. apply (add_link_links _ _ _ _ Hl x y).
Qed.

(** A loop of links, as [add_control] has them. *)
Lemma fold_add_link {A} (p : A -> string * string) k g l :
  has_links g l -> has_links (fold_left (fun g x => add_link (p x).1 (p x).2 g) k g) (l ++ (p <$> k)).
Proof.
  intros Hl. assert (p <$> k = concat ((fun x => [p x]) <$> k)) as ->.
  { clear. induction k as [|x k IH]; [done|]. csimpl. by rewrite <- IH. }
  apply fold_links; [|done]. intros g' l' x Hl'. destruct (p x) as [a c]. by apply add_link_links.
Qed.

Lemma add_control_links g l n : has_links g l -> has_links (add_control g n) (l ++ control_links n).
Proof.
  intros Hl. destruct n as [n|n|n]; simpl.
  - apply (fold_add_link (pair (br_id n))). exact Hl.
  - apply (fold_add_link (pair (par_id n))). exact Hl.
  - rewrite app_assoc. match goal with |- has_links (fold_left _ ?k ?g) (?l ++ _) =>
      enough (has_links g l) as H; [apply (fold_add_link id k) in H; by rewrite list_fmap_id in H|] end.
    destruct (fe_steps n); [by rewrite app_nil_r|]. by apply add_link_links.
Qed.

Lemma add_link_same a c g : same_edges g (add_link a c g) /\ same_scopes g (add_link a c g).
Proof. done. Qed.

Lemma add_control_edges g n : same_edges g (add_control g n).
Proof.
  destruct n as [n|n|n]; simpl; (etrans; [|by apply (fold_preorder same_edges)]); [done..|].
  by destruct (fe_steps n).
Qed.

(** ** Explicit successors and terminal nodes *)

Lemma add_edge_explicit g e a c :
  c ∈ explicit_successors (add_edge g e) a <->
  c ∈ explicit_successors g a \/ (edge_from e = a /\ edge_to e = Some c).
Proof.
  unfold add_edge, explicit_successors. destruct (edge_to e) as [d|]; simpl; [|naive_solver].
  rewrite push_to_elem. naive_solver.
Qed.

Lemma add_edge_terminal g e a :
  a ∈ terminal_from (add_edge g e) <-> a ∈ terminal_from g \/ (edge_from e = a /\ edge_to e = None).
Proof.
  unfold add_edge. destruct (edge_to e) as [d|]; simpl; [naive_solver|].
  rewrite elem_of_union, elem_of_singleton. naive_solver.
Qed.

Lemma add_edges_explicit k g a c :
  c ∈ explicit_successors (fold_left add_edge k g) a <->
  c ∈ explicit_successors g a \/ exists e, e ∈ k /\ edge_from e = a /\ edge_to e = Some c.
Proof.
  revert g. induction k as [|e k IH]; intros g; simpl; [set_solver|].
  rewrite IH, add_edge_explicit. set_solver.
Qed.

Lemma add_edges_terminal k g a :
  a ∈ terminal_from (fold_left add_edge k g) <->
  a ∈ terminal_from g \/ exists e, e ∈ k /\ edge_from e = a /\ edge_to e = None.
Proof.
  revert g. induction k as [|e k IH]; intros g; simpl; [set_solver|].
  rewrite IH, add_edge_terminal. set_solver.
Qed.

Lemma add_nodes_explicit k g a :
  explicit_successors (fold_left add_node k g) a = explicit_successors g a /\
  terminal_from (fold_left add_node k g) = terminal_from g /\ same_scopes g (fold_left add_node k g).
Proof.
  revert g. induction k as [|id k IH]; intros g; simpl; [done|].
  destruct (IH (add_node g id)) as (-> & -> & Hs). split_and!; [|done|exact Hs].
  unfold explicit_successors, add_node. simpl. by rewrite or_default_lookup.
Qed.

(** ** Scopes *)

(** The scopes of the control nodes, the last node of an id counting. *)
Definition parallel_scope (n : ControlNodeDefinition) : option (list string) :=
  match n with Parallel n => Some (par_branches n) | _ => None end.
Definition for_each_scope (n : ControlNodeDefinition) : option (list string) :=
  match n with ForEach n => Some (fe_steps n) | _ => None end.
Definition note_scope (pick : ControlNodeDefinition -> option (list string)) (m : gmap string (list string))
    (n : ControlNodeDefinition) : gmap string (list string) :=
  match pick n with Some l => <[node_id n := l]> m | None => m end.

Lemma add_control_scopes g n :
  parallel_branches (add_control g n) = note_scope parallel_scope (parallel_branches g) n /\
  for_each_steps (add_control g n) = note_scope for_each_scope (for_each_steps g) n.
Proof.
  assert (forall A (f : A -> string * string) k g,
    same_scopes g (fold_left (fun g x => add_link (f x).1 (f x).2 g) k g)) as Hk.
  { intros. by apply (fold_preorder same_scopes). }
  destruct n as [n|n|n]; simpl; match goal with |- context [fold_left _ ?k ?g0] => set (g' := g0) end.
  - exact (Hk _ (pair (br_id n)) _ g').
  - exact (Hk _ (pair (par_id n)) _ g').
  - destruct (Hk _ id (windows2 (fe_steps n)) g') as [E1 E2]. simpl in E1, E2. rewrite E1, E2. subst g'. unfold note_scope. simpl.
    by destruct (fe_steps n).
Qed.

Lemma add_controls_scopes k g :
  parallel_branches (fold_left add_control k g) = fold_left (note_scope parallel_scope) k (parallel_branches g) /\
  for_each_steps (fold_left add_control k g) = fold_left (note_scope for_each_scope) k (for_each_steps g).
Proof.
  revert g. induction k as [|n k IH]; intros g; simpl; [done|].
  destruct (IH (add_control g n)) as [-> ->]. by destruct (add_control_scopes g n) as [-> ->].
Qed.

(** A map filled from nodes with different ids holds what each of them has. *)
Lemma fold_note pick k m id l :
  NoDup (node_id <$> k) ->
  (fold_left (note_scope pick) k m !! id = Some l <->
   (exists n, n ∈ k /\ node_id n = id /\ pick n = Some l) \/
   (m !! id = Some l /\ forall n, n ∈ k -> node_id n = id -> pick n = None)).
Proof.
  revert m. induction k as [|n k IH]; intros m Hnd; csimpl; [set_solver|].
  apply NoDup_cons in Hnd as [Hn Hnd]. rewrite IH by done.
  assert (forall n', n' ∈ k -> node_id n' = node_id n -> False) as Hne.
  { intros n' Hn' He. apply Hn. rewrite <- He. by apply list_elem_of_fmap_2. }
  unfold note_scope. destruct (pick n) as [l'|] eqn:El; [destruct (decide (id = node_id n)) as [->|Hid]|].
  - rewrite lookup_insert_eq. set_solver.
  - rewrite lookup_insert_ne by done. set_solver.
  - set_solver.
Qed.

(** ** The graph of a definition *)

Section definition.
Context {Number Entry : Type}.
Implicit Types w : WorkflowDefinition Number.

Definition graph_of w (node_map : gmap string Entry) : WorkflowGraph := (from_definition w node_map empty_report).1.

Lemma from_definition_graph w (node_map : gmap string Entry) r :
  (from_definition w node_map r).1 = graph_of w node_map.
Proof. unfold graph_of, from_definition. simpl. done. Qed.

Lemma graph_of_links w (node_map : gmap string Entry) : has_links (graph_of w node_map) (declared_links w).
Proof.
  assert (has_links (fold_left add_control (wf_nodes w) (fold_left add_edge (wf_edges w)
            (fold_left add_node (btree_keys node_map) empty_graph))) (declared_links w)) as Hl; [|exact Hl].
  unfold declared_links. apply (fold_links _ control_links); [apply add_control_links|].
  rewrite <- (app_nil_l (concat _)). apply (fold_links _ edge_links); [apply add_edge_links|].
  assert (@nil (string * string) = [] ++ concat ((fun _ : string => []) <$> btree_keys node_map)) as ->.
  { simpl. generalize (btree_keys node_map). intros k. induction k; [done|]. csimpl. done. }
  apply (fold_links _ (fun _ => [])); [apply add_node_links|apply has_links_empty].
Qed.

Lemma graph_of_succ w (node_map : gmap string Entry) a c :
  succ (graph_of w node_map) a c <-> linked w a c.
Proof. apply graph_of_links. Qed.

Lemma graph_of_start w (node_map : gmap string Entry) id :
  id ∈ start_nodes (graph_of w node_map) <-> is_Some (node_map !! id) /\ forall a, ~ linked w a id.
Proof.
  pose proof (graph_of_links w node_map) as Hl. revert Hl. unfold graph_of, from_definition. simpl.
  set (g := fold_left _ _ _). intros Hl. rewrite elem_of_filterb, bool_decide_eq_true, elem_of_btree_keys.
  rewrite set_eq. setoid_rewrite (fun a => proj2 (Hl a id)). unfold linked. set_solver.
Qed.

Lemma graph_of_explicit w (node_map : gmap string Entry) a c :
  c ∈ explicit_successors (graph_of w node_map) a <->
  exists e, e ∈ wf_edges w /\ edge_from e = a /\ edge_to e = Some c.
Proof.
  unfold explicit_successors, graph_of, from_definition. simpl.
  destruct (fold_preorder same_edges add_control (wf_nodes w)
    (fold_left add_edge (wf_edges w) (fold_left add_node (btree_keys node_map) empty_graph))
    add_control_edges) as [-> _].
  pose proof (add_edges_explicit (wf_edges w) (fold_left add_node (btree_keys node_map) empty_graph) a c) as He.
  rewrite (proj1 (add_nodes_explicit _ _ _)) in He.
  unfold explicit_successors in He at 1. rewrite He. unfold explicit_successors. simpl.
  rewrite lookup_empty. set_solver.
Qed.

Lemma graph_of_terminal w (node_map : gmap string Entry) a :
  a ∈ terminal_from (graph_of w node_map) <-> exists e, e ∈ wf_edges w /\ edge_from e = a /\ edge_to e = None.
Proof.
  unfold graph_of, from_definition. simpl.
  destruct (fold_preorder same_edges add_control (wf_nodes w)
    (fold_left add_edge (wf_edges w) (fold_left add_node (btree_keys node_map) empty_graph))
    add_control_edges) as [_ ->].
  rewrite add_edges_terminal. rewrite (proj1 (proj2 (add_nodes_explicit _ _ ""))). simpl. set_solver.
Qed.

Lemma graph_of_scopes w (node_map : gmap string Entry) id l :
  NoDup (node_id <$> wf_nodes w) ->
  (parallel_branches (graph_of w node_map) !! id = Some l <->
     exists n, Parallel n ∈ wf_nodes w /\ par_id n = id /\ par_branches n = l) /\
  (for_each_steps (graph_of w node_map) !! id = Some l <->
     exists n, ForEach n ∈ wf_nodes w /\ fe_id n = id /\ fe_steps n = l).
Proof.
  intros Hnd. unfold graph_of, from_definition. simpl.
  destruct (add_controls_scopes (wf_nodes w)
    (fold_left add_edge (wf_edges w) (fold_left add_node (btree_keys node_map) empty_graph))) as [-> ->].
  assert (same_scopes empty_graph (fold_left add_edge (wf_edges w)
            (fold_left add_node (btree_keys node_map) empty_graph))) as [-> ->].
  { transitivity (fold_left add_node (btree_keys node_map) empty_graph).
    - apply (add_nodes_explicit _ _ "").
    - apply (fold_preorder same_scopes). intros g e. unfold add_edge. by destruct (edge_to e). }
  split.
  - rewrite fold_note by done. cbn [parallel_branches for_each_steps empty_graph].
    rewrite lookup_empty. split; [intros [([n|n|n] & ? & ? & [= <-])|[]]; eauto; done|].
    intros (n & ? & ? & <-). left. by exists (Parallel n).
  - rewrite fold_note by done. cbn [parallel_branches for_each_steps empty_graph].
    rewrite lookup_empty. split; [intros [([n|n|n] & ? & ? & [= <-])|[]]; eauto; done|].
    intros (n & ? & ? & <-). left. by exists (ForEach n).
Qed.

Lemma elem_of_scope_exits g scopes a c :
  c ∈ scope_exits g scopes a <-> exists k l, scopes !! k = Some l /\ a ∈ l /\ c ∈ explicit_successors g k.
Proof.
  unfold scope_exits. rewrite list_elem_of_In, in_concat. setoid_rewrite <- list_elem_of_In.
  setoid_rewrite list_elem_of_fmap. split.
  - intros (? & ([k l] & -> & Hk) & Hc). simpl in Hc. rewrite elem_of_btree in Hk.
    case_bool_decide; [|set_solver]. eauto.
  - intros (k & l & Hk & Ha & Hc). eexists. split; [exists (k, l); split; [done|by apply elem_of_btree]|].
    simpl. by rewrite bool_decide_true.
Qed.

(** Where ids are unique, [is_upstream] goes along what runs after what. *)
Lemma graph_of_upstream w (node_map : gmap string Entry) a c :
  NoDup (node_id <$> wf_nodes w) -> upstream_step (graph_of w node_map) a c <-> runs_after w a c.
Proof.
  intros Hnd. unfold upstream_step, upstream_next, runs_after.
  rewrite !elem_of_app, !elem_of_scope_exits. setoid_rewrite graph_of_explicit.
  setoid_rewrite (fun k l => proj1 (graph_of_scopes w node_map k l Hnd)).
  setoid_rewrite (fun k l => proj2 (graph_of_scopes w node_map k l Hnd)).
  change (c ∈ successors (graph_of w node_map) a) with (succ (graph_of w node_map) a c). rewrite graph_of_succ.
  split.
  - intros [?|[(k & l & (n & Hn & <- & <-) & Ha & e)|(k & l & (n & Hn & <- & <-) & Ha & e)]]; [by left| |]; right.
    + by exists (Parallel n).
    + by exists (ForEach n).
  - intros [?|([n|n|n] & Hn & Ha & e)]; [by left|by apply elem_of_nil in Ha| |]; right; [left|right]; eauto 8.
Qed.
End definition.
