(* ===== verification/WfAnalysisFacts.v ===== *)
(** What an analysis without errors has checked: one lemma per check of
    [analysis.rs], each from the report after the check to the report before
    it and the fact it stands for. *)
From Stdlib Require Import ZArith Lia Ascii Sorted Permutation.
From stdpp Require Import base tactics numbers gmap strings sorting list relations.
From S2P Require Import Prelude RustString Lists WfJson WfTypes WfSchema WfGraph WfGraphFacts WfAnalysis WfGraphLinks.
From S2P Require Import WfGraphLinks.

Definition clean (r : AnalysisReport) : Prop := errors r = [].

Lemma clean_error c m n r : clean (error c m n r) <-> False.
Proof. unfold clean, error, report_push. simpl. by destruct (errors r). Qed.

Lemma clean_warning c m n r : clean (warning c m n r) <-> clean r.
Proof. done. Qed.

Lemma has_errors_clean r : has_errors r = false <-> clean r.
Proof. unfold has_errors, clean. by rewrite negb_false_iff, bool_decide_eq_true. Qed.

Create Rewrite HintDb clean.
#[export] Hint Rewrite clean_error clean_warning : clean.

(** A conditional error at the end of a check. *)
Ltac clean_cases :=
  repeat (case_bool_decide || case_match); autorewrite with clean in *; try tauto; simplify_eq.

Lemma clean_fold {A} (f : AnalysisReport -> A -> AnalysisReport) (Q : A -> Prop) l r :
  (forall r x, clean (f r x) -> clean r /\ Q x) ->
  clean (fold_left f l r) -> clean r /\ forall x, x ∈ l -> Q x.
Proof.
  intros Hf. revert r. induction l as [|x l IH]; intros r; simpl; [set_solver|].
  intros [[Hr Hx]%Hf Hl]%IH. split; [done|]. set_solver.
Qed.

Lemma fold_opt_cons {A} (f : AnalysisReport -> A -> option AnalysisReport) x l r :
  fold_opt f r (x :: l) = r ← f r x; fold_opt f r l.
Proof.
  unfold fold_opt. simpl. destruct (f r x) as [r'|]; simpl; [done|].
  induction l as [|y l IH]; [done|exact IH].
Qed.

Lemma clean_fold_opt {A} (f : AnalysisReport -> A -> option AnalysisReport) (Q : A -> Prop) l r r' :
  (forall r x r', f r x = Some r' -> clean r' -> clean r /\ Q x) ->
  fold_opt f r l = Some r' -> clean r' -> clean r /\ forall x, x ∈ l -> Q x.
Proof.
  intros Hf. revert r. induction l as [|x l IH]; intros r.
  { intros [= <-]. set_solver. }
  rewrite fold_opt_cons. intros (r1 & Hx & Hl)%bind_Some Hc.
  destruct (IH _ Hl Hc) as [Hr1 HQ]. destruct (Hf _ _ _ Hx Hr1) as [Hr HQx]. split; [done|]. set_solver.
Qed.

(** Folds that only fill a map, with a report beside it. *)
Lemma clean_fold_acc {A B} (f : B * AnalysisReport -> A -> B * AnalysisReport) l acc :
  (forall acc x, clean (f acc x).2 -> clean acc.2) -> clean (fold_left f l acc).2 -> clean acc.2.
Proof. intros Hf. revert acc. induction l as [|x l IH]; intros acc; simpl; [done|]. eauto. Qed.

Section facts.
Context {Number : Type} (number_eqb : Number -> Number -> bool) `{Printing} (depth : nat).
Abbreviation Value := (Value Number).
Implicit Types (w : WorkflowDefinition Number) (v : Value).
Abbreviation NodeEntry := (NodeEntry (Number := Number)).

(** ** Nodes *)

Definition entries w : list (string * NodeEntry) :=
  ((fun s => (step_id s, EStep s)) <$> wf_steps w) ++ ((fun n => (node_id n, EControl n)) <$> wf_nodes w).

Lemma entries_ids w : (entries w).*1 = node_ids w.
Proof. unfold entries, node_ids. by rewrite fmap_app, <- !list_fmap_compose. Qed.

Lemma build_node_map_entries w r :
  build_node_map w r = fold_left (fun acc p => insert_node p.1 p.2 acc) (entries w) (∅, r).
Proof. unfold build_node_map, entries. by rewrite fold_left_app, !fold_left_fmap. Qed.

Lemma insert_nodes_clean l (m : gmap string NodeEntry) r m' r' :
  fold_left (fun acc p => insert_node p.1 p.2 acc) l (m, r) = (m', r') -> clean r' ->
  clean r /\ NoDup l.*1 /\ (forall id, id ∈ l.*1 -> m !! id = None) /\
  forall id e, m' !! id = Some e <-> m !! id = Some e \/ (id, e) ∈ l.
Proof.
  revert m r. induction l as [|[id e] l IH]; intros m r; simpl.
  { intros [= -> ->] Hr. split_and!; [done|constructor|set_solver|set_solver]. }
  intros Hf Hc. destruct (IH _ _ Hf Hc) as (Hr & Hnd & Hm & Hm'). destruct (m !! id) as [e0|] eqn:Em.
  { by apply clean_error in Hr. }
  assert (id ∉ l.*1) as Hid. { intros Hin. specialize (Hm _ Hin). by rewrite lookup_insert_eq in Hm. }
  split_and!; [done|csimpl; by constructor| |].
  - intros id' [->|Hin]%elem_of_cons; [done|]. specialize (Hm _ Hin).
    by apply lookup_insert_None in Hm as [? _].
  - intros id' e'. rewrite Hm', elem_of_cons. destruct (decide (id' = id)) as [->|Hne].
    + rewrite lookup_insert_eq. split; [intros [[= ->]|?]; auto|]. intros [?|[[= ->]|?]]; [congruence|by left|by right].
    + rewrite lookup_insert_ne by done. naive_solver.
Qed.

Lemma build_node_map_clean w r m r' :
  build_node_map w r = (m, r') -> clean r' ->
  clean r /\ NoDup (node_ids w) /\ forall id e, m !! id = Some e <-> (id, e) ∈ entries w.
Proof.
  rewrite build_node_map_entries, <- entries_ids. intros Hf Hc.
  destruct (insert_nodes_clean _ _ _ _ _ Hf Hc) as (? & ? & _ & Hm). split_and!; [done..|].
  intros id e. rewrite Hm, lookup_empty. naive_solver.
Qed.

Lemma node_map_ids w (m : gmap string NodeEntry) id :
  (forall id e, m !! id = Some e <-> (id, e) ∈ entries w) -> is_Some (m !! id) <-> id ∈ node_ids w.
Proof.
  intros Hm. rewrite <- entries_ids, list_elem_of_fmap. split.
  - intros [e He%Hm]. by exists (id, e).
  - intros ([id' e] & -> & He). exists e. by apply Hm.
Qed.

Lemma node_map_step w (m : gmap string NodeEntry) id s :
  (forall id e, m !! id = Some e <-> (id, e) ∈ entries w) -> m !! id = Some (EStep s) -> s ∈ wf_steps w /\ step_id s = id.
Proof.
  intros Hm Hs%Hm. unfold entries in Hs. rewrite elem_of_app, !list_elem_of_fmap in Hs.
  destruct Hs as [(s' & [= -> ->] & ?)|(n & [=] & _)]. done.
Qed.

Lemma NoDup_ids_steps w : NoDup (node_ids w) -> NoDup (step_id <$> wf_steps w).
Proof. by intros (? & _)%NoDup_app. Qed.
Lemma NoDup_ids_nodes w : NoDup (node_ids w) -> NoDup (node_id <$> wf_nodes w).
Proof. by intros (_ & _ & ?)%NoDup_app. Qed.

Lemma validate_edges_clean w (m : gmap string NodeEntry) r :
  clean (validate_edges w m r) ->
  clean r /\ forall e, e ∈ wf_edges w -> is_Some (m !! edge_from e) /\ forall c, edge_to e = Some c -> is_Some (m !! c).
Proof.
  apply (clean_fold _ (fun e => is_Some (m !! edge_from e) /\ forall c, edge_to e = Some c -> is_Some (m !! c))).
  clear r. intros r e. destruct (edge_to e) as [c|]; repeat case_bool_decide; rewrite ?clean_error; naive_solver.
Qed.

Lemma from_definition_clean {Entry} w (m : gmap string Entry) r g r' :
  from_definition w m r = (g, r') -> clean r' -> clean r /\ g = graph_of w m.
Proof.
  rewrite <- (from_definition_graph w m r). unfold from_definition. intros [= <- <-]. simpl.
  case_bool_decide; [|done]. by intros Hc%clean_error.
Qed.

(** ** References *)

(** From one list of collected references to the next, the texts [ts] were
    parsed and kept. *)
Definition collected (ts : list string) (acc acc' : list ParsedReference * AnalysisReport) : Prop :=
  clean acc'.2 -> clean acc.2 /\ acc.1 ⊆ acc'.1 /\
    forall text, text ∈ ts -> exists p, p ∈ acc'.1 /\ ref_parse text = Some (reference p).

Lemma collected_nil acc : collected [] acc acc.
Proof. intros Hc. split_and!; set_solver. Qed.

Lemma collected_app ts ts' a1 a2 a3 :
  collected ts a1 a2 -> collected ts' a2 a3 -> collected (ts ++ ts') a1 a3.
Proof.
  intros H1 H2 H3. destruct (H2 H3) as (Hc2 & Hs2 & Ht2). destruct (H1 Hc2) as (Hc1 & Hs1 & Ht1).
  split_and!; [done|set_solver|]. intros text [Ht|Ht]%elem_of_app; [|by auto].
  destruct (Ht1 _ Ht) as (p & Hp & ?). exists p. split; [by apply Hs2|done].
Qed.

(** A text that is parsed, or reported. *)
Lemma collected_parse text (f : RefPath -> ParsedReference) acc c m n :
  (forall r, reference (f r) = r) ->
  collected [text] acc
    (match ref_parse text with Some r => (acc.1 ++ [f r], acc.2) | None => (acc.1, error c m n acc.2) end).
Proof.
  intros Hf. destruct (ref_parse text) as [r|] eqn:Er; [|by intros Hc%clean_error].
  intros Hc. simpl in *. split_and!; [done|set_solver|]. intros t ->%list_elem_of_singleton.
  exists (f r). split; [set_solver|by rewrite Er, Hf].
Qed.

Lemma collect_refs_collected owner path v acc :
  collected (List.filter (starts_with "${") (texts v)) acc (collect_refs_from_value owner path v acc).
Proof.
  revert path acc. induction v as [|b|n|s|l IH|m IH] using Value_nested_ind; intros path acc;
    try apply collected_nil.
  - cbn [collect_refs_from_value texts]. destruct (starts_with "${" s) eqn:Es.
    + cbn [List.filter]. rewrite Es. by apply (collected_parse s (mkParsed owner path)).
    + cbn [List.filter]. rewrite Es. apply collected_nil.
  - cbn [collect_refs_from_value texts]. generalize 0 as i. revert acc.
    induction IH as [|v l Hv Hl IHl]; intros acc i; csimpl; [apply collected_nil|].
    rewrite List.filter_app. eapply collected_app; [apply Hv|apply IHl].
  - cbn [collect_refs_from_value texts]. revert acc.
    induction IH as [|[k v] m Hv Hm IHm]; intros acc; csimpl; [apply collected_nil|].
    rewrite List.filter_app. eapply collected_app; [apply Hv|apply IHm].
Qed.

Lemma step_refs_collected (s : StepDefinition Number) r : collected (step_ref_texts s) ([], r) (step_refs s r).
Proof.
  unfold step_refs, step_ref_texts.
  assert (collected (List.filter (starts_with "${") (from_option texts [] (step_input s))) ([], r)
    (match step_input s with
     | Some input => collect_refs_from_value (step_id s) [] input ([], r) | None => ([], r) end)) as Hi.
  { destruct (step_input s) as [v|]; [apply collect_refs_collected|apply collected_nil]. }
  eapply collected_app; [exact Hi|]. destruct (step_subject_ref s) as [t|]; [|apply collected_nil].
  by apply (collected_parse t (mkParsed (step_id s) ["subject_ref"])).
Qed.

Lemma control_refs_collected (n : ControlNodeDefinition) r :
  collected (control_ref_texts n) ([], r) (control_refs n r).
Proof.
  destruct n as [n|n|n]; [|apply collected_nil|];
    [pose proof (collected_parse (br_on n) (mkParsed (br_id n) ["on"]) ([], r)) as Hp|
     pose proof (collected_parse (fe_items n) (mkParsed (fe_id n) ["items"]) ([], r)) as Hp];
    by apply Hp.
Qed.

(** The loops that collect them by owner. *)
Lemma collect_clean {A} (id : A -> string) (ts : A -> list string)
    (refs : A -> AnalysisReport -> list ParsedReference * AnalysisReport) l m r :
  (forall x r, collected (ts x) ([], r) (refs x r)) -> clean (fold_left (collect_node id refs) l (m, r)).2 ->
  clean r /\
  (forall i, i ∉ (id <$> l) -> (fold_left (collect_node id refs) l (m, r)).1 !! i = m !! i) /\
  (NoDup (id <$> l) -> forall x text, x ∈ l -> text ∈ ts x ->
    exists k p, (fold_left (collect_node id refs) l (m, r)).1 !! id x = Some k /\ p ∈ k /\
    ref_parse text = Some (reference p)).
Proof.
  intros Hr. revert m r. induction l as [|x l IH]; intros m r Hc; [set_solver|].
  simpl in Hc |- *. destruct (refs x r) as [k r1] eqn:Ek.
  destruct (IH (<[id x := k]> m) r1 Hc) as (Hr1 & Hout & Hin).
  destruct (Hr x r) as (Hr0 & _ & Ht); [by rewrite Ek|]. rewrite Ek in Ht. split_and!; [done| |].
  - intros i Hi. rewrite Hout by set_solver. apply lookup_insert_ne. set_solver.
  - intros [Hx Hnd]%NoDup_cons y text [->|Hy]%elem_of_cons Hty; [|by apply Hin].
    destruct (Ht text Hty) as (p & Hp & ?). exists k, p. split; [|done].
    rewrite Hout by done. by rewrite lookup_insert_eq.
Qed.

Lemma collect_references_clean w r m r' :
  collect_references w r = (m, r') -> clean r' ->
  clean r /\ (NoDup (node_ids w) -> forall owner text, ref_texts w owner text ->
    exists k p, m !! owner = Some k /\ p ∈ k /\ ref_parse text = Some (reference p)).
Proof.
  unfold collect_references. intros Hf Hc.
  destruct (fold_left _ (wf_steps w) (∅, r)) as [m1 r1] eqn:E1.
  destruct (collect_clean node_id control_ref_texts control_refs (wf_nodes w) m1 r1) as (Hr1 & Hout & Hin);
    [apply control_refs_collected|by rewrite Hf|]. rewrite Hf in Hout, Hin.
  destruct (collect_clean step_id step_ref_texts step_refs (wf_steps w) ∅ r) as (Hr0 & _ & Hin0);
    [apply step_refs_collected|by rewrite E1|]. rewrite E1 in Hin0.
  split; [done|]. intros Hnd owner text [(s & Hs & <- & Ht)|(n & Hn & <- & Ht)];
    [|by apply Hin; [apply NoDup_ids_nodes|..]].
  destruct (Hin0 (NoDup_ids_steps _ Hnd) s text Hs Ht) as (k & p & Hk & ?). exists k, p. split; [|done].
  simpl in *. rewrite Hout; [done|].
  apply NoDup_app in Hnd as (_ & Hd & _). by apply Hd, list_elem_of_fmap_2.
Qed.

(** ** Schemas of outputs *)

(** A map filled under the ids of a list. *)
Lemma fold_insert_out {A B} (id : A -> string) (f : A -> B) l (m : gmap string B) i :
  i ∉ (id <$> l) -> fold_left (fun m x => <[id x := f x]> m) l m !! i = m !! i.
Proof.
  revert m. induction l as [|x l IH]; intros m; csimpl; [done|]. intros Hi.
  rewrite IH by set_solver. apply lookup_insert_ne. set_solver.
Qed.

Lemma fold_insert_in {A B} (id : A -> string) (f : A -> B) l (m : gmap string B) x :
  NoDup (id <$> l) -> x ∈ l -> fold_left (fun m x => <[id x := f x]> m) l m !! id x = Some (f x).
Proof.
  revert m. induction l as [|y l IH]; intros m; csimpl; [set_solver|].
  intros [Hy Hnd]%NoDup_cons [->|Hx]%elem_of_cons; [|by apply IH].
  rewrite fold_insert_out by done. by rewrite lookup_insert_eq.
Qed.

Lemma parallel_schema_clean (m : gmap string NodeEntry) owner l acc acc' :
  fold_left (fun acc branch_id =>
    match m !! branch_id with
    | Some (EStep step) => (map_insert branch_id (step_output_schema step) acc.1, acc.2)
    | _ => (acc.1, error "parallel_branch_unknown"
              ("parallel branch " +:+ quoted branch_id +:+ " must reference a step") (Some owner) acc.2)
    end) l acc = acc' -> clean acc'.2 ->
  clean acc.2 /\ forall id, id ∈ l -> exists s, m !! id = Some (EStep s).
Proof.
  intros <-. revert acc. induction l as [|id l IH]; intros acc; simpl; [set_solver|].
  intros [Hc Hl]%IH. destruct (m !! id) as [[s|n]|] eqn:Em; simpl in Hc;
    [|by apply clean_error in Hc..]. split; [done|]. set_solver.
Qed.

Lemma control_schemas_clean (m : gmap string NodeEntry) l acc acc' :
  fold_left (fun acc node => control_output_schema m node acc) l acc = acc' -> clean acc'.2 ->
  clean acc.2 /\ (forall i, i ∉ (node_id <$> l) -> acc'.1 !! i = acc.1 !! i) /\
  forall n id, Parallel n ∈ l -> id ∈ par_branches n -> exists s, m !! id = Some (EStep s).
Proof.
  intros <-. revert acc. induction l as [|n l IH]; intros [k r]; csimpl; [set_solver|].
  intros (Hc & Hout & Hl)%IH.
  assert (clean r /\ (forall i, i <> node_id n -> (control_output_schema m n (k, r)).1 !! i = k !! i) /\
    forall p id, n = Parallel p -> id ∈ par_branches p -> exists s, m !! id = Some (EStep s)) as (Hr & Ho & Hn).
  { revert Hc. destruct n as [n|n|n]; simpl.
    - intros Hc. split_and!; [done| |done]. intros i Hi. by rewrite lookup_insert_ne.
    - destruct (fold_left _ (par_branches n) _) as [props r1] eqn:Ep. intros Hc. simpl in Hc.
      destruct (parallel_schema_clean _ _ _ _ _ Ep Hc) as [Hr Hl']. split_and!; [done| |].
      + intros i Hi. simpl. by rewrite lookup_insert_ne.
      + intros p id [= <-]. auto.
    - intros Hc. split_and!; [done| |done]. intros i Hi. by rewrite lookup_insert_ne. }
  split_and!; [done| |].
  - intros i Hi. rewrite Hout by set_solver. apply Ho. set_solver.
  - intros p id [Hp|Hp]%elem_of_cons; eauto.
Qed.

Lemma build_output_schemas_clean w (m : gmap string NodeEntry) r schemas r' :
  build_output_schemas w m r = (schemas, r') -> clean r' ->
  clean r /\ (NoDup (node_ids w) -> forall s, s ∈ wf_steps w -> schemas !! step_id s = Some (step_output_schema s)) /\
  forall n id, Parallel n ∈ wf_nodes w -> id ∈ par_branches n -> exists s, m !! id = Some (EStep s).
Proof.
  unfold build_output_schemas. intros Hb Hc.
  destruct (control_schemas_clean _ _ _ _ Hb Hc) as (Hr & Hout & Hp). split_and!; [done| |done].
  intros Hnd s Hs. simpl in Hout. rewrite Hout.
  - apply fold_insert_in; [by apply NoDup_ids_steps|done].
  - apply NoDup_app in Hnd as (_ & Hd & _). by apply Hd, list_elem_of_fmap_2.
Qed.

(** ** Checks of references *)

Lemma validate_reference_clean defs (m : gmap string NodeEntry) g schemas owner r p :
  clean (validate_reference defs m g schemas owner r p) ->
  clean r /\ is_Some (m !! ref_node_id (reference p)) /\
  (ref_node_id (reference p) = owner \/ tc (upstream_step g) (ref_node_id (reference p)) owner) /\
  forall schema, schemas !! ref_node_id (reference p) = Some schema ->
    is_Some (schema_at_path defs schema (ref_field_path (reference p))).
Proof.
  unfold validate_reference. case_bool_decide as Hm; [by rewrite clean_error|]. intros Hc.
  destruct (is_upstream_aux g (ref_node_id (reference p)) owner) as (b & Hb & Hup). rewrite Hb in Hc. simpl in Hc.
  match type of Hc with clean (match _ with None => ?r1 | _ => _ end) => assert (clean r1) as Hr1 end.
  { destruct (schemas !! _); [|done]. destruct (schema_at_path _ _ _); [done|by apply clean_error in Hc]. }
  assert (clean r /\ (ref_node_id (reference p) = owner \/ tc (upstream_step g) (ref_node_id (reference p)) owner))
    as [Hr Ho].
  { destruct b; simpl in Hr1; [split; [done|]; right; by apply Hup|].
    destruct (String.eqb_spec (ref_node_id (reference p)) owner); simpl in Hr1;
      [by split; [|left]|by apply clean_error in Hr1]. }
  split_and!; [done|by apply not_eq_None_Some|done|]. intros schema Hs. rewrite Hs in Hc.
  destruct (schema_at_path _ _ _); [done|by apply clean_error in Hc].
Qed.

Lemma validate_input_schema_clean defs schemas s v r p r' :
  validate_input_schema depth defs schemas s v r p = Some r' -> clean r' -> clean r.
Proof.
  unfold validate_input_schema. destruct (schema_of_ref _ _ _) as [v1|]; [|by intros [= ->]].
  destruct (schema_at_path defs v _) as [v2|]; [|by intros [= ->]].
  intros (b & _ & [= <-])%bind_Some. destruct b; [done|by rewrite clean_error].
Qed.

Lemma validate_references_clean w (m : gmap string NodeEntry) g refs schemas r r' :
  validate_references depth w m g refs schemas r = Some r' -> clean r' ->
  clean r /\ forall owner k p, refs !! owner = Some k -> p ∈ k ->
    is_Some (m !! ref_node_id (reference p)) /\
    (ref_node_id (reference p) = owner \/ tc (upstream_step g) (ref_node_id (reference p)) owner) /\
    forall schema, schemas !! ref_node_id (reference p) = Some schema ->
      is_Some (schema_at_path (wf_defs w) schema (ref_field_path (reference p))).
Proof.
  unfold validate_references. intros Hf Hc. apply (clean_fold_opt _ (fun _ => True)) in Hf as [Hf _]; [| |done].
  - destruct (clean_fold _ (fun kv => forall p, p ∈ kv.2 -> is_Some (m !! ref_node_id (reference p)) /\
      (ref_node_id (reference p) = kv.1 \/ tc (upstream_step g) (ref_node_id (reference p)) kv.1) /\
      forall schema, schemas !! ref_node_id (reference p) = Some schema ->
        is_Some (schema_at_path (wf_defs w) schema (ref_field_path (reference p)))) _ _ (fun r kv Hf =>
      clean_fold _ _ _ _ (fun r p => validate_reference_clean (wf_defs w) m g schemas kv.1 r p) Hf) Hf) as [Hr Hk].
    split; [done|]. intros owner k p Hk' Hp. apply (Hk (owner, k)); [by apply elem_of_btree|done].
  - clear. intros r s r'. destruct (step_input_schema s) as [v|]; [|intros [= ->]; done]. intros Hf Hc. split; [|done].
    apply (clean_fold_opt _ (fun _ => True)) in Hf as [Hf _]; [done| |done].
    intros ? p ? Hv Hc'. split; [|done]. by eapply validate_input_schema_clean.
Qed.

(** ** Checks of the graph *)

Lemma validate_reachability_clean g (m : gmap string NodeEntry) r :
  clean (validate_reachability g m r) ->
  clean r /\ forall id, is_Some (m !! id) -> exists s, s ∈ start_nodes g /\ rtc (succ g) s id.
Proof.
  unfold validate_reachability. destruct (reachable_from_starts_aux g) as (l & -> & _ & Hl). simpl. intros Hc.
  apply (clean_fold _ (fun id => id ∈ l)) in Hc as [Hr Hid].
  - split; [done|]. intros id Hm. apply Hl, Hid. by apply elem_of_btree_keys.
  - intros r' id. case_bool_decide; [done|by rewrite clean_error].
Qed.

Lemma validate_termination_clean g r :
  clean (validate_termination g r) ->
  clean r /\ exists s t, s ∈ start_nodes g /\ rtc (succ g) s t /\ t ∈ terminal_from g.
Proof.
  unfold validate_termination. destruct (has_terminal_path_aux g) as (b & -> & Hb). destruct b; simpl.
  - intros Hr. split; [done|]. by apply Hb.
  - by intros Hr%clean_error.
Qed.

Lemma validate_cycles_clean w g (m : gmap string NodeEntry) r :
  clean (validate_cycles w g m r) ->
  clean r /\ wf_steps w <> [] /\
  forall component, component ∈ default [] (strongly_connected_components g) ->
    is_cycle g component = true -> bounded_component m component = true.
Proof.
  unfold validate_cycles. case_bool_decide as Hs; [by rewrite clean_error|]. intros Hc.
  apply (clean_fold _ (fun c => is_cycle g c = true -> bounded_component m c = true)) in Hc as [Hr Hb]; [done|].
  intros r' c. destruct (is_cycle g c); [|done]. destruct (bounded_component m c); simpl; [done|by rewrite clean_error].
Qed.

(** ** Checks of steps and control nodes *)

Lemma validate_subject_ref_clean defs schemas r s r' :
  validate_subject_ref number_eqb depth defs schemas r s = Some r' -> clean r' ->
  clean r /\ (step_type s = HumanConfirm -> is_Some (step_subject_ref s)).
Proof.
  unfold validate_subject_ref. case_bool_decide as Ht; [by intros [= ->]|].
  destruct (step_subject_ref s) as [t|]; [|intros [= <-]; by rewrite clean_error].
  intros Hv Hc. split; [|done].
  destruct (ref_parse t ≫= _) as [v|]; [|by injection Hv as ->].
  destruct (schema_at_path defs (step_output_schema s) ["final_subject"]) as [v'|]; [|injection Hv as <-; by apply clean_error in Hc].
  apply bind_Some in Hv as (b & _ & [= <-]). destruct b; [done|by apply clean_error in Hc].
Qed.

Lemma validate_branch_clean (defs : list (string * Value)) schemas r n :
  clean (validate_branch defs schemas r n) ->
  clean r /\ forall b p source values value, n = Branch b -> ref_parse (br_on b) = Some p ->
    schema_of_ref defs schemas p = Some source -> schema_enum_values defs source = Some values ->
    value ∈ values -> value ∈ (br_paths b).*1.
Proof.
  unfold validate_branch. destruct n as [n|n|n]; [|done..]. destruct (ref_parse (br_on n)) as [p|] eqn:Ep; simpl;
    [|intros Hr; split; [done|]; intros; simplify_eq].
  destruct (schema_of_ref defs schemas p) as [source|] eqn:Es; simpl; [|intros Hr; split; [done|]; intros; simplify_eq].
  destruct (schema_enum_values defs source) as [values|] eqn:Ev; [|intros Hr; split; [done|]; intros; simplify_eq].
  case_bool_decide as Hm; [|by rewrite clean_error]. intros Hr. split; [done|]. intros; simplify_eq.
  destruct (decide (value ∈ (br_paths b).*1)) as [|Hv]; [done|].
  assert (value ∈ List.filter (fun x => negb (bool_decide (x ∈ (br_paths b).*1))) values) as Hin.
  { apply elem_of_filterb. by rewrite bool_decide_false. }
  rewrite Hm in Hin. by apply elem_of_nil in Hin.
Qed.

Lemma validate_skip_clean defs skippable (s : StepDefinition Number) r p r' :
  validate_skip depth defs skippable s r p = Some r' -> clean r' -> clean r.
Proof.
  unfold validate_skip. case_bool_decide; [by intros [= ->]|].
  destruct (step_input_schema s) as [v|]; [|intros [= <-]; by rewrite clean_warning].
  destruct (schema_at_path defs v _) as [v'|]; [|by intros [= ->]].
  intros (b & _ & [= <-])%bind_Some. destruct b; [done|by rewrite clean_error].
Qed.

Lemma validate_skip_compatibility_clean w refs r r' :
  validate_skip_compatibility depth w refs r = Some r' -> clean r' -> clean r.
Proof.
  unfold validate_skip_compatibility. intros Hv Hc.
  apply (clean_fold_opt _ (fun _ => True)) in Hv as [Hr _]; [done| |done].
  intros r1 s r2 Hv' Hc'. apply (clean_fold_opt _ (fun _ => True)) in Hv' as [Hr _]; [done| |done].
  intros r3 p r4 Hv'' Hc''. split; [|done]. by eapply validate_skip_clean.
Qed.

Lemma validate_budget_clean w r : clean (validate_budget w r) -> clean r.
Proof. unfold validate_budget. destruct (_ ≫= _); [|done]. by destruct (SpecFloat.SFltb _ _). Qed.

Lemma validate_output_mode_clean (defs : list (string * Value)) r (s : StepDefinition Number) :
  clean (validate_output_mode defs r s) ->
  clean r /\ (step_output_mode s <> OutSingle -> is_Some (schema_at_path defs (step_output_schema s) ["element_schema"])).
Proof.
  unfold validate_output_mode. destruct (step_output_mode s); [done|..];
    (destruct (schema_at_path defs _ _) as [v|]; [intros Hr; split; [done|]; by exists v|by rewrite clean_error]).
Qed.

Lemma validate_for_each_clean w (m : gmap string NodeEntry) r n :
  clean (validate_for_each w m r n) ->
  clean r /\ forall f p, n = ForEach f -> ref_parse (fe_items f) = Some p ->
    fe_steps f <> [] /\
    (NoDup (step_id <$> wf_steps w) ->
       exists s, s ∈ wf_steps w /\ step_id s = ref_node_id p /\ step_output_mode s <> OutSingle) /\
    forall id, id ∈ fe_steps f -> exists s, m !! id = Some (EStep s).
Proof.
  unfold validate_for_each. destruct n as [n|n|n]; [done..|].
  destruct (ref_parse (fe_items n)) as [p|] eqn:Ep; [|intros Hr; split; [done|]; intros; simplify_eq].
  set (modes := fold_left _ (wf_steps w) ∅). intros Hc.
  apply (clean_fold _ (fun id => exists s, m !! id = Some (EStep s))) in Hc as [Hc Hids];
    [|intros r' id; destruct (m !! id) as [[s|?]|]; [by eauto|by rewrite clean_error..]].
  case_bool_decide as Hst; [by apply clean_error in Hc|].
  match type of Hc with clean (if _ then _ else ?r1) => assert (clean r1) as Hr1 by (by destruct (_ && _)) end.
  case_bool_decide as Hmode; [by apply clean_error in Hr1|]. split; [done|]. intros f p' [= <-] Hp. rewrite Ep in Hp. injection Hp as <-.
  split_and!; [done| |done]. intros Hnd.
  destruct (decide (ref_node_id p ∈ (step_id <$> wf_steps w))) as [(s & Hid & Hs)%list_elem_of_fmap|Hout].
  - exists s. split_and!; [done..|]. subst modes. rewrite Hid in Hmode.
    by rewrite (fold_insert_in step_id step_output_mode) in Hmode by done.
  - exfalso. apply Hmode. subst modes. by rewrite (fold_insert_out step_id step_output_mode).
Qed.
End facts.
