(* ===== verification/WfCompileFacts.v ===== *)
(** The analysis and the compiler as a whole: what a definition without errors is,
    and what the compiler makes of it. *)
From Stdlib Require Import ZArith Lia Ascii Sorted Permutation.
From stdpp Require Import base tactics numbers gmap strings sorting list relations.
From S2P Require Import Prelude RustString Lists WfJson WfTypes WfSchema WfGraph WfGraphFacts WfTarjan WfAnalysis.
From S2P Require Import WfCompile WfGraphLinks WfAnalysisFacts.

Section accepted.
Context {Number : Type} (number_eqb : Number -> Number -> bool) `{Printing} (depth : nat).
Abbreviation Value := (Value Number).
Implicit Types (w : WorkflowDefinition Number) (v : Value).
Abbreviation NodeEntry := (NodeEntry (Number := Number)).

(** What each check of an accepted definition has left, over the maps the
    analysis has built. *)
Record checked w (m : gmap string NodeEntry) (schemas : gmap string Value)
    (refs : gmap string (list ParsedReference)) : Prop := {
  c_version : trim (wf_schema_version w) <> "";
  c_ids : NoDup (node_ids w);
  c_map : forall id e, m !! id = Some e <-> (id, e) ∈ entries w;
  c_parallel : forall n id, Parallel n ∈ wf_nodes w -> id ∈ par_branches n -> exists s, m !! id = Some (EStep s);
  c_schemas : forall s, s ∈ wf_steps w -> schemas !! step_id s = Some (step_output_schema s);
  c_texts : forall owner text, ref_texts w owner text ->
    exists k p, refs !! owner = Some k /\ p ∈ k /\ ref_parse text = Some (reference p);
  c_edges : forall e, e ∈ wf_edges w ->
    is_Some (m !! edge_from e) /\ forall c, edge_to e = Some c -> is_Some (m !! c);
  c_refs : forall owner k p, refs !! owner = Some k -> p ∈ k ->
    is_Some (m !! ref_node_id (reference p)) /\
    (ref_node_id (reference p) = owner \/ tc (upstream_step (graph_of w m)) (ref_node_id (reference p)) owner) /\
    forall schema, schemas !! ref_node_id (reference p) = Some schema ->
      is_Some (schema_at_path (wf_defs w) schema (ref_field_path (reference p)));
  c_reachable : forall id, is_Some (m !! id) ->
    exists s, s ∈ start_nodes (graph_of w m) /\ rtc (succ (graph_of w m)) s id;
  c_terminal : exists s t, s ∈ start_nodes (graph_of w m) /\ rtc (succ (graph_of w m)) s t /\
    t ∈ terminal_from (graph_of w m);
  c_steps : wf_steps w <> [];
  c_cycles : forall component, component ∈ default [] (strongly_connected_components (graph_of w m)) ->
    is_cycle (graph_of w m) component = true -> bounded_component m component = true;
  c_subjects : forall s, s ∈ wf_steps w -> step_type s = HumanConfirm -> is_Some (step_subject_ref s);
  c_branches : forall n, n ∈ wf_nodes w -> forall b p source values value, n = Branch b ->
    ref_parse (br_on b) = Some p -> schema_of_ref (wf_defs w) schemas p = Some source ->
    schema_enum_values (wf_defs w) source = Some values -> value ∈ values -> value ∈ (br_paths b).*1;
  c_modes : forall s, s ∈ wf_steps w -> step_output_mode s <> OutSingle ->
    is_Some (schema_at_path (wf_defs w) (step_output_schema s) ["element_schema"]);
  c_loops : forall n, n ∈ wf_nodes w -> forall f p, n = ForEach f -> ref_parse (fe_items f) = Some p ->
    fe_steps f <> [] /\
    (NoDup (step_id <$> wf_steps w) ->
       exists s, s ∈ wf_steps w /\ step_id s = ref_node_id p /\ step_output_mode s <> OutSingle) /\
    forall id, id ∈ fe_steps f -> exists s, m !! id = Some (EStep s)
}.

Lemma analyze_checked w report context :
  analyze_workflow number_eqb depth w = Some (report, context) -> clean report ->
  exists m schemas refs, checked w m schemas refs /\ context = mkContext (graph_of w m) schemas refs.
Proof.
  unfold analyze_workflow. intros Ha Hc.
  destruct (build_node_map _ _) as [m r1] eqn:Em. destruct (from_definition _ _ _) as [g r2] eqn:Eg.
  destruct (build_output_schemas _ _ _) as [schemas r3] eqn:Es. destruct (collect_references _ _) as [refs r4] eqn:Er.
  apply bind_Some in Ha as (r5 & Erefs & (r6 & Esubj & (r7 & Eskip & [= <- <-])%bind_Some)%bind_Some).
  destruct (clean_fold _ _ _ _ (fun r n => validate_for_each_clean w m r n) Hc) as [Hc1 Hloops].
  destruct (clean_fold _ _ _ _ (fun r s => validate_output_mode_clean (wf_defs w) r s) Hc1) as [Hc2 Hmodes].
  apply validate_budget_clean, (validate_skip_compatibility_clean _ _ _ _ _ Eskip) in Hc2.
  destruct (clean_fold _ _ _ _ (fun r n => validate_branch_clean (wf_defs w) schemas r n) Hc2) as [Hc3 Hbranches].
  destruct (clean_fold_opt _ _ _ _ _ (fun r s r' => validate_subject_ref_clean number_eqb depth (wf_defs w) schemas r s r') Esubj Hc3)
    as [(Hc4 & Hsteps & Hcycles)%validate_cycles_clean Hsubj].
  apply validate_termination_clean in Hc4 as [(Hc5 & Hreach)%validate_reachability_clean Hterm].
  destruct (validate_references_clean _ _ _ _ _ _ _ _ Erefs Hc5) as [(Hc6 & Hedges)%validate_edges_clean Hrefs].
  destruct (collect_references_clean _ _ _ _ Er Hc6) as [Hc7 Htexts].
  destruct (build_output_schemas_clean _ _ _ _ _ Es Hc7) as (Hc8 & Hschemas & Hpar).
  destruct (from_definition_clean _ _ _ _ _ Eg Hc8) as [Hc9 ->].
  destruct (build_node_map_clean _ _ _ _ Em Hc9) as (Hc10 & Hids & Hmap).
  exists m, schemas, refs. split; [|done]. split; try done; [|by apply Hschemas|by apply Htexts].
  destruct (String.eqb_spec (trim (wf_schema_version w)) ""); [by apply clean_error in Hc10|done].
Qed.

Lemma entry_node_id w id n : (id, EControl n) ∈ entries w -> n ∈ wf_nodes w /\ node_id n = id.
Proof.
  unfold entries. rewrite elem_of_app, !list_elem_of_fmap. intros [(s & [=] & _)|(n' & [= -> ->] & ?)]. done.
Qed.

Section wf.
Context w (m : gmap string NodeEntry) schemas refs (Hw : checked w m schemas refs).

Lemma checked_id id : is_Some (m !! id) <-> id ∈ node_ids w.
Proof. apply node_map_ids, Hw. Qed.

Lemma checked_start id : id ∈ start_nodes (graph_of w m) <-> starts w id.
Proof. unfold starts. by rewrite graph_of_start, checked_id. Qed.

Lemma checked_succ a c : rtc (succ (graph_of w m)) a c <-> rtc (linked w) a c.
Proof. split; apply rtc_subrel; intros x y; apply graph_of_succ. Qed.

Lemma checked_upstream a c : tc (upstream_step (graph_of w m)) a c -> tc (runs_after w) a c.
Proof.
  apply (tc_congruence id). intros x y. apply graph_of_upstream, NoDup_ids_nodes, Hw.
Qed.

Lemma checked_step id : (exists s, m !! id = Some (EStep s)) -> is_step w id.
Proof.
  intros [s Hs]. destruct (node_map_step _ _ _ _ (c_map _ _ _ _ Hw) Hs) as [Hin <-].
  by apply list_elem_of_fmap_2.
Qed.

(** The node of a cycle is in a component, which is a cycle. *)
Lemma checked_cycle a : tc (linked w) a a ->
  exists n, Branch n ∈ wf_nodes w /\ 0 < br_max_iterations n /\ rtc (linked w) a (br_id n) /\ rtc (linked w) (br_id n) a.
Proof.
  intros Ha. destruct (strongly_connected_components_aux (graph_of w m)) as (l & El & _ & Hscc & Hin).
  pose proof (c_cycles _ _ _ _ Hw) as Hcyc. rewrite El in Hcyc. simpl in Hcyc.
  destruct (tc_inv_r _ _ _ Ha) as (z & _ & Hza). destruct (tc_inv_l _ _ _ Ha) as (y & Hay & Hya).
  destruct (Hin a) as (C & HC & HaC).
  { apply elem_of_dom. pose proof (proj2 (graph_of_links w m z a)) as Hi.
    destruct (incoming (graph_of w m) !! a); [done|]. by apply Hi, not_elem_of_empty in Hza. }
  rewrite Forall_forall in Hscc. destruct (Hscc C HC) as [_ Hmut].
  assert (y ∈ C) as HyC.
  { apply (Hmut a); [done|]. rewrite !checked_succ. split; [by apply rtc_once|done]. }
  assert (is_cycle (graph_of w m) C = true) as Hc.
  { unfold is_cycle. apply orb_true_iff. destruct (decide (y = a)) as [->|Hne].
    - right. apply existsb_exists. exists a. rewrite <- list_elem_of_In, bool_decide_eq_true.
      split; [done|]. by apply graph_of_succ.
    - left. apply Nat.ltb_lt. destruct C as [|c1 [|c2 C]]; [set_solver|set_solver|simpl; lia]. }
  apply Hcyc, existsb_exists in Hc as (id & Hid%list_elem_of_In & Hb); [|done].
  destruct (m !! id) as [[s|[n|n|n]]|] eqn:Em; try done. apply (c_map _ _ _ _ Hw), entry_node_id in Em as [Hn <-].
  exists n. rewrite <- !checked_succ. apply (Hmut a) in Hid; [|done]. split_and!; [done|by apply Z.ltb_lt|apply Hid..].
Qed.

Lemma checked_well_formed : well_formed w.
Proof.
  split; try apply Hw.
  - intros e He. destruct (c_edges _ _ _ _ Hw e He) as [Hf Ht]. rewrite <- checked_id. split; [done|].
    intros c Hc. apply checked_id. auto.
  - intros owner text Ht. destruct (c_texts _ _ _ _ Hw owner text Ht) as (k & p & Hk & Hp & Hr).
    destruct (c_refs _ _ _ _ Hw owner k p Hk Hp) as (Hin & Hup & Hfield). exists (reference p).
    split_and!; [done|by apply checked_id|destruct Hup; auto using checked_upstream|].
    intros (s & Hid & Hs)%list_elem_of_fmap. destruct (Hfield (step_output_schema s)) as [schema Hschema].
    { rewrite Hid. by apply (c_schemas _ _ _ _ Hw). }
    exists schema, s. done.
  - intros id Hid. apply checked_id, (c_reachable _ _ _ _ Hw) in Hid as (s & Hs & Hr).
    exists s. by rewrite <- checked_start, <- checked_succ.
  - destruct (c_terminal _ _ _ _ Hw) as (s & t & Hs & Hr & (e & ? & <- & ?)%graph_of_terminal).
    exists s, e. by rewrite <- checked_start, <- checked_succ.
  - apply checked_cycle.
  - intros [n|n|n] id Hn Hid; simpl in Hid; [by apply elem_of_nil in Hid|by eapply checked_step, Hw|].
    destruct (ref_parse (fe_items n)) as [p|] eqn:Ep.
    + eapply checked_step, (c_loops _ _ _ _ Hw); done.
    + destruct (c_texts _ _ _ _ Hw (fe_id n) (fe_items n)) as (k & p & _ & _ & Hp); [|congruence].
      right. exists (ForEach n). split_and!; [done|done|by left].
  - intros n Hn. destruct (c_texts _ _ _ _ Hw (fe_id n) (fe_items n)) as (k & p & _ & _ & Hp).
    { right. exists (ForEach n). split_and!; [done|done|by left]. }
    destruct (c_loops _ _ _ _ Hw _ Hn n (reference p) eq_refl Hp) as (Hne & Hs & _). split; [done|].
    destruct (Hs (NoDup_ids_steps _ (c_ids _ _ _ _ Hw))) as (s & ? & ? & ?). by exists (reference p), s.
  - intros n r schema values value Hn Hr (s & Hs & Hid & Hschema) Hv. eapply (c_branches _ _ _ _ Hw); [done..| |done].
    unfold schema_of_ref. rewrite <- Hid, (c_schemas _ _ _ _ Hw) by done. done.
Qed.
End wf.

(** C6: a definition the analysis reports no error of is well formed: its ids
    are unique, its edges join nodes, each of its references parses and goes to a
    step or control node that is linked to run before the one it is in (or to
    that one), every node can be reached from a start node and some path ends,
    each cycle shares its strongly connected component with a branch that counts
    its iterations, scopes hold steps, loops go over what a step gives piece by
    piece, and branches on an enumerated value have a path for each value. *)
Theorem accepted_workflow_wf w report context :
  analyze_workflow number_eqb depth w = Some (report, context) -> has_errors report = false -> well_formed w.
Proof.
  intros Ha Hc%has_errors_clean. destruct (analyze_checked _ _ _ Ha Hc) as (m & schemas & refs & Hw & _).
  by eapply checked_well_formed.
Qed.
End accepted.

(** [wmap] of a function that gives a value wherever [P] holds. *)
Lemma wmap_Forall {A B} (f : A -> wresult B) (Q : A -> B -> Prop) l :
  Forall (fun x => exists y, f x = inr y /\ Q x y) l -> exists k, wmap f l = inr k /\ Forall2 Q l k.
Proof.
  induction 1 as [|x l (y & Hy & HQ) _ (k & Hk & HF)]; simpl; [by exists []|].
  rewrite Hy. simpl. rewrite Hk. simpl. eexists. split; [done|]. by constructor.
Qed.

Section facts.
Context {Number : Type} (sha256_hex : string -> string).
Abbreviation Value := (Value Number).
Implicit Types (w : WorkflowDefinition Number) (v : Value).

(** ** Templates *)

(** The references of a template and of an expression. *)
Fixpoint template_refs (t : ValueTemplate Number) : list RefPath :=
  match t with
  | Literal _ => []
  | Reference r => [r]
  | TArray l => concat (template_refs <$> l)
  | TObject m => concat ((fun kt => template_refs kt.2) <$> m)
  end.

Definition expr_refs (e : Expr Number) : list RefPath :=
  match e with
  | Apply _ _ params _ _ _ _ => concat ((fun kt => template_refs kt.2) <$> params)
  | Match on _ _ => [on]
  | Par _ _ => []
  | Map collection _ _ _ _ => [collection]
  | Await _ subject _ _ => option_list subject
  end.

(** Every reference comes from a text of [ts]. *)
Definition refs_from (ts : list string) (rs : list RefPath) : Prop :=
  forall r, r ∈ rs -> exists text, text ∈ ts /\ ref_parse text = Some r.
Definition parse_all (ts : list string) : Prop := forall text, text ∈ ts -> is_Some (ref_parse text).

Lemma refs_from_concat {A B} (ts : A -> list string) (rs : B -> list RefPath) l k :
  Forall2 (fun x y => refs_from (ts x) (rs y)) l k ->
  refs_from (concat (ts <$> l)) (concat (rs <$> k)).
Proof.
  induction 1 as [|x y l k Hxy _ IH]; csimpl; [by intros r ?%elem_of_nil|].
  intros r [Hr|Hr]%elem_of_app; [destruct (Hxy r Hr) as (t & ? & ?)|destruct (IH r Hr) as (t & ? & ?)];
    exists t; rewrite elem_of_app; auto.
Qed.

Definition value_texts v : list string := List.filter (starts_with "${") (texts v).

Lemma filter_concat {A} (p : A -> bool) (l : list (list A)) :
  List.filter p (concat l) = concat (List.filter p <$> l).
Proof. induction l as [|x l IH]; csimpl; [done|]. by rewrite List.filter_app, IH. Qed.

Lemma value_texts_array l : value_texts (VArray l) = concat (value_texts <$> l).
Proof. unfold value_texts. cbn [texts]. by rewrite filter_concat, <- list_fmap_compose. Qed.
Lemma value_texts_object m : value_texts (VObject m) = concat ((fun kv : string * Value => value_texts kv.2) <$> m).
Proof. unfold value_texts. cbn [texts]. by rewrite filter_concat, <- list_fmap_compose. Qed.

Lemma parse_all_concat {A} (ts : A -> list string) l :
  parse_all (concat (ts <$> l)) -> Forall (fun x => parse_all (ts x)) l.
Proof.
  intros Hp. apply Forall_forall. intros x Hx text Ht. apply Hp, list_elem_of_In, in_concat.
  exists (ts x). rewrite <- !list_elem_of_In. split; [by apply list_elem_of_fmap_2|done].
Qed.

Definition compile_entry (kv : string * Value) : wresult (string * ValueTemplate Number) :=
  let '(k, v) := kv in wbind (compile_value_template v) (fun t => inr (k, t)).

Lemma compile_entries m :
  Forall (fun kv => exists t, compile_value_template kv.2 = inr t /\ refs_from (value_texts kv.2) (template_refs t)) m ->
  exists k, wmap compile_entry m = inr k /\
    Forall2 (fun (kv : string * Value) (kt : string * ValueTemplate Number) =>
      refs_from (value_texts kv.2) (template_refs kt.2)) m k.
Proof.
  intros Hm. apply wmap_Forall. eapply Forall_impl; [exact Hm|]. intros [k v] (t & Ht & Hr).
  exists (k, t). simpl in *. by rewrite Ht.
Qed.

Lemma compile_value_template_spec v :
  parse_all (value_texts v) ->
  exists t, compile_value_template v = inr t /\ refs_from (value_texts v) (template_refs t).
Proof.
  induction v as [|b|n|s|l IH|m IH] using Value_nested_ind; intros Hp;
    try (eexists; split; [reflexivity|by intros r ?%elem_of_nil]).
  - unfold value_texts in *. cbn [texts List.filter compile_value_template] in *.
    destruct (starts_with "${" s) eqn:Es; [|eexists; split; [reflexivity|by intros r ?%elem_of_nil]].
    destruct (Hp s) as [r Hr]; [by left|]. rewrite Hr. exists (Reference r). split; [done|].
    intros r' ->%list_elem_of_singleton. exists s. split; [by left|done].
  - rewrite value_texts_array in *. apply parse_all_concat in Hp.
    destruct (wmap_Forall compile_value_template (fun v t => refs_from (value_texts v) (template_refs t)) l) as (k & Hk & HF).
    { apply Forall_forall. intros v Hv. rewrite Forall_forall in IH. apply IH; [done|].
      rewrite Forall_forall in Hp. by apply Hp. }
    exists (TArray k). cbn [compile_value_template]. rewrite Hk. split; [done|]. by apply refs_from_concat.
  - rewrite value_texts_object in *. apply parse_all_concat in Hp.
    destruct (compile_entries m) as (k & Hk & HF).
    { apply Forall_forall. intros v Hv. rewrite Forall_forall in IH. apply IH; [done|].
      rewrite Forall_forall in Hp. by apply Hp. }
    exists (TObject k). cbn [compile_value_template]. fold compile_entry. rewrite Hk. split; [done|].
    by apply (refs_from_concat (fun kv : string * Value => value_texts kv.2) (fun kt => template_refs kt.2)).
Qed.

Lemma compile_params_spec input :
  parse_all (from_option value_texts [] input) ->
  exists params, compile_params input = inr params /\
    refs_from (from_option value_texts [] input) (concat ((fun kt => template_refs kt.2) <$> params)).
Proof.
  destruct input as [v|]; simpl; [|intros _; exists []; split; [done|by intros r ?%elem_of_nil]].
  intros Hp. assert (Hone : (forall m, v <> VObject m) -> exists params,
    wbind (compile_value_template v) (fun t => inr [("value", t)]) = (inr params : wresult _) /\
    refs_from (value_texts v) (concat ((fun kt => template_refs kt.2) <$> params))).
  { intros _. destruct (compile_value_template_spec v Hp) as (t & -> & Hr). eexists. split; [reflexivity|].
    csimpl. by rewrite app_nil_r. }
  destruct v as [|b|n|s|l|m]; try by apply Hone. clear Hone.
  rewrite value_texts_object in *. apply parse_all_concat in Hp. destruct (compile_entries m) as (k & Hk & HF).
  { eapply Forall_impl; [exact Hp|]. intros kv. apply compile_value_template_spec. }
  exists k. split; [exact Hk|].
  by apply (refs_from_concat (fun kv : string * Value => value_texts kv.2) (fun kt => template_refs kt.2)).
Qed.

(** ** Steps *)

(** How the executor of a step stops the compiler. *)
Definition executor_error (s : StepDefinition Number) (e : WorkflowError) : Prop :=
  step_type s = Autonomous /\
  ((step_executor s = None /\ e = Serialization ("autonomous step `" +:+ step_id s +:+ "` requires executor")) \/
   exists raw, step_executor s = Some raw /\ executor_parse raw = None /\ e = UnknownExecutorNamespace (step_id s) raw).

Lemma compile_step_spec (s : StepDefinition Number) :
  parse_all (step_ref_texts s) ->
  match compile_step sha256_hex s with
  | inr expr => refs_from (step_ref_texts s) (expr_refs expr) /\ forall e, ~ executor_error s e
  | inl e => executor_error s e
  end.
Proof.
  intros Hp. unfold compile_step, executor_error.
  assert (Hawait : forall kind : AwaitKind, refs_from (step_ref_texts s)
    (expr_refs (Await kind (step_subject_ref s ≫= ref_parse) (step_prompt s) (step_output_schema s)))).
  { intros kind r. simpl. destruct (step_subject_ref s) as [t|] eqn:Et; [|by intros ?%elem_of_nil]. simpl.
    destruct (ref_parse t) as [r'|] eqn:Er; [|by intros ?%elem_of_nil]. intros ->%list_elem_of_singleton.
    exists t. split; [|done]. unfold step_ref_texts. rewrite Et. set_solver. }
  destruct (step_type s) eqn:Et; [|split; [apply Hawait|by intros e []]..].
  destruct (step_executor s) as [raw|]; [|by split; [|left]].
  destruct (executor_parse raw) as [e|] eqn:Ee; [|split; [done|]; right; by exists raw].
  destruct (compile_params_spec (step_input s)) as (params & -> & Hr).
  { intros t Ht. apply Hp. unfold step_ref_texts, value_texts in *. destruct (step_input s); [|by apply elem_of_nil in Ht].
    apply elem_of_app. by left. }
  simpl. split; [|naive_solver]. intros r Hin. destruct (Hr r Hin) as (t & Ht & ?). exists t. split; [|done].
  unfold step_ref_texts, value_texts in *. destruct (step_input s); [|by apply elem_of_nil in Ht].
  apply elem_of_app. by left.
Qed.

(** A node that stands under its id and refers to what its definition does. *)
Definition faithful_node w (id : string) (node : CompiledNode Number) : Prop :=
  cn_id node = id /\ forall r, r ∈ expr_refs (cn_expr node) -> exists text, ref_texts w id text /\ ref_parse text = Some r.

Lemma compile_steps_spec w l nodes :
  (forall s, s ∈ l -> s ∈ wf_steps w /\ parse_all (step_ref_texts s)) ->
  (forall id node, nodes !! id = Some node -> faithful_node w id node) ->
  match compile_steps sha256_hex l nodes with
  | inl e => exists s, s ∈ l /\ executor_error s e
  | inr nodes' => (forall id, is_Some (nodes' !! id) <-> is_Some (nodes !! id) \/ id ∈ (step_id <$> l)) /\
      (forall id node, nodes' !! id = Some node -> faithful_node w id node) /\
      forall s e, s ∈ l -> ~ executor_error s e
  end.
Proof.
  revert nodes. induction l as [|s l IH]; intros nodes Hl Hn; csimpl; [set_solver|].
  destruct (Hl s) as [Hs Hp]; [by left|]. pose proof (compile_step_spec s Hp) as Hstep.
  destruct (compile_step sha256_hex s) as [e|expr]; simpl; [exists s; split; [by left|done]|].
  destruct Hstep as [Hrefs Hok]. set (node := mkNodeC _ _ _ _ _ _).
  specialize (IH (<[step_id s := node]> nodes)).
  destruct (compile_steps sha256_hex l _) as [e|nodes'].
  - destruct IH as (s' & ? & ?); [set_solver| |exists s'; split; [by right|done]].
    intros id n' [[<- <-]|[? ?]]%lookup_insert_Some; [|by apply Hn].
    split; [done|]. intros r Hr. destruct (Hrefs r Hr) as (t & ? & ?). exists t. split; [left; by exists s|done].
  - destruct IH as (Hdom & Hf & Herr); [set_solver| |split_and!].
    + intros id n' [[<- <-]|[? ?]]%lookup_insert_Some; [|by apply Hn].
      split; [done|]. intros r Hr. destruct (Hrefs r Hr) as (t & ? & ?). exists t. split; [left; by exists s|done].
    + intros id. rewrite Hdom, elem_of_cons. destruct (decide (id = step_id s)) as [->|Hne];
        [rewrite lookup_insert_eq; split; eauto|rewrite lookup_insert_ne by done; tauto].
    + done.
    + intros s' e [->|Hs']%elem_of_cons; [apply Hok|by apply Herr].
Qed.

Lemma compile_control_node_spec w n :
  parse_all (control_ref_texts n) ->
  exists name expr schema, compile_control_node n w = inr (node_id n, name, expr, schema) /\
    refs_from (control_ref_texts n) (expr_refs expr).
Proof.
  intros Hp. destruct n as [n|n|n]; simpl.
  - destruct (Hp (br_on n)) as [r Hr]; [by left|]. unfold ref_or_invalid. rewrite Hr.
    eexists _, _, _. split; [reflexivity|]. intros r' ->%list_elem_of_singleton. exists (br_on n). split; [by left|done].
  - eexists _, _, _. split; [reflexivity|]. by intros r' ?%elem_of_nil.
  - destruct (Hp (fe_items n)) as [r Hr]; [by left|]. unfold ref_or_invalid. rewrite Hr.
    eexists _, _, _. split; [reflexivity|]. intros r' ->%list_elem_of_singleton. exists (fe_items n). split; [by left|done].
Qed.

Lemma compile_controls_spec w l nodes :
  (forall n, n ∈ l -> n ∈ wf_nodes w /\ parse_all (control_ref_texts n)) ->
  (forall id node, nodes !! id = Some node -> faithful_node w id node) ->
  exists nodes', compile_controls w l nodes = inr nodes' /\
    (forall id, is_Some (nodes' !! id) <-> is_Some (nodes !! id) \/ id ∈ (node_id <$> l)) /\
    forall id node, nodes' !! id = Some node -> faithful_node w id node.
Proof.
  revert nodes. induction l as [|n l IH]; intros nodes Hl Hn; csimpl; [exists nodes; set_solver|].
  destruct (Hl n) as [Hin Hp]; [by left|].
  destruct (compile_control_node_spec w n Hp) as (name & expr & schema & -> & Hrefs). simpl.
  destruct (IH (<[node_id n := mkNodeC (node_id n) name expr (Some schema) false true]> nodes)) as (nodes' & -> & Hdom & Hf);
    [set_solver| |].
  { intros id n' [[<- <-]|[? ?]]%lookup_insert_Some; [|by apply Hn]. split; [done|].
    intros r Hr. destruct (Hrefs r Hr) as (t & ? & ?). exists t. split; [right; by exists n|done]. }
  exists nodes'. split_and!; [done| |done]. intros id. rewrite Hdom, elem_of_cons.
  destruct (decide (id = node_id n)) as [->|Hne]; [rewrite lookup_insert_eq; split; eauto|rewrite lookup_insert_ne by done; tauto].
Qed.
End facts.
