(* ===== verification/WfSchemaFacts.v ===== *)
(** The functions on schemas end where the references between the definitions
    of a workflow do not come back to themselves. *)
From Stdlib Require Import ZArith Lia Ascii Sorted Permutation.
From stdpp Require Import base tactics numbers gmap strings sorting list relations.
From S2P Require Import Prelude RustString WfJson WfTypes WfSchema WfGraphLinks.

(** ** Enough depth *)

(** From some depth on. *)
Definition eventually (P : nat -> Prop) : Prop := exists n, forall d, (n <= d)%nat -> P d.

Lemma eventually_and P Q : eventually P -> eventually Q -> eventually (fun d => P d /\ Q d).
Proof. intros [n Hn] [k Hk]. exists (Nat.max n k). intros d Hd. split; [apply Hn|apply Hk]; lia. Qed.

Lemma eventually_impl (P Q : nat -> Prop) : (forall d, P d -> Q d) -> eventually P -> eventually Q.
Proof. intros HPQ [n Hn]. exists n. auto. Qed.

Lemma eventually_list {A} (P : A -> nat -> Prop) (l : list A) :
  (forall x, x ∈ l -> eventually (P x)) -> eventually (fun d => forall x, x ∈ l -> P x d).
Proof.
  induction l as [|x l IH]; intros Hl; [exists 0%nat; set_solver|].
  eapply eventually_impl; [|apply eventually_and; [apply (Hl x); by left|apply IH; intros y Hy; apply Hl; by right]].
  simpl. intros d [Hx Hy] y [->|?]%elem_of_cons; auto.
Qed.

Lemma max_list_lt (l : list nat) n k : n ∈ l -> (max_list l < k)%nat -> (n < k)%nat.
Proof. intros Hn%max_list_elem_of_le. lia. Qed.

Section schemas.
Context {Number : Type} (number_eqb : Number -> Number -> bool) (defs : list (string * Value Number)).
Abbreviation Value := (Value Number).
Implicit Types (v c : Value).
Local Open Scope nat_scope.

Fixpoint height v : nat :=
  match v with
  | VArray l => S (max_list (height <$> l))
  | VObject m => S (max_list ((fun kv => height kv.2) <$> m))
  | _ => 0
  end.

(** A part of a document: one of its elements or entries. *)
Definition child v c : Prop :=
  match v with
  | VArray l => c ∈ l
  | VObject m => exists k, (k, c) ∈ m
  | _ => False
  end.

Lemma child_height v c : child v c -> height c < height v.
Proof.
  destruct v as [| | | |l|m]; simpl; try done.
  - intros Hc. apply Nat.lt_succ_r, max_list_elem_of_le. by apply list_elem_of_fmap_2.
  - intros [k Hk]. apply Nat.lt_succ_r, max_list_elem_of_le. apply list_elem_of_fmap. by exists (k, c).
Qed.

Lemma child_texts v c : child v c -> texts c ⊆ texts v.
Proof.
  destruct v as [| | | |l|m]; cbn [texts child]; try done.
  - intros Hc text Ht. apply list_elem_of_In, in_concat. exists (texts c). rewrite <- !list_elem_of_In.
    split; [by apply list_elem_of_fmap_2|done].
  - intros [k Hk] text Ht. apply list_elem_of_In, in_concat. exists (texts c). rewrite <- !list_elem_of_In.
    split; [apply list_elem_of_fmap; by exists (k, c)|done].
Qed.

Lemma get_child v k c : get v k = Some c -> child v c.
Proof. destruct v; simpl; try done. intros H%map_get_elem. by exists k. Qed.

Lemma as_array_child v l c : as_array v = Some l -> c ∈ l -> child v c.
Proof. destruct v; simpl; try done. by intros [= ->]. Qed.

Lemma as_object_child v m k c : as_object v = Some m -> (k, c) ∈ m -> child v c.
Proof. destruct v; simpl; try done. intros [= ->] ?. by exists k. Qed.

(** ** References between definitions *)

(** The names of definitions that texts of a document may refer to. *)
Definition mentions v (name : string) : Prop :=
  exists text, text ∈ texts v /\ strip_prefix "#/defs/" text = Some name.

(** The definitions can be ranked so that each refers to lower ones only. *)
Definition acyclic_defs : Prop :=
  exists rank : string -> nat, forall name def name',
    map_get name defs = Some def -> mentions def name' -> rank name' < rank name.

Section ranked.
Context (rank : string -> nat).
Context (Hrank : forall name def name', map_get name defs = Some def -> mentions def name' -> rank name' < rank name).

Definition below (m : nat) v : Prop := forall name, mentions v name -> rank name < m.
Definition tallest : nat := max_list ((fun kv : string * Value => height kv.2) <$> defs).
Definition measure (m : nat) v : nat := m * S tallest + height v.

Lemma child_below m v c : child v c -> below m v -> below m c.
Proof. intros Hc Hm name (text & Ht & Hs). apply Hm. exists text. split; [by apply (child_texts v c Hc)|done]. Qed.

Lemma child_measure m v c : child v c -> measure m c < measure m v.
Proof. intros Hc%child_height. unfold measure. lia. Qed.

(** Following a reference goes down. *)
Lemma resolve_measure m v r :
  below m v -> resolve_schema defs v = Some r -> exists m', below m' r /\ measure m' r <= measure m v.
Proof.
  intros Hm. unfold resolve_schema. destruct (get v "$ref" ≫= as_str) as [text|] eqn:Et; [|intros [= ->]; by exists m].
  intros (name & Hname & Hdef)%bind_Some. exists (rank name). split; [by intros name'; apply Hrank|].
  assert (rank name < m) as Hlt.
  { apply Hm. exists text. split; [|done]. apply bind_Some in Et as (c & Hc & Ht). destruct c; try done.
    injection Ht as ->. apply (child_texts v (VString text) (get_child _ _ _ Hc)). by left. }
  assert (height r <= tallest).
  { apply max_list_elem_of_le, list_elem_of_fmap. exists (name, r). split; [done|by apply map_get_elem]. }
  unfold measure. nia.
Qed.

(** A call for a child of the resolved schema has depth left. *)
Lemma resolve_child m v r c fuel :
  below m v -> resolve_schema defs v = Some r -> child r c -> measure m v < S fuel ->
  exists m', below m' c /\ measure m' c < fuel.
Proof.
  intros Hm Hr Hc Hf. destruct (resolve_measure m v r Hm Hr) as (m' & Hm' & Hle). exists m'.
  split; [by apply (child_below m' r)|]. pose proof (child_measure m' r c Hc). lia.
Qed.

Lemma child_child m v r c c' fuel :
  below m v -> resolve_schema defs v = Some r -> child r c -> child c c' -> measure m v < S fuel ->
  exists m', below m' c' /\ measure m' c' < fuel.
Proof.
  intros Hm Hr Hc Hc' Hf. destruct (resolve_child m v r c fuel) as (m' & Hb & Hl); [done..|].
  exists m'. split; [by apply (child_below m' c)|]. pose proof (child_measure m' c c' Hc'). lia.
Qed.

Lemma any_of_total {A} (p : A -> option bool) l : (forall x, x ∈ l -> is_Some (p x)) -> is_Some (any_of p l).
Proof.
  induction l as [|x l IH]; intros Hl; simpl; [eauto|]. destruct (Hl x) as [[] ->]; [by left|..]; simpl; [eauto|].
  apply IH. intros y Hy. apply Hl. by right.
Qed.

Lemma all_of_total {A} (p : A -> option bool) l : (forall x, x ∈ l -> is_Some (p x)) -> is_Some (all_of p l).
Proof.
  induction l as [|x l IH]; intros Hl; simpl; [eauto|]. destruct (Hl x) as [[] ->]; [by left|..]; simpl; [|eauto].
  apply IH. intros y Hy. apply Hl. by right.
Qed.

Lemma accepts_null_total fuel m v :
  below m v -> measure m v < fuel -> is_Some (schema_accepts_null defs fuel v).
Proof.
  revert m v. induction fuel as [|fuel IH]; intros m v Hm Hf; [lia|]. cbn [schema_accepts_null].
  destruct (resolve_schema defs v) as [r|] eqn:Er; [|eauto].
  assert (is_Some (any_of (fun keyword => match get r keyword ≫= as_array with
    | Some branches => any_of (schema_accepts_null defs fuel) branches | None => Some false end) ["anyOf"; "oneOf"])) as Hany.
  { apply any_of_total. intros k _. destruct (get r k ≫= as_array) as [l|] eqn:El; [|eauto].
    apply any_of_total. intros c Hc. apply bind_Some in El as (a & Ha & Hl).
    destruct (child_child m v r a c fuel) as (m' & ? & ?); [done|done|by eapply get_child|by eapply as_array_child|done|].
    by eapply IH. }
  destruct (get r "type") as [[]|]; eauto.
Qed.

Lemma compatible_total fuel m actual expected :
  below m expected -> measure m expected < fuel -> is_Some (schemas_compatible defs fuel actual expected).
Proof.
  revert m actual expected. induction fuel as [|fuel IH]; intros m actual expected Hm Hf; [lia|].
  cbn [schemas_compatible]. destruct (resolve_schema defs actual) as [a|]; [|eauto].
  destruct (resolve_schema defs expected) as [e|] eqn:Ee; [|eauto].
  destruct (types_disjoint a e); [eauto|]. destruct (enum_mismatch defs a e); [eauto|].
  match goal with |- is_Some (?x ≫= _) => assert (is_Some x) as [b ->] end.
  { case_bool_decide; [|eauto]. apply all_of_total. intros x _. destruct (as_str x) as [name|]; [|eauto].
    destruct (map_get name _) as [a'|]; [|eauto]. destruct (map_get name (expected_or_empty _)) as [e'|] eqn:Ee'; [|eauto].
    unfold expected_or_empty in Ee'. destruct (get e "properties" ≫= as_object) as [props|] eqn:Ep; [|done]. simpl in Ee'.
    apply bind_Some in Ep as (p & Hp & Hprops).
    destruct (child_child m expected e p e' fuel) as (m' & ? & ?);
      [done|done|by eapply get_child|by eapply as_object_child, map_get_elem|done|]. by eapply IH. }
  simpl. destruct (negb b); [eauto|]. case_bool_decide; [|eauto].
  destruct (get a "items") as [ai|], (get e "items") as [ei|] eqn:Ei; try by eauto.
  destruct (resolve_child m expected e ei fuel) as (m' & ? & ?); [done|done|by eapply get_child|done|]. by eapply IH.
Qed.

Lemma bind2_total {A B} (x : option (option A)) (f : A -> option (option B)) :
  is_Some x -> (forall a, x = Some (Some a) -> is_Some (f a)) -> is_Some (bind2 x f).
Proof. intros [[a|] ->] Hf; simpl; eauto. Qed.

Lemma normalize_entries_total norm m :
  (forall k v, (k, v) ∈ m -> is_Some (norm v)) -> is_Some (normalize_entries (Number := Number) norm m).
Proof.
  induction m as [|[k v] m IH]; intros Hm; simpl; [eauto|]. apply bind2_total; [apply (Hm k); by left|].
  intros v' _. apply bind2_total; [apply IH; intros; eapply Hm; by right|eauto].
Qed.

Lemma normalize_total fuel m v : below m v -> measure m v < fuel -> is_Some (normalize_schema defs fuel v).
Proof.
  revert m v. induction fuel as [|fuel IH]; intros m v Hm Hf; [lia|]. cbn [normalize_schema].
  destruct (resolve_schema defs v) as [r|] eqn:Er; [|eauto]. destruct r as [| | | | |o] eqn:Eo; try by eauto.
  rewrite <- Eo in Er. apply bind2_total.
  - destruct (map_get "properties" o ≫= as_object) as [props|] eqn:Ep; [|eauto]. apply bind2_total; [|eauto].
    apply bind_Some in Ep as (p & Hp & Hprops). apply normalize_entries_total. intros k c Hc.
    destruct (child_child m v r p c fuel) as (m' & ? & ?);
      [done|done|subst r; by eapply (get_child (VObject o))|by eapply as_object_child|done|]. by eapply IH.
  - intros o' Ho'. destruct (map_get "items" o') as [items|] eqn:Ei; [|eauto]. apply bind2_total; [|eauto].
    assert (map_get "items" o = Some items) as Hi.
    { destruct (map_get "properties" o ≫= as_object) as [props|]; [|by injection Ho' as ->].
      destruct (normalize_entries _ props) as [[ps|]|]; simpl in Ho'; try done. injection Ho' as <-.
      by rewrite map_get_insert in Ei. }
    destruct (resolve_child m v r items fuel) as (m' & ? & ?);
      [done|done|subst r; by eapply (get_child (VObject o))|done|]. by eapply IH.
Qed.

(** Every document is below some rank. *)
Lemma below_exists v : exists m, below m v.
Proof.
  exists (S (max_list (rank <$> omap (strip_prefix "#/defs/") (texts v)))). intros name (text & Ht & Hs).
  apply Nat.lt_succ_r, max_list_elem_of_le, list_elem_of_fmap_2, list_elem_of_omap. eauto.
Qed.
End ranked.

Lemma accepts_null_eventually v : acyclic_defs -> eventually (fun d => is_Some (schema_accepts_null defs d v)).
Proof.
  intros [rank Hr]. destruct (below_exists rank v) as [m Hm]. exists (S (measure m v)). intros d Hd.
  by eapply (accepts_null_total rank Hr).
Qed.

Lemma compatible_eventually actual expected :
  acyclic_defs -> eventually (fun d => is_Some (schemas_compatible defs d actual expected)).
Proof.
  intros [rank Hr]. destruct (below_exists rank expected) as [m Hm]. exists (S (measure m expected)). intros d Hd.
  by eapply (compatible_total rank Hr).
Qed.

Lemma normalize_eventually v : acyclic_defs -> eventually (fun d => is_Some (normalize_schema defs d v)).
Proof.
  intros [rank Hr]. destruct (below_exists rank v) as [m Hm]. exists (S (measure m v)). intros d Hd.
  by eapply (normalize_total rank Hr).
Qed.

Lemma equal_eventually l r : acyclic_defs -> eventually (fun d => is_Some (schemas_equal number_eqb defs d l r)).
Proof.
  intros Ha. unfold schemas_equal. eapply eventually_impl; [|apply eventually_and;
    [apply (normalize_eventually (default VNull (resolve_schema defs l)) Ha)
    |apply (normalize_eventually (default VNull (resolve_schema defs r)) Ha)]].
  simpl. intros d [[[l'|] ->] [x Hx]]; [|eauto]. rewrite Hx. destruct x; eauto.
Qed.
End schemas.
