(* ===== verification/WfTheorems.v ===== *)
(** What holds of the workflow language, its analysis and its compiler. *)
From Stdlib Require Import ZArith Lia Ascii Sorted Permutation Floats.SpecFloat.
From stdpp Require Import base tactics numbers gmap strings sorting list relations.
From S2P Require Import Prelude RustString Lists WfJson WfTypes WfSchema WfGraph WfGraphFacts WfTarjan WfAnalysis.
From S2P Require Import WfCompile WfGraphLinks WfAnalysisFacts WfCompileFacts WfSchemaFacts.

(** ** References *)

(** The parser of references takes exactly the strings that printing a
    reference gives, with a node that is not empty and parts without dots, and
    gives that reference. *)
Theorem ref_parse_exact raw r : ref_parse raw = Some r <-> ref_wf r /\ ref_as_string r = raw.
Proof.
  rewrite ref_as_string_eq. split.
  - unfold ref_parse. destruct raw as [|[[][][][][][][][]] raw]; try done.
    destruct raw as [|[[][][][][][][][]] rest]; try done. intros (inner & ->%strip_brace_Some & Hs)%bind_Some. pose proof (split_on_no_char DOT inner) as Hall.
    pose proof (join_split DOT inner) as Hjoin. revert Hs.
    destruct (split_on DOT inner) as [|node [|out fields]]; [done..|].
    destruct (String.eqb_spec out "output") as [->|Hout].
    + destruct (String.eqb_spec node "") as [|Hne]; [done|]. intros [= <-]. cbn [ref_node_id ref_field_path].
      apply Forall_cons in Hall as [? [? ?]%Forall_cons]. split; [by split_and!|].
      change (String DOT "") with "." in Hjoin. by rewrite Hjoin.
    + intros Hs. exfalso. revert Hs. clear -Hout. repeat case_match; congruence.
  - intros [(Hne & Hn & Hf) <-]. assert (split_on DOT (join "." (ref_node_id r :: "output" :: ref_field_path r)) =
      ref_node_id r :: "output" :: ref_field_path r) as Hs by (apply split_join; [done|by repeat constructor]).
    revert Hs. generalize (join "." (ref_node_id r :: "output" :: ref_field_path r)) as inner. intros inner Hs.
    change (ref_parse (String "$" (String "{" (inner +:+ "}"))) = Some r). unfold ref_parse. rewrite strip_brace_app.
    cbn. rewrite Hs. apply String.eqb_neq in Hne as ->. by destruct r.
Qed.

(** ** The analysis and the compiler *)

Section compiler.
Context {Number : Type} (number_eqb : Number -> Number -> bool) `{Printing} (depth : nat).
Context (sha256_hex : string -> string).
Implicit Types w : WorkflowDefinition Number.

(** What the compiler promises of the workflow it gives. *)
Record compiled_from w (cw : CompiledWorkflow Number) : Prop := {
  cf_nodes : forall id, is_Some (cw_nodes cw !! id) <-> id ∈ node_ids w;
  cf_ids : forall id node, cw_nodes cw !! id = Some node -> cn_id node = id;
  (** a node refers to nodes that are linked to run before it, or to itself *)
  cf_refs : forall id node r, cw_nodes cw !! id = Some node -> r ∈ expr_refs (cn_expr node) ->
    is_Some (cw_nodes cw !! ref_node_id r) /\ (ref_node_id r = id \/ tc (runs_after w) (ref_node_id r) id);
  cf_graph : forall a c, c ∈ successors (cw_graph cw) a <-> linked w a c;
  cf_dependencies : forall a c, a ∈ dependencies (cw_graph cw) c <-> linked w a c;
  cf_starts : forall id, id ∈ start_nodes (cw_graph cw) <-> starts w id
}.

Lemma checked_parse w m schemas refs :
  checked w m schemas refs ->
  (forall s, s ∈ wf_steps w -> s ∈ wf_steps w /\ parse_all (step_ref_texts s)) /\
  (forall n, n ∈ wf_nodes w -> n ∈ wf_nodes w /\ parse_all (control_ref_texts n)).
Proof.
  intros Hw. split.
  - intros s Hs. split; [done|]. intros text Ht.
    destruct (c_texts _ _ _ _ Hw (step_id s) text) as (k & p & _ & _ & ->); [left; by exists s|eauto].
  - intros n Hn. split; [done|]. intros text Ht.
    destruct (c_texts _ _ _ _ Hw (node_id n) text) as (k & p & _ & _ & ->); [right; by exists n|eauto].
Qed.

Lemma checked_compiled w m schemas refs nodes ws :
  checked w m schemas refs -> (forall id, is_Some (nodes !! id) <-> id ∈ node_ids w) ->
  (forall id node, nodes !! id = Some node -> faithful_node w id node) ->
  compiled_from w (mkCompiled (wf_schema_version w) (wf_id w) (wf_name w) w nodes (graph_of w m) ws).
Proof.
  intros Hw Hdom Hf. pose proof (checked_well_formed _ _ _ _ Hw) as Hwf. split; simpl.
  - done.
  - intros id node Hn. by apply Hf.
  - intros id node r Hn Hr. destruct (Hf id node Hn) as [_ Hrefs]. destruct (Hrefs r Hr) as (text & Ht & Hp).
    destruct (wf_refs _ Hwf id text Ht) as (r' & Hr' & Hin & Hup & _). rewrite Hp in Hr'. injection Hr' as <-.
    split; [by apply Hdom|done].
  - intros a c. apply graph_of_succ.
  - intros a c. unfold dependencies. rewrite elem_of_btree_set. apply graph_of_links.
  - intros id. eapply checked_start; done.
Qed.

Lemma compile_result w :
  match compile_workflow number_eqb depth sha256_hex w with
  | None => analyze_workflow number_eqb depth w = None
  | Some (inl (Analysis report)) =>
    has_errors report = true /\ exists context, analyze_workflow number_eqb depth w = Some (report, context)
  | Some (inl e) => well_formed w /\ exists s, s ∈ wf_steps w /\ executor_error s e
  | Some (inr (cw, _)) => well_formed w /\ (forall s e, s ∈ wf_steps w -> ~ executor_error s e) /\ compiled_from w cw
  end.
Proof.
  unfold compile_workflow. destruct (analyze_workflow number_eqb depth w) as [[report context]|] eqn:Ea; simpl; [|done].
  destruct (has_errors report) eqn:He; [by eauto|]. apply has_errors_clean in He.
  destruct (analyze_checked _ _ _ _ _ Ea He) as (m & schemas & refs & Hw & ->).
  destruct (checked_parse _ _ _ _ Hw) as [Hsteps Hnodes]. pose proof (checked_well_formed _ _ _ _ Hw) as Hwf.
  pose proof (compile_steps_spec sha256_hex w (wf_steps w) ∅ Hsteps) as Hs.
  specialize (Hs ltac:(intros id node Hn; by rewrite lookup_empty in Hn)).
  destruct (compile_steps sha256_hex (wf_steps w) ∅) as [e|nodes]; simpl.
  - destruct Hs as (s & Hin & Hse). destruct e; eauto. destruct Hse as [_ [[_ [=]]|(? & _ & _ & [=])]].
  - destruct Hs as (Hdom & Hf & Herr).
    destruct (compile_controls_spec sha256_hex w (wf_nodes w) nodes Hnodes Hf) as (nodes' & -> & Hdom' & Hf'). simpl.
    split_and!; [done..|]. eapply checked_compiled; [done| |done]. intros id. rewrite Hdom', Hdom, lookup_empty.
    unfold node_ids. rewrite elem_of_app. split; [intros [[[]|]|]; auto; done|intros []; auto].
Qed.

(** C16: the analysis and the compiler agree: without analysis errors, compiling
    fails only on the executor of a step that runs by itself (it has none, or
    none of a known kind), and what it gives has one node for each id of the
    definition, the links of the definition, and only references to nodes that
    run before the one that holds them, or to that one. *)
Theorem compile_outcome w :
  match compile_workflow number_eqb depth sha256_hex w with
  | None => analyze_workflow number_eqb depth w = None
  | Some (inl (Analysis report)) =>
    has_errors report = true /\ exists context, analyze_workflow number_eqb depth w = Some (report, context)
  | Some (inl e) => well_formed w /\ exists s, s ∈ wf_steps w /\ executor_error s e
  | Some (inr (cw, _)) => well_formed w /\ (forall s e, s ∈ wf_steps w -> ~ executor_error s e) /\ compiled_from w cw
  end.
Proof. apply compile_result. Qed.

(** ** The analysis ends *)

Lemma fold_opt_eventually {A} (f : nat -> AnalysisReport -> A -> option AnalysisReport) l :
  (forall x, x ∈ l -> eventually (fun d => forall r, is_Some (f d r x))) ->
  eventually (fun d => forall r, is_Some (fold_opt (f d) r l)).
Proof.
  intros Hl. eapply eventually_impl; [|exact (eventually_list _ l Hl)]. simpl. intros d Hd.
  clear Hl. induction l as [|x l IH]; intros r; [by exists r|]. rewrite fold_opt_cons.
  destruct (Hd x) with (r := r) as [r' ->]; [by left|]. simpl. apply IH. intros y Hy. apply Hd. by right.
Qed.

Lemma eventually_true (P : nat -> Prop) : (forall d, P d) -> eventually P.
Proof. intros HP. exists 0%nat. auto. Qed.

Lemma validate_references_eventually w (m : gmap string (NodeEntry (Number := Number))) g refs schemas :
  acyclic_defs (wf_defs w) -> eventually (fun d => forall r, is_Some (validate_references d w m g refs schemas r)).
Proof.
  intros Ha. unfold validate_references.
  eapply eventually_impl; [|apply (fold_opt_eventually (fun d report step => match step_input_schema step with
    | None => Some report
    | Some input_schema => fold_opt (validate_input_schema d (wf_defs w) schemas step input_schema) report
        (List.filter (fun p => negb (bool_decide (head (json_path p) = Some "subject_ref"))) (default [] (refs !! step_id step)))
    end) (wf_steps w))].
  { simpl. intros d Hd r. apply Hd. }
  intros s _. destruct (step_input_schema s) as [schema|]; [|apply eventually_true; eauto].
  apply fold_opt_eventually. intros p _. unfold validate_input_schema.
  destruct (schema_of_ref _ _ _) as [source|]; [|apply eventually_true; eauto].
  destruct (schema_at_path _ schema _) as [expected|]; [|apply eventually_true; eauto].
  eapply eventually_impl; [|exact (compatible_eventually _ source expected Ha)].
  simpl. intros d [b ->] r. simpl. eauto.
Qed.

Lemma validate_subject_refs_eventually w schemas :
  acyclic_defs (wf_defs w) ->
  eventually (fun d => forall r, is_Some (fold_opt (validate_subject_ref number_eqb d (wf_defs w) schemas) r (wf_steps w))).
Proof.
  intros Ha. apply fold_opt_eventually. intros s _. unfold validate_subject_ref.
  case_bool_decide; [apply eventually_true; eauto|].
  destruct (step_subject_ref s) as [t|]; [|apply eventually_true; eauto].
  destruct (ref_parse t ≫= _) as [subject|]; [|apply eventually_true; eauto].
  destruct (schema_at_path _ (step_output_schema s) _) as [final|]; [|apply eventually_true; eauto].
  eapply eventually_impl; [|exact (equal_eventually number_eqb _ subject final Ha)].
  simpl. intros d [b ->] r. simpl. eauto.
Qed.

Lemma validate_skip_compatibility_eventually w refs :
  acyclic_defs (wf_defs w) -> eventually (fun d => forall r, is_Some (validate_skip_compatibility d w refs r)).
Proof.
  intros Ha. unfold validate_skip_compatibility.
  apply (fold_opt_eventually (fun d report step =>
    fold_opt (validate_skip d (wf_defs w) (step_id <$> List.filter step_skippable (wf_steps w)) step) report
      (default [] (refs !! step_id step)))).
  intros s _. apply fold_opt_eventually. intros p _. unfold validate_skip.
  case_bool_decide; [apply eventually_true; eauto|].
  destruct (step_input_schema s) as [schema|]; [|apply eventually_true; eauto].
  destruct (schema_at_path _ schema _) as [expected|]; [|apply eventually_true; eauto].
  eapply eventually_impl; [|exact (accepts_null_eventually _ expected Ha)].
  simpl. intros d [b ->] r. simpl. eauto.
Qed.

(** The analysis of a definition whose [defs] do not refer to each other in
    a circle ends: from some depth of calls on it gives its report, whatever
    cycles its graph has. *)
Theorem analysis_terminates w :
  acyclic_defs (wf_defs w) -> exists n, forall d, (n <= d)%nat -> is_Some (analyze_workflow number_eqb d w).
Proof.
  intros Ha. unfold analyze_workflow. destruct (build_node_map _ _) as [m r1], (from_definition _ _ _) as [g r2].
  destruct (build_output_schemas _ _ _) as [schemas r3], (collect_references _ _) as [refs r4].
  eapply eventually_impl; [|exact (eventually_and _ _ (validate_references_eventually w m g refs schemas Ha)
    (eventually_and _ _ (validate_subject_refs_eventually w schemas Ha) (validate_skip_compatibility_eventually w refs Ha)))].
  simpl. intros d (H1 & H2 & H3).
  destruct (H1 (validate_edges w m r4)) as [r5 ->]. simpl.
  match goal with |- context [fold_opt _ ?r _] => destruct (H2 r) as [r6 ->] end. simpl.
  match goal with |- context [validate_skip_compatibility _ _ _ ?r] => destruct (H3 r) as [r7 ->] end. simpl. eauto.
Qed.
End compiler.

(** ** The graph *)

(** C19: Tarjan's algorithm, on whatever graph, ends and gives the strongly
    connected components of the nodes: each node in one component only, each
    component all the nodes that reach each other, every node in a component. *)
Theorem scc_exact g :
  exists l, strongly_connected_components g = Some l /\ NoDup (concat l) /\
    (forall C, C ∈ l -> C <> [] /\ forall x y, x ∈ C -> (y ∈ C <-> rtc (succ g) x y /\ rtc (succ g) y x)) /\
    forall x, is_Some (incoming g !! x) -> exists C, C ∈ l /\ x ∈ C.
Proof.
  destruct (strongly_connected_components_aux g) as (l & ? & ? & Hscc & Hin). exists l. split_and!; [done..| |].
  - by rewrite Forall_forall in Hscc.
  - intros x Hx. by apply Hin, elem_of_dom.
Qed.

(** Each traversal of the graph of a definition ends within the rounds it
    is given, and answers what it is asked: the nodes that links lead to from a
    node or from the start nodes, each once; whether a path from a start node
    ends; whether a node has run when another one runs. *)
Theorem traversals_exact {Number Entry} (w : WorkflowDefinition Number) (m : gmap string Entry) :
  let g := graph_of w m in
  (forall root, exists l, downstream_from g root = Some l /\ NoDup l /\ forall n, n ∈ l <-> tc (linked w) root n) /\
  (exists l, reachable_from_starts g = Some l /\ NoDup l /\
     forall n, n ∈ l <-> exists s, s ∈ start_nodes g /\ rtc (linked w) s n) /\
  (exists b, has_terminal_path g = Some b /\
     (b = true <-> exists s e, s ∈ start_nodes g /\ rtc (linked w) s (edge_from e) /\ e ∈ wf_edges w /\ edge_to e = None)) /\
  (NoDup (node_id <$> wf_nodes w) -> forall source target, exists b, is_upstream g source target = Some b /\
     (b = true <-> source <> target /\ tc (runs_after w) source target)).
Proof.
  intros g. assert (forall a c, rtc (succ g) a c <-> rtc (linked w) a c) as Hrtc.
  { split; apply rtc_subrel; intros x y; apply graph_of_succ. }
  split_and!.
  - intros root. destruct (downstream_from_aux g root) as (l & ? & ? & Hl). exists l. split_and!; [done..|].
    intros n. rewrite Hl. split; apply (tc_congruence id); intros x y; apply graph_of_succ.
  - destruct (reachable_from_starts_aux g) as (l & ? & ? & Hl). exists l. split_and!; [done..|].
    intros n. rewrite Hl. by setoid_rewrite Hrtc.
  - destruct (has_terminal_path_aux g) as (b & ? & Hb). exists b. split; [done|]. rewrite Hb.
    setoid_rewrite Hrtc. subst g. setoid_rewrite graph_of_terminal. naive_solver.
  - intros Hnd source target. destruct (is_upstream_aux g source target) as (b & ? & Hb). exists b. split; [done|].
    rewrite Hb. split; intros [? Hc]; (split; [done|]); revert Hc; apply (tc_congruence id); intros x y; by apply graph_of_upstream.
Qed.

(** ** Definitions of an example *)

Module Examples.
#[local] Instance plain : Printing := { debug_strings := join ", "; display_f64 := fun _ => "" }.

Abbreviation Document := (Value Z).
Definition typed (name : string) : Document := VObject [("type", VString name)].
Definition verdict : Document := VObject [("enum", VArray [VString "ok"; VString "redo"]); ("type", VString "string")].
Definition object (properties : list (string * Document)) : Document :=
  VObject [("properties", VObject properties); ("type", VString "object")].

Definition step (id : string) (kind : StepType) (input : option Document) (subject : option string)
    (output : Document) : StepDefinition Z :=
  mkStep id id (Some "service::aicc.complete") kind input None output subject None true false OutSingle None.

(** A draft is planned, checked, and planned again until it is good, then
    confirmed by its reader. *)
Definition plan : Document := object [("verdict", verdict)].
Definition review (last_node : string) : WorkflowDefinition Z :=
  mkWorkflow "1" "review" "review" None VNull
    [step "draft" Autonomous None None (typed "string");
     step "plan" Autonomous (Some (VObject [("text", VString "${draft.output}")])) None plan;
     step "confirm" HumanConfirm None (Some "${plan.output}")
       (object [("final_subject", VObject [("$ref", VString "#/defs/plan")])])]
    [Branch (mkBranch "check" "${plan.output.verdict}" [("ok", "confirm"); ("redo", "plan")] 3)]
    [mkEdge "draft" (Some "plan"); mkEdge "plan" (Some "check"); mkEdge last_node None]
    None [("plan", plan)].

Lemma review_accepted :
  exists context, analyze_workflow Z.eqb 9 (review "confirm") = Some (empty_report, context).
Proof. eexists. vm_compute. reflexivity. Qed.

Lemma analysis_terminates_witness :
  acyclic_defs (wf_defs (review "confirm")) /\
  exists n, forall d, (n <= d)%nat -> is_Some (analyze_workflow Z.eqb d (review "confirm")).
Proof.
  assert (acyclic_defs (wf_defs (review "confirm"))) as Ha; [|split; [exact Ha|by apply (analysis_terminates Z.eqb)]].
  exists (fun _ => 0%nat). intros name def name' Hd (text & Ht & Hs). exfalso. simpl in Hd.
  destruct (String.eqb name "plan"); [|done]. injection Hd as <-. cbn in Ht.
  repeat (apply elem_of_cons in Ht as [->|Ht]; [by vm_compute in Hs|]). by apply elem_of_nil in Ht.
Defined.

Lemma accepted_workflow_wf_witness :
  has_errors empty_report = false /\ well_formed (review "confirm").
Proof.
  split; [reflexivity|]. destruct review_accepted as [context Ha].
  by apply (accepted_workflow_wf Z.eqb 9 _ _ _ Ha).
Defined.

(** ** Recursive schemas *)

(** A definition whose confirmed subject is a list of the kind of [next]. *)
Definition node_schema : Document := object [("next", VObject [("$ref", VString "#/defs/node")])].
Definition recursive_review : WorkflowDefinition Z :=
  mkWorkflow "1" "review" "review" None VNull
    [step "plan" Autonomous None None (VObject [("$ref", VString "#/defs/node")]);
     step "confirm" HumanConfirm None (Some "${plan.output}")
       (object [("final_subject", VObject [("$ref", VString "#/defs/node")])])]
    [] [mkEdge "plan" (Some "confirm"); mkEdge "confirm" None] None [("node", node_schema)].

Lemma normalize_recursive fuel v :
  resolve_schema [("node", node_schema)] v = Some node_schema ->
  normalize_schema [("node", node_schema)] fuel v = None.
Proof.
  revert v. induction fuel as [|fuel IH]; intros v Hv; [done|]. cbn [normalize_schema]. rewrite Hv.
  cbn -[normalize_schema]. by rewrite IH.
Qed.

(** A type that refers to itself is never compared to an end: the analysis
    of a workflow whose step is confirmed with such a subject goes deeper than
    any bound, so it gives no report, and the compiler no error. *)
Theorem recursive_schema_overflows depth sha256_hex :
  analyze_workflow Z.eqb depth recursive_review = None /\
  compile_workflow Z.eqb depth sha256_hex recursive_review = None.
Proof.
  assert (analyze_workflow Z.eqb depth recursive_review = None) as Ha; [|unfold compile_workflow; by rewrite Ha].
  assert (forall schemas r, schemas !! "plan" = Some (VObject [("$ref", VString "#/defs/node")] : Document) ->
    fold_opt (validate_subject_ref Z.eqb depth (wf_defs recursive_review) schemas) r (wf_steps recursive_review) = None) as Hnone.
  { intros schemas r Hs. cbn [wf_steps recursive_review]. rewrite fold_opt_cons.
    match goal with |- (?x ≫= _) = None => assert (x = Some r) as -> by reflexivity end.
    cbn [mbind option_bind]. rewrite fold_opt_cons.
    match goal with |- (?x ≫= _) = None => enough (x = None) as -> by done end.
    unfold validate_subject_ref. rewrite bool_decide_false by (intros Hn; by apply Hn).
    cbn [step step_subject_ref step_output_schema step_id]. change (ref_parse "${plan.output}" ≫= schema_of_ref (wf_defs recursive_review) schemas)
      with (schema_of_ref (wf_defs recursive_review) schemas (mkRef "plan" [])).
    assert (schema_of_ref (wf_defs recursive_review) schemas (mkRef "plan" []) = Some node_schema) as ->.
    { unfold schema_of_ref. simpl. by setoid_rewrite Hs. }
    cbn -[schemas_equal normalize_schema].
    unfold schemas_equal. by rewrite normalize_recursive. }
  unfold analyze_workflow.
  destruct (build_node_map _ _) as [m r1], (from_definition _ _ _) as [g r2].
  destruct (build_output_schemas _ _ _) as [schemas r3] eqn:Es, (collect_references _ _) as [refs r4].
  destruct (validate_references _ _ _ _ _ _ _) as [r5|]; [|done]. simpl. rewrite Hnone; [done|].
  unfold build_output_schemas in Es. simpl in Es. injection Es as <- _. done.
Qed.

(** ** Cycles *)

(** A loop that goes back on itself beside the one that is counted. *)
Definition spinning : WorkflowDefinition Z :=
  mkWorkflow "1" "spin" "spin" None VNull
    [step "draft" Autonomous None None (typed "string"); step "plan" Autonomous None None plan;
     step "done" Autonomous None None (typed "null")]
    [Branch (mkBranch "check" "${plan.output.verdict}" [("ok", "done"); ("redo", "plan")] 3)]
    [mkEdge "draft" (Some "plan"); mkEdge "plan" (Some "check"); mkEdge "plan" (Some "plan"); mkEdge "done" None]
    None [].

(** An accepted definition may go round without meeting a branch at all:
    the check asks for a branch that counts in each component, not on each
    cycle. *)
Theorem uncounted_cycle_accepted :
  (exists context, analyze_workflow Z.eqb 9 spinning = Some (empty_report, context)) /\
  linked spinning "plan" "plan" /\ is_step spinning "plan".
Proof.
  split; [eexists; vm_compute; reflexivity|]. split.
  - unfold linked. apply (bool_decide_eq_true_1 _). by vm_compute.
  - unfold is_step. apply (bool_decide_eq_true_1 _). by vm_compute.
Qed.
End Examples.
