(* ===== verification/WfRun.v ===== *)
(** Runs of workflows: their state ([kernel/buckyos-api/src/workflow_runtime.rs]),
    what the orchestrator calls outside of itself, and the monad of its methods.

    A method has [&mut WorkflowRun] and the vector of events it collects, and
    returns a [WorkflowResult]: the run it leaves stays when it fails.  Counters
    (events, attempts, iterations) are not wrapped. *)
From Stdlib Require Import ZArith Lia Ascii Sorted Permutation.
From stdpp Require Import base tactics numbers gmap strings sorting list.
From S2P Require Import Prelude RustString Lists WfJson WfTypes WfGraph WfAnalysis WfCompile.

(** ** The state of a run *)

Inductive RunStatus := RunCreated | RunRunning | RunWaitingHuman | RunCompleted | RunFailed | RunPaused
| RunAborted | RunBudgetExhausted.

Inductive NodeRunState := Pending | Ready | Running | Completed | Failed | Retrying | WaitingHuman | Skipped
| Aborted | Cancelled.

Inductive ParJoin := ParAll | ParAny | ParNOfM (n : Z).

#[export] Instance RunStatus_eq_dec : EqDecision RunStatus. Proof. solve_decision. Defined.
#[export] Instance NodeRunState_eq_dec : EqDecision NodeRunState. Proof. solve_decision. Defined.
#[export] Instance ParJoin_eq_dec : EqDecision ParJoin. Proof. solve_decision. Defined.

Record PendingThunk := mkThunk {
  pt_node_id : string;
  pt_thunk_obj_id : string;
  pt_attempt : Z;
  pt_shard_index : option nat
}.

Record ParState := mkPar { ps_node_id : string; ps_branches : list string; ps_join : ParJoin; ps_completed_count : Z }.

Inductive HumanActionKind := Approve | Modify | Reject | Retry | Skip | Abort | Rollback.
Inductive ThunkExecutionStatus := Waiting | Dispatched | Success | ThunkFailed | ThunkCancelled.

#[export] Instance HumanActionKind_eq_dec : EqDecision HumanActionKind. Proof. solve_decision. Defined.
#[export] Instance ThunkExecutionStatus_eq_dec : EqDecision ThunkExecutionStatus. Proof. solve_decision. Defined.

Definition action_as_str (k : HumanActionKind) : string :=
  match k with
  | Approve => "approve" | Modify => "modify" | Reject => "reject" | Retry => "retry"
  | Skip => "skip" | Abort => "abort" | Rollback => "rollback"
  end.

(** [#[serde(rename_all = "snake_case")]] *)
Definition thunk_status_str (s : ThunkExecutionStatus) : string :=
  match s with
  | Waiting => "waiting" | Dispatched => "dispatched" | Success => "success"
  | ThunkFailed => "failed" | ThunkCancelled => "cancelled"
  end.

Section run.
Context {Number : Type}.
Abbreviation Value := (Value Number).

Record MapState := mkMap {
  ms_for_each_id : string;
  ms_body_step_id : string;
  ms_items : list Value;
  ms_shard_states : list NodeRunState;
  ms_shard_outputs : list Value;
  ms_shard_attempts : list Z;
  ms_max_concurrency : Z
}.

Record WorkflowRun := mkRun {
  run_id : string;
  workflow_id : string;
  workflow_name : string;
  plan_version : Z;
  status : RunStatus;
  node_states : gmap string NodeRunState;
  node_outputs : gmap string Value;
  node_attempts : gmap string Z;
  branch_iterations : gmap string Z;
  pending_thunks : gmap string PendingThunk;
  activated_nodes : gset string;
  metrics : gmap string Value;
  human_waiting_nodes : gset string;
  map_states : gmap string MapState;
  par_states : gmap string ParState;
  seq : Z;
  created_at : Z;
  updated_at : Z
}.

Record EventEnvelope := mkEvent {
  event_id : string;
  event_type : string;
  ev_ts : string;
  ev_run_id : string;
  ev_plan_version : Z;
  ev_seq : Z;
  ev_actor : string;
  ev_node_id : option string;
  ev_payload : option Value
}.

Record HumanAction := mkAction {
  ha_node_id : string;
  ha_action : HumanActionKind;
  ha_payload : option Value;
  ha_actor : string
}.

Record ThunkExecutionResult := mkResult {
  tr_thunk_obj_id : string;
  tr_task_id : string;
  tr_status : ThunkExecutionStatus;
  tr_result_obj_id : option string;
  tr_result : option Value;
  tr_error : option string;
  tr_metrics : Value
}.

Record ThunkObject := mkThunkObject { to_fun_id : string; to_params : list (string * Value); to_metadata : Value }.

(** What the task tracker is shown ([task_tracker.rs]). *)
Record StepTaskView := mkStepView {
  sv_node_id : string;
  sv_name : string;
  sv_state : NodeRunState;
  sv_attempt : Z;
  sv_executor : option string;
  sv_subject : option Value;
  sv_subject_obj_id : option string;
  sv_prompt : option string;
  sv_output_schema : option Value;
  sv_stakeholders : list string;
  sv_progress_message : option string;
  sv_error : option string;
  sv_output : option Value;
  sv_waiting_human_since : option Z
}.

Record MapShardTaskView := mkShardView {
  mv_for_each_id : string;
  mv_shard_index : nat;
  mv_state : NodeRunState;
  mv_attempt : Z;
  mv_item : Value;
  mv_output : option Value;
  mv_error : option string
}.

Record ThunkTaskView := mkThunkView {
  tv_node_id : string;
  tv_thunk_obj_id : string;
  tv_attempt : Z;
  tv_shard_index : option nat
}.

(** ** Updates of single fields *)

Definition with_status s r := mkRun (run_id r) (workflow_id r) (workflow_name r) (plan_version r) s (node_states r)
  (node_outputs r) (node_attempts r) (branch_iterations r) (pending_thunks r) (activated_nodes r) (metrics r)
  (human_waiting_nodes r) (map_states r) (par_states r) (seq r) (created_at r) (updated_at r).
Definition on_states f r := mkRun (run_id r) (workflow_id r) (workflow_name r) (plan_version r) (status r) (f (node_states r))
  (node_outputs r) (node_attempts r) (branch_iterations r) (pending_thunks r) (activated_nodes r) (metrics r)
  (human_waiting_nodes r) (map_states r) (par_states r) (seq r) (created_at r) (updated_at r).
Definition on_outputs f r := mkRun (run_id r) (workflow_id r) (workflow_name r) (plan_version r) (status r) (node_states r)
  (f (node_outputs r)) (node_attempts r) (branch_iterations r) (pending_thunks r) (activated_nodes r) (metrics r)
  (human_waiting_nodes r) (map_states r) (par_states r) (seq r) (created_at r) (updated_at r).
Definition on_attempts f r := mkRun (run_id r) (workflow_id r) (workflow_name r) (plan_version r) (status r) (node_states r)
  (node_outputs r) (f (node_attempts r)) (branch_iterations r) (pending_thunks r) (activated_nodes r) (metrics r)
  (human_waiting_nodes r) (map_states r) (par_states r) (seq r) (created_at r) (updated_at r).
Definition on_iterations f r := mkRun (run_id r) (workflow_id r) (workflow_name r) (plan_version r) (status r) (node_states r)
  (node_outputs r) (node_attempts r) (f (branch_iterations r)) (pending_thunks r) (activated_nodes r) (metrics r)
  (human_waiting_nodes r) (map_states r) (par_states r) (seq r) (created_at r) (updated_at r).
Definition on_thunks f r := mkRun (run_id r) (workflow_id r) (workflow_name r) (plan_version r) (status r) (node_states r)
  (node_outputs r) (node_attempts r) (branch_iterations r) (f (pending_thunks r)) (activated_nodes r) (metrics r)
  (human_waiting_nodes r) (map_states r) (par_states r) (seq r) (created_at r) (updated_at r).
Definition on_activated f r := mkRun (run_id r) (workflow_id r) (workflow_name r) (plan_version r) (status r) (node_states r)
  (node_outputs r) (node_attempts r) (branch_iterations r) (pending_thunks r) (f (activated_nodes r)) (metrics r)
  (human_waiting_nodes r) (map_states r) (par_states r) (seq r) (created_at r) (updated_at r).
Definition on_metrics f r := mkRun (run_id r) (workflow_id r) (workflow_name r) (plan_version r) (status r) (node_states r)
  (node_outputs r) (node_attempts r) (branch_iterations r) (pending_thunks r) (activated_nodes r) (f (metrics r))
  (human_waiting_nodes r) (map_states r) (par_states r) (seq r) (created_at r) (updated_at r).
Definition on_humans f r := mkRun (run_id r) (workflow_id r) (workflow_name r) (plan_version r) (status r) (node_states r)
  (node_outputs r) (node_attempts r) (branch_iterations r) (pending_thunks r) (activated_nodes r) (metrics r)
  (f (human_waiting_nodes r)) (map_states r) (par_states r) (seq r) (created_at r) (updated_at r).
Definition on_maps f r := mkRun (run_id r) (workflow_id r) (workflow_name r) (plan_version r) (status r) (node_states r)
  (node_outputs r) (node_attempts r) (branch_iterations r) (pending_thunks r) (activated_nodes r) (metrics r)
  (human_waiting_nodes r) (f (map_states r)) (par_states r) (seq r) (created_at r) (updated_at r).
Definition on_pars f r := mkRun (run_id r) (workflow_id r) (workflow_name r) (plan_version r) (status r) (node_states r)
  (node_outputs r) (node_attempts r) (branch_iterations r) (pending_thunks r) (activated_nodes r) (metrics r)
  (human_waiting_nodes r) (map_states r) (f (par_states r)) (seq r) (created_at r) (updated_at r).
Definition with_seq n r := mkRun (run_id r) (workflow_id r) (workflow_name r) (plan_version r) (status r) (node_states r)
  (node_outputs r) (node_attempts r) (branch_iterations r) (pending_thunks r) (activated_nodes r) (metrics r)
  (human_waiting_nodes r) (map_states r) (par_states r) n (created_at r) (updated_at r).
Definition with_updated t r := mkRun (run_id r) (workflow_id r) (workflow_name r) (plan_version r) (status r) (node_states r)
  (node_outputs r) (node_attempts r) (branch_iterations r) (pending_thunks r) (activated_nodes r) (metrics r)
  (human_waiting_nodes r) (map_states r) (par_states r) (seq r) (created_at r) t.

Definition set_state (id : string) (s : NodeRunState) : WorkflowRun -> WorkflowRun := on_states <[id := s]>.
Definition set_output (id : string) (v : Value) : WorkflowRun -> WorkflowRun := on_outputs <[id := v]>.
Definition state_or_pending (r : WorkflowRun) (id : string) : NodeRunState := default Pending (node_states r !! id).

(** ** Outside of the orchestrator *)

(** An adapter of the executor registry ([executor_adapter.rs]). *)
Record ExecutorAdapter (world : Type) := mkAdapter {
  supports : ExecutorRef -> bool;
  invoke : ExecutorRef -> Value -> world -> world * wresult Value
}.

(** The clock, the object store, the dispatcher, the task tracker and the
    executor registry, each call with the world it leaves; and how JSON is
    written, printed for debugging and hashed. *)
Class Services := {
  world : Type;
  timestamp : world -> world * Z;
  rfc3339 : world -> world * string;
  uuid : world -> world * string;
  get_json : string -> world -> world * wresult (option Value);
  put_json : string -> Value -> world -> world * wresult string;
  put_json_with_id : string -> Value -> world -> world * wresult unit;
  schedule_thunk : string -> ThunkObject -> world -> world * wresult unit;
  cancel_thunk : string -> world -> world * wresult unit;
  sync_run : WorkflowRun -> world -> world * wresult unit;
  tracker_sync_step : WorkflowRun -> StepTaskView -> world -> world * wresult unit;
  sync_map_shard : WorkflowRun -> MapShardTaskView -> world -> world * wresult unit;
  sync_thunk : WorkflowRun -> ThunkTaskView -> world -> world * wresult unit;
  report_step_validation_error : WorkflowRun -> string -> string -> world -> world * wresult unit;
  adapters : list (ExecutorAdapter world);
  number_of : Z -> Number;
  to_json : Value -> string;
  debug_value : Value -> string;
  deterministic_object_id : string -> Value -> wresult string;
  obj_id_new : string -> string + string
}.

(** ** The monad *)

Context `{Services}.

Record orc := mkOrc { o_run : WorkflowRun; o_events : list EventEnvelope; o_world : world }.

(** How a method ends without its result: an error, an index out of range, or
    more rounds of the loop of [tick] than its model has. *)
Inductive failure := Fail (e : WorkflowError) | IndexPanic | OutOfRounds.

Definition O (A : Type) : Type := orc -> orc * (failure + A).

#[export] Instance O_ret : MRet O := fun A a s => (s, inr a).
#[export] Instance O_bind : MBind O := fun A B f m s =>
  match m s with (s, inl e) => (s, inl e) | (s, inr a) => f a s end.

Definition stop {A} (e : failure) : O A := fun s => (s, inl e).
Definition throw {A} (e : WorkflowError) : O A := stop (Fail e).
Definition lift {A} (r : wresult A) : O A := match r with inl e => throw e | inr a => mret a end.
Definition get_run : O WorkflowRun := fun s => (s, inr (o_run s)).
Definition modify (f : WorkflowRun -> WorkflowRun) : O unit :=
  fun s => (mkOrc (f (o_run s)) (o_events s) (o_world s), inr tt).
(** A call that may fail, and a reading. *)
Definition call {A} (f : world -> world * wresult A) : O A :=
  fun s => let '(w, r) := f (o_world s) in lift r (mkOrc (o_run s) (o_events s) w).
Definition read {A} (f : world -> world * A) : O A :=
  fun s => let '(w, a) := f (o_world s) in (mkOrc (o_run s) (o_events s) w, inr a).
(** [let _ = call.await;] *)
Definition ignore {A} (f : world -> world * wresult A) : O unit :=
  fun s => let '(w, _) := f (o_world s) in (mkOrc (o_run s) (o_events s) w, inr tt).
Definition some_or {A} (o : option A) (e : WorkflowError) : O A :=
  match o with Some a => mret a | None => throw e end.

(** [for x in l { .. }] *)
Fixpoint each {A} (f : A -> O unit) (l : list A) : O unit :=
  match l with
  | [] => mret tt
  | x :: l => f x ;; each f l
  end.

(** [match call.await { Ok(..) => .., Err(err) => { handler; Err(err) } }] *)
Definition on_error {A} (m : O A) (handler : WorkflowError -> O unit) : O A :=
  fun s => match m s with
           | (s, inl (Fail e)) => (handler e ;; throw e) s
           | r => r
           end.

(** A method: the events are its own. *)
Definition method (m : O unit) (r : WorkflowRun) (w : world)
  : WorkflowRun * world * (failure + list EventEnvelope) :=
  let '(s, res) := m (mkOrc r [] w) in
  (o_run s, o_world s, match res with inl e => inl e | inr _ => inr (o_events s) end).

(** ** Events *)

Definition object (l : list (string * Value)) : Value := VObject (map_of l).
Definition strings (l : list string) : Value := VArray (VString <$> l).
Definition number (n : Z) : Value := VNumber (number_of n).
Definition opt_string (o : option string) : Value := match o with Some s => VString s | None => VNull end.
Definition opt_value (o : option Value) : Value := default VNull o.

Definition push_event (e : EventEnvelope) : O unit :=
  fun s => (mkOrc (o_run s) (o_events s ++ [e]) (o_world s), inr tt).

(** [events.push(self.emit_event(run, ..))] *)
Definition emit_event (type : string) (node : option string) (actor : string) (payload : option Value) : O unit :=
  modify (fun r => with_seq (seq r + 1) r) ;;
  r ← get_run;
  id ← read uuid;
  ts ← read rfc3339;
  push_event (mkEvent ("evt-" +:+ id) type ts (run_id r) (plan_version r) (seq r) actor node payload).
End run.
Arguments WorkflowRun Number : clear implicits.
Arguments MapState Number : clear implicits.
Arguments EventEnvelope Number : clear implicits.
Arguments HumanAction Number : clear implicits.
Arguments ThunkExecutionResult Number : clear implicits.
Arguments ThunkObject Number : clear implicits.
Arguments Services Number : clear implicits.
Arguments O Number {_} A.

(** ** Texts of errors *)

(** [Display] of [WorkflowError] ([error.rs]). *)
Definition error_to_string (e : WorkflowError) : string :=
  match e with
  | Analysis _ => "workflow analysis failed"
  | InvalidReference s => "invalid reference " +:+ quoted s
  | NodeNotFound s => "node " +:+ quoted s +:+ " not found"
  | UnsupportedNode s => "node " +:+ quoted s +:+ " is not supported by the current orchestrator"
  | NodeNotWaitingHuman s => "node " +:+ quoted s +:+ " is not waiting for human input"
  | NodeNotSkippable s => "node " +:+ quoted s +:+ " is not skippable"
  | MissingPendingThunk s => "missing pending thunk for node " +:+ quoted s
  | ThunkRunMismatch s => "thunk " +:+ quoted s +:+ " does not belong to this run"
  | ReferenceResolution s => "failed to resolve reference " +:+ quoted s
  | InvalidHumanAction node action => "human action " +:+ quoted action +:+ " is invalid for node " +:+ quoted node
  | RollbackBlocked s => "rollback blocked by completed non-idempotent node " +:+ quoted s
  | Serialization s => "serialization error: " +:+ s
  | ObjectStore s => "object store error: " +:+ s
  | Dispatcher s => "dispatcher error: " +:+ s
  | TaskTracker s => "task tracker error: " +:+ s
  | ForEachItemsType node actual => "for_each " +:+ quoted node +:+ " items must resolve to an array, got " +:+ actual
  | ForEachTooManyItems node count max =>
    "for_each " +:+ quoted node +:+ " produced " +:+ u64_to_string count +:+ " items which exceeds max_items=" +:+ u64_to_string max
  | ForEachBodyNotApply node step => "for_each " +:+ quoted node +:+ " body step " +:+ quoted step +:+ " must be an Apply node"
  | MissingMapState s => "missing map state for for_each " +:+ quoted s
  | MissingParState s => "missing par state for parallel " +:+ quoted s
  | UnknownExecutorNamespace node executor =>
    "node " +:+ quoted node +:+ " has executor " +:+ quoted executor +:+ " with unknown namespace; expected one of "
    +:+ "service::/http::/appservice::/operator::/func:: or a /agent//skill//tool/ semantic path"
  | UnresolvedSemanticExecutor node executor =>
    "node " +:+ quoted node +:+ " uses semantic executor " +:+ quoted executor +:+ " which has not been resolved by "
    +:+ "the executor registry"
  | ExecutorNamespaceNotImplemented node executor namespace =>
    "node " +:+ quoted node +:+ " uses actual executor " +:+ quoted executor +:+ " whose namespace " +:+ quoted namespace +:+ " is "
    +:+ "not yet supported by an orchestrator-side adapter"
  end.
