(* ===== verification/WfOrch.v ===== *)
(** The orchestrator of workflow runs ([kernel/workflow/src/orchestrator.rs]):
    which nodes of a run are next, what each kind of node does when it is
    scheduled, and what the results of thunks and the actions of people do. *)
From Stdlib Require Import ZArith Lia Ascii Sorted Permutation.
From stdpp Require Import base tactics numbers gmap strings sorting list.
From S2P Require Import Prelude RustString Lists WfJson WfTypes WfGraph WfAnalysis WfCompile WfRun.

Section orchestrator.
Context {Number : Type} `{Services Number}.
Abbreviation Value := (Value Number).
Abbreviation WorkflowRun := (WorkflowRun Number).
Abbreviation CompiledNode := (CompiledNode Number).
Abbreviation O := (O Number).
Context (workflow : CompiledWorkflow Number).

Definition as_u32 (n : nat) : Z := Z.of_nat n mod 2 ^ 32.
Definition graph : WorkflowGraph := cw_graph workflow.
Definition node (id : string) : option CompiledNode := cw_nodes workflow !! id.
Definition require_node (id : string) : O CompiledNode := some_or (node id) (NodeNotFound id).

(** ** Values *)

Fixpoint resolve_path (current : Value) (path : list string) : option Value :=
  match path with
  | [] => Some current
  | segment :: path => current ← get current segment; resolve_path current path
  end.

Definition resolve_reference_value (run : WorkflowRun) (r : RefPath) : wresult Value :=
  match node_outputs run !! ref_node_id r ≫= fun v => resolve_path v (ref_field_path r) with
  | Some v => inr v
  | None => inl (ReferenceResolution (ref_as_string r))
  end.

Fixpoint resolve_template_value (run : WorkflowRun) (value : ValueTemplate Number) : wresult Value :=
  match value with
  | Literal v => inr v
  | Reference r => resolve_reference_value run r
  | TArray items => wbind (wmap (resolve_template_value run) items) (fun l => inr (VArray l))
  | TObject m =>
    wbind (wmap (fun kt => let '(k, t) := kt in wbind (resolve_template_value run t) (fun v => inr (k, v))) m)
      (fun l => inr (VObject (map_of l)))
  end.

Definition resolve_params (run : WorkflowRun) (params : list (string * ValueTemplate Number))
  : wresult (list (string * Value)) :=
  wbind (wmap (fun kt => let '(k, t) := kt in wbind (resolve_template_value run t) (fun v => inr (k, v))) params)
    (fun l => inr (map_of l)).

Definition resolve_apply_input (run : WorkflowRun) (compiled : CompiledNode) : wresult Value :=
  match cn_expr compiled with
  | Apply _ _ params _ _ _ _ => wbind (resolve_params run params) (fun m => inr (VObject m))
  | _ => inl (UnsupportedNode (cn_id compiled))
  end.

Definition resolve_shard_input (run : WorkflowRun) (body_node : CompiledNode) (item : Value) (index : nat) : wresult Value :=
  match cn_expr body_node with
  | Apply _ _ params _ _ _ _ =>
    wbind (resolve_params run params) (fun m =>
      inr (VObject (map_insert "_index" (number (as_u32 index)) (map_insert "_item" item m))))
  | _ => inl (UnsupportedNode (cn_id body_node))
  end.

Definition extract_items (value : Value) : option (list Value) :=
  match value with
  | VArray items => Some items
  | VObject m => map_get "items" m ≫= as_array
  | _ => None
  end.

Definition subject_for_node (run : WorkflowRun) (compiled : CompiledNode) : wresult Value :=
  match cn_expr compiled with
  | Await Confirm (Some subject) _ _ => resolve_reference_value run subject
  | Await _ _ _ _ => inr VNull
  | _ => inl (InvalidHumanAction (cn_id compiled) "subject")
  end.

(** ** Which node is next *)

Definition dependency_satisfied (run : WorkflowRun) (node_id dependency : string) : bool :=
  match node_states run !! dependency with
  | Some Completed | Some Skipped => true
  | Some Running =>
    match cn_expr <$> node dependency with
    | Some (Par branches _) => bool_decide (node_id ∈ branches)
    | Some (Map _ steps _ _ _) => bool_decide (head steps = Some node_id)
    | _ => false
    end
  | _ => false
  end.

(** The loop over the activated nodes: a node that is ready is marked so. *)
Fixpoint mark_ready (ids : list string) (run : WorkflowRun) : list string * WorkflowRun :=
  match ids with
  | [] => ([], run)
  | id :: ids =>
    if bool_decide (state_or_pending run id = Pending) && forallb (dependency_satisfied run id) (dependencies graph id)
    then let '(l, run) := mark_ready ids (set_state id Ready run) in (id :: l, run)
    else mark_ready ids run
  end.

Definition actionable_nodes (run : WorkflowRun) : list string * WorkflowRun :=
  mark_ready (btree_set (activated_nodes run)) run.

Definition activate_successors (node_id : string) : WorkflowRun -> WorkflowRun :=
  on_activated (fun s => list_to_set (explicit_successors graph node_id) ∪ s).

Definition any_state (s : NodeRunState) (run : WorkflowRun) : bool :=
  existsb (fun kv => bool_decide (kv.2 = s)) (map_to_list (node_states run)).

Definition refresh_run_status : O unit :=
  now ← read timestamp;
  modify (with_updated now) ;;
  run ← get_run;
  if bool_decide (status run = RunAborted) then mret tt
  else if any_state WaitingHuman run then modify (with_status RunWaitingHuman)
  else if any_state Running run then modify (with_status RunRunning)
  else if existsb (fun id => bool_decide (node_states run !! id = Some Pending)) (elements (activated_nodes run))
  then modify (with_status RunRunning)
  else if any_state Failed run then
    if bool_decide (status run = RunFailed) then mret tt
    else modify (with_status RunFailed) ;; emit_event "run.failed" None "engine" None
  else if bool_decide (status run = RunCompleted) then mret tt
  else modify (with_status RunCompleted) ;;
       emit_event "run.completed" None "engine"
         (Some (object [("terminal_nodes", strings (btree_set (terminal_from graph)))])).

(** ** What the task tracker is shown *)

Record SyncStepOpts := mkOpts {
  so_error : option string;
  so_waiting_since : option Z;
  so_subject_obj_id : option string;
  so_subject_value : option Value;
  so_progress_message : option string
}.

Definition no_opts : SyncStepOpts := mkOpts None None None None None.

Definition build_step_view (run : WorkflowRun) (compiled : CompiledNode) (opts : SyncStepOpts) : StepTaskView :=
  let state := state_or_pending run (cn_id compiled) in
  mkStepView (cn_id compiled) (cn_name compiled) state (default 0 (node_attempts run !! cn_id compiled))
    (match cn_expr compiled with Apply executor _ _ _ _ _ _ => Some (executor_as_str executor) | _ => None end)
    (so_subject_value opts) (so_subject_obj_id opts)
    (match cn_expr compiled with Await _ _ prompt _ => prompt | _ => None end)
    (cn_output_schema compiled) [] (so_progress_message opts) (so_error opts)
    (match state with
     | Completed | Skipped | WaitingHuman => node_outputs run !! cn_id compiled
     | _ => None
     end)
    (so_waiting_since opts).

Definition build_shard_view (run : WorkflowRun) (for_each_id : string) (shard_index : nat) (error : option string)
  : MapShardTaskView :=
  let map_state := map_states run !! for_each_id in
  let state := default Pending (map_state ≫= fun s => ms_shard_states s !! shard_index) in
  mkShardView for_each_id shard_index state
    (default 0 (map_state ≫= fun s => ms_shard_attempts s !! shard_index))
    (default VNull (map_state ≫= fun s => ms_items s !! shard_index))
    (map_state ≫= fun s => value ← ms_shard_outputs s !! shard_index;
                           if bool_decide (state = Completed) then Some value else None)
    error.

Definition sync_step (compiled : CompiledNode) (opts : SyncStepOpts) : O unit :=
  run ← get_run; call (tracker_sync_step run (build_step_view run compiled opts)).
Definition sync_step_basic (compiled : CompiledNode) : O unit := sync_step compiled no_opts.
Definition sync_shard (for_each_id : string) (shard_index : nat) (error : option string) : O unit :=
  run ← get_run; call (sync_map_shard run (build_shard_view run for_each_id shard_index error)).
Definition sync_thunk_dispatch (node_id thunk_obj_id : string) (attempt : Z) (shard_index : option nat) : O unit :=
  run ← get_run; call (sync_thunk run (mkThunkView node_id thunk_obj_id attempt shard_index)).
(** [if let Some(node) = workflow.nodes.get(id) { self.sync_step_basic(..) }] *)
Definition sync_node (id : string) : O unit :=
  match node id with Some compiled => sync_step_basic compiled | None => mret tt end.

(** A node that waits for a person. *)
Definition wait_human (id : string) : WorkflowRun -> WorkflowRun :=
  fun run => on_humans (fun s => {[id]} ∪ s) (set_state id WaitingHuman run).

(** ** Policies and keys *)

Definition default_policy : RetryPolicy := retry_policy_of None.

Definition retry_policy (compiled : CompiledNode) : RetryPolicy :=
  match cn_expr compiled with
  | Apply _ _ _ _ _ _ guards => retry_policy_of (g_retry guards)
  | _ => default_policy
  end.

Definition is_idempotent (compiled : CompiledNode) : bool :=
  match cn_expr compiled with Apply _ _ _ _ idempotent _ _ => idempotent | _ => false end || cn_idempotent compiled.

Definition cache_key (compiled : CompiledNode) (resolved_input : Value) : string :=
  match cn_expr compiled with
  | Apply executor fun_id _ _ _ _ _ =>
    let identity := match fun_id with Some id => id | None => "ref:" +:+ executor_as_str executor end in
    match deterministic_object_id "workflow_cache"
            (object [("executor", VString (executor_as_str executor)); ("identity", VString identity);
                     ("input", resolved_input)]) with
    | inr id => id
    | inl _ => ""
    end
  | _ => ""
  end.

Definition executor_namespace (value : string) : string :=
  match split_colons value with Some (ns, _) => ns | None => "<unknown>" end.

Definition require_function_object (node_id : string) (executor : ExecutorRef) (fun_id : option string) : wresult string :=
  match fun_id with
  | Some id => inr id
  | None =>
    match executor with
    | SemanticPath value => inl (UnresolvedSemanticExecutor node_id value)
    | Actual value => inl (ExecutorNamespaceNotImplemented node_id value (executor_namespace value))
    end
  end.

(** The thunk of a function, its parameters and the metadata. *)
Definition thunk_of (fun_id : string) (params : list (string * Value)) (metadata : Value) : wresult (string * ThunkObject Number) :=
  wbind (deterministic_object_id "thunk"
           (object [("fun_id", VString fun_id); ("params", VObject params); ("metadata", metadata)])) (fun thunk_obj_id =>
  match obj_id_new ("func:" +:+ fun_id) with
  | inr id => inr (thunk_obj_id, mkThunkObject id params metadata)
  | inl err => inl (Serialization ("invalid fun_id " +:+ quoted fun_id +:+ ": " +:+ err))
  end).

Definition build_thunk (run : WorkflowRun) (compiled : CompiledNode) (resolved_input : Value) (attempt : Z)
  : wresult (string * ThunkObject Number) :=
  match cn_expr compiled with
  | Apply executor fun_id _ _ _ _ _ =>
    wbind (require_function_object (cn_id compiled) executor fun_id) (fun fun_id =>
      match resolved_input with
      | VObject params =>
        thunk_of fun_id params
          (object [("run_id", VString (run_id run)); ("node_id", VString (cn_id compiled)); ("attempt", number attempt)])
      | other => inl (Serialization ("resolved thunk params for node " +:+ quoted (cn_id compiled)
                        +:+ " must be a JSON object, got " +:+ to_json other))
      end)
  | _ => inl (UnsupportedNode (cn_id compiled))
  end.

Definition shard_label (for_each_id : string) (index : nat) : string :=
  for_each_id +:+ "[" +:+ u64_to_string (as_u32 index) +:+ "]".

Definition build_shard_thunk (run : WorkflowRun) (body_node : CompiledNode) (for_each_id body_step_id : string)
    (shard_index : nat) (resolved_input : Value) (attempt : Z) : wresult (string * ThunkObject Number) :=
  match cn_expr body_node with
  | Apply executor fun_id _ _ _ _ _ =>
    wbind (require_function_object (cn_id body_node) executor fun_id) (fun fun_id =>
      match resolved_input with
      | VObject params =>
        thunk_of fun_id params
          (object [("run_id", VString (run_id run)); ("node_id", VString (shard_label for_each_id shard_index));
                   ("for_each_id", VString for_each_id); ("body_step_id", VString body_step_id);
                   ("shard", object [("index", number (as_u32 shard_index))]); ("attempt", number attempt)])
      | other => inl (Serialization ("resolved shard params for " +:+ quoted (shard_label for_each_id shard_index)
                        +:+ " must be a JSON object, got " +:+ to_json other))
      end)
  | _ => inl (ForEachBodyNotApply for_each_id body_step_id)
  end.

Definition thunk_value (thunk : ThunkObject Number) : Value :=
  object [("fun_id", VString (to_fun_id thunk)); ("params", VObject (to_params thunk)); ("metadata", to_metadata thunk)].

(** ** Parallel nodes *)

Definition enter_par (compiled : CompiledNode) (branches : list string) (join : JoinStrategy) : O unit :=
  let par_join := match join with JoinAll => ParAll | JoinAny => ParAny | JoinNOfM n => ParNOfM n end in
  modify (on_pars <[cn_id compiled := mkPar (cn_id compiled) branches par_join 0]>) ;;
  modify (fun run => fold_left (fun run branch_id =>
      let run := on_activated (fun s => {[branch_id]} ∪ s) run in
      match node_states run !! branch_id with
      | None | Some Ready => set_state branch_id Pending run
      | Some _ => run
      end) branches run) ;;
  modify (set_state (cn_id compiled) Running) ;;
  emit_event "step.started" (Some (cn_id compiled)) "engine" (Some (object [("branches", strings branches)])) ;;
  sync_step_basic compiled.

(** The thunks of a node itself, not of its shards. *)
Definition thunks_of_node (run : WorkflowRun) (node_id : string) : list string :=
  (List.filter (fun kv => String.eqb (pt_node_id kv.2) node_id && bool_decide (pt_shard_index kv.2 = None))
     (btree (pending_thunks run))).*1.

Definition cancel_thunks (ids : list string) : O unit :=
  each (fun id => ignore (cancel_thunk id) ;; modify (on_thunks (delete id))) ids.

Definition branch_finished (s : option NodeRunState) : bool :=
  match s with Some Completed | Some Skipped => true | _ => false end.

(** The loop that cancels the branches that have not finished. *)
Fixpoint cancel_branches (completed branches : list string) : O (list string) :=
  match branches with
  | [] => mret []
  | branch_id :: branches =>
    run ← get_run;
    if bool_decide (branch_id ∈ completed) then cancel_branches completed branches
    else
      match node_states run !! branch_id with
      | Some (Pending | Ready | Running | WaitingHuman) =>
        (if bool_decide (node_states run !! branch_id = Some Running)
         then cancel_thunks (thunks_of_node run branch_id) else mret tt) ;;
        modify (set_state branch_id Cancelled) ;;
        modify (on_activated (fun s => s ∖ {[branch_id]})) ;;
        cancelled ← cancel_branches completed branches;
        mret (branch_id :: cancelled)
      | _ => cancel_branches completed branches
      end
  end.

Definition check_par_completion (par_id : string) : O unit :=
  run ← get_run;
  state ← some_or (par_states run !! par_id) (MissingParState par_id);
  let completed := List.filter (fun b => branch_finished (node_states run !! b)) (ps_branches state) in
  let any_failed := existsb (fun b => bool_decide (node_states run !! b = Some Failed)) (ps_branches state) in
  let join_satisfied :=
    match ps_join state with
    | ParAll => bool_decide (length completed = length (ps_branches state))
    | ParAny => negb (bool_decide (completed = []))
    | ParNOfM n => n <=? as_u32 (length completed)
    end in
  if any_failed && bool_decide (ps_join state = ParAll) then
    modify (set_state par_id Failed) ;;
    modify (on_pars (delete par_id)) ;;
    emit_event "step.failed" (Some par_id) "engine" (Some (object [("reason", VString "branch_failed")])) ;;
    sync_node par_id
  else if negb join_satisfied then mret tt
  else
    let output := map_of ((fun b => (b, default VNull (node_outputs run !! b))) <$> completed) in
    cancelled ← cancel_branches completed (ps_branches state);
    modify (set_output par_id (VObject output)) ;;
    modify (set_state par_id Completed) ;;
    modify (on_pars (delete par_id)) ;;
    modify (activate_successors par_id) ;;
    emit_event "step.completed" (Some par_id) "engine"
      (Some (object [("completed_branches", strings completed); ("cancelled_branches", strings cancelled)])) ;;
    each sync_node cancelled ;;
    sync_node par_id.

Definition notify_par_branch_completed (finished_node_id : string) : O unit :=
  run ← get_run;
  each check_par_completion
    (List.filter (fun kv => bool_decide (finished_node_id ∈ ps_branches kv.2)) (btree (par_states run))).*1.

(** ** Steps *)

(** [self.executor_registry.find] *)
Definition find_adapter (executor : ExecutorRef) : option (ExecutorAdapter world) :=
  List.find (fun a => supports _ a executor) adapters.

Definition adapter_for (compiled : CompiledNode) : option (ExecutorAdapter world * ExecutorRef) :=
  match cn_expr compiled with
  | Apply executor _ _ _ _ _ _ => (fun a => (a, executor)) <$> find_adapter executor
  | _ => None
  end.

Definition cached_result (output_id : string) (output metrics : Value) : Value :=
  object [("result_obj_id", VString output_id); ("result", output); ("metrics", metrics)].

Definition complete_apply_node_direct (compiled : CompiledNode) (resolved_input output metrics : Value) : O unit :=
  let id := cn_id compiled in
  output_id ← call (put_json "workflow_result" output);
  modify (set_state id Completed) ;;
  modify (set_output id output) ;;
  modify (on_metrics <[id := metrics]>) ;;
  (if is_idempotent compiled
   then call (put_json_with_id (cache_key compiled resolved_input) (cached_result output_id output metrics))
   else mret tt) ;;
  modify (activate_successors id) ;;
  notify_par_branch_completed id ;;
  emit_event "step.completed" (Some id) "engine"
    (Some (object [("result_obj_id", VString output_id); ("mode", VString "direct")])) ;;
  sync_step_basic compiled.

Definition fail_apply_node_direct (compiled : CompiledNode) (attempt : Z) (err : WorkflowError) : O unit :=
  let id := cn_id compiled in
  let policy := retry_policy compiled in
  let error_message := error_to_string err in
  waiting_since ←
    (if attempt <? max_attempts policy then
       modify (set_state id Pending) ;;
       emit_event "step.retrying" (Some id) "engine"
         (Some (object [("attempt", number (attempt + 1)); ("error", VString error_message)])) ;;
       mret None
     else if bool_decide (fallback policy = FallbackHuman) then
       modify (wait_human id) ;;
       now ← read timestamp;
       emit_event "step.waiting_human" (Some id) "engine"
         (Some (object [("reason", VString "retries_exhausted"); ("error", VString error_message)])) ;;
       mret (Some now)
     else
       modify (set_state id Failed) ;;
       emit_event "step.failed" (Some id) "engine" (Some (object [("error", VString error_message)])) ;;
       mret None);
  sync_step compiled (mkOpts (Some error_message) waiting_since None None None).

Definition schedule_apply_direct (compiled : CompiledNode) (resolved_input : Value) (attempt : Z)
    (adapter : ExecutorAdapter world) (executor : ExecutorRef) : O unit :=
  modify (set_state (cn_id compiled) Running) ;;
  emit_event "step.started" (Some (cn_id compiled)) "engine"
    (Some (object [("executor", VString (executor_as_str executor)); ("mode", VString "direct")])) ;;
  sync_step_basic compiled ;;
  result ← read (invoke _ adapter executor resolved_input);
  match result with
  | inr output => complete_apply_node_direct compiled resolved_input output VNull
  | inl err => fail_apply_node_direct compiled attempt err
  end.

Definition lookup_cache (compiled : CompiledNode) (resolved_input : Value) : O (option Value) :=
  value ← call (get_json (cache_key compiled resolved_input));
  mret (value ≫= fun v => get v "result").

Definition schedule_apply (compiled : CompiledNode) : O unit :=
  let id := cn_id compiled in
  run ← get_run;
  resolved_input ← lift (resolve_apply_input run compiled);
  cached ← (if cn_idempotent compiled then lookup_cache compiled resolved_input else mret None);
  match cached with
  | Some cached =>
    modify (set_state id Completed) ;;
    modify (set_output id cached) ;;
    modify (activate_successors id) ;;
    notify_par_branch_completed id ;;
    emit_event "step.completed" (Some id) "engine" (Some (object [("source", VString "cache")])) ;;
    sync_step_basic compiled
  | None =>
    run ← get_run;
    let next_attempt := default 0 (node_attempts run !! id) + 1 in
    modify (on_attempts <[id := next_attempt]>) ;;
    match adapter_for compiled with
    | Some (adapter, executor) => schedule_apply_direct compiled resolved_input next_attempt adapter executor
    | None =>
      '(thunk_obj_id, thunk) ← lift (build_thunk run compiled resolved_input next_attempt);
      _ ← call (put_json "workflow_thunk" (thunk_value thunk));
      call (schedule_thunk thunk_obj_id thunk) ;;
      modify (on_thunks <[thunk_obj_id := mkThunk id thunk_obj_id next_attempt None]>) ;;
      modify (set_state id Running) ;;
      emit_event "step.started" (Some id) "engine" None ;;
      sync_step_basic compiled ;;
      sync_thunk_dispatch id thunk_obj_id next_attempt None
    end
  end.

(** ** Branches and people *)

Definition wait_at_branch (compiled : CompiledNode) (payload : Value) : O unit :=
  modify (wait_human (cn_id compiled)) ;;
  emit_event "step.waiting_human" (Some (cn_id compiled)) "engine" (Some payload) ;;
  now ← read timestamp;
  sync_step compiled (mkOpts None (Some now) None None None).

Definition advance_match (compiled : CompiledNode) (on : RefPath) (cases : list (string * string)) (max_iterations : Z)
  : O unit :=
  let id := cn_id compiled in
  run ← get_run;
  let current_iteration := default 0 (branch_iterations run !! id) in
  if max_iterations <=? current_iteration then
    wait_at_branch compiled (object [("reason", VString "max_iterations_reached")])
  else
    value ← lift (resolve_reference_value run on);
    let branch_key := match as_str value with Some s => s | None => to_json value end in
    match snd <$> List.find (fun kv => String.eqb kv.1 branch_key) cases with
    | None =>
      wait_at_branch compiled (object [("reason", VString "unexpected_branch"); ("branch", VString branch_key)])
    | Some target_id =>
      modify (on_iterations <[id := current_iteration + 1]>) ;;
      modify (set_output id (object [("branch", VString branch_key)])) ;;
      modify (set_state id Completed) ;;
      modify (on_activated (fun s => {[target_id]} ∪ s)) ;;
      modify (activate_successors id) ;;
      emit_event "step.completed" (Some id) "engine" None ;;
      sync_step_basic compiled
    end.

Definition human_wait_value (id : string) (prompt : option string) (subject : option Value) : Value :=
  object [("node_id", VString id); ("prompt", opt_string prompt); ("subject", opt_value subject)].

Definition enter_human_wait (compiled : CompiledNode) (prompt : option string) : O unit :=
  let id := cn_id compiled in
  modify (wait_human id) ;;
  run ← get_run;
  let subject := match subject_for_node run compiled with inr v => Some v | inl _ => None end in
  subject_obj_id ←
    match subject with
    | Some value => if is_null value then mret None else (oid ← call (put_json "workflow_subject" value); mret (Some oid))
    | None => mret None
    end;
  emit_event "step.waiting_human" (Some id) "engine" (Some (human_wait_value id prompt subject)) ;;
  now ← read timestamp;
  sync_step compiled (mkOpts None (Some now) subject_obj_id subject None).
End orchestrator.
