(* ===== verification/WfTick.v ===== *)
(** The rest of the orchestrator ([kernel/workflow/src/orchestrator.rs]): the
    shards of loops, and the methods the service calls. *)
From Stdlib Require Import ZArith Lia Ascii Sorted Permutation.
From stdpp Require Import base tactics numbers gmap strings sorting list.
From S2P Require Import Prelude RustString Lists WfJson WfTypes WfGraph WfAnalysis WfCompile WfRun WfOrch.

Section orchestrator.
Context {Number : Type} `{Services Number}.
Abbreviation Value := (Value Number).
Abbreviation WorkflowRun := (WorkflowRun Number).
Abbreviation CompiledNode := (CompiledNode Number).
Abbreviation O := (O Number).
Context (workflow : CompiledWorkflow Number).

(** ** Loops *)

Definition complete_map (for_each_id : string) : O unit :=
  run ← get_run;
  let outputs := from_option ms_shard_outputs [] (map_states run !! for_each_id) in
  modify (set_output for_each_id (VArray outputs)) ;;
  modify (set_state for_each_id Completed) ;;
  modify (on_maps (delete for_each_id)) ;;
  modify (activate_successors workflow for_each_id) ;;
  notify_par_branch_completed workflow for_each_id ;;
  emit_event "step.completed" (Some for_each_id) "engine" None ;;
  sync_node workflow for_each_id.

(** [if let Some(state) = run.map_states.get_mut(for_each_id)]; the index is one
    of the state. *)
Definition on_map (for_each_id : string) (f : MapState Number -> MapState Number) : WorkflowRun -> WorkflowRun :=
  on_maps (alter f for_each_id).

Definition set_shard (index : nat) (s : NodeRunState) (m : MapState Number) : MapState Number :=
  mkMap (ms_for_each_id m) (ms_body_step_id m) (ms_items m) (<[index := s]> (ms_shard_states m)) (ms_shard_outputs m)
    (ms_shard_attempts m) (ms_max_concurrency m).
Definition set_shard_output (index : nat) (v : Value) (m : MapState Number) : MapState Number :=
  mkMap (ms_for_each_id m) (ms_body_step_id m) (ms_items m) (ms_shard_states m) (<[index := v]> (ms_shard_outputs m))
    (ms_shard_attempts m) (ms_max_concurrency m).
Definition set_shard_attempt (index : nat) (n : Z) (m : MapState Number) : MapState Number :=
  mkMap (ms_for_each_id m) (ms_body_step_id m) (ms_items m) (ms_shard_states m) (ms_shard_outputs m)
    (<[index := n]> (ms_shard_attempts m)) (ms_max_concurrency m).

Definition running_shards (run : WorkflowRun) (for_each_id : string) : nat :=
  from_option (fun m => length (List.filter (fun s => bool_decide (s = Running)) (ms_shard_states m))) 0%nat
    (map_states run !! for_each_id).

Definition all_shards_done (run : WorkflowRun) (for_each_id : string) : bool :=
  from_option (fun m => forallb (fun s => bool_decide (s = Completed)) (ms_shard_states m)) false
    (map_states run !! for_each_id).

(** A shard of an adapter, which answers at once; [false] ends the loop. *)
Definition run_shard_direct (for_each_id : string) (index : nat) (resolved_input : Value)
    (adapter : ExecutorAdapter world) (executor : ExecutorRef) : O bool :=
  result ← read (invoke _ adapter executor resolved_input);
  match result with
  | inr output =>
    modify (on_map for_each_id (fun m => set_shard_output index output (set_shard index Completed m))) ;;
    emit_event "step.progress" (Some for_each_id) "engine"
      (Some (object [("shard", number (Z.of_nat index)); ("status", VString "completed"); ("mode", VString "direct")])) ;;
    sync_shard for_each_id index None ;;
    mret true
  | inl err =>
    let error_message := error_to_string err in
    modify (on_map for_each_id (set_shard index Failed)) ;;
    modify (set_state for_each_id Failed) ;;
    emit_event "step.failed" (Some for_each_id) "engine"
      (Some (object [("shard", number (Z.of_nat index)); ("error", VString error_message); ("mode", VString "direct")])) ;;
    sync_shard for_each_id index (Some error_message) ;;
    (match node workflow for_each_id with
     | Some parent => sync_step parent (mkOpts (Some error_message) None None None None)
     | None => mret tt
     end) ;;
    mret false
  end.

(** The thunk of a shard, as the tracker is told about it: the first one of the
    pending thunks that is for this shard. *)
Definition shard_thunk (run : WorkflowRun) (for_each_id : string) (index : nat) : string :=
  from_option fst "" (List.find (fun kv => String.eqb (pt_node_id kv.2) for_each_id
                                  && bool_decide (pt_shard_index kv.2 = Some index)) (btree (pending_thunks run))).

Definition run_shard_thunk (body_node : CompiledNode) (for_each_id body_step_id : string) (index : nat)
    (resolved_input : Value) (attempt : Z) : O unit :=
  run ← get_run;
  '(thunk_obj_id, thunk) ← lift (build_shard_thunk run body_node for_each_id body_step_id index resolved_input attempt);
  _ ← call (put_json "workflow_thunk" (thunk_value thunk));
  call (schedule_thunk thunk_obj_id thunk) ;;
  modify (on_thunks <[thunk_obj_id := mkThunk for_each_id thunk_obj_id attempt (Some index)]>) ;;
  modify (on_map for_each_id (set_shard index Running)) ;;
  sync_shard for_each_id index None ;;
  run ← get_run;
  sync_thunk_dispatch for_each_id (shard_thunk run for_each_id index) attempt (Some index).

(** The loop over the shards; [false] is a return from the function. *)
Fixpoint dispatch_shards (for_each_id body_step_id : string) (body_node : CompiledNode)
    (adapter : option (ExecutorAdapter world * ExecutorRef)) (max_concurrency : Z) (indexes : list nat) (running : Z)
  : O bool :=
  match indexes with
  | [] => mret true
  | index :: indexes =>
    if bool_decide (adapter = None) && (max_concurrency <=? running) then mret true
    else
      run ← get_run;
      if bool_decide ((map_states run !! for_each_id ≫= fun m => ms_shard_states m !! index) <> Some Pending)
      then dispatch_shards for_each_id body_step_id body_node adapter max_concurrency indexes running
      else
        let item := default VNull (map_states run !! for_each_id ≫= fun m => ms_items m !! index) in
        let attempt := default 0 (map_states run !! for_each_id ≫= fun m => ms_shard_attempts m !! index) + 1 in
        modify (on_map for_each_id (set_shard_attempt index attempt)) ;;
        resolved_input ← lift (resolve_shard_input run body_node item index);
        match adapter with
        | Some (adapter', executor) =>
          go_on ← run_shard_direct for_each_id index resolved_input adapter' executor;
          if go_on : bool
          then dispatch_shards for_each_id body_step_id body_node adapter max_concurrency indexes running
          else mret false
        | None =>
          run_shard_thunk body_node for_each_id body_step_id index resolved_input attempt ;;
          dispatch_shards for_each_id body_step_id body_node adapter max_concurrency indexes (running + 1)
        end
  end.

Definition dispatch_pending_shards (for_each_id : string) (body_node : CompiledNode) : O unit :=
  run ← get_run;
  state ← some_or (map_states run !! for_each_id) (MissingMapState for_each_id);
  let adapter := adapter_for body_node in
  go_on ← dispatch_shards for_each_id (ms_body_step_id state) body_node adapter (ms_max_concurrency state)
            (List.seq 0 (length (ms_items state))) (as_u32 (running_shards run for_each_id));
  run ← get_run;
  if go_on && negb (bool_decide (adapter = None)) && all_shards_done run for_each_id
  then complete_map for_each_id else mret tt.

Definition set_map_state (for_each_id body_step_id : string) (items : list Value) (concurrency : Z) : WorkflowRun -> WorkflowRun :=
  on_maps <[for_each_id := mkMap for_each_id body_step_id items (replicate (length items) Pending)
             (replicate (length items) VNull) (replicate (length items) 0) (Z.max concurrency 1)]>.

Definition enter_map (compiled : CompiledNode) (collection : RefPath) (steps : list string)
    (max_items actual_concurrency : Z) : O unit :=
  let id := cn_id compiled in
  match steps with
  | [] => throw (ForEachBodyNotApply id "<empty>")
  | body_step_id :: _ =>
    body_node ← require_node workflow body_step_id;
    match cn_expr body_node with
    | Apply _ _ _ _ _ _ _ =>
      run ← get_run;
      collection_value ← lift (resolve_reference_value run collection);
      items ← some_or (extract_items collection_value) (ForEachItemsType id (debug_value collection_value));
      if max_items <? as_u32 (length items)
      then throw (ForEachTooManyItems id (as_u32 (length items)) max_items)
      else
        modify (set_map_state id body_step_id items actual_concurrency) ;;
        modify (set_state id Running) ;;
        emit_event "step.started" (Some id) "engine"
          (Some (object [("total", number (Z.of_nat (length items))); ("concurrency", number actual_concurrency)])) ;;
        sync_step_basic compiled ;;
        if bool_decide (items = []) then complete_map id else dispatch_pending_shards id body_node
    | _ => throw (ForEachBodyNotApply id body_step_id)
    end
  end.

Definition handle_shard_completed (for_each_id : string) (shard_index : nat) (output : Value) : O unit :=
  run ← get_run;
  state ← some_or (map_states run !! for_each_id) (MissingMapState for_each_id);
  if (length (ms_shard_states state) <=? shard_index)%nat then throw (MissingMapState for_each_id)
  else
    modify (on_map for_each_id (fun m => set_shard_output shard_index output (set_shard shard_index Completed m))) ;;
    emit_event "step.progress" (Some for_each_id) "engine"
      (Some (object [("shard", number (Z.of_nat shard_index)); ("status", VString "completed")])) ;;
    sync_shard for_each_id shard_index None ;;
    run ← get_run;
    state ← some_or (map_states run !! for_each_id) (MissingMapState for_each_id);
    body_node ← require_node workflow (ms_body_step_id state);
    dispatch_pending_shards for_each_id body_node ;;
    run ← get_run;
    if all_shards_done run for_each_id then complete_map for_each_id else mret tt.

(** [state.shard_states[idx] = ..] without a check of the index. *)
Definition handle_shard_failed (for_each_id : string) (shard_index : nat) (error : option string) : O unit :=
  run ← get_run;
  state ← some_or (map_states run !! for_each_id) (MissingMapState for_each_id);
  if (length (ms_shard_states state) <=? shard_index)%nat then stop IndexPanic
  else
    modify (on_map for_each_id (set_shard shard_index Failed)) ;;
    emit_event "step.failed" (Some for_each_id) "engine"
      (Some (object [("shard", number (Z.of_nat shard_index)); ("error", opt_string error)])) ;;
    modify (set_state for_each_id Failed) ;;
    sync_shard for_each_id shard_index error ;;
    match node workflow for_each_id with
    | Some parent => sync_step parent (mkOpts error None None None None)
    | None => mret tt
    end.

(** ** One round of a run *)

(** The body of the loop of [tick]. *)
Definition advance_node (node_id : string) : O unit :=
  compiled ← require_node workflow node_id;
  match cn_expr compiled with
  | Apply _ _ _ _ _ _ _ => schedule_apply workflow compiled
  | Match on cases max_iterations => advance_match workflow compiled on cases max_iterations
  | Await _ _ prompt _ => enter_human_wait compiled prompt
  | Par branches join => enter_par compiled branches join
  | Map collection steps max_items _ actual_concurrency => enter_map compiled collection steps max_items actual_concurrency
  end.

Definition take_actionable : O (list string) :=
  fun s => let '(l, run) := actionable_nodes workflow (o_run s) in (mkOrc run (o_events s) (o_world s), inr l).

Fixpoint tick_loop (rounds : nat) : O unit :=
  actionable ← take_actionable;
  match actionable with
  | [] => mret tt
  | _ => match rounds with
         | 0%nat => stop OutOfRounds
         | S rounds => each advance_node actionable ;; tick_loop rounds
         end
  end.

(** Each round spends an attempt of a node, or leaves fewer nodes that are
    pending or ready: an attempt is worth more than all the nodes. *)
Definition attempts_left (run : WorkflowRun) (id : string) (compiled : CompiledNode) : nat :=
  Z.to_nat (max_attempts (retry_policy compiled) - default 0 (node_attempts run !! id)).
Definition waiting_to_run (s : NodeRunState) : bool := match s with Pending | Ready => true | _ => false end.
Definition total_attempts (run : WorkflowRun) : nat :=
  sum_list ((fun kv => attempts_left run kv.1 kv.2) <$> map_to_list (cw_nodes workflow)).
Definition total_waiting (run : WorkflowRun) : nat :=
  sum_list ((fun kv => Nat.b2n (waiting_to_run (state_or_pending run kv.1))) <$> map_to_list (cw_nodes workflow)).
Definition tick_rounds (run : WorkflowRun) : nat :=
  (total_attempts run * S (size (cw_nodes workflow)) + total_waiting run)%nat.

Definition start_run : O unit :=
  run ← get_run;
  if bool_decide (status run = RunCreated)
  then modify (with_status RunRunning) ;; emit_event "run.started" None "engine" None
  else mret tt.

Definition sync_whole_run : O unit := run ← get_run; call (sync_run run).

Definition tick_body : O unit :=
  start_run ;;
  run ← get_run;
  tick_loop (S (tick_rounds run)) ;;
  refresh_run_status workflow ;;
  sync_whole_run.

Definition tick : WorkflowRun -> world -> WorkflowRun * world * (failure + list (EventEnvelope Number)) := method tick_body.

(** [create_run_with_metrics]: there is no run before it. *)
Definition new_run (id : string) (now : Z) (initial : gmap string Value) : WorkflowRun :=
  mkRun ("run-" +:+ id) (cw_workflow_id workflow) (cw_workflow_name workflow) 1 RunCreated
    ((fun _ => Pending) <$> cw_nodes workflow) ∅ ∅ ∅ ∅ (list_to_set (start_nodes (cw_graph workflow))) initial ∅ ∅ ∅ 0 now now.

Definition create_run_with_metrics (initial : gmap string Value) (w : world)
  : world * (failure + (WorkflowRun * list (EventEnvelope Number))) :=
  let '(w, now) := timestamp w in
  let '(w, id) := uuid w in
  match method (emit_event "run.created" None "engine" None ;; sync_whole_run) (new_run id now initial) w with
  | (run, w, inr events) => (w, inr (run, events))
  | (_, w, inl e) => (w, inl e)
  end.

(** ** Results of thunks *)

Definition result_output (result : ThunkExecutionResult Number) : O Value :=
  match tr_result result, tr_result_obj_id result with
  | Some value, _ => mret value
  | None, Some id =>
    found ← call (get_json id);
    some_or found (ObjectStore ("missing result object " +:+ quoted id))
  | None, None => mret VNull
  end.

Definition step_succeeded (compiled : CompiledNode) (node_id output_id : string) (output metrics : Value) : O unit :=
  modify (set_state node_id Completed) ;;
  modify (set_output node_id output) ;;
  modify (on_metrics <[node_id := metrics]>) ;;
  (if is_idempotent compiled then
     run ← get_run;
     input ← lift (resolve_apply_input run compiled);
     call (put_json_with_id (cache_key compiled input) (cached_result output_id output metrics))
   else mret tt) ;;
  modify (activate_successors workflow node_id) ;;
  notify_par_branch_completed workflow node_id ;;
  emit_event "step.completed" (Some node_id) "engine" (Some (object [("result_obj_id", VString output_id)])) ;;
  sync_step_basic compiled.

Definition step_failed (compiled : CompiledNode) (node_id : string) (status : ThunkExecutionStatus)
    (error : option string) : O unit :=
  run ← get_run;
  let policy := retry_policy compiled in
  let attempt := default 1 (node_attempts run !! node_id) in
  waiting_since ←
    (if (attempt <? max_attempts policy) && bool_decide (status = ThunkFailed) then
       modify (set_state node_id Retrying) ;;
       modify (set_state node_id Pending) ;;
       emit_event "step.retrying" (Some node_id) "engine"
         (Some (object [("attempt", number (attempt + 1)); ("error", opt_string error)])) ;;
       mret None
     else if bool_decide (fallback policy = FallbackHuman) then
       modify (wait_human node_id) ;;
       now ← read timestamp;
       emit_event "step.waiting_human" (Some node_id) "engine"
         (Some (object [("reason", VString "retries_exhausted"); ("error", opt_string error)])) ;;
       mret (Some now)
     else
       modify (set_state node_id Failed) ;;
       emit_event "step.failed" (Some node_id) "engine" (Some (object [("error", opt_string error)])) ;;
       mret None);
  sync_step compiled (mkOpts error waiting_since None None None).

Definition handle_thunk_result_body (result : ThunkExecutionResult Number) : O unit :=
  let thunk_id := tr_thunk_obj_id result in
  run ← get_run;
  pending ← some_or (pending_thunks run !! thunk_id) (MissingPendingThunk thunk_id);
  modify (on_thunks (delete thunk_id)) ;;
  let node_id := pt_node_id pending in
  compiled ← require_node workflow node_id;
  (match tr_status result with
   | (Waiting | Dispatched) as status =>
     modify (on_thunks <[thunk_id := mkThunk node_id thunk_id (pt_attempt pending) (pt_shard_index pending)]>) ;;
     emit_event (match status with Waiting => "step.waiting_dispatch" | _ => "step.dispatched" end) (Some node_id) "engine"
       (Some (object [("task_id", VString (tr_task_id result)); ("status", VString (thunk_status_str status))]))
   | Success =>
     output ← result_output result;
     output_id ← match tr_result_obj_id result with Some id => mret id | None => call (put_json "workflow_result" output) end;
     match pt_shard_index pending with
     | Some shard_index => handle_shard_completed node_id shard_index output
     | None => step_succeeded compiled node_id output_id output (tr_metrics result)
     end
   | (ThunkFailed | ThunkCancelled) as status =>
     match pt_shard_index pending with
     | Some shard_index => handle_shard_failed node_id shard_index (tr_error result)
     | None => step_failed compiled node_id status (tr_error result)
     end
   end) ;;
  refresh_run_status workflow ;;
  sync_whole_run.

Definition handle_thunk_result (result : ThunkExecutionResult Number) := method (handle_thunk_result_body result).

(** ** Actions of people *)

Definition ensure_waiting_human (run : WorkflowRun) (node_id : string) : O unit :=
  if bool_decide (node_states run !! node_id = Some WaitingHuman) then mret tt else throw (NodeNotWaitingHuman node_id).

(** What approving, modifying and rejecting have in common. *)
Definition decide_node (node_id : string) (output : Value) : O unit :=
  modify (set_output node_id output) ;;
  modify (set_state node_id Completed) ;;
  modify (on_humans (fun s => s ∖ {[node_id]})) ;;
  modify (activate_successors workflow node_id).

Definition abortable (s : NodeRunState) : bool :=
  match s with Pending | Ready | Running | WaitingHuman => true | _ => false end.

(** A completed node behind the one rolled back that cannot be repeated. *)
Definition rollback_barrier (run : WorkflowRun) (downstream : list string) : option string :=
  List.find (fun id => match node workflow id with
                       | Some n => negb (cn_idempotent n) && bool_decide (node_states run !! id = Some Completed)
                       | None => false
                       end) downstream.

Definition reset_node (run : WorkflowRun) (id : string) : WorkflowRun :=
  on_humans (fun s => s ∖ {[id]}) (on_outputs (delete id) (set_state id Pending run)).

Definition downstream (id : string) : list string := default [] (downstream_from (cw_graph workflow) id).

Definition apply_human_action (compiled : CompiledNode) (action : HumanAction Number) : O unit :=
  let node_id := ha_node_id action in
  run ← get_run;
  match ha_action action with
  | Approve =>
    ensure_waiting_human run node_id ;;
    subject ← lift (subject_for_node run compiled);
    decide_node node_id (object [("decision", VString "approved"); ("final_subject", subject)])
  | Modify =>
    ensure_waiting_human run node_id ;;
    modified ← some_or (ha_payload action ≫= fun p => get p "modified_subject") (InvalidHumanAction node_id "modify");
    decide_node node_id (object [("decision", VString "approved"); ("final_subject", modified)])
  | Reject =>
    ensure_waiting_human run node_id ;;
    let feedback := default (VString "") (ha_payload action ≫= fun p => get p "feedback") in
    decide_node node_id (object [("decision", VString "rejected"); ("final_subject", VNull); ("feedback", feedback)])
  | Retry =>
    match state_or_pending run node_id with
    | WaitingHuman | Failed => modify (fun run => reset_node run node_id)
    | _ => throw (InvalidHumanAction node_id "retry")
    end
  | Skip =>
    if cn_skippable compiled then
      modify (set_state node_id Skipped) ;;
      modify (set_output node_id VNull) ;;
      modify (on_humans (fun s => s ∖ {[node_id]})) ;;
      modify (activate_successors workflow node_id) ;;
      emit_event "step.skipped" (Some node_id) (ha_actor action) None
    else throw (NodeNotSkippable node_id)
  | Abort =>
    modify (on_states (fmap (fun s => if abortable s then Aborted else s))) ;;
    modify (with_status RunAborted) ;;
    emit_event "run.aborted" None (ha_actor action) None
  | Rollback =>
    match rollback_barrier run (downstream node_id) with
    | Some id => throw (RollbackBlocked id)
    | None =>
      modify (fun run => fold_left reset_node (downstream node_id ++ [node_id]) run) ;;
      modify (on_activated (fun s => {[node_id]} ∪ s))
    end
  end.

Definition aborted_nodes (run : WorkflowRun) : list string :=
  (List.filter (fun kv => bool_decide (kv.2 = Aborted)) (btree (node_states run))).*1.

Definition handle_human_action_body (action : HumanAction Number) : O unit :=
  let node_id := ha_node_id action in
  compiled ← require_node workflow node_id;
  apply_human_action compiled action ;;
  emit_event "human.action" (Some node_id) (ha_actor action)
    (Some (object [("action", VString (action_as_str (ha_action action))); ("payload", opt_value (ha_payload action))])) ;;
  sync_node workflow node_id ;;
  (if bool_decide (ha_action action = Rollback) then each (sync_node workflow) (downstream node_id) else mret tt) ;;
  run ← get_run;
  (if bool_decide (ha_action action = Abort) then each (sync_node workflow) (aborted_nodes run) else mret tt) ;;
  refresh_run_status workflow ;;
  sync_whole_run.

Definition handle_human_action (action : HumanAction Number) := method (handle_human_action_body action).

(** ** Agents *)

Definition submit_step_output_body (node_id actor : string) (output : Value) : O unit :=
  compiled ← require_node workflow node_id;
  run ← get_run;
  match state_or_pending run node_id with
  | Running | WaitingHuman | Failed | Pending =>
    cancel_thunks (thunks_of_node run node_id) ;;
    modify (set_state node_id Completed) ;;
    modify (set_output node_id output) ;;
    modify (on_humans (fun s => s ∖ {[node_id]})) ;;
    modify (activate_successors workflow node_id) ;;
    emit_event "step.completed" (Some node_id) actor (Some (object [("source", VString "submit_step_output")])) ;;
    notify_par_branch_completed workflow node_id ;;
    sync_step_basic compiled ;;
    refresh_run_status workflow ;;
    sync_whole_run
  | _ => throw (InvalidHumanAction node_id "submit_output")
  end.

Definition submit_step_output (node_id actor : string) (output : Value) := method (submit_step_output_body node_id actor output).

Definition report_step_progress_body (node_id actor : string) (progress : Value) : O unit :=
  compiled ← require_node workflow node_id;
  emit_event "step.progress" (Some node_id) actor (Some progress) ;;
  sync_step compiled (mkOpts None None None None (get progress "message" ≫= as_str)).

Definition report_step_progress (node_id actor : string) (progress : Value) := method (report_step_progress_body node_id actor progress).

Definition request_human_body (node_id actor : string) (prompt : option string) (subject : option Value) : O unit :=
  compiled ← require_node workflow node_id;
  run ← get_run;
  cancel_thunks (thunks_of_node run node_id) ;;
  modify (wait_human node_id) ;;
  waiting_since ← read timestamp;
  subject_obj_id ← match subject with
                   | Some value => oid ← call (put_json "workflow_subject" value); mret (Some oid)
                   | None => mret None
                   end;
  emit_event "step.waiting_human" (Some node_id) actor
    (Some (object [("prompt", opt_string prompt); ("subject", opt_value subject); ("actor", VString actor)])) ;;
  sync_step compiled (mkOpts None (Some waiting_since) subject_obj_id subject None) ;;
  refresh_run_status workflow ;;
  sync_whole_run.

Definition request_human (node_id actor : string) (prompt : option string) (subject : option Value) :=
  method (request_human_body node_id actor prompt subject).

(** ** Data of tasks *)

(** [TaskHumanAction] ([taskdata.rs]), without when it was submitted. *)
Record TaskHumanAction := mkTaskAction { th_kind : string; th_payload : option Value; th_actor : option string }.

Definition action_kind_of (kind : string) : option HumanActionKind :=
  List.find (fun k => String.eqb (action_as_str k) kind) [Approve; Modify; Reject; Retry; Skip; Abort; Rollback].

(** [apply_task_data], of the ids of the request and the action. *)
Definition apply_task_data_body (request_run_id request_node_id : string) (human_action : option TaskHumanAction) : O unit :=
  let node_id := trim request_node_id in
  run ← get_run;
  if String.eqb node_id "" then throw (Serialization "task_data.request.node_id missing")
  else if negb (String.eqb request_run_id "") && negb (String.eqb request_run_id (run_id run)) then
    throw (Serialization ("task_data.request.run_id " +:+ quoted request_run_id +:+ " does not match run " +:+ quoted (run_id run)))
  else
    match human_action with
    | None => mret tt
    | Some action =>
      let kind := trim (th_kind action) in
      let actor := default "human" (th_actor action) in
      let report e := (run ← get_run; ignore (report_step_validation_error run node_id (error_to_string e))) : O unit in
      if String.eqb kind "" then throw (Serialization "task_data.human_action.kind missing")
      else if String.eqb kind "submit_output" then
        on_error (submit_step_output_body node_id actor (opt_value (th_payload action))) report
      else
        match action_kind_of kind with
        | None =>
          ignore (report_step_validation_error run node_id ("unknown human_action kind " +:+ quoted kind)) ;;
          throw (InvalidHumanAction node_id kind)
        | Some k => on_error (handle_human_action_body (mkAction node_id k (th_payload action) actor)) report
        end
    end.

Definition apply_task_data (request_run_id request_node_id : string) (human_action : option TaskHumanAction) :=
  method (apply_task_data_body request_run_id request_node_id human_action).
End orchestrator.
