(* ===== verification/WfTrace.v ===== *)
(** What the orchestrator does to a run, as steps: each method, however it ends,
    takes the run along a list of updates and events.

    [progress] has the updates of a round of the run, [update] those of
    retries and of people besides.  Properties of runs are proved of the rules. *)
From Stdlib Require Import ZArith Lia Ascii Sorted Permutation.
From stdpp Require Import base tactics numbers gmap strings sorting list relations.
From S2P Require Import Prelude RustString Lists WfJson WfTypes WfGraph WfAnalysis WfCompile WfRun WfOrch WfTick.

Section trace.
Context {Number : Type} `{Services Number}.
Abbreviation WorkflowRun := (WorkflowRun Number).
Abbreviation O := (O Number).

Definition finished (s : NodeRunState) : Prop := s = Completed \/ s = Skipped.

Inductive progress : relation WorkflowRun :=
| p_status s r : progress r (with_status s r)
| p_updated t r : progress r (with_updated t r)
| p_activated f r : progress r (on_activated f r)
| p_finish id s v r : finished s -> progress r (set_output id v (set_state id s r))
| p_state id s r : s = Running \/ s = Failed \/ s = Cancelled -> progress r (set_state id s r)
| p_wait id r : progress r (wait_human id r)
| p_requeue id r : node_states r !! id = None \/ node_states r !! id = Some Ready -> progress r (set_state id Pending r)
| p_ready id r : state_or_pending r id = Pending -> progress r (set_state id Ready r)
| p_attempt id r : progress r (on_attempts <[id := default 0 (node_attempts r !! id) + 1]> r)
| p_iterations f r : progress r (on_iterations f r)
| p_thunks f r : progress r (on_thunks f r)
| p_maps f r : progress r (on_maps f r)
| p_pars f r : progress r (on_pars f r)
| p_metrics f r : progress r (on_metrics f r).

Inductive update : relation WorkflowRun :=
| u_progress r r' : progress r r' -> update r r'
| u_retry id r : update r (set_state id Pending r)
| u_answered id r : node_states r !! id <> Some WaitingHuman -> update r (on_humans (fun s => s ∖ {[id]}) r)
| u_reset id r : update r (reset_node r id)
| u_abort r : update r (on_states (fmap (fun s => if abortable s then Aborted else s)) r).

(** A method's step: an update, an event, or something outside. *)
Inductive ostep (U : relation WorkflowRun) : relation orc :=
| o_update s r : U (o_run s) r -> ostep U s (mkOrc r (o_events s) (o_world s))
| o_outside s w : ostep U s (mkOrc (o_run s) (o_events s) w)
| o_emit s e w :
  ev_seq e = seq (o_run s) + 1 -> ev_run_id e = run_id (o_run s) ->
  ostep U s (mkOrc (with_seq (seq (o_run s) + 1) (o_run s)) (o_events s ++ [e]) w).

Definition trace (U : relation WorkflowRun) : relation orc := rtc (ostep U).

Lemma trace_update (U : relation WorkflowRun) s r : U (o_run s) r -> trace U s (mkOrc r (o_events s) (o_world s)).
Proof. intros Hu. by apply rtc_once, o_update. Qed.

Lemma trace_updates (U : relation WorkflowRun) r r' :
  rtc U r r' -> forall e w, trace U (mkOrc r e w) (mkOrc r' e w).
Proof.
  induction 1 as [|r1 r2 r3 H12 _ IH]; intros e w; [done|].
  eapply rtc_l; [apply (o_update U (mkOrc r1 e w)); exact H12|apply IH].
Qed.

Lemma trace_mono (U U' : relation WorkflowRun) s s' : (forall r r', U r r' -> U' r r') -> trace U s s' -> trace U' s s'.
Proof.
  intros HU. apply rtc_subrel. intros x y Hs.
  destruct Hs; [by apply o_update, HU|apply o_outside|by apply o_emit].
Qed.

(** ** The monad *)

Section monad.
(** [F]: how the method may fail. *)
Context (U : relation WorkflowRun) (F : failure -> Prop) (HF : forall e, e <> OutOfRounds -> F e).

Definition moves {A} (m : O A) (s : orc) : Prop :=
  trace U s (m s).1 /\ forall e, (m s).2 = inl e -> F e.
Definition respects {A} (m : O A) : Prop := forall s, moves m s.

Lemma moves_bind {A B} (m : O A) (f : A -> O B) s :
  moves m s -> (forall a s', m s = (s', inr a) -> moves (f a) s') -> moves (m ≫= f) s.
Proof.
  unfold moves, mbind, O_bind. intros [Hm He] Hf. destruct (m s) as [s' [e|a]]; simpl in *.
  - split; [done|]. intros e' [= <-]. by apply He.
  - destruct (Hf a s' eq_refl). split; [by etrans|done].
Qed.

Lemma respects_bind {A B} (m : O A) (f : A -> O B) :
  respects m -> (forall a, respects (f a)) -> respects (m ≫= f).
Proof. intros Hm Hf s. apply moves_bind; [apply Hm|]. intros a s' _. apply Hf. Qed.

Lemma respects_ret {A} (a : A) : respects (mret a).
Proof. intros s. split; [constructor|done]. Qed.
Lemma respects_stop {A} e : F e -> respects (stop (A := A) e).
Proof. intros He s. split; [constructor|]. by intros e' [= <-]. Qed.
Lemma respects_throw {A} e : respects (throw (A := A) e).
Proof. by apply respects_stop, HF. Qed.
Lemma respects_panic {A} : respects (stop (A := A) IndexPanic).
Proof. by apply respects_stop, HF. Qed.
Lemma respects_lift {A} (r : wresult A) : respects (lift r).
Proof. destruct r; [apply respects_throw|apply respects_ret]. Qed.
Lemma respects_some_or {A} (o : option A) e : respects (some_or o e).
Proof. destruct o; [apply respects_ret|apply respects_throw]. Qed.
Lemma respects_get_run : respects get_run.
Proof. intros s. split; [constructor|done]. Qed.
Lemma respects_call {A} (f : world -> world * wresult A) : respects (call f).
Proof.
  intros s. unfold moves, call. destruct (f (o_world s)) as [w [e|a]]; simpl; (split; [apply rtc_once, o_outside|]);
    [|done]. intros e' [= <-]. by apply HF.
Qed.
Lemma respects_read {A} (f : world -> world * A) : respects (read f).
Proof. intros s. unfold moves, read. destruct (f (o_world s)) as [w a]. split; [apply rtc_once, o_outside|done]. Qed.
Lemma respects_ignore {A} (f : world -> world * wresult A) : respects (ignore f).
Proof. intros s. unfold moves, ignore. destruct (f (o_world s)) as [w a]. split; [apply rtc_once, o_outside|done]. Qed.

Lemma respects_modify f : (forall r, rtc U r (f r)) -> respects (modify f).
Proof. intros Hf [r e w]. unfold moves, modify. simpl. split; [by apply trace_updates|done]. Qed.

Lemma moves_modify f s : rtc U (o_run s) (f (o_run s)) -> moves (modify f) s.
Proof. destruct s as [r e w]. unfold moves, modify. simpl. intros Hr. split; [by apply trace_updates|done]. Qed.

(** Reading the run. *)
Lemma moves_get_bind {A} (f : WorkflowRun -> O A) s : moves (f (o_run s)) s -> moves (get_run ≫= f) s.
Proof. done. Qed.

(** Two updates that make one step. *)
Lemma respects_modify2 {A} (f g : WorkflowRun -> WorkflowRun) (k : O A) :
  (forall r, rtc U r (g (f r))) -> respects k -> respects (modify f ;; modify g ;; k).
Proof.
  intros Hfg Hk [r e w]. unfold moves, mbind, O_bind, modify. simpl.
  destruct (Hk (mkOrc (g (f r)) e w)). split; [|done]. by etrans; [apply (trace_updates U r (g (f r)) (Hfg r))|].
Qed.

Lemma respects_modify3 {A} (f g h : WorkflowRun -> WorkflowRun) (k : O A) :
  (forall r, rtc U r (h (g (f r)))) -> respects k -> respects (modify f ;; modify g ;; modify h ;; k).
Proof.
  intros Hfg Hk [r e w]. unfold moves, mbind, O_bind, modify. simpl.
  destruct (Hk (mkOrc (h (g (f r))) e w)). split; [|done]. by etrans; [apply (trace_updates U r (h (g (f r))) (Hfg r))|].
Qed.

Lemma respects_each {A} (f : A -> O unit) l : (forall x, respects (f x)) -> respects (each f l).
Proof.
  intros Hf. induction l as [|x l IH]; simpl; [apply respects_ret|].
  apply respects_bind; [apply Hf|by intros _].
Qed.

Lemma respects_emit type node actor payload : respects (emit_event type node actor payload).
Proof.
  intros [r e w]. unfold moves, emit_event, mbind, O_bind, modify, get_run, read, push_event. simpl.
  destruct (uuid w) as [w1 i], (rfc3339 w1) as [w2 ts] eqn:E2. simpl. rewrite E2. simpl.
  split; [|done]. apply rtc_once. eapply (o_emit U (mkOrc r e w)); done.
Qed.

Lemma respects_on_error {A} (m : O A) (h : WorkflowError -> O unit) :
  respects m -> (forall e, respects (h e)) -> respects (on_error m h).
Proof.
  intros Hm Hh s. unfold moves, on_error. pose proof (Hm s) as H1. unfold moves in H1.
  destruct (m s) as [s' [[e| |]|a]]; try done. simpl in H1.
  destruct (respects_bind (h e) (fun _ => throw (A := A) e) (Hh e) (fun _ => respects_throw e) s') as [H2 He].
  split; [|done]. etrans; [apply H1|exact H2].
Qed.
End monad.

End trace.

Create HintDb trace.
#[export] Hint Resolve respects_bind respects_ret respects_throw respects_panic respects_lift respects_some_or
  respects_get_run respects_call respects_read respects_ignore respects_emit respects_each : trace.

(** One step of the way through an operation. *)
Ltac respects_step :=
  match goal with
  | |- respects _ _ (_ ≫= _) => apply respects_bind; [|intros ?]
  | |- respects _ _ (match ?x with _ => _ end) => destruct x
  | |- respects _ _ (let '_ := ?x in _) => destruct x
  | |- respects _ _ _ => solve [eauto with trace]
  end.
Ltac respects_all := repeat (respects_step || (simpl; respects_step)).

(** ** The operations *)

Section operations.
Context {Number : Type} `{Services Number}.
Abbreviation WorkflowRun := (WorkflowRun Number).
Abbreviation O := (O Number).
Context (workflow : CompiledWorkflow Number).

Section rules.
(** [U] allows what a round does. *)
Context (U : relation WorkflowRun) (HU : forall r r', progress r r' -> U r r').
Context (F : failure -> Prop) (HF : forall e, e <> OutOfRounds -> F e).

Lemma one r r' : progress r r' -> rtc U r r'.
Proof. intros Hp. by apply rtc_once, HU. Qed.

Lemma m_status s : respects U F (modify (with_status s)).
Proof. apply respects_modify. intros r. apply one, p_status. Qed.
Lemma m_updated t : respects U F (modify (with_updated t)).
Proof. apply respects_modify. intros r. apply one, p_updated. Qed.
Lemma m_activated f : respects U F (modify (on_activated f)).
Proof. apply respects_modify. intros r. apply one, p_activated. Qed.
Lemma m_successors id : respects U F (modify (activate_successors workflow id)).
Proof. apply respects_modify. intros r. apply one, p_activated. Qed.
Lemma m_running id : respects U F (modify (set_state id Running)).
Proof. apply respects_modify. intros r. apply one, p_state. auto. Qed.
Lemma m_failed id : respects U F (modify (set_state id Failed)).
Proof. apply respects_modify. intros r. apply one, p_state. auto. Qed.
Lemma m_cancelled id : respects U F (modify (set_state id Cancelled)).
Proof. apply respects_modify. intros r. apply one, p_state. auto. Qed.
Lemma m_wait id : respects U F (modify (wait_human id)).
Proof. apply respects_modify. intros r. apply one, p_wait. Qed.
Lemma m_iterations f : respects U F (modify (on_iterations f)).
Proof. apply respects_modify. intros r. apply one, p_iterations. Qed.
Lemma m_thunks f : respects U F (modify (on_thunks f)).
Proof. apply respects_modify. intros r. apply one, p_thunks. Qed.
Lemma m_maps f : respects U F (modify (on_maps f)).
Proof. apply respects_modify. intros r. apply one, p_maps. Qed.
Lemma m_map id f : respects U F (modify (on_map id f)).
Proof. apply respects_modify. intros r. apply one, p_maps. Qed.
Lemma m_map_state id b items c : respects U F (modify (set_map_state id b items c)).
Proof. apply respects_modify. intros r. apply one, p_maps. Qed.
Lemma m_pars f : respects U F (modify (on_pars f)).
Proof. apply respects_modify. intros r. apply one, p_pars. Qed.
Lemma m_metrics f : respects U F (modify (on_metrics f)).
Proof. apply respects_modify. intros r. apply one, p_metrics. Qed.
#[local] Hint Resolve m_status m_updated m_activated m_successors m_running m_failed m_cancelled m_wait m_iterations
  m_thunks m_maps m_map m_map_state m_pars m_metrics : trace.

(** The end of a node: its state and its output, in either order. *)
Lemma m_finish {A} id s v (k : O A) :
  finished s -> respects U F k -> respects U F (modify (set_state id s) ;; modify (set_output id v) ;; k).
Proof. intros Hs. apply respects_modify2. intros r. by apply one, (p_finish id s v). Qed.
Lemma m_finish' {A} id s v (k : O A) :
  finished s -> respects U F k -> respects U F (modify (set_output id v) ;; modify (set_state id s) ;; k).
Proof. intros Hs. apply respects_modify2. intros r. by apply one, (p_finish id s v). Qed.
Lemma completed : finished Completed. Proof. by left. Qed.
Lemma skipped : finished Skipped. Proof. by right. Qed.

Lemma r_sync_step c o : respects U F (sync_step c o).
Proof. unfold sync_step. respects_all. Qed.
Lemma r_sync_step_basic c : respects U F (sync_step_basic c).
Proof. apply r_sync_step. Qed.
Lemma r_sync_shard id i e : respects U F (sync_shard id i e).
Proof. unfold sync_shard. respects_all. Qed.
Lemma r_sync_thunk_dispatch id t a i : respects U F (sync_thunk_dispatch id t a i).
Proof. unfold sync_thunk_dispatch. respects_all. Qed.
#[local] Hint Resolve r_sync_step r_sync_step_basic r_sync_shard r_sync_thunk_dispatch : trace.
Lemma r_sync_node id : respects U F (sync_node workflow id).
Proof. unfold sync_node. respects_all. Qed.
Lemma r_require_node id : respects U F (require_node workflow id).
Proof. unfold require_node. respects_all. Qed.
Lemma r_sync_whole_run : respects U F sync_whole_run.
Proof. unfold sync_whole_run. respects_all. Qed.
#[local] Hint Resolve r_sync_node r_require_node r_sync_whole_run : trace.

Lemma r_refresh : respects U F (refresh_run_status workflow).
Proof. unfold refresh_run_status. respects_all. Qed.

Lemma r_cancel_thunks ids : respects U F (cancel_thunks ids).
Proof. unfold cancel_thunks. apply respects_each. intros id. respects_all. Qed.
#[local] Hint Resolve r_refresh r_cancel_thunks : trace.

Lemma r_cancel_branches completed branches : respects U F (cancel_branches completed branches).
Proof. induction branches as [|b branches IH]; simpl; respects_all; done. Qed.
#[local] Hint Resolve r_cancel_branches : trace.

Lemma r_check_par id : respects U F (check_par_completion workflow id).
Proof.
  unfold check_par_completion. respects_step; [respects_all|]. respects_step; [respects_all|].
  respects_step; [respects_all|]. respects_step; [respects_all|]. respects_step; [respects_all|].
  apply m_finish'; [apply completed|]. respects_all.
Qed.
#[local] Hint Resolve r_check_par : trace.
Lemma r_notify id : respects U F (notify_par_branch_completed workflow id).
Proof. unfold notify_par_branch_completed. respects_all. Qed.
#[local] Hint Resolve r_notify : trace.

Lemma m_enter_branches branches :
  respects U F (modify (fun run => fold_left (fun run branch_id =>
      let run := on_activated (fun s => {[branch_id]} ∪ s) run in
      match node_states run !! branch_id with
      | None | Some Ready => set_state branch_id Pending run
      | Some _ => run
      end) branches run)).
Proof.
  apply respects_modify. induction branches as [|b branches IH]; intros r; simpl; [done|].
  etrans; [|apply IH]. etrans; [apply one, (p_activated (fun s => {[b]} ∪ s))|].
  destruct (node_states r !! b) as [[]|] eqn:E; try done; apply one, p_requeue; simpl; auto.
Qed.
#[local] Hint Resolve m_enter_branches : trace.
Lemma r_enter_par c branches join : respects U F (enter_par c branches join).
Proof. unfold enter_par. respects_all. Qed.

Lemma r_wait_at_branch c p : respects U F (wait_at_branch c p).
Proof. unfold wait_at_branch. respects_all. Qed.
#[local] Hint Resolve r_wait_at_branch : trace.
Lemma r_advance_match c on cases n : respects U F (advance_match workflow c on cases n).
Proof.
  unfold advance_match. do 2 (respects_step; [respects_all|]). respects_step; [respects_all|].
  respects_step; [|respects_all]. respects_step; [respects_all|]. apply m_finish'; [apply completed|]. respects_all.
Qed.
Lemma r_enter_human_wait c p : respects U F (enter_human_wait c p).
Proof. unfold enter_human_wait. respects_all. Qed.

Lemma r_complete_direct c i v ms : respects U F (complete_apply_node_direct workflow c i v ms).
Proof.
  unfold complete_apply_node_direct. respects_step; [respects_all|]. apply m_finish; [apply completed|]. respects_all.
Qed.

Lemma r_complete_map id : respects U F (complete_map workflow id).
Proof.
  unfold complete_map. respects_step; [respects_all|]. apply m_finish'; [apply completed|]. respects_all.
Qed.
#[local] Hint Resolve r_complete_map r_complete_direct : trace.

Lemma r_run_shard_direct id i v a e : respects U F (run_shard_direct workflow id i v a e).
Proof. unfold run_shard_direct. respects_all. Qed.
Lemma r_run_shard_thunk b id s i v a : respects U F (run_shard_thunk b id s i v a).
Proof. unfold run_shard_thunk. respects_all. Qed.
#[local] Hint Resolve r_run_shard_direct r_run_shard_thunk : trace.
Lemma r_dispatch_shards id s b a c l n : respects U F (dispatch_shards workflow id s b a c l n).
Proof. revert n. induction l as [|i l IH]; intros n; simpl; respects_all; apply IH. Qed.
#[local] Hint Resolve r_dispatch_shards : trace.
Lemma r_dispatch_pending id b : respects U F (dispatch_pending_shards workflow id b).
Proof. unfold dispatch_pending_shards. respects_all. Qed.
#[local] Hint Resolve r_dispatch_pending : trace.
Lemma r_enter_map c col steps n k : respects U F (enter_map workflow c col steps n k).
Proof. unfold enter_map. respects_all. Qed.
Lemma r_shard_completed id i v : respects U F (handle_shard_completed workflow id i v).
Proof. unfold handle_shard_completed. respects_all. Qed.
Lemma r_shard_failed id i e : respects U F (handle_shard_failed workflow id i e).
Proof. unfold handle_shard_failed. respects_all. Qed.

Lemma m_attempt id (s : orc) :
  moves U F (modify (on_attempts <[id := default 0 (node_attempts (o_run s) !! id) + 1]>)) s.
Proof. apply moves_modify. apply one, p_attempt. Qed.

Lemma mark_ready_updates ids r : rtc U r (mark_ready workflow ids r).2.
Proof.
  revert r. induction ids as [|id ids IH]; intros r; simpl; [done|].
  destruct (bool_decide (state_or_pending r id = Pending)) eqn:E; simpl; [|apply IH].
  destruct (forallb _ _); [|apply IH].
  apply bool_decide_eq_true in E. specialize (IH (set_state id Ready r)).
  destruct (mark_ready workflow ids (set_state id Ready r)) as [l r']. simpl in *.
  etrans; [|exact IH]. by apply one, p_ready.
Qed.

Lemma r_take_actionable : respects U F (take_actionable workflow).
Proof.
  intros [r e w]. unfold moves, take_actionable, actionable_nodes. simpl.
  pose proof (mark_ready_updates (btree_set (activated_nodes r)) r) as Hm.
  destruct (mark_ready _ _ _) as [l r']. simpl in *. split; [by apply trace_updates|done].
Qed.

(** What retries and people do besides. *)
Section updates.
Context (HUu : forall r r', update r r' -> U r r').

Lemma one' r r' : update r r' -> rtc U r r'.
Proof. intros Hp. by apply rtc_once, HUu. Qed.

Lemma m_retry id : respects U F (modify (set_state id Pending)).
Proof. apply respects_modify. intros r. apply one', u_retry. Qed.
#[local] Hint Resolve m_retry : trace.

Lemma r_fail_direct c a e : respects U F (fail_apply_node_direct c a e).
Proof. unfold fail_apply_node_direct. respects_all. Qed.
#[local] Hint Resolve r_fail_direct : trace.
Lemma r_schedule_direct c i n a e : respects U F (schedule_apply_direct workflow c i n a e).
Proof. unfold schedule_apply_direct. respects_all. Qed.
#[local] Hint Resolve r_schedule_direct : trace.

Lemma r_lookup_cache c i : respects U F (lookup_cache c i).
Proof. unfold lookup_cache. respects_all. Qed.
#[local] Hint Resolve r_lookup_cache : trace.

Lemma r_schedule_apply c : respects U F (schedule_apply workflow c).
Proof.
  unfold schedule_apply. respects_step; [respects_all|]. respects_step; [respects_all|]. respects_step; [respects_all|].
  respects_step; [apply m_finish; [apply completed|]; respects_all|].
  intros s. apply moves_get_bind, moves_bind; [apply m_attempt|]. intros _ s' _. revert s'.
  match goal with |- forall s', moves U F ?m s' => change (respects U F m) end. respects_all.
Qed.
#[local] Hint Resolve r_schedule_apply r_enter_par r_advance_match r_enter_human_wait r_enter_map : trace.

Lemma r_advance_node id : respects U F (advance_node workflow id).
Proof. unfold advance_node. respects_all. Qed.
#[local] Hint Resolve r_advance_node r_take_actionable : trace.

Section rounds.
Context (HO : F OutOfRounds).
#[local] Hint Resolve respects_stop : trace.
Lemma r_tick_loop n : respects U F (tick_loop workflow n).
Proof. induction n as [|n IH]; simpl; respects_all; apply IH. Qed.
#[local] Hint Resolve r_tick_loop : trace.

Lemma r_start_run : respects U F start_run.
Proof. unfold start_run. respects_all. Qed.
#[local] Hint Resolve r_start_run : trace.
Lemma r_tick_body : respects U F (tick_body workflow).
Proof. unfold tick_body. respects_all. Qed.
End rounds.

Lemma r_result_output res : respects U F (result_output res).
Proof. unfold result_output. respects_all. Qed.
Lemma r_step_succeeded c id o v ms : respects U F (step_succeeded workflow c id o v ms).
Proof. unfold step_succeeded. apply m_finish; [apply completed|]. respects_all. Qed.

Lemma r_step_failed c id st e : respects U F (step_failed c id st e).
Proof.
  unfold step_failed. respects_step; [respects_all|]. respects_step; [|respects_all].
  respects_step; [|respects_all]. apply respects_modify2; [|respects_all].
  intros r. assert (set_state id Pending (set_state id Retrying r) = set_state id Pending r) as ->.
  { unfold set_state, on_states. simpl. by rewrite insert_insert_eq. }
  apply one', u_retry.
Qed.
#[local] Hint Resolve r_result_output r_step_succeeded r_step_failed r_shard_completed r_shard_failed : trace.
Lemma r_handle_thunk_result res : respects U F (handle_thunk_result_body workflow res).
Proof. unfold handle_thunk_result_body. respects_all. Qed.

Lemma r_ensure r id : respects U F (ensure_waiting_human r id).
Proof. unfold ensure_waiting_human. respects_all. Qed.
#[local] Hint Resolve r_ensure : trace.

(** A finished node waits for nobody. *)
Lemma m_decided {A} id s v (k : O A) :
  finished s -> respects U F k ->
  respects U F (modify (set_state id s) ;; modify (set_output id v) ;; modify (on_humans (fun s => s ∖ {[id]})) ;; k).
Proof.
  intros Hs. apply respects_modify3. intros r. eapply rtc_l; [apply HUu, u_progress, (p_finish id s v _ Hs)|].
  apply one', u_answered. simpl. rewrite lookup_insert_eq. by destruct Hs as [->| ->].
Qed.
Lemma m_decided' {A} id s v (k : O A) :
  finished s -> respects U F k ->
  respects U F (modify (set_output id v) ;; modify (set_state id s) ;; modify (on_humans (fun s => s ∖ {[id]})) ;; k).
Proof.
  intros Hs. apply respects_modify3. intros r. eapply rtc_l; [apply HUu, u_progress, (p_finish id s v _ Hs)|].
  apply one', u_answered. simpl. rewrite lookup_insert_eq. by destruct Hs as [->| ->].
Qed.

Lemma r_decide_node id v : respects U F (decide_node workflow id v).
Proof. unfold decide_node. apply m_decided'; [apply completed|]. apply m_successors. Qed.

Lemma m_reset id : respects U F (modify (fun run => reset_node run id)).
Proof. apply respects_modify. intros r. apply one', u_reset. Qed.
Lemma m_resets l : respects U F (modify (fun run => fold_left reset_node l run)).
Proof.
  apply respects_modify. induction l as [|id l IH]; intros r; simpl; [done|].
  etrans; [apply one', (u_reset id)|apply IH].
Qed.
Lemma m_abort : respects U F (modify (on_states (fmap (fun s => if abortable s then Aborted else s)))).
Proof. apply respects_modify. intros r. apply one', u_abort. Qed.
#[local] Hint Resolve r_decide_node m_reset m_resets m_abort : trace.

Lemma r_apply_human_action c a : respects U F (apply_human_action workflow c a).
Proof.
  unfold apply_human_action. respects_step; [respects_all|]. respects_step; try solve [respects_all].
  respects_step; [|respects_all]. apply m_decided; [apply skipped|]. respects_all.
Qed.
#[local] Hint Resolve r_apply_human_action : trace.
Lemma r_handle_human_action a : respects U F (handle_human_action_body workflow a).
Proof. unfold handle_human_action_body. respects_all. Qed.

Lemma r_submit id actor v : respects U F (submit_step_output_body workflow id actor v).
Proof.
  unfold submit_step_output_body. do 2 (respects_step; [respects_all|]).
  respects_step; try solve [respects_all];
    (respects_step; [respects_all|]; apply m_decided; [apply completed|respects_all]).
Qed.
Lemma r_report_progress id actor v : respects U F (report_step_progress_body workflow id actor v).
Proof. unfold report_step_progress_body. respects_all. Qed.
Lemma r_request_human id actor p s : respects U F (request_human_body workflow id actor p s).
Proof. unfold request_human_body. respects_all. Qed.
Lemma r_apply_task_data rid nid a : respects U F (apply_task_data_body workflow rid nid a).
Proof.
  unfold apply_task_data_body. respects_step; [respects_all|].
  repeat (respects_step || (apply respects_on_error; [exact HF|apply r_submit || apply r_handle_human_action|intros ?])).
Qed.
End updates.
End rules.
End operations.

#[export] Hint Resolve u_progress m_status m_updated m_activated m_successors m_running m_failed m_cancelled m_wait m_iterations
  m_thunks m_maps m_map m_map_state m_pars m_metrics m_enter_branches r_sync_step r_sync_step_basic r_sync_shard
  r_sync_thunk_dispatch r_sync_node r_require_node r_sync_whole_run r_refresh r_check_par r_notify r_wait_at_branch
  r_enter_par r_advance_match r_enter_human_wait r_complete_direct r_complete_map r_dispatch_pending r_enter_map
  r_lookup_cache : trace.

