(* ===== verification/WfRunFacts.v ===== *)
(** The calls of the service on a run, the numbering of its events and the
    invariant of its state; then a round of a run: which nodes it takes, that
    the rounds end, and the status they leave. *)
From Stdlib Require Import ZArith Lia Ascii Sorted Permutation.
From stdpp Require Import base tactics numbers gmap strings sorting list relations.
From S2P Require Import Prelude RustString Lists WfJson WfTypes WfGraph WfAnalysis WfCompile WfRun WfOrch WfTick WfTrace.

Section facts.
Context {Number : Type} `{Services Number}.
Abbreviation WorkflowRun := (WorkflowRun Number).
Abbreviation O := (O Number).
Context (workflow : CompiledWorkflow Number).

(** ** Calls *)

Inductive Call :=
| CTick
| CThunkResult (result : ThunkExecutionResult Number)
| CHumanAction (action : HumanAction Number)
| CSubmit (node_id actor : string) (output : Value Number)
| CProgress (node_id actor : string) (progress : Value Number)
| CRequestHuman (node_id actor : string) (prompt : option string) (subject : option (Value Number))
| CTaskData (request_run_id request_node_id : string) (action : option (TaskHumanAction (Number := Number))).

Definition body (c : Call) : O unit :=
  match c with
  | CTick => tick_body workflow
  | CThunkResult result => handle_thunk_result_body workflow result
  | CHumanAction action => handle_human_action_body workflow action
  | CSubmit node_id actor output => submit_step_output_body workflow node_id actor output
  | CProgress node_id actor progress => report_step_progress_body workflow node_id actor progress
  | CRequestHuman node_id actor prompt subject => request_human_body workflow node_id actor prompt subject
  | CTaskData rid nid action => apply_task_data_body workflow rid nid action
  end.

Definition exec (c : Call) : WorkflowRun -> world -> WorkflowRun * world * (failure + list (EventEnvelope Number)) :=
  method (body c).

Lemma r_body c : respects update (fun _ => True) (body c).
Proof.
  destruct c; simpl.
  - by apply r_tick_body; [apply u_progress|..].
  - by apply r_handle_thunk_result; [apply u_progress|..].
  - by apply r_handle_human_action; [apply u_progress|..].
  - by apply r_submit; [apply u_progress|..].
  - by apply r_report_progress.
  - by apply r_request_human; [apply u_progress|..].
  - by apply r_apply_task_data; [apply u_progress|..].
Qed.

(** The runs the service may hold: a new one, and what calls leave of it, in
    whatever world each call finds, also those that fail. *)
Inductive reachable : WorkflowRun -> Prop :=
| reach_new initial w w' r events :
  create_run_with_metrics workflow initial w = (w', inr (r, events)) -> reachable r
| reach_call c r w : reachable r -> reachable (exec c r w).1.1.

(** ** Events *)

Lemma update_seq (r r' : WorkflowRun) : update r r' -> seq r' = seq r /\ run_id r' = run_id r /\ plan_version r' = plan_version r.
Proof. destruct 1 as [r r' []| | | |]; done. Qed.

(** The events since some state are numbered on from it. *)
Definition numbered (s s' : orc) : Prop :=
  run_id (o_run s') = run_id (o_run s) /\
  exists new, o_events s' = o_events s ++ new /\
    ev_seq <$> new = seqZ (seq (o_run s) + 1) (Z.of_nat (length new)) /\
    seq (o_run s') = seq (o_run s) + Z.of_nat (length new) /\
    Forall (fun e => ev_run_id e = run_id (o_run s)) new.

Lemma numbered_trace s s' : trace update s s' -> numbered s s'.
Proof.
  induction 1 as [s|s s1 s2 H1 _ (Hid & new & Hev & Hn & Hs & Hr)].
  { split; [done|]. exists []. rewrite app_nil_r. simpl. split_and!; [done..|lia|constructor]. }
  destruct H1 as [s r Hu|s w|s e w He Hre]; simpl in *.
  - destruct (update_seq _ _ Hu) as (E1 & E2 & _). rewrite E1, E2 in *. split; [done|]. exists new. done.
  - split; [done|]. exists new. done.
  - split; [done|]. exists (e :: new). rewrite Hev, <- app_assoc. csimpl. split_and!; [done| |lia|by constructor].
    rewrite Hn, He. rewrite (seqZ_cons (seq (o_run s) + 1)) by lia. f_equal. f_equal; lia.
Qed.

(** ** The state of a run *)

(** Who waits is listed, and what has finished has an output. *)
Definition run_ok (r : WorkflowRun) : Prop :=
  (forall id, node_states r !! id = Some WaitingHuman -> id ∈ human_waiting_nodes r) /\
  (forall id s, node_states r !! id = Some s -> finished s -> is_Some (node_outputs r !! id)).

Lemma run_ok_states r id s :
  run_ok r -> s <> WaitingHuman -> ~ finished s -> run_ok (set_state id s r).
Proof.
  intros [Hw Ho] Hs Hf. split; simpl.
  - intros id' [[_ Heq]|[_ Hid]]%lookup_insert_Some; [done|]. by apply Hw.
  - intros id' s' [[_ <-]|[_ Hid]]%lookup_insert_Some Hf'; [done|]. by eapply Ho.
Qed.

Ltac unfinished := by intros [|].

Lemma run_ok_progress r r' : progress r r' -> run_ok r -> run_ok r'.
Proof.
  destruct 1 as [s r|t r|f r|id s v r Hs|id s r Hs|id r|id r _|id r _|id r|f r|f r|f r|f r|f r]; intros Hr; try done.
  - destruct Hr as [Hw Ho]. split; simpl.
    + intros id' [[_ ->]|[_ Hid]]%lookup_insert_Some; [by destruct Hs|]. by apply Hw.
    + intros id' s' [[-> _]|[Hne Hid]]%lookup_insert_Some Hf; [by rewrite lookup_insert_eq|].
      rewrite lookup_insert_ne by done. eauto.
  - apply run_ok_states; [done|by destruct Hs as [->|[->| ->]]|]. destruct Hs as [->|[->| ->]]; unfinished.
  - destruct Hr as [Hw Ho]. split; simpl.
    + intros id' [[-> _]|[_ Hid]]%lookup_insert_Some; [set_solver|]. apply Hw in Hid. set_solver.
    + intros id' s' [[_ <-]|[_ Hid]]%lookup_insert_Some Hf; [by destruct Hf|]. by eapply Ho.
  - apply run_ok_states; [done..|unfinished].
  - apply run_ok_states; [done..|unfinished].
Qed.

Lemma run_ok_update r r' : update r r' -> run_ok r -> run_ok r'.
Proof.
  destruct 1 as [r r' Hp|id r|id r Hid|id r|r]; intros Hr.
  - by eapply run_ok_progress.
  - apply run_ok_states; [done..|unfinished].
  - destruct Hr as [Hw Ho]. split; [|exact Ho]. simpl. intros id' Hid'. specialize (Hw id' Hid').
    assert (id' <> id) by (by intros ->). set_solver.
  - destruct Hr as [Hw Ho]. split; simpl.
    + intros id' [[_ [=]]|[Hne Hid']]%lookup_insert_Some. specialize (Hw id' Hid'). set_solver.
    + intros id' s' [[_ <-]|[Hne Hid']]%lookup_insert_Some Hf; [by destruct Hf|].
      rewrite lookup_delete_ne by done. by eapply Ho.
  - destruct Hr as [Hw Ho]. split; simpl.
    + intros id'. rewrite lookup_fmap. intros (s & Hs & Ha)%fmap_Some. destruct s; simpl in Ha; try done.
    + intros id' s'. rewrite lookup_fmap. intros (s & Hs & ->)%fmap_Some Hf. eapply Ho; [done|].
      destruct s; simpl in Hf; try done; by destruct Hf.
Qed.

Lemma run_ok_trace s s' : trace update s s' -> run_ok (o_run s) -> run_ok (o_run s').
Proof.
  induction 1 as [s|s s1 s2 H1 _ IH]; [done|]. intros Hr. apply IH.
  destruct H1 as [s r Hu| |s e w]; simpl; [by eapply run_ok_update|done|exact Hr].
Qed.

Lemma method_trace (m : O unit) r w :
  respects update (fun _ => True) m -> exists s, trace update (mkOrc r [] w) s /\
    (method m r w).1.1 = o_run s /\ forall events, (method m r w).2 = inr events -> events = o_events s.
Proof.
  intros Hm. specialize (Hm (mkOrc r [] w)) as [Ht _]. unfold method.
  destruct (m (mkOrc r [] w)) as [s res]. exists s. split_and!; [done..|]. intros events. destruct res; [done|].
  by intros [= <-].
Qed.

Lemma reachable_ok r : reachable r -> run_ok r.
Proof.
  induction 1 as [initial w w' r events Hc|c r w _ IH].
  - revert Hc. unfold create_run_with_metrics. destruct (timestamp w) as [w1 now], (uuid w1) as [w2 id].
    destruct (method_trace (emit_event "run.created" None "engine" None ;; sync_whole_run) (new_run workflow id now initial) w2)
      as (s & Ht & Hr & _).
    { apply respects_bind; [apply respects_emit|]. intros _. by apply r_sync_whole_run. }
    destruct (method _ _ _) as [[r' w3] [e|evs]]; [done|]. intros [= <- <- <-]. simpl in Hr. subst r'.
    apply (run_ok_trace _ _ Ht). split; simpl.
    + intros i. rewrite lookup_fmap. by intros (? & _ & [=])%fmap_Some.
    + intros i st. rewrite lookup_fmap. intros (? & _ & ->)%fmap_Some. unfinished.
  - unfold exec. destruct (method_trace (body c) r w (r_body c)) as (s & Ht & -> & _).
    by apply (run_ok_trace _ _ Ht).
Qed.
End facts.

Section facts.
Context {Number : Type} `{Services Number}.
Abbreviation WorkflowRun := (WorkflowRun Number).
Abbreviation O := (O Number).
Context (workflow : CompiledWorkflow Number).
Implicit Types (r : WorkflowRun) (s : orc (Number := Number)).

(** ** The nodes of a round *)

(** A node that may start: it is pending and what it depends on has finished. *)
Definition may_start (r : WorkflowRun) (id : string) : bool :=
  bool_decide (state_or_pending r id = Pending)
  && forallb (dependency_satisfied workflow r id) (dependencies (cw_graph workflow) id).

Lemma state_set_state r id (s : NodeRunState) id' :
  state_or_pending (set_state id s r) id' = if decide (id' = id) then s else state_or_pending r id'.
Proof.
  unfold state_or_pending. simpl. destruct (decide (id' = id)) as [->|Hne]; [by rewrite lookup_insert_eq|].
  by rewrite lookup_insert_ne.
Qed.

(** Marking a pending node does not change what others may do. *)
Lemma satisfied_ready r id id' dep :
  state_or_pending r id = Pending ->
  dependency_satisfied workflow (set_state id Ready r) id' dep = dependency_satisfied workflow r id' dep.
Proof.
  unfold dependency_satisfied, state_or_pending. simpl. intros Hp.
  destruct (decide (dep = id)) as [->|Hne]; [|by rewrite lookup_insert_ne].
  rewrite lookup_insert_eq. destruct (node_states r !! id) as [[]|]; done.
Qed.

Lemma may_start_ready r id id' :
  state_or_pending r id = Pending -> id' <> id -> may_start (set_state id Ready r) id' = may_start r id'.
Proof.
  intros Hp Hne. unfold may_start. rewrite state_set_state. rewrite decide_False by done. f_equal.
  induction (dependencies (cw_graph workflow) id') as [|dep l IH]; simpl; [done|]. by rewrite satisfied_ready, IH.
Qed.

Lemma mark_ready_exact ids r :
  NoDup ids -> mark_ready workflow ids r =
    (List.filter (may_start r) ids, fold_left (fun r id => set_state id Ready r) (List.filter (may_start r) ids) r).
Proof.
  revert r. induction ids as [|id ids IH]; intros r; simpl; [done|]. intros [Hid Hnd]%NoDup_cons.
  change (bool_decide (state_or_pending r id = Pending)
    && forallb (dependency_satisfied workflow r id) (dependencies (graph workflow) id)) with (may_start r id).
  destruct (may_start r id) eqn:Em; [|by apply IH]. rewrite IH by done. simpl.
  assert (List.filter (may_start (set_state id Ready r)) ids = List.filter (may_start r) ids) as ->; [|done].
  apply filter_ext_in. intros x Hx%list_elem_of_In. apply may_start_ready; [|by intros ->].
  unfold may_start in Em. by apply andb_true_iff in Em as [?%bool_decide_eq_true _].
Qed.

Lemma actionable_exact r :
  actionable_nodes workflow r =
    (List.filter (may_start r) (btree_set (activated_nodes r)),
     fold_left (fun r id => set_state id Ready r) (List.filter (may_start r) (btree_set (activated_nodes r))) r).
Proof. apply mark_ready_exact, NoDup_btree_set. Qed.

Lemma fold_ready_state l r id :
  state_or_pending (fold_left (fun r id => set_state id Ready r) l r) id =
    if decide (id ∈ l) then Ready else state_or_pending r id.
Proof.
  revert r. induction l as [|x l IH]; intros r; cbn [fold_left]; [by case_decide; [set_solver|]|].
  rewrite IH, state_set_state. repeat case_decide; set_solver.
Qed.

(** ** The status of a run *)

Definition some_state (s : NodeRunState) r : Prop := exists id, node_states r !! id = Some s.

Lemma any_state_spec (s : NodeRunState) r : any_state s r = true <-> some_state s r.
Proof.
  unfold any_state, some_state. rewrite existsb_exists. split.
  - intros ([id s'] & Hin & Hs%bool_decide_eq_true). simpl in Hs. subst s'.
    exists id. by apply elem_of_map_to_list, list_elem_of_In.
  - intros [id Hid]. exists (id, s). rewrite <- list_elem_of_In, elem_of_map_to_list. by rewrite bool_decide_eq_true.
Qed.

(** What the nodes of a run say of it. *)
Definition status_of (r : WorkflowRun) (s : RunStatus) : Prop :=
  match s with
  | RunWaitingHuman => some_state WaitingHuman r
  | RunRunning => ~ some_state WaitingHuman r /\
      (some_state Running r \/ exists id, id ∈ activated_nodes r /\ node_states r !! id = Some Pending)
  | RunFailed => ~ some_state WaitingHuman r /\ ~ some_state Running r /\
      (forall id, id ∈ activated_nodes r -> node_states r !! id <> Some Pending) /\ some_state Failed r
  | RunCompleted => ~ some_state WaitingHuman r /\ ~ some_state Running r /\
      (forall id, id ∈ activated_nodes r -> node_states r !! id <> Some Pending) /\ ~ some_state Failed r
  | _ => False
  end.

(** The nodes of a run, which events and the clock leave alone. *)
Definition same_nodes (r r' : WorkflowRun) : Prop :=
  node_states r' = node_states r /\ activated_nodes r' = activated_nodes r.

Lemma status_of_same r r' (s : RunStatus) : same_nodes r r' -> status_of r s -> status_of r' s.
Proof. intros [E1 E2]. unfold status_of, some_state. by rewrite E1, E2. Qed.

Lemma emit_run type node actor payload s :
  o_run ((emit_event type node actor payload) s).1 = with_seq (seq (o_run s) + 1) (o_run s) /\
  (emit_event type node actor payload s).2 = inr tt.
Proof.
  unfold emit_event, mbind, O_bind, modify, get_run, read, push_event. simpl.
  destruct (uuid (o_world s)) as [w1 i]. simpl. destruct (rfc3339 w1) as [w2 ts]. done.
Qed.

Ltac emitted :=
  match goal with |- context [emit_event ?t ?n ?a ?p ?s] =>
    let He1 := fresh in let He2 := fresh in
    destruct (emit_run t n a p s) as [He1 He2]; destruct (emit_event t n a p s) as [? ?];
    simpl in *; rewrite He1, He2
  end.

Lemma refresh_exact s :
  let '(s', res) := refresh_run_status workflow s in
  res = inr tt /\ same_nodes (o_run s) (o_run s') /\
  if bool_decide (status (o_run s) = RunAborted) then status (o_run s') = RunAborted
  else status_of (o_run s) (status (o_run s')).
Proof.
  unfold refresh_run_status. unfold mbind at 1, O_bind at 1. unfold read at 1.
  destruct (timestamp (o_world s)) as [w now]. unfold mbind at 1, O_bind at 1. unfold modify at 1. simpl.
  unfold mbind at 1, O_bind at 1, get_run at 1. simpl.
  set (r := o_run s). change (status (with_updated now r)) with (status r).
  case_bool_decide as Ha; [done|].
  pose proof (any_state_spec WaitingHuman (with_updated now r)) as Hw.
  destruct (any_state WaitingHuman (with_updated now r)); [split_and!; [done..|]; by apply Hw|].
  assert (~ some_state WaitingHuman r) as Hnw by (intros Hs; by apply Hw in Hs).
  pose proof (any_state_spec Running (with_updated now r)) as Hr.
  destruct (any_state Running (with_updated now r)); [split_and!; [done..|]; split; [done|]; left; by apply Hr|].
  assert (~ some_state Running r) as Hnr by (intros Hs; by apply Hr in Hs).
  destruct (existsb _ _) eqn:Ep.
  { apply existsb_exists in Ep as (id & Hin%list_elem_of_In & Hs%bool_decide_eq_true).
    split_and!; [done..|]. split; [done|]. right. exists id. split; [|done]. by apply elem_of_elements in Hin. }
  assert (forall id, id ∈ activated_nodes r -> node_states r !! id <> Some Pending) as Hnp.
  { intros id Hin Hs. apply not_true_iff_false in Ep. apply Ep, existsb_exists. exists id.
    rewrite <- list_elem_of_In, elem_of_elements. split; [done|]. by apply bool_decide_eq_true. }
  pose proof (any_state_spec Failed (with_updated now r)) as Hf.
  destruct (any_state Failed (with_updated now r)).
  - case_bool_decide as Hs; [split_and!; [done..|]; simpl; rewrite Hs; by split_and!; [..|apply Hf]|].
    unfold mbind, O_bind, modify. simpl. emitted. split_and!; [done..|]. by split_and!; [..|apply Hf].
  - assert (~ some_state Failed r) as Hnf by (intros Hs; by apply Hf in Hs).
    case_bool_decide as Hs; [split_and!; [done..|]; simpl; by rewrite Hs|].
    unfold mbind, O_bind, modify. simpl. emitted. by split_and!.
Qed.

Lemma sync_run_same s : o_run (sync_whole_run s).1 = o_run s.
Proof.
  unfold sync_whole_run, mbind, O_bind, get_run, call. destruct (sync_run (o_run s) (o_world s)) as [w [e|[]]]; done.
Qed.
End facts.
