(* ===== verification/WfRounds.v ===== *)
(** The rounds of a run end: what each round uses up. *)
From Stdlib Require Import ZArith Lia Ascii Sorted Permutation.
From stdpp Require Import base tactics numbers gmap strings sorting list relations.
From S2P Require Import Prelude RustString Lists WfJson WfTypes WfGraph WfAnalysis WfCompile WfRun WfOrch WfTick WfTrace.
From S2P Require Import WfRunFacts.

Section rounds.
Context {Number : Type} `{Services Number}.
Abbreviation WorkflowRun := (WorkflowRun Number).
Abbreviation O := (O Number).
Context (workflow : CompiledWorkflow Number).
Implicit Types (r : WorkflowRun) (s : orc (Number := Number)).

(** ** What updates use up *)

Definition attempts r (id : string) : Z := default 0 (node_attempts r !! id).
Definition waits r (id : string) : Prop := waiting_to_run (state_or_pending r id) = true.

(** No attempt is given back. *)
Definition spends r r' : Prop := forall id, attempts r id <= attempts r' id.
(** Besides, no node is made to wait for its turn. *)
Definition quieter r r' : Prop := spends r r' /\ forall id, waits r' id -> waits r id.

#[local] Instance spends_preorder : PreOrder spends.
Proof. split; [intros r id; lia|]. intros r1 r2 r3 H12 H23 id. specialize (H12 id). specialize (H23 id). lia. Qed.
#[local] Instance quieter_preorder : PreOrder quieter.
Proof. split; [intros r; by split|]. intros r1 r2 r3 [? H12] [? H23]. split; [by etrans|]. auto. Qed.

Lemma spends_same r r' : node_attempts r' = node_attempts r -> spends r r'.
Proof. intros He id. unfold attempts. by rewrite He. Qed.
Lemma quieter_same r r' : node_attempts r' = node_attempts r -> node_states r' = node_states r -> quieter r r'.
Proof. intros He Hs. split; [by apply spends_same|]. unfold waits, state_or_pending. by rewrite Hs. Qed.

Lemma waits_set_state r id (st : NodeRunState) id' :
  waits (set_state id st r) id' -> waits r id' \/ id' = id /\ waiting_to_run st = true.
Proof. unfold waits. rewrite state_set_state. case_decide; auto. Qed.

Lemma waits_set_quiet r id (st : NodeRunState) id' : waiting_to_run st = false -> waits (set_state id st r) id' -> waits r id'.
Proof. intros Hst [|[_ Ht]]%waits_set_state; [done|by rewrite Hst in Ht]. Qed.

Lemma spends_attempt r id :
  spends r (on_attempts <[id := default 0 (node_attempts r !! id) + 1]> r).
Proof.
  intros id'. unfold attempts. simpl. destruct (decide (id' = id)) as [->|Hne].
  - rewrite lookup_insert_eq. simpl. lia.
  - by rewrite lookup_insert_ne.
Qed.

Lemma progress_quieter r r' : progress r r' -> quieter r r'.
Proof.
  destruct 1 as [| | |id s v r Hs|id s r Hs|id r|id r Hs|id r Hs|id r| | | | |]; try by apply quieter_same.
  - split; [by apply spends_same|]. intros id'. apply waits_set_quiet. by destruct Hs as [->| ->].
  - split; [by apply spends_same|]. intros id'. apply waits_set_quiet. by destruct Hs as [->|[->| ->]].
  - split; [by apply spends_same|]. intros id'. by apply waits_set_quiet.
  - split; [by apply spends_same|]. intros id' [|[-> _]]%waits_set_state; [done|].
    unfold waits, state_or_pending. by destruct Hs as [->| ->].
  - split; [by apply spends_same|]. intros id' [|[-> _]]%waits_set_state; [done|]. unfold waits. by rewrite Hs.
  - split; [apply spends_attempt|done].
Qed.

Lemma update_spends r r' : update r r' -> spends r r'.
Proof. destruct 1 as [r r' Hp| | | |]; try by apply spends_same. by apply progress_quieter. Qed.

Lemma trace_ends (R : relation WorkflowRun) (U : relation WorkflowRun) `{!PreOrder R} s s' :
  (forall r r', U r r' -> R r r') -> (forall r n, R r (with_seq n r)) -> trace U s s' -> R (o_run s) (o_run s').
Proof.
  intros HU Hseq. induction 1 as [s|s s1 s2 H1 _ IH]; [done|]. etrans; [|exact IH].
  destruct H1; simpl; auto. done.
Qed.

Lemma trace_spends s s' : trace update s s' -> spends (o_run s) (o_run s').
Proof. apply trace_ends; [apply _|apply update_spends|intros; by apply spends_same]. Qed.
Lemma trace_quieter s s' : trace progress s s' -> quieter (o_run s) (o_run s').
Proof. apply trace_ends; [apply _|apply progress_quieter|intros; by apply quieter_same]. Qed.

(** ** A node that has had its turn *)

Lemma bind_inv {A B} (m : O A) (f : A -> O B) s s' b :
  (m ≫= f) s = (s', inr b) -> exists s1 a, m s = (s1, inr a) /\ f a s1 = (s', inr b).
Proof. unfold mbind, O_bind. destruct (m s) as [s1 [e|a]]; [done|]. eauto. Qed.

Definition settled r (id : string) : Prop := ~ waits r id.
Definition keeps {A} (id : string) (m : O A) : Prop := forall s, settled (o_run s) id -> settled (o_run (m s).1) id.
(** Where it succeeds, the node has had its turn. *)
Definition settles {A} (id : string) (m : O A) : Prop := forall s s' a, m s = (s', inr a) -> settled (o_run s') id.

Lemma respects_keeps {A} F id (m : O A) : respects progress F m -> keeps id m.
Proof. intros Hm s Hs. destruct (Hm s) as [[_ Hq]%trace_quieter _]. unfold settled in *. auto. Qed.

Lemma keeps_bind {A B} id (m : O A) (f : A -> O B) : keeps id m -> (forall a, keeps id (f a)) -> keeps id (m ≫= f).
Proof.
  intros Hm Hf s Hs. unfold mbind, O_bind. specialize (Hm s Hs). destruct (m s) as [s1 [e|a]]; [done|]. by apply Hf.
Qed.

Lemma keeps_output id id' v : keeps id (modify (set_output id' v)).
Proof. intros s Hs. exact Hs. Qed.

Lemma settles_bind {A B} id (m : O A) (f : A -> O B) : (forall a, settles id (f a)) -> settles id (m ≫= f).
Proof. intros Hf s s' b (s1 & a & _ & Hs)%bind_inv. by eapply Hf. Qed.

Lemma settles_then {A B} id (m : O A) (f : A -> O B) :
  settles id m -> (forall a, keeps id (f a)) -> settles id (m ≫= f).
Proof.
  intros Hm Hf s s' b (s1 & a & H1 & H2)%bind_inv. specialize (Hm _ _ _ H1). specialize (Hf a s1 Hm).
  by rewrite H2 in Hf.
Qed.

Lemma settles_throw {A} id e : settles id (throw (A := A) e).
Proof. by intros s s' a. Qed.

Lemma settles_state id (st : NodeRunState) : waiting_to_run st = false -> settles id (modify (set_state id st)).
Proof. intros Hst s s' a [= <- _]. unfold settled, waits. cbn [o_run]. by rewrite state_set_state, decide_True, Hst. Qed.
Lemma settles_wait id : settles id (modify (wait_human id)).
Proof. intros s s' a [= <- _]. change (settled (set_state id WaitingHuman (o_run s)) id). unfold settled, waits.
  by rewrite state_set_state, decide_True.
Qed.

Lemma settles_finish {A} id (st : NodeRunState) v (k : O A) :
  waiting_to_run st = false -> keeps id k -> settles id (modify (set_state id st) ;; modify (set_output id v) ;; k).
Proof.
  intros Hst Hk. apply settles_then; [by apply settles_state|]. intros _. apply keeps_bind; [apply keeps_output|done].
Qed.

Ltac keeping := intros ?; eapply (respects_keeps (fun _ => True)); respects_all.
Ltac settle :=
  repeat match goal with
  | |- settles _ (match ?x with _ => _ end) => destruct x
  | |- settles _ (throw _) => apply settles_throw
  | |- settles _ (modify (set_state _ _) ≫= (fun _ => modify (set_output _ _) ≫= _)) =>
    apply settles_finish; [done|eapply (respects_keeps (fun _ => True)); respects_all]
  | |- settles _ (modify (set_state _ _) ≫= _) => apply settles_then; [by apply settles_state|keeping]
  | |- settles _ (modify (wait_human _) ≫= _) => apply settles_then; [apply settles_wait|keeping]
  | |- settles _ (_ ≫= _) => apply settles_bind; intros ?
  end.

Lemma settles_par c branches join : settles (cn_id c) (enter_par c branches join).
Proof. unfold enter_par. settle. Qed.
Lemma settles_match c on cases n : settles (cn_id c) (advance_match workflow c on cases n).
Proof. unfold advance_match, wait_at_branch. settle. Qed.
Lemma settles_human_wait c p : settles (cn_id c) (enter_human_wait c p).
Proof. unfold enter_human_wait. settle. Qed.
Lemma settles_map c col steps n k : settles (cn_id c) (enter_map workflow c col steps n k).
Proof. unfold enter_map. settle. Qed.

(** ** A step that is not repeated *)

Section last.
Context (F : failure -> Prop) (HF : forall e, e <> OutOfRounds -> F e).

Lemma r_fail_last c attempt e :
  max_attempts (retry_policy c) <= attempt -> respects progress F (fail_apply_node_direct c attempt e).
Proof.
  intros Hm. unfold fail_apply_node_direct. rewrite (proj2 (Z.ltb_ge _ _) Hm).
  respects_all.
Qed.
Lemma settles_fail_last c attempt e :
  max_attempts (retry_policy c) <= attempt -> settles (cn_id c) (fail_apply_node_direct c attempt e).
Proof.
  intros Hm. unfold fail_apply_node_direct. rewrite (proj2 (Z.ltb_ge _ _) Hm).
  apply settles_then; [|keeping]. settle.
Qed.

Lemma r_direct_last c i attempt a e :
  max_attempts (retry_policy c) <= attempt -> respects progress F (schedule_apply_direct workflow c i attempt a e).
Proof.
  intros Hm. pose proof (r_fail_last c attempt). unfold schedule_apply_direct. respects_all.
Qed.
Lemma settles_direct_last c i attempt a e :
  max_attempts (retry_policy c) <= attempt -> settles (cn_id c) (schedule_apply_direct workflow c i attempt a e).
Proof.
  intros Hm. unfold schedule_apply_direct, complete_apply_node_direct.
  do 3 (apply settles_bind; intros _). apply settles_bind. intros [err|output]; [by apply settles_fail_last|settle].
Qed.
End last.

(** ** A turn *)

(** An attempt of the node was used, or the node has had its turn. *)
Definition turned (c : CompiledNode Number) r r' : Prop :=
  attempts r (cn_id c) < max_attempts (retry_policy c) /\ attempts r (cn_id c) < attempts r' (cn_id c)
  \/ quieter r r' /\ settled r' (cn_id c).

Definition steady {A} (m : O A) : Prop := respects progress (fun e => e <> OutOfRounds) m.

Lemma steady_turned {A} c (m : O A) s s' a :
  steady m -> settles (cn_id c) m -> m s = (s', inr a) -> turned c (o_run s) (o_run s').
Proof.
  intros Hm Hs E. right. split; [|by eapply Hs]. destruct (Hm s) as [Ht _]. rewrite E in Ht. by apply trace_quieter.
Qed.

Lemma turned_after c r1 r2 r3 : quieter r1 r2 -> turned c r2 r3 -> turned c r1 r3.
Proof.
  intros [Ha Hw] [[]|[]]; specialize (Ha (cn_id c)) as Hc; [left; lia|right]. split; [by etrans; [split|]|done].
Qed.

Lemma steady_run {A} (m : O A) s s' a : steady m -> m s = (s', inr a) -> quieter (o_run s) (o_run s').
Proof. intros Hm E. destruct (Hm s) as [Ht _]. rewrite E in Ht. by apply trace_quieter. Qed.

(** The part of [schedule_apply] after the cache. *)
Lemma turned_attempt c s s' (f : Z -> O unit) :
  (forall n, respects update (fun e => e <> OutOfRounds) (f n)) ->
  (forall n, max_attempts (retry_policy c) <= n -> steady (f n) /\ settles (cn_id c) (f n)) ->
  (modify (on_attempts <[cn_id c := attempts (o_run s) (cn_id c) + 1]>) ;; f (attempts (o_run s) (cn_id c) + 1)) s = (s', inr tt) ->
  turned c (o_run s) (o_run s').
Proof.
  intros Hu Hl E. set (n := attempts (o_run s) (cn_id c)) in *.
  apply bind_inv in E as (s1 & u & E1 & E). unfold modify in E1. injection E1 as <- _.
  pose proof (spends_attempt (o_run s) (cn_id c)) as Hsp. change (default 0 _) with n in Hsp.
  destruct (decide (n < max_attempts (retry_policy c))) as [Hlt|Hge].
  - left. split; [done|]. destruct (Hu (n + 1) (mkOrc (on_attempts <[cn_id c := n + 1]> (o_run s)) (o_events s) (o_world s))) as [Ht _].
    rewrite E in Ht. apply trace_spends in Ht. specialize (Ht (cn_id c)). unfold attempts in Ht at 1. simpl in Ht.
    rewrite lookup_insert_eq in Ht. simpl in Ht. unfold n. lia.
  - destruct (Hl (n + 1) ltac:(lia)) as [H1 H2]. apply turned_after with (on_attempts <[cn_id c := n + 1]> (o_run s)).
    + split; [exact Hsp|done].
    + exact (steady_turned c _ _ _ _ H1 H2 E).
Qed.

Lemma schedule_turned c s s' :
  schedule_apply workflow c s = (s', inr tt) -> turned c (o_run s) (o_run s').
Proof.
  intros (s0 & run & [= <- <-] & (s1 & input & E1 & (s2 & cached & E2 & E)%bind_inv)%bind_inv)%bind_inv.
  assert (quieter (o_run s) (o_run s2)) as Hq.
  { apply (transitivity (y := o_run s1)).
    - eapply steady_run; [|exact E1]. unfold steady. respects_all.
    - eapply steady_run; [|exact E2]. unfold steady. respects_all. }
  apply turned_after with (o_run s2); [done|]. destruct cached as [v|].
  - eapply steady_turned; [| |exact E].
    + apply m_finish; [auto..|apply completed|]. respects_all.
    + settle.
  - eapply (turned_attempt c s2 s' (fun attempt => match adapter_for c with
        | Some (adapter, executor) => schedule_apply_direct workflow c input attempt adapter executor
        | None => _ end)); [| |exact E].
    + intros n. cbn beta. pose proof (r_schedule_direct workflow update u_progress (fun e => e <> OutOfRounds)). respects_all.
    + intros n Hn. destruct (adapter_for c) as [[a e]|].
      * split; [by apply r_direct_last|by apply settles_direct_last].
      * split; [unfold steady; respects_all|settle].
Qed.

(** The nodes of a compiled workflow are kept under their ids. *)
Context (Hids : forall id c, cw_nodes workflow !! id = Some c -> cn_id c = id).

Lemma advance_turned id c s s' :
  cw_nodes workflow !! id = Some c -> advance_node workflow id s = (s', inr tt) -> turned c (o_run s) (o_run s').
Proof.
  intros Hc (s1 & compiled & E1 & E)%bind_inv. unfold require_node, node in E1. rewrite Hc in E1.
  injection E1 as <- <-. revert E. cbn beta. destruct (cn_expr c).
  - apply schedule_turned.
  - apply steady_turned; [unfold steady; respects_all|apply settles_match].
  - apply steady_turned; [unfold steady; respects_all|apply settles_par].
  - apply steady_turned; [unfold steady; respects_all|apply settles_map].
  - apply steady_turned; [unfold steady; respects_all|apply settles_human_wait].
Qed.

(** ** The measure *)

Definition measure r : nat := tick_rounds workflow r.

Lemma attempts_left_mono r r' id c : spends r r' -> (attempts_left r' id c <= attempts_left r id c)%nat.
Proof. intros Hs. specialize (Hs id). unfold attempts_left, attempts in *. lia. Qed.

Lemma total_attempts_mono r r' : spends r r' -> (total_attempts workflow r' <= total_attempts workflow r)%nat.
Proof. intros Hs. apply sum_list_le. intros [id c] _. by apply attempts_left_mono. Qed.

Lemma total_waiting_bound r : (total_waiting workflow r <= size (cw_nodes workflow))%nat.
Proof.
  rewrite <- (Nat.mul_1_l (size _)). rewrite <- length_map_to_list. apply sum_list_bound.
  intros [id c] _. simpl. by destruct (waiting_to_run _); simpl; lia.
Qed.

Lemma waiting_mono r r' id : (waits r' id -> waits r id) ->
  (Nat.b2n (waiting_to_run (state_or_pending r' id)) <= Nat.b2n (waiting_to_run (state_or_pending r id)))%nat.
Proof. unfold waits. destruct (waiting_to_run (_ r' _)), (waiting_to_run (_ r _)); simpl; lia. Qed.

Lemma quieter_measure r r' : quieter r r' -> (measure r' <= measure r)%nat.
Proof.
  intros [Ha Hw]. pose proof (total_attempts_mono _ _ Ha).
  assert (total_waiting workflow r' <= total_waiting workflow r)%nat.
  { apply sum_list_le. intros [id c] _. apply waiting_mono, Hw. }
  unfold measure, tick_rounds. nia.
Qed.

Lemma turned_measure id c r r' :
  cw_nodes workflow !! id = Some c -> spends r r' -> turned c r r' ->
  (measure r' <= measure r)%nat /\ (waits r id -> (measure r' < measure r)%nat).
Proof.
  intros Hc Hs Ht. pose proof (Hids _ _ Hc) as Hid. apply elem_of_map_to_list in Hc as Hin.
  destruct Ht as [[Hm Hlt]|[Hq Hset]]; rewrite Hid in *.
  - assert (total_attempts workflow r' < total_attempts workflow r)%nat as Hta.
    { apply (sum_list_lt _ _ _ (id, c)); [|done|].
      - intros [i k] _. by apply attempts_left_mono.
      - simpl. unfold attempts_left. unfold attempts in *. lia. }
    pose proof (total_waiting_bound r'). unfold measure, tick_rounds. nia.
  - split; [by apply quieter_measure|]. intros Hwait. destruct Hq as [Ha Hw].
    pose proof (total_attempts_mono _ _ Ha). unfold settled in Hset.
    assert (total_waiting workflow r' < total_waiting workflow r)%nat.
    { apply (sum_list_lt _ _ _ (id, c)); [|done|].
      - intros [i k] _. apply waiting_mono, Hw.
      - simpl. unfold waits in *. rewrite Hwait. destruct (waiting_to_run _); [done|simpl; lia]. }
    unfold measure, tick_rounds. nia.
Qed.

(** ** The loop *)

Lemma r_turn id : respects update (fun e => e <> OutOfRounds) (advance_node workflow id).
Proof. by apply r_advance_node; [apply u_progress|..]. Qed.

Lemma advance_measure id s s' :
  advance_node workflow id s = (s', inr tt) ->
  (measure (o_run s') <= measure (o_run s))%nat /\ (waits (o_run s) id -> (measure (o_run s') < measure (o_run s))%nat).
Proof.
  intros E. destruct (cw_nodes workflow !! id) as [c|] eqn:Hc.
  - apply (turned_measure id c); [done| |by eapply advance_turned].
    destruct (r_turn id s) as [Ht _]. rewrite E in Ht. by apply trace_spends.
  - apply bind_inv in E as (s1 & compiled & E1 & _). unfold require_node, node in E1. by rewrite Hc in E1.
Qed.

Lemma each_measure l s s' :
  each (advance_node workflow) l s = (s', inr tt) ->
  (measure (o_run s') <= measure (o_run s))%nat /\
  (forall id, head l = Some id -> waits (o_run s) id -> (measure (o_run s') < measure (o_run s))%nat).
Proof.
  revert s. induction l as [|id l IH]; intros s; simpl; [by intros [= <-]|].
  intros (s1 & [] & E1 & E2)%bind_inv. apply advance_measure in E1 as [H1 H1']. apply IH in E2 as [H2 _].
  split; [lia|]. intros id' [= <-] Hw. specialize (H1' Hw). lia.
Qed.

Lemma each_ends l s e : (each (advance_node workflow) l s).2 = inl e -> e <> OutOfRounds.
Proof. apply (respects_each update (fun e => e <> OutOfRounds)). intros id. apply r_turn. Qed.

(** The nodes of a round are ready when it starts. *)
Lemma take_actionable_spec s :
  exists r', take_actionable workflow s = (mkOrc r' (o_events s) (o_world s), inr (actionable_nodes workflow (o_run s)).1) /\
    quieter (o_run s) r' /\ forall id, id ∈ (actionable_nodes workflow (o_run s)).1 -> waits r' id.
Proof.
  unfold take_actionable. rewrite actionable_exact. eexists. split; [done|]. split.
  - eapply (trace_quieter (mkOrc _ [] (o_world s)) (mkOrc _ [] (o_world s))), (trace_updates progress).
    pose proof (mark_ready_updates workflow progress ltac:(done) (btree_set (activated_nodes (o_run s))) (o_run s)) as Hm.
    by rewrite mark_ready_exact in Hm by apply NoDup_btree_set.
  - intros id Hid. unfold waits. by rewrite fold_ready_state, decide_True.
Qed.

Lemma tick_loop_ends n s : (measure (o_run s) < n)%nat -> (tick_loop workflow n s).2 <> inl OutOfRounds.
Proof.
  revert s. induction n as [|n IH]; intros s Hn; [lia|]. cbn [tick_loop].
  unfold mbind at 1, O_bind at 1. destruct (take_actionable_spec s) as (r' & -> & Hq & Hw).
  destruct (actionable_nodes workflow (o_run s)).1 as [|id l]; [done|]. apply quieter_measure in Hq.
  unfold mbind, O_bind. set (s1 := mkOrc r' _ _). pose proof (each_ends (id :: l) s1) as He.
  pose proof (each_measure (id :: l) s1) as Hm. destruct (each (advance_node workflow) (id :: l) s1) as [s2 [e|[]]].
  - simpl in *. intros [= ->]. by apply (He OutOfRounds).
  - apply IH. destruct (Hm s2 eq_refl) as [_ Hlt]. specialize (Hlt id eq_refl (Hw id ltac:(by left))). simpl in Hlt. lia.
Qed.

Lemma tick_ends r w : (tick workflow r w).2 <> inl OutOfRounds.
Proof.
  unfold tick, method. assert ((tick_body workflow (mkOrc r [] w)).2 <> inl OutOfRounds) as Hb.
  2:{ destruct (tick_body workflow (mkOrc r [] w)) as [s [e|[]]]; simpl in *; congruence. }
  set (NR := fun e : failure => e <> OutOfRounds). assert (forall e, e <> OutOfRounds -> NR e) as HNR by done.
  unfold tick_body. pose proof (r_start_run progress ltac:(done) NR (mkOrc r [] w)) as [_ Hs].
  unfold mbind at 1, O_bind at 1. destruct (start_run _) as [s1 [e|[]]]; cbn [snd fst] in *.
  { intros [= ->]. by apply (Hs OutOfRounds). }
  unfold mbind at 1, O_bind at 1, get_run at 1. unfold mbind at 1, O_bind at 1. cbn beta iota.
  pose proof (tick_loop_ends (S (tick_rounds workflow (o_run s1))) s1 ltac:(unfold measure; lia)) as Hl.
  destruct (tick_loop _ _ s1) as [s2 [e|[]]]; [simpl in *; congruence|].
  assert (respects progress NR (refresh_run_status workflow ;; sync_whole_run)) as Hr by respects_all.
  intros E. by apply (proj2 (Hr s2) _ E).
Qed.
End rounds.
