(* ===== verification/WfRunTheorems.v ===== *)
(** What holds of the runs of workflows, after the services of the examples. *)
From Stdlib Require Import ZArith Lia Ascii Sorted Permutation.
From stdpp Require Import base tactics numbers gmap strings sorting list relations.
From S2P Require Import Prelude RustString Lists WfJson WfTypes WfGraph WfAnalysis WfCompile WfTheorems WfRun WfOrch.
From S2P Require Import WfTick WfTrace WfRunFacts WfRounds.

(** ** Services to run examples with

    An object store that keeps what it is given, a dispatcher that takes every
    thunk, a tracker that is never in the way, an adapter for the [service::]
    executors that answers every call with one value, and a hash that is the
    printed value. *)

Module WfSandbox.
Abbreviation Document := (Value Z).

(** Numbers are written in unary. *)
Fixpoint print (v : Document) : string :=
  match v with
  | VNull => "null"
  | VBool b => if b then "true" else "false"
  | VNumber n => u64_to_string n
  | VString s => "'" +:+ s +:+ "'"
  | VArray l => "[" +:+ join "," (print <$> l) +:+ "]"
  | VObject m => "{" +:+ join "," ((fun kv => kv.1 +:+ ":" +:+ print kv.2) <$> m) +:+ "}"
  end.

Definition prefixed (p : string) (e : ExecutorRef) : bool := starts_with p (executor_as_str e).

(** [answer] is what the adapter answers. *)
Definition sandbox (answer : wresult Document) : Services Z := {|
  world := gmap string Document;
  timestamp w := (w, 0); rfc3339 w := (w, "now"); uuid w := (w, "id");
  get_json id w := (w, inr (w !! id));
  put_json type v w := (<[type +:+ print v := v]> w, inr (type +:+ print v));
  put_json_with_id id v w := (<[id := v]> w, inr tt);
  schedule_thunk _ _ w := (w, inr tt); cancel_thunk _ w := (w, inr tt);
  sync_run _ w := (w, inr tt); tracker_sync_step _ _ w := (w, inr tt); sync_map_shard _ _ w := (w, inr tt);
  sync_thunk _ _ w := (w, inr tt); report_step_validation_error _ _ _ w := (w, inr tt);
  adapters := [mkAdapter _ (prefixed "service::") (fun _ _ w => (w, answer))];
  number_of n := n; to_json := print; debug_value := print;
  deterministic_object_id type v := inr (type +:+ print v);
  obj_id_new s := inr s
|}.

#[export] Instance plain : Printing := { debug_strings := join ", "; display_f64 := fun _ => "" }.

(** The compiled form of a definition; a definition with errors has none. *)
Definition compiled (w : WorkflowDefinition Z) : option (CompiledWorkflow Z) :=
  match compile_workflow Z.eqb 20 id w with Some (inr (cw, _)) => Some cw | _ => None end.

(** A run as its nodes stand. *)
Definition summary (r : WorkflowRun Z) : RunStatus * list (string * NodeRunState) :=
  (status r, btree (node_states r)).
End WfSandbox.

Section runs.
Context {Number : Type} `{Services Number}.
Context (workflow : CompiledWorkflow Number).
Implicit Types r : WorkflowRun Number.

(** ** Rounds *)

(** The nodes a round takes are, in the order of their ids, the activated
    nodes that are pending and whose dependencies have all finished (or, for
    the steps inside a parallel or a loop, are running); those become ready and
    no other node changes. *)
Theorem actionable_nodes_exact r :
  let '(l, r') := actionable_nodes workflow r in
  StronglySorted (fun x y => string_leb x y = true) l /\ NoDup l /\
  (forall id, id ∈ l <-> id ∈ activated_nodes r /\ state_or_pending r id = Pending /\
     forall d, d ∈ dependencies (cw_graph workflow) id -> dependency_satisfied workflow r id d = true) /\
  forall id, state_or_pending r' id = if decide (id ∈ l) then Ready else state_or_pending r id.
Proof.
  rewrite actionable_exact. split_and!.
  - apply StronglySorted_filterb, btree_set_sorted.
  - apply NoDup_filterb, NoDup_btree_set.
  - intros id. rewrite elem_of_filterb, elem_of_btree_set. unfold may_start.
    rewrite andb_true_iff, bool_decide_eq_true, forallb_forall. setoid_rewrite <- list_elem_of_In. tauto.
  - intros id. apply fold_ready_state.
Qed.

(** C7: the loop of a round of a run ends: for every workflow that the compiler
    gives, whatever the services answer, it ends within the rounds that the
    attempts and the nodes that are left allow. *)
Theorem tick_terminates number_eqb (P : Printing) depth sha256_hex w report :
  compile_workflow number_eqb depth sha256_hex w = Some (inr (workflow, report)) ->
  forall r (wo : world), (tick workflow r wo).2 <> inl OutOfRounds.
Proof.
  intros Hc r wo. pose proof (compile_result number_eqb depth sha256_hex w) as Hr. rewrite Hc in Hr.
  destruct Hr as (_ & _ & Hf). by apply tick_ends, (cf_ids _ _ Hf).
Qed.

(** ** Calls *)

(** The events a call gives are numbered on from the run's counter, without
    gaps, carry the run's id, and leave the counter at the last of them; a call
    that fails gives none of its events, but its numbers are gone. *)
Theorem events_numbered (c : Call (Number := Number)) r (wo : world) :
  match exec workflow c r wo with
  | (r', _, inr events) =>
    ev_seq <$> events = seqZ (seq r + 1) (Z.of_nat (length events)) /\ seq r' = seq r + Z.of_nat (length events) /\
    run_id r' = run_id r /\ Forall (fun e => ev_run_id e = run_id r) events
  | (r', _, inl _) => seq r <= seq r' /\ run_id r' = run_id r
  end.
Proof.
  destruct (method_trace (body workflow c) r wo (r_body workflow c)) as (s & Ht & Hr & He).
  apply numbered_trace in Ht as (Hid & new & Hev & Hn & Hs & Hall). simpl in *. unfold exec.
  destruct (method _ _ _) as [[r' wo'] [e|events]]; simpl in *; subst r'; [split; [lia|done]|].
  rewrite (He events eq_refl), Hev. done.
Qed.

(** Whatever calls are made on a run, also those that fail, the nodes that
    wait for a person are in the run's list of them, and each node that
    completed or was skipped has an output. *)
Theorem run_consistent r : reachable workflow r -> run_ok r.
Proof. apply reachable_ok. Qed.

Definition ends_with_status {A} (m : O Number A) : Prop :=
  forall s s' a, m s = (s', inr a) -> status (o_run s') = RunAborted \/ status_of (o_run s') (status (o_run s')).

Lemma ends_refreshed : ends_with_status (refresh_run_status workflow ;; sync_whole_run).
Proof.
  intros s s' a (s1 & [] & E1 & E2)%bind_inv. pose proof (sync_run_same s1) as Hsame. rewrite E2 in Hsame.
  pose proof (refresh_exact workflow s) as Hr. rewrite E1 in Hr. destruct Hr as (_ & Hn & Hst).
  simpl in Hsame. rewrite Hsame. case_bool_decide; [by left|right]. by eapply status_of_same.
Qed.

Lemma ends_bind {A B} (m : O Number A) (f : A -> O Number B) :
  (forall a, ends_with_status (f a)) -> ends_with_status (m ≫= f).
Proof. intros Hf s s' b (s1 & a & _ & E)%bind_inv. by eapply Hf. Qed.

Lemma ends_throw {A} e : ends_with_status (throw (A := A) e).
Proof. by intros s s' a. Qed.

Definition reports_status (c : Call (Number := Number)) : bool :=
  match c with CProgress _ _ _ | CTaskData _ _ _ => false | _ => true end.

Lemma ends_body c : reports_status c = true -> ends_with_status (body workflow c).
Proof.
  destruct c; simpl; try done; intros _;
  [unfold tick_body|unfold handle_thunk_result_body|unfold handle_human_action_body
  |unfold submit_step_output_body|unfold request_human_body];
  repeat first [apply ends_refreshed | apply ends_bind; intros ?
               | match goal with |- ends_with_status (match ?x with _ => _ end) => destruct x end | apply ends_throw].
Qed.

(** C18: after a round, a result, an action, an output or a request, the status
    of a run that was not aborted is what its nodes say: it waits for a person
    if some node does, else it runs if a node runs or an activated node is
    pending, else it has failed if a node has, else it is complete. *)
Theorem run_status_exact c r (wo : world) :
  reports_status c = true ->
  match exec workflow c r wo with
  | (r', _, inr _) => status r' = RunAborted \/ status_of r' (status r')
  | _ => True
  end.
Proof.
  intros Hc. pose proof (ends_body c Hc (mkOrc r [] wo)) as He. unfold exec, method.
  destruct (body workflow c _) as [s [e|a]]; [done|]. by eapply He.
Qed.
End runs.

(** ** Runs of examples *)

Module RunExamples.
Import WfSandbox.
Import WfTheorems.Examples.
#[local] Existing Instance WfSandbox.plain.

Abbreviation Outcome := (RunStatus * list (string * NodeRunState))%type.
Definition good : Document := VObject [("verdict", VString "ok"); ("final_subject", VNull)].

(** A run of a definition: the workflow, the run as it is created, the world. *)
Definition started (answer : wresult Document) (w : WorkflowDefinition Z)
  : option (CompiledWorkflow Z * (WorkflowRun Z * gmap string Document)) :=
  cw ← compiled w;
  match create_run_with_metrics (H := sandbox answer) cw ∅ ∅ with
  | (wo, inr (r, _)) => Some (cw, (r, wo))
  | _ => None
  end.

Definition after (answer : wresult Document) (cw : CompiledWorkflow Z) (calls : list (Call (Number := Z)))
    (rw : WorkflowRun Z * gmap string Document) : WorkflowRun Z * gmap string Document :=
  fold_left (fun rw c => (exec (H := sandbox answer) cw c rw.1 rw.2).1) calls rw.

(** What calls on a run of a definition make of it. *)
Definition stage (answer : wresult Document) (w : WorkflowDefinition Z) (calls : list (Call (Number := Z)))
  : option (WorkflowRun Z * gmap string Document) :=
  '(cw, rw) ← started answer w; Some (after answer cw calls rw).
Definition story (answer : wresult Document) (w : WorkflowDefinition Z) (calls : list (Call (Number := Z))) : option Outcome :=
  (fun rw => summary rw.1) <$> stage answer w calls.

(** A round that leaves a run as it is leaves it so for good. *)
Lemma story_settled answer w n settled :
  stage answer w [CTick] = settled -> stage answer w [CTick; CTick] = settled ->
  story answer w (replicate (S n) CTick) = (fun rw => summary rw.1) <$> settled.
Proof.
  unfold story. intros <- Hfix. f_equal. revert Hfix. unfold stage.
  destruct (started answer w) as [[cw rw]|]; cbn [mbind option_bind]; [|done]. intros [= Hfix]. f_equal.
  change (after answer cw (replicate n CTick) (after answer cw [CTick] rw) = after answer cw [CTick] rw).
  change (after answer cw [CTick] (after answer cw [CTick] rw) = after answer cw [CTick] rw) in Hfix.
  induction n as [|n IH]; [done|].
  change (after answer cw (replicate n CTick) (after answer cw [CTick] (after answer cw [CTick] rw)) = after answer cw [CTick] rw).
  by rewrite Hfix.
Qed.

Ltac computed := match goal with |- _ = ?x => vm_cast_no_check (eq_refl x) end.
Ltac settled_story settled := etrans; [apply (story_settled _ _ _ settled); computed|computed].

(** The run of the review after its first round. *)
Definition stuck_review := Eval vm_compute in stage (inr good) (review "confirm") [CTick].

(** A loop never starts. In the review of the example, which the compiler
    accepts, a branch goes back to the planning; however many rounds the run is
    given, the plan and the branch stay pending, each waiting for the other to
    have finished, and the run stays running. *)
Theorem loop_never_starts n :
  story (inr good) (review "confirm") (replicate (S n) CTick) =
    Some (RunRunning, [("check", Pending); ("confirm", Pending); ("draft", Completed); ("plan", Pending)]).
Proof. settled_story stuck_review. Qed.

(** ** Where paths meet *)

Definition nothing : Document := typed "null".
Definition workflow_of (steps : list (StepDefinition Z)) (nodes : list ControlNodeDefinition) (edges : list EdgeDefinition)
  : WorkflowDefinition Z := mkWorkflow "1" "w" "w" None VNull steps nodes edges None [].

(** Two paths of a branch that lead to one step. *)
Definition merging : WorkflowDefinition Z :=
  workflow_of
    [step "plan" Autonomous None None plan; step "a" Autonomous None None nothing; step "b" Autonomous None None nothing;
     step "merge" Autonomous None None nothing]
    [Branch (mkBranch "check" "${plan.output.verdict}" [("ok", "a"); ("redo", "b")] 3)]
    [mkEdge "plan" (Some "check"); mkEdge "a" (Some "merge"); mkEdge "b" (Some "merge"); mkEdge "merge" None].

Definition stuck_merge := Eval vm_compute in stage (inr good) merging [CTick].

(** A step behind two paths of a branch never starts: it waits for the path that
    was not taken too, and the run stays running. *)
Theorem merge_never_starts n :
  story (inr good) merging (replicate (S n) CTick) =
    Some (RunRunning, [("a", Completed); ("b", Pending); ("check", Completed); ("merge", Pending); ("plan", Completed)]).
Proof. settled_story stuck_merge. Qed.

(** ** People in parallel *)

Definition human_branch : WorkflowDefinition Z :=
  workflow_of
    [step "plan" Autonomous None None plan; step "a" Autonomous None None nothing; step "h" HumanRequired None None nothing;
     step "next" Autonomous None None nothing]
    [Parallel (mkParallel "both" ["a"; "h"] JoinModeAll None)]
    [mkEdge "plan" (Some "both"); mkEdge "both" (Some "next"); mkEdge "next" None].

(** A parallel node whose last branch is approved by a person is never told: all
    its branches are complete, it stays running, and what follows does not start. *)
Theorem approved_branch_never_joins :
  story (inr good) human_branch [CTick; CHumanAction (mkAction "h" Approve None "someone"); CTick] =
    Some (RunRunning, [("a", Completed); ("both", Running); ("h", Completed); ("next", Pending); ("plan", Completed)]).
Proof. computed. Qed.

(** ** Rounds that fail *)

Definition sequence : WorkflowDefinition Z :=
  workflow_of
    [step "plan" Autonomous None None plan;
     step "a" Autonomous (Some (VObject [("text", VString "${plan.output.verdict}")])) None nothing;
     step "z" Autonomous None None nothing] []
    [mkEdge "plan" (Some "a"); mkEdge "a" (Some "z"); mkEdge "z" None].

(** A run whose round failed is reported complete by the next round. Where
    the answer of a service lacks the field that the next step refers to, the
    round fails and leaves that step ready; ready is neither pending, running
    nor failed, so every later round completes the run, with that step and
    those behind it never executed. *)
Theorem failed_round_completes :
  ('(cw, rw) ← started (inr VNull) sequence; Some ((exec (H := sandbox (inr VNull)) cw CTick rw.1 rw.2).2)) =
    Some (inl (Fail (ReferenceResolution "${plan.output.verdict}"))) /\
  story (inr VNull) sequence [CTick; CTick] =
    Some (RunCompleted, [("a", Ready); ("plan", Completed); ("z", Pending)]).
Proof. split; computed. Qed.

Definition ghostly : WorkflowDefinition Z :=
  workflow_of [step "plan" Autonomous None None plan; step "a" Autonomous None None nothing]
    [Branch (mkBranch "check" "${plan.output.verdict}" [("ok", "ghost"); ("redo", "a")] 3)]
    [mkEdge "plan" (Some "check"); mkEdge "a" None].

(** A path of a branch to a node that does not exist is compiled, and the round
    that takes the path fails; the next one completes the run. *)
Theorem unknown_path_completes :
  ('(cw, rw) ← started (inr good) ghostly; Some ((exec (H := sandbox (inr good)) cw CTick rw.1 rw.2).2)) =
    Some (inl (Fail (NodeNotFound "ghost"))) /\
  story (inr good) ghostly [CTick; CTick] = Some (RunCompleted, [("a", Pending); ("check", Completed); ("ghost", Ready); ("plan", Completed)]).
Proof. split; computed. Qed.

(** ** Aborted runs *)

Definition remote : WorkflowDefinition Z :=
  workflow_of
    [mkStep "f" "f" (Some "func::f") Autonomous None None nothing None None true false OutSingle
       (Some (mkGuards None [] (Some (mkRetry 3 None None)) None None None None))] []
    [mkEdge "f" None].

(** The thunk of [f] and its failure. *)
Definition thunk_f : string := "thunk{fun_id:'func::f',metadata:{attempt:1,node_id:'f',run_id:'run-id'},params:{}}".
Definition failed_f : ThunkExecutionResult Z := mkResult thunk_f "t" ThunkFailed None None None VNull.

(** A node of an aborted run comes back: when the thunk it had sent off fails,
    the retry makes it pending again, and the next round sends it off once more. *)
Theorem aborted_node_restarts :
  let aborted := [CTick; CHumanAction (mkAction "f" Abort None "someone")] in
  story (inr good) remote aborted = Some (RunAborted, [("f", Aborted)]) /\
  story (inr good) remote (aborted ++ [CThunkResult failed_f; CTick]) = Some (RunAborted, [("f", Running)]).
Proof. split; computed. Qed.

(** ** The hypotheses hold *)

Lemma tick_terminates_witness :
  match compile_workflow Z.eqb 20 id remote with
  | Some (inr (cw, _)) => forall r wo, (tick (H := sandbox (inr good)) cw r wo).2 <> inl OutOfRounds
  | _ => False
  end.
Proof.
  destruct (compile_workflow Z.eqb 20 id remote) as [[e|[cw report]]|] eqn:E;
    [vm_compute in E; discriminate| |vm_compute in E; discriminate].
  intros r wo. by apply (tick_terminates (H := sandbox (inr good)) cw Z.eqb _ 20 id remote report).
Defined.

Lemma run_consistent_witness :
  match started (inr good) human_branch with
  | Some (cw, (r, wo)) => run_ok (exec (H := sandbox (inr good)) cw CTick r wo).1.1
  | None => False
  end.
Proof.
  unfold started. destruct (compiled human_branch) as [cw|] eqn:E; [|vm_compute in E; discriminate].
  cbn [mbind option_bind].
  destruct (create_run_with_metrics (H := sandbox (inr good)) cw ∅ ∅) as [wo [e|[r events]]] eqn:Ec; [discriminate|].
  apply (run_consistent (H := sandbox (inr good)) cw). apply reach_call. by eapply reach_new.
Defined.

Lemma run_status_exact_witness :
  reports_status (CTick (Number := Z)) = true /\
  match started (inr good) human_branch with
  | Some (cw, (r, wo)) =>
    match exec (H := sandbox (inr good)) cw CTick r wo with
    | (r', _, inr _) => status r' = RunAborted \/ status_of r' (status r')
    | _ => True
    end
  | None => True
  end.
Proof.
  split; [reflexivity|]. destruct (started _ _) as [[cw [r wo]]|]; [|exact I].
  by apply (run_status_exact (H := sandbox (inr good)) cw CTick r wo).
Defined.
End RunExamples.
