(* ===== verification/Cron.v ===== *)
(** Time triggers of the workflow service
    ([kernel/workflow/src/scheduled_task_manager.rs]): what a trigger is, cron
    expressions, time zones, and when a trigger fires next.

    The calendar of chrono is a parameter, with the proleptic Gregorian calendar
    as its law and an instance to evaluate on.  Arithmetic on [i64] is checked
    or wraps, as [build] says, and the search for a matching minute is given the
    number of rounds it may take: [Running] is a search that has not ended. *)
From Stdlib Require Import ZArith Lia Ascii Sorted Permutation.
From stdpp Require Import base tactics numbers gmap strings sorting list.
From S2P Require Import Prelude RustString WfJson.

(** ** Calls that need not return *)

Inductive outcome (A : Type) := Returned (a : A) | Panicked | Running.
Arguments Returned {A} _.
Arguments Panicked {A}.
Arguments Running {A}.

#[global] Instance outcome_ret : MRet outcome := fun _ => Returned.
#[global] Instance outcome_bind : MBind outcome :=
  fun _ _ f o => match o with Returned a => f a | Panicked => Panicked | Running => Running end.

(** An operation on [i64] whose exact value is [v]. *)
Definition i64_op (b : build) (v : Z) : outcome Z :=
  if (i64_min <=? v) && (v <=? i64_max) then Returned v
  else match b with Debug => Panicked | Release => Returned ((v - i64_min) mod 2 ^ 64 + i64_min) end.

(** [saturating_add], [saturating_sub] and [saturating_mul] *)
Definition sat_i64 (v : Z) : Z := Z.max i64_min (Z.min i64_max v).

(** [n as i64] for a [u64] *)
Definition u64_as_i64 (n : Z) : Z := if n <=? i64_max then n else n - 2 ^ 64.

(** ** The calendar of chrono *)

(** [DateTime<Utc>]; [with_ymd_and_hms] is [Utc.with_ymd_and_hms(y, m, d, h, 0, 0).single()]. *)
Class Calendar := {
  DateTime : Type;
  from_timestamp : Z -> option DateTime;
  with_ymd_and_hms : Z -> Z -> Z -> Z -> option DateTime;
  timestamp : DateTime -> Z;
  year : DateTime -> Z;
  month : DateTime -> Z;
  day : DateTime -> Z;
  hour : DateTime -> Z;
  minute : DateTime -> Z;
  num_days_from_sunday : DateTime -> Z
}.

(** The Gregorian calendar, as a count of days from the first of January 1970. *)
Definition is_leap (y : Z) : bool := (y mod 4 =? 0) && negb (y mod 100 =? 0) || (y mod 400 =? 0).
Definition leap_day (y : Z) : Z := if is_leap y then 1 else 0.

Definition days_before_year (y : Z) : Z :=
  365 * (y - 1) + (y - 1) / 4 - (y - 1) / 100 + (y - 1) / 400 - 719162.
Definition days_before_month (y m : Z) : Z :=
  nth (Z.to_nat m) [0; 0; 31; 59; 90; 120; 151; 181; 212; 243; 273; 304; 334; 365] 0
  + (if 2 <? m then leap_day y else 0).
Definition month_length (y m : Z) : Z := days_before_month y (m + 1) - days_before_month y m.
Definition day_number (y m d : Z) : Z := days_before_year y + days_before_month y m + d - 1.

Definition valid_date (y m d : Z) : Prop := 1 <= m <= 12 /\ 1 <= d <= month_length y m.

(** The years chrono knows. *)
Definition min_year : Z := -262143.
Definition max_year : Z := 262142.

Class CalendarLaws (C : Calendar) := {
  law_timestamp : forall ts dt, from_timestamp ts = Some dt -> timestamp dt = ts;
  law_range : forall ts, is_Some (from_timestamp ts) <->
    days_before_year min_year <= ts / 86400 < days_before_year (max_year + 1);
  law_date : forall dt, valid_date (year dt) (month dt) (day dt) /\
    day_number (year dt) (month dt) (day dt) = timestamp dt / 86400;
  law_hour : forall dt, hour dt = timestamp dt / 3600 mod 24;
  law_minute : forall dt, minute dt = timestamp dt / 60 mod 60;
  law_weekday : forall dt, num_days_from_sunday dt = (timestamp dt / 86400 + 4) mod 7;
  law_ymd : forall y m d h, min_year <= y <= max_year -> 1 <= m <= 12 -> 1 <= d <= 31 -> 0 <= h < 24 ->
    if d <=? month_length y m
    then exists dt, with_ymd_and_hms y m d h = Some dt /\ timestamp dt = 86400 * day_number y m d + 3600 * h
    else with_ymd_and_hms y m d h = None
}.

(** ** Triggers *)

Inductive ScheduleStatus := SchRunning | SchPaused | SchFailed | SchCanceled.
#[export] Instance ScheduleStatus_eq_dec : EqDecision ScheduleStatus. Proof. solve_decision. Defined.

Definition status_is_terminal (s : ScheduleStatus) : bool := match s with SchCanceled => true | _ => false end.

Definition from_str_loose (value : string) : option ScheduleStatus :=
  if String.eqb value "Running" then Some SchRunning
  else if String.eqb value "Paused" then Some SchPaused
  else if String.eqb value "Failed" then Some SchFailed
  else if String.eqb value "Canceled" then Some SchCanceled
  else None.

(** [Display] *)
Definition status_to_string (s : ScheduleStatus) : string :=
  match s with SchRunning => "Running" | SchPaused => "Paused" | SchFailed => "Failed" | SchCanceled => "Canceled" end.

Inductive ScheduleSpec :=
| Cron (expr timezone : string) (calendar : option string) (start_at end_at : option Z)
| Once (run_at : Z) (once_timezone : option string)
| RunEvery (every_sec : Z) (start_at end_at : option Z) (every_timezone : option string).
#[export] Instance ScheduleSpec_eq_dec : EqDecision ScheduleSpec. Proof. solve_decision. Defined.

Inductive MisfirePolicy := MisfireSkip | MisfireRunOnce | MisfireCatchUp | MisfireManual.
#[export] Instance MisfirePolicy_eq_dec : EqDecision MisfirePolicy. Proof. solve_decision. Defined.

Record SchedulePolicy := mkPolicy {
  misfire : MisfirePolicy;
  max_parallel_runs : Z;
  catch_up_limit : Z;
  jitter_sec : Z
}.

Definition default_policy : SchedulePolicy := mkPolicy MisfireRunOnce 1 1 0.

Definition is_reboot_schedule (spec : ScheduleSpec) : bool :=
  match spec with Cron expr _ _ _ _ => String.eqb expr "@reboot" | _ => false end.

(** ** Cron expressions *)

(** [value.parse::<u32>().ok()] *)
Definition parse_u32 (s : string) : option Z :=
  match parse_u64 s with inr v => if v <=? u32_max then Some v else None | inl _ => None end.

(** [str::split_whitespace]: the words between white space; [word] is what was
    read of the current one, in reverse. *)
Fixpoint split_words (fuel : nat) (word l : bytes) : list bytes :=
  match fuel with
  | O => []
  | S fuel =>
    match l with
    | [] => [rev word]
    | a :: rest =>
      match strip_ws l with
      | Some l => rev word :: split_words fuel [] l
      | None => split_words fuel (a :: word) rest
      end
    end
  end.
Definition split_whitespace (s : string) : list string :=
  string_of <$> List.filter (fun w => negb (bool_decide (w = []))) (split_words (S (String.length s)) [] (bytes_of s)).

Definition normalize_cron_expr (expr : string) : result string :=
  let trimmed := trim expr in
  let normalized :=
    if String.eqb trimmed "@hourly" then "0 * * * *"
    else if String.eqb trimmed "@daily" || String.eqb trimmed "@midnight" then "0 0 * * *"
    else if String.eqb trimmed "@weekly" then "0 0 * * 0"
    else if String.eqb trimmed "@monthly" then "0 0 1 * *"
    else if String.eqb trimmed "@yearly" || String.eqb trimmed "@annually" then "0 0 1 1 *"
    else trimmed in
  if contains_char "%" normalized then Err "cron % stdin syntax is not supported" else Ok normalized.

Record CronExpr := mkCron {
  c_minute : gset Z;
  c_hour : gset Z;
  c_dom : gset Z;
  c_month : gset Z;
  c_dow : gset Z;
  dom_star : bool;
  dow_star : bool
}.

Definition parse_field_num (raw : string) (min max : Z) : result Z :=
  match parse_u32 raw with
  | None => Err ("invalid cron value `" +:+ raw +:+ "`")
  | Some value =>
    if (value <? min) || (max <? value)
    then Err ("cron value `" +:+ u64_to_string value +:+ "` out of range " +:+ u64_to_string min +:+ "-" +:+ u64_to_string max)
    else Ok value
  end.

(** The step of a part, and the range in front of it. *)
Definition part_step (part : string) : result (string * Z) :=
  match split_once "/" part with
  | Some (range, step) =>
    match parse_u32 step with
    | None => Err ("invalid cron step `" +:+ part +:+ "`")
    | Some step => if step =? 0 then Err "cron step must be greater than zero" else Ok (range, step)
    end
  | None => Ok (part, 1)
  end.

Definition part_range (range : string) (min max : Z) : result (Z * Z) :=
  if String.eqb range "*" then Ok (min, max)
  else match split_once "-" range with
       | Some (start, last) =>
         start ← parse_field_num start min max;
         last ← parse_field_num last min max;
         mret (start, last)
       | None => value ← parse_field_num range min max; mret (value, value)
       end.

(** The values of a range, added to [values]: [fuel] is one more than its length,
    and each round goes up by at least one. *)
Fixpoint insert_values (seven_is_zero : bool) (step last : Z) (fuel : nat) (current : Z) (values : gset Z) : gset Z :=
  match fuel with
  | O => values
  | S fuel =>
    if current <=? last then
      let values := {[ if seven_is_zero && (current =? 7) then 0 else current ]} ∪ values in
      let current := Z.min u32_max (current + step) in
      if current =? 0 then values else insert_values seven_is_zero step last fuel current values
    else values
  end.

Definition parse_part (min max : Z) (seven_is_zero : bool) (values : gset Z) (part : string) : result (gset Z) :=
  '(range, step) ← part_step part;
  '(start, last) ← part_range range min max;
  if last <? start then Err ("invalid cron range `" +:+ part +:+ "`")
  else Ok (insert_values seven_is_zero step last (Z.to_nat (last - start) + 2) start values).

Fixpoint parse_parts (min max : Z) (seven_is_zero : bool) (values : gset Z) (parts : list string) : result (gset Z) :=
  match parts with
  | [] => Ok values
  | part :: parts => values ← parse_part min max seven_is_zero values part; parse_parts min max seven_is_zero values parts
  end.

Definition parse_field (raw : string) (min max : Z) (seven_is_zero : bool) : result (gset Z * bool) :=
  values ← parse_parts min max seven_is_zero ∅ (split_on "," raw);
  mret (values, String.eqb raw "*").

Definition parse_cron (expr : string) : result CronExpr :=
  if String.eqb expr "@reboot" then Ok (mkCron ∅ ∅ ∅ ∅ ∅ true true)
  else match split_whitespace expr with
       | [f0; f1; f2; f3; f4] =>
         '(minute, _) ← parse_field f0 0 59 false;
         '(hour, _) ← parse_field f1 0 23 false;
         '(dom, dom_star) ← parse_field f2 1 31 false;
         '(month, _) ← parse_field f3 1 12 false;
         '(dow, dow_star) ← parse_field f4 0 7 true;
         mret (mkCron minute hour dom month dow dom_star dow_star)
       | _ => Err "cron expression must have exactly 5 fields"
       end.

Section calendar.
Context `{Calendar}.

Definition matches (c : CronExpr) (dt : DateTime) : bool :=
  let dow := num_days_from_sunday dt in
  let day_match :=
    match dom_star c, dow_star c with
    | true, true => true
    | true, false => bool_decide (dow ∈ c_dow c)
    | false, true => bool_decide (day dt ∈ c_dom c)
    | false, false => bool_decide (day dt ∈ c_dom c) || bool_decide (dow ∈ c_dow c)
    end in
  bool_decide (minute dt ∈ c_minute c) && bool_decide (hour dt ∈ c_hour c)
  && bool_decide (month dt ∈ c_month c) && day_match.

(** ** Time zones *)

(** The days of a month, counting those that fall on [weekday]. *)
Fixpoint nth_weekday_go (y m weekday nth h : Z) (days : list Z) (count : Z) : Z :=
  match days with
  | [] => 0
  | d :: days =>
    match with_ymd_and_hms y m d h with
    | Some dt =>
      if num_days_from_sunday dt =? weekday
      then if count + 1 =? nth then timestamp dt else nth_weekday_go y m weekday nth h days (count + 1)
      else nth_weekday_go y m weekday nth h days count
    | None => nth_weekday_go y m weekday nth h days count
    end
  end.

Definition nth_weekday_of_month (y m weekday nth h : Z) : Z := nth_weekday_go y m weekday nth h (seqZ 1 31) 0.

Definition is_us_dst (utc_ts standard_offset_hours : Z) : bool :=
  match from_timestamp utc_ts with
  | None => false
  | Some utc =>
    let start_local := nth_weekday_of_month (year utc) 3 0 2 2 in
    let end_local := nth_weekday_of_month (year utc) 11 0 1 2 in
    let start_utc := start_local - standard_offset_hours * 3600 in
    let end_utc := end_local - (standard_offset_hours + 1) * 3600 in
    (start_utc <=? utc_ts) && (utc_ts <? end_utc)
  end.

(** [value.parse::<i32>().ok()] *)
Definition parse_i32 : string -> option Z := parse_signed 2147483647.

(** [str::is_char_boundary] inside of a string *)
Definition is_char_boundary (s : string) (i : nat) : bool :=
  match String.get i s with
  | Some a => negb ((128 <=? N_of_ascii a) && (N_of_ascii a <? 192))%N
  | None => (i =? String.length s)%nat
  end.

(** [&s[i..j]] *)
Definition slice (s : string) (i j : nat) : result string :=
  if is_char_boundary s i && is_char_boundary s j then Ok (String.substring i (j - i) s) else Panic.

Definition parse_fixed_offset (raw : string) : result (option Z) :=
  if negb (String.length raw =? 6)%nat then Ok None
  else
    sign_text ← slice raw 0 1;
    if negb (String.eqb sign_text "+" || String.eqb sign_text "-") then Ok None
    else
      let sign := if String.eqb sign_text "+" then 1 else -1 in
      hour_text ← slice raw 1 3;
      match parse_i32 hour_text with
      | None => Ok None
      | Some hour =>
        minute_text ← slice raw 4 6;
        match parse_i32 minute_text with
        | None => Ok None
        | Some minute =>
          colon ← slice raw 3 4;
          if negb (String.eqb colon ":") || (23 <? hour) || (59 <? minute) then Ok None
          else Ok (Some (sign * (hour * 3600 + minute * 60)))
        end
      end.

Definition timezone_offset_seconds (timezone : string) (utc_ts : Z) : result Z :=
  if bool_decide (timezone ∈ ["UTC"; "Etc/UTC"; "Z"]) then Ok 0
  else if bool_decide (timezone ∈ ["Asia/Shanghai"; "Asia/Chongqing"; "Asia/Hong_Kong"]) then Ok (8 * 3600)
  else if bool_decide (timezone ∈ ["America/Los_Angeles"; "US/Pacific"])
  then Ok (if is_us_dst utc_ts (-8) then -7 * 3600 else -8 * 3600)
  else if bool_decide (timezone ∈ ["America/New_York"; "US/Eastern"])
  then Ok (if is_us_dst utc_ts (-5) then -4 * 3600 else -5 * 3600)
  else
    offset ← parse_fixed_offset timezone;
    match offset with
    | Some offset => Ok offset
    | None => Err ("unsupported timezone `" +:+ timezone +:+ "` without chrono-tz")
    end.

Definition validate_timezone (timezone : string) (now : Z) : result unit :=
  _ ← timezone_offset_seconds timezone now; mret ().

(** ** The next time *)

Section search.
Context (b : build).

Definition round_to_next_minute (ts : Z) : outcome Z :=
  start ← i64_op b (ts - ts mod 60); i64_op b (start + 60).

(** The loop over the minutes of a year. *)
Fixpoint search_minutes (rounds : nat) (cron : CronExpr) (timezone : string) (max last ts : Z) : outcome (option Z) :=
  match rounds with
  | O => Running
  | S rounds =>
    if (ts <=? max) && (ts <=? last) then
      match timezone_offset_seconds timezone ts with
      | Panic => Panicked
      | Err _ => Returned None
      | Ok offset =>
        local_ts ← i64_op b (ts + offset);
        if match from_timestamp local_ts with Some dt => matches cron dt | None => false end
        then Returned (Some ts)
        else ts ← i64_op b (ts + 60); search_minutes rounds cron timezone max last ts
      end
    else Returned None
  end.

(** [now] is read for [@reboot]. *)
Definition next_fire_after (rounds : nat) (now : Z) (spec : ScheduleSpec) (after_ts : Z) : outcome (option Z) :=
  match spec with
  | Once run_at _ => Returned (if after_ts <? run_at then Some run_at else None)
  | RunEvery every start_at end_at _ =>
    let every_sec := u64_as_i64 every in
    if every_sec <=? 0 then Returned None
    else
      let start_at := default (sat_i64 (after_ts + every_sec)) start_at in
      next ← (if after_ts <? start_at then Returned start_at
              else
                let elapsed := sat_i64 (after_ts - start_at) in
                steps ← i64_op b (elapsed ÷ every_sec + 1);
                mret (sat_i64 (start_at + sat_i64 (steps * every_sec))));
      mret (if match end_at with Some last => last <? next | None => false end then None else Some next)
  | Cron expr timezone _ start_at end_at =>
    if String.eqb expr "@reboot" then Returned (Some now)
    else match parse_cron expr with
         | Panic => Panicked
         | Err _ => Returned None
         | Ok cron =>
           let start := default i64_min start_at in
           let last := default i64_max end_at in
           first ← round_to_next_minute after_ts;
           let ts := Z.max first start in
           let max := sat_i64 (ts + 366 * 24 * 60 * 60) in
           search_minutes rounds cron timezone max last ts
         end
  end.

Fixpoint next_fire_times (rounds : nat) (now : Z) (spec : ScheduleSpec) (after_ts : Z) (count : nat) : outcome (list Z) :=
  match count with
  | O => Returned []
  | S count =>
    next ← next_fire_after rounds now spec after_ts;
    match next with
    | None => Returned []
    | Some next => times ← next_fire_times rounds now spec next count; mret (next :: times)
    end
  end.

Definition initial_next_fire_at (rounds : nat) (schedule : ScheduleSpec) (now clock : Z) : outcome (option Z) :=
  match schedule with
  | Once run_at _ => if run_at <=? now then Returned (Some run_at) else next_fire_after rounds clock schedule now
  | _ => next_fire_after rounds clock schedule now
  end.

(** The times to catch up with, from [cursor] on. *)
Fixpoint catch_up (rounds : nat) (now : Z) (spec : ScheduleSpec) (now_ts : Z) (limit : nat) (cursor : Z) : outcome (list Z) :=
  match limit with
  | O => Returned []
  | S limit =>
    if cursor <=? now_ts then
      next ← next_fire_after rounds now spec cursor;
      match next with
      | None => Returned [cursor]
      | Some next => times ← catch_up rounds now spec now_ts limit next; mret (cursor :: times)
      end
    else Returned []
  end.

(** The times to fire for, the next time, and an error to note. *)
Definition due_fire_times (rounds : nat) (now : Z) (spec : ScheduleSpec) (policy : SchedulePolicy) (next_fire_at : option Z)
    (now_ts : Z) : outcome (list Z * option Z * option string) :=
  match next_fire_at with
  | None => Returned ([], None, None)
  | Some at_ts =>
    if now_ts <? at_ts then Returned ([], Some at_ts, None)
    else match misfire policy with
         | MisfireSkip => next ← next_fire_after rounds now spec now_ts; mret ([], next, None)
         | MisfireManual =>
           next ← next_fire_after rounds now spec now_ts; mret ([], next, Some "schedule_missed_manual")
         | MisfireRunOnce => next ← next_fire_after rounds now spec now_ts; mret ([at_ts], next, None)
         | MisfireCatchUp =>
           let limit := Z.max 1 (catch_up_limit policy) in
           out ← catch_up rounds now spec now_ts (Z.to_nat limit) at_ts;
           next ← next_fire_after rounds now spec now_ts;
           mret (out, next, None)
         end
  end.
End search.

(** ** Reading a trigger from a request *)

Section from_value.
Context {Number : Type} (as_i64 as_u64 : Number -> option Z).
Abbreviation Value := (Value Number).

Definition value_str (v : Value) (k : string) : option string := v' ← get v k; as_str v'.
Definition value_num (as_num : Number -> option Z) (v : Value) (k : string) : option Z :=
  v' ← get v k; match v' with VNumber n => as_num n | _ => None end.

Definition ok_or {A} (msg : string) (o : option A) : result A := match o with Some a => Ok a | None => Err msg end.

Definition schedule_spec_from_value (now : Z) (value : Value) : result ScheduleSpec :=
  kind ← ok_or "missing schedule.kind" (value_str value "kind");
  if String.eqb kind "cron" then
    expr ← ok_or "missing schedule.expr" (value_str value "expr");
    let timezone := default "UTC" (value_str value "timezone") in
    expr ← normalize_cron_expr expr;
    _ ← validate_timezone timezone now;
    _ ← parse_cron expr;
    mret (Cron expr timezone (value_str value "calendar") (value_num as_i64 value "start_at") (value_num as_i64 value "end_at"))
  else if String.eqb kind "once" then
    run_at ← ok_or "missing schedule.run_at" (value_num as_i64 value "run_at");
    mret (Once run_at (value_str value "timezone"))
  else if String.eqb kind "run_every" then
    every_sec ← ok_or "missing schedule.every_sec" (value_num as_u64 value "every_sec");
    if every_sec =? 0 then Err "schedule.every_sec must be greater than zero"
    else
      _ ← match value_str value "timezone" with Some timezone => validate_timezone timezone now | None => mret () end;
      mret (RunEvery every_sec (value_num as_i64 value "start_at") (value_num as_i64 value "end_at") (value_str value "timezone"))
  else Err ("unsupported schedule.kind `" +:+ kind +:+ "`").

Definition u64_as_u32 (n : Z) : Z := n mod 2 ^ 32.

Definition misfire_from_str (raw : string) : result MisfirePolicy :=
  if String.eqb raw "skip" then Ok MisfireSkip
  else if String.eqb raw "run_once" then Ok MisfireRunOnce
  else if String.eqb raw "catch_up" then Ok MisfireCatchUp
  else if String.eqb raw "manual" then Ok MisfireManual
  else Err ("unsupported policy.misfire `" +:+ raw +:+ "`").

Definition schedule_policy_from_value (value : option Value) : result SchedulePolicy :=
  match value with
  | None => Ok default_policy
  | Some value =>
    m ← match value_str value "misfire" with
        | Some raw => misfire_from_str raw
        | None => mret (misfire default_policy)
        end;
    mret (mkPolicy m 1
      (match value_num as_u64 value "catch_up_limit" with
       | Some n => u64_as_u32 (Z.max n 1)
       | None => catch_up_limit default_policy
       end)
      (match value_num as_u64 value "jitter_sec" with
       | Some n => u64_as_u32 n
       | None => jitter_sec default_policy
       end))
  end.
End from_value.
End calendar.
