(* ===== verification/CronFacts.v ===== *)
(** Facts on time triggers: the Gregorian calendar as an instance, what the
    fields of a cron expression admit, the search for the next minute, and
    daylight saving time. *)
From Stdlib Require Import ZArith Lia Ascii Sorted Permutation.
From stdpp Require Import base tactics numbers gmap strings sorting list.
From S2P Require Import Prelude RustString WfJson Cron.

(** ** The Gregorian calendar *)

(** Years are within one of what their mean length says. *)
Definition year_of_day (n : Z) : Z :=
  let y := (n + 719162) * 400 / 146097 + 1 in
  if n <? days_before_year y then y - 1
  else if days_before_year (y + 1) <=? n then y + 1
  else y.
Fixpoint month_from (y x m : Z) (fuel : nat) : Z :=
  match fuel with
  | O => m
  | S fuel => if x <? days_before_month y (m + 1) then m else month_from y x (m + 1) fuel
  end.
Definition month_of_day (n : Z) : Z := month_from (year_of_day n) (n - days_before_year (year_of_day n)) 1 12.
Definition day_of_day (n : Z) : Z :=
  n - days_before_year (year_of_day n) - days_before_month (year_of_day n) (month_of_day n) + 1.

Definition in_range (ts : Z) : bool :=
  (days_before_year min_year <=? ts / 86400) && (ts / 86400 <? days_before_year (max_year + 1)).

Definition gregorian : Calendar := {|
  DateTime := Z;
  from_timestamp ts := if in_range ts then Some ts else None;
  with_ymd_and_hms y m d h := if d <=? month_length y m then Some (86400 * day_number y m d + 3600 * h) else None;
  timestamp ts := ts;
  year ts := year_of_day (ts / 86400);
  month ts := month_of_day (ts / 86400);
  day ts := day_of_day (ts / 86400);
  hour ts := ts / 3600 mod 24;
  minute ts := ts / 60 mod 60;
  num_days_from_sunday ts := (ts / 86400 + 4) mod 7
|}.

(** A year ends where the next begins. *)
Lemma days_before_next_year y : days_before_year (y + 1) = days_before_year y + 365 + leap_day y.
Proof.
  unfold days_before_year, leap_day, is_leap. replace (y + 1 - 1) with y by lia.
  destruct (Z.eqb_spec (y mod 4) 0), (Z.eqb_spec (y mod 100) 0), (Z.eqb_spec (y mod 400) 0); simpl;
    Z.div_mod_to_equations; lia.
Qed.

Lemma year_of_day_spec n : days_before_year (year_of_day n) <= n < days_before_year (year_of_day n + 1).
Proof.
  unfold year_of_day. set (y := (n + 719162) * 400 / 146097 + 1).
  assert (Hlow : days_before_year (y - 1) <= n).
  { unfold days_before_year, y. Z.div_mod_to_equations. lia. }
  assert (Hhigh : n < days_before_year (y + 1 + 1)).
  { unfold days_before_year, y. Z.div_mod_to_equations. lia. }
  destruct (Z.ltb_spec n (days_before_year y)) as [?|?].
  { replace (y - 1 + 1) with y by lia. lia. }
  destruct (Z.leb_spec (days_before_year (y + 1)) n); lia.
Qed.

Lemma days_before_month_values y :
  days_before_month y 1 = 0 /\ days_before_month y 2 = 31 /\ days_before_month y 3 = 59 + leap_day y
  /\ days_before_month y 4 = 90 + leap_day y /\ days_before_month y 5 = 120 + leap_day y
  /\ days_before_month y 6 = 151 + leap_day y /\ days_before_month y 7 = 181 + leap_day y
  /\ days_before_month y 8 = 212 + leap_day y /\ days_before_month y 9 = 243 + leap_day y
  /\ days_before_month y 10 = 273 + leap_day y /\ days_before_month y 11 = 304 + leap_day y
  /\ days_before_month y 12 = 334 + leap_day y /\ days_before_month y 13 = 365 + leap_day y.
Proof. unfold days_before_month. simpl. lia. Qed.

Lemma leap_day_bounds y : 0 <= leap_day y <= 1.
Proof. unfold leap_day. destruct (is_leap y); lia. Qed.

Lemma month_from_spec y x m fuel :
  days_before_month y m <= x -> x < days_before_month y (m + Z.of_nat fuel) ->
  m <= month_from y x m fuel < m + Z.of_nat fuel /\
  days_before_month y (month_from y x m fuel) <= x < days_before_month y (month_from y x m fuel + 1).
Proof.
  revert m. induction fuel as [|fuel IH]; intros m Hlow Hhigh.
  { replace (m + Z.of_nat 0) with m in Hhigh by lia. lia. }
  cbn [month_from]. destruct (Z.ltb_spec x (days_before_month y (m + 1))); [lia|].
  specialize (IH (m + 1)). replace (m + 1 + Z.of_nat fuel) with (m + Z.of_nat (S fuel)) in IH by lia.
  destruct IH; [done..|]. lia.
Qed.

Lemma month_of_day_spec n :
  let y := year_of_day n in
  1 <= month_of_day n <= 12 /\
  days_before_month y (month_of_day n) <= n - days_before_year y < days_before_month y (month_of_day n + 1).
Proof.
  intros y. pose proof (year_of_day_spec n) as Hy. fold y in Hy. rewrite days_before_next_year in Hy.
  destruct (month_from_spec y (n - days_before_year y) 1 12) as [Hm Hd].
  - destruct (days_before_month_values y) as [-> _]. lia.
  - change (1 + Z.of_nat 12) with 13. pose proof (days_before_month_values y). lia.
  - unfold month_of_day. fold y. lia.
Qed.

#[export] Instance gregorian_laws : CalendarLaws gregorian.
Proof.
  split; cbn [gregorian DateTime from_timestamp with_ymd_and_hms timestamp year month day hour minute num_days_from_sunday]; try done.
  - intros ts dt. destruct (in_range ts); congruence.
  - intros ts. unfold in_range. destruct (Z.leb_spec (days_before_year min_year) (ts / 86400)),
      (Z.ltb_spec (ts / 86400) (days_before_year (max_year + 1))); simpl;
      (split; [intros [? ?]; try done; lia|intros ?; try lia; eauto]).
  - intros dt. destruct (month_of_day_spec (dt / 86400)) as [Hm Hd].
    unfold valid_date, month_length, day_number, day_of_day. lia.
  - intros y m d h Hy Hm Hd Hh. destruct (d <=? month_length y m); eauto.
Qed.

(** ** Calls that return *)

Lemma i64_op_exact b v : is_i64 v -> i64_op b v = Returned v.
Proof.
  intros [H1 H2]. unfold i64_op. by rewrite (proj2 (Z.leb_le i64_min v)), (proj2 (Z.leb_le v i64_max)).
Qed.

Lemma result_bind_ok {A B} (r : result A) (f : A -> result B) y :
  (r ≫= f) = Ok y <-> exists a, r = Ok a /\ f a = Ok y.
Proof. destruct r; simpl; naive_solver. Qed.

Lemma result_ret_ok {A} (a y : A) : (mret a : result A) = Ok y <-> a = y.
Proof. unfold mret, result_ret. naive_solver. Qed.

Lemma outcome_bind_returned {A B} (o : outcome A) (f : A -> outcome B) y :
  (o ≫= f) = Returned y <-> exists a, o = Returned a /\ f a = Returned y.
Proof. destruct o; simpl; naive_solver. Qed.

(** ** Cron expressions *)

(** The value [v] is in the part's range, a whole number of steps from its start. *)
Definition part_admits (min max : Z) (seven_is_zero : bool) (part : string) (v : Z) : Prop :=
  exists range step start last u, part_step part = Ok (range, step) /\ part_range range min max = Ok (start, last) /\
    start <= u <= last /\ (u - start) mod step = 0 /\ v = (if seven_is_zero && (u =? 7) then 0 else u).

Definition admits (raw : string) (min max : Z) (seven_is_zero : bool) (v : Z) : Prop :=
  exists part, part ∈ split_on "," raw /\ part_admits min max seven_is_zero part v.

(** A part that is accepted. *)
Definition part_valid (min max : Z) (part : string) : Prop :=
  exists range step start last, part_step part = Ok (range, step) /\ part_range range min max = Ok (start, last) /\ start <= last.

Lemma parse_u32_range s v : parse_u32 s = Some v -> v <= u32_max.
Proof. unfold parse_u32. destruct (parse_u64 s); [done|]. destruct (Z.leb_spec z u32_max); naive_solver. Qed.

Lemma parse_go_range acc s v : 0 <= acc -> parse_go acc s = inr v -> 0 <= v.
Proof.
  revert acc. induction s as [|c s IH]; intros acc Ha; cbn [parse_go]; [naive_solver|].
  destruct (char_digit c) as [d|] eqn:Ed; [|done]. case_match; [|done]. apply IH.
  unfold char_digit in Ed. case_match; [|done]. apply andb_true_iff in H0 as [?%Z.leb_le _]. simplify_eq. lia.
Qed.

Lemma parse_u64_range s v : parse_u64 s = inr v -> 0 <= v.
Proof. unfold parse_u64. repeat case_match; try done; apply parse_go_range; lia. Qed.

Lemma part_step_range part range step : part_step part = Ok (range, step) -> 1 <= step <= u32_max.
Proof.
  unfold part_step. destruct (split_once "/" part) as [[l r]|].
  - destruct (parse_u32 r) as [v|] eqn:E; [|done]. destruct (Z.eqb_spec v 0); [done|]. intros [= <- <-].
    pose proof (parse_u32_range _ _ E). unfold parse_u32 in E. destruct (parse_u64 r) as [|w] eqn:Ew; [done|].
    apply parse_u64_range in Ew. case_match; naive_solver lia.
  - intros [= <- <-]. unfold u32_max. lia.
Qed.

Lemma parse_field_num_range raw min max v : parse_field_num raw min max = Ok v -> min <= v <= max.
Proof.
  unfold parse_field_num. destruct (parse_u32 raw); [|done].
  destruct (Z.ltb_spec z min), (Z.ltb_spec max z); simpl; naive_solver lia.
Qed.

Lemma part_range_range range min max start last :
  min <= max -> part_range range min max = Ok (start, last) -> min <= start <= max /\ min <= last <= max.
Proof.
  intros Hm. unfold part_range. case_match; [naive_solver lia|].
  destruct (split_once "-" range) as [[l r]|]; rewrite result_bind_ok;
    intros (x & Hx%parse_field_num_range & E).
  - rewrite result_bind_ok in E. destruct E as (y & Hy%parse_field_num_range & E).
    apply result_ret_ok in E as [= <- <-]. done.
  - apply result_ret_ok in E as [= <- <-]. done.
Qed.

Lemma insert_values_spec seven step last fuel current values v :
  1 <= step <= u32_max -> 0 <= current -> last < u32_max -> last - current < Z.of_nat fuel ->
  v ∈ insert_values seven step last fuel current values <->
  v ∈ values \/ exists u, current <= u <= last /\ (u - current) mod step = 0 /\ v = (if seven && (u =? 7) then 0 else u).
Proof.
  intros Hs Hc Hl. revert current values Hc. induction fuel as [|fuel IH]; intros current values Hc Hf; cbn [insert_values].
  { split; [by left|]. intros [?|(u & ? & _)]; [done|lia]. }
  destruct (Z.leb_spec current last) as [Hle|Hgt].
  2: { split; [by left|]. intros [?|(u & ? & _)]; [done|lia]. }
  destruct (Z.eqb_spec (Z.min u32_max (current + step)) 0); [lia|].
  rewrite IH by lia. rewrite elem_of_union, elem_of_singleton. split.
  - intros [[->|?]|(u & Hu & Hmod & ->)]; [|by left|].
    + right. exists current. rewrite Z.sub_diag. split_and!; [lia|lia|by apply Z.mod_0_l; lia|done].
    + right. exists u. rewrite Z.min_r in Hu, Hmod by lia. split_and!; [lia|lia| |done].
      replace (u - current) with (u - (current + step) + 1 * step) by lia. by rewrite Z.mod_add by lia.
  - intros [?|(u & Hu & Hmod & ->)]; [by left; right|].
    destruct (decide (u = current)) as [->|Hne]; [by left; left|]. right. exists u.
    apply Z.mod_divide in Hmod as [k Hk]; [|lia]. assert (1 <= k) by nia.
    assert (current + step <= u) by nia. rewrite Z.min_r by lia. split_and!; [lia|lia| |done].
    replace (u - (current + step)) with ((k - 1) * step) by lia. apply Z.mod_mul. lia.
Qed.

Lemma parse_part_spec min max seven values part values' :
  0 <= min <= max -> max < u32_max ->
  parse_part min max seven values part = Ok values' ->
  part_valid min max part /\ forall v, v ∈ values' <-> v ∈ values \/ part_admits min max seven part v.
Proof.
  intros Hm Hx. unfold parse_part. rewrite result_bind_ok. intros ([range step] & Hstep & E).
  rewrite result_bind_ok in E. destruct E as ([start last] & Hr & E).
  destruct (Z.ltb_spec last start); [done|]. injection E as <-.
  pose proof (part_step_range _ _ _ Hstep). apply part_range_range in Hr as Hb; [|lia].
  split; [by exists range, step, start, last|]. intros v. rewrite insert_values_spec by lia.
  split; (intros [?|Hv]; [by left|right]).
  - destruct Hv as (u & ?). by exists range, step, start, last, u.
  - destruct Hv as (range' & step' & start' & last' & u & Hs' & Hr' & Hu).
    rewrite Hs' in Hstep. injection Hstep as -> ->. rewrite Hr' in Hr. injection Hr as -> ->. by exists u.
Qed.

Lemma parse_parts_spec min max seven values parts values' :
  0 <= min <= max -> max < u32_max ->
  parse_parts min max seven values parts = Ok values' ->
  Forall (part_valid min max) parts /\
  forall v, v ∈ values' <-> v ∈ values \/ exists part, part ∈ parts /\ part_admits min max seven part v.
Proof.
  intros Hm Hx. revert values. induction parts as [|part parts IH]; intros values; cbn [parse_parts].
  { intros [= <-]. split; [done|]. intros v. split; [by left|]. intros [?|(? & ?%elem_of_nil & _)]; done. }
  rewrite result_bind_ok. intros (values1 & Hp%parse_part_spec & Hps); [|done..].
  apply IH in Hps as [Hall Hv]. destruct Hp as [Hok Hv1]. split; [by constructor|].
  intros v. rewrite Hv, Hv1. setoid_rewrite elem_of_cons. naive_solver.
Qed.

(** The values of an accepted field, and which fields are accepted. *)
Lemma parse_field_spec raw min max seven values star :
  0 <= min <= max -> max < u32_max -> parse_field raw min max seven = Ok (values, star) ->
  star = String.eqb raw "*" /\ Forall (part_valid min max) (split_on "," raw) /\
  forall v, v ∈ values <-> admits raw min max seven v.
Proof.
  intros Hm Hx. unfold parse_field. rewrite result_bind_ok. intros (vs & Hp & [= <- <-]%result_ret_ok).
  apply parse_parts_spec in Hp as [Hall Hv]; [|done..]. split_and!; [done..|].
  intros v. rewrite Hv. unfold admits. set_solver.
Qed.

Lemma parse_field_accepts raw min max seven :
  0 <= min <= max -> max < u32_max -> Forall (part_valid min max) (split_on "," raw) ->
  is_ok (parse_field raw min max seven) = true.
Proof.
  intros Hm Hx Hall. unfold parse_field. generalize (∅ : gset Z) as values.
  induction Hall as [|part parts (range & step & start & last & Hs & Hr & Hle) Hall IH]; intros values; [done|].
  cbn [parse_parts]. unfold parse_part at 1. rewrite Hs. simpl. rewrite Hr. simpl.
  rewrite (proj2 (Z.ltb_ge last start)) by done. apply IH.
Qed.

(** The day of a date is admitted: a field that is a star leaves it to the other. *)
Definition day_admitted (dom dow : string) (d weekday : Z) : Prop :=
  match String.eqb dom "*", String.eqb dow "*" with
  | true, true => True
  | true, false => admits dow 0 7 true weekday
  | false, true => admits dom 1 31 false d
  | false, false => admits dom 1 31 false d \/ admits dow 0 7 true weekday
  end.

Section calendar.
Context `{Calendar}.

(** The date and time is one the expression asks for. *)
Definition cron_admits (expr : string) (dt : DateTime) : Prop :=
  exists f0 f1 f2 f3 f4, split_whitespace expr = [f0; f1; f2; f3; f4] /\
    admits f0 0 59 false (minute dt) /\ admits f1 0 23 false (hour dt) /\ admits f3 1 12 false (month dt) /\
    day_admitted f2 f4 (day dt) (num_days_from_sunday dt).

Lemma parse_cron_fields expr cron :
  expr <> "@reboot" -> parse_cron expr = Ok cron ->
  exists f0 f1 f2 f3 f4, split_whitespace expr = [f0; f1; f2; f3; f4] /\
    parse_field f0 0 59 false = Ok (c_minute cron, String.eqb f0 "*") /\
    parse_field f1 0 23 false = Ok (c_hour cron, String.eqb f1 "*") /\
    parse_field f2 1 31 false = Ok (c_dom cron, dom_star cron) /\
    parse_field f3 1 12 false = Ok (c_month cron, String.eqb f3 "*") /\
    parse_field f4 0 7 true = Ok (c_dow cron, dow_star cron).
Proof.
  intros Hne. unfold parse_cron. destruct (String.eqb_spec expr "@reboot"); [done|].
  destruct (split_whitespace expr) as [|f0 [|f1 [|f2 [|f3 [|f4 [|]]]]]] eqn:E; try done.
  rewrite result_bind_ok. intros ([m s0] & E0 & R). rewrite result_bind_ok in R. destruct R as ([h s1] & E1 & R).
  rewrite result_bind_ok in R. destruct R as ([dom s2] & E2 & R). rewrite result_bind_ok in R. destruct R as ([mo s3] & E3 & R).
  rewrite result_bind_ok in R. destruct R as ([dow s4] & E4 & <-%result_ret_ok). cbn [c_minute c_hour c_dom c_month c_dow dom_star dow_star].
  exists f0, f1, f2, f3, f4. rewrite E0, E1, E2, E3, E4.
  apply parse_field_spec in E0 as [-> _], E1 as [-> _], E3 as [-> _]; try (unfold u32_max; lia). done.
Qed.

Lemma matches_exact expr cron dt :
  expr <> "@reboot" -> parse_cron expr = Ok cron -> matches cron dt = true <-> cron_admits expr dt.
Proof.
  intros Hne Hp. destruct (parse_cron_fields expr cron Hne Hp) as (f0 & f1 & f2 & f3 & f4 & Hw & E0 & E1 & E2 & E3 & E4).
  apply parse_field_spec in E0 as (_ & _ & E0), E1 as (_ & _ & E1), E2 as (S2 & _ & E2), E3 as (_ & _ & E3), E4 as (S4 & _ & E4);
    try (unfold u32_max; lia).
  unfold matches. rewrite !andb_true_iff, !bool_decide_eq_true, E0, E1, E3. unfold cron_admits. rewrite Hw.
  transitivity (admits f0 0 59 false (minute dt) /\ admits f1 0 23 false (hour dt) /\ admits f3 1 12 false (month dt) /\
    day_admitted f2 f4 (day dt) (num_days_from_sunday dt)); [|naive_solver].
  unfold day_admitted. rewrite S2, S4.
  destruct (String.eqb f2 "*"), (String.eqb f4 "*");
    rewrite ?orb_true_iff, ?bool_decide_eq_true, ?E2, ?E4; tauto.
Qed.

(** ** The search *)

(** An accepted time zone is one at all times. *)
Definition offset_bound : Z := 8796093022208.

Lemma parse_i32_range s v : parse_i32 s = Some v -> -2147483648 <= v <= 2147483647.
Proof.
  unfold parse_i32, parse_signed. repeat case_match; try done; intros [= <-];
    repeat match goal with E : parse_u64 _ = inr _ |- _ => apply parse_u64_range in E end; lia.
Qed.

Lemma timezone_accepted timezone t0 offset0 :
  timezone_offset_seconds timezone t0 = Ok offset0 ->
  forall t, exists offset, timezone_offset_seconds timezone t = Ok offset /\ - offset_bound <= offset <= offset_bound.
Proof.
  intros E t. unfold offset_bound, timezone_offset_seconds in *. 
  destruct (bool_decide (timezone ∈ ["UTC"; "Etc/UTC"; "Z"])); [exists 0; split; [done|lia]|].
  destruct (bool_decide (timezone ∈ ["Asia/Shanghai"; "Asia/Chongqing"; "Asia/Hong_Kong"])); [exists 28800; split; [done|lia]|].
  destruct (bool_decide (timezone ∈ ["America/Los_Angeles"; "US/Pacific"])); [|
    destruct (bool_decide (timezone ∈ ["America/New_York"; "US/Eastern"]))].
  - exists (if is_us_dst t (-8) then -25200 else -28800). split; [by destruct (is_us_dst t _)|]. destruct (is_us_dst t _); lia.
  - exists (if is_us_dst t (-5) then -14400 else -18000). split; [by destruct (is_us_dst t _)|]. destruct (is_us_dst t _); lia.
  - exists offset0. split; [done|]. apply result_bind_ok in E as ([offset|] & E & Eo); [|done]. injection Eo as ->.
    unfold parse_fixed_offset in E. case_match; [done|]. apply result_bind_ok in E as (sign & _ & E). case_match; [done|].
    apply result_bind_ok in E as (h & _ & E). destruct (parse_i32 h) as [hh|] eqn:Eh; [|done].
    apply result_bind_ok in E as (m & _ & E). destruct (parse_i32 m) as [mm|] eqn:Em; [|done].
    apply result_bind_ok in E as (colon & _ & E). case_match eqn:Eb; [done|]. injection E as <-.
    apply parse_i32_range in Eh, Em. apply orb_false_iff in Eb as [Eb ?%Z.ltb_ge]. apply orb_false_iff in Eb as [_ ?%Z.ltb_ge].
    case_match; lia.
Qed.

(** The local date and time of [t] is one the expression matches. *)
Definition matches_at (cron : CronExpr) (timezone : string) (t : Z) : bool :=
  match timezone_offset_seconds timezone t with
  | Ok offset => match from_timestamp (t + offset) with Some dt => matches cron dt | None => false end
  | _ => false
  end.

(** The minutes from [first] on. *)
Definition slot (first t : Z) : Prop := first <= t /\ (t - first) mod 60 = 0.

(** [o] is the first minute up to [limit] that satisfies [P]. *)
Definition first_slot (P : Z -> Prop) (first limit : Z) (o : option Z) : Prop :=
  match o with
  | Some t => slot first t /\ t <= limit /\ P t /\ forall t', slot first t' -> t' < t -> ~ P t'
  | None => forall t', slot first t' -> t' <= limit -> ~ P t'
  end.

Lemma slot_next first t : slot first t -> t <> first -> slot (first + 60) t.
Proof.
  intros [Hle Hmod] Hne. apply Z.mod_divide in Hmod as [k Hk]; [|lia]. split; [lia|].
  replace (t - (first + 60)) with ((k - 1) * 60) by lia. apply Z.mod_mul. lia.
Qed.

Lemma slot_prev first t : slot (first + 60) t -> slot first t.
Proof.
  intros [Hle Hmod]. split; [lia|]. replace (t - first) with (t - (first + 60) + 1 * 60) by lia.
  rewrite Z.mod_add; [done|lia].
Qed.

Lemma first_slot_next P first limit o :
  first <= limit -> ~ P first -> first_slot P (first + 60) limit o -> first_slot P first limit o.
Proof.
  intros Hle Hn. destruct o as [t|]; simpl.
  - intros (Hs & Hl & Ht & Hbefore). split_and!; [by apply slot_prev|done..|].
    intros t' Hs' Hlt. destruct (decide (t' = first)) as [->|Hne]; [done|]. apply Hbefore; [by apply slot_next|done].
  - intros Hall t' Hs' Hl. destruct (decide (t' = first)) as [->|Hne]; [done|]. apply Hall; [by apply slot_next|done].
Qed.

Lemma first_slot_iff P Q first limit o :
  (forall t, P t <-> Q t) -> first_slot P first limit o -> first_slot Q first limit o.
Proof. intros HPQ. destruct o as [t|]; simpl; setoid_rewrite HPQ; done. Qed.

(** With enough rounds, and away from the ends of [i64], the search ends at the
    first minute that matches. *)
Lemma search_minutes_exact b rounds cron timezone max last ts t0 offset0 :
  timezone_offset_seconds timezone t0 = Ok offset0 ->
  (0 < rounds)%nat -> i64_min + offset_bound <= ts -> Z.min max last + offset_bound < i64_max -> Z.min max last - ts < 60 * (Z.of_nat rounds - 1) ->
  exists o, search_minutes b rounds cron timezone max last ts = Returned o /\
    first_slot (fun t => matches_at cron timezone t = true) ts (Z.min max last) o.
Proof.
  intros Htz. revert ts. induction rounds as [|rounds IH]; intros ts Hpos Hlow Hhigh Hr; cbn [search_minutes]; [lia|].
  destruct ((ts <=? max) && (ts <=? last)) eqn:Hin.
  - apply andb_true_iff in Hin as [?%Z.leb_le ?%Z.leb_le].
    destruct (timezone_accepted _ _ _ Htz ts) as (offset & Ho & Hb). rewrite Ho.
    unfold offset_bound, i64_min, i64_max in *.
    rewrite (i64_op_exact b (ts + offset)) by (unfold is_i64, i64_min, i64_max; lia). cbn [mbind outcome_bind].
    assert (Hm : matches_at cron timezone ts = match from_timestamp (ts + offset) with Some dt => matches cron dt | None => false end).
    { unfold matches_at. by rewrite Ho. }
    rewrite <- Hm. clear Hm. destruct (matches_at cron timezone ts) eqn:E.
    + exists (Some ts). split; [done|]. simpl. split_and!; [split; [lia|by rewrite Z.sub_diag]|lia|done|].
      intros t' [? _] ?. lia.
    + rewrite i64_op_exact by (unfold is_i64, i64_min, i64_max; lia). simpl.
      destruct (IH (ts + 60)) as (o & Hs & Hf); [lia..|]. exists o. split; [done|].
      apply first_slot_next; [lia|congruence|done].
  - exists None. split; [done|]. intros t' [? _] ?. apply andb_false_iff in Hin as [?%Z.leb_gt|?%Z.leb_gt]; lia.
Qed.

(** Enough for the minutes of 366 days and one more. *)
Definition year_rounds : nat := Z.to_nat 527042.

(** Times that are not near the ends of [i64]. *)
Definition near (t : Z) : Prop := - 2 ^ 61 <= t <= 2 ^ 61.

(** The local date and time of [t] is one the expression asks for. *)
Definition cron_fires (expr timezone : string) (t : Z) : Prop :=
  exists offset dt, timezone_offset_seconds timezone t = Ok offset /\ from_timestamp (t + offset) = Some dt /\
    cron_admits expr dt.

Lemma matches_at_exact expr cron timezone t :
  expr <> "@reboot" -> parse_cron expr = Ok cron -> matches_at cron timezone t = true <-> cron_fires expr timezone t.
Proof.
  intros Hne Hp. unfold matches_at, cron_fires. destruct (timezone_offset_seconds timezone t) as [offset| |].
  - destruct (from_timestamp (t + offset)) as [dt|] eqn:E.
    + rewrite (matches_exact expr) by done. split; [intros ?; by exists offset, dt|].
      intros (offset' & dt' & Ho & Hdt & ?). injection Ho as <-. congruence.
    + split; [done|]. intros (offset' & dt' & Ho & Hdt & ?). injection Ho as <-. congruence.
  - split; [done|]. by intros (? & ? & ? & _).
  - split; [done|]. by intros (? & ? & ? & _).
Qed.

Lemma round_to_next_minute_exact b ts : near ts -> round_to_next_minute b ts = Returned (ts - ts mod 60 + 60).
Proof.
  unfold near, round_to_next_minute. intros Ht. pose proof (Z.mod_pos_bound ts 60).
  rewrite (i64_op_exact b (ts - ts mod 60)) by (unfold is_i64, i64_min, i64_max; lia). cbn [mbind outcome_bind].
  apply i64_op_exact. unfold is_i64, i64_min, i64_max. lia.
Qed.

Lemma next_fire_first b now expr timezone cal start_at end_at after_ts cron t0 offset0 :
  expr <> "@reboot" -> parse_cron expr = Ok cron -> timezone_offset_seconds timezone t0 = Ok offset0 ->
  near after_ts -> (forall start, start_at = Some start -> near start) ->
  let first := Z.max (after_ts - after_ts mod 60 + 60) (default i64_min start_at) in
  exists o, next_fire_after b year_rounds now (Cron expr timezone cal start_at end_at) after_ts = Returned o /\
    first_slot (cron_fires expr timezone) first (Z.min (first + 366 * 24 * 60 * 60) (default i64_max end_at)) o.
Proof.
  intros Hne Hp Htz Ha Hs first. cbn [next_fire_after].
  destruct (String.eqb_spec expr "@reboot"); [done|]. rewrite Hp, round_to_next_minute_exact by done.
  cbn [mbind outcome_bind]. fold first. pose proof (Z.mod_pos_bound after_ts 60).
  assert (Hf : - 2 ^ 61 - 60 <= first <= 2 ^ 61 + 60).
  { unfold first, near, i64_min in *. destruct start_at as [s|]; simpl; [specialize (Hs s eq_refl)|]; lia. }
  assert (Hsat : sat_i64 (first + 366 * 24 * 60 * 60) = first + 366 * 24 * 60 * 60).
  { unfold sat_i64, i64_min, i64_max. lia. }
  rewrite Hsat.
  destruct (search_minutes_exact b year_rounds cron timezone (first + 366 * 24 * 60 * 60) (default i64_max end_at) first t0 offset0)
    as (o & Ho & Hfirst); [done|unfold year_rounds; lia|unfold offset_bound, i64_min; lia|unfold offset_bound, i64_max; lia| |].
  { unfold year_rounds. rewrite Z2Nat.id by lia. lia. }
  exists o. split; [done|]. eapply first_slot_iff; [|done]. intros t. by apply matches_at_exact.
Qed.

Lemma slot_whole_minute first t : first mod 60 = 0 -> slot first t -> t mod 60 = 0.
Proof. intros Hf [_ Ht]. Z.div_mod_to_equations. lia. Qed.

(** C11: where a cron trigger fires next, for a time and a start that are at most
    2^61 seconds from the epoch.  In either arithmetic the search ends, within
    the minutes of 366 days.  It looks at times a minute apart, from the first
    whole minute after [after_ts] on, or from the start if that is later; its
    answer is the first of them, not later than the end or 366 days after the
    first, whose date and time in the trigger's time zone the five fields admit,
    and no time if none is admitted.  The answer is a whole minute if the start
    is one; [start_off_the_minute] and [start_at_overflow] are about the starts
    that are left out. *)
Theorem next_fire_exact b now expr timezone cal start_at end_at after_ts cron t0 offset0 :
  expr <> "@reboot" -> parse_cron expr = Ok cron -> timezone_offset_seconds timezone t0 = Ok offset0 ->
  near after_ts -> (forall start, start_at = Some start -> near start) ->
  let first := Z.max (after_ts - after_ts mod 60 + 60) (default i64_min start_at) in
  exists o, next_fire_after b year_rounds now (Cron expr timezone cal start_at end_at) after_ts = Returned o /\
    first_slot (cron_fires expr timezone) first (Z.min (first + 366 * 24 * 60 * 60) (default i64_max end_at)) o /\
    (default 0 start_at mod 60 = 0 -> forall t, o = Some t -> t mod 60 = 0).
Proof.
  intros Hne Hp Htz Ha Hs first.
  destruct (next_fire_first b now expr timezone cal start_at end_at after_ts cron t0 offset0) as (o & Ho & Hf); [done..|].
  exists o. split; [done|]. split; [done|]. intros Hstart t ->. destruct Hf as [Hslot _].
  eapply slot_whole_minute; [|done]. clear Hslot Hs Hp Htz. unfold first, near, i64_min in *.
  destruct start_at as [s|]; cbn [from_option id] in *; Z.div_mod_to_equations; lia.
Qed.

(** A start that is not a whole minute is not rounded: if its minute is one the
    fields admit, the trigger fires at that very second. *)
Theorem start_off_the_minute b now expr timezone cal end_at after_ts start cron t0 offset0 :
  expr <> "@reboot" -> parse_cron expr = Ok cron -> timezone_offset_seconds timezone t0 = Ok offset0 ->
  near after_ts -> near start -> after_ts + 60 <= start <= default i64_max end_at -> cron_fires expr timezone start ->
  next_fire_after b year_rounds now (Cron expr timezone cal (Some start) end_at) after_ts = Returned (Some start).
Proof.
  intros Hne Hp Htz Ha Hs [Hafter Hend] Hfires.
  destruct (next_fire_first b now expr timezone cal (Some start) end_at after_ts cron t0 offset0) as (o & Ho & Hf);
    [done..|by intros ? [= <-]|]. rewrite Ho. clear Ho. cbn [from_option id] in Hf.
  pose proof (Z.mod_pos_bound after_ts 60). rewrite Z.max_r in Hf by lia.
  assert (Hslot : slot start start) by (split; [lia|by rewrite Z.sub_diag]).
  destruct o as [t|]; [|destruct (Hf start); [done|lia|done]].
  destruct Hf as ([Hle _] & _ & _ & Hbefore). destruct (decide (t = start)) as [->|]; [done|].
  destruct (Hbefore start); [done|lia|done].
Qed.

(** ** Intervals *)

(** The times of an interval trigger: [start], and on in steps of [every]. *)
Definition interval_time (start every t : Z) : Prop := start <= t /\ (t - start) mod every = 0.

Lemma run_every_exact b rounds now every start_at end_at timezone after_ts :
  1 <= every <= 2 ^ 61 -> near after_ts -> (forall start, start_at = Some start -> near start) ->
  let start := default (after_ts + every) start_at in
  exists next, after_ts < next /\ interval_time start every next /\
    (forall t, after_ts < t -> interval_time start every t -> next <= t) /\
    next_fire_after b rounds now (RunEvery every start_at end_at timezone) after_ts
    = Returned (if match end_at with Some last => last <? next | None => false end then None else Some next).
Proof.
  intros He Ha Hs start. cbn [next_fire_after].
  assert (E : u64_as_i64 every = every). { unfold u64_as_i64, i64_max. by rewrite (proj2 (Z.leb_le _ _)) by lia. }
  rewrite E. destruct (Z.leb_spec every 0); [lia|]. clear E.
  assert (E : default (sat_i64 (after_ts + every)) start_at = start).
  { unfold start, near, sat_i64, i64_min, i64_max in *. destruct start_at; simpl; [done|lia]. }
  rewrite E. clear E.
  assert (Hst : - 2 ^ 61 <= start <= 2 ^ 62).
  { unfold start, near in *. destruct start_at as [s|]; simpl; [specialize (Hs s eq_refl); lia|lia]. }
  unfold near in Ha. destruct (Z.ltb_spec after_ts start).
  - exists start. split_and!; [done|split; [lia|by rewrite Z.sub_diag]|by intros t ? [? _]|done].
  - assert (Hsat : sat_i64 (after_ts - start) = after_ts - start) by (unfold sat_i64, i64_min, i64_max; lia).
    cbv zeta. rewrite Hsat, Z.quot_div_nonneg by lia. set (q := (after_ts - start) / every).
    assert (Hq : q * every <= after_ts - start < (q + 1) * every).
    { pose proof (Z.mul_div_le (after_ts - start) every ltac:(lia)).
      pose proof (Z.mul_succ_div_gt (after_ts - start) every ltac:(lia)). unfold q. lia. }
    assert (0 <= q) by (apply Z.div_pos; lia). assert (q <= 2 ^ 62) by nia.
    rewrite i64_op_exact by (unfold is_i64, i64_min, i64_max; lia). cbn [mbind outcome_bind mret outcome_ret].
    assert (Hm : sat_i64 ((q + 1) * every) = (q + 1) * every) by (unfold sat_i64, i64_min, i64_max; nia).
    rewrite Hm.
    assert (Hn : sat_i64 (start + (q + 1) * every) = start + (q + 1) * every) by (unfold sat_i64, i64_min, i64_max; nia).
    rewrite Hn. exists (start + (q + 1) * every). split_and!; [lia| | |done].
    + split; [nia|]. replace (start + (q + 1) * every - start) with ((q + 1) * every) by lia. apply Z.mod_mul. lia.
    + intros t Ht [_ Hmod]. apply Z.mod_divide in Hmod as [k Hk]; [|lia]. assert (q < k) by nia. nia.
Qed.

End calendar.

Section laws.
Context {C : Calendar} {CL : CalendarLaws C}.

(** ** A search that does not end *)

Lemma from_timestamp_far ts : ts < -10 ^ 15 \/ 10 ^ 15 < ts -> from_timestamp ts = None.
Proof.
  intros Ht. destruct (from_timestamp ts) as [dt|] eqn:E; [|done].
  assert (Hr : is_Some (from_timestamp ts)) by (rewrite E; eauto). apply law_range in Hr.
  change (days_before_year min_year) with (-96465292) in Hr.
  change (days_before_year (max_year + 1)) with 95026237 in Hr. Z.div_mod_to_equations. lia.
Qed.

(** Rounds without a date end nothing. *)
Lemma search_minutes_far rounds cron last ts :
  i64_min <= ts -> ts + 60 * Z.of_nat rounds < -10 ^ 15 -> -10 ^ 15 <= last ->
  search_minutes Release rounds cron "UTC" i64_max last ts = Running.
Proof.
  revert ts. induction rounds as [|rounds IH]; intros ts Hlow Hhigh Hlast; cbn [search_minutes]; [done|].
  rewrite (proj2 (Z.leb_le ts i64_max)), (proj2 (Z.leb_le ts last)) by (unfold i64_max; lia). cbn [andb].
  change (timezone_offset_seconds "UTC" ts) with (Ok 0). cbn match.
  rewrite (i64_op_exact _ (ts + 0)) by (unfold is_i64, i64_max; lia). cbn [mbind outcome_bind].
  rewrite from_timestamp_far by lia.
  rewrite i64_op_exact by (unfold is_i64, i64_max; lia). cbn [mbind outcome_bind]. apply IH; lia.
Qed.

(** C40: the search has no protection at the end of [i64]: for a cron trigger
    that starts at the largest [i64] and has no end, a debug build panics, and a
    release build wraps around to the distant past and goes on there, still
    without an answer after 10^17 minutes. *)
Theorem start_at_overflow rounds now expr cal after_ts cron :
  expr <> "@reboot" -> parse_cron expr = Ok cron -> near after_ts -> (0 < rounds)%nat -> Z.of_nat rounds <= 10 ^ 17 ->
  let spec := Cron expr "UTC" cal (Some i64_max) None in
  next_fire_after Debug rounds now spec after_ts = Panicked /\
  next_fire_after Release rounds now spec after_ts = Running.
Proof.
  intros Hne Hp Ha Hpos Hr spec. unfold spec. cbn [next_fire_after].
  destruct (String.eqb_spec expr "@reboot"); [done|]. rewrite Hp, !round_to_next_minute_exact by done.
  cbn [mbind outcome_bind from_option id]. pose proof (Z.mod_pos_bound after_ts 60). unfold near in Ha.
  rewrite Z.max_r by (unfold i64_max; lia).
  change (sat_i64 (i64_max + 366 * 24 * 60 * 60)) with i64_max.
  destruct rounds as [|rounds]; [lia|]. cbn [search_minutes]. rewrite Z.leb_refl. cbn [andb].
  change (timezone_offset_seconds "UTC" i64_max) with (Ok 0). cbn match.
  rewrite (i64_op_exact Debug (i64_max + 0)), (i64_op_exact Release (i64_max + 0)) by (unfold is_i64, i64_min, i64_max; lia). cbn [mbind outcome_bind].
  rewrite from_timestamp_far by (right; unfold i64_max; lia). split; [done|].
  change (i64_op Release (i64_max + 60)) with (Returned (i64_min + 59)). cbn [mbind outcome_bind].
  apply search_minutes_far; unfold i64_min, i64_max; lia.
Qed.

(** ** The nth weekday of a month *)

Lemma month_length_bounds y m : 1 <= m <= 12 -> 28 <= month_length y m <= 31.
Proof.
  intros Hm. unfold month_length. pose proof (days_before_month_values y). pose proof (leap_day_bounds y).
  assert (E : m = 1 \/ m = 2 \/ m = 3 \/ m = 4 \/ m = 5 \/ m = 6 \/ m = 7 \/ m = 8 \/ m = 9 \/ m = 10 \/ m = 11 \/ m = 12) by lia.
  repeat destruct E as [->|E]; [..|subst m];
    match goal with |- context [days_before_month _ (?a + 1)] => let b := eval compute in (a + 1) in change (a + 1) with b end; lia.
Qed.

Definition weekday_of (n : Z) : Z := (n + 4) mod 7.

Lemma ymd_weekday y m d h :
  min_year <= y <= max_year -> 1 <= m <= 12 -> 1 <= d <= 31 -> 0 <= h < 24 ->
  match with_ymd_and_hms y m d h with
  | Some dt => d <= month_length y m /\ timestamp dt = 86400 * day_number y m d + 3600 * h /\
               num_days_from_sunday dt = weekday_of (day_number y m d)
  | None => month_length y m < d
  end.
Proof.
  intros Hy Hm Hd Hh. pose proof (law_ymd y m d h Hy Hm Hd Hh) as L.
  destruct (Z.leb_spec d (month_length y m)).
  - destruct L as (dt & -> & Ht). split_and!; [done..|]. rewrite law_weekday, Ht. unfold weekday_of.
    f_equal. f_equal. Z.div_mod_to_equations. lia.
  - by rewrite L.
Qed.

(** Days that do not fall on the weekday are passed over. *)
Lemma nth_weekday_skip y m weekday nth h start n count days :
  min_year <= y <= max_year -> 1 <= m <= 12 -> 0 <= h < 24 -> 1 <= start -> start + Z.of_nat n <= 32 ->
  (forall d, start <= d < start + Z.of_nat n -> weekday_of (day_number y m d) <> weekday) ->
  nth_weekday_go y m weekday nth h (seqZ start (Z.of_nat n) ++ days) count = nth_weekday_go y m weekday nth h days count.
Proof.
  intros Hy Hm Hh. revert start. induction n as [|n IH]; intros start Hs He Hn; [done|].
  rewrite seqZ_cons by lia. cbn [app nth_weekday_go].
  pose proof (ymd_weekday y m start h Hy Hm ltac:(lia) Hh) as L.
  replace (Z.pred (Z.of_nat (S n))) with (Z.of_nat n) by lia. replace (Z.succ start) with (start + 1) by lia.
  assert (Hrest : nth_weekday_go y m weekday nth h (seqZ (start + 1) (Z.of_nat n) ++ days) count = nth_weekday_go y m weekday nth h days count).
  { apply IH; [lia..|]. intros d Hd. apply Hn. lia. }
  destruct (with_ymd_and_hms y m start h) as [dt|]; [|done].
  destruct L as (_ & _ & ->). destruct (Z.eqb_spec (weekday_of (day_number y m start)) weekday) as [E|]; [|done].
  by apply Hn in E; [|lia].
Qed.

(** The day on which the weekday falls for the [nth] time is in the [nth] week. *)
Lemma nth_weekday_exact y m weekday nth h :
  min_year <= y <= max_year -> 1 <= m <= 12 -> 0 <= h < 24 -> 0 <= weekday < 7 -> 1 <= nth <= 4 ->
  exists d, 7 * (nth - 1) < d <= 7 * nth /\ weekday_of (day_number y m d) = weekday /\
    nth_weekday_of_month y m weekday nth h = 86400 * day_number y m d + 3600 * h.
Proof.
  intros Hy Hm Hh Hw Hn. pose proof (month_length_bounds y m Hm) as Hlen.
  set (first := 1 + (weekday - weekday_of (day_number y m 1)) mod 7).
  assert (Hf : 1 <= first <= 7) by (unfold first; pose proof (Z.mod_pos_bound (weekday - weekday_of (day_number y m 1)) 7); lia).
  assert (Hday : forall d, day_number y m d = day_number y m 1 + (d - 1)) by (intros; unfold day_number; lia).
  assert (Hon : forall d, weekday_of (day_number y m d) = weekday <-> (d - first) mod 7 = 0).
  { intros d. unfold first. rewrite Hday. unfold weekday_of. generalize (day_number y m 1). intros x.
    Z.div_mod_to_equations. lia. }
  unfold nth_weekday_of_month.
  assert (Hgo : forall k count, (Z.of_nat k <= 3) -> count + 1 + Z.of_nat k = nth ->
    forall start, start = first + 7 * count -> 0 <= count ->
    nth_weekday_go y m weekday nth h (seqZ start (32 - start)) count
    = 86400 * day_number y m (first + 7 * (nth - 1)) + 3600 * h).
  { induction k as [|k IH]; intros count Hk Hc start Hs H0.
    - rewrite seqZ_cons by lia. cbn [nth_weekday_go].
      pose proof (ymd_weekday y m start h Hy Hm ltac:(lia) Hh) as L.
      destruct (with_ymd_and_hms y m start h) as [dt|]; [|lia]. destruct L as (_ & Ht & ->).
      rewrite (proj2 (Z.eqb_eq (weekday_of _) weekday)), (proj2 (Z.eqb_eq (count + 1) nth)); [|lia|].
      + rewrite Ht. do 3 f_equal. lia.
      + apply Hon. replace (start - first) with (count * 7) by lia. apply Z.mod_mul. lia.
    - rewrite seqZ_cons by lia. cbn [nth_weekday_go].
      pose proof (ymd_weekday y m start h Hy Hm ltac:(lia) Hh) as L.
      destruct (with_ymd_and_hms y m start h) as [dt|]; [|lia]. destruct L as (_ & Ht & ->).
      rewrite (proj2 (Z.eqb_eq (weekday_of _) weekday)), (proj2 (Z.eqb_neq (count + 1) nth)); [|lia|].
      + replace (Z.pred (32 - start)) with (Z.of_nat 6 + (25 - start)) by lia. rewrite seqZ_app by lia.
        rewrite nth_weekday_skip; [|lia..|].
        * replace (Z.succ start + Z.of_nat 6) with (start + 7) by lia.
          replace (25 - start) with (32 - (start + 7)) by lia. apply (IH (count + 1)); lia.
        * intros d Hd. rewrite Hon. Z.div_mod_to_equations. lia.
      + apply Hon. replace (start - first) with (count * 7) by lia. apply Z.mod_mul. lia. }
  exists (first + 7 * (nth - 1)). split_and!; [lia|lia| |].
  - apply Hon. replace (first + 7 * (nth - 1) - first) with ((nth - 1) * 7) by lia. apply Z.mod_mul. lia.
  - rewrite <- (Hgo (Z.to_nat (nth - 1)) 0 ltac:(lia) ltac:(lia) first ltac:(lia) ltac:(lia)).
    replace 31 with (Z.of_nat (Z.to_nat (first - 1)) + (32 - first)) by lia. rewrite seqZ_app by lia.
    rewrite nth_weekday_skip; [f_equal; f_equal; lia|lia..|].
    intros d Hd. rewrite Hon. Z.div_mod_to_equations. lia.
Qed.

(** ** Daylight saving time of the United States *)

(** From two o'clock standard time on the second Sunday of March to two o'clock
    daylight time on the first Sunday of November. *)
Definition dst_period (standard_offset_hours ts : Z) : Prop :=
  exists y d d', 8 <= d <= 14 /\ weekday_of (day_number y 3 d) = 0 /\ 1 <= d' <= 7 /\ weekday_of (day_number y 11 d') = 0 /\
    86400 * day_number y 3 d + (2 - standard_offset_hours) * 3600 <= ts
    < 86400 * day_number y 11 d' + (2 - (standard_offset_hours + 1)) * 3600.

Lemma days_before_year_lt y y' : y < y' -> days_before_year y + 365 <= days_before_year y'.
Proof. intros Hlt. unfold days_before_year. Z.div_mod_to_equations. lia. Qed.

Lemma year_unique y y' n :
  days_before_year y <= n < days_before_year (y + 1) -> days_before_year y' <= n < days_before_year (y' + 1) -> y = y'.
Proof.
  intros H H'. destruct (Z.lt_trichotomy y y') as [Hlt|[?|Hlt]]; [|done|]; exfalso.
  - destruct (decide (y + 1 = y')) as [<-|]; [lia|]. pose proof (days_before_year_lt (y + 1) y'). lia.
  - destruct (decide (y' + 1 = y)) as [<-|]; [lia|]. pose proof (days_before_year_lt (y' + 1) y). lia.
Qed.

Lemma year_of_date ts dt :
  from_timestamp ts = Some dt ->
  days_before_year (year dt) <= ts / 86400 < days_before_year (year dt + 1) /\ min_year <= year dt <= max_year.
Proof.
  intros E. pose proof (law_timestamp _ _ E) as Ht. destruct (law_date dt) as [[Hm Hd] Hn]. rewrite Ht in Hn.
  assert (Hin : days_before_year (year dt) <= ts / 86400 < days_before_year (year dt + 1)).
  { rewrite days_before_next_year. rewrite <- Hn. unfold day_number, month_length in *.
    pose proof (days_before_month_values (year dt)). pose proof (leap_day_bounds (year dt)).
    assert (Em : month dt = 1 \/ month dt = 2 \/ month dt = 3 \/ month dt = 4 \/ month dt = 5 \/ month dt = 6
      \/ month dt = 7 \/ month dt = 8 \/ month dt = 9 \/ month dt = 10 \/ month dt = 11 \/ month dt = 12) by lia.
    repeat destruct Em as [Em|Em]; rewrite Em in *;
      repeat match goal with H : context [days_before_month _ (?a + 1)] |- _ =>
        let b := eval compute in (a + 1) in change (a + 1) with b in H end; lia. }
  split; [done|]. assert (Hr : is_Some (from_timestamp ts)) by (rewrite E; eauto). apply law_range in Hr.
  split; apply Z.nlt_ge; intros Hlt.
  - destruct (decide (year dt + 1 = min_year)) as [Ey|]; [rewrite Ey in Hin; lia|].
    pose proof (days_before_year_lt (year dt + 1) min_year). lia.
  - destruct (decide (max_year + 1 = year dt)) as [Ey|]; [rewrite Ey in Hr; lia|].
    pose proof (days_before_year_lt (max_year + 1) (year dt)). lia.
Qed.

Lemma week_day_unique y m a d d' :
  a < d <= a + 7 -> a < d' <= a + 7 -> weekday_of (day_number y m d) = weekday_of (day_number y m d') -> d = d'.
Proof. unfold weekday_of, day_number. intros ??. Z.div_mod_to_equations. lia. Qed.

Lemma is_us_dst_exact ts o :
  is_Some (from_timestamp ts) -> -12 <= o <= 12 -> is_us_dst ts o = true <-> dst_period o ts.
Proof.
  intros [dt E] Ho. destruct (year_of_date ts dt E) as [Hin Hy]. unfold is_us_dst. rewrite E.
  destruct (nth_weekday_exact (year dt) 3 0 2 2) as (d & Hd & Hw & ->); [lia..|].
  destruct (nth_weekday_exact (year dt) 11 0 1 2) as (d' & Hd' & Hw' & ->); [lia..|].
  rewrite andb_true_iff, Z.leb_le, Z.ltb_lt. split.
  - intros Hts. exists (year dt), d, d'. split_and!; [lia..|done|lia|lia|done|lia|lia].
  - intros (y & e & e' & He & Hv & He' & Hv' & Hts).
    assert (y = year dt) as ->.
    { apply (year_unique y (year dt) (ts / 86400)); [|done]. rewrite days_before_next_year.
      unfold day_number in Hts. pose proof (days_before_month_values y). pose proof (leap_day_bounds y).
      Z.div_mod_to_equations. lia. }
    assert (e = d) as -> by (apply (week_day_unique (year dt) 3 7); [lia..|congruence]).
    assert (e' = d') as -> by (apply (week_day_unique (year dt) 11 0); [lia..|congruence]).
    lia.
Qed.

(** The built-in time zones of the United States are their law's: one hour
    ahead of standard time exactly from two o'clock on the second Sunday of March
    to two o'clock on the first Sunday of November, at every time chrono has a
    date for. *)
Theorem us_time_zones_exact ts :
  is_Some (from_timestamp ts) ->
  (dst_period (-8) ts -> timezone_offset_seconds "America/Los_Angeles" ts = Ok (-7 * 3600)) /\
  (~ dst_period (-8) ts -> timezone_offset_seconds "America/Los_Angeles" ts = Ok (-8 * 3600)) /\
  (dst_period (-5) ts -> timezone_offset_seconds "America/New_York" ts = Ok (-4 * 3600)) /\
  (~ dst_period (-5) ts -> timezone_offset_seconds "America/New_York" ts = Ok (-5 * 3600)).
Proof.
  intros Hts. rewrite <- !(is_us_dst_exact ts) by (done || lia).
  change (timezone_offset_seconds "America/Los_Angeles" ts) with (Ok (if is_us_dst ts (-8) then -7 * 3600 else -8 * 3600)).
  change (timezone_offset_seconds "America/New_York" ts) with (Ok (if is_us_dst ts (-5) then -4 * 3600 else -5 * 3600)).
  destruct (is_us_dst ts (-8)), (is_us_dst ts (-5)); done.
Qed.

(** ** The leap day *)

(** The fields of [0 0 29 2 *]. *)
Lemma leap_day_fields dt :
  cron_admits "0 0 29 2 *" dt -> minute dt = 0 /\ hour dt = 0 /\ day dt = 29 /\ month dt = 2.
Proof.
  assert (Hone : forall raw min max v n, split_on "," raw = [raw] -> part_step raw = Ok (raw, 1) ->
    part_range raw min max = Ok (n, n) -> admits raw min max false v -> v = n).
  { intros raw min max v n Hs Hp Hr (part & Hin & range & step & start & last & u & Hp' & Hr' & Hu & _ & ->).
    rewrite Hs in Hin. apply list_elem_of_singleton in Hin as ->. rewrite Hp in Hp'. injection Hp' as <- <-.
    rewrite Hr in Hr'. injection Hr' as <- <-. simpl. lia. }
  intros (f0 & f1 & f2 & f3 & f4 & Hw & H0 & H1 & H3 & Hd).
  vm_compute in Hw. injection Hw as <- <- <- <- <-.
  apply (Hone "0" 0 59 _ 0) in H0; [|done..]. apply (Hone "0" 0 23 _ 0) in H1; [|done..].
  apply (Hone "2" 1 12 _ 2) in H3; [|done..]. apply (Hone "29" 1 31 _ 29) in Hd; [|done..]. done.
Qed.

Lemma leap_month_length y : month_length y 2 = 28 + leap_day y.
Proof. unfold month_length. change (2 + 1) with 3. pose proof (days_before_month_values y). lia. Qed.

(** A trigger for the 29th of February (at midnight UTC) that has fired
    does not fire again: the search gives up after 366 days, and the next leap
    day is at least four years away. *)
Theorem leap_day_trigger_dies b now cal y :
  is_leap y = true -> min_year <= y <= max_year ->
  next_fire_after b year_rounds now (Cron "0 0 29 2 *" "UTC" cal None None) (86400 * day_number y 2 29) = Returned None.
Proof.
  intros Hleap Hy. set (n := day_number y 2 29). set (expr := "0 0 29 2 *").
  destruct (parse_cron expr) as [cron| |] eqn:Ep; [|vm_compute in Ep; done..].
  assert (Hnear : near (86400 * n)).
  { unfold near, n, day_number. pose proof (days_before_month_values y).
    assert (-10 ^ 9 <= days_before_year y <= 10 ^ 9); [|lia].
    unfold days_before_year, min_year, max_year in *. Z.div_mod_to_equations. lia. }
  destruct (next_fire_first b now expr "UTC" cal None None (86400 * n) cron 0 0) as (o & -> & Ho); [done..|].
  destruct o as [t|]; [|done]. exfalso. destruct Ho as ([Hfirst Hmod] & Hlim & (offset & dt & Hoff & Hdt & Hadm) & _).
  change (timezone_offset_seconds "UTC" t) with (Ok 0) in Hoff. injection Hoff as <-. rewrite Z.add_0_r in Hdt.
  apply leap_day_fields in Hadm as (Hmin & Hhour & Hday & Hmonth).
  pose proof (law_timestamp _ _ Hdt) as Ht. destruct (law_date dt) as [[_ Hd] Hn].
  rewrite law_minute, Ht in Hmin. rewrite law_hour, Ht in Hhour. rewrite Hday, Hmonth, Ht in Hn. rewrite Hday, Hmonth in Hd.
  rewrite leap_month_length in Hd. cbn [from_option id] in *.
  assert (Hdays : n < t / 86400 <= n + 366).
  { assert (E60 : (86400 * n) mod 60 = 0) by (replace (86400 * n) with (1440 * n * 60) by lia; apply Z.mod_mul; lia).
    rewrite E60 in *. clear -Hfirst Hlim Hmin Hhour Hnear. unfold near, i64_min, i64_max in *. Z.div_mod_to_equations. lia. }
  assert (Hleap' : is_leap (year dt) = true).
  { unfold leap_day in Hd. destruct (is_leap (year dt)); [done|lia]. }
  assert (Hnext : year dt = y + 1).
  { unfold n in Hdays. rewrite <- Hn in Hdays. unfold day_number in Hdays.
    pose proof (days_before_month_values y) as (_ & Ey & _). pose proof (days_before_month_values (year dt)) as (_ & Ey' & _).
    destruct (Z.lt_trichotomy (year dt) y) as [Hlt|[Heq|Hlt]].
    - pose proof (days_before_year_lt (year dt) y Hlt). lia.
    - rewrite Heq in Hdays. lia.
    - destruct (decide (y + 1 = year dt)); [done|]. pose proof (days_before_year_lt (y + 1) (year dt) ltac:(lia)).
      rewrite days_before_next_year in H. pose proof (leap_day_bounds y). lia. }
  rewrite Hnext in Hleap'. clear - Hleap Hleap'. unfold is_leap in *.
  destruct (Z.eqb_spec (y mod 4) 0), (Z.eqb_spec ((y + 1) mod 4) 0),
    (Z.eqb_spec (y mod 400) 0), (Z.eqb_spec ((y + 1) mod 400) 0); simpl in *; try done; Z.div_mod_to_equations; lia.
Qed.
End laws.

Module CronExamples.

#[local] Existing Instance gregorian.

(** Half past nine on working days, in Los Angeles, after a Tuesday afternoon. *)
Lemma next_fire_exact_witness :
  exists cron, parse_cron "30 9 * * 1-5" = Ok cron /\
  exists o, next_fire_after Release year_rounds 0 (Cron "30 9 * * 1-5" "America/Los_Angeles" None None None) 1700000000 = Returned o /\
    first_slot (cron_fires "30 9 * * 1-5" "America/Los_Angeles") 1700000040 (1700000040 + 366 * 24 * 60 * 60) o /\
    (0 mod 60 = 0 -> forall t, o = Some t -> t mod 60 = 0).
Proof.
  eexists. split; [vm_compute; reflexivity|].
  eapply (next_fire_exact Release 0 "30 9 * * 1-5" "America/Los_Angeles" None None None 1700000000 _ 0 (-8 * 3600));
    [discriminate|vm_compute; reflexivity|vm_compute; reflexivity|unfold near; lia|discriminate].
Defined.

(** A trigger for every noon that starts half a minute after noon. *)
Lemma start_off_the_minute_witness :
  exists cron, parse_cron "0 12 * * *" = Ok cron /\
  next_fire_after Release year_rounds 0 (Cron "0 12 * * *" "UTC" None (Some 1700049630) None) 1700000000 = Returned (Some 1700049630).
Proof. eexists. split; [vm_compute; reflexivity|vm_compute; reflexivity]. Defined.

Lemma us_time_zones_exact_witness :
  is_Some (from_timestamp 1700000000) /\
  (~ dst_period (-8) 1700000000 -> timezone_offset_seconds "America/Los_Angeles" 1700000000 = Ok (-8 * 3600)).
Proof.
  assert (Hd : is_Some (from_timestamp 1700000000)) by (eexists; vm_compute; reflexivity).
  split; [exact Hd|]. destruct (us_time_zones_exact 1700000000 Hd) as (_ & Hst & _). exact Hst.
Defined.

Lemma leap_day_trigger_dies_witness :
  next_fire_after Release year_rounds 0 (Cron "0 0 29 2 *" "UTC" None None None) (86400 * day_number 2024 2 29) = Returned None.
Proof. apply (leap_day_trigger_dies Release 0 None 2024); [reflexivity|unfold min_year, max_year; lia]. Defined.

Lemma start_at_overflow_witness :
  exists cron, parse_cron "0 12 * * *" = Ok cron /\
  next_fire_after Debug year_rounds 0 (Cron "0 12 * * *" "UTC" None (Some i64_max) None) 1700000000 = Panicked /\
  next_fire_after Release year_rounds 0 (Cron "0 12 * * *" "UTC" None (Some i64_max) None) 1700000000 = Running.
Proof.
  eexists. split; [vm_compute; reflexivity|].
  eapply (start_at_overflow year_rounds 0 "0 12 * * *" None 1700000000 _);
    [discriminate|vm_compute; reflexivity|unfold near; lia|unfold year_rounds; lia|unfold year_rounds; rewrite Z2Nat.id; lia].
Defined.
End CronExamples.
