(* ===== verification/Trigger.v ===== *)
(** Scheduled tasks of the workflow service: their store and their targets
    ([kernel/workflow/src/scheduled_task_manager.rs]), and the handlers and the
    scan that fire them ([kernel/workflow/src/server.rs]).

    A handler is a program: a tree of operations on the store, each under its
    lock, and of questions to the rest of the system (the task manager, the
    definitions, the runs).  [run] executes a program on its own; [step]
    interleaves any number of them, operation by operation. *)
From Stdlib Require Import ZArith Lia Ascii Sorted Permutation.
From stdpp Require Import base tactics numbers gmap strings sorting list relations.
From S2P Require Import Prelude RustString TaskTypes WfJson WfSchema Cron.

(** ** Data *)

Record Owner := mkOwner { owner_user_id : string; owner_app_id : string }.
#[export] Instance Owner_eq_dec : EqDecision Owner. Proof. solve_decision. Defined.

Record ScheduleTaskMirror := mkMirror { root_task_id : option string; mirror_root_id : option string }.

Record ScheduleState := mkState {
  next_fire_at : option Z;
  last_fire_at : option Z;
  last_task_id : option string;
  last_run_id : option string;
  consecutive_failures : Z;
  last_error : option string
}.

Inductive FireStatus := FireCreated | FireTaskCreated | FireSkipped | FireFailed.

Record ScheduleFireRecord := mkFire {
  fire_id : string;
  fire_schedule_id : string;
  fire_key_of : string;
  fire_time : Z;
  fire_manual : bool;
  fire_status : FireStatus;
  fire_task_id : option string;
  fire_run_id : option string;
  fire_error : option string;
  fire_created_at : Z;
  fire_updated_at : Z
}.

Definition fire_key (schedule_id : string) (time : Z) : string := schedule_id +:+ ":" +:+ i64_to_string time.

(** What is written of JSON: numbers from [i64], the text of a number and of a
    document, and the RFC 3339 text of a time. *)
Class JsonText (Number : Type) := {
  json_i64 : Z -> Number;
  json_number_text : Number -> string;
  json_text : Value Number -> string;
  rfc3339_text : Z -> string
}.

Section trigger.
Context {Number : Type} `{JsonText Number}.
Abbreviation Value := (Value Number).

Record ScheduleSubtaskTemplate := mkTemplate { task_type : string; name_template : string; data_template : Value }.

Record WorkflowSchedule := mkSchedule {
  schedule_id : string;
  owner : Owner;
  sch_name : string;
  description : option string;
  sch_status : ScheduleStatus;
  schedule : ScheduleSpec;
  target : ScheduleSubtaskTemplate;
  state : ScheduleState;
  policy : SchedulePolicy;
  task_mirror : ScheduleTaskMirror;
  sch_created_at : Z;
  sch_updated_at : Z
}.

Definition with_sch_status st s := mkSchedule (schedule_id s) (owner s) (sch_name s) (description s) st (schedule s) (target s)
  (state s) (policy s) (task_mirror s) (sch_created_at s) (sch_updated_at s).
Definition with_state st s := mkSchedule (schedule_id s) (owner s) (sch_name s) (description s) (sch_status s) (schedule s) (target s)
  st (policy s) (task_mirror s) (sch_created_at s) (sch_updated_at s).
Definition with_mirror m s := mkSchedule (schedule_id s) (owner s) (sch_name s) (description s) (sch_status s) (schedule s) (target s)
  (state s) (policy s) m (sch_created_at s) (sch_updated_at s).
Definition with_sch_updated t s := mkSchedule (schedule_id s) (owner s) (sch_name s) (description s) (sch_status s) (schedule s)
  (target s) (state s) (policy s) (task_mirror s) (sch_created_at s) t.
Definition with_next (n : option Z) (st : ScheduleState) : ScheduleState :=
  mkState n (last_fire_at st) (last_task_id st) (last_run_id st) (consecutive_failures st) (last_error st).
Definition with_error (e : option string) (st : ScheduleState) : ScheduleState :=
  mkState (next_fire_at st) (last_fire_at st) (last_task_id st) (last_run_id st) (consecutive_failures st) e.

(** ** Targets *)

Definition object (l : list (string * Value)) : Value := VObject (map_of l).
Definition str_or_null (o : option string) : Value := match o with Some s => VString s | None => VNull end.

Definition trigger_template : Value :=
  object [("schedule_id", VString "${schedule.schedule_id}"); ("fire_id", VString "${fire.fire_id}");
          ("fire_time", VString "${fire.fire_time}"); ("manual", VString "${fire.manual}")].

(** A string field that is not blank, trimmed. *)
Definition trimmed_field (v : Value) (k : string) : option string :=
  match value_str v k with
  | Some s => let s := trim s in if String.eqb s "" then None else Some s
  | None => None
  end.

Definition schedule_subtask_template_from_value (value : Value) : result ScheduleSubtaskTemplate :=
  task_type ← ok_or "missing target.task_type" (trimmed_field value "task_type");
  name_template ← ok_or "missing target.name_template" (trimmed_field value "name_template");
  mret (mkTemplate task_type name_template (default VNull (get value "data_template"))).

Definition required (value : Value) (k : string) : result string := ok_or ("missing target." +:+ k) (value_str value k).

Definition remind_target (value : Value) : result ScheduleSubtaskTemplate :=
  text ← required value "text";
  let to := default "self" (value_str value "to") in
  mret (mkTemplate "workflow.send_message" "remind: ${schedule.name} [${fire.fire_id}]"
    (object [("send_message", object [("to", VString to); ("text", VString text); ("trigger", trigger_template)])])).

Definition agent_target (value : Value) : result ScheduleSubtaskTemplate :=
  title ← required value "title";
  objective ← required value "objective";
  workspace_id ← required value "workspace_id";
  let agent := match value_str value "agent" with
               | Some a => if String.eqb (trim a) "" then "${schedule.owner.app_id}" else a
               | None => "${schedule.owner.app_id}"
               end in
  mret (mkTemplate "agent.delegate" title
    (object [("agent_delegate", object
      [("version", VNumber (json_i64 1)); ("purpose", VString objective); ("title", VString title);
       ("requester_agent_id", VString "${schedule.owner.app_id}");
       ("owner_session_id", VString "schedule-${schedule.schedule_id}");
       ("input", object [("text", VString objective)]);
       ("workspace_hints", VArray [object [("workspace_id", VString workspace_id)]]);
       ("trigger", trigger_template);
       ("execution", object [("workspace_id", VString workspace_id); ("behavior", default VNull (get value "behavior"));
                             ("runner", VString agent); ("status", VString "pending")])])])).

Definition run_target (value : Value) : result ScheduleSubtaskTemplate :=
  workflow_id ← required value "workflow_id";
  mret (mkTemplate "workflow.run" "workflow/run: ${schedule.name} [${fire.fire_id}]"
    (object [("workflow_run", object [("workflow_id", VString workflow_id); ("input", default VNull (get value "input"));
                                      ("trigger", trigger_template)])])).

Definition command_target (value : Value) : result ScheduleSubtaskTemplate :=
  command ← required value "command";
  mret (mkTemplate "opendan.command" "opendan.command: ${schedule.name} [${fire.fire_id}]"
    (object [("opendan_command", object [("command", VString command); ("args", default VNull (get value "args"));
                                         ("trigger", trigger_template)])])).

Definition rpc_target (value : Value) : result ScheduleSubtaskTemplate :=
  service ← required value "service";
  method ← required value "method";
  mret (mkTemplate "service.rpc" "service.rpc: ${schedule.name} [${fire.fire_id}]"
    (object [("service_rpc", object [("service", VString service); ("method", VString method);
                                     ("params", default VNull (get value "params")); ("trigger", trigger_template)])])).

Definition schedule_target_from_value (value : Value) : result ScheduleSubtaskTemplate :=
  match get value "task_type" with
  | Some _ => schedule_subtask_template_from_value value
  | None =>
    kind ← required value "kind";
    if String.eqb kind "remind" then remind_target value
    else if String.eqb kind "agent_task" || String.eqb kind "task" then agent_target value
    else if String.eqb kind "workflow.run" then run_target value
    else if String.eqb kind "opendan.command" then command_target value
    else if String.eqb kind "service.rpc" then rpc_target value
    else Err ("unsupported target.kind `" +:+ kind +:+ "`")
  end.

(** [value.pointer("/a/b")] for names that are no indices *)
Definition pointer (v : Value) (a b : string) : option Value := v ← get v a; get v b.

Definition schedule_workflow_id (t : ScheduleSubtaskTemplate) : option string :=
  if negb (String.eqb (task_type t) "workflow.run") then None
  else v ← pointer (data_template t) "workflow_run" "workflow_id"; as_str v.

Definition validate_agent_delegate_template (t : ScheduleSubtaskTemplate) : result unit :=
  delegate ← ok_or "agent.delegate target requires data_template.agent_delegate" (get (data_template t) "agent_delegate");
  _ ← ok_or "agent.delegate target requires `title`" (trimmed_field delegate "title");
  _ ← ok_or "agent.delegate target requires `purpose`" (trimmed_field delegate "purpose");
  let hints := default [] (v ← get delegate "workspace_hints"; as_array v) in
  let named := List.filter (fun item => bool_decide (is_Some (trimmed_field item "workspace_id"))) hints in
  if (length named =? 1)%nat then Ok () else Err "agent.delegate target requires exactly one workspace_id".

Definition validate_send_message_template (t : ScheduleSubtaskTemplate) : result unit :=
  message ← ok_or "workflow.send_message target requires data_template.send_message" (get (data_template t) "send_message");
  _ ← ok_or "workflow.send_message target requires recipient `to`" (trimmed_field message "to");
  _ ← ok_or "workflow.send_message target requires non-empty text" (trimmed_field message "text");
  Ok ().

Definition validate_subtask_template (t : ScheduleSubtaskTemplate) : result unit :=
  if String.eqb (trim (task_type t)) "" then Err "target.task_type must not be empty"
  else if String.eqb (trim (name_template t)) "" then Err "target.name_template must not be empty"
  else if String.eqb (task_type t) "agent.delegate" then validate_agent_delegate_template t
  else if String.eqb (task_type t) "workflow.send_message" then validate_send_message_template t
  else if String.eqb (task_type t) "workflow.run" then
    match schedule_workflow_id t with
    | Some id => if String.eqb (trim id) "" then Err "workflow.run target requires data_template.workflow_run.workflow_id" else Ok ()
    | None => Err "workflow.run target requires data_template.workflow_run.workflow_id"
    end
  else Ok ().

(** ** Rendering *)

Definition render_context (s : WorkflowSchedule) (fire : ScheduleFireRecord) : Value :=
  object
    [("schedule", object
       [("schedule_id", VString (schedule_id s)); ("name", VString (sch_name s));
        ("owner", object [("user_id", VString (owner_user_id (owner s))); ("app_id", VString (owner_app_id (owner s)))])]);
     ("fire", object
       [("fire_id", VString (fire_id fire)); ("fire_key", VString (fire_key_of fire));
        ("fire_time", VNumber (json_i64 (fire_time fire))); ("manual", VBool (fire_manual fire))])].

Fixpoint value_at (v : Value) (path : list string) : option Value :=
  match path with
  | [] => Some v
  | part :: path => v ← get v part; value_at v path
  end.
Definition value_at_path (v : Value) (path : string) : option Value := value_at v (split_on "." path).

Definition value_to_template_string (v : Value) : string :=
  match v with
  | VNull => ""
  | VBool b => if b then "true" else "false"
  | VNumber n => json_number_text n
  | VString s => s
  | _ => json_text v
  end.

(** [s.contains(needle)] and [s.replace(needle, by)], from the left. *)
Fixpoint contains_str (needle s : string) : bool :=
  starts_with needle s || match s with EmptyString => false | String _ s => contains_str needle s end.

Fixpoint replace_go (fuel : nat) (needle by_text s : string) : string :=
  match fuel with
  | O => s
  | S fuel =>
    match s with
    | EmptyString => EmptyString
    | String a rest =>
      match strip_prefix needle s with
      | Some s => by_text +:+ replace_go fuel needle by_text s
      | None => String a (replace_go fuel needle by_text rest)
      end
    end
  end.
Definition replace_str (needle by_text s : string) : string := replace_go (String.length s) needle by_text s.

Definition render_keys : list string :=
  ["schedule.schedule_id"; "schedule.name"; "schedule.owner.user_id"; "schedule.owner.app_id";
   "fire.fire_id"; "fire.fire_key"; "fire.fire_time"; "fire.manual"].

Definition render_key (context : Value) (out key : string) : string :=
  let needle := "${" +:+ key +:+ "}" in
  if contains_str needle out then
    match value_at_path context key with
    | Some v => replace_str needle (value_to_template_string v) out
    | None => out
    end
  else out.

Definition render_string (raw : string) (context : Value) : string := fold_left (render_key context) render_keys raw.

Definition strip_suffix (c : ascii) (s : string) : option string :=
  match rsplit_once c s with Some (l, EmptyString) => Some l | _ => None end.

Definition placeholder_value (raw : string) (context : Value) : option Value :=
  key ← strip_prefix "${" (trim raw); key ← strip_suffix "}" key; value_at_path context key.

Fixpoint render_value (v : Value) (context : Value) : Value :=
  match v with
  | VString raw => default (VString (render_string raw context)) (placeholder_value raw context)
  | VArray items => VArray ((fun item => render_value item context) <$> items)
  | VObject m => VObject ((fun kv => (kv.1, render_value kv.2 context)) <$> m)
  | _ => v
  end.

Record RenderedScheduleSubtask := mkRendered { rendered_task_type : string; rendered_name : string; rendered_data : Value }.

Definition render_subtask_template (s : WorkflowSchedule) (fire : ScheduleFireRecord) : RenderedScheduleSubtask :=
  let context := render_context s fire in
  mkRendered (render_string (task_type (target s)) context) (render_string (name_template (target s)) context)
    (render_value (data_template (target s)) context).

(** What a run is told of its trigger ([server.rs]). *)
Definition schedule_trigger_context (s : WorkflowSchedule) (time : Z) (manual : bool) : Value :=
  let '(cron, timezone) :=
    match schedule s with
    | Cron expr timezone _ _ _ => (Some expr, Some timezone)
    | Once _ timezone => (None, timezone)
    | RunEvery _ _ _ timezone => (None, timezone)
    end in
  object [("kind", VString "schedule"); ("schedule_id", VString (schedule_id s)); ("fire_time", VString (rfc3339_text time));
          ("fire_time_unix", VNumber (json_i64 time)); ("cron", str_or_null cron); ("timezone", VString (default "UTC" timezone));
          ("manual", VBool manual)].

Definition merge_trigger_input (input trigger : Value) : Value :=
  match input with
  | VObject m => VObject (map_insert "trigger" trigger m)
  | VNull => object [("trigger", trigger)]
  | other => object [("input", other); ("trigger", trigger)]
  end.
End trigger.
Arguments ScheduleSubtaskTemplate : clear implicits.
Arguments WorkflowSchedule : clear implicits.
Arguments RenderedScheduleSubtask : clear implicits.

(** ** The store *)

Section store.
Context {Number : Type} `{JsonText Number} `{HashOrder} `{Calendar} (b : build) (rounds : nat).
Abbreviation Value := (Value Number).
Abbreviation WorkflowSchedule := (WorkflowSchedule Number).

(** [ScheduleInner], and whether the schedules were loaded from the task manager. *)
Record Store := mkStore {
  schedules : gmap string WorkflowSchedule;
  fires_by_id : gmap string ScheduleFireRecord;
  fire_key_index : gmap string string;
  schedules_hydrated : bool
}.

Definition new_memory : Store := mkStore ∅ ∅ ∅ false.
Definition with_schedules (m : gmap string WorkflowSchedule) (s : Store) : Store :=
  mkStore m (fires_by_id s) (fire_key_index s) (schedules_hydrated s).
Definition with_fires (m : gmap string ScheduleFireRecord) (s : Store) : Store :=
  mkStore (schedules s) m (fire_key_index s) (schedules_hydrated s).

Definition hydrate_one (now : Z) (m : gmap string WorkflowSchedule) (s : WorkflowSchedule) : gmap string WorkflowSchedule :=
  match m !! schedule_id s with
  | Some _ => m
  | None =>
    let s := if bool_decide (sch_status s = SchRunning) && is_reboot_schedule (schedule s)
             then with_state (with_next (Some now) (state s)) s else s in
    <[schedule_id s := s]> m
  end.
Definition hydrate (now : Z) (l : list WorkflowSchedule) (s : Store) : Store :=
  with_schedules (fold_left (hydrate_one now) l (schedules s)) s.

Definition insert_schedule (x : WorkflowSchedule) (s : Store) : Store := with_schedules (<[schedule_id x := x]> (schedules s)) s.

(** A closure that changes a schedule: it may panic on the way, or not return;
    what it wrote before stays. *)
Definition Change := WorkflowSchedule -> WorkflowSchedule * outcome unit.
Definition change (f : WorkflowSchedule -> WorkflowSchedule) : Change := fun x => (f x, Returned ()).

Definition update (id : string) (f : Change) (now : Z) (s : Store) : Store * outcome (option WorkflowSchedule) :=
  match schedules s !! id with
  | None => (s, Returned None)
  | Some x =>
    let (x, o) := f x in
    match o with
    | Returned _ => let x := with_sch_updated now x in (with_schedules (<[id := x]> (schedules s)) s, Returned (Some x))
    | Panicked => (with_schedules (<[id := x]> (schedules s)) s, Panicked)
    | Running => (with_schedules (<[id := x]> (schedules s)) s, Running)
    end
  end.

Definition is_due (now : Z) (x : WorkflowSchedule) : bool :=
  bool_decide (sch_status x = SchRunning) && match next_fire_at (state x) with Some ts => ts <=? now | None => false end.
Definition due (now : Z) (s : Store) : list WorkflowSchedule := List.filter (is_due now) (values (schedules s)).

Definition list_schedules (who : option Owner) (status : option ScheduleStatus) (workflow_id name : option string) (s : Store)
  : list WorkflowSchedule :=
  sort_stable (fun x y => sch_updated_at y <=? sch_updated_at x)
    (List.filter (fun x =>
       match who with Some o => bool_decide (owner x = o) | None => true end
       && match status with Some st => bool_decide (sch_status x = st) | None => true end
       && match name with Some n => contains_str n (sch_name x) | None => true end
       && match workflow_id with Some want => bool_decide (schedule_workflow_id (target x) = Some want) | None => true end)
     (values (schedules s))).

Definition begin_fire (id : string) (time : Z) (manual : bool) (now : Z) (uuid : string) (s : Store)
  : Store * (ScheduleFireRecord * bool) :=
  let key := fire_key id time in
  match (existing_id ← fire_key_index s !! key; fires_by_id s !! existing_id) with
  | Some existing => (s, (existing, false))
  | None =>
    let fire := mkFire ("fire-" +:+ uuid) id key time manual FireCreated None None None now now in
    (mkStore (schedules s) (<[fire_id fire := fire]> (fires_by_id s)) (<[key := fire_id fire]> (fire_key_index s))
       (schedules_hydrated s), (fire, true))
  end.

Definition complete_fire (id : string) (status : FireStatus) (task_id run_id error : option string) (now : Z) (s : Store)
  : Store * option ScheduleFireRecord :=
  match fires_by_id s !! id with
  | None => (s, None)
  | Some f =>
    let f := mkFire (fire_id f) (fire_schedule_id f) (fire_key_of f) (fire_time f) (fire_manual f) status task_id run_id error
               (fire_created_at f) now in
    (with_fires (<[id := f]> (fires_by_id s)) s, Some f)
  end.

Definition history (id : string) (limit : nat) (s : Store) : list ScheduleFireRecord :=
  take limit (sort_stable (fun x y => fire_time y <=? fire_time x)
    (List.filter (fun f => String.eqb (fire_schedule_id f) id) (values (fires_by_id s)))).

(** ** Programs *)

(** What an operation reads while it runs: the clock, and an identifier. *)
Record Tick := mkTick { clock1 : Z; clock2 : Z; clock3 : Z; fresh_uuid : string }.

(** Operations on the store.  The closure of an update may read the clock. *)
Inductive op :=
| OpGet (id : string)
| OpInsert (x : WorkflowSchedule)
| OpUpdate (id : string) (f : Tick -> Change)
| OpDue (now : Z)
| OpBegin (id : string) (time : Z) (manual : bool)
| OpComplete (id : string) (status : FireStatus) (task_id run_id error : option string)
| OpHydrate (l : list WorkflowSchedule)
| OpHydrated
| OpSetHydrated.

Definition reply (o : op) : Type :=
  match o with
  | OpGet _ | OpUpdate _ _ => option WorkflowSchedule
  | OpInsert _ | OpHydrate _ | OpSetHydrated => unit
  | OpDue _ => list WorkflowSchedule
  | OpBegin _ _ _ => ScheduleFireRecord * bool
  | OpComplete _ _ _ _ _ => option ScheduleFireRecord
  | OpHydrated => bool
  end.

Definition exec (t : Tick) (o : op) (s : Store) : Store * outcome (reply o) :=
  match o return Store * outcome (reply o) with
  | OpGet id => (s, Returned (schedules s !! id))
  | OpInsert x => (insert_schedule x s, Returned ())
  | OpUpdate id f => update id (f t) (clock3 t) s
  | OpDue now => (s, Returned (due now s))
  | OpBegin id time manual => let (s, r) := begin_fire id time manual (clock1 t) (fresh_uuid t) s in (s, Returned r)
  | OpComplete id status task_id run_id error =>
    let (s, r) := complete_fire id status task_id run_id error (clock1 t) s in (s, Returned r)
  | OpHydrate l => (hydrate (clock1 t) l s, Returned ())
  | OpHydrated => (s, Returned (schedules_hydrated s))
  | OpSetHydrated => (mkStore (schedules s) (fires_by_id s) (fire_key_index s) true, Returned ())
  end.

(** Questions to the rest of the system, and their answers: the schedules of the
    task manager; whether the tasks under a schedule's root have ended, by age;
    how many runs of a schedule have not ended; whether a definition is archived;
    the start of a run and of a task, the two effects of a fire; the task of a
    run; and the mirroring of a schedule. *)
Inductive query :=
| AskClock
| AskLoad
| AskSubtasks (root_task_id : string)
| AskActiveRuns (schedule_id : string)
| AskDefinition (workflow_id : string)
| StartRun (x : WorkflowSchedule) (fire : ScheduleFireRecord) (workflow_id : string) (trigger trigger_input : Value)
| StartTask (x : WorkflowSchedule) (fire : ScheduleFireRecord) (rendered : RenderedScheduleSubtask Number)
| AskFireTask (x : WorkflowSchedule) (run_id : string)
| EnsureRootTask (x : WorkflowSchedule)
| MirrorSchedule (x : WorkflowSchedule).

Definition answer (q : query) : Type :=
  match q with
  | AskClock => Z
  | AskLoad => string + list WorkflowSchedule
  | AskSubtasks _ => string + list bool
  | AskActiveRuns _ => Z
  | AskDefinition _ => option bool
  | StartRun _ _ _ _ _ => string + string
  | StartTask _ _ _ => string + string
  | AskFireTask _ _ => option string
  | EnsureRootTask _ => string + ScheduleTaskMirror
  | MirrorSchedule _ => unit
  end.

Inductive Prog {A : Type} :=
| Ret (a : A)
| Op (o : op) (k : reply o -> Prog)
| Ask (q : query) (k : answer q -> Prog)
| Crash.
Arguments Prog A : clear implicits.

Fixpoint prog_bind {A B} (f : A -> Prog B) (p : Prog A) : Prog B :=
  match p with
  | Ret a => f a
  | Op o k => Op o (fun r => prog_bind f (k r))
  | Ask q k => Ask q (fun r => prog_bind f (k r))
  | Crash => Crash
  end.
#[export] Instance prog_ret : MRet Prog := fun _ => Ret.
#[export] Instance prog_mbind : MBind Prog := fun _ _ => prog_bind.

Definition do (o : op) : Prog (reply o) := Op o Ret.
Definition ask (q : query) : Prog (answer q) := Ask q Ret.

(** A program on its own: what each operation reads and each question is
    answered is given by its number; the questions asked are kept. *)
Record World := mkWorld { ticks : nat -> Tick; answers : forall (n : nat) (q : query), answer q }.

Fixpoint run {A} (w : World) (n : nat) (p : Prog A) (s : Store) : Store * list query * outcome A :=
  match p with
  | Ret a => (s, [], Returned a)
  | Crash => (s, [], Panicked)
  | Op o k =>
    match exec (ticks w n) o s with
    | (s, Returned r) => run w (S n) (k r) s
    | (s, Panicked) => (s, [], Panicked)
    | (s, Running) => (s, [], Running)
    end
  | Ask q k => let '(s, qs, r) := run w (S n) (k (answers w n q)) s in (s, q :: qs, r)
  end.

(** ** Firing *)

(** Whether the service has a client of the task manager. *)
Context (mirror : bool).

Definition update_scheduled_task_root_task (x : WorkflowSchedule) : Prog () :=
  if mirror then ask (MirrorSchedule x) else mret ().

Definition update_and_mirror (id : string) (f : Tick -> Change) : Prog () :=
  updated ← do (OpUpdate id f);
  match updated with Some x => update_scheduled_task_root_task x | None => mret () end.

(** [handle_get_subtasks] of the task manager, asked for no number of tasks,
    gives the 100 oldest. *)
Definition active_fire_subtasks (x : WorkflowSchedule) : Prog (string + Z) :=
  match root_task_id (task_mirror x) with
  | None => mret (inr 0)
  | Some parent_id =>
    children ← ask (AskSubtasks parent_id);
    mret (match children with
          | inl e => inl e
          | inr terminal => inr (Z.of_nat (length (List.filter negb (take 100 terminal))))
          end)
  end.

Definition active_schedule_runs (x : WorkflowSchedule) : Prog Z :=
  active ← (if mirror then active_fire_subtasks x else mret (inr 0));
  match active with
  | inr n => if 0 <? n then mret n else ask (AskActiveRuns (schedule_id x))
  | inl _ => ask (AskActiveRuns (schedule_id x))
  end.

(** What a handler answers instead of a result. *)
Inductive Refusal :=
| NotFound (id : string)
| NotEnabled (id : string)
| FireFailedWith (id message : string)
| NoPermission (id : string)
| Rejected (message : string).

Definition failed_state (error : string) (st : ScheduleState) : ScheduleState :=
  mkState (next_fire_at st) (last_fire_at st) (last_task_id st) (last_run_id st)
    (Z.min u32_max (consecutive_failures st + 1)) (Some error).

Definition fail_schedule_fire (x : WorkflowSchedule) (fire : ScheduleFireRecord) (error : string) : Prog Refusal :=
  _ ← do (OpComplete (fire_id fire) FireFailed None None (Some error));
  _ ← update_and_mirror (schedule_id x) (fun _ => change (fun r =>
        with_state (failed_state error (state r)) (with_sch_status SchFailed r)));
  mret (FireFailedWith (schedule_id x) error).

(** [record.state.next_fire_at = next_fire_after(..)], the last line of a closure. *)
Definition then_next (time now : Z) (r : WorkflowSchedule) : WorkflowSchedule * outcome unit :=
  match next_fire_after b rounds now (schedule r) time with
  | Returned next => (with_state (with_next next (state r)) r, Returned ())
  | Panicked => (r, Panicked)
  | Running => (r, Running)
  end.

Definition fired_state (time : Z) (task_id run_id : option string) (st : ScheduleState) : ScheduleState :=
  mkState (next_fire_at st) (Some time) task_id run_id 0 None.

Definition after_success (time : Z) (manual : bool) (task_id run_id : option string) (t : Tick) : Change := fun r =>
  let r := with_state (fired_state time task_id run_id (state r)) r in
  match schedule r with
  | Once _ _ => (with_state (with_next None (state r)) (with_sch_status SchCanceled r), Returned ())
  | spec =>
    if is_reboot_schedule spec then (with_state (with_next None (state r)) r, Returned ())
    else if manual then (r, Returned ())
    else then_next time (clock2 t) r
  end.

Definition complete_schedule_after_success (x : WorkflowSchedule) (time : Z) (manual : bool) (task_id run_id : option string) : Prog () :=
  update_and_mirror (schedule_id x) (after_success time manual task_id run_id).

Definition after_skip (time : Z) (manual : bool) (t : Tick) : Change := fun r =>
  let r := with_state (with_error (Some "previous_run_still_active")
             (mkState (next_fire_at (state r)) (Some time) (last_task_id (state r)) (last_run_id (state r))
                (consecutive_failures (state r)) (last_error (state r)))) r in
  if manual then (r, Returned ()) else then_next time (clock2 t) r.

Abbreviation fire_result := (Refusal + ScheduleFireRecord)%type.

(** The part of [fire_schedule] for workflows. *)
Definition fire_workflow (x : WorkflowSchedule) (fire : ScheduleFireRecord) (time : Z) (manual : bool)
    (rendered : RenderedScheduleSubtask Number) : Prog fire_result :=
  let fail error := r ← fail_schedule_fire x fire error; mret (inl r) in
  match (v ← pointer (rendered_data rendered) "workflow_run" "workflow_id"; as_str v) with
  | None => fail "workflow_run_template_missing_workflow_id"
  | Some workflow_id =>
    let input := default VNull (pointer (rendered_data rendered) "workflow_run" "input") in
    definition ← ask (AskDefinition workflow_id);
    match definition with
    | None => fail "workflow_not_found"
    | Some true => fail "definition_archived"
    | Some false =>
      let trigger := schedule_trigger_context x time manual in
      started ← ask (StartRun x fire workflow_id trigger (merge_trigger_input input trigger));
      match started with
      | inl e => fail e
      | inr run_id =>
        task_id ← (if mirror then ask (AskFireTask x run_id) else mret None);
        completed ← do (OpComplete (fire_id fire) FireTaskCreated task_id (Some run_id) None);
        _ ← complete_schedule_after_success x time manual task_id (Some run_id);
        mret (inr (default fire completed))
      end
    end
  end.

Definition fire_task (x : WorkflowSchedule) (fire : ScheduleFireRecord) (time : Z) (manual : bool)
    (rendered : RenderedScheduleSubtask Number) : Prog fire_result :=
  let fail error := r ← fail_schedule_fire x fire error; mret (inl r) in
  if mirror then
    started ← ask (StartTask x fire rendered);
    match started with
    | inl e => fail e
    | inr task_id =>
      completed ← do (OpComplete (fire_id fire) FireTaskCreated (Some task_id) None None);
      _ ← complete_schedule_after_success x time manual (Some task_id) None;
      mret (inr (default fire completed))
    end
  else fail "task_manager_unavailable".

(** What a fire whose record is new does. *)
Definition new_fire (x : WorkflowSchedule) (fire : ScheduleFireRecord) (time : Z) (manual : bool) : Prog fire_result :=
  match root_task_id (task_mirror x) with
  | None => r ← fail_schedule_fire x fire "schedule_root_task_missing"; mret (inl r)
  | Some _ =>
    active ← active_schedule_runs x;
    if 0 <? active then
      completed ← do (OpComplete (fire_id fire) FireSkipped None None (Some "previous_run_still_active"));
      _ ← update_and_mirror (schedule_id x) (after_skip time manual);
      mret (inr (default fire completed))
    else
      let rendered := render_subtask_template x fire in
      if String.eqb (rendered_task_type rendered) "workflow.run" then fire_workflow x fire time manual rendered
      else fire_task x fire time manual rendered
  end.

Definition fire_schedule (id : string) (time : Z) (manual : bool) : Prog fire_result :=
  found ← do (OpGet id);
  match found with
  | None => mret (inl (NotFound id))
  | Some x =>
    if negb manual && negb (bool_decide (sch_status x = SchRunning)) then mret (inl (NotEnabled id))
    else
      began ← do (OpBegin (schedule_id x) time manual);
      let '(fire, is_new) := (began : ScheduleFireRecord * bool) in
      if is_new then new_fire x fire time manual else mret (inr fire)
  end.

(** ** The scan *)

Definition ensure_schedules_hydrated : Prog () :=
  hydrated ← do OpHydrated;
  if (hydrated : bool) then mret ()
  else if mirror then
    loaded ← ask AskLoad;
    match loaded with
    | inr l => _ ← do (OpHydrate l); do OpSetHydrated
    | inl _ => mret ()
    end
  else do OpSetHydrated.

Fixpoint fire_all (id : string) (times : list Z) : Prog () :=
  match times with
  | [] => mret ()
  | time :: times => _ ← fire_schedule id time false; fire_all id times
  end.

Definition set_next (next : option Z) : Change := change (fun r => with_state (with_next next (state r)) r).

Definition scan_schedule (now : Z) (x : WorkflowSchedule) : Prog () :=
  clock ← ask AskClock;
  match due_fire_times b rounds clock (schedule x) (policy x) (next_fire_at (state x)) now with
  | Returned (fire_times, next, missed) =>
    match missed with
    | Some error =>
      update_and_mirror (schedule_id x) (fun _ => change (fun r => with_state (with_next next (with_error (Some error) (state r))) r))
    | None =>
      _ ← fire_all (schedule_id x) fire_times;
      if bool_decide (misfire (policy x) = MisfireSkip) then update_and_mirror (schedule_id x) (fun _ => set_next next)
      else mret ()
    end
  | _ => Crash
  end.

Fixpoint scan_all (now : Z) (l : list WorkflowSchedule) : Prog () :=
  match l with
  | [] => mret ()
  | x :: l => _ ← scan_schedule now x; scan_all now l
  end.

Definition scan_due_schedules : Prog () :=
  _ ← ensure_schedules_hydrated;
  hydrated ← do OpHydrated;
  if (hydrated : bool) then
    now ← ask AskClock;
    l ← do (OpDue now);
    scan_all now l
  else mret ().

(** ** Requests *)

(** [caller] is the authenticated caller. *)
Definition schedule_for_caller (caller : Owner) (id : string) : Prog (Refusal + option WorkflowSchedule) :=
  found ← do (OpGet id);
  mret (match found with
        | None => inr None
        | Some x => if bool_decide (owner x = caller) then inr (Some x) else inl (NoPermission id)
        end).

Abbreviation response := (Refusal + WorkflowSchedule)%type.

(** The rest of a handler for a schedule of the caller. *)
Definition for_caller {A} (caller : Owner) (id : string) (k : WorkflowSchedule -> Prog (Refusal + A)) : Prog (Refusal + A) :=
  found ← schedule_for_caller caller id;
  match found with
  | inl r => mret (inl r)
  | inr None => mret (inl (NotFound id))
  | inr (Some x) => k x
  end.

Definition validate_target_exists (t : ScheduleSubtaskTemplate Number) : Prog (result unit) :=
  match schedule_workflow_id t with
  | None => mret (Ok ())
  | Some id =>
    definition ← ask (AskDefinition id);
    mret (match definition with
          | Some false => Ok ()
          | Some true => Err ("workflow `" +:+ id +:+ "` is archived")
          | None => Err ("workflow `" +:+ id +:+ "` not found")
          end)
  end.

Definition checked_target (t : ScheduleSubtaskTemplate Number) : Prog (result unit) :=
  r ← validate_target_exists t; mret (_ ← r; validate_subtask_template t).

Definition ensure_schedule_root_task (x : WorkflowSchedule) : Prog response :=
  if mirror then
    made ← ask (EnsureRootTask x);
    match made with
    | inl e => mret (inl (Rejected ("create schedule root task failed: " +:+ e)))
    | inr m =>
      updated ← do (OpUpdate (schedule_id x) (fun _ => change (with_mirror m)));
      mret (match updated with Some x => inr x | None => inl (Rejected "schedule disappeared") end)
    end
  else mret (inl (Rejected "task_manager_unavailable: enabled schedule requires a root task")).

(** [create_scheduled_task] after its parameters were read, with the new identifier. *)
Definition create_scheduled_task (uuid : string) (who : Owner) (name : string) (description : option string) (spec : ScheduleSpec)
    (t : ScheduleSubtaskTemplate Number) (pol : SchedulePolicy) (status : option ScheduleStatus) : Prog response :=
  checked ← checked_target t;
  match checked with
  | Panic => Crash
  | Err e => mret (inl (Rejected e))
  | Ok _ =>
    now ← ask AskClock;
    clock ← ask AskClock;
    let status := default SchRunning status in
    match (if bool_decide (status = SchRunning) then initial_next_fire_at b rounds spec now clock else Returned None) with
    | Returned next =>
      let x := mkSchedule ("sch-" +:+ uuid) who name description status spec t (mkState next None None None 0 None) pol
                 (mkMirror None None) now now in
      _ ← do (OpInsert x);
      ensure_schedule_root_task x
    | _ => Crash
    end
  end.

(** [update_scheduled_task]; a field that the request does not have is [None]. *)
Definition update_scheduled_task (caller : Owner) (id : string) (name : option string) (descr : option (option string))
    (spec : option ScheduleSpec) (t : option (ScheduleSubtaskTemplate Number)) (pol : option SchedulePolicy) : Prog response :=
  for_caller caller id (fun x =>
    now ← ask AskClock;
    clock ← ask AskClock;
    let spec' := default (schedule x) spec in
    match (if bool_decide (is_Some spec) && bool_decide (sch_status x = SchRunning)
           then initial_next_fire_at b rounds spec' now clock else Returned (next_fire_at (state x))) with
    | Returned next =>
      checked ← match t with Some t => checked_target t | None => mret (Ok ()) end;
      match checked with
      | Panic => Crash
      | Err e => mret (inl (Rejected e))
      | Ok _ =>
        let x' := mkSchedule (schedule_id x) (owner x) (default (sch_name x) name) (default (description x) descr) (sch_status x)
                    spec' (default (target x) t) (with_next next (state x)) (default (policy x) pol) (task_mirror x)
                    (sch_created_at x) (sch_updated_at x) in
        updated ← do (OpUpdate id (fun _ => change (fun _ => x')));
        match updated with
        | Some x => _ ← update_scheduled_task_root_task x; mret (inr x)
        | None => Crash
        end
      end
    | _ => Crash
    end).

(** An update of a schedule of the caller, mirrored. *)
Definition update_of_caller (caller : Owner) (id : string) (f : Tick -> Change) : Prog response :=
  for_caller caller id (fun _ =>
    updated ← do (OpUpdate id f);
    match updated with
    | Some x => _ ← update_scheduled_task_root_task x; mret (inr x)
    | None => mret (inl (NotFound id))
    end).

Definition resume_scheduled_task (caller : Owner) (id : string) : Prog response :=
  update_of_caller caller id (fun t r =>
    let r := with_sch_status SchRunning r in
    match initial_next_fire_at b rounds (schedule r) (clock1 t) (clock2 t) with
    | Returned next => (with_state (with_error None (with_next next (state r))) r, Returned ())
    | Panicked => (r, Panicked)
    | Running => (r, Running)
    end).

Definition set_schedule_status (caller : Owner) (id : string) (status : ScheduleStatus) : Prog response :=
  update_of_caller caller id (fun _ => change (fun r =>
    let r := with_sch_status status r in
    if bool_decide (status = SchCanceled) then with_state (with_next None (state r)) r else r)).

Definition pause_scheduled_task (caller : Owner) (id : string) : Prog response := set_schedule_status caller id SchPaused.
Definition archive_scheduled_task (caller : Owner) (id : string) : Prog response := set_schedule_status caller id SchCanceled.

(** [time] is the time the request asks for. *)
Definition run_scheduled_task_now (caller : Owner) (id : string) (time : option Z) : Prog fire_result :=
  for_caller caller id (fun _ =>
    time ← match time with Some t => mret t | None => ask AskClock end;
    fire_schedule id time true).

(** ** Interleaving *)

(** What may run at the same time: the scan, and requests. *)
Inductive Request :=
| ReqScan
| ReqCreate (uuid : string) (who : Owner) (name : string) (description : option string) (spec : ScheduleSpec)
    (t : ScheduleSubtaskTemplate Number) (pol : SchedulePolicy) (status : option ScheduleStatus)
| ReqUpdate (caller : Owner) (id : string) (name : option string) (descr : option (option string))
    (spec : option ScheduleSpec) (t : option (ScheduleSubtaskTemplate Number)) (pol : option SchedulePolicy)
| ReqResume (caller : Owner) (id : string)
| ReqPause (caller : Owner) (id : string)
| ReqArchive (caller : Owner) (id : string)
| ReqRunNow (caller : Owner) (id : string) (time : option Z).

Definition ignore {A} (p : Prog A) : Prog () := _ ← p; mret ().

Definition handler (r : Request) : Prog () :=
  match r with
  | ReqScan => scan_due_schedules
  | ReqCreate uuid who name descr spec t pol status => ignore (create_scheduled_task uuid who name descr spec t pol status)
  | ReqUpdate caller id name descr spec t pol => ignore (update_scheduled_task caller id name descr spec t pol)
  | ReqResume caller id => ignore (resume_scheduled_task caller id)
  | ReqPause caller id => ignore (pause_scheduled_task caller id)
  | ReqArchive caller id => ignore (archive_scheduled_task caller id)
  | ReqRunNow caller id time => ignore (run_scheduled_task_now caller id time)
  end.

(** The service: its store, the programs that run, the questions asked so far. *)
Record Service := mkSys { sys_store : Store; sys_procs : list (Prog ()); sys_asked : list query }.

(** An identifier a UUID gives to a fire is new. *)
Definition fresh_tick (t : Tick) (s : Store) : Prop := fires_by_id s !! ("fire-" +:+ fresh_uuid t) = None.

Inductive step : Service -> Service -> Prop :=
| step_start s ps qs r : step (mkSys s ps qs) (mkSys s (ps ++ [handler r]) qs)
| step_op s ps ps' qs o k t s' r :
    fresh_tick t s -> exec t o s = (s', Returned r) ->
    step (mkSys s (ps ++ Op o k :: ps') qs) (mkSys s' (ps ++ k r :: ps') qs)
| step_panic s ps ps' qs o k t s' :
    fresh_tick t s -> exec t o s = (s', Panicked) -> step (mkSys s (ps ++ Op o k :: ps') qs) (mkSys s' (ps ++ ps') qs)
| step_ask s ps ps' qs q k a :
    step (mkSys s (ps ++ Ask q k :: ps') qs) (mkSys s (ps ++ k a :: ps') (qs ++ [q]))
| step_end s ps p ps' qs : p = Crash \/ p = Ret () -> step (mkSys s (ps ++ p :: ps') qs) (mkSys s (ps ++ ps') qs).

Definition reachable (y : Service) : Prop := rtc step (mkSys new_memory [] []) y.

(** The fires that were started: the schedule and the time of each. *)
Definition started (q : query) : option (string * Z) :=
  match q with
  | StartRun _ fire _ _ _ | StartTask _ fire _ => Some (fire_schedule_id fire, fire_time fire)
  | _ => None
  end.
End store.

(** ** The root task of a schedule *)

Section root_task.
Context {Number : Type} `{JsonText Number}.
Abbreviation Value := (Value Number).
Abbreviation WorkflowSchedule := (WorkflowSchedule Number).

(** The typed data of the task ([buckyos-api/src/taskdata.rs]); the specification
    and the target are kept as what serde reads back from their documents. *)
Record WorkflowSchedulePolicy := mkTypedPolicy {
  tp_misfire : option string;
  tp_max_parallel_runs : option Z;
  tp_catch_up_limit : option Z;
  tp_jitter_sec : option Z
}.

Record WorkflowScheduleTaskRequest := mkTaskRequest {
  tr_schedule_id : string;
  tr_name : option string;
  tr_status : option string;
  tr_schedule : option ScheduleSpec;
  tr_target : option (ScheduleSubtaskTemplate Number);
  tr_description : option string;
  tr_owner : option Owner;
  tr_policy : option WorkflowSchedulePolicy
}.

Record WorkflowScheduleTaskResult := mkTaskResult {
  ts_next_fire_at : option Z;
  ts_last_fire_at : option Z;
  ts_last_task_id : option string;
  ts_last_run_id : option string;
  ts_consecutive_failures : Z;
  ts_last_error : option Value
}.

Record WorkflowScheduleTaskData := mkTaskData { td_request : WorkflowScheduleTaskRequest; td_result : option WorkflowScheduleTaskResult }.

Definition misfire_str (m : MisfirePolicy) : string :=
  match m with MisfireSkip => "skip" | MisfireRunOnce => "run_once" | MisfireCatchUp => "catch_up" | MisfireManual => "manual" end.

Definition policy_to_typed (p : SchedulePolicy) : WorkflowSchedulePolicy :=
  mkTypedPolicy (Some (misfire_str (misfire p))) (Some (max_parallel_runs p)) (Some (catch_up_limit p)) (Some (jitter_sec p)).

Definition policy_from_typed (v : WorkflowSchedulePolicy) : SchedulePolicy :=
  mkPolicy
    (match tp_misfire v with
     | Some m => match misfire_from_str m with Ok m => m | _ => misfire default_policy end
     | None => misfire default_policy
     end)
    (default (max_parallel_runs default_policy) (tp_max_parallel_runs v))
    (match tp_catch_up_limit v with Some n => Z.max n 1 | None => catch_up_limit default_policy end)
    (default (jitter_sec default_policy) (tp_jitter_sec v)).

Definition schedule_task_data (x : WorkflowSchedule) : WorkflowScheduleTaskData :=
  mkTaskData
    (mkTaskRequest (schedule_id x) (Some (sch_name x)) (Some (status_to_string (sch_status x))) (Some (schedule x)) (Some (target x))
       (description x) (Some (owner x)) (Some (policy_to_typed (policy x))))
    (Some (mkTaskResult (next_fire_at (state x)) (last_fire_at (state x)) (last_task_id (state x)) (last_run_id (state x))
       (consecutive_failures (state x)) (VString <$> last_error (state x)))).

(** The newest document of a task. *)
Definition schedule_task_payload {D} (t : Task D) : D :=
  match task_result t with Some d => d | None => default (input t) (progress t) end.

Definition schedule_from_task (t : Task WorkflowScheduleTaskData) : option WorkflowSchedule :=
  let data := schedule_task_payload t in
  let req := td_request data in
  spec ← tr_schedule req;
  target ← tr_target req;
  let status := default SchRunning (s ← tr_status req; from_str_loose s) in
  let who := mkOwner (user_id (creator t)) (app_id (creator t)) in
  let pol := match tr_policy req with Some p => policy_from_typed p | None => default_policy end in
  let res := default (mkTaskResult None None None None 0 None) (td_result data) in
  let st := mkState (ts_next_fire_at res) (ts_last_fire_at res) (ts_last_task_id res) (ts_last_run_id res)
              (ts_consecutive_failures res mod 2 ^ 32)
              (match ts_last_error res with
               | Some (VString text) => Some text
               | Some other => Some (json_text other)
               | None => None
               end) in
  let id := if String.eqb (trim (tr_schedule_id req)) "" then task_id t else tr_schedule_id req in
  mret (mkSchedule id who (default (task_name t) (tr_name req)) (tr_description req) status spec target st pol
    (mkMirror (Some (task_id t)) (Some (root_id t))) (u64_as_i64 (created_at t)) (u64_as_i64 (task_updated_at t))).

(** [load_schedules] from the tasks of the schedule schema by age, of which the
    task manager lists the first 100; tasks that do not read back are left out. *)
Definition load_schedules (tasks : list (Task WorkflowScheduleTaskData)) : list WorkflowSchedule :=
  omap schedule_from_task (take 100 tasks).
End root_task.
