(* ===== verification/TriggerTheorems.v ===== *)
(** Properties of scheduled tasks: no fire starts twice, what each fire does,
    and what the policies for missed fires make of a trigger. *)
From Stdlib Require Import ZArith Lia Ascii Sorted Permutation.
From stdpp Require Import base tactics numbers gmap strings sorting list relations.
From S2P Require Import Prelude RustString TaskTypes WfJson WfSchema Cron CronFacts Trigger.

(** ** Keys of fires *)

Lemma u64_to_string_inj n m : 0 <= n <= u64_max -> 0 <= m <= u64_max -> u64_to_string n = u64_to_string m -> n = m.
Proof. intros Hn Hm E. apply parse_u64_to_string in Hn, Hm. rewrite E in Hn. congruence. Qed.

Lemma i64_to_string_inj n m : is_i64 n -> is_i64 m -> i64_to_string n = i64_to_string m -> n = m.
Proof.
  unfold is_i64, i64_min, i64_max, i64_to_string. intros Hn Hm.
  assert (Ha : forall s, "-" +:+ s = String "-" s) by done.
  destruct (Z.ltb_spec n 0), (Z.ltb_spec m 0); rewrite ?Ha.
  - intros [= E]. apply u64_to_string_inj in E; unfold u64_max; lia.
  - intros E. symmetry in E. by apply u64_to_string_no_sign in E.
  - intros E. by apply u64_to_string_no_sign in E.
  - intros E. apply u64_to_string_inj in E; unfold u64_max; lia.
Qed.

Lemma fire_key_inj id n m : is_i64 n -> is_i64 m -> fire_key id n = fire_key id m -> n = m.
Proof. intros Hn Hm E. unfold fire_key in E. simplify_eq. by apply i64_to_string_inj. Qed.

Section programs.
Context {Number : Type} `{JsonText Number} `{HashOrder} `{Calendar} (b : build) (rounds : nat) (mirror : bool).
Abbreviation Prog A := (@Prog Number A).
Abbreviation Store := (@Store Number).
Abbreviation op := (@op Number).
Abbreviation query := (@query Number).

(** ** What a program may start *)

(** [p] starts only fires that it began itself, each once; [token] is one that
    it may start at once. *)
Fixpoint licensed {A} (token : option (string * Z)) (p : Prog A) : Prop :=
  match p with
  | Ret _ | Crash => True
  | Op o k =>
    match o return (reply o -> Prog A) -> (reply o -> Prop) -> Prop with
    | OpBegin id time manual => fun k all =>
      (forall fire, fire_schedule_id fire = id -> fire_time fire = time -> licensed (Some (id, time)) (k (fire, true)))
      /\ forall fire, licensed token (k (fire, false))
    | _ => fun k all => forall r, all r
    end k (fun r => licensed token (k r))
  | Ask q k =>
    match started q with
    | None => forall a, licensed token (k a)
    | Some fire => token = Some fire /\ forall a, licensed None (k a)
    end
  end.

(** [p] starts nothing. *)
Fixpoint silent {A} (p : Prog A) : Prop :=
  match p with
  | Ret _ | Crash => True
  | Op o k => forall r, silent (k r)
  | Ask q k => started q = None /\ forall a, silent (k a)
  end.

Lemma licensed_weaken {A} token (p : Prog A) : licensed None p -> licensed token p.
Proof.
  revert token. induction p as [a|o k IH|q k IH|]; intros token; simpl; [done| | |done].
  - destruct o; try (intros Hk r; by apply IH). intros [Hnew Hold]. split; [done|]. intros fire. by apply IH.
  - destruct (started q); [by intros [? _]|]. intros Hk a. by apply IH.
Qed.

Lemma licensed_bind {A B} token (p : Prog A) (f : A -> Prog B) :
  licensed token p -> (forall a, licensed None (f a)) -> licensed token (p ≫= f).
Proof.
  intros Hp Hf. revert token Hp. induction p as [a|o k IH|q k IH|]; intros token; simpl.
  - intros _. by apply licensed_weaken.
  - destruct o; try (intros Hk r; by apply IH).
    intros [Hnew Hold]. split; [intros fire ? ?; by apply IH, Hnew|intros fire; by apply IH, Hold].
  - destruct (started q); [intros [-> Hk]; split; [done|]; intros a; by apply IH|intros Hk a; by apply IH].
  - done.
Qed.

Lemma silent_bind {A B} (p : Prog A) (f : A -> Prog B) :
  silent p -> (forall a, silent (f a)) -> silent (p ≫= f).
Proof.
  intros Hp Hf. induction p as [a|o k IH|q k IH|]; simpl in *; [apply Hf| | |done].
  - intros r. by apply IH.
  - destruct Hp as [Hq Hk]. split; [done|]. intros a. by apply IH.
Qed.

(** A silent program that begins nothing keeps its license. *)
Fixpoint tame {A} (p : Prog A) : Prop :=
  match p with
  | Ret _ | Crash => True
  | Op o k => match o with OpBegin _ _ _ => False | _ => True end /\ forall r, tame (k r)
  | Ask q k => started q = None /\ forall a, tame (k a)
  end.

Lemma licensed_tame_bind {A B} token (p : Prog A) (f : A -> Prog B) :
  tame p -> (forall a, licensed token (f a)) -> licensed token (p ≫= f).
Proof.
  intros Hp Hf. induction p as [a|o k IH|q k IH|]; simpl in *; [apply Hf| | |done].
  - destruct Hp as [Ho Hk]. destruct o; try done; intros r; by apply IH.
  - destruct Hp as [-> Hk]. intros a. by apply IH.
Qed.

Lemma tame_bind {A B} (p : Prog A) (f : A -> Prog B) : tame p -> (forall a, tame (f a)) -> tame (p ≫= f).
Proof.
  intros Hp Hf. induction p as [a|o k IH|q k IH|]; simpl in *; [apply Hf| | |done].
  - destruct Hp as [Ho Hk]. split; [done|]. intros r. by apply IH.
  - destruct Hp as [Hq Hk]. split; [done|]. intros a. by apply IH.
Qed.

Lemma tame_licensed {A} token (p : Prog A) : tame p -> licensed token p.
Proof.
  induction p as [a|o k IH|q k IH|]; simpl; [done| | |done].
  - intros [Ho Hk]. destruct o; try done; intros r; by apply IH.
  - intros [-> Hk] a. by apply IH.
Qed.

Lemma tame_silent {A} (p : Prog A) : tame p -> silent p.
Proof.
  induction p as [a|o k IH|q k IH|]; simpl; [done| | |done].
  - intros [_ Hk] r. by apply IH.
  - intros [Hq Hk]. split; [done|]. intros a. by apply IH.
Qed.

Lemma licensed_start {A} q fire (f : answer q -> Prog A) :
  started q = Some fire -> (forall a, licensed None (f a)) -> licensed (Some fire) (ask q ≫= f).
Proof. intros Hq Hf. simpl. rewrite Hq. split; [done|apply Hf]. Qed.

Lemma licensed_begin {A} id time manual (f : ScheduleFireRecord * bool -> Prog A) :
  (forall fire, fire_schedule_id fire = id -> fire_time fire = time -> licensed (Some (id, time)) (f (fire, true))) ->
  (forall fire, licensed None (f (fire, false))) -> licensed None (do (OpBegin id time manual) ≫= f).
Proof. intros Hnew Hold. split; [apply Hnew|apply Hold]. Qed.

Lemma tame_ask q : started q = None -> tame (ask q : Prog (answer q)).
Proof. done. Qed.
End programs.

(** Go through the code of a program. *)
Ltac tame_step :=
  match goal with
  | |- tame (mret _) => exact I
  | |- tame (Ret _) => exact I
  | |- tame Crash => exact I
  | |- tame (ask _) => split; [reflexivity|intros; exact I]
  | |- tame (do _) => split; [exact I|intros; exact I]
  | |- tame (_ ≫= _) => apply tame_bind
  | |- forall _, _ => intros ?
  | |- tame (match ?x with _ => _ end) => destruct x
  | H : tame ?p |- tame ?p => exact H
  end.
Ltac tame := repeat (tame_step; cbv zeta beta).

Section handlers.
Context {Number : Type} `{JsonText Number} `{HashOrder} `{Calendar} (b : build) (rounds : nat) (mirror : bool).
Abbreviation Prog A := (@Prog Number A).

Lemma tame_update_and_mirror id f : tame (update_and_mirror mirror id f : Prog ()).
Proof. unfold update_and_mirror, update_scheduled_task_root_task. tame. Qed.

Lemma tame_fail_schedule_fire x fire e : tame (fail_schedule_fire mirror x fire e : Prog Refusal).
Proof. unfold fail_schedule_fire. tame. apply tame_update_and_mirror. Qed.

Lemma tame_active_schedule_runs x : tame (active_schedule_runs mirror x : Prog Z).
Proof. unfold active_schedule_runs, active_fire_subtasks. tame. Qed.

Abbreviation fire_result := (Refusal + ScheduleFireRecord)%type.

Lemma tame_complete_schedule x time manual task_id run_id :
  tame (complete_schedule_after_success b rounds mirror x time manual task_id run_id : Prog ()).
Proof. apply tame_update_and_mirror. Qed.

End handlers.

Section licenses.
Context {Number : Type} `{JsonText Number} `{HashOrder} `{Calendar} (b : build) (rounds : nat) (mirror : bool).
Abbreviation Prog A := (@Prog Number A).
Abbreviation fire_result := (Refusal + ScheduleFireRecord)%type.

(** A fire starts itself, once, if it was licensed to. *)
Lemma licensed_new_fire x fire time manual :
  licensed (Some (fire_schedule_id fire, fire_time fire)) (new_fire b rounds mirror x fire time manual : Prog fire_result).
Proof.
  set (token := Some (fire_schedule_id fire, fire_time fire)).
  assert (Hfail : forall t e, licensed t ((r ← fail_schedule_fire mirror x fire e; mret (inl r)) : Prog fire_result)).
  { intros t e. apply tame_licensed. tame. apply tame_fail_schedule_fire. }
  unfold new_fire. destruct (root_task_id (task_mirror x)); [|apply Hfail].
  apply licensed_tame_bind; [apply tame_active_schedule_runs|]. intros active. destruct (0 <? active).
  { apply tame_licensed. tame. apply tame_update_and_mirror. }
  case_match.
  - unfold fire_workflow. case_match; [|apply Hfail].
    apply licensed_tame_bind; [by apply tame_ask|]. intros [[]|]; [apply Hfail| |apply Hfail].
    apply licensed_start; [done|]. intros [e|run_id]; [apply Hfail|]. apply tame_licensed. tame. apply tame_complete_schedule.
  - unfold fire_task. destruct mirror; [|apply Hfail].
    apply licensed_start; [done|]. intros [e|task]; [apply Hfail|]. apply tame_licensed. tame. apply tame_complete_schedule.
Qed.

Lemma licensed_fire_schedule id time manual :
  licensed None (fire_schedule b rounds mirror id time manual : Prog fire_result).
Proof.
  unfold fire_schedule. apply licensed_tame_bind; [tame|]. intros [x|]; [|done].
  case_match; [done|]. apply licensed_begin; [|done]. intros fire <- <-. apply licensed_new_fire.
Qed.

Lemma licensed_fire_all id times : licensed None (fire_all b rounds mirror id times : Prog ()).
Proof.
  induction times as [|time times IH]; [done|]. cbn [fire_all].
  apply licensed_bind; [apply licensed_fire_schedule|]. done.
Qed.

Lemma licensed_scan : licensed None (scan_due_schedules b rounds mirror : Prog ()).
Proof.
  unfold scan_due_schedules, ensure_schedules_hydrated. apply licensed_tame_bind; [tame|]. intros [].
  apply licensed_tame_bind; [tame|]. intros []; [|done]. apply licensed_tame_bind; [tame|]. intros now.
  apply licensed_tame_bind; [tame|]. intros l. induction l as [|x l IH]; [done|]. cbn [scan_all].
  apply licensed_bind; [|done]. unfold scan_schedule. apply licensed_tame_bind; [tame|]. intros clock.
  destruct (due_fire_times _ _ _ _ _ _ _) as [[[times next] [e|]]| |]; [| |done..].
  - apply tame_licensed, tame_update_and_mirror.
  - apply licensed_bind; [apply licensed_fire_all|]. intros []. apply tame_licensed. tame. apply tame_update_and_mirror.
Qed.

Lemma tame_checked_target t : tame (checked_target t : Prog (result unit)).
Proof. unfold checked_target, validate_target_exists. tame. Qed.

Lemma tame_for_caller {A} caller id (k : WorkflowSchedule Number -> Prog (Refusal + A)) :
  (forall x, tame (k x)) -> tame (for_caller caller id k).
Proof. intros Hk. unfold for_caller, schedule_for_caller. tame. apply Hk. Qed.

Lemma tame_update_of_caller caller id f : tame (update_of_caller mirror caller id f : Prog (Refusal + WorkflowSchedule Number)).
Proof. apply tame_for_caller. unfold update_scheduled_task_root_task. intros x. tame. Qed.

Lemma licensed_handler r : licensed None (handler b rounds mirror r : Prog ()).
Proof.
  destruct r as [|uuid who name descr spec t pol status|caller id name descr spec t pol|caller id|caller id|caller id|caller id time];
    cbn [handler]; [apply licensed_scan|..]; unfold ignore.
  1-5: apply tame_licensed, tame_bind; [|done].
  - unfold create_scheduled_task, ensure_schedule_root_task. tame. apply tame_checked_target.
  - apply tame_for_caller. unfold update_scheduled_task_root_task. intros x. tame. apply tame_checked_target.
  - apply tame_update_of_caller.
  - apply tame_update_of_caller.
  - apply tame_update_of_caller.
  - apply licensed_bind; [|done]. unfold run_scheduled_task_now, for_caller, schedule_for_caller.
    apply licensed_tame_bind; [tame|]. intros [e|[x|]]; [done| |done].
    apply licensed_tame_bind; [tame|]. intros t. apply licensed_fire_schedule.
Qed.

(** ** Every fire is begun before it starts *)

Abbreviation Store := (@Store Number).

Definition begun (s : Store) (fire : string * Z) : Prop :=
  is_Some (id ← fire_key_index s !! fire_key fire.1 fire.2; fires_by_id s !! id).

Lemma begin_fire_spec id time manual now uuid (s s' : Store) fire is_new :
  fires_by_id s !! ("fire-" +:+ uuid) = None ->
  begin_fire id time manual now uuid s = (s', (fire, is_new)) ->
  begun s' (id, time) /\ (forall f, begun s f -> begun s' f) /\
  if is_new then ~ begun s (id, time) /\ fire_schedule_id fire = id /\ fire_time fire = time else s' = s.
Proof.
  intros Hfresh. unfold begin_fire, begun. cbn [fst snd].
  destruct (fire_key_index s !! fire_key id time ≫= _) as [existing|] eqn:E.
  { intros [= <- <- <-]. rewrite E. eauto. }
  intros [= <- <- <-]. cbn [fire_key_index fires_by_id fire_id fire_schedule_id fire_time].
  rewrite lookup_insert_eq. cbn [mbind option_bind]. rewrite lookup_insert_eq. split_and!; [eauto| |by intros []|done|done].
  intros [id' time'] [existing Hf]. cbn [fst snd] in *.
  destruct (decide (fire_key id' time' = fire_key id time)) as [Ek|Hne].
  { rewrite Ek, E in Hf. done. }
  rewrite lookup_insert_ne by done. destruct (fire_key_index s !! fire_key id' time') as [fid|]; [|done].
  cbn [mbind option_bind] in *. rewrite lookup_insert_ne; [by eexists|]. intros <-. congruence.
Qed.

Lemma begun_index (s s' : Store) f :
  fire_key_index s' = fire_key_index s -> (forall id, is_Some (fires_by_id s !! id) -> is_Some (fires_by_id s' !! id)) ->
  begun s f -> begun s' f.
Proof.
  unfold begun. intros -> Hf. destruct (fire_key_index s !! _) as [id|]; [|by intros []]. apply Hf.
Qed.

Lemma update_fires id f now (s : Store) :
  fires_by_id (update id f now s).1 = fires_by_id s /\ fire_key_index (update id f now s).1 = fire_key_index s.
Proof. unfold update. destruct (schedules s !! id); [|done]. by destruct (f _) as [? [| |]]. Qed.

(** No operation forgets a fire. *)
Lemma exec_begun t o (s s' : Store) r f :
  fresh_tick t s -> exec t o s = (s', r) -> begun s f -> begun s' f.
Proof.
  intros Hfresh. destruct o as [id|x|id g|now|id time manual|id st ti ri er|l| |]; cbn [exec].
  - by intros [= <- <-].
  - intros [= <- <-]. apply begun_index; [done|]. done.
  - intros E. destruct (update_fires id (g t) (clock3 t) s) as [E1 E2]. rewrite E in E1, E2. cbn [fst] in *.
    apply begun_index; [done|]. by rewrite E1.
  - by intros [= <- <-].
  - destruct (begin_fire _ _ _ _ _ _) as [s1 [fire new]] eqn:E. intros [= <- <-].
    apply begin_fire_spec in E as (_ & Hkeep & _); [apply Hkeep|done].
  - unfold complete_fire. destruct (fires_by_id s !! id) as [fire|] eqn:E; intros [= <- <-]; [|done].
    apply begun_index; [done|]. intros id'. cbn [fires_by_id with_fires].
    destruct (decide (id' = id)) as [->|]; [rewrite lookup_insert_eq; eauto|by rewrite lookup_insert_ne].
  - intros [= <- <-]. by apply begun_index.
  - by intros [= <- <-].
  - intros [= <- <-]. by apply begun_index.
Qed.

(** The tokens of the running programs and the fires started are of fires that
    were begun, and all different. *)
Record well_licensed (y : Service (Number := Number)) (tokens : list (option (string * Z))) : Prop := {
  wl_programs : Forall2 (fun token p => licensed token p) tokens (sys_procs y);
  wl_distinct : NoDup (omap id tokens ++ omap started (sys_asked y));
  wl_begun : forall f, f ∈ omap id tokens ++ omap started (sys_asked y) -> begun (sys_store y) f
}.

Lemma omap_id_middle (l k : list (option (string * Z))) o : omap id (l ++ o :: k) ≡ₚ option_list o ++ omap id l ++ omap id k.
Proof. rewrite omap_app. csimpl. destruct o; simpl; [by rewrite Permutation_middle|done]. Qed.

(** One program gets another token, none or its own. *)
Lemma well_licensed_drop l k o (started_list : list (string * Z)) :
  NoDup (omap id (l ++ o :: k) ++ started_list) -> NoDup (omap id (l ++ None :: k) ++ started_list).
Proof. rewrite !omap_id_middle. simpl. rewrite <- app_assoc. intros Hn. by apply NoDup_app in Hn as (_ & _ & ?). Qed.

(** After an operation a program keeps its token, or has one for the fire it began. *)
Lemma licensed_op {A} token o (k : reply o -> Prog A) t (s s' : Store) r :
  fresh_tick t s -> exec t o s = (s', Returned r) -> licensed token (Op o k) ->
  exists token', licensed token' (k r) /\
    (token' = token \/ exists f, token' = Some f /\ ~ begun s f /\ begun s' f).
Proof.
  intros Hfresh He Hl. destruct o as [id|x|id g|now|id time manual|id st ti ri er|l| |];
    try (exists token; split; [apply Hl|by left]).
  cbn [exec] in He. destruct (begin_fire _ _ _ _ _ _) as [s1 [fire new]] eqn:E. injection He as <- <-.
  apply begin_fire_spec in E as (Hb & _ & Hnew); [|done]. destruct Hl as [Hyes Hno]. destruct new.
  - destruct Hnew as (Hn & Hid & Htime). exists (Some (id, time)). split; [by apply Hyes|]. right. by exists (id, time).
  - exists token. split; [apply Hno|by left].
Qed.

Lemma well_licensed_replace s s' l token token' k (ps ps' : list (Prog ())) p qs :
  Forall2 (fun token p => licensed token p) l ps -> Forall2 (fun token p => licensed token p) k ps' -> licensed token' p ->
  NoDup (omap id (l ++ token :: k) ++ omap started qs) ->
  (forall f, f ∈ omap id (l ++ token :: k) ++ omap started qs -> begun s f) ->
  (forall f, begun s f -> begun s' f) ->
  token' = token \/ token' = None \/ (exists f, token' = Some f /\ ~ begun s f /\ begun s' f) ->
  well_licensed (mkSys s' (ps ++ p :: ps') qs) (l ++ token' :: k).
Proof.
  intros Hl Hk Hp Hn Hb Hkeep Ht. split; cbn [sys_procs sys_asked sys_store].
  - by apply Forall2_app; [|constructor].
  - destruct Ht as [->|[->|(f & -> & Hf & _)]]; [done|by eapply well_licensed_drop|].
    apply well_licensed_drop in Hn. rewrite omap_id_middle in *. simpl. constructor; [|done].
    intros Hin. apply Hf, Hb. rewrite omap_id_middle. set_solver.
  - intros f. rewrite omap_id_middle. destruct Ht as [->|[->|(f' & -> & _ & Hf)]]; simpl.
    + intros Hin. apply Hkeep, Hb. by rewrite omap_id_middle.
    + intros Hin. apply Hkeep, Hb. rewrite omap_id_middle. set_solver.
    + intros [->|Hin]%elem_of_cons; [done|]. apply Hkeep, Hb. rewrite omap_id_middle. set_solver.
Qed.

Lemma step_well_licensed y y' tokens :
  step b rounds mirror y y' -> well_licensed y tokens -> exists tokens', well_licensed y' tokens'.
Proof.
  intros Hstep [Hp Hn Hb].
  destruct Hstep as [s ps qs r|s ps ps' qs o k t s' r Hfresh He|s ps ps' qs o k t s' Hfresh He|s ps ps' qs q k a|s ps p ps' qs _];
    cbn [sys_procs sys_asked sys_store] in *.
  { exists (tokens ++ [None]). split; cbn [sys_procs sys_asked sys_store].
    - apply Forall2_app; [done|]. constructor; [|constructor]. apply licensed_handler.
    - rewrite omap_app. simpl. by rewrite app_nil_r.
    - rewrite omap_app. simpl. by rewrite app_nil_r. }
  all: apply Forall2_app_inv_r in Hp as (l & l' & Hl & Hl' & ->);
    apply Forall2_cons_inv_r in Hl' as (token & k' & Hlic & Hk & ->).
  - assert (Hkeep : forall f, begun s f -> begun s' f) by (intros f; by eapply exec_begun).
    destruct (licensed_op token o k t s s' r Hfresh He Hlic) as (token' & Hp & Ht).
    exists (l ++ token' :: k'). apply (well_licensed_replace s _ _ token); naive_solver.
  - assert (Hkeep : forall f, begun s f -> begun s' f) by (intros f; by eapply exec_begun).
    exists (l ++ k'). split; cbn [sys_procs sys_asked sys_store].
    + by apply Forall2_app.
    + apply well_licensed_drop in Hn. by rewrite !omap_app in *.
    + intros f Hf. apply Hkeep, Hb. rewrite !omap_app in *. csimpl. destruct token; set_solver.
  - simpl in Hlic. destruct (started q) as [fire|] eqn:Eq.
    + destruct Hlic as [-> Hlic]. exists (l ++ None :: k'). split; cbn [sys_procs sys_asked sys_store].
      * apply Forall2_app; [done|]. by constructor.
      * rewrite omap_id_middle in *. rewrite omap_app. csimpl. rewrite Eq. simpl in *.
        apply (NoDup_Permutation_proper _ (fire :: (omap id l ++ omap id k') ++ omap started qs)); [|done].
        rewrite app_assoc. by rewrite Permutation_app_comm.
      * intros f Hf. apply Hb. rewrite omap_id_middle in *. rewrite omap_app in Hf. csimpl. revert Hf. csimpl. rewrite Eq.
        simpl. set_solver.
    + exists (l ++ token :: k'). split; cbn [sys_procs sys_asked sys_store].
      * apply Forall2_app; [done|]. by constructor.
      * rewrite (omap_app started). csimpl. rewrite Eq. by rewrite app_nil_r.
      * rewrite (omap_app started). csimpl. rewrite Eq. by rewrite app_nil_r.
  - exists (l ++ k'). split; cbn [sys_procs sys_asked sys_store].
    + by apply Forall2_app.
    + apply well_licensed_drop in Hn. by rewrite !omap_app in *.
    + intros f Hf. apply Hb. rewrite !omap_app in *. csimpl. destruct token; set_solver.
Qed.

(** C5: a scheduled task is started at most once for each of its times: whatever
    scans and requests run at once, and however their operations interleave, no
    schedule has two runs or tasks started for the same time. *)
Theorem fires_once y : reachable b rounds mirror y -> NoDup (omap started (sys_asked y)).
Proof.
  intros Hr. cut (exists tokens, well_licensed y tokens).
  { intros [tokens [_ Hn _]]. by apply NoDup_app in Hn as (_ & _ & ?). }
  unfold reachable in Hr. remember (mkSys new_memory [] []) as y0 eqn:E0.
  assert (H0' : exists tokens, well_licensed y0 tokens).
  { subst. exists []. split; simpl; [constructor|constructor|set_solver]. }
  clear E0. induction Hr as [y|y y1 y2 Hs _ IH]; [done|].
  apply IH. destruct H0' as [tokens Hw]. by eapply step_well_licensed.
Qed.
End licenses.

Section outcomes.
Context {Number : Type} `{JsonText Number} `{HashOrder} `{Calendar} (b : build) (rounds : nat) (mirror : bool).
Abbreviation Prog A := (@Prog Number A).
Abbreviation Store := (@Store Number).
Abbreviation WorkflowSchedule := (WorkflowSchedule Number).
Implicit Types (x : WorkflowSchedule) (s : Store) (w : World (Number := Number)).

(** ** What a fire leaves behind *)

(** How a fire that began with the schedule [x] leaves schedule and record; [next]
    is the time after it. *)
Definition settled (x x' : WorkflowSchedule) (fire' : ScheduleFireRecord) (time : Z) (manual : bool) (next : option Z)
    (begun_fires : list (string * Z)) : Prop :=
  match fire_status fire' with
  | FireTaskCreated =>
    begun_fires = [(schedule_id x, time)] /\
    last_fire_at (state x') = Some time /\ last_task_id (state x') = fire_task_id fire' /\ last_run_id (state x') = fire_run_id fire' /\
    consecutive_failures (state x') = 0 /\ last_error (state x') = None /\
    match schedule x with
    | Once _ _ => sch_status x' = SchCanceled /\ next_fire_at (state x') = None
    | _ => sch_status x' = sch_status x /\ next_fire_at (state x') = if manual then next_fire_at (state x) else next
    end
  | FireSkipped =>
    begun_fires = [] /\ sch_status x' = sch_status x /\ last_fire_at (state x') = Some time /\
    last_error (state x') = Some "previous_run_still_active" /\
    next_fire_at (state x') = if manual then next_fire_at (state x) else next
  | FireFailed =>
    sch_status x' = SchFailed /\ last_error (state x') = fire_error fire' /\ fire_error fire' <> None /\
    next_fire_at (state x') = next_fire_at (state x) /\
    consecutive_failures (state x') = Z.min u32_max (consecutive_failures (state x) + 1) /\ (length begun_fires <= 1)%nat
  | FireCreated => False
  end.

(** What of a schedule a fire leaves alone. *)
Definition same_task (x x' : WorkflowSchedule) : Prop :=
  schedule_id x' = schedule_id x /\ owner x' = owner x /\ sch_name x' = sch_name x /\ description x' = description x /\
  schedule x' = schedule x /\ target x' = target x /\ policy x' = policy x /\ task_mirror x' = task_mirror x.

(** The store after a fire: one schedule and one record are written. *)
Definition fire_leaves (s s' : Store) (x x' : WorkflowSchedule) (fire fire' : ScheduleFireRecord) : Prop :=
  schedules s' = <[schedule_id x := x']> (schedules s) /\
  fires_by_id s' = <[fire_id fire := fire']> (fires_by_id s) /\
  fire_key_index s' = fire_key_index s /\ schedules_hydrated s' = schedules_hydrated s.

(** The end of a fire: the record is completed, then the schedule changed. *)
Definition finish {A} (x : WorkflowSchedule) (fire : ScheduleFireRecord) (status : FireStatus) (task_id run_id error : option string)
    (f : Tick -> Change (Number := Number)) (k : option ScheduleFireRecord -> A) : Prog A :=
  completed ← do (OpComplete (fire_id fire) status task_id run_id error);
  _ ← update_and_mirror mirror (schedule_id x) f;
  mret (k completed).

Definition completed (fire : ScheduleFireRecord) (status : FireStatus) (task_id run_id error : option string) (now : Z)
  : ScheduleFireRecord :=
  mkFire (fire_id fire) (fire_schedule_id fire) (fire_key_of fire) (fire_time fire) (fire_manual fire) status task_id run_id error
    (fire_created_at fire) now.

Lemma run_finish {A} w n s x fire status task_id run_id error f (k : option ScheduleFireRecord -> A) x' :
  schedules s !! schedule_id x = Some x -> fires_by_id s !! fire_id fire = Some fire ->
  (forall t, f t x = (x', Returned ())) ->
  exists s' qs r now now', run w n (finish x fire status task_id run_id error f k) s = (s', qs, Returned r) /\
    fire_leaves s s' x (with_sch_updated now x') fire (completed fire status task_id run_id error now') /\
    omap started qs = [].
Proof.
  intros Hx Hf Hc. unfold finish, update_and_mirror, update_scheduled_task_root_task. cbn [run mbind prog_mbind prog_bind do exec].
  unfold complete_fire. rewrite Hf. cbn [run prog_bind exec]. unfold update.
  cbn [schedules with_fires]. rewrite Hx, Hc. cbn [run prog_bind exec].
  destruct mirror; cbn; (do 5 eexists); (split; [reflexivity|]); (split; [|reflexivity]); by split_and!.
Qed.

Lemma run_active w n s x :
  exists m qs a, omap started qs = [] /\ forall A (f : Z -> Prog A),
    run w n (active_schedule_runs mirror x ≫= f) s = (let '(s', qs', r) := run w m (f a) s in (s', qs ++ qs', r)).
Proof.
  unfold active_schedule_runs, active_fire_subtasks.
  assert (Hruns : forall n qs0, omap started qs0 = [] ->
    exists m qs a, omap started qs = [] /\ forall A (f : Z -> Prog A),
      (let '(s', qs', r) := run w n (ask (AskActiveRuns (schedule_id x)) ≫= f) s in (s', qs0 ++ qs', r))
      = (let '(s', qs', r) := run w m (f a) s in (s', qs ++ qs', r))).
  { intros n' qs0 H0'. exists (S n'), (qs0 ++ [AskActiveRuns (schedule_id x)]), (answers w n' (AskActiveRuns (schedule_id x))).
    split; [by rewrite omap_app, H0'|]. intros A f. cbn. destruct (run w (S n') _ s) as [[s' qs'] r]. by rewrite <- app_assoc. }
  destruct mirror; cbn.
  - destruct (root_task_id (task_mirror x)) as [parent|]; cbn.
    + destruct (answers w n (AskSubtasks parent)) as [e|l]; cbn.
      * destruct (Hruns (S n) [AskSubtasks parent] eq_refl) as (m & qs & a & Hqs & E). exists m, qs, a. split; [done|].
        intros A f. rewrite <- E. cbn. by destruct (run w (S (S n)) _ s) as [[s' qs'] r].
      * destruct (0 <? _) eqn:Ea; cbn.
        -- exists (S n), [AskSubtasks parent], (Z.of_nat (length (List.filter negb (take 100 l)))). split; [done|].
           intros A f. by destruct (run w (S n) _ s) as [[s' qs'] r].
        -- destruct (Hruns (S n) [AskSubtasks parent] eq_refl) as (m & qs & a & Hqs & E). exists m, qs, a. split; [done|].
           intros A f. rewrite <- E. cbn. by destruct (run w (S (S n)) _ s) as [[s' qs'] r].
    + destruct (Hruns n [] eq_refl) as (m & qs & a & Hqs & E). exists m, qs, a. split; [done|].
      intros A f. rewrite <- E. cbn. by destruct (run w (S n) _ s) as [[s' qs'] r].
  - destruct (Hruns n [] eq_refl) as (m & qs & a & Hqs & E). exists m, qs, a. split; [done|].
    intros A f. rewrite <- E. cbn. by destruct (run w (S n) _ s) as [[s' qs'] r].
Qed.
Lemma run_map {A B} w n (p : Prog A) (g : A -> B) s :
  run w n (p ≫= (fun a => mret (g a))) s
  = (let '(s', qs, r) := run w n p s in (s', qs, match r with Returned a => Returned (g a) | Panicked => Panicked | Running => Running end)).
Proof.
  revert n s. induction p as [a|o k IH|q k IH|]; intros n s; [done| | |done].
  - change (run w n (Op o k ≫= (fun a => mret (g a))) s)
      with (match exec (ticks w n) o s with
            | (s, Returned r) => run w (S n) (k r ≫= (fun a => mret (g a))) s
            | (s, Panicked) => (s, [], Panicked)
            | (s, Running) => (s, [], Running)
            end).
    cbn [run]. destruct (exec (ticks w n) o s) as [s' [r| |]]; [apply IH|done..].
  - change (run w n (Ask q k ≫= (fun a => mret (g a))) s)
      with (let '(s, qs, r) := run w (S n) (k (answers w n q) ≫= (fun a => mret (g a))) s in (s, q :: qs, r)).
    cbn [run]. rewrite IH. by destruct (run w (S n) (k (answers w n q)) s) as [[s' qs] [r| |]].
Qed.

(** The hypotheses of one fire: its schedule and its record are in the store, and
    the next time can be computed. *)
Section one_fire.
Context (w : World (Number := Number)) (s : Store) (x : WorkflowSchedule) (fire : ScheduleFireRecord) (time : Z) (manual : bool) (next : option Z).
Hypothesis Hx : schedules s !! schedule_id x = Some x.
Hypothesis Hf : fires_by_id s !! fire_id fire = Some fire.
Hypothesis Hid : fire_schedule_id fire = schedule_id x.
Hypothesis Htime : fire_time fire = time.
Hypothesis Hreboot : is_reboot_schedule (schedule x) = false.
Hypothesis Hnext : forall clock, next_fire_after b rounds clock (schedule x) time = Returned next.

(** A program leaves the fire settled, after [starts] were started. *)
Definition settles (n : nat) (p : Prog (Refusal + ScheduleFireRecord)) (starts : list (string * Z)) : Prop :=
  exists s' qs r x' fire', run w n p s = (s', qs, Returned r) /\
    fire_leaves s s' x x' fire fire' /\ same_task x x' /\ settled x x' fire' time manual next (starts ++ omap started qs) /\
    (fire_schedule_id fire', fire_time fire', fire_key_of fire') = (fire_schedule_id fire, fire_time fire, fire_key_of fire).

Lemma settles_fail n e starts :
  (length starts <= 1)%nat -> settles n (r ← fail_schedule_fire mirror x fire e; mret (inl r)) starts.
Proof using Hx Hf.
  intros Hl. unfold settles. rewrite run_map.
  destruct (run_finish w n s x fire FireFailed None None (Some e)
    (fun _ => change (fun r => with_state (failed_state e (state r)) (with_sch_status SchFailed r)))
    (fun _ => FireFailedWith (schedule_id x) e) _ Hx Hf (fun _ => eq_refl)) as (s' & qs & r & now & now' & E & Hs & Hqs).
  change (run w n (fail_schedule_fire mirror x fire e) s = (s', qs, Returned r)) in E. rewrite E.
  do 5 eexists. split; [reflexivity|]. split; [exact Hs|]. split; [by split_and!|]. split; [|done].
  rewrite Hqs, app_nil_r. by split_and!.
Qed.

Lemma settles_success n task_id run_id :
  settles n (completed ← do (OpComplete (fire_id fire) FireTaskCreated task_id run_id None);
             _ ← complete_schedule_after_success b rounds mirror x time manual task_id run_id;
             mret (inr (default fire completed))) [(schedule_id x, time)].
Proof using All.
  assert (Hc : exists x', (forall t, after_success b rounds time manual task_id run_id t x = (x', Returned ())) /\ same_task x x' /\
    last_fire_at (state x') = Some time /\ last_task_id (state x') = task_id /\ last_run_id (state x') = run_id /\
    consecutive_failures (state x') = 0 /\ last_error (state x') = None /\
    match schedule x with
    | Once _ _ => sch_status x' = SchCanceled /\ next_fire_at (state x') = None
    | _ => sch_status x' = sch_status x /\ next_fire_at (state x') = if manual then next_fire_at (state x) else next
    end).
  { unfold after_success. cbn [with_state schedule state]. destruct (schedule x) as [expr tz cal st en|at_ tz|every st en tz] eqn:Es.
    - rewrite Hreboot. destruct manual; [eexists; split; [reflexivity|]; by split_and!|].
      unfold then_next. cbn [with_state schedule]. rewrite Es. eexists. split; [intros t; by rewrite Hnext|]. by split_and!.
    - eexists. split; [reflexivity|]. by split_and!.
    - cbn [is_reboot_schedule]. destruct manual; [eexists; split; [reflexivity|]; by split_and!|].
      unfold then_next. cbn [with_state schedule]. rewrite Es. eexists. split; [intros t; by rewrite Hnext|]. by split_and!. }
  destruct Hc as (x' & Hc & Hsame & Hrest).
  destruct (run_finish w n s x fire FireTaskCreated task_id run_id None (after_success b rounds time manual task_id run_id)
    (fun completed => inr (default fire completed) : Refusal + ScheduleFireRecord) x' Hx Hf Hc) as (s' & qs & r & now & now' & E & Hs & Hqs).
  exists s', qs, r. do 2 eexists. split; [exact E|]. split; [exact Hs|]. split; [exact Hsame|]. split; [|done].
  rewrite Hqs. simpl. split; [done|]. exact Hrest.
Qed.

Lemma settles_skip n :
  settles n (completed ← do (OpComplete (fire_id fire) FireSkipped None None (Some "previous_run_still_active"));
             _ ← update_and_mirror mirror (schedule_id x) (after_skip b rounds time manual);
             mret (inr (default fire completed))) [].
Proof using All.
  assert (Hc : exists x', (forall t, after_skip b rounds time manual t x = (x', Returned ())) /\ same_task x x' /\
    sch_status x' = sch_status x /\ last_fire_at (state x') = Some time /\ last_error (state x') = Some "previous_run_still_active" /\
    next_fire_at (state x') = if manual then next_fire_at (state x) else next).
  { unfold after_skip. destruct manual; [eexists; split; [reflexivity|]; by split_and!|].
    unfold then_next. cbn [with_state schedule]. eexists. split; [intros t; by rewrite Hnext|]. by split_and!. }
  destruct Hc as (x' & Hc & Hsame & Hrest).
  destruct (run_finish w n s x fire FireSkipped None None (Some "previous_run_still_active") (after_skip b rounds time manual)
    (fun completed => inr (default fire completed) : Refusal + ScheduleFireRecord) x' Hx Hf Hc) as (s' & qs & r & now & now' & E & Hs & Hqs).
  exists s', qs, r. do 2 eexists. split; [exact E|]. split; [exact Hs|]. split; [exact Hsame|]. split; [|done].
  rewrite Hqs. simpl. split; [done|]. exact Hrest.
Qed.

(** A question first. *)
Lemma settles_ask n q (f : answer q -> Prog (Refusal + ScheduleFireRecord)) starts :
  settles (S n) (f (answers w n q)) (starts ++ option_list (started q)) -> settles n (ask q ≫= f) starts.
Proof using.
  intros (s' & qs & r & x' & fire' & E & Hs & Hsame & Hset & Hk). exists s', (q :: qs), r, x', fire'.
  split; [cbn; change (run w (S n) (f (answers w n q)) s = (s', qs, Returned r)) in E; by rewrite E|].
  split; [done|]. split; [done|]. split; [|done]. rewrite <- app_assoc in Hset. csimpl. by destruct (started q).
Qed.
End one_fire.
End outcomes.

Section fires.
Context {Number : Type} `{JsonText Number} `{HashOrder} `{Calendar} (b : build) (rounds : nat) (mirror : bool).
Abbreviation Prog A := (@Prog Number A).
Abbreviation Store := (@Store Number).
Abbreviation WorkflowSchedule := (WorkflowSchedule Number).
Implicit Types (x : WorkflowSchedule) (s : Store) (w : World (Number := Number)).

Lemma new_fire_settles w n s x fire time manual next :
  schedules s !! schedule_id x = Some x -> fires_by_id s !! fire_id fire = Some fire ->
  fire_schedule_id fire = schedule_id x -> fire_time fire = time -> is_reboot_schedule (schedule x) = false ->
  (forall clock, next_fire_after b rounds clock (schedule x) time = Returned next) ->
  settles w s x fire time manual next n (new_fire b rounds mirror x fire time manual) [].
Proof.
  intros Hx Hf Hid Htime Hreboot Hnext.
  assert (Hfail : forall n e starts, (length starts <= 1)%nat ->
    settles w s x fire time manual next n (r ← fail_schedule_fire mirror x fire e; mret (inl r)) starts).
  { intros. by apply settles_fail. }
  unfold new_fire. destruct (root_task_id (task_mirror x)); [|apply Hfail; simpl; lia].
  destruct (run_active mirror w n s x) as (m & qs0 & active & Hq & Hrun).
  match goal with |- settles _ _ _ _ _ _ _ _ (_ ≫= ?f) _ =>
    enough (Hs : settles w s x fire time manual next m (f active) []) end.
  { destruct Hs as (s' & qs & r & x' & fire' & E & Hrest). exists s', (qs0 ++ qs), r, x', fire'.
    split; [etransitivity; [apply Hrun|cbv beta; set (R := run w m _ s) in *; rewrite E; done]|]. by rewrite omap_app, Hq. }
  destruct (0 <? active); [by apply settles_skip|]. cbv zeta. case_match.
  - unfold fire_workflow. case_match; [|apply Hfail; simpl; lia].
    apply settles_ask. destruct (answers w m _) as [[]|]; [apply Hfail; simpl; lia| |apply Hfail; simpl; lia].
    apply settles_ask. cbn [started option_list app]. rewrite Hid, Htime. destruct (answers w (S m) _) as [e|run_id]; [by apply Hfail|].
    destruct mirror; [apply settles_ask|]; by apply settles_success.
  - unfold fire_task. destruct mirror; [|apply Hfail; simpl; lia].
    apply settles_ask. cbn [started option_list app]. rewrite Hid, Htime. destruct (answers w m _) as [e|task_id]; [by apply Hfail|].
    by apply settles_success.
Qed.

Lemma run_fire_begun w n s id time manual x existing :
  schedules s !! id = Some x -> schedule_id x = id -> manual = true \/ sch_status x = SchRunning ->
  (fid ← fire_key_index s !! fire_key id time; fires_by_id s !! fid) = Some existing ->
  run w n (fire_schedule b rounds mirror id time manual) s = (s, [], Returned (inr existing)).
Proof.
  intros Hx Hid Hst Hb. unfold fire_schedule. cbn. rewrite Hx. rewrite Hid.
  assert (E : negb manual && negb (bool_decide (sch_status x = SchRunning)) = false).
  { destruct Hst as [-> | Hst]; [done|]. rewrite bool_decide_eq_true_2 by done. by destruct manual. }
  rewrite E. cbn. unfold begin_fire. by rewrite Hb.
Qed.

Lemma run_fire_new w n s id time manual x next :
  schedules s !! id = Some x -> schedule_id x = id -> manual = true \/ sch_status x = SchRunning ->
  (fid ← fire_key_index s !! fire_key id time; fires_by_id s !! fid) = None ->
  is_reboot_schedule (schedule x) = false ->
  (forall clock, next_fire_after b rounds clock (schedule x) time = Returned next) ->
  exists s' qs r x' fire', run w n (fire_schedule b rounds mirror id time manual) s = (s', qs, Returned r) /\
    schedules s' = <[id := x']> (schedules s) /\ same_task x x' /\
    fires_by_id s' = <["fire-" +:+ fresh_uuid (ticks w (S n)) := fire']> (fires_by_id s) /\
    fire_key_index s' = <[fire_key id time := "fire-" +:+ fresh_uuid (ticks w (S n))]> (fire_key_index s) /\
    schedules_hydrated s' = schedules_hydrated s /\ fire_schedule_id fire' = id /\ fire_time fire' = time /\
    settled x x' fire' time manual next (omap started qs).
Proof.
  intros Hx Hid Hst Hb Hreboot Hnext. unfold fire_schedule.
  assert (E : negb manual && negb (bool_decide (sch_status x = SchRunning)) = false).
  { destruct Hst as [-> | Hst]; [done|]. rewrite bool_decide_eq_true_2 by done. by destruct manual. }
  set (t := ticks w (S n)).
  set (fire := mkFire ("fire-" +:+ fresh_uuid t) id (fire_key id time) time manual FireCreated None None None (clock1 t) (clock1 t)).
  set (s1 := mkStore (schedules s) (<[fire_id fire := fire]> (fires_by_id s)) (<[fire_key id time := fire_id fire]> (fire_key_index s))
               (schedules_hydrated s)).
  destruct (new_fire_settles w (S (S n)) s1 x fire time manual next) as (s' & qs & r & x' & fire' & Er & Hs & Hsame & Hset & Hk);
    [by rewrite Hid|apply lookup_insert_eq|done..|].
  exists s', qs, r, x', fire'. split.
  { cbn. rewrite Hx, Hid, E. cbn. unfold begin_fire. rewrite Hb. exact Er. }
  destruct Hs as (H1' & H2' & H3' & H4'). injection Hk as Hk1 Hk2 _.
  rewrite H1', H2', H3', H4', Hid. subst s1. cbn [schedules fires_by_id fire_key_index schedules_hydrated fire_id fire].
  rewrite insert_insert_eq. split_and!; done.
Qed.

(** C12: what firing a scheduled task does.  If the time was begun before, nothing
    but to return that record.  If not, one record is added and one schedule
    changed: the task was started, once, the error cleared, and the schedule goes
    on at the next time, or is done if it was for one time; or the fire was
    skipped because the last one has not ended, and the schedule goes on at the
    next time; or it failed, with the error in both, and the schedule stops. *)
Theorem fire_outcome w s id time manual x next :
  schedules s !! id = Some x -> schedule_id x = id -> manual = true \/ sch_status x = SchRunning ->
  is_reboot_schedule (schedule x) = false ->
  (forall clock, next_fire_after b rounds clock (schedule x) time = Returned next) ->
  let fire := fire_schedule b rounds mirror id time manual in
  match (fid ← fire_key_index s !! fire_key id time; fires_by_id s !! fid) with
  | Some existing => run w 0 fire s = (s, [], Returned (inr existing))
  | None =>
    exists s' qs r x' fire', run w 0 fire s = (s', qs, Returned r) /\
      schedules s' = <[id := x']> (schedules s) /\ same_task x x' /\
      fires_by_id s' = <["fire-" +:+ fresh_uuid (ticks w 1) := fire']> (fires_by_id s) /\
      fire_schedule_id fire' = id /\ fire_time fire' = time /\
      settled x x' fire' time manual next (omap started qs)
  end.
Proof.
  intros Hx Hid Hst Hreboot Hnext fire.
  destruct (fire_key_index s !! fire_key id time ≫= _) as [existing|] eqn:Hb; [by eapply run_fire_begun|].
  destruct (run_fire_new w 0 s id time manual x next Hx Hid Hst Hb Hreboot Hnext)
    as (s' & qs & r & x' & fire' & E & H1' & H2' & H3' & _ & _ & H4' & H5' & H6').
  exists s', qs, r, x', fire'. by split_and!.
Qed.

(** ** Scans *)

Lemma run_bind {A} w n (p : Prog A) s :
  exists m, forall B (f : A -> Prog B), run w n (p ≫= f) s =
    match run w n p s with
    | (s', qs, Returned a) => let '(s'', qs', r) := run w m (f a) s' in (s'', qs ++ qs', r)
    | (s', qs, Panicked) => (s', qs, Panicked)
    | (s', qs, Running) => (s', qs, Running)
    end.
Proof.
  revert n s. induction p as [a|o k IH|q k IH|]; intros n s.
  - exists n. intros B f. cbn. by destruct (run w n (f a) s) as [[s' qs] r].
  - destruct (exec (ticks w n) o s) as [s' [r| |]] eqn:E.
    + destruct (IH r (S n) s') as [m Hm]. exists m. intros B f. cbn [run mbind prog_mbind prog_bind]. rewrite E. apply Hm.
    + exists 0%nat. intros B f. cbn [run mbind prog_mbind prog_bind]. by rewrite E.
    + exists 0%nat. intros B f. cbn [run mbind prog_mbind prog_bind]. by rewrite E.
  - destruct (IH (answers w n q) (S n) s) as [m Hm]. exists m. intros B f. cbn [run mbind prog_mbind prog_bind].
    specialize (Hm B f). cbn [mbind prog_mbind] in Hm. rewrite Hm.
    destruct (run w (S n) (k (answers w n q)) s) as [[s' qs] [a| |]]; [|done..].
    by destruct (run w m (f a) s') as [[s'' qs'] r].
  - by exists 0%nat.
Qed.

Lemma run_silent {A} w n (p : Prog A) s : silent p -> omap started (run w n p s).1.2 = [].
Proof.
  revert n s. induction p as [a|o k IH|q k IH|]; intros n s; cbn [silent run]; [done| | |done].
  - intros Hk. destruct (exec (ticks w n) o s) as [s' [r| |]]; [by apply IH|done..].
  - intros [Hq Hk]. specialize (IH (answers w n q) (S n) s (Hk _)).
    destruct (run w (S n) (k (answers w n q)) s) as [[s' qs] r]. cbn [fst snd] in *. csimpl. by rewrite Hq.
Qed.

(** The scan of a service that has loaded its schedules. *)
Lemma run_scan w s :
  schedules_hydrated s = true ->
  let now := answers w 2 AskClock in
  run w 0 (scan_due_schedules b rounds mirror) s
  = (let '(s', qs, r) := run w 4 (scan_all b rounds mirror now (due now s)) s in (s', AskClock :: qs, r)).
Proof.
  intros Hh now. unfold scan_due_schedules, ensure_schedules_hydrated. cbn. rewrite Hh. cbn. rewrite Hh. cbn. done.
Qed.

Definition scan w s := run w 0 (scan_due_schedules b rounds mirror) s.

Lemma skip_no_times clock spec pol at_ts now times next missed :
  misfire pol = MisfireSkip \/ misfire pol = MisfireManual ->
  due_fire_times b rounds clock spec pol at_ts now = Returned (times, next, missed) -> times = [].
Proof.
  unfold due_fire_times. destruct at_ts as [ts|]; [|naive_solver]. destruct (now <? ts); [naive_solver|].
  intros [-> | ->]; rewrite outcome_bind_returned; intros (o & _ & [= <- _ _]); done.
Qed.

(** A schedule whose policy for missed times is [skip] or [manual] never
    fires, on time or not: a time is due when it is at or before the time of the
    scan, and for these policies every time that is due counts as missed. *)
Theorem skip_never_fires w s :
  schedules_hydrated s = true ->
  (forall id x, schedules s !! id = Some x -> misfire (policy x) = MisfireSkip \/ misfire (policy x) = MisfireManual) ->
  omap started (scan w s).1.2 = [].
Proof.
  intros Hh Hall. unfold scan. rewrite run_scan by done.
  set (now := answers w 2 AskClock).
  assert (Hs : silent (scan_all b rounds mirror now (due now s))).
  { assert (Hd : forall x, x ∈ due now s -> misfire (policy x) = MisfireSkip \/ misfire (policy x) = MisfireManual).
    { intros x Hx. unfold due in Hx. apply elem_of_filterb in Hx as [_ Hx].
      apply elem_of_values in Hx as [id Hx]. by eapply Hall. }
    induction (due now s) as [|x l IH]; [done|]. cbn [scan_all].
    apply silent_bind; [|intros _; apply IH; intros y Hy; apply Hd; by right].
    unfold scan_schedule. apply silent_bind; [done|]. intros clock.
    destruct (due_fire_times _ _ _ _ _ _ _) as [[[times next] missed]| |] eqn:E; [|done..].
    apply skip_no_times in E as ->; [|apply Hd; by left]. apply tame_silent.
    destruct missed; [apply tame_update_and_mirror|]. cbn [fire_all]. apply tame_bind; [done|]. intros [].
    case_match; [apply tame_update_and_mirror|done]. }
  pose proof (run_silent w 4 _ s Hs) as Hq.
  destruct (run w 4 (scan_all b rounds mirror now (due now s)) s) as [[s' qs] r]. exact Hq.
Qed.

(** ** One schedule, scanned again and again *)

Lemma values_singleton x : values {[schedule_id x := x]} = [x].
Proof.
  unfold values. assert (E : iter {[schedule_id x := x]} ≡ₚ [(schedule_id x, x)]) by (by rewrite iter_perm, map_to_list_singleton).
  apply Permutation_singleton_r in E. by rewrite E.
Qed.

(** The service has one schedule, an interval trigger with the default policy. *)
Record interval_service (s : Store) (x : WorkflowSchedule) (every time : Z) : Prop := {
  is_schedules : schedules s = {[schedule_id x := x]};
  is_hydrated : schedules_hydrated s = true;
  is_running : sch_status x = SchRunning;
  is_interval : exists start end_at timezone, schedule x = RunEvery every (Some start) end_at timezone /\
    near start /\ start <= time /\ (time - start) mod every = 0 /\ end_at = None;
  is_every : 1 <= every <= 2 ^ 60;
  is_run_once : misfire (policy x) = MisfireRunOnce;
  is_time : next_fire_at (state x) = Some time;
  is_near : near time
}.

Lemma interval_next s x every time t :
  interval_service s x every time -> near t -> time <= t ->
  exists next, time < next /\ (t = time -> next = time + every) /\
    forall clock, next_fire_after b rounds clock (schedule x) t = Returned (Some next).
Proof.
  intros [_ _ _ (start & end_at & tz & Es & Hns & Hle & Hmod & ->) He _ _ _] Ht Hlt.
  destruct (run_every_exact b rounds 0 every (Some start) None tz t) as (next & Hn & [Hs Hm] & Hmin & _); [lia|done|by intros ? [= <-]|].
  cbn [from_option id] in *. exists next. split; [lia|]. split.
  - intros ->. apply Z.le_antisymm.
    + apply Hmin; [lia|]. split; [lia|]. replace (time + every - start) with (time - start + 1 * every) by lia.
      by rewrite Z.mod_add by lia.
    + apply Z.mod_divide in Hm as [k Hk], Hmod as [k' Hk']; [|lia..]. assert (k' < k) by nia. nia.
  - intros clock. rewrite Es.
    destruct (run_every_exact b rounds clock every (Some start) None tz t) as (next' & Hn' & [Hs' Hm'] & Hmin' & E); [lia|done|by intros ? [= <-]|].
    cbn [from_option id] in *. rewrite E. do 2 f_equal. apply Z.le_antisymm; [by apply Hmin'|by apply Hmin].
Qed.

(** Its scan is one fire, for the time that was due first. *)
Lemma run_interval_scan w s x every time :
  interval_service s x every time -> let now := answers w 2 AskClock in time <= now -> near now ->
  forall s' qs r, run w 5 (fire_schedule b rounds mirror (schedule_id x) time false) s = (s', qs, Returned r) ->
    scan w s = (s', AskClock :: AskClock :: qs, Returned ()).
Proof.
  intros Hi now Hnow Hnear. pose proof Hi as [Hs Hh Hst _ _ Hro Hat _]. unfold scan. rewrite run_scan by done. fold now.
  assert (Hdue : due now s = [x]).
  { unfold due. rewrite Hs, values_singleton. cbn [List.filter]. unfold is_due.
    rewrite Hst, Hat, bool_decide_eq_true_2 by done. cbn. by rewrite (proj2 (Z.leb_le time now)). }
  rewrite Hdue. cbn [scan_all].
  destruct (interval_next _ _ _ _ now Hi Hnear Hnow) as (next & _ & _ & Hnext).
  assert (Hd : forall clock, due_fire_times b rounds clock (schedule x) (policy x) (next_fire_at (state x)) now = Returned ([time], Some next, None)).
  { intros clock. unfold due_fire_times. rewrite Hat, Hro, (proj2 (Z.ltb_ge now time)) by done. by rewrite Hnext. }
  unfold scan_schedule. cbn [run mbind prog_mbind prog_bind ask]. rewrite Hd. cbn [fire_all].
  rewrite bool_decide_eq_false_2 by congruence.
  intros s' qs r E. set (p := fire_schedule b rounds mirror (schedule_id x) time false) in *.
  pose proof (run_map w 5 p (fun _ => ()) s) as E1. rewrite E in E1.
  pose proof (run_map w 5 (_ ← p; mret ()) (fun _ => ()) s) as E2. rewrite E1 in E2.
  pose proof (run_map w 5 (_ ← (_ ← p; mret ()); mret ()) (fun _ => ()) s) as E3. rewrite E2 in E3.
  by rewrite E3.
Qed.

(** The service scanned by each of the worlds in turn. *)
Fixpoint scans (ws : list (World (Number := Number))) s : Store :=
  match ws with [] => s | w :: ws => scans ws (scan w s).1.1 end.

(** The identifiers given to the fires are new; a scan of one schedule begins its
    fire in its sixth step. *)
Fixpoint scans_fresh (ws : list (World (Number := Number))) s : Prop :=
  match ws with
  | [] => True
  | w :: ws => fires_by_id s !! ("fire-" +:+ fresh_uuid (ticks w 6)) = None /\ scans_fresh ws (scan w s).1.1
  end.

(** ** A time that was begun before *)

(** Each schedule is in the store under its own identifier. *)
Definition keyed s : Prop := forall id x, schedules s !! id = Some x -> schedule_id x = id.

(** A policy that fires one time at a scan, the one that was due first. *)
Definition one_at_a_time (p : SchedulePolicy) : Prop :=
  misfire p = MisfireRunOnce \/ misfire p = MisfireCatchUp /\ catch_up_limit p <= 1.

Lemma one_time_due clock spec p time now times next missed :
  one_at_a_time p -> due_fire_times b rounds clock spec p (Some time) now = Returned (times, next, missed) ->
  (times = [] \/ times = [time]) /\ missed = None /\ misfire p <> MisfireSkip.
Proof.
  unfold due_fire_times. intros Hp. destruct (now <? time) eqn:E.
  { intros [= <- _ <-]. destruct Hp as [-> | [-> _]]; auto. }
  destruct Hp as [-> | [-> Hl]].
  - rewrite outcome_bind_returned. intros (o & _ & [= <- _ <-]). auto.
  - rewrite Z.max_l by done. rewrite outcome_bind_returned. intros (out & Hout & Hrest).
    rewrite outcome_bind_returned in Hrest. destruct Hrest as (o & _ & [= <- _ <-]).
    split; [|done]. apply Z.ltb_ge, Z.leb_le in E. cbn [catch_up Z.to_nat Pos.to_nat Pos.iter_op] in Hout.
    change (Z.to_nat 1) with 1%nat in Hout. cbn [catch_up] in Hout. rewrite E, outcome_bind_returned in Hout.
    destruct Hout as ([n|] & _ & Hout); [|injection Hout as <-; auto].
    rewrite outcome_bind_returned in Hout. destruct Hout as (? & [= <-] & [= <-]). auto.
Qed.

Section wedged.
Variables (x : WorkflowSchedule) (time : Z).

(** The schedule is in the store, and its time was begun. *)
Record wedged s : Prop := {
  wedged_in : schedules s !! schedule_id x = Some x;
  wedged_begun : begun s (schedule_id x, time);
  wedged_keyed : keyed s;
  wedged_hydrated : schedules_hydrated s = true
}.

(** [p] does nothing to the schedule and starts nothing for it, whatever it is
    answered that a store with the schedule may answer. *)
Fixpoint spares {A} (p : Prog A) : Prop :=
  match p with
  | Ret _ | Crash => True
  | Op o k =>
    match o return (reply o -> Prog A) -> (reply o -> Prop) -> Prop with
    | OpGet id => fun _ all => forall r, (id = schedule_id x -> r = Some x) -> (forall y, r = Some y -> schedule_id y = id) -> all r
    | OpUpdate id f => fun _ all => id <> schedule_id x /\ (forall t y, schedule_id (f t y).1 = schedule_id y) /\ forall r, all r
    | OpDue now => fun _ all => forall l, (forall y, y ∈ l -> schedule_id y = schedule_id x -> y = x) -> all l
    | OpBegin id time' manual => fun _ all =>
      (forall fire, all (fire, false))
      /\ ((id, time') <> (schedule_id x, time) -> forall fire, fire_schedule_id fire = id -> all (fire, true))
    | OpInsert _ | OpHydrate _ => fun _ _ => False
    | OpHydrated => fun _ all => all true
    | OpComplete _ _ _ _ _ | OpSetHydrated => fun _ all => forall r, all r
    end k (fun r => spares (k r))
  | Ask q k => (forall fire, started q = Some fire -> fire.1 <> schedule_id x) /\ forall a, spares (k a)
  end.

Lemma spares_bind {A B} (p : Prog A) (f : A -> Prog B) : spares p -> (forall a, spares (f a)) -> spares (p ≫= f).
Proof.
  intros Hp Hf. induction p as [a|o k IH|q k IH|]; simpl in *; [apply Hf| | |done].
  - destruct o; try (intros; by apply IH, Hp); try done; try (by apply IH).
    + destruct Hp as (? & ? & Hk). split_and!; [done..|]. intros r. by apply IH.
    + destruct Hp as [Hold Hnew]. split; [intros fire; by apply IH|]. intros Hne fire Hid. apply IH, Hnew; done.
  - destruct Hp as [Hq Hk]. split; [done|]. intros a. by apply IH.
Qed.

Lemma begin_fire_wedged id time' manual now uuid s s' fire is_new :
  wedged s -> begin_fire id time' manual now uuid s = (s', (fire, is_new)) ->
  wedged s' /\ (is_new = true -> (id, time') <> (schedule_id x, time) /\ fire_schedule_id fire = id).
Proof.
  intros [Hin Hb Hk Hh]. unfold begin_fire.
  destruct (fire_key_index s !! fire_key id time' ≫= _) as [existing|] eqn:E; intros [= <- <- <-]; [by split|].
  assert (Hne : fire_key (schedule_id x) time <> fire_key id time').
  { intros Ek. destruct Hb as [old Hold]. cbn [fst snd] in Hold. rewrite Ek in Hold. congruence. }
  split; [split; cbn; try done|].
  - destruct Hb as [old Hold]. unfold begun. cbn [fst snd fire_key_index fires_by_id fire_id] in *. rewrite lookup_insert_ne by done.
    destruct (fire_key_index s !! fire_key (schedule_id x) time) as [fid|]; [|done]. cbn [mbind option_bind] in *.
    destruct (decide ("fire-" +:+ uuid = fid)) as [->|]; [rewrite lookup_insert_eq; eauto|rewrite lookup_insert_ne by done; eauto].
  - intros _. split; [|done]. congruence.
Qed.

Lemma update_wedged id f now s :
  id <> schedule_id x -> (forall y, schedule_id (f y).1 = schedule_id y) -> wedged s -> wedged (update id f now s).1.
Proof.
  intros Hid Hf Hw. unfold update. destruct (schedules s !! id) as [y|] eqn:Ey; [|done].
  assert (Hput : forall z, schedule_id z = schedule_id y -> wedged (with_schedules (<[id := z]> (schedules s)) s)).
  { intros z Hz. destruct Hw as [Hin Hb Hk Hh]. split; cbn; [by rewrite lookup_insert_ne|done| |done].
    intros id' y'. destruct (decide (id' = id)) as [->|Hne].
    - cbn. rewrite lookup_insert_eq. intros [= <-]. rewrite Hz. by apply Hk.
    - cbn. rewrite lookup_insert_ne by done. apply Hk. }
  specialize (Hf y). destruct (f y) as [z [| |]]; apply Hput; done.
Qed.

Lemma run_spares {A} w n (p : Prog A) s :
  wedged s -> spares p -> wedged (run w n p s).1.1 /\ forall fire, fire ∈ omap started (run w n p s).1.2 -> fire.1 <> schedule_id x.
Proof.
  revert n s. induction p as [a|o k IH|q k IH|]; intros n s Hw Hp; cbn [run].
  - split; [done|]. intros fire. cbn. set_solver.
  - enough (H' : wedged (exec (ticks w n) o s).1 /\ forall r, (exec (ticks w n) o s).2 = Returned r -> spares (k r)).
    { destruct H' as [Hw' Hr]. destruct (exec (ticks w n) o s) as [s' [r| |]]; [by apply IH, Hr|..];
        (split; [done|intros fire; cbn; set_solver]). }
    destruct o as [id|y|id f|now|id time' manual|id st ti ri er|l| |]; cbn [spares] in Hp; cbn [exec]; try done.
    + split; [done|]. intros r [= <-]. apply Hp; [intros ->; apply Hw|intros y; apply Hw].
    + destruct Hp as (Hid & Hf & Hk). split; [by apply update_wedged|]. intros r _. apply Hk.
    + split; [done|]. intros r [= <-]. apply Hp. intros y Hy Hid. unfold due in Hy.
      apply elem_of_filterb in Hy as [_ Hy]. apply elem_of_values in Hy as [id' Hy].
      pose proof (wedged_keyed s Hw _ _ Hy). pose proof (wedged_in s Hw). congruence.
    + destruct (begin_fire _ _ _ _ _ _) as [s1 [fire new]] eqn:E. apply begin_fire_wedged in E as [Hw' Hnew]; [|done].
      split; [done|]. intros r [= <-]. destruct Hp as [Hold Hyes]. destruct new; [|apply Hold]. destruct Hnew as [Hne Hid]; [done|]. by apply Hyes.
    + unfold complete_fire. destruct (fires_by_id s !! id) as [fire|] eqn:E; (split; [|intros r _; apply Hp]); [|done].
      destruct Hw as [Hin Hb Hk Hh]. split; cbn; [done| |done|done]. eapply begun_index; [| |exact Hb]; [done|]. intros id'. cbn.
      destruct (decide (id' = id)) as [->|]; [rewrite lookup_insert_eq; eauto|by rewrite lookup_insert_ne].
    + split; [done|]. intros r [= <-]. by rewrite (wedged_hydrated s Hw).
    + destruct Hw as [Hin Hb Hk Hh]. split; [|intros r _; apply Hp]. split; done.
  - destruct Hp as [Hq Hk]. specialize (IH (answers w n q) (S n) s Hw (Hk _)).
    destruct (run w (S n) (k (answers w n q)) s) as [[s' qs] r]. cbn [fst snd] in *. destruct IH as [Hw' Hs]. split; [done|].
    csimpl. destruct (started q) as [f|] eqn:E; [|done]. intros fire [->|Hin]%elem_of_cons; [by apply Hq|by apply Hs].
  - split; [done|]. intros fire. cbn. set_solver.
Qed.

Lemma then_next_id t now (y : WorkflowSchedule) : schedule_id (then_next b rounds t now y).1 = schedule_id y.
Proof. unfold then_next. by destruct (next_fire_after _ _ _ _ _). Qed.

Lemma after_success_id t m ti ri tick (y : WorkflowSchedule) : schedule_id (after_success b rounds t m ti ri tick y).1 = schedule_id y.
Proof.
  unfold after_success. destruct (schedule _) eqn:E; [|done|];
    (case_match; [done|]; destruct m; [done|]; by rewrite then_next_id).
Qed.

Lemma after_skip_id t m tick (y : WorkflowSchedule) : schedule_id (after_skip b rounds t m tick y).1 = schedule_id y.
Proof. unfold after_skip. destruct m; [done|]. by rewrite then_next_id. Qed.

Lemma spares_ask {A} q (k : answer q -> Prog A) : started q = None -> (forall a, spares (k a)) -> spares (ask q ≫= k).
Proof. intros Hq Hk. split; [by rewrite Hq|done]. Qed.

Lemma spares_update_and_mirror id f :
  id <> schedule_id x -> (forall t y, schedule_id (f t y).1 = schedule_id y) -> spares (update_and_mirror mirror id f).
Proof.
  intros Hid Hf. split_and!; [done..|]. intros [y|]; [|done]. unfold update_scheduled_task_root_task. by destruct mirror.
Qed.

Lemma spares_active_runs y : spares (active_schedule_runs mirror y).
Proof.
  unfold active_schedule_runs, active_fire_subtasks. apply spares_bind.
  - destruct mirror; [|done]. case_match; [|done]. by apply spares_ask.
  - intros [e|n]; [|case_match; [done|]]; by apply spares_ask.
Qed.

Section other.
Context (y : WorkflowSchedule) (fire : ScheduleFireRecord).
Hypotheses (Hy : schedule_id y <> schedule_id x) (Hfire : fire_schedule_id fire <> schedule_id x).

Lemma spares_fail e : spares (r ← fail_schedule_fire mirror y fire e; mret (inl r) : Prog (Refusal + ScheduleFireRecord)).
Proof. apply spares_bind; [|done]. intros r. apply spares_bind; [|done]. by apply spares_update_and_mirror. Qed.

Lemma spares_complete st ti ri er f (r : option ScheduleFireRecord -> Refusal + ScheduleFireRecord) :
  (forall t z, schedule_id (f t z).1 = schedule_id z) ->
  spares (completed ← do (OpComplete (fire_id fire) st ti ri er); _ ← update_and_mirror mirror (schedule_id y) f; mret (r completed)).
Proof. intros Hf completed. apply spares_bind; [by apply spares_update_and_mirror|done]. Qed.

Lemma spares_start {A} q (k : answer q -> Prog A) :
  started q = Some (fire_schedule_id fire, fire_time fire) -> (forall a, spares (k a)) -> spares (ask q ≫= k).
Proof. intros Hq Hk. split; [by rewrite Hq; intros ? [= <-]|done]. Qed.

Lemma spares_new_fire t m : spares (new_fire b rounds mirror y fire t m).
Proof.
  unfold new_fire. destruct (root_task_id (task_mirror y)); [|apply spares_fail].
  apply spares_bind; [apply spares_active_runs|]. intros active. destruct (0 <? active).
  { apply spares_complete. intros. apply after_skip_id. }
  case_match.
  - unfold fire_workflow. case_match; [|apply spares_fail].
    apply spares_ask; [done|]. intros [[]|]; [apply spares_fail| |apply spares_fail].
    apply spares_start; [done|]. intros [e|run_id]; [apply spares_fail|].
    apply spares_bind; [by destruct mirror|]. intros task_id. apply spares_complete. intros. apply after_success_id.
  - unfold fire_task. pose proof spares_fail as Hfail. pose proof spares_complete as Hcomplete. destruct mirror; [|apply Hfail].
    apply spares_start; [done|]. intros [e|task]; [apply Hfail|]. apply Hcomplete. intros. apply after_success_id.
Qed.
End other.

Lemma spares_fire_other id t : id <> schedule_id x -> spares (fire_schedule b rounds mirror id t false).
Proof.
  intros Hid [y|] _ Hy; [|done]. specialize (Hy y eq_refl). simpl.
  case_match; [done|]. split; [done|]. intros _ fire Hf. apply spares_new_fire; congruence.
Qed.

Lemma spares_fire_begun : spares (fire_schedule b rounds mirror (schedule_id x) time false).
Proof. intros r Hr _. rewrite (Hr eq_refl). simpl. case_match; [done|]. split; [done|]. intros []. done. Qed.

Lemma spares_fire_all id times :
  id <> schedule_id x \/ times = [] \/ times = [time] /\ id = schedule_id x -> spares (fire_all b rounds mirror id times).
Proof.
  intros [Hid|[->|[-> ->]]]; [|done|].
  - induction times as [|t times IH]; [done|]. apply spares_bind; [by apply spares_fire_other|done].
  - apply spares_bind; [apply spares_fire_begun|done].
Qed.

Lemma spares_scan_schedule now y :
  next_fire_at (state x) = Some time -> one_at_a_time (policy x) -> (schedule_id y = schedule_id x -> y = x) ->
  spares (scan_schedule b rounds mirror now y).
Proof.
  intros Hat Hp Hy. apply spares_ask; [done|]. intros clock.
  destruct (due_fire_times _ _ _ _ _ _ _) as [[[times next] missed]| |] eqn:E; [|done..].
  destruct (decide (schedule_id y = schedule_id x)) as [Hid|Hid].
  - rewrite (Hy Hid) in *. rewrite Hat in E. apply one_time_due in E as (Ht & -> & Hskip); [|done].
    apply spares_bind; [apply spares_fire_all; naive_solver|]. intros _. by rewrite bool_decide_eq_false_2.
  - destruct missed; [by apply spares_update_and_mirror|].
    apply spares_bind; [apply spares_fire_all; by left|]. intros _. case_bool_decide; [by apply spares_update_and_mirror|done].
Qed.

Lemma spares_scan :
  next_fire_at (state x) = Some time -> one_at_a_time (policy x) -> spares (scan_due_schedules b rounds mirror).
Proof.
  intros Hat Hp. unfold scan_due_schedules, ensure_schedules_hydrated. simpl. split; [done|]. intros now l Hl.
  induction l as [|y l IH]; [done|]. cbn [scan_all]. apply spares_bind.
  - apply spares_scan_schedule; [done..|]. apply Hl. by left.
  - intros _. apply IH. intros z Hz. apply Hl. by right.
Qed.
End wedged.

(** C39: a schedule that fires its missed times one at a scan ([run_once], or
    [catch_up] with a limit of one) is stuck when its next time was begun by
    someone else, as by a request to run it at that second: whatever its trigger,
    the other schedules, the clock and the answers of the rest of the system, no
    scan changes it, not even its next time, and none starts anything for it; if
    it is running, it stays due from that time on. *)
Theorem begun_time_wedges ws s x time :
  keyed s -> schedules_hydrated s = true -> schedules s !! schedule_id x = Some x ->
  one_at_a_time (policy x) -> next_fire_at (state x) = Some time -> begun s (schedule_id x, time) ->
  schedules (scans ws s) !! schedule_id x = Some x
  /\ (forall w fire, fire ∈ omap started (scan w (scans ws s)).1.2 -> fire.1 <> schedule_id x)
  /\ (sch_status x = SchRunning -> forall now, time <= now -> x ∈ due now (scans ws s)).
Proof.
  intros Hk Hh Hx Hp Hat Hb. pose proof (spares_scan x time Hat Hp) as Hscan.
  assert (Hw : wedged x time (scans ws s)).
  { assert (Hw : wedged x time s) by done. clear Hk Hh Hx Hb. revert s Hw. induction ws as [|w ws IH]; intros s Hw; [done|].
    apply IH. by apply run_spares. }
  split; [apply Hw|]. split.
  - intros w. by apply (run_spares x time w 0 _ _ Hw Hscan).
  - intros Hst now Hle. apply elem_of_filterb. split; [|apply elem_of_values; eexists; apply Hw].
    unfold is_due. rewrite Hst, Hat, bool_decide_eq_true_2 by done. by apply Z.leb_le.
Qed.

(** Every key in the index has its record. *)
Definition index_sound s : Prop := forall key fid, fire_key_index s !! key = Some fid -> is_Some (fires_by_id s !! fid).

(** One scan that fires: the fire is on record, no other is new, and the next
    time is the one after it. *)
Lemma scan_fires w s x every time :
  interval_service s x every time -> index_sound s -> ~ begun s (schedule_id x, time) ->
  fires_by_id s !! ("fire-" +:+ fresh_uuid (ticks w 6)) = None ->
  time <= answers w 2 AskClock -> near (answers w 2 AskClock) ->
  exists x', schedules (scan w s).1.1 = {[schedule_id x := x']} /\ schedules_hydrated (scan w s).1.1 = true /\
    schedule_id x' = schedule_id x /\ index_sound (scan w s).1.1 /\ begun (scan w s).1.1 (schedule_id x, time) /\
    (forall f, begun s f -> begun (scan w s).1.1 f) /\
    (forall f, begun (scan w s).1.1 f -> begun s f \/ fire_key f.1 f.2 = fire_key (schedule_id x) time) /\
    (sch_status x' = SchRunning /\ (near (time + every) -> interval_service (scan w s).1.1 x' every (time + every))
     \/ sch_status x' = SchFailed).
Proof.
  intros Hi Hsound Hb Hfresh Hle Hn. pose proof Hi as [Hs Hh Hst Hint He Hro Hat Hnt].
  pose proof (run_interval_scan w s x every time Hi Hle Hn) as Hscan.
  destruct (interval_next _ _ _ _ time Hi Hnt ltac:(lia)) as (next & _ & Hnx & Hnext). rewrite (Hnx eq_refl) in Hnext.
  assert (Hnone : (fid ← fire_key_index s !! fire_key (schedule_id x) time; fires_by_id s !! fid) = None).
  { apply eq_None_not_Some. exact Hb. }
  destruct Hint as (start & end_at & tz & Es & Hns & Hsle & Hmod & ->).
  destruct (run_fire_new w 5 s (schedule_id x) time false x (Some (time + every))) as
    (s' & qs & r & x' & fire' & E & H1' & Hsame & H2' & H3' & H4' & _ & _ & Hset);
    [rewrite Hs; apply lookup_singleton_eq|done|by right|done|by rewrite Es|done|].
  rewrite (Hscan _ _ _ E). cbn [fst]. rewrite Hs, insert_singleton_eq in H1'. clear E Hscan.
  destruct Hsame as (Hid & _ & _ & _ & Hspec & _ & Hpol & _). 
  exists x'. split; [done|]. split; [congruence|]. split; [done|]. split.
  { intros key fid. rewrite H3', H2'. destruct (decide (fire_key (schedule_id x) time = key)) as [<-|Hne].
    - rewrite lookup_insert_eq. intros [= <-]. rewrite lookup_insert_eq. eauto.
    - rewrite lookup_insert_ne by done. intros Hk%Hsound.
      destruct (decide ("fire-" +:+ fresh_uuid (ticks w 6) = fid)) as [<-|]; [by rewrite lookup_insert_eq; eauto|].
      by rewrite lookup_insert_ne. }
  split.
  { unfold begun. cbn [fst snd]. rewrite H3', lookup_insert_eq. cbn. rewrite H2', lookup_insert_eq. eauto. }
  split.
  { intros f [old Hf]. unfold begun. rewrite H3', H2'.
    destruct (decide (fire_key f.1 f.2 = fire_key (schedule_id x) time)) as [Ek|Hne]; [congruence|].
    rewrite lookup_insert_ne by congruence. destruct (fire_key_index s !! fire_key f.1 f.2) as [fid|]; [|done].
    cbn in *. rewrite lookup_insert_ne; [by eexists|]. intros Ef. congruence. }
  split.
  { intros f [old Hf]. destruct (decide (fire_key f.1 f.2 = fire_key (schedule_id x) time)) as [|Hne]; [by right|]. left.
    rewrite H3', H2' in Hf. unfold begun. rewrite lookup_insert_ne in Hf by congruence.
    destruct (fire_key_index s !! fire_key f.1 f.2) as [fid|] eqn:Ek; [|done]. cbn in *. by apply Hsound in Ek. }
  assert (Hafter : sch_status x' = sch_status x -> next_fire_at (state x') = Some (time + every) -> near (time + every) ->
    interval_service s' x' every (time + every)).
  { intros Hrun Hnx' Hnear. split; [by rewrite H1', Hid|congruence|congruence| |done|congruence|done|done].
    rewrite Hspec. exists start, None, tz. split_and!; [done..|lia| |done].
    replace (time + every - start) with (time - start + 1 * every) by lia. by rewrite Z.mod_add by lia. }
  unfold settled in Hset. rewrite Es in Hset. destruct (fire_status fire').
  - done.
  - destruct Hset as (_ & _ & _ & _ & _ & _ & Hrun & Hnx'). left. rewrite Hrun. split; [done|]. intros Hnear.
    by apply Hafter.
  - destruct Hset as (_ & Hrun & _ & _ & Hnx'). left. rewrite Hrun. split; [done|]. intros Hnear.
    by apply Hafter.
  - right. apply Hset.
Qed.

(** Without a time that is due, or enabled, a scan of one schedule does nothing. *)
Lemma scan_not_running w s x :
  schedules s = {[schedule_id x := x]} -> schedules_hydrated s = true -> sch_status x <> SchRunning ->
  (scan w s).1.1 = s.
Proof.
  intros Hs Hh Hst. unfold scan. rewrite run_scan by done. unfold due. rewrite Hs, values_singleton. cbn [List.filter].
  unfold is_due. by rewrite bool_decide_eq_false_2 by done.
Qed.

Lemma scans_not_running ws s x :
  schedules s = {[schedule_id x := x]} -> schedules_hydrated s = true -> sch_status x <> SchRunning -> scans ws s = s.
Proof.
  intros Hs Hh Hst. induction ws as [|w ws IH]; [done|]. cbn [scans]. by rewrite (scan_not_running w s x).
Qed.

Lemma scans_fire ws s x every time :
  interval_service s x every time -> index_sound s ->
  (forall i, 0 <= i < Z.of_nat (length ws) -> ~ begun s (schedule_id x, time + i * every)) -> scans_fresh ws s ->
  near (time + Z.of_nat (length ws) * every) ->
  (forall w, w ∈ ws -> time + Z.of_nat (length ws) * every <= answers w 2 AskClock /\ near (answers w 2 AskClock)) ->
  exists x', schedules (scans ws s) = {[schedule_id x := x']} /\ (forall f, begun s f -> begun (scans ws s) f) /\
    (sch_status x' = SchFailed \/
     sch_status x' = SchRunning /\ next_fire_at (state x') = Some (time + Z.of_nat (length ws) * every) /\
     forall i, 0 <= i < Z.of_nat (length ws) -> begun (scans ws s) (schedule_id x, time + i * every)).
Proof.
  revert s x time. induction ws as [|w ws IH]; intros s x time Hi Hsound Hb Hfresh Hnear Hw.
  { exists x. split; [apply Hi|]. split; [done|]. right. split; [apply Hi|]. split; [|simpl; lia].
    rewrite (is_time _ _ _ _ Hi). f_equal. simpl. lia. }
  destruct Hfresh as [Hnew Hfresh]. pose proof (is_every _ _ _ _ Hi) as He. pose proof (is_near _ _ _ _ Hi) as Hnt.
  assert (Hlen : Z.of_nat (length (w :: ws)) = Z.of_nat (length ws) + 1) by (simpl; lia). rewrite Hlen in *.
  assert (Hshift : forall i, time + every + i * every = time + (i + 1) * every) by lia.
  destruct (Hw w ltac:(by left)) as [Hle Hnow].
  destruct (scan_fires w s x every time Hi Hsound) as (x' & Hs & Hh' & Hid & Hsound' & Hbegun & Hkeep & Honly & Hst); [|done|nia|done|].
  { intros Hbe. apply (Hb 0); [lia|]. by replace (time + 0 * every) with time by lia. }
  cbn [scans]. destruct Hst as [[Hrun Hnext]|Hfailed].
  - assert (Hn1 : near (time + every)) by (unfold near in *; nia).
    destruct (IH (scan w s).1.1 x' (time + every) (Hnext Hn1) Hsound') as (x'' & Hs'' & Hkeep' & Hfin); rewrite ?Hshift; [|done|done| |].
    + intros i Hi0. rewrite Hshift, Hid. intros Hbe. destruct (Honly _ Hbe) as [Hold|Hkey]; [by apply (Hb (i + 1)); [lia|]|].
      cbn [fst snd] in Hkey. unfold near in *. apply fire_key_inj in Hkey; unfold is_i64, i64_min, i64_max; nia.
    + intros w' Hin. apply Hw. by right.
    + exists x''. rewrite Hid in Hs''. split; [done|]. split; [auto|]. destruct Hfin as [|(Hr & Hnx & Hall)]; [by left|right].
      split; [done|]. split; [by rewrite Hnx, Hshift|]. intros i Hi0.
      destruct (decide (i = 0)) as [->|]; [apply Hkeep'; by replace (time + 0 * every) with time by lia|].
      rewrite Hid in Hall. specialize (Hall (i - 1) ltac:(lia)). by replace (time + i * every) with (time + every + (i - 1) * every) by lia.
  - exists x'. rewrite (scans_not_running ws (scan w s).1.1 x'); [|by rewrite Hs, Hid| |congruence].
    + split; [done|]. split; [done|by left].
    + done.
Qed.

(** C31: the policy [run_once] does not fire once for the times that were missed,
    but once for each.  For a service with one schedule, an interval trigger with
    a start and no end: while it is behind, every scan makes the record of the
    next missed time (of a fire that was started, skipped or failed), until a
    fire fails. *)
Theorem run_once_replays ws s x every time :
  interval_service s x every time -> index_sound s ->
  (forall i, 0 <= i < Z.of_nat (length ws) -> ~ begun s (schedule_id x, time + i * every)) -> scans_fresh ws s ->
  near (time + Z.of_nat (length ws) * every) ->
  (forall w, w ∈ ws -> time + Z.of_nat (length ws) * every <= answers w 2 AskClock /\ near (answers w 2 AskClock)) ->
  exists x', schedules (scans ws s) = {[schedule_id x := x']} /\
    (sch_status x' = SchFailed \/
     sch_status x' = SchRunning /\ next_fire_at (state x') = Some (time + Z.of_nat (length ws) * every) /\
     forall i, 0 <= i < Z.of_nat (length ws) -> begun (scans ws s) (schedule_id x, time + i * every)).
Proof.
  intros Hi Hsound Hb Hfresh Hnear Hw. destruct (scans_fire ws s x every time) as (x' & Hs & _ & Hfin); [done..|].
  by exists x'.
Qed.

(** A trigger for one time is lost when its time comes while an earlier run
    (one a request started) is active: the fire is skipped, and the schedule
    stays enabled with no time left; no scan takes it up again. *)
Theorem once_lost w s id x run_at timezone :
  schedules s !! id = Some x -> schedule_id x = id -> sch_status x = SchRunning -> schedule x = Once run_at timezone ->
  ~ begun s (id, run_at) ->
  exists s' qs r x' fire', run w 0 (fire_schedule b rounds mirror id run_at false) s = (s', qs, Returned r) /\
    schedules s' !! id = Some x' /\ fires_by_id s' !! ("fire-" +:+ fresh_uuid (ticks w 1)) = Some fire' /\
    (fire_status fire' = FireSkipped ->
     sch_status x' = SchRunning /\ next_fire_at (state x') = None /\ forall now, is_due now x' = false).
Proof.
  intros Hx Hid Hst Hone Hb.
  assert (Hnone : (fid ← fire_key_index s !! fire_key id run_at; fires_by_id s !! fid) = None) by (by apply eq_None_not_Some).
  destruct (run_fire_new w 0 s id run_at false x None Hx Hid (or_intror Hst) Hnone) as
    (s' & qs & r & x' & fire' & E & H1' & _ & H2' & _ & _ & _ & _ & Hset); [by rewrite Hone| |].
  { intros clock. rewrite Hone. cbn. by rewrite Z.ltb_irrefl. }
  exists s', qs, r, x', fire'. split; [done|]. rewrite H1', H2', !lookup_insert_eq. split; [done|]. split; [done|].
  intros Hf. unfold settled in Hset. rewrite Hf in Hset. destruct Hset as (_ & Hrun & _ & _ & Hnext).
  split; [congruence|]. split; [done|]. intros now. unfold is_due. rewrite Hnext. by rewrite andb_false_r.
Qed.

(** The guard against overlapping runs sees the 100 oldest tasks of a schedule
    only: when they have ended it is blind to any that is active. *)
Theorem overlap_guard_blind w n s x parent old young :
  root_task_id (task_mirror x) = Some parent -> answers w n (AskSubtasks parent) = inr (old ++ young) ->
  length old = 100%nat -> Forall (fun terminal => terminal = true) old -> answers w (S n) (AskActiveRuns (schedule_id x)) = 0 ->
  mirror = true -> (run w n (active_schedule_runs mirror x) s).2 = Returned 0.
Proof.
  intros Hp Ha Hl Hall Hr ->. unfold active_schedule_runs, active_fire_subtasks. cbn. rewrite Hp. cbn. rewrite Ha. cbn [prog_bind run].
  assert (E : List.filter negb (take 100 (old ++ young)) = []).
  { rewrite <- Hl, take_app_length. clear -Hall. induction Hall as [|t l -> _ IH]; [done|]. exact IH. }
  rewrite E. cbn [length]. change (0 <? Z.of_nat 0) with false. cbn. f_equal. exact Hr.
Qed.

(** ** Running alone is one of the interleavings *)

Fixpoint run_fresh {A} w n (p : Prog A) s : Prop :=
  match p with
  | Ret _ | Crash => True
  | Op o k => fresh_tick (ticks w n) s /\
    match exec (ticks w n) o s with (s', Returned r) => run_fresh w (S n) (k r) s' | _ => True end
  | Ask q k => run_fresh w (S n) (k (answers w n q)) s
  end.

Lemma run_steps w n (p : Prog ()) s ps qs s' qs' :
  run w n p s = (s', qs', Returned ()) -> run_fresh w n p s ->
  rtc (step b rounds mirror) (mkSys s (ps ++ [p]) qs) (mkSys s' ps (qs ++ qs')).
Proof.
  revert n s qs qs'. induction p as [[]|o k IH|q k IH|]; intros n s qs qs'; cbn [run run_fresh].
  - intros [= <- <-] _. rewrite app_nil_r. apply rtc_once.
    pose proof (step_end b rounds mirror s ps (Ret ()) [] qs (or_intror eq_refl)) as Hs. by rewrite app_nil_r in Hs.
  - destruct (exec (ticks w n) o s) as [s1 [r| |]] eqn:E; [|done..]. intros Hrun [Hf Hfresh].
    eapply rtc_l; [by apply (step_op b rounds mirror s ps [] qs o k _ s1 r Hf)|]. by apply (IH r (S n)).
  - destruct (run w (S n) (k (answers w n q)) s) as [[s1 qs1] r] eqn:E. intros [= -> <- ->] Hfresh.
    eapply rtc_l; [apply (step_ask b rounds mirror s ps [] qs q k (answers w n q))|].
    replace (qs ++ q :: qs1) with ((qs ++ [q]) ++ qs1) by (by rewrite <- app_assoc). by apply (IH _ (S n)).
  - done.
Qed.

(** A request served while nothing else runs. *)
Definition served w r (y : Service (Number := Number)) : Service (Number := Number) :=
  let '(s, qs, _) := run w 0 (handler b rounds mirror r) (sys_store y) in mkSys s [] (sys_asked y ++ qs).

Lemma reachable_served w r y :
  reachable b rounds mirror y -> sys_procs y = [] -> (run w 0 (handler b rounds mirror r) (sys_store y)).2 = Returned () ->
  run_fresh w 0 (handler b rounds mirror r) (sys_store y) -> reachable b rounds mirror (served w r y).
Proof.
  destruct y as [s ps qs]. cbn [sys_procs sys_store]. intros Hr -> Hrun Hfresh. unfold reachable, served in *. cbn [sys_store sys_asked].
  destruct (run w 0 (handler b rounds mirror r) s) as [[s' qs'] res] eqn:E. cbn [snd] in Hrun. subst.
  etransitivity; [exact Hr|]. eapply rtc_l; [apply (step_start b rounds mirror s [] qs r)|]. by apply (run_steps w 0).
Qed.
End fires.

Section restart.
Context {Number : Type} `{JsonText Number}.
Implicit Types x : WorkflowSchedule Number.

Lemma from_str_loose_status st : from_str_loose (status_to_string st) = Some st.
Proof. by destruct st. Qed.

Lemma misfire_round_trip m : misfire_from_str (misfire_str m) = Ok m.
Proof. by destruct m. Qed.

(** C32: what the root task of a schedule keeps of it is all of it: read back
    after a restart, the schedule is the one that was written last, with its
    times, its policy, its status and its error; identifiers of the task and the
    times of its own are those of the task. *)
Theorem schedule_task_roundtrip (t : Task WorkflowScheduleTaskData) x :
  schedule_task_payload t = schedule_task_data x ->
  owner x = mkOwner (user_id (creator t)) (app_id (creator t)) ->
  trim (schedule_id x) <> "" -> 0 <= consecutive_failures (state x) <= u32_max -> 1 <= catch_up_limit (policy x) ->
  schedule_from_task t
  = Some (mkSchedule (schedule_id x) (owner x) (sch_name x) (description x) (sch_status x) (schedule x) (target x) (state x) (policy x)
      (mkMirror (Some (task_id t)) (Some (root_id t))) (u64_as_i64 (created_at t)) (u64_as_i64 (task_updated_at t))).
Proof.
  intros Hp Ho Hid Hf Hc. unfold schedule_from_task. rewrite Hp. cbn.
  rewrite (proj2 (String.eqb_neq _ _)) by done. rewrite from_str_loose_status. cbn. rewrite <- Ho.
  rewrite Z.mod_small by (unfold u32_max in *; lia).
  assert (Es : match VString <$> last_error (state x) with
    | Some (VString text) => Some text | Some other => Some (json_text other) | None => None end = last_error (state x)).
  { by destruct (last_error (state x)). }
  cbn in Es. rewrite Es. unfold policy_from_typed. cbn. rewrite misfire_round_trip, Z.max_l by lia.
  destruct x as [? ? ? ? ? ? ? [] [] ? ? ?]. cbn. reflexivity.
Qed.

(** A restart forgets the schedules after the first hundred. *)
Theorem restart_forgets now (old young : list (Task WorkflowScheduleTaskData)) :
  length old = 100%nat ->
  hydrate now (load_schedules (old ++ young)) new_memory = hydrate now (load_schedules old) new_memory.
Proof. intros Hl. unfold load_schedules. rewrite <- Hl, take_app_length, firstn_all. done. Qed.
End restart.

Module TriggerExamples.

#[local] Existing Instance canonical_order.
#[local] Existing Instance gregorian.

#[local] Instance numbers : JsonText Z := {
  json_i64 n := n; json_number_text := i64_to_string; json_text _ := "json"; rfc3339_text _ := "time"
}.

Definition ann : Owner := mkOwner "ann" "app".

(** Every minute from the second 1000 on. *)
Definition every_minute : ScheduleSpec := RunEvery 60 (Some 1000) None None.
Definition job : ScheduleSubtaskTemplate Z := mkTemplate "opendan.command" "job" VNull.
Definition flow : ScheduleSubtaskTemplate Z :=
  mkTemplate "workflow.run" "flow" (object [("workflow_run", object [("workflow_id", VString "wf-1")])]).
Definition waiting (status : ScheduleStatus) (spec : ScheduleSpec) (t : ScheduleSubtaskTemplate Z) (next : Z) : WorkflowSchedule Z :=
  mkSchedule "sch-1" ann "minutely" None status spec t (mkState (Some next) None None None 0 None) default_policy
    (mkMirror (Some "task-root") (Some "task-root")) 0 0.

(** It is [now]; nothing is active, and what is asked for succeeds.  The fires of
    a world are named after it. *)
Definition calm (name : string) (now : Z) : World (Number := Z) := {|
  ticks n := mkTick now now now (name +:+ i64_to_string (Z.of_nat n));
  answers n q :=
    match q return answer q with
    | AskClock => now
    | AskLoad => inr []
    | AskSubtasks _ => inr []
    | AskActiveRuns _ => 0
    | AskDefinition _ => Some false
    | StartRun _ _ _ _ _ => inr "run-1"
    | StartTask _ _ _ => inr "task-1"
    | AskFireTask _ _ => None
    | EnsureRootTask _ => inr (mkMirror (Some "task-root") (Some "task-root"))
    | MirrorSchedule _ => ()
    end
|}.

Definition service (x : WorkflowSchedule Z) : Store := mkStore {[schedule_id x := x]} ∅ ∅ true.

Definition summary (s : Store (Number := Z)) : option (ScheduleStatus * option Z * option Z) :=
  x ← schedules s !! "sch-1"; mret (sch_status x, last_fire_at (state x), next_fire_at (state x)).

Definition scan_at (now : Z) (s : Store) := run (calm "w" now) 0 (scan_due_schedules Debug 3 true) s.

(** An hour late, the first missed time is fired and the second is next. *)
Example late_scan :
  let '(s, qs, r) := scan_at 4630 (service (waiting SchRunning every_minute job 1000)) in
  summary s = Some (SchRunning, Some 1000, Some 1060) /\ omap started qs = [("sch-1", 1000)] /\ r = Returned ().
Proof. vm_compute. auto. Qed.

(** The record of the fires is not kept: when the task manager could not be
    told of a fire and the service restarts with the schedule as it was told
    last, the same time is started again. *)
Theorem restart_fires_again :
  let told := waiting SchRunning every_minute flow 1000 in
  let '(_, before, _) := scan_at 1001 (service told) in
  let restarted := hydrate 1002 [told] new_memory in
  let '(_, after, _) := run (calm "w" 1003) 0 (scan_due_schedules Debug 3 true)
      (mkStore (schedules restarted) (fires_by_id restarted) (fire_key_index restarted) true) in
  omap started before = [("sch-1", 1000)] /\ omap started after = [("sch-1", 1000)].
Proof. vm_compute. auto. Qed.

(** ** Instances *)

Definition idle : Service (Number := Z) := mkSys new_memory [] [].
Definition serve (name : string) (now : Z) (r : Request (Number := Z)) (y : Service (Number := Z)) : Service (Number := Z) :=
  served Debug 3 true (calm name now) r y.

(** A schedule is made, scanned in time, and run for the same time by hand. *)
Definition busy : Service (Number := Z) :=
  serve "c" 1100 (ReqRunNow ann "sch-1" (Some 1060))
    (serve "b" 1100 ReqScan (serve "a" 1000 (ReqCreate "1" ann "minutely" None every_minute job default_policy None) idle)).

Lemma fires_once_witness :
  reachable Debug 3 true busy /\ omap started (sys_asked busy) = [("sch-1", 1060)] /\ NoDup (omap started (sys_asked busy)).
Proof.
  assert (Hr : reachable Debug 3 true busy).
  { apply reachable_served; [apply reachable_served; [apply reachable_served; [apply rtc_refl|..]|..]|..];
      first [reflexivity | vm_compute; repeat split]. }
  split; [exact Hr|]. split; [vm_compute; reflexivity|]. exact (fires_once Debug 3 true busy Hr).
Defined.

Definition missed : WorkflowSchedule Z := waiting SchRunning every_minute job 1000.

Lemma missed_service : interval_service (service missed) missed 60 1000.
Proof.
  split; try reflexivity; [|lia|unfold near; lia].
  exists 1000, None, None. split_and!; try reflexivity; unfold near; lia.
Qed.

Lemma nothing_begun (x : WorkflowSchedule Z) f : ~ begun (service x) f.
Proof. unfold begun, service. cbn [fire_key_index]. rewrite lookup_empty. by intros []. Qed.

Lemma fire_outcome_witness :
  exists s' qs r x' fire', run (calm "w" 1001) 0 (fire_schedule Debug 3 true "sch-1" 1000 false) (service missed) = (s', qs, Returned r) /\
    schedules s' = <["sch-1" := x']> (schedules (service missed)) /\ same_task missed x' /\
    fires_by_id s' = <["fire-" +:+ fresh_uuid (ticks (calm "w" 1001) 1) := fire']> (fires_by_id (service missed)) /\
    fire_schedule_id fire' = "sch-1" /\ fire_time fire' = 1000 /\
    settled missed x' fire' 1000 false (Some 1060) (omap started qs).
Proof.
  exact (fire_outcome Debug 3 true (calm "w" 1001) (service missed) "sch-1" 1000 false missed (Some 1060)
    eq_refl eq_refl (or_intror eq_refl) eq_refl (fun _ => eq_refl)).
Defined.

Lemma run_once_replays_witness :
  exists x', schedules (scans Debug 3 true [calm "a" 4630; calm "b" 4631] (service missed)) = {["sch-1" := x']} /\
    (sch_status x' = SchFailed \/ sch_status x' = SchRunning /\ next_fire_at (state x') = Some 1120 /\
     forall i, 0 <= i < 2 -> begun (scans Debug 3 true [calm "a" 4630; calm "b" 4631] (service missed)) ("sch-1", 1000 + i * 60)).
Proof.
  apply (run_once_replays Debug 3 true [calm "a" 4630; calm "b" 4631] (service missed) missed 60 1000).
  - apply missed_service.
  - intros key fid Hk. cbn [service fire_key_index] in Hk. by rewrite lookup_empty in Hk.
  - intros i _. apply nothing_begun.
  - vm_compute. auto.
  - unfold near. simpl. lia.
  - intros w [->|[->|[]%elem_of_nil]%elem_of_cons]%elem_of_cons; unfold near; simpl; lia.
Defined.

(** A user ran the schedule for the time it was about to fire for. *)
Definition taken : Store (Number := Z) :=
  mkStore {["sch-1" := missed]}
    {["fire-m" := mkFire "fire-m" "sch-1" (fire_key "sch-1" 1000) 1000 true FireTaskCreated (Some "task-1") None None 1000 1000]}
    {[fire_key "sch-1" 1000 := "fire-m"]} true.

Lemma begun_time_wedges_witness :
  let s := scans Debug 3 true [calm "a" 1000; calm "b" 1001; calm "c" 9000] taken in
  schedules s !! "sch-1" = Some missed
  /\ (forall w fire, fire ∈ omap started (scan Debug 3 true w s).1.2 -> fire.1 <> "sch-1")
  /\ (SchRunning = SchRunning -> forall now, 1000 <= now -> missed ∈ due now s).
Proof.
  apply (begun_time_wedges Debug 3 true [calm "a" 1000; calm "b" 1001; calm "c" 9000] taken missed 1000);
    [|reflexivity|reflexivity|by left|reflexivity|vm_compute; eauto].
  intros id x Hx. cbn [taken schedules] in Hx. apply lookup_singleton_Some in Hx as [<- <-]. reflexivity.
Defined.

Definition skipping : WorkflowSchedule Z :=
  mkSchedule "sch-1" ann "minutely" None SchRunning every_minute job (mkState (Some 1000) None None None 0 None)
    (mkPolicy MisfireSkip 1 1 0) (mkMirror (Some "task-root") (Some "task-root")) 0 0.

Lemma skip_never_fires_witness : omap started (scan Debug 3 true (calm "w" 1000) (service skipping)).1.2 = [].
Proof.
  apply (skip_never_fires Debug 3 true (calm "w" 1000) (service skipping) eq_refl).
  intros id x Hx. cbn [service schedules] in Hx. apply lookup_singleton_Some in Hx as [_ <-]. by left.
Defined.

Definition root_task_of (x : WorkflowSchedule Z) : Task (WorkflowScheduleTaskData (Number := Z)) :=
  {| task_id := "task-root"; task_name := "minutely"; parent_id := None; root_id := "task-root";
     child_control_policy := {| follow_pause := true; follow_resume := true; follow_cancel := true |}; schema_id := "workflow.schedule/v1"; schema_version := 1; input := schedule_task_data x;
     input_digest := ""; creator := {| user_id := "ann"; app_id := "app"; app_instance_id := None |}; idempotency_key := "";
     origin_ref := None; retry_of := None; supersedes := None; executor := Unbound; runner_epoch := 0; assignees := None;
     phase := PRunning; wait_reason := None; pending_control := None;
     control_profile := {| pause := Available; resume := Available; cancel := Safe; profile_updated_at := 0 |};
     progress := Some (schedule_task_data x); task_message := None; TaskTypes.outcome := None; task_result := None; task_error := None;
     completed_by := None; policy_preset := ""; permission_boundary := false; task_revision := 1; data_scope := None;
     created_at := 5; task_updated_at := 7; completed_at := None; archived_at := None |}.

Lemma schedule_task_roundtrip_witness :
  schedule_from_task (root_task_of missed)
  = Some (mkSchedule "sch-1" ann "minutely" None SchRunning every_minute job (state missed) default_policy
      (mkMirror (Some "task-root") (Some "task-root")) 5 7).
Proof.
  apply (schedule_task_roundtrip (root_task_of missed) missed); [reflexivity|reflexivity|vm_compute; discriminate|cbn; unfold u32_max; lia|cbn; lia].
Defined.
End TriggerExamples.
