(* ===== verification/TaskTables.v ===== *)
(** The store of the task manager ([kernel/task_manager/src/task_store.rs]):
    its tables, its queries and its transactions, each of which is one step.

    The tables of tasks, assignees and grants are those of [TaskAcl]; here are
    the durable events, the schemas and the notes.  A transaction gives the
    tables it leaves, which are those it found when it fails.  What it takes from outside (the
    clock, a UUID, the identifier of its event) is a [Tick].  The texts of errors
    and the payloads of events, which only describe them, are left out; so are
    failures of the database other than violated keys.  SHA-256 and the
    text of JSON scalars are parameters. *)
From Stdlib Require Import ZArith Lia Ascii.
From stdpp Require Import base tactics numbers gmap strings sorting list.
From S2P Require Import Prelude RustString WfJson WfSchema TaskTypes TaskAcl.

#[export] Instance TaskPhase_eq_dec : EqDecision TaskPhase. Proof. solve_decision. Defined.
#[export] Instance TaskExecutorKind_eq_dec : EqDecision TaskExecutorKind. Proof. solve_decision. Defined.
#[export] Instance TaskControlAction_eq_dec : EqDecision TaskControlAction. Proof. solve_decision. Defined.

(** ** Errors *)

(** The codes of [task_mgr_error]. *)
Inductive TaskErrCode :=
| TaskNotFound | PermissionDenied | RevisionConflict | StaleRunnerEpoch | InvalidPhase | ControlNotAvailable
| ControlAlreadyPending | AlreadyCompleted | InputSchemaMismatch | ResultSchemaMismatch | IdempotencyConflict | SchemaNotFound.
#[export] Instance TaskErrCode_eq_dec : EqDecision TaskErrCode. Proof. solve_decision. Defined.

Inductive RPCErrors :=
| TaskMgrError (code : TaskErrCode)
| NoPermission
| InvalidToken
| ParseRequestError
| ReasonError.

Definition task_mgr_error_code (e : RPCErrors) : option TaskErrCode :=
  match e with TaskMgrError code => Some code | _ => None end.

#[export] Instance rpc_ret : MRet (sum RPCErrors) := fun _ => inr.
#[export] Instance rpc_bind : MBind (sum RPCErrors) := fun _ _ f r => match r with inl e => inl e | inr a => f a end.

Definition fails {A} (code : TaskErrCode) : RPCErrors + A := inl (TaskMgrError code).

(** ** Digests *)

Section digest.
Context {Number : Type} (scalar_text : Value Number -> string) (sha256 : string -> string).
Abbreviation Value := (Value Number).

(** What the digest hashes of a document; the entries of an object are in the
    order of their keys. *)
Fixpoint hash_canonical_json_value (v : Value) : string :=
  match v with
  | VObject m =>
    "{" +:+ (fix go m := match m with
                         | [] => "}"
                         | (k, v) :: m => k +:+ ":" +:+ hash_canonical_json_value v +:+ "," +:+ go m
                         end) m
  | VArray l =>
    "[" +:+ (fix go l := match l with
                         | [] => "]"
                         | v :: l => hash_canonical_json_value v +:+ "," +:+ go l
                         end) l
  | v => scalar_text v
  end.

Definition compute_task_input_digest (v : Value) : string := sha256 (hash_canonical_json_value v).
End digest.

(** ** Events and schemas *)

Inductive TaskEventType :=
| TaskCreated | RunnerBound | RunnerReleased | PhaseChanged | WaitReasonChanged | ProgressReported | ControlProfileChanged
| ControlRequested | ControlSuperseded | ControlApplied | ControlRejected | AssigneesChanged | AccessGranted | AccessRevoked
| ResultCommitted | TaskFailed | TaskCanceled | TaskArchived | PayloadRedacted.

Record TaskEvent := mkEvent {
  event_id : string;
  event_task_id : TaskId;
  event_root_id : TaskId;
  event_revision : Z;
  event_type : TaskEventType;
  event_actor : option ActorRef;
  event_created_at : Z
}.

Record TaskNote {Value : Type} := mkNote {
  note_id : Z;
  note_task_id : TaskId;
  note_type : string;
  note_content : string;
  note_data : Value;
  author_user_id : string;
  author_app_id : string;
  note_created_at : Z;
  note_updated_at : Z
}.
Arguments TaskNote _ : clear implicits.
Arguments mkNote {Value} _ _ _ _ _ _ _ _ _.

Record TaskSchemaDefinition {Value : Type} := mkSchemaDef {
  def_schema_id : string;
  def_schema_version : Z;
  input_schema : Value;
  output_schema : Value;
  presentation_schema : option Value;
  allowed_executor_kinds : list TaskExecutorKind;
  user_creatable : bool;
  publisher_app_id : string;
  enabled : bool;
  def_created_at : Z
}.
Arguments TaskSchemaDefinition _ : clear implicits.
Arguments mkSchemaDef {Value} _ _ _ _ _ _ _ _ _ _.

Record Tick := mkTick { now_ms : Z; new_uuid : string; new_event_id : string }.

(** [TaskControlProfile::baseline], [TaskWaitReason::new], and the default policy *)
Definition baseline (now : Z) : TaskControlProfile :=
  {| pause := Unavailable None; resume := Unavailable None; cancel := Interrupt; profile_updated_at := now |}.
Definition new_wait_reason (kind : TaskWaitReasonKind) : TaskWaitReason :=
  {| reason_kind := kind; reason_code := None; related_task_id := None; reason_message := None |}.
Definition default_child_policy : ChildControlPolicy :=
  {| follow_pause := true; follow_resume := true; follow_cancel := true |}.

Section tables.
Context {Number : Type} (number_eqb : Number -> Number -> bool).
Context (digest : Value Number -> string).
Abbreviation Value := (Value Number).
Abbreviation Task := (Task Value).
Abbreviation TaskSchemaDefinition := (TaskSchemaDefinition Value).

(** ** Updates of a task *)

(** The columns an update may write. *)
Definition set_columns ex epoch ph wait pending profile prog message out res err by_ updated completed archived (t : Task) : Task :=
  {| task_id := task_id t; task_name := task_name t; parent_id := parent_id t; root_id := root_id t;
     child_control_policy := child_control_policy t; schema_id := schema_id t; schema_version := schema_version t;
     input := input t; input_digest := input_digest t; creator := creator t; idempotency_key := idempotency_key t;
     origin_ref := origin_ref t; retry_of := retry_of t; supersedes := supersedes t; executor := ex; runner_epoch := epoch;
     assignees := assignees t; phase := ph; wait_reason := wait; pending_control := pending; control_profile := profile;
     progress := prog; task_message := message; outcome := out; task_result := res; task_error := err; completed_by := by_;
     policy_preset := policy_preset t; permission_boundary := permission_boundary t; task_revision := task_revision t;
     data_scope := data_scope t; created_at := created_at t; task_updated_at := updated; completed_at := completed;
     archived_at := archived |}.

Definition set_executor ex epoch (t : Task) : Task :=
  set_columns ex epoch (phase t) (wait_reason t) (pending_control t) (control_profile t) (progress t) (task_message t) (outcome t)
    (task_result t) (task_error t) (completed_by t) (task_updated_at t) (completed_at t) (archived_at t) t.
Definition set_phase ph wait (t : Task) : Task :=
  set_columns (executor t) (runner_epoch t) ph wait (pending_control t) (control_profile t) (progress t) (task_message t) (outcome t)
    (task_result t) (task_error t) (completed_by t) (task_updated_at t) (completed_at t) (archived_at t) t.
Definition set_pending pending (t : Task) : Task :=
  set_columns (executor t) (runner_epoch t) (phase t) (wait_reason t) pending (control_profile t) (progress t) (task_message t)
    (outcome t) (task_result t) (task_error t) (completed_by t) (task_updated_at t) (completed_at t) (archived_at t) t.
Definition set_profile profile (t : Task) : Task :=
  set_columns (executor t) (runner_epoch t) (phase t) (wait_reason t) (pending_control t) profile (progress t) (task_message t)
    (outcome t) (task_result t) (task_error t) (completed_by t) (task_updated_at t) (completed_at t) (archived_at t) t.
Definition set_progress prog message (t : Task) : Task :=
  set_columns (executor t) (runner_epoch t) (phase t) (wait_reason t) (pending_control t) (control_profile t) prog message (outcome t)
    (task_result t) (task_error t) (completed_by t) (task_updated_at t) (completed_at t) (archived_at t) t.
(** The columns of a task that ends. *)
Definition set_ended out res err by_ at_ (t : Task) : Task :=
  set_columns (executor t) (runner_epoch t) Terminal None (pending_control t) (control_profile t) (progress t) (task_message t)
    (Some out) res err (Some by_) (task_updated_at t) (Some at_) (archived_at t) t.
Definition set_archived at_ (t : Task) : Task :=
  set_columns (executor t) (runner_epoch t) (phase t) (wait_reason t) (pending_control t) (control_profile t) (progress t)
    (task_message t) (outcome t) (task_result t) (task_error t) (completed_by t) (task_updated_at t) (completed_at t) at_ t.

Definition set_revision revision updated (t : Task) : Task :=
  {| task_id := task_id t; task_name := task_name t; parent_id := parent_id t; root_id := root_id t;
     child_control_policy := child_control_policy t; schema_id := schema_id t; schema_version := schema_version t;
     input := input t; input_digest := input_digest t; creator := creator t; idempotency_key := idempotency_key t;
     origin_ref := origin_ref t; retry_of := retry_of t; supersedes := supersedes t; executor := executor t;
     runner_epoch := runner_epoch t; assignees := assignees t; phase := phase t; wait_reason := wait_reason t;
     pending_control := pending_control t; control_profile := control_profile t; progress := progress t;
     task_message := task_message t; outcome := outcome t; task_result := task_result t; task_error := task_error t;
     completed_by := completed_by t; policy_preset := policy_preset t; permission_boundary := permission_boundary t;
     task_revision := revision; data_scope := data_scope t; created_at := created_at t; task_updated_at := updated;
     completed_at := completed_at t; archived_at := archived_at t |}.

(** ** The tables *)

Record Db := mkDb {
  tables : TaskStore Value;
  task_event : list TaskEvent;
  task_schema : gmap (string * Z) TaskSchemaDefinition;
  task_note : list (TaskNote Value)
}.

Definition empty_db : Db :=
  mkDb {| task_table := ∅; assignee_table := []; grant_table := [] |} [] ∅ [].

Definition row (d : Db) (id : TaskId) : option Task := task_table (tables d) !! id.

Definition with_rows rows (d : Db) : Db :=
  mkDb {| task_table := rows; assignee_table := assignee_table (tables d); grant_table := grant_table (tables d) |}
    (task_event d) (task_schema d) (task_note d).
Definition with_assignees l (d : Db) : Db :=
  mkDb {| task_table := task_table (tables d); assignee_table := l; grant_table := grant_table (tables d) |}
    (task_event d) (task_schema d) (task_note d).
Definition with_grants l (d : Db) : Db :=
  mkDb {| task_table := task_table (tables d); assignee_table := assignee_table (tables d); grant_table := l |}
    (task_event d) (task_schema d) (task_note d).
Definition with_events l (d : Db) : Db := mkDb (tables d) l (task_schema d) (task_note d).
Definition with_schemas m (d : Db) : Db := mkDb (tables d) (task_event d) m (task_note d).
Definition with_notes l (d : Db) : Db := mkDb (tables d) (task_event d) (task_schema d) l.

Record MutationOutcome := mkOutcome { out_task : Task; out_event : TaskEvent }.

(** ** Queries *)

Definition find_by_idempotency (d : Db) (user app key : string) : option Task :=
  attach_assignees (tables d) <$>
    head (List.filter (fun t => String.eqb (user_id (creator t)) user && String.eqb (app_id (creator t)) app
                                && String.eqb (idempotency_key t) key)
            (map_to_list (task_table (tables d))).*2).

(** This one leaves the assignees out. *)
Definition find_by_origin (d : Db) (kind id : string) : option Task :=
  head (List.filter (fun t => match origin_ref t with
                              | Some o => String.eqb (origin_kind o) kind && String.eqb (origin_id o) id
                              | None => false
                              end) (map_to_list (task_table (tables d))).*2).

Record ListTasksReq := mkListTasks {
  l_creator_user_id : option string;
  l_creator_app_id : option string;
  l_schema_id : option string;
  l_phase : option TaskPhase;
  l_root_id : option TaskId;
  l_executor_kind : option TaskExecutorKind;
  l_runner_app_id : option string;
  l_runner_target_id : option string;
  l_created_after : option Z;
  l_created_before : option Z;
  l_include_archived : bool;
  l_cursor : option string;
  l_limit : option Z
}.

(** [ORDER BY created_at, task_id] *)
Definition task_leb (x y : Task) : bool :=
  (created_at x <? created_at y) || ((created_at x =? created_at y) && string_leb (task_id x) (task_id y)).
Definition ordered (p : Task -> bool) (d : Db) : list Task :=
  sort_stable task_leb (List.filter p (map_to_list (task_table (tables d))).*2).

Definition make_cursor (t : Task) : string := u64_to_string (created_at t) +:+ ":" +:+ task_id t.
Definition parse_cursor (cursor : string) : RPCErrors + (Z * string) :=
  match split_once ":" cursor with
  | None => inl ParseRequestError
  | Some (created, id) =>
    match parse_signed i64_max created with Some c => inr (c, id) | None => inl ParseRequestError end
  end.
Definition parse_cursor_opt (cursor : option string) : RPCErrors + option (Z * string) :=
  match cursor with Some c => c ← parse_cursor c; mret (Some c) | None => mret None end.
Definition after_cursor (cursor : option (Z * string)) (t : Task) : bool :=
  match cursor with
  | None => true
  | Some (c, id) => (c <? created_at t) || ((created_at t =? c) && negb (string_leb (task_id t) id))
  end.

(** One row more than the limit is asked for, to see whether there are more. *)
Definition page (limit : nat) (l : list Task) : list Task * option string :=
  let rows := take (S limit) l in
  if (limit <? length rows)%nat then (take limit rows, make_cursor <$> last (take limit rows)) else (rows, None).
Definition clamp_limit (limit : Z) : nat := Z.to_nat (Z.max 1 (Z.min 500 limit)).

Definition is_eq {A} `{EqDecision A} (want : option A) (x : A) : bool :=
  match want with Some w => bool_decide (w = x) | None => true end.
Definition is_eq_opt {A} `{EqDecision A} (want : option A) (x : option A) : bool :=
  match want with Some w => bool_decide (Some w = x) | None => true end.
Definition runner_app (e : TaskExecutor) : option string := match e with App _ a _ => Some a | _ => None end.
Definition runner_target (e : TaskExecutor) : option string := match e with App t _ _ => t | _ => None end.

Definition list_condition (req : ListTasksReq) (t : Task) : bool :=
  is_eq (l_creator_user_id req) (user_id (creator t)) && is_eq (l_creator_app_id req) (app_id (creator t))
  && is_eq (l_schema_id req) (schema_id t) && is_eq (l_phase req) (phase t) && is_eq (l_root_id req) (root_id t)
  && is_eq (l_executor_kind req) (executor_kind (executor t)) && is_eq_opt (l_runner_app_id req) (runner_app (executor t))
  && is_eq_opt (l_runner_target_id req) (runner_target (executor t))
  && match l_created_after req with Some c => c <=? created_at t | None => true end
  && match l_created_before req with Some c => created_at t <? c | None => true end
  && (l_include_archived req || bool_decide (archived_at t = None)).

Definition list_tasks (d : Db) (req : ListTasksReq) : RPCErrors + (list Task * option string) :=
  cursor ← parse_cursor_opt (l_cursor req);
  mret (page (clamp_limit (default 100 (l_limit req))) (ordered (fun t => list_condition req t && after_cursor cursor t) d)).

Definition list_tree (d : Db) (root : TaskId) (cursor : option string) (limit : Z) : RPCErrors + (list Task * option string) :=
  list_tasks d (mkListTasks None None None None (Some root) None None None None None true cursor (Some limit)).

Definition list_children (d : Db) (parent : TaskId) (cursor : option string) (limit : Z)
  : RPCErrors + (list Task * option string) :=
  cursor ← parse_cursor_opt cursor;
  mret (page (clamp_limit limit) (ordered (fun t => bool_decide (parent_id t = Some parent) && after_cursor cursor t) d)).

(** The children of [current] in [tree], pushed to the result and to the stack;
    whether the result is full. *)
Fixpoint push_children (max : nat) (current : TaskId) (tree : list Task) (frontier : list TaskId) (found : list Task)
  : list TaskId * list Task * bool :=
  match tree with
  | [] => (frontier, found, false)
  | node :: tree =>
    if bool_decide (parent_id node = Some current) then
      let found := found ++ [node] in
      if (max <=? length found)%nat then (frontier, found, true)
      else push_children max current tree (task_id node :: frontier) found
    else push_children max current tree frontier found
  end.

(** The loop over the stack; [None] when the rounds are used up. *)
Fixpoint walk_subtree (rounds max : nat) (tree : list Task) (frontier : list TaskId) (found : list Task) : option (list Task) :=
  match frontier with
  | [] => Some found
  | current :: frontier =>
    match rounds with
    | O => None
    | S rounds =>
      let '(frontier, found, full) := push_children max current tree frontier found in
      if full then Some found else walk_subtree rounds max tree frontier found
    end
  end.

(** Every round takes a task off the stack and a task is put there when it enters
    the result, which is smaller than [max]: [max] rounds are enough. *)
Definition subtree_of (max : nat) (tree : list Task) (t : Task) : list Task :=
  default [] (walk_subtree (Nat.max 1 max) max tree [task_id t] [t]).

Definition collect_subtree (d : Db) (t : Task) (max : nat) : RPCErrors + list Task :=
  '(tree, _) ← list_tree d (root_id t) None (Z.of_nat (Nat.max 1 max));
  mret (subtree_of max tree t).

Definition list_events (d : Db) (id root : option TaskId) (after : option string) (limit : Z) : RPCErrors + list TaskEvent :=
  let select p := inr (take (clamp_limit limit) (sort_stable (fun x y => string_leb (event_id x) (event_id y))
                    (List.filter (fun e => p e && match after with
                                                  | Some c => negb (string_leb (event_id e) c)
                                                  | None => true
                                                  end) (task_event d)))) in
  match id, root with
  | Some id, None => select (fun e => String.eqb (event_task_id e) id)
  | None, Some root => select (fun e => String.eqb (event_root_id e) root)
  | _, _ => inl ParseRequestError
  end.

Definition all_grants_for_task (d : Db) (id : TaskId) : list TaskAclGrant :=
  sort_stable (fun x y => grant_created_at x <=? grant_created_at y)
    (List.filter (fun g => String.eqb (grant_task_id g) id) (grant_table (tables d))).

Definition list_task_notes (d : Db) (id : TaskId) : list (TaskNote Value) :=
  sort_stable (fun x y => (note_created_at x <? note_created_at y)
                          || ((note_created_at x =? note_created_at y) && (note_id x <=? note_id y)))
    (List.filter (fun n => String.eqb (note_task_id n) id) (task_note d)).

(** ** Schemas *)

(** Without a version, the highest one that is enabled. *)
Definition get_schema (d : Db) (id : string) (version : option Z) : RPCErrors + TaskSchemaDefinition :=
  match (match version with
         | Some v => task_schema d !! (id, v)
         | None =>
           head (sort_stable (fun x y => def_schema_version y <=? def_schema_version x)
             (List.filter (fun s => String.eqb (def_schema_id s) id && enabled s) (map_to_list (task_schema d)).*2))
         end) with
  | Some s => inr s
  | None => fails SchemaNotFound
  end.

Definition opt_value_eqb (x y : option Value) : bool :=
  match x, y with Some x, Some y => value_eqb number_eqb x y | None, None => true | _, _ => false end.
Definition same_definition (x y : TaskSchemaDefinition) : bool :=
  value_eqb number_eqb (input_schema x) (input_schema y) && value_eqb number_eqb (output_schema x) (output_schema y)
  && opt_value_eqb (presentation_schema x) (presentation_schema y)
  && bool_decide (allowed_executor_kinds x = allowed_executor_kinds y)
  && String.eqb (publisher_app_id x) (publisher_app_id y).

(** The insertion; the key of a schema is its identifier and version. *)
Definition insert_schema (def : TaskSchemaDefinition) (now : Z) (d : Db) : Db * (RPCErrors + TaskSchemaDefinition) :=
  let key := (def_schema_id def, def_schema_version def) in
  let stored := mkSchemaDef (def_schema_id def) (def_schema_version def) (input_schema def) (output_schema def)
                  (presentation_schema def) (allowed_executor_kinds def) (user_creatable def) (publisher_app_id def)
                  (enabled def) now in
  match task_schema d !! key with
  | Some _ => (d, inl ReasonError)
  | None => (with_schemas (<[key := stored]> (task_schema d)) d, inr stored)
  end.

Definition set_schema_enabled (id : string) (version : Z) (on : bool) (d : Db) : Db * bool :=
  match task_schema d !! (id, version) with
  | None => (d, false)
  | Some s =>
    let s := mkSchemaDef (def_schema_id s) (def_schema_version s) (input_schema s) (output_schema s) (presentation_schema s)
               (allowed_executor_kinds s) (user_creatable s) (publisher_app_id s) on (def_created_at s) in
    (with_schemas (<[(id, version) := s]> (task_schema d)) d, true)
  end.

Definition list_schemas (d : Db) (user_creatable_only include_disabled : bool) : list TaskSchemaDefinition :=
  sort_stable (fun x y => string_leb (def_schema_id x) (def_schema_id y)
                          && (negb (String.eqb (def_schema_id x) (def_schema_id y))
                              || (def_schema_version x <=? def_schema_version y)))
    (List.filter (fun s => (negb user_creatable_only || user_creatable s) && (include_disabled || enabled s))
       (map_to_list (task_schema d)).*2).

Definition add_task_note (n : TaskNote Value) (d : Db) : Db * TaskNote Value :=
  let n := mkNote (1 + fold_left Z.max (note_id <$> task_note d) 0) (note_task_id n) (note_type n) (note_content n) (note_data n)
             (author_user_id n) (author_app_id n) (note_created_at n) (note_updated_at n) in
  (with_notes (task_note d ++ [n]) d, n).

(** ** Transactions *)

(** A transaction that fails leaves the tables as they were. *)
Definition rolled_back {A} (d : Db) (r : option Db * (RPCErrors + A)) : Db * (RPCErrors + A) :=
  match r with
  | (Some d', inr a) => (d', inr a)
  | (_, inl e) => (d, inl e)
  | (None, inr _) => (d, inl ReasonError)
  end.

(** The identifier of an event is its key, and a task has one event for each revision. *)
Definition insert_event_tx (e : TaskEvent) (d : Db) : option Db :=
  if existsb (fun x => String.eqb (event_id x) (event_id e)
                       || (String.eqb (event_task_id x) (event_task_id e) && (event_revision x =? event_revision e)))
       (task_event d)
  then None else Some (with_events (task_event d ++ [e]) d).

(** [UPDATE task SET .. WHERE task_id = ? AND revision = ?]: the columns of the
    statement, of the row if it has the revision; whether it has. *)
Definition write_columns (t r : Task) : Task :=
  set_revision (task_revision t) (task_updated_at t)
    (set_columns (executor t) (runner_epoch t) (phase t) (wait_reason t) (pending_control t) (control_profile t) (progress t)
       (task_message t) (outcome t) (task_result t) (task_error t) (completed_by t) (task_updated_at t) (completed_at t)
       (archived_at t) r).

Definition write_mutable_columns_tx (t : Task) (expected : Z) (d : Db) : Db * bool :=
  match row d (task_id t) with
  | Some r =>
    if task_revision r =? expected then (with_rows (<[task_id t := write_columns t r]> (task_table (tables d))) d, true)
    else (d, false)
  | None => (d, false)
  end.

(** The end of every transaction on a task: its columns under the revision that
    was read, and the event of the new one. *)
Definition finish_tx (t : Task) (before : Z) (ty : TaskEventType) (actor : option ActorRef) (tick : Tick) (d : Db)
  : option Db * (RPCErrors + MutationOutcome) :=
  let t := set_revision (before + 1) (now_ms tick) t in
  let (d, written) := write_mutable_columns_tx t before d in
  if written then
    let e := mkEvent (new_event_id tick) (task_id t) (root_id t) (task_revision t) ty actor (now_ms tick) in
    (insert_event_tx e d, inr (mkOutcome t e))
  else (None, fails RevisionConflict).

(** [expected_revision] against the task that was read *)
Definition stale (expected : option Z) (t : Task) : bool :=
  match expected with Some e => negb (task_revision t =? e) | None => false end.

(** What a command does to a task: a closure of the code, which reads the clock. *)
Abbreviation Edit := (Z -> Task -> RPCErrors + Task).

Definition mutate_task (id : TaskId) (actor : option ActorRef) (ty : TaskEventType) (expected : option Z) (mutate : Edit)
    (tick : Tick) (d : Db) : Db * (RPCErrors + MutationOutcome) :=
  rolled_back d
    match row d id with
    | None => (None, fails TaskNotFound)
    | Some r =>
      let t := attach_assignees (tables d) r in
      if stale expected t then (None, fails RevisionConflict)
      else match mutate (now_ms tick) t with
           | inl e => (None, inl e)
           | inr t' => finish_tx t' (task_revision t) ty actor tick d
           end
    end.

Record CreateTaskArgs := mkArgs {
  a_name : string;
  a_schema_id : string;
  a_schema_version : Z;
  a_input : Value;
  a_creator : ActorRef;
  a_idempotency_key : string;
  a_origin_ref : option TaskOriginRef;
  a_parent_id : option TaskId;
  a_child_control_policy : ChildControlPolicy;
  a_policy_preset : string;
  a_permission_boundary : bool;
  a_retry_of : option TaskId;
  a_supersedes : option TaskId;
  a_executor : TaskExecutor;
  a_assignees : list string;
  a_phase : TaskPhase;
  a_wait_reason : option TaskWaitReason;
  a_message : option string
}.

(** The key of an assignee is the task and the user. *)
Definition is_assignee_row (id : TaskId) (user : string) (r : assignee_row) : bool :=
  String.eqb (row_task_id r) id && String.eqb (row_user_id r) user.
Fixpoint insert_assignees (id : TaskId) (users : list string) (rows : list assignee_row) : option (list assignee_row) :=
  match users with
  | [] => Some rows
  | user :: users =>
    if existsb (is_assignee_row id user) rows then None
    else insert_assignees id users (rows ++ [{| row_task_id := id; row_user_id := user; row_revoked_at := None |}])
  end.

(** The row a creation inserts. *)
Definition new_row (a : CreateTaskArgs) (id root : TaskId) (now : Z) : Task :=
  {| task_id := id; task_name := a_name a; parent_id := a_parent_id a; root_id := root;
     child_control_policy := a_child_control_policy a; schema_id := a_schema_id a; schema_version := a_schema_version a;
     input := a_input a; input_digest := digest (a_input a); creator := a_creator a; idempotency_key := a_idempotency_key a;
     origin_ref := a_origin_ref a; retry_of := a_retry_of a; supersedes := a_supersedes a; executor := a_executor a;
     runner_epoch := match a_executor a with App _ _ _ => 1 | _ => 0 end; assignees := None; phase := a_phase a;
     wait_reason := a_wait_reason a; pending_control := None; control_profile := baseline now; progress := None;
     task_message := a_message a; outcome := None; task_result := None; task_error := None; completed_by := None;
     policy_preset := a_policy_preset a; permission_boundary := a_permission_boundary a; task_revision := 1;
     data_scope := None; created_at := now; task_updated_at := now; completed_at := None; archived_at := None |}.

(** The unique keys of [task] *)
Definition same_creation (x y : Task) : bool :=
  String.eqb (user_id (creator x)) (user_id (creator y)) && String.eqb (app_id (creator x)) (app_id (creator y))
  && String.eqb (idempotency_key x) (idempotency_key y).
Definition same_origin (x y : Task) : bool :=
  match origin_ref x, origin_ref y with
  | Some o, Some p => String.eqb (origin_kind o) (origin_kind p) && String.eqb (origin_id o) (origin_id p)
  | _, _ => false
  end.
Definition violates (t : Task) (d : Db) : bool :=
  existsb (fun kx => let x := kx.2 in String.eqb (task_id x) (task_id t) || same_creation x t || same_origin x t)
    (map_to_list (task_table (tables d))).

(** The transaction of [create_task], under the parent's root; [None] is a violated key of [task]. *)
Definition insert_task (a : CreateTaskArgs) (parent_root : option TaskId) (tick : Tick) (d : Db)
  : Db * option (RPCErrors + (TaskId * TaskEvent)) :=
  let id := "t-" +:+ new_uuid tick in
  let root := default id parent_root in
  let t := new_row a id root (now_ms tick) in
  if violates t d then (d, None)
  else
    let e := mkEvent (new_event_id tick) id root 1 TaskCreated (Some (a_creator a)) (now_ms tick) in
    let (d, r) := rolled_back d
      match insert_assignees id (a_assignees a) (assignee_table (tables d)) with
      | None => (None, inl ReasonError)
      | Some rows => (insert_event_tx e (with_assignees rows (with_rows (<[id := t]> (task_table (tables d))) d)), inr (id, e))
      end in
    (d, Some r).

Definition revoke_assignee (id : TaskId) (user : string) (now : Z) (r : assignee_row) : assignee_row :=
  if is_assignee_row id user r && live row_revoked_at r
  then {| row_task_id := row_task_id r; row_user_id := row_user_id r; row_revoked_at := Some now |} else r.
Definition grant_assignee (id : TaskId) (rows : list assignee_row) (user : string) : list assignee_row :=
  if existsb (is_assignee_row id user) rows
  then (fun r => if is_assignee_row id user r
                 then {| row_task_id := row_task_id r; row_user_id := row_user_id r; row_revoked_at := None |} else r) <$> rows
  else rows ++ [{| row_task_id := id; row_user_id := user; row_revoked_at := None |}].

(** [current.retain(..)] for each user removed, [current.push(..)] for each one added *)
Definition delta_assignees (add remove current : list string) : list string :=
  fold_left (fun current user => if existsb (String.eqb user) current then current else current ++ [user]) add
    (List.filter (fun u => negb (existsb (String.eqb u) remove)) current).

Definition update_assignees (id : TaskId) (actor : ActorRef) (add remove : list string) (expected : Z) (tick : Tick) (d : Db)
  : Db * (RPCErrors + MutationOutcome) :=
  rolled_back d
    match row d id with
    | None => (None, fails TaskNotFound)
    | Some t =>
      if negb (bool_decide (executor_kind (executor t) = KHumanSet)) then (None, fails InvalidPhase)
      else if is_terminal (phase t) then (None, fails AlreadyCompleted)
      else if negb (task_revision t =? expected) then (None, fails RevisionConflict)
      else
        let current := delta_assignees add remove (active_assignees (tables d) id) in
        if bool_decide (current = []) then (None, fails InvalidPhase)
        else
          let rows := fold_left (fun rows user => revoke_assignee id user (now_ms tick) <$> rows) remove (assignee_table (tables d)) in
          let rows := fold_left (grant_assignee id) add rows in
          finish_tx (set_assignees t (Some current)) expected AssigneesChanged (Some actor) tick (with_assignees rows d)
    end.

Record TaskAclGrantSpec := mkGrantSpec {
  g_subject : TaskGrantSubject;
  g_actions : list TaskAction;
  g_scope : TaskGrantScope;
  g_data_scope : TaskDataScope
}.

(** The outcome of the two transactions on grants has the assignees. *)
Definition with_assignees_of (r : Db * (RPCErrors + MutationOutcome)) : Db * (RPCErrors + MutationOutcome) :=
  match r with
  | (d, inr o) => (d, inr (mkOutcome (attach_assignees (tables d) (out_task o)) (out_event o)))
  | _ => r
  end.

Definition insert_grant (id : TaskId) (actor : ActorRef) (spec : TaskAclGrantSpec) (expected : Z) (tick : Tick) (d : Db)
  : Db * (RPCErrors + MutationOutcome) :=
  let g := {| grant_id := "g-" +:+ new_uuid tick; grant_task_id := id; subject := g_subject spec; actions := g_actions spec;
              grant_scope := g_scope spec; grant_data_scope := g_data_scope spec; grant_created_by := actor;
              grant_created_at := now_ms tick; revoked_at := None |} in
  with_assignees_of (rolled_back d
    match row d id with
    | None => (None, fails TaskNotFound)
    | Some t =>
      if negb (task_revision t =? expected) then (None, fails RevisionConflict)
      else if existsb (fun x => String.eqb (grant_id x) (grant_id g)) (grant_table (tables d)) then (None, inl ReasonError)
      else finish_tx t expected AccessGranted (Some actor) tick (with_grants (grant_table (tables d) ++ [g]) d)
    end).

Definition is_active_grant (id : TaskId) (gid : string) (g : TaskAclGrant) : bool :=
  String.eqb (grant_id g) gid && String.eqb (grant_task_id g) id && live revoked_at g.
Definition revoke_one (id : TaskId) (gid : string) (now : Z) (g : TaskAclGrant) : TaskAclGrant :=
  if is_active_grant id gid g then
    {| grant_id := grant_id g; grant_task_id := grant_task_id g; subject := subject g; actions := actions g;
       grant_scope := grant_scope g; grant_data_scope := grant_data_scope g; grant_created_by := grant_created_by g;
       grant_created_at := grant_created_at g; revoked_at := Some now |}
  else g.

Definition revoke_grant (id : TaskId) (actor : ActorRef) (gid : string) (expected : Z) (tick : Tick) (d : Db)
  : Db * (RPCErrors + MutationOutcome) :=
  with_assignees_of (rolled_back d
    match row d id with
    | None => (None, fails TaskNotFound)
    | Some t =>
      if negb (task_revision t =? expected) then (None, fails RevisionConflict)
      else if negb (existsb (is_active_grant id gid) (grant_table (tables d))) then (None, fails TaskNotFound)
      else finish_tx t expected AccessRevoked (Some actor) tick
             (with_grants (revoke_one id gid (now_ms tick) <$> grant_table (tables d)) d)
    end).
End tables.
