(* ===== verification/TaskService.v ===== *)
(** The commands of the task manager ([kernel/task_manager/src/server.rs]) and
    the validator of task schemas ([json_schema.rs]).

    A handler is a program ([Prog]): a tree of operations on the store, each of
    which is one step, and of publications.  [step] interleaves the programs of any
    number of requests.  The permission of a caller on a task is computed in one
    step, and so is the subtree a recursive control request works on. *)
From Stdlib Require Import ZArith Lia Ascii.
From stdpp Require Import base tactics numbers gmap strings sorting list relations.
From S2P Require Import Prelude RustString WfJson WfSchema TaskTypes TaskAcl TaskTables.

(** ** Schemas *)

Section schema.
Context {Number : Type} (number_eqb : Number -> Number -> bool) (is_integer : Number -> bool).
Abbreviation Value := (Value Number).

Definition type_matches (type_name : string) (v : Value) : bool :=
  if String.eqb type_name "object" then match v with VObject _ => true | _ => false end
  else if String.eqb type_name "array" then match v with VArray _ => true | _ => false end
  else if String.eqb type_name "string" then match v with VString _ => true | _ => false end
  else if String.eqb type_name "number" then match v with VNumber _ => true | _ => false end
  else if String.eqb type_name "integer" then match v with VNumber n => is_integer n | _ => false end
  else if String.eqb type_name "boolean" then match v with VBool _ => true | _ => false end
  else if String.eqb type_name "null" then match v with VNull => true | _ => false end
  else true.

Definition enum_ok (m : list (string * Value)) (v : Value) : bool :=
  match map_get "enum" m ≫= as_array with Some l => existsb (fun a => value_eqb number_eqb a v) l | None => true end.

Definition type_ok (m : list (string * Value)) (v : Value) : bool :=
  match map_get "type" m with
  | Some spec =>
    let allowed := match spec with VString s => [s] | VArray l => omap as_str l | _ => [] end in
    bool_decide (allowed = []) || existsb (fun t => type_matches t v) allowed
  | None => true
  end.

Definition has_key (k : string) (m : list (string * Value)) : bool := bool_decide (is_Some (map_get k m)).

Definition required_ok (m vm : list (string * Value)) : bool :=
  match map_get "required" m ≫= as_array with Some l => forallb (fun k => has_key k vm) (omap as_str l) | None => true end.

Definition additional_ok (m vm : list (string * Value)) : bool :=
  match map_get "additionalProperties" m with
  | Some (VBool false) =>
    let properties := map_get "properties" m ≫= as_object in
    forallb (fun k => match properties with Some p => has_key k p | None => false end) vm.*1
  | _ => true
  end.

(** Whether there is no violation; the keys of an object are all different. *)
Fixpoint validate_at (schema value : Value) {struct schema} : bool :=
  match schema with
  | VBool b => b
  | VObject m =>
    enum_ok m value && type_ok m value
    && match value with VObject vm => required_ok m vm && additional_ok m vm | _ => true end
    && (fix entries es :=
          match es with
          | [] => true
          | (k, s) :: es =>
            (if String.eqb k "properties" then
               match value, s with
               | VObject vm, VObject ps =>
                 (fix props ps := match ps with
                                  | [] => true
                                  | (key, p) :: ps =>
                                    match map_get key vm with Some v => validate_at p v | None => true end && props ps
                                  end) ps
               | _, _ => true
               end
             else if String.eqb k "items" then
               match value with VArray items => forallb (validate_at s) items | _ => true end
             else true) && entries es
          end) m
  | _ => true
  end.

Definition validate_json_schema (schema value : Value) : bool := validate_at schema value.
End schema.

(** ** Callers *)

Record RequestContext := mkCtx { ctx_user_id : string; ctx_app_id : string; zone_trusted : bool; ctx_sudo : bool }.

Definition principal (c : RequestContext) : Principal :=
  {| p_user_id := ctx_user_id c; p_app_id := ctx_app_id c; roles := if zone_trusted c then ["zone-trusted"] else [];
     sudo := ctx_sudo c |}.
Definition ctx_actor (c : RequestContext) : ActorRef :=
  {| user_id := ctx_user_id c; app_id := ctx_app_id c; app_instance_id := None |}.

(** What is used of a session token: its issuer, the kind of principal verify-hub
    kept, its subjects and whether it is a sudo session. *)
Record RPCSessionToken := mkToken {
  iss : option string;
  principal_kind : option string;
  get_subs : RPCErrors + (string * string);
  token_sudo : bool
}.

Definition token_is_zone_trusted (t : RPCSessionToken) : bool :=
  if negb (bool_decide (iss t = Some "verify-hub")) then true
  else bool_decide (principal_kind t = Some "device") || bool_decide (principal_kind t = Some "service").

Definition blank (s : string) : bool := String.eqb (trim s) "".

(** The verification of a token is a parameter. *)
Definition authenticate (verify : string -> RPCErrors + RPCSessionToken) (token : option string) : RPCErrors + RequestContext :=
  match token with
  | None => inl NoPermission
  | Some token =>
    if blank token then inl NoPermission
    else
      verified ← verify token;
      '(user, app) ← get_subs verified;
      if blank user then inl InvalidToken
      else if blank app then inl InvalidToken
      else mret (mkCtx user app (token_is_zone_trusted verified) (token_sudo verified))
  end.

(** ** Programs *)

Section service.
Context {Number : Type} (number_eqb : Number -> Number -> bool) (is_integer : Number -> bool).
Context (digest : Value Number -> string).
Context (enforce : string -> string -> string -> string -> option string -> bool) (default_sudo_userid : string -> string).
Abbreviation Value := (Value Number).
Abbreviation Task := (Task Value).
Abbreviation Db := (Db (Number := Number)).
Abbreviation MutationOutcome := (MutationOutcome (Number := Number)).
Abbreviation TaskSchemaDefinition := (TaskSchemaDefinition Value).
Abbreviation CreateTaskArgs := (CreateTaskArgs (Number := Number)).

Inductive op :=
| OpNow
| OpGetTask (id : TaskId)
| OpActiveAssignees (id : TaskId)
| OpPermission (p : Principal) (t : Task)
| OpGetSchema (id : string) (version : option Z)
| OpSchemaExists (id : string) (version : Z)
| OpInsertSchema (def : TaskSchemaDefinition)
| OpSetSchemaEnabled (id : string) (version : Z) (on : bool)
| OpListSchemas (user_creatable_only include_disabled : bool)
| OpFindByIdempotency (user app key : string)
| OpFindByOrigin (kind id : string)
| OpInsertTask (a : CreateTaskArgs) (parent_root : option TaskId)
| OpMutate (id : TaskId) (actor : option ActorRef) (ty : TaskEventType) (expected : option Z) (f : Z -> Task -> RPCErrors + Task)
| OpUpdateAssignees (id : TaskId) (actor : ActorRef) (add remove : list string) (expected : Z)
| OpInsertGrant (id : TaskId) (actor : ActorRef) (spec : TaskAclGrantSpec) (expected : Z)
| OpRevokeGrant (id : TaskId) (actor : ActorRef) (gid : string) (expected : Z)
| OpListTasks (req : ListTasksReq)
| OpListTree (root : TaskId) (cursor : option string) (limit : Z)
| OpListChildren (parent : TaskId) (cursor : option string) (limit : Z)
| OpCollectSubtree (t : Task) (max : nat)
| OpListEvents (id root : option TaskId) (after : option string) (limit : Z)
| OpAllGrants (id : TaskId)
| OpAddNote (n : TaskNote Value)
| OpListNotes (id : TaskId)
| OpPublish (o : MutationOutcome).

Definition reply (o : op) : Type :=
  match o with
  | OpNow => Z
  | OpGetTask _ | OpFindByIdempotency _ _ _ | OpFindByOrigin _ _ => option Task
  | OpActiveAssignees _ => list string
  | OpPermission _ _ => result TaskPermission
  | OpGetSchema _ _ | OpInsertSchema _ => RPCErrors + TaskSchemaDefinition
  | OpSchemaExists _ _ | OpSetSchemaEnabled _ _ _ => bool
  | OpListSchemas _ _ => list TaskSchemaDefinition
  | OpInsertTask _ _ => option (RPCErrors + (TaskId * TaskEvent))
  | OpMutate _ _ _ _ _ | OpUpdateAssignees _ _ _ _ _ | OpInsertGrant _ _ _ _ | OpRevokeGrant _ _ _ _ => RPCErrors + MutationOutcome
  | OpListTasks _ | OpListTree _ _ _ | OpListChildren _ _ _ => RPCErrors + (list Task * option string)
  | OpCollectSubtree _ _ => RPCErrors + list Task
  | OpListEvents _ _ _ _ => RPCErrors + list TaskEvent
  | OpAllGrants _ => list TaskAclGrant
  | OpAddNote _ => TaskNote Value
  | OpListNotes _ => list (TaskNote Value)
  | OpPublish _ => ()
  end%type.

(** The answers of the role check do not change during a request: the memo of the
    principal starts empty for each permission. *)
Definition exec (tick : Tick) (o : op) (d : Db) : Db * reply o :=
  match o return Db * reply o with
  | OpNow => (d, now_ms tick)
  | OpGetTask id => (d, get_task (tables d) id)
  | OpActiveAssignees id => (d, active_assignees (tables d) id)
  | OpPermission p t => (d, (compute_permission enforce default_sudo_userid (tables d) ∅ p t).2)
  | OpGetSchema id version => (d, get_schema d id version)
  | OpSchemaExists id version => (d, bool_decide (is_Some (task_schema d !! (id, version))))
  | OpInsertSchema def => insert_schema def (now_ms tick) d
  | OpSetSchemaEnabled id version on => set_schema_enabled id version on d
  | OpListSchemas u i => (d, list_schemas d u i)
  | OpFindByIdempotency user app key => (d, find_by_idempotency d user app key)
  | OpFindByOrigin kind id => (d, find_by_origin d kind id)
  | OpInsertTask a parent_root => insert_task digest a parent_root tick d
  | OpMutate id actor ty expected f => mutate_task id actor ty expected f tick d
  | OpUpdateAssignees id actor add remove expected => update_assignees id actor add remove expected tick d
  | OpInsertGrant id actor spec expected => insert_grant id actor spec expected tick d
  | OpRevokeGrant id actor gid expected => revoke_grant id actor gid expected tick d
  | OpListTasks req => (d, list_tasks d req)
  | OpListTree root cursor limit => (d, list_tree d root cursor limit)
  | OpListChildren parent cursor limit => (d, list_children d parent cursor limit)
  | OpCollectSubtree t max => (d, collect_subtree d t max)
  | OpListEvents id root after limit => (d, list_events d id root after limit)
  | OpAllGrants id => (d, all_grants_for_task d id)
  | OpAddNote n => add_task_note n d
  | OpListNotes id => (d, list_task_notes d id)
  | OpPublish _ => (d, ())
  end.

Inductive Prog {A : Type} :=
| Ret (a : A)
| Op (o : op) (k : reply o -> Prog).
Arguments Prog A : clear implicits.

Fixpoint prog_bind {A B} (f : A -> Prog B) (p : Prog A) : Prog B :=
  match p with
  | Ret a => f a
  | Op o k => Op o (fun r => prog_bind f (k r))
  end.
#[export] Instance prog_ret : MRet Prog := fun _ => Ret.
#[export] Instance prog_mbind : MBind Prog := fun _ _ => prog_bind.

Definition do (o : op) : Prog (reply o) := Op o Ret.

(** A call that may fail, and [?] *)
Abbreviation Call A := (Prog (RPCErrors + A)).
Definition try {A B} (p : Call A) (k : A -> Call B) : Call B :=
  r ← p; match r with inl e => mret (inl e) | inr a => k a end.
Definition ok {A} (a : A) : Call A := mret (inr a).
Definition answer (o : op) : Call (reply o) := a ← do o; ok a.
Definition refuse {A} (e : RPCErrors) : Call A := mret (inl e).
Definition refused {A} (code : TaskErrCode) : Call A := refuse (TaskMgrError code).

(** ** The parts of the handlers *)

Definition require_zone_trusted (c : RequestContext) : RPCErrors + () :=
  if zone_trusted c then inr () else fails PermissionDenied.

Definition publish_outcome (o : MutationOutcome) : Call Task := _ ← do (OpPublish o); ok (out_task o).

Definition load_task (id : TaskId) : Call Task :=
  t ← do (OpGetTask id); mret (match t with Some t => inr t | None => fails TaskNotFound end).

Definition permission (c : RequestContext) (t : Task) : Call TaskPermission :=
  r ← do (OpPermission (principal c) t);
  mret (match r with Ok p => inr p | _ => inl ReasonError end).

Definition load_visible (c : RequestContext) (id : TaskId) : Call (Task * TaskPermission) :=
  try (load_task id) (fun t =>
  try (permission c t) (fun p =>
  if visible p then ok (t, p) else refused TaskNotFound)).

Definition require_action (c : RequestContext) (id : TaskId) (action : TaskAction) : Call (Task * TaskPermission) :=
  try (load_visible c id) (fun '(t, p) =>
  if allows p action then ok (t, p) else refused PermissionDenied).

Definition resolve_task_schema (id : string) (version : option Z) (doc : Value) (kind : TaskExecutorKind) : Call TaskSchemaDefinition :=
  try (do (OpGetSchema id version)) (fun s =>
  if negb (enabled s) then refused SchemaNotFound
  else if negb (existsb (fun k => bool_decide (k = kind)) (allowed_executor_kinds s)) then refused InputSchemaMismatch
  else if negb (validate_json_schema number_eqb is_integer (input_schema s) doc) then refused InputSchemaMismatch
  else ok s).

Record RunnerWriteEnvelope := mkEnvelope {
  env_task_id : TaskId;
  env_app_instance_id : option string;
  env_runner_epoch : Z;
  env_expected_revision : Z
}.

Definition verify_app_runner_write (c : RequestContext) (t : Task) (env : RunnerWriteEnvelope) : RPCErrors + () :=
  match executor t with
  | App _ app instance =>
    if negb (String.eqb app (ctx_app_id c)) then fails PermissionDenied
    else if match instance with Some i => negb (bool_decide (env_app_instance_id env = Some i)) | None => false end
    then fails StaleRunnerEpoch
    else if negb (env_runner_epoch env =? runner_epoch t) then fails StaleRunnerEpoch
    else if is_terminal (phase t) then fails AlreadyCompleted
    else inr ()
  | _ => fails InvalidPhase
  end.

(** [self.store.mutate_task(..).await?], published *)
Definition mutate_and_publish (id : TaskId) (actor : ActorRef) (ty : TaskEventType) (expected : option Z)
    (f : Z -> Task -> RPCErrors + Task) : Call Task :=
  try (do (OpMutate id (Some actor) ty expected f)) publish_outcome.

(** ** Creation *)

(** The event of a creation that was made before *)
Definition replay_created (existing : Task) (a : CreateTaskArgs) : RPCErrors + MutationOutcome :=
  if String.eqb (schema_id existing) (a_schema_id a) && (schema_version existing =? a_schema_version a)
     && String.eqb (input_digest existing) (digest (a_input a)) && bool_decide (parent_id existing = a_parent_id a)
     && bool_decide (executor_kind (executor existing) = executor_kind (a_executor a))
  then inr (mkOutcome existing (mkEvent "" (task_id existing) (root_id existing) (task_revision existing) TaskCreated
                                  (Some (a_creator a)) (created_at existing)))
  else fails IdempotencyConflict.

(** What [create_task] does when the insertion violates a key. *)
Definition created_by_another (a : CreateTaskArgs) : Call MutationOutcome :=
  found ← do (OpFindByIdempotency (user_id (a_creator a)) (app_id (a_creator a)) (a_idempotency_key a));
  match found with
  | Some existing => mret (replay_created existing a)
  | None =>
    match a_origin_ref a with
    | Some o =>
      found ← do (OpFindByOrigin (origin_kind o) (origin_id o));
      mret (match found with Some existing => replay_created existing a | None => inl ReasonError end)
    | None => refuse ReasonError
    end
  end.

Definition parent_root (a : CreateTaskArgs) : Call (option TaskId) :=
  match a_parent_id a with
  | None => ok None
  | Some parent => try (load_task parent) (fun p => ok (Some (root_id p)))
  end.

Definition create_task (a : CreateTaskArgs) : Call MutationOutcome :=
  found ← do (OpFindByIdempotency (user_id (a_creator a)) (app_id (a_creator a)) (a_idempotency_key a));
  match found with
  | Some existing => mret (replay_created existing a)
  | None =>
    try (parent_root a) (fun root =>
    inserted ← do (OpInsertTask a root);
    match inserted with
    | None => created_by_another a
    | Some (inl e) => refuse e
    | Some (inr (id, event)) =>
      t ← do (OpGetTask id);
      mret (match t with Some t => inr (mkOutcome t event) | None => inl ReasonError end)
    end)
  end.

Inductive CreateTaskExecutor :=
| SelfApp (app_instance_id : option string)
| ByHumans (assignees : list string).

Record CreateTaskReq := mkCreate {
  r_name : string;
  r_schema_id : string;
  r_schema_version : option Z;
  r_input : Value;
  r_executor : CreateTaskExecutor;
  r_parent_id : option TaskId;
  r_child_control_policy : option ChildControlPolicy;
  r_policy_preset : option string;
  r_permission_boundary : bool;
  r_idempotency_key : string;
  r_retry_of : option TaskId;
  r_supersedes : option TaskId;
  r_message : option string
}.

Definition default_preset : string := "collaborative-tree/v1".
Definition trimmed (l : list string) : list string := List.filter (fun s => negb (String.eqb s "")) (trim <$> l).

(** Executor, assignees, phase and reason to wait of a new task *)
Definition initial_state (c : RequestContext) (e : CreateTaskExecutor)
  : RPCErrors + (TaskExecutor * list string * TaskPhase * option TaskWaitReason) :=
  match e with
  | SelfApp instance => inr (App None (ctx_app_id c) instance, [], Accepted, None)
  | ByHumans l =>
    if bool_decide (trimmed l = []) then inl ParseRequestError
    else inr (HumanSet, trimmed l, Waiting, Some (new_wait_reason HumanInput))
  end.

Definition may_create_below (c : RequestContext) (parent : option TaskId) : Call () :=
  match parent with
  | None => ok ()
  | Some id => try (require_action c id CreateChild) (fun _ => ok ())
  end.

Definition handle_create_task (c : RequestContext) (req : CreateTaskReq) : Call Task :=
  if blank (r_name req) then refuse ParseRequestError
  else if blank (r_idempotency_key req) then refuse ParseRequestError
  else try (mret (initial_state c (r_executor req))) (fun '(ex, assignees, ph, wait) =>
       try (resolve_task_schema (r_schema_id req) (r_schema_version req) (r_input req) (executor_kind ex)) (fun schema =>
       try (may_create_below c (r_parent_id req)) (fun _ =>
       let creator := {| user_id := ctx_user_id c; app_id := ctx_app_id c;
                         app_instance_id := match r_executor req with SelfApp i => i | _ => None end |} in
       try (create_task (mkArgs (r_name req) (def_schema_id schema) (def_schema_version schema) (r_input req) creator
              (r_idempotency_key req) None (r_parent_id req) (default default_child_policy (r_child_control_policy req))
              (default default_preset (r_policy_preset req)) (r_permission_boundary req) (r_retry_of req) (r_supersedes req)
              ex assignees ph wait (r_message req)))
         publish_outcome))).

Record CreateDelegatedTaskReq := mkDelegated {
  dg_name : string;
  dg_schema_id : string;
  dg_schema_version : option Z;
  dg_input : Value;
  dg_creator : ActorRef;
  dg_runner_app_instance_id : option string;
  dg_parent_id : option TaskId;
  dg_child_control_policy : option ChildControlPolicy;
  dg_policy_preset : option string;
  dg_permission_boundary : bool;
  dg_idempotency_key : string;
  dg_retry_of : option TaskId;
  dg_supersedes : option TaskId;
  dg_message : option string
}.

Definition handle_create_delegated_task (c : RequestContext) (req : CreateDelegatedTaskReq) : Call Task :=
  try (mret (require_zone_trusted c)) (fun _ =>
  if blank (dg_name req) || blank (dg_idempotency_key req) then refuse ParseRequestError
  else if blank (user_id (dg_creator req)) || blank (app_id (dg_creator req)) then refuse ParseRequestError
  else try (resolve_task_schema (dg_schema_id req) (dg_schema_version req) (dg_input req) KApp) (fun schema =>
       try (create_task (mkArgs (dg_name req) (def_schema_id schema) (def_schema_version schema) (dg_input req) (dg_creator req)
              (dg_idempotency_key req) None (dg_parent_id req) (default default_child_policy (dg_child_control_policy req))
              (default default_preset (dg_policy_preset req)) (dg_permission_boundary req) (dg_retry_of req) (dg_supersedes req)
              (App None (ctx_app_id c) (dg_runner_app_instance_id req)) [] Accepted None (dg_message req)))
         publish_outcome)).

Record CreatePromisedTaskReq := mkPromised {
  pr_name : string;
  pr_schema_id : string;
  pr_schema_version : option Z;
  pr_input : Value;
  pr_creator : ActorRef;
  pr_expected_input_digest : option string;
  pr_origin_ref : option TaskOriginRef;
  pr_parent_id : option TaskId;
  pr_child_control_policy : option ChildControlPolicy;
  pr_policy_preset : option string;
  pr_permission_boundary : bool;
  pr_idempotency_key : string;
  pr_wait_reason : option TaskWaitReason;
  pr_message : option string
}.

Definition trusted_create_promised_task (req : CreatePromisedTaskReq) : Call Task :=
  if blank (pr_name req) || blank (pr_idempotency_key req) then refuse ParseRequestError
  else if blank (user_id (pr_creator req)) || blank (app_id (pr_creator req)) then refuse ParseRequestError
  else if match pr_expected_input_digest req with Some e => negb (String.eqb (digest (pr_input req)) e) | None => false end
  then refused InputSchemaMismatch
  else try (resolve_task_schema (pr_schema_id req) (pr_schema_version req) (pr_input req) KUnbound) (fun schema =>
       let wait := match pr_wait_reason req with Some r => Some r | None => Some (new_wait_reason Dispatch) end in
       try (create_task (mkArgs (pr_name req) (def_schema_id schema) (def_schema_version schema) (pr_input req) (pr_creator req)
              (pr_idempotency_key req) (pr_origin_ref req) (pr_parent_id req)
              (default default_child_policy (pr_child_control_policy req)) (default default_preset (pr_policy_preset req))
              (pr_permission_boundary req) None None Unbound [] Promised wait (pr_message req)))
         publish_outcome).

(** ** Control *)

(** What an end of a task writes *)
Definition canceled (by_ : ActorRef) (now : Z) (t : Task) : Task :=
  set_ended Canceled (task_result t) (task_error t) by_ now t.

Definition cancel_direct_edit (by_ : ActorRef) (now : Z) (t : Task) : RPCErrors + Task :=
  if is_terminal (phase t) then fails AlreadyCompleted
  else if bool_decide (is_Some (task_result t)) then fails AlreadyCompleted
  else inr (canceled by_ now (set_pending None t)).

Definition cancel_direct (c : RequestContext) (t : Task) (expected : option Z) : Call MutationOutcome :=
  do (OpMutate (task_id t) (Some (ctx_actor c)) TaskCanceled expected (cancel_direct_edit (ctx_actor c))).

(** A cancellation that needs nobody's acknowledgement *)
Definition closes_directly (t : Task) (action : TaskControlAction) : bool :=
  bool_decide (action = Cancel)
  && match executor t with HumanSet => true | Unbound => bool_decide (origin_ref t = None) | App _ _ _ => false end.

Definition control_available (t : Task) (action : TaskControlAction) : RPCErrors + () :=
  let available a := match a with Available => inr () | Unavailable _ => fails ControlNotAvailable end in
  match action with
  | Pause => available (pause (control_profile t))
  | Resume =>
    if bool_decide (phase t = Paused) then available (resume (control_profile t)) else fails InvalidPhase
  | Cancel =>
    match cancel (control_profile t), executor t with
    | CancelUnavailable _, App _ _ _ => fails ControlNotAvailable
    | _, _ => inr ()
    end
  end.

(** The event of a request next to one that is pending *)
Definition control_event (t : Task) (action : TaskControlAction) : RPCErrors + TaskEventType :=
  match pending_control t with
  | None => inr ControlRequested
  | Some p =>
    if bool_decide (control_action p = Cancel) then fails ControlAlreadyPending
    else if bool_decide (action = Cancel) then inr ControlSuperseded
    else fails ControlAlreadyPending
  end.

Definition request_edit (request : TaskControlRequest) (now : Z) (t : Task) : RPCErrors + Task :=
  if is_terminal (phase t) then fails AlreadyCompleted else inr (set_pending (Some request) t).

Definition request_control_single (c : RequestContext) (t : Task) (action : TaskControlAction) (request_id : string)
    (expected : option Z) : Call MutationOutcome :=
  if match pending_control t with Some p => String.eqb (control_request_id p) request_id | None => false end then
    now ← do OpNow;
    ok (mkOutcome t (mkEvent "" (task_id t) (root_id t) (task_revision t) ControlRequested (Some (ctx_actor c)) now))
  else if is_terminal (phase t) then refused AlreadyCompleted
  else if closes_directly t action then cancel_direct c t expected
  else try (mret (control_available t action)) (fun _ =>
       try (mret (control_event t action)) (fun ty =>
       now ← do OpNow;
       do (OpMutate (task_id t) (Some (ctx_actor c)) ty expected
             (request_edit {| control_request_id := request_id; control_action := action; requested_by := ctx_actor c;
                              requested_at := now |})))).

Record RequestControlReq := mkControl {
  rc_task_id : TaskId;
  rc_action : TaskControlAction;
  rc_request_id : string;
  rc_recursive : bool;
  rc_expected_revision : option Z
}.

Record BatchControlResult := mkBatch {
  requested : list TaskId;
  skipped_by_policy : list TaskId;
  denied : list TaskId;
  already_terminal : list TaskId
}.

Inductive Disposition := DRequested | DSkipped | DDenied | DTerminal.

Definition dispose (d : Disposition) (id : TaskId) (r : BatchControlResult) : BatchControlResult :=
  match d with
  | DRequested => mkBatch (requested r ++ [id]) (skipped_by_policy r) (denied r) (already_terminal r)
  | DSkipped => mkBatch (requested r) (skipped_by_policy r ++ [id]) (denied r) (already_terminal r)
  | DDenied => mkBatch (requested r) (skipped_by_policy r) (denied r ++ [id]) (already_terminal r)
  | DTerminal => mkBatch (requested r) (skipped_by_policy r) (denied r) (already_terminal r ++ [id])
  end.

Definition MAX_RECURSIVE_CONTROL_NODES : nat := Z.to_nat 512.

(** What becomes of one task of the tree; [root] is the one of the request. *)
Definition control_node (c : RequestContext) (req : RequestControlReq) (root node : Task) : Call Disposition :=
  let is_root := String.eqb (task_id node) (task_id root) in
  if negb is_root && negb (follows (child_control_policy node) (rc_action req)) then ok DSkipped
  else if is_terminal (phase node) then ok DTerminal
  else try (permission c node) (fun p =>
       if negb (allows p Control) then ok DDenied
       else
         let request_id := if is_root then rc_request_id req else rc_request_id req +:+ ":" +:+ task_id node in
         result ← request_control_single c node (rc_action req) request_id None;
         match result with
         | inr o => try (publish_outcome o) (fun _ => ok DRequested)
         | inl e =>
           match task_mgr_error_code e with
           | Some AlreadyCompleted => ok DTerminal
           | Some ControlNotAvailable | Some ControlAlreadyPending | Some InvalidPhase => ok DSkipped
           | Some PermissionDenied => ok DDenied
           | _ => refuse e
           end
         end).

Fixpoint control_all (c : RequestContext) (req : RequestControlReq) (root : Task) (nodes : list Task) (r : BatchControlResult)
  : Call BatchControlResult :=
  match nodes with
  | [] => ok r
  | node :: nodes => try (control_node c req root node) (fun d => control_all c req root nodes (dispose d (task_id node) r))
  end.

Inductive RequestControlResult := ControlTask (t : Task) | ControlBatch (r : BatchControlResult).

Definition handle_request_control (c : RequestContext) (req : RequestControlReq) : Call RequestControlResult :=
  if blank (rc_request_id req) then refuse ParseRequestError
  else try (require_action c (rc_task_id req) Control) (fun '(t, _) =>
       if negb (rc_recursive req) then
         try (request_control_single c t (rc_action req) (rc_request_id req) (rc_expected_revision req)) (fun o =>
         try (publish_outcome o) (fun t => ok (ControlTask t)))
       else
         try (do (OpCollectSubtree t MAX_RECURSIVE_CONTROL_NODES)) (fun nodes =>
         try (control_all c req t nodes (mkBatch [] [] [] [])) (fun r => ok (ControlBatch r)))).

(** A control surface of the zone asks for [controller], whose permission counts. *)
Definition handle_request_delegated_control (service controller : RequestContext) (id : TaskId) (action : TaskControlAction)
    (request_id : string) (expected : option Z) : Call RequestControlResult :=
  try (mret (require_zone_trusted service)) (fun _ =>
  if blank request_id || blank (ctx_user_id controller) || blank (ctx_app_id controller) then refuse ParseRequestError
  else
    let controller := mkCtx (ctx_user_id controller) (ctx_app_id controller) false false in
    try (require_action controller id Control) (fun '(t, _) =>
    try (request_control_single controller t action request_id expected) (fun o =>
    try (publish_outcome o) (fun t => ok (ControlTask t))))).

(** ** The promise and the binding of its executor *)

Definition promise_wait_edit (reason : TaskWaitReason) (_ : Z) (t : Task) : RPCErrors + Task :=
  if bool_decide (phase t = Promised) then inr (set_phase (phase t) (Some reason) t) else fails InvalidPhase.

Definition trusted_set_promise_wait (actor : ActorRef) (id : TaskId) (reason : TaskWaitReason) (expected : Z) : Call Task :=
  mutate_and_publish id actor WaitReasonChanged (Some expected) (promise_wait_edit reason).

(** A task that waits for its executor, or is between two of its target *)
Definition may_bind (target : option string) (t : Task) : RPCErrors + () :=
  match executor t with
  | Unbound => if bool_decide (phase t = Promised) then inr () else fails InvalidPhase
  | App bound _ instance =>
    if bool_decide (is_Some instance) then fails InvalidPhase
    else if negb (bool_decide (bound = target)) then fails InvalidPhase
    else inr ()
  | HumanSet => fails InvalidPhase
  end.

Definition bind_edit (target : option string) (app instance : string) (_ : Z) (t : Task) : RPCErrors + Task :=
  _ ← may_bind target t;
  if is_terminal (phase t) then fails AlreadyCompleted
  else inr (set_phase Accepted None (set_executor (App target app (Some instance)) (runner_epoch t + 1) t)).

Definition trusted_bind_app_executor (actor : ActorRef) (id : TaskId) (target : option string) (app instance : string) (expected : Z)
  : Call Task :=
  mutate_and_publish id actor RunnerBound (Some expected) (bind_edit target app instance).

Definition release_edit (instance : string) (epoch : Z) (reason : TaskWaitReason) (_ : Z) (t : Task) : RPCErrors + Task :=
  match executor t with
  | App target app bound =>
    if is_terminal (phase t) then fails AlreadyCompleted
    else if negb (bool_decide (bound = Some instance)) then fails StaleRunnerEpoch
    else if negb (runner_epoch t =? epoch) then fails StaleRunnerEpoch
    else inr (set_phase Waiting (Some reason) (set_executor (App target app None) (runner_epoch t + 1) t))
  | _ => fails InvalidPhase
  end.

Definition trusted_release_app_executor (actor : ActorRef) (id : TaskId) (instance : string) (epoch : Z) (reason : TaskWaitReason)
    (expected : Z) : Call Task :=
  mutate_and_publish id actor RunnerReleased (Some expected) (release_edit instance epoch reason).

Definition promise_over (t : Task) : RPCErrors + () :=
  if negb (bool_decide (executor_kind (executor t) = KUnbound)) then fails InvalidPhase
  else if is_terminal (phase t) then fails AlreadyCompleted else inr ().

Definition promise_failure_edit (by_ : ActorRef) (error : TaskError Value) (now : Z) (t : Task) : RPCErrors + Task :=
  _ ← promise_over t; inr (set_ended Failed (task_result t) (Some error) by_ now (set_pending None t)).

Definition trusted_finish_promise_failure (actor : ActorRef) (id : TaskId) (error : TaskError Value) (expected : Z) : Call Task :=
  mutate_and_publish id actor TaskFailed (Some expected) (promise_failure_edit actor error).

Definition promise_cancel_edit (by_ : ActorRef) (now : Z) (t : Task) : RPCErrors + Task :=
  _ ← promise_over t; inr (canceled by_ now (set_pending None t)).

Definition trusted_cancel_promised_task (actor : ActorRef) (id : TaskId) (expected : Z) : Call Task :=
  mutate_and_publish id actor TaskCanceled (Some expected) (promise_cancel_edit actor).

(** A command of the control plane of the zone *)
Definition by_zone {A} (c : RequestContext) (p : Call A) : Call A := try (mret (require_zone_trusted c)) (fun _ => p).

Definition handle_release_app_executor (c : RequestContext) (id : TaskId) (instance : string) (epoch : Z) (reason : TaskWaitReason)
    (expected : Z) : Call Task :=
  let release := trusted_release_app_executor (ctx_actor c) id instance epoch reason expected in
  if zone_trusted c then release else try (require_action c id Reassign) (fun _ => release).

(** ** The reports of a runner *)

(** A write of the runner of a task: [check] on the task it reads, then [edit]. *)
Definition runner_write (c : RequestContext) (env : RunnerWriteEnvelope) (ty : Task -> TaskEventType) (check : Task -> RPCErrors + ())
    (edit : Task -> Z -> Task -> RPCErrors + Task) : Call Task :=
  try (load_task (env_task_id env)) (fun t =>
  try (mret (verify_app_runner_write c t env)) (fun _ =>
  try (mret (check t)) (fun _ =>
  mutate_and_publish (env_task_id env) (ctx_actor c) (ty t) (Some (env_expected_revision env)) (edit t)))).

Definition in_phase (l : list TaskPhase) (t : Task) : RPCErrors + () :=
  if existsb (fun p => bool_decide (phase t = p)) l then inr () else fails InvalidPhase.
Definition any_phase (_ : Task) : RPCErrors + () := inr ().

Definition run_edit (_ : Task) (_ : Z) (t : Task) : RPCErrors + Task := inr (set_phase PRunning None t).
Definition handle_report_started (c : RequestContext) (env : RunnerWriteEnvelope) : Call Task :=
  runner_write c env (fun _ => PhaseChanged) (in_phase [Accepted]) run_edit.
Definition handle_report_running (c : RequestContext) (env : RunnerWriteEnvelope) : Call Task :=
  runner_write c env (fun _ => PhaseChanged) (in_phase [Waiting; Accepted]) run_edit.

Definition progress_edit (prog : option Value) (message : option string) (_ : Task) (_ : Z) (t : Task) : RPCErrors + Task :=
  inr (set_progress (match prog with Some p => Some p | None => progress t end)
         (match message with Some m => Some m | None => task_message t end) t).
Definition handle_report_progress (c : RequestContext) (env : RunnerWriteEnvelope) (prog : option Value) (message : option string)
  : Call Task := runner_write c env (fun _ => ProgressReported) any_phase (progress_edit prog message).

Definition wait_edit (reason : TaskWaitReason) (_ : Task) (_ : Z) (t : Task) : RPCErrors + Task :=
  inr (set_phase Waiting (Some reason) t).
Definition handle_report_waiting (c : RequestContext) (env : RunnerWriteEnvelope) (reason : TaskWaitReason) : Call Task :=
  runner_write c env (fun _ => WaitReasonChanged) (in_phase [Accepted; PRunning]) (wait_edit reason).

(** The clock is read before the transaction; [at_] is that reading. *)
Definition profile_edit (profile : TaskControlProfile) (at_ : Z) (_ : Task) (_ : Z) (t : Task) : RPCErrors + Task :=
  inr (set_profile {| pause := pause profile; resume := resume profile; cancel := cancel profile; profile_updated_at := at_ |} t).
Definition handle_update_control_profile (c : RequestContext) (env : RunnerWriteEnvelope) (profile : TaskControlProfile) : Call Task :=
  now ← do OpNow; runner_write c env (fun _ => ControlProfileChanged) any_phase (profile_edit profile now).

Definition pending_is (request_id : string) (t : Task) : RPCErrors + () :=
  match pending_control t with
  | None => fails InvalidPhase
  | Some p => if String.eqb (control_request_id p) request_id then inr () else fails InvalidPhase
  end.

Definition ack_event (applied : bool) (t : Task) : TaskEventType :=
  if applied then match control_action <$> pending_control t with Some Cancel => TaskCanceled | _ => ControlApplied end
  else ControlRejected.

(** [read] is the task as it was read: its pending request is the one acknowledged. *)
Definition ack_edit (by_ : ActorRef) (applied : bool) (read : Task) (now : Z) (t : Task) : RPCErrors + Task :=
  let t := set_pending None t in
  if applied then
    match control_action <$> pending_control read with
    | Some Pause => inr (set_phase Paused (wait_reason t) t)
    | Some Resume => inr (set_phase PRunning None t)
    | Some Cancel => if bool_decide (is_Some (task_result t)) then fails AlreadyCompleted else inr (canceled by_ now t)
    | None => inr t
    end
  else inr t.

Definition handle_ack_control (c : RequestContext) (env : RunnerWriteEnvelope) (request_id : string) (applied : bool) : Call Task :=
  runner_write c env (ack_event applied) (pending_is request_id) (ack_edit (ctx_actor c) applied).

(** ** Results *)

Record CommitResultReq := mkCommit {
  cm_task_id : TaskId;
  cm_result : Value;
  cm_app_instance_id : option string;
  cm_runner_epoch : option Z;
  cm_expected_revision : Z
}.

(** Who may commit, by the executor of the task *)
Definition may_commit (c : RequestContext) (req : CommitResultReq) (t : Task) : Call () :=
  match executor t with
  | App _ _ _ =>
    match cm_runner_epoch req with
    | None => refuse ParseRequestError
    | Some epoch =>
      mret (verify_app_runner_write c t (mkEnvelope (cm_task_id req) (cm_app_instance_id req) epoch (cm_expected_revision req)))
    end
  | HumanSet =>
    users ← do (OpActiveAssignees (cm_task_id req));
    if negb (existsb (String.eqb (ctx_user_id c)) users) then refused PermissionDenied
    else if is_terminal (phase t) then refused AlreadyCompleted else ok ()
  | Unbound => refused InvalidPhase
  end.

Definition commit_edit (by_ : ActorRef) (result : Value) (now : Z) (t : Task) : RPCErrors + Task :=
  if is_terminal (phase t) || bool_decide (is_Some (task_result t)) then fails AlreadyCompleted
  else inr (set_ended Succeeded (Some result) (task_error t) by_ now (set_pending None t)).

Definition handle_commit_result (c : RequestContext) (req : CommitResultReq) : Call Task :=
  try (load_task (cm_task_id req)) (fun t =>
  try (may_commit c req t) (fun _ =>
  try (do (OpGetSchema (schema_id t) (Some (schema_version t)))) (fun schema =>
  if negb (validate_json_schema number_eqb is_integer (output_schema schema) (cm_result req)) then refused ResultSchemaMismatch
  else mutate_and_publish (cm_task_id req) (ctx_actor c) ResultCommitted (Some (cm_expected_revision req))
         (commit_edit (ctx_actor c) (cm_result req))))).

Definition fail_edit (by_ : ActorRef) (error : TaskError Value) (_ : Task) (now : Z) (t : Task) : RPCErrors + Task :=
  if is_terminal (phase t) || bool_decide (is_Some (task_result t)) then fails AlreadyCompleted
  else inr (set_ended Failed (task_result t) (Some error) by_ now (set_pending None t)).
Definition handle_fail_task (c : RequestContext) (env : RunnerWriteEnvelope) (error : TaskError Value) : Call Task :=
  runner_write c env (fun _ => TaskFailed) any_phase (fail_edit (ctx_actor c) error).

(** ** Archive, assignees, grants *)

Definition archive_edit (now : Z) (t : Task) : RPCErrors + Task :=
  inr (match archived_at t with None => set_archived (Some now) t | Some _ => t end).

Definition handle_archive_task (c : RequestContext) (id : TaskId) (expected : Z) : Call Task :=
  try (require_action c id Archive) (fun '(t, _) =>
  if negb (is_terminal (phase t)) then refused InvalidPhase
  else mutate_and_publish id (ctx_actor c) TaskArchived (Some expected) archive_edit).

Definition handle_update_assignees (c : RequestContext) (id : TaskId) (add remove : list string) (expected : Z) : Call Task :=
  try (require_action c id Reassign) (fun _ =>
  try (do (OpUpdateAssignees id (ctx_actor c) (trimmed add) (trimmed remove) expected)) publish_outcome).

Definition handle_grant_task_access (c : RequestContext) (id : TaskId) (spec : TaskAclGrantSpec) (expected : Z) : Call Task :=
  try (require_action c id Grant) (fun _ =>
  if bool_decide (g_actions spec = []) then refuse ParseRequestError
  else try (do (OpInsertGrant id (ctx_actor c) spec expected)) publish_outcome).

Definition handle_revoke_task_access (c : RequestContext) (id : TaskId) (gid : string) (expected : Z) : Call Task :=
  try (require_action c id Grant) (fun _ =>
  try (do (OpRevokeGrant id (ctx_actor c) gid expected)) publish_outcome).

Definition handle_list_task_access (c : RequestContext) (id : TaskId) : Call (list TaskAclGrant) :=
  try (require_action c id Grant) (fun _ => answer (OpAllGrants id)).

(** ** Reading *)

Definition handle_get_task (c : RequestContext) (id : TaskId) : Call Task :=
  try (load_visible c id) (fun '(t, p) => ok (trim_task VNull t p)).

(** The tasks of a page the caller may see *)
Fixpoint visible_summaries (c : RequestContext) (l : list Task) : Call (list TaskSummary) :=
  match l with
  | [] => ok []
  | t :: l =>
    try (permission c t) (fun p =>
    try (visible_summaries c l) (fun rest => ok (if visible p then summarize_task t :: rest else rest)))
  end.

Definition summary_page (c : RequestContext) (q : RPCErrors + (list Task * option string)) : Call (list TaskSummary * option string) :=
  try (mret q) (fun '(tasks, next) => try (visible_summaries c tasks) (fun l => ok (l, next))).

Definition handle_list_tasks (c : RequestContext) (req : ListTasksReq) : Call (list TaskSummary * option string) :=
  q ← do (OpListTasks req); summary_page c q.

(** The [depth] of the request is not looked at. *)
Definition handle_get_task_tree (c : RequestContext) (root : TaskId) (depth : option Z) (cursor : option string) (limit : option Z)
  : Call (list TaskSummary * option string) :=
  q ← do (OpListTree root cursor (Z.max 1 (Z.min 500 (default 200 limit)))); summary_page c q.

Definition handle_get_subtasks (c : RequestContext) (id : TaskId) (cursor : option string) (limit : option Z)
  : Call (list TaskSummary * option string) :=
  try (load_visible c id) (fun _ =>
  q ← do (OpListChildren id cursor (Z.max 1 (Z.min 500 (default 100 limit)))); summary_page c q).

Definition handle_list_task_events (c : RequestContext) (id root : option TaskId) (after : option string) (limit : option Z)
  : Call (list TaskEvent * option string) :=
  match (match id with Some i => Some i | None => root end) with
  | None => refuse ParseRequestError
  | Some anchor =>
    try (load_visible c anchor) (fun _ =>
    try (do (OpListEvents id root after (default 100 limit))) (fun events => ok (events, event_id <$> last events)))
  end.

(** ** Notes and schemas *)

Definition handle_add_task_note (c : RequestContext) (id : TaskId) (note_type : option string) (content : string)
    (data : option Value) : Call (TaskNote Value) :=
  let content := trim content in
  if String.eqb content "" then refuse ParseRequestError
  else try (load_visible c id) (fun _ =>
       try (answer OpNow) (fun now =>
       let kind := match trim <$> note_type with
                   | Some k => if String.eqb k "" then "human" else k
                   | None => "human"
                   end in
       answer (OpAddNote (mkNote 0 id kind content (default (VObject []) data) (ctx_user_id c) (ctx_app_id c) now now)))).

Definition handle_list_task_notes (c : RequestContext) (id : TaskId) : Call (list (TaskNote Value)) :=
  try (load_visible c id) (fun _ => answer (OpListNotes id)).

(** [TaskStore::register_schema] *)
Definition register_schema (def : TaskSchemaDefinition) : Call TaskSchemaDefinition :=
  exists_ ← do (OpSchemaExists (def_schema_id def) (def_schema_version def));
  if (exists_ : bool) then
    try (do (OpGetSchema (def_schema_id def) (Some (def_schema_version def)))) (fun existing =>
    if same_definition number_eqb existing def then ok existing else refused IdempotencyConflict)
  else do (OpInsertSchema def).

(** The schemas the service brings, at its start; one that fails is skipped. *)
Fixpoint ensure_builtin_schemas (defs : list TaskSchemaDefinition) : Call () :=
  match defs with
  | [] => ok ()
  | def :: defs => _ ← register_schema def; ensure_builtin_schemas defs
  end.

Definition handle_register_task_schema (c : RequestContext) (def : TaskSchemaDefinition) : Call TaskSchemaDefinition :=
  if blank (def_schema_id def) then refuse ParseRequestError
  else if bool_decide (allowed_executor_kinds def = []) then refuse ParseRequestError
  else if negb (zone_trusted c) && negb (String.eqb (publisher_app_id def) (ctx_app_id c)) then refused PermissionDenied
  else register_schema def.

Definition handle_get_task_schema (id : string) (version : option Z) : Call TaskSchemaDefinition := do (OpGetSchema id version).
Definition handle_list_task_schemas (user_creatable_only include_disabled : bool) : Call (list TaskSchemaDefinition) :=
  answer (OpListSchemas user_creatable_only include_disabled).

Definition handle_set_task_schema_enabled (c : RequestContext) (id : string) (version : Z) (on : bool) : Call TaskSchemaDefinition :=
  by_zone c (found ← do (OpSetSchemaEnabled id version on);
             if (found : bool) then do (OpGetSchema id (Some version)) else refused SchemaNotFound).

(** ** The service *)

Inductive Request :=
| ReqCreate (req : CreateTaskReq)
| ReqCreateDelegated (req : CreateDelegatedTaskReq)
| ReqCreatePromised (req : CreatePromisedTaskReq)
| ReqSetPromiseWait (id : TaskId) (reason : TaskWaitReason) (expected : Z)
| ReqBind (id : TaskId) (target : option string) (app instance : string) (expected : Z)
| ReqRelease (id : TaskId) (instance : string) (epoch : Z) (reason : TaskWaitReason) (expected : Z)
| ReqFinishPromiseFailure (id : TaskId) (error : TaskError Value) (expected : Z)
| ReqCancelPromised (id : TaskId) (expected : Z)
| ReqStarted (env : RunnerWriteEnvelope)
| ReqRunning (env : RunnerWriteEnvelope)
| ReqProgress (env : RunnerWriteEnvelope) (prog : option Value) (message : option string)
| ReqWaiting (env : RunnerWriteEnvelope) (reason : TaskWaitReason)
| ReqProfile (env : RunnerWriteEnvelope) (profile : TaskControlProfile)
| ReqAck (env : RunnerWriteEnvelope) (request_id : string) (applied : bool)
| ReqCommit (req : CommitResultReq)
| ReqFail (env : RunnerWriteEnvelope) (error : TaskError Value)
| ReqControl (req : RequestControlReq)
| ReqDelegatedControl (controller : RequestContext) (id : TaskId) (action : TaskControlAction) (request_id : string) (expected : option Z)
| ReqArchive (id : TaskId) (expected : Z)
| ReqAssignees (id : TaskId) (add remove : list string) (expected : Z)
| ReqGrant (id : TaskId) (spec : TaskAclGrantSpec) (expected : Z)
| ReqRevoke (id : TaskId) (gid : string) (expected : Z)
| ReqNote (id : TaskId) (note_type : option string) (content : string) (data : option Value)
| ReqRegisterSchema (def : TaskSchemaDefinition)
| ReqSetSchemaEnabled (id : string) (version : Z) (on : bool).

Definition answered {A} (p : Prog A) : Prog () := _ ← p; mret ().

(** The handlers that write *)
Definition handler (c : RequestContext) (r : Request) : Prog () :=
  match r with
  | ReqCreate req => answered (handle_create_task c req)
  | ReqCreateDelegated req => answered (handle_create_delegated_task c req)
  | ReqCreatePromised req => answered (by_zone c (trusted_create_promised_task req))
  | ReqSetPromiseWait id reason expected => answered (by_zone c (trusted_set_promise_wait (ctx_actor c) id reason expected))
  | ReqBind id target app instance expected =>
    answered (by_zone c (trusted_bind_app_executor (ctx_actor c) id target app instance expected))
  | ReqRelease id instance epoch reason expected => answered (handle_release_app_executor c id instance epoch reason expected)
  | ReqFinishPromiseFailure id error expected =>
    answered (by_zone c (trusted_finish_promise_failure (ctx_actor c) id error expected))
  | ReqCancelPromised id expected => answered (by_zone c (trusted_cancel_promised_task (ctx_actor c) id expected))
  | ReqStarted env => answered (handle_report_started c env)
  | ReqRunning env => answered (handle_report_running c env)
  | ReqProgress env prog message => answered (handle_report_progress c env prog message)
  | ReqWaiting env reason => answered (handle_report_waiting c env reason)
  | ReqProfile env profile => answered (handle_update_control_profile c env profile)
  | ReqAck env request_id applied => answered (handle_ack_control c env request_id applied)
  | ReqCommit req => answered (handle_commit_result c req)
  | ReqFail env error => answered (handle_fail_task c env error)
  | ReqControl req => answered (handle_request_control c req)
  | ReqDelegatedControl controller id action request_id expected =>
    answered (handle_request_delegated_control c controller id action request_id expected)
  | ReqArchive id expected => answered (handle_archive_task c id expected)
  | ReqAssignees id add remove expected => answered (handle_update_assignees c id add remove expected)
  | ReqGrant id spec expected => answered (handle_grant_task_access c id spec expected)
  | ReqRevoke id gid expected => answered (handle_revoke_task_access c id gid expected)
  | ReqNote id note_type content data => answered (handle_add_task_note c id note_type content data)
  | ReqRegisterSchema def => answered (handle_register_task_schema c def)
  | ReqSetSchemaEnabled id version on => answered (handle_set_task_schema_enabled c id version on)
  end.

(** A request that is being answered: who sent it, what is left of it, and
    (of use to the theorems only) the tables it found when it arrived. *)
Record Process := mkProcess { caller : RequestContext; request : Request; arrived : Db; rest : Prog () }.

Record Service := mkService { db : Db; processes : list Process; published : list TaskEvent }.

Definition published_by (o : op) : list TaskEvent := match o with OpPublish o => [out_event o] | _ => [] end.

Inductive step : Service -> Service -> Prop :=
| step_arrive d ps bus c r :
    step (mkService d ps bus) (mkService d (ps ++ [mkProcess c r d (handler c r)]) bus)
| step_op d ps ps' bus c r d0 o k tick d' a :
    exec tick o d = (d', a) ->
    step (mkService d (ps ++ mkProcess c r d0 (Op o k) :: ps') bus)
      (mkService d' (ps ++ mkProcess c r d0 (k a) :: ps') (bus ++ published_by o))
| step_drop d ps p ps' bus : step (mkService d (ps ++ p :: ps') bus) (mkService d (ps ++ ps') bus).

Definition reachable (s : Service) : Prop := rtc step (mkService empty_db [] []) s.
End service.
Arguments Prog {Number} A.
