(* ===== verification/TaskLife.v ===== *)
(** The life of a task ([kernel/task_manager/src/server.rs], [task_store.rs]):
    what may become of its row, which request may do what to it, and that the
    handlers keep to this when any number of them run at once.

    Handlers are verified one by one against what the others may do in between
    ([evolves], the rely) and what they promise themselves ([guarantee]); [safe]
    is the rule that combines the two along a program. *)
From Stdlib Require Import ZArith Lia.
From stdpp Require Import base tactics numbers gmap strings sorting list relations.
From S2P Require Import Prelude RustString WfJson WfSchema TaskTypes TaskAcl TaskTables TaskService.

Section tables.
Context {Number : Type}.
Abbreviation Value := (Value Number).
Abbreviation Task := (Task Value).
Abbreviation Db := (Db (Number := Number)).
Abbreviation MutationOutcome := (MutationOutcome (Number := Number)).

(** ** What may become of a task *)

(** [t'] is [t] but for the columns an update writes. *)
Definition rewrites (t t' : Task) : Prop := t' = write_columns t' t.

Record moves (t t' : Task) : Prop := {
  mv_columns : rewrites t t';
  mv_revision : task_revision t <= task_revision t';
  mv_same : task_revision t = task_revision t' -> t = t';
  mv_epoch : runner_epoch t <= runner_epoch t';
  mv_executor : runner_epoch t = runner_epoch t' -> executor t = executor t';
  mv_target : match executor t with
              | Unbound => executor t' <> HumanSet
              | App target _ _ => exists app instance, executor t' = App target app instance
              | HumanSet => executor t' = HumanSet
              end;
  mv_result : is_Some (task_result t) -> task_result t' = task_result t
}.

(** A task that has ended stays as it is, but for its place in the archive. *)
Definition ended (t t' : Task) : Prop :=
  phase t = Terminal ->
  t' = set_revision (task_revision t') (task_updated_at t') (set_archived (archived_at t') t) /\
  (is_Some (archived_at t) -> archived_at t' = archived_at t).

#[export] Instance moves_preorder : PreOrder moves.
Proof.
  split.
  - intros t. split; try done; try lia; try (by destruct t). destruct (executor t) eqn:E; eauto.
  - intros t u v [c1 r1 s1 e1 x1 g1 q1] [c2 r2 s2 e2 x2 g2 q2]. split; try lia.
    + unfold rewrites in *. etransitivity; [exact c2|]. by rewrite c1.
    + intros E. rewrite s1 by lia. apply s2. lia.
    + intros E. rewrite x1 by lia. apply x2. lia.
    + destruct (executor t); [|destruct g1 as (a & i & E); rewrite E in g2; eauto|by rewrite g1 in g2].
      destruct (executor u); [done| |done]. destruct g2 as (? & ? & ->). done.
    + intros H. rewrite q2, q1; [done|done|]. by rewrite q1.
Qed.

#[export] Instance ended_preorder : PreOrder ended.
Proof.
  split.
  - intros t H. split; [by destruct t|done].
  - intros t u v H1 H2 Ht. destruct (H1 Ht) as [E1 A1]. assert (Hu : phase u = Terminal) by (by rewrite E1).
    destruct (H2 Hu) as [E2 A2]. split.
    + etransitivity; [exact E2|]. by rewrite E1.
    + intros Ha. rewrite A2, A1; [done..|]. by rewrite A1.
Qed.

(** ** The tables over time *)

Definition assignees_of (d : Db) (id : TaskId) : list string := active_assignees (tables d) id.

(** Tasks are kept and move; the same revision is the same task. *)
Definition evolves (d d' : Db) : Prop :=
  forall id t, row d id = Some t ->
    exists t', row d' id = Some t' /\ moves t t' /\ (task_revision t = task_revision t' -> assignees_of d id = assignees_of d' id).

#[export] Instance evolves_preorder : PreOrder evolves.
Proof.
  split.
  - intros d id t Ht. by exists t.
  - intros d1 d2 d3 H1 H2 id t Ht. destruct (H1 id t Ht) as (u & Hu & M1 & A1). destruct (H2 id u Hu) as (v & Hv & M2 & A2).
    exists v. split_and!; [done|by transitivity u|]. intros E.
    pose proof (mv_revision _ _ M1). pose proof (mv_revision _ _ M2). rewrite A1, A2; [done|lia|lia].
Qed.

Definition events_of (d : Db) (id : TaskId) : list TaskEvent :=
  List.filter (fun e => String.eqb (event_task_id e) id) (task_event d).

(** A task without a parent is the root of its tree, and another has the root of its parent. *)
Definition rooted (d : Db) (t : Task) : Prop :=
  match parent_id t with
  | None => root_id t = task_id t
  | Some p => exists tp, row d p = Some tp /\ root_id tp = root_id t
  end.

Record wf (d : Db) : Prop := {
  wf_row id t : row d id = Some t -> task_id t = id /\ assignees t = None /\ data_scope t = None;
  (** a task has one event for each of its revisions, in their order *)
  wf_events id : event_revision <$> events_of d id = match row d id with Some t => seqZ 1 (task_revision t) | None => [] end;
  wf_revision id t : row d id = Some t -> 1 <= task_revision t;
  (** a creator uses an idempotency key once, and an origin has one task *)
  wf_creation id id' t t' : row d id = Some t -> row d id' = Some t' -> same_creation t t' = true -> id = id';
  wf_origin id id' t t' : row d id = Some t -> row d id' = Some t' -> same_origin t t' = true -> id = id';
  (** tasks form trees *)
  wf_rooted id t : row d id = Some t -> rooted d t;
  wf_forest : exists rank : TaskId -> nat, forall id t p, row d id = Some t -> parent_id t = Some p -> (rank p < rank id)%nat
}.

Lemma wf_empty : wf empty_db.
Proof. split; try done. by exists (fun _ => O). Qed.

(** The effect of a transaction on the task [id]. *)
Record wrote (id : TaskId) (t t' : Task) (d d' : Db) : Prop := {
  wr_row : row d id = Some t;
  wr_rows : task_table (tables d') = <[id := t']> (task_table (tables d));
  wr_columns : rewrites t t';
  wr_revision : task_revision t' = task_revision t + 1;
  wr_event : exists e, task_event d' = task_event d ++ [e] /\ event_task_id e = id /\ event_revision e = task_revision t';
  wr_others id' : id' <> id -> assignees_of d' id' = assignees_of d id'
}.

Lemma wrote_row id t t' d d' id' : wrote id t t' d d' -> row d' id' = if decide (id' = id) then Some t' else row d id'.
Proof.
  intros []. unfold row. rewrite wr_rows0. destruct (decide (id' = id)) as [->|]; [by rewrite lookup_insert_eq|].
  by rewrite lookup_insert_ne.
Qed.

Lemma rewrites_keeps t t' : rewrites t t' ->
  task_id t' = task_id t /\ assignees t' = assignees t /\ data_scope t' = data_scope t /\ creator t' = creator t /\
  idempotency_key t' = idempotency_key t /\ origin_ref t' = origin_ref t /\ parent_id t' = parent_id t /\ root_id t' = root_id t.
Proof. intros ->. done. Qed.

(** Rows that keep their roots keep the trees. *)
Lemma rooted_mono (d d' : Db) t :
  (forall id u, row d id = Some u -> exists u', row d' id = Some u' /\ root_id u' = root_id u) -> rooted d t -> rooted d' t.
Proof.
  intros H. unfold rooted. destruct (parent_id t) as [p|]; [|done]. intros (tp & Hp & E).
  destruct (H _ _ Hp) as (tp' & Hp' & E'). exists tp'. split; [done|congruence].
Qed.

Lemma events_of_snoc d d' e id :
  task_event d' = task_event d ++ [e] -> events_of d' id = events_of d id ++ (if String.eqb (event_task_id e) id then [e] else []).
Proof. intros E. unfold events_of. rewrite E, List.filter_app. done. Qed.

Lemma seqZ_snoc n : 1 <= n -> seqZ 1 (n + 1) = seqZ 1 n ++ [n + 1].
Proof. intros Hn. rewrite seqZ_app by lia. f_equal. unfold seqZ. simpl. f_equal. lia. Qed.

Lemma wrote_wf id t t' d d' : wf d -> wrote id t t' d d' -> wf d'.
Proof.
  intros [W1 W2 W3 W4 W5 W6 [rank W7]] Hw. pose proof Hw as [Ht _ Hc Hr (e & He & Hid & Hrev) _].
  pose proof (wrote_row id t t' d d') as Hrow. apply rewrites_keeps in Hc as (K1 & K2 & K3 & K4 & K5 & K6 & K7 & K8).
  assert (Hback : forall id' u, row d' id' = Some u -> exists u0, row d id' = Some u0 /\ task_id u = task_id u0 /\ assignees u = assignees u0
      /\ data_scope u = data_scope u0 /\ creator u = creator u0 /\ idempotency_key u = idempotency_key u0 /\ origin_ref u = origin_ref u0
      /\ parent_id u = parent_id u0 /\ root_id u = root_id u0).
  { intros id' u. rewrite Hrow by done. destruct (decide (id' = id)) as [->|]; [intros [= <-]; by exists t|by exists u]. }
  split.
  - intros id' u Hu. destruct (Hback _ _ Hu) as (u0 & Hu0 & -> & -> & -> & _). by apply W1.
  - intros id'. rewrite (events_of_snoc d _ _ _ He), fmap_app, W2, Hrow by done. rewrite Hid.
    destruct (decide (id' = id)) as [->|].
    + rewrite Ht, String.eqb_refl, Hr. simpl. rewrite Hrev, Hr. symmetry. apply seqZ_snoc. by eapply W3.
    + destruct (String.eqb_spec id id'); [done|]. by rewrite app_nil_r.
  - intros id' u. rewrite Hrow by done. destruct (decide (id' = id)) as [->|]; [|apply W3]. intros [= <-]. apply W3 in Ht. lia.
  - intros i j u v Hu Hv. destruct (Hback _ _ Hu) as (u0 & Hu0 & _ & _ & _ & Cu & Ku & _).
    destruct (Hback _ _ Hv) as (v0 & Hv0 & _ & _ & _ & Cv & Kv & _). unfold same_creation. rewrite Cu, Cv, Ku, Kv. by apply W4.
  - intros i j u v Hu Hv. destruct (Hback _ _ Hu) as (u0 & Hu0 & _ & _ & _ & _ & _ & Ou & _).
    destruct (Hback _ _ Hv) as (v0 & Hv0 & _ & _ & _ & _ & _ & Ov & _). unfold same_origin. rewrite Ou, Ov. by apply W5.
  - intros i u Hu. destruct (Hback _ _ Hu) as (u0 & Hu0 & Iu & _ & _ & _ & _ & _ & Pu & Ru).
    assert (H : rooted d' u0); [|by unfold rooted in *; rewrite Pu, Ru, Iu].
    eapply rooted_mono; [|by eapply W6]. intros j v Hv. rewrite Hrow by done. destruct (decide (j = id)) as [->|]; [|by exists v].
    exists t'. split; [done|congruence].
  - exists rank. intros i u p Hu Hp. destruct (Hback _ _ Hu) as (u0 & Hu0 & _ & _ & _ & _ & _ & _ & Pu & _).
    eapply W7; [exact Hu0|]. congruence.
Qed.

Lemma wrote_evolves id t t' d d' : wrote id t t' d d' -> moves t t' -> evolves d d'.
Proof.
  intros Hw Hm id' u Hu. rewrite (wrote_row _ _ _ _ _ id' Hw). destruct (decide (id' = id)) as [->|Hne].
  - rewrite (wr_row _ _ _ _ _ Hw) in Hu. injection Hu as <-. exists t'. split_and!; [done..|].
    intros E. rewrite (wr_revision _ _ _ _ _ Hw) in E. lia.
  - exists u. split_and!; [done..|]. intros _. by rewrite (wr_others _ _ _ _ _ Hw).
Qed.

(** ** The effect of each transaction *)

Lemma rolled_back_spec {A} (d d' : Db) (r : option Db * (RPCErrors + A)) a :
  rolled_back d r = (d', a) -> d' = d \/ exists x, a = inr x /\ r = (Some d', inr x).
Proof. destruct r as [[x|] [e|b]]; simpl; intros [= <- <-]; eauto. Qed.

Lemma finish_tx_spec t before ty actor tick (d d' : Db) o r :
  row d (task_id t) = Some r -> finish_tx t before ty actor tick d = (Some d', inr o) ->
  before = task_revision r /\
  task_table (tables d') = <[task_id t := write_columns (set_revision (before + 1) (now_ms tick) t) r]> (task_table (tables d)) /\
  assignee_table (tables d') = assignee_table (tables d) /\
  exists e, task_event d' = task_event d ++ [e] /\ event_task_id e = task_id t /\ event_revision e = before + 1 /\
    o = mkOutcome (set_revision (before + 1) (now_ms tick) t) e.
Proof.
  intros Hr. unfold finish_tx, write_mutable_columns_tx. cbn [task_id set_revision]. rewrite Hr.
  destruct (Z.eqb_spec (task_revision r) before) as [Hb|]; [|done]. intros [= He <-].
  unfold insert_event_tx in He. destruct (existsb _ _); [done|]. injection He as <-. split_and!; [done..|]. by eexists.
Qed.

Lemma write_columns_of u (t : Task) rev now :
  write_columns (set_revision rev now u) t = set_revision rev now (write_columns (set_revision (task_revision t) (task_updated_at t) u) t).
Proof. done. Qed.

(** An update that touches only the columns it may. *)
Definition keeps (f : Z -> Task -> RPCErrors + Task) : Prop := forall now t u, f now t = inr u -> rewrites t u /\ task_revision u = task_revision t.

Definition next_revision (now : Z) (t : Task) : Task := set_revision (task_revision t + 1) now t.

Lemma attach_assignees_keeps d (t : Task) : exists a, attach_assignees (tables d) t = set_assignees t a.
Proof. unfold attach_assignees. destruct (executor_kind _); eauto; exists (assignees t); by destruct t. Qed.

Lemma mutate_task_spec id actor ty expected f tick (d d' : Db) a :
  wf d -> keeps f -> mutate_task id actor ty expected f tick d = (d', a) ->
  d' = d \/ exists t u o, row d id = Some t /\ stale expected t = false /\
    f (now_ms tick) (attach_assignees (tables d) t) = inr u /\ a = inr o /\
    wrote id t (next_revision (now_ms tick) (write_columns u t)) d d'.
Proof.
  intros Hwf Hf E. unfold mutate_task in E. apply rolled_back_spec in E as [->|(o & -> & E)]; [by left|]. right.
  destruct (row d id) as [t|] eqn:Ht; [|done]. destruct (attach_assignees_keeps d t) as [l Hl]. rewrite Hl in *.
  destruct (stale expected (set_assignees t l)) eqn:Hs; [done|].
  destruct (f (now_ms tick) (set_assignees t l)) as [|u] eqn:Hu; [done|]. destruct (Hf _ _ _ Hu) as [Hc Hrev].
  assert (Hid : task_id u = id). { rewrite Hc. by apply (wf_row _ Hwf) in Ht as [<- _]. }
  assert (Hrow : row d (task_id u) = Some t) by (by rewrite Hid).
  destruct (finish_tx_spec _ _ _ _ _ _ _ _ _ Hrow E) as (_ & H1 & H2 & e & H3 & H4 & H5 & _).
  exists t, u, o. split_and!; [done|by destruct expected|by rewrite Hl|done|].
  assert (Hr : task_revision u = task_revision t) by done. cbn [task_revision set_assignees] in H1, H5.
  split; [done| | | | |].
  - rewrite H1, Hid. f_equal. unfold next_revision. cbn [task_revision write_columns set_revision]. by rewrite Hr.
  - done.
  - unfold next_revision. cbn [task_revision set_revision write_columns]. lia.
  - exists e. split_and!; [done|by rewrite H4|]. rewrite H5. unfold next_revision. cbn [task_revision set_revision write_columns]. lia.
  - intros id' _. unfold assignees_of, active_assignees. by rewrite H2.
Qed.

Lemma active_rows_other id id' (f : assignee_row -> assignee_row) (rows : list assignee_row) :
  id' <> id -> (forall r, row_task_id (f r) = row_task_id r /\ (row_task_id r <> id -> f r = r)) ->
  List.filter (fun r => String.eqb (row_task_id r) id' && live row_revoked_at r) (f <$> rows)
  = List.filter (fun r => String.eqb (row_task_id r) id' && live row_revoked_at r) rows.
Proof.
  intros Hne Hf. induction rows as [|r rows IH]; [done|]. cbn. destruct (Hf r) as [Hid Hother]. rewrite Hid.
  destruct (String.eqb_spec (row_task_id r) id') as [E|E]; simpl.
  - rewrite Hother by congruence. rewrite IH. done.
  - done.
Qed.

Lemma is_assignee_row_id id user r : is_assignee_row id user r = true -> row_task_id r = id.
Proof. unfold is_assignee_row. by intros [?%String.eqb_eq _]%andb_true_iff. Qed.

Lemma revoke_other id id' user now rows :
  id' <> id ->
  List.filter (fun r => String.eqb (row_task_id r) id' && live row_revoked_at r) (revoke_assignee id user now <$> rows)
  = List.filter (fun r => String.eqb (row_task_id r) id' && live row_revoked_at r) rows.
Proof.
  intros Hne. apply active_rows_other with id; [done|]. intros r. unfold revoke_assignee.
  destruct (is_assignee_row id user r) eqn:E; [|done]. apply is_assignee_row_id in E. destruct (live _ _); simpl; naive_solver.
Qed.

Lemma grant_other id id' user rows :
  id' <> id ->
  List.filter (fun r => String.eqb (row_task_id r) id' && live row_revoked_at r) (grant_assignee id rows user)
  = List.filter (fun r => String.eqb (row_task_id r) id' && live row_revoked_at r) rows.
Proof.
  intros Hne. unfold grant_assignee. destruct (existsb _ _).
  - apply active_rows_other with id; [done|]. intros r.
    destruct (is_assignee_row id user r) eqn:E; [|done]. apply is_assignee_row_id in E. naive_solver.
  - rewrite List.filter_app. simpl. destruct (String.eqb_spec id id'); [done|]. by rewrite app_nil_r.
Qed.

Lemma update_assignees_spec id actor add remove expected tick (d d' : Db) a :
  wf d -> update_assignees id actor add remove expected tick d = (d', a) ->
  d' = d \/ exists t o, row d id = Some t /\ executor t = HumanSet /\ phase t <> Terminal /\ task_revision t = expected /\
    a = inr o /\ wrote id t (next_revision (now_ms tick) t) d d'.
Proof.
  intros Hwf E. unfold update_assignees in E. apply rolled_back_spec in E as [->|(o & -> & E)]; [by left|]. right.
  destruct (row d id) as [t|] eqn:Ht; [|done]. case_bool_decide as Hk; [|done]. destruct (is_terminal (phase t)) eqn:Hp; [done|].
  destruct (Z.eqb_spec (task_revision t) expected) as [<-|]; [|done]. cbn [negb] in E. case_bool_decide; [done|].
  pose proof (wf_row _ Hwf id t Ht) as (Hid & Has & Hds).
  match type of E with finish_tx ?u _ _ _ _ ?dd = _ => assert (Hrow : row dd (task_id u) = Some t) end.
  { cbn. rewrite Hid. done. }
  destruct (finish_tx_spec _ _ _ _ _ _ _ _ _ Hrow E) as (_ & H1 & H2 & e & H3 & H4 & H5 & _).
  exists t, o. split_and!; [done|by destruct (executor t)|by intros Hp'; rewrite Hp' in Hp|done..|].
  cbn [task_id set_assignees] in *. rewrite Hid in *. split; [done| | |done| |].
  - by rewrite H1.
  - by destruct t.
  - by exists e.
  - intros id' Hne. unfold assignees_of, active_assignees. rewrite H2. cbn. do 2 f_equal.
    assert (Hg : forall add rows, List.filter (fun r => String.eqb (row_task_id r) id' && live row_revoked_at r)
                   (fold_left (grant_assignee id) add rows)
                 = List.filter (fun r => String.eqb (row_task_id r) id' && live row_revoked_at r) rows).
    { intros l. induction l as [|user l IH]; intros rows; [done|]. simpl. rewrite IH. by apply grant_other. }
    rewrite Hg. generalize (assignee_table (tables d)). clear -Hne. induction remove as [|user l IH]; intros rows; [done|].
    simpl. rewrite IH. by apply revoke_other.
Qed.

Lemma grants_spec id r (d d' : Db) g ty actor expected tick t o :
  wf d -> row d id = Some t -> task_revision t = expected ->
  r = finish_tx t expected ty (Some actor) tick (with_grants g d) -> r = (Some d', inr o) ->
  wrote id t (next_revision (now_ms tick) t) d d'.
Proof.
  intros Hwf Ht <- -> E. pose proof (wf_row _ Hwf id t Ht) as (Hid & Has & Hds).
  assert (Hrow : row (with_grants g d) (task_id t) = Some t) by (cbn; by rewrite Hid).
  destruct (finish_tx_spec _ _ _ _ _ _ _ _ _ Hrow E) as (_ & H1 & H2 & e & H3 & H4 & H5 & _).
  rewrite Hid in *. split; [done| | |done| |].
  - by rewrite H1.
  - by destruct t.
  - by exists e.
  - intros id' _. unfold assignees_of, active_assignees. by rewrite H2.
Qed.

Lemma with_assignees_of_spec (r : Db * (RPCErrors + MutationOutcome)) d' a :
  with_assignees_of r = (d', a) -> r.1 = d' /\ (forall e, r.2 = inl e -> a = inl e).
Proof. destruct r as [d [e|o]]; simpl; intros [= <- <-]; naive_solver. Qed.

Lemma insert_grant_spec id actor spec expected tick (d d' : Db) a :
  wf d -> insert_grant id actor spec expected tick d = (d', a) ->
  d' = d \/ exists t, row d id = Some t /\ task_revision t = expected /\ wrote id t (next_revision (now_ms tick) t) d d'.
Proof.
  intros Hwf E. unfold insert_grant in E. apply with_assignees_of_spec in E as [E _].
  match type of E with (rolled_back d ?r).1 = _ => destruct (rolled_back d r) as [d2 a2] eqn:Er end.
  cbn [fst] in E. subst d2. apply rolled_back_spec in Er as [->|(o & -> & Er)]; [by left|]. right.
  destruct (row d id) as [t|] eqn:Ht; [|done]. destruct (Z.eqb_spec (task_revision t) expected) as [He|]; [|done].
  cbn [negb] in Er. destruct (existsb _ _); [done|]. exists t. split_and!; [done..|]. by eapply grants_spec.
Qed.

Lemma revoke_grant_spec id actor gid expected tick (d d' : Db) a :
  wf d -> revoke_grant id actor gid expected tick d = (d', a) ->
  d' = d \/ exists t, row d id = Some t /\ task_revision t = expected /\ wrote id t (next_revision (now_ms tick) t) d d'.
Proof.
  intros Hwf E. unfold revoke_grant in E. apply with_assignees_of_spec in E as [E _].
  match type of E with (rolled_back d ?r).1 = _ => destruct (rolled_back d r) as [d2 a2] eqn:Er end.
  cbn [fst] in E. subst d2. apply rolled_back_spec in Er as [->|(o & -> & Er)]; [by left|]. right.
  destruct (row d id) as [t|] eqn:Ht; [|done]. destruct (Z.eqb_spec (task_revision t) expected) as [He|]; [|done].
  cbn [negb] in Er. destruct (existsb _ _); [|done]. cbn [negb] in Er. exists t. split_and!; [done..|]. by eapply grants_spec.
Qed.

(** A new row among rows that none of its keys violates. *)
Record inserted (t : Task) (d d' : Db) : Prop := {
  in_fresh : violates t d = false;
  in_rows : task_table (tables d') = <[task_id t := t]> (task_table (tables d));
  in_new : task_revision t = 1 /\ assignees t = None /\ data_scope t = None;
  in_event : exists e, task_event d' = task_event d ++ [e] /\ event_task_id e = task_id t /\ event_revision e = 1;
  in_others id' : id' <> task_id t -> assignees_of d' id' = assignees_of d id'
}.

Lemma insert_assignees_other id id' users rows rows' :
  id' <> id -> insert_assignees id users rows = Some rows' ->
  List.filter (fun r => String.eqb (row_task_id r) id' && live row_revoked_at r) rows'
  = List.filter (fun r => String.eqb (row_task_id r) id' && live row_revoked_at r) rows.
Proof.
  intros Hne. revert rows. induction users as [|u users IH]; intros rows; cbn [insert_assignees]; [by intros [= ->]|].
  destruct (existsb _ _); [done|]. intros E. rewrite (IH _ E), List.filter_app. simpl.
  destruct (String.eqb_spec id id'); [done|]. by rewrite app_nil_r.
Qed.

Lemma insert_task_spec digest a root tick (d d' : Db) r :
  insert_task digest a root tick d = (d', r) ->
  d' = d \/ (let id := "t-" +:+ new_uuid tick in let t := new_row digest a id (default id root) (now_ms tick) in
             inserted t d d' /\ exists e, r = Some (inr (id, e))).
Proof.
  unfold insert_task. set (id := "t-" +:+ _). set (t := new_row _ _ _ _ _).
  destruct (violates t d) eqn:Hv; [intros [= <- _]; by left|].
  match goal with |- context [rolled_back d ?x] => destruct (rolled_back d x) as [d2 a2] eqn:E end.
  intros [= <- <-]. apply rolled_back_spec in E as [->|(x & -> & E)]; [by left|]. right.
  destruct (insert_assignees _ _ _) as [rows|] eqn:Hi; [|done]. injection E as E <-.
  unfold insert_event_tx in E. destruct (existsb _ _); [done|]. injection E as <-.
  split; [|by eexists]. split; try done.
  - by eexists.
  - intros id' Hne. unfold assignees_of, active_assignees. cbn. do 2 f_equal. by eapply insert_assignees_other.
Qed.

Lemma violates_row t (d : Db) id u :
  wf d -> violates t d = false -> row d id = Some u -> id <> task_id t /\ same_creation u t = false /\ same_origin u t = false.
Proof.
  intros Hwf Hv Hu. unfold violates in Hv. rewrite existsb_false in Hv.
  assert (Hin : (id, u) ∈ map_to_list (task_table (tables d))) by by apply elem_of_map_to_list.
  rewrite Forall_forall in Hv. specialize (Hv _ Hin). simpl in Hv. rewrite !orb_false_iff in Hv. destruct Hv as [[Hid Hc] Ho].
  apply String.eqb_neq in Hid. pose proof (wf_row _ Hwf _ _ Hu) as [<- _]. split_and!; [done..|]. done.
Qed.

Lemma inserted_row t (d d' : Db) id : inserted t d d' -> row d' id = if decide (id = task_id t) then Some t else row d id.
Proof.
  intros Hi. unfold row. rewrite (in_rows _ _ _ Hi). destruct (decide _) as [->|]; [by rewrite lookup_insert_eq|].
  by rewrite lookup_insert_ne.
Qed.

Lemma inserted_fresh t (d d' : Db) : wf d -> inserted t d d' -> row d (task_id t) = None.
Proof.
  intros Hwf Hi. destruct (row d (task_id t)) as [u|] eqn:E; [|done].
  by apply (violates_row t) in E as [? _]; [|done|apply Hi].
Qed.

Lemma same_creation_sym (t u : Task) : same_creation t u = same_creation u t.
Proof. unfold same_creation. by rewrite (String.eqb_sym (user_id _)), (String.eqb_sym (app_id _)), (String.eqb_sym (idempotency_key _)). Qed.
Lemma same_origin_sym (t u : Task) : same_origin t u = same_origin u t.
Proof.
  unfold same_origin. destruct (origin_ref t), (origin_ref u); try done.
  by rewrite (String.eqb_sym (origin_kind _)), (String.eqb_sym (origin_id _)).
Qed.

Lemma inserted_wf t (d d' : Db) : wf d -> rooted d t -> inserted t d d' -> wf d'.
Proof.
  intros Hwf Hroot Hi. pose proof (inserted_fresh _ _ _ Hwf Hi) as Hnew. pose proof (fun id => inserted_row _ _ _ id Hi) as Hrow.
  pose proof Hi as [Hv _ (Hr1 & Ha & Hs) (e & He & Heid & Hrev) _].
  split.
  - intros id u. rewrite Hrow. destruct (decide _) as [->|]; [by intros [= <-]|apply (wf_row _ Hwf)].
  - intros id. rewrite (events_of_snoc d _ _ _ He), fmap_app, (wf_events _ Hwf), Hrow, Heid.
    destruct (decide _) as [->|Hne].
    + rewrite Hnew, String.eqb_refl. simpl. by rewrite Hrev, Hr1.
    + destruct (String.eqb_spec (task_id t) id); [done|]. by rewrite app_nil_r.
  - intros id u. rewrite Hrow. destruct (decide _) as [->|]; [|apply (wf_revision _ Hwf)]. intros [= <-]. lia.
  - intros i j u v. rewrite !Hrow. destruct (decide (i = _)) as [->|], (decide (j = _)) as [->|]; [done| | |apply (wf_creation _ Hwf)].
    + intros [= <-] Hj. apply (violates_row t) in Hj as (_ & E & _); [|done..]. by rewrite same_creation_sym, E.
    + intros Hj [= <-]. apply (violates_row t) in Hj as (_ & E & _); [|done..]. by rewrite E.
  - intros i j u v. rewrite !Hrow. destruct (decide (i = _)) as [->|], (decide (j = _)) as [->|]; [done| | |apply (wf_origin _ Hwf)].
    + intros [= <-] Hj. apply (violates_row t) in Hj as (_ & _ & E); [|done..]. by rewrite same_origin_sym, E.
    + intros Hj [= <-]. apply (violates_row t) in Hj as (_ & _ & E); [|done..]. by rewrite E.
  - intros i u. rewrite Hrow. intros Hu. assert (H : rooted d u).
    { destruct (decide _) as [->|]; [by injection Hu as <-|by eapply (wf_rooted _ Hwf)]. }
    eapply rooted_mono; [|exact H]. intros j v Hj. rewrite Hrow.
    destruct (decide (j = task_id t)) as [->|]; [by rewrite Hnew in Hj|by exists v].
  - destruct (wf_forest _ Hwf) as [rank Hrank].
    exists (fun i => if decide (i = task_id t) then match parent_id t with Some p => S (rank p) | None => O end else rank i).
    intros i u p. rewrite Hrow. destruct (decide (i = task_id t)) as [->|Hne].
    + intros [= <-] Hp. rewrite Hp. unfold rooted in Hroot. rewrite Hp in Hroot. destruct Hroot as (tp & Htp & _).
      destruct (decide _) as [->|]; [congruence|lia].
    + intros Hu Hp. pose proof (wf_rooted _ Hwf _ _ Hu) as Hr. unfold rooted in Hr. rewrite Hp in Hr. destruct Hr as (tp & Htp & _).
      destruct (decide _) as [->|]; [congruence|]. by eapply Hrank.
Qed.

Lemma inserted_evolves t (d d' : Db) : wf d -> inserted t d d' -> evolves d d'.
Proof.
  intros Hwf Hi id u Hu. pose proof (inserted_fresh _ _ _ Hwf Hi) as Hnew. rewrite (inserted_row _ _ _ id Hi).
  destruct (decide _) as [->|Hne]; [congruence|]. exists u. split_and!; [done..|]. intros _. symmetry. by apply (in_others _ _ _ Hi).
Qed.

(** Tables that differ in schemas and notes only *)
Definition same_tasks (d d' : Db) : Prop := tables d' = tables d /\ task_event d' = task_event d.

Lemma same_tasks_wf d d' : same_tasks d d' -> wf d -> wf d'.
Proof. intros [Ht He] [W1 W2 W3 W4 W5 W6 W7]. split; unfold rooted, row, events_of in *; rewrite ?Ht, ?He; assumption. Qed.

Lemma same_tasks_evolves d d' : same_tasks d d' -> evolves d d'.
Proof. intros [Ht He] id t Hr. unfold row, assignees_of in *. rewrite Ht. by exists t. Qed.
End tables.

(** Takes the guards of an edit apart. *)
Ltac guards :=
  repeat match goal with
    | H : context [if ?b then _ else _] |- _ => destruct b eqn:?; try done
    | H : context [match ?x with _ => _ end] |- _ => destruct x eqn:?; try done
    | H : inr _ = inr _ |- _ => injection H as H
    | H : fails _ = inr _ |- _ => done
    end.

(** ** Which request may do what *)

Section permitted.
Context {Number : Type}.
Abbreviation Value := (Value Number).
Abbreviation Task := (Task Value).
Abbreviation Db := (Db (Number := Number)).
Abbreviation Request := (Request (Number := Number)).
Abbreviation CommitResultReq := (CommitResultReq (Number := Number)).

(** The revision a request says it has seen. *)
Definition expects (r : Request) : option (TaskId * Z) :=
  let of_env env := Some (env_task_id env, env_expected_revision env) in
  match r with
  | ReqSetPromiseWait id _ e | ReqBind id _ _ _ e | ReqRelease id _ _ _ e | ReqFinishPromiseFailure id _ e
  | ReqCancelPromised id e | ReqArchive id e | ReqAssignees id _ _ e | ReqGrant id _ e | ReqRevoke id _ e => Some (id, e)
  | ReqStarted env | ReqRunning env | ReqProgress env _ _ | ReqWaiting env _ | ReqProfile env _ | ReqAck env _ _
  | ReqFail env _ => of_env env
  | ReqCommit req => Some (cm_task_id req, cm_expected_revision req)
  | ReqControl req => if rc_recursive req then None else (fun e => (rc_task_id req, e)) <$> rc_expected_revision req
  | ReqDelegatedControl _ id _ _ e => (fun e => (id, e)) <$> e
  | _ => None
  end.

(** When it arrived, the task had that revision already: it is not a guess. *)
Definition current (r : Request) (d : Db) : Prop :=
  match expects r with Some (id, e) => exists t, row d id = Some t /\ e <= task_revision t | None => True end.

Definition addressed (id : TaskId) (e : Z) (t : Task) : Prop := task_id t = id /\ task_revision t = e.

(** The guard of a runner's write; [cur] says that the request was current. *)
Definition by_runner (c : RequestContext) (env : RunnerWriteEnvelope) (cur : Prop) (phases : list TaskPhase) (t : Task) : Prop :=
  addressed (env_task_id env) (env_expected_revision env) t /\
  (cur -> verify_app_runner_write c t env = inr () /\ phase t ∈ phases).
Definition live_phases : list TaskPhase := [Promised; Accepted; PRunning; Waiting; Paused].

Definition acked (by_ : ActorRef) (applied : bool) (action : TaskControlAction) (now : Z) (t u : Task) : Prop :=
  let t' := set_pending None t in
  if applied then
    match action with
    | Pause => u = set_phase Paused (wait_reason t) t'
    | Resume => u = set_phase PRunning None t'
    | Cancel => task_result t = None /\ u = canceled by_ now t'
    end
  else u = t'.

(** [cur] says that the request gave a revision, and that it was current. *)
Definition controlled (c : RequestContext) (action : TaskControlAction) (request_id : string) (cur : Prop) (now : Z) (t u : Task) : Prop :=
  phase t <> Terminal /\
  ((action = Cancel /\ task_result t = None /\ u = canceled (ctx_actor c) now (set_pending None t) /\
    (cur -> closes_directly t action = true)) \/
   (exists at_, u = set_pending (Some {| control_request_id := request_id; control_action := action;
                                         requested_by := ctx_actor c; requested_at := at_ |}) t /\
    (cur -> closes_directly t action = false /\ control_available t action = inr () /\ exists ty, control_event t action = inr ty))).

Definition may_end (c : RequestContext) (req : CommitResultReq) (d : Db) (t : Task) : Prop :=
  match executor t with
  | App _ _ _ => exists epoch, cm_runner_epoch req = Some epoch /\
    verify_app_runner_write c t (mkEnvelope (cm_task_id req) (cm_app_instance_id req) epoch (cm_expected_revision req)) = inr ()
  | HumanSet => ctx_user_id c ∈ assignees_of d (task_id t) /\ phase t <> Terminal
  | Unbound => False
  end.

(** The table of transitions: what the request [r] of the caller [c] may make of the
    task [t], in the tables [d], but for its revision and the time of the update. *)
Definition permitted (c : RequestContext) (r : Request) (cur : Prop) (d : Db) (now : Z) (t u : Task) : Prop :=
  match r with
  | ReqSetPromiseWait id reason e => zone_trusted c = true /\ addressed id e t /\ promise_wait_edit reason now t = inr u
  | ReqBind id target app instance e => zone_trusted c = true /\ addressed id e t /\ bind_edit target app instance now t = inr u
  | ReqRelease id instance epoch reason e => addressed id e t /\ release_edit instance epoch reason now t = inr u
  | ReqFinishPromiseFailure id error e =>
    zone_trusted c = true /\ addressed id e t /\ promise_failure_edit (ctx_actor c) error now t = inr u
  | ReqCancelPromised id e => zone_trusted c = true /\ addressed id e t /\ promise_cancel_edit (ctx_actor c) now t = inr u
  | ReqStarted env => by_runner c env cur [Accepted] t /\ u = set_phase PRunning None t
  | ReqRunning env => by_runner c env cur [Waiting; Accepted] t /\ u = set_phase PRunning None t
  | ReqProgress env prog message =>
    by_runner c env cur live_phases t /\ progress_edit prog message t now t = inr u
  | ReqWaiting env reason => by_runner c env cur [Accepted; PRunning] t /\ u = set_phase Waiting (Some reason) t
  | ReqProfile env profile => by_runner c env cur live_phases t /\ exists at_, profile_edit profile at_ t now t = inr u
  | ReqAck env request_id applied =>
    by_runner c env cur live_phases t /\
    exists p, control_request_id p = request_id /\ (cur -> pending_control t = Some p) /\
      acked (ctx_actor c) applied (control_action p) now t u
  | ReqCommit req =>
    addressed (cm_task_id req) (cm_expected_revision req) t /\ (cur -> may_end c req d t) /\
    commit_edit (ctx_actor c) (cm_result req) now t = inr u
  | ReqFail env error => by_runner c env cur live_phases t /\ fail_edit (ctx_actor c) error t now t = inr u
  | ReqControl req =>
    if rc_recursive req then
      controlled c (rc_action req) (if String.eqb (task_id t) (rc_task_id req) then rc_request_id req
                                    else rc_request_id req +:+ ":" +:+ task_id t) False now t u
    else task_id t = rc_task_id req /\ stale (rc_expected_revision req) t = false /\
         controlled c (rc_action req) (rc_request_id req) (cur /\ is_Some (rc_expected_revision req)) now t u
  | ReqDelegatedControl controller id action request_id e =>
    zone_trusted c = true /\ task_id t = id /\ stale e t = false /\
    controlled (mkCtx (ctx_user_id controller) (ctx_app_id controller) false false) action request_id (cur /\ is_Some e) now t u
  | ReqArchive id e => addressed id e t /\ (cur -> phase t = Terminal) /\ archive_edit now t = inr u
  | ReqAssignees id _ _ e => addressed id e t /\ executor t = HumanSet /\ phase t <> Terminal /\ u = t
  | ReqGrant id _ e | ReqRevoke id _ e => addressed id e t /\ u = t
  | ReqCreate _ | ReqCreateDelegated _ | ReqCreatePromised _ | ReqNote _ _ _ _ | ReqRegisterSchema _ | ReqSetSchemaEnabled _ _ _ => False
  end.

(** ** What the table keeps *)

(** An update that changes neither the binding nor the result *)
Lemma moves_plain now (t u : Task) :
  rewrites t u -> task_revision u = task_revision t -> runner_epoch u = runner_epoch t -> executor u = executor t ->
  (is_Some (task_result t) -> task_result u = task_result t) -> moves t (next_revision now u).
Proof.
  intros Hc Hr He Hx Hres. unfold next_revision. split; cbn [task_revision runner_epoch executor task_result set_revision].
  - change (set_revision (task_revision u + 1) now u = set_revision (task_revision u + 1) now (write_columns u t)). by rewrite <- Hc.
  - lia.
  - lia.
  - lia.
  - done.
  - rewrite Hx. destruct (executor t); eauto.
  - done.
Qed.

Lemma live_not_terminal (t : Task) : phase t ∈ live_phases -> phase t <> Terminal.
Proof. intros H E. rewrite E in H. set_solver. Qed.

Lemma is_terminal_false p : is_terminal p = false -> p <> Terminal.
Proof. by destruct p. Qed.

Lemma rewrites_refl (t : Task) : rewrites t t.
Proof. by destruct t. Qed.
Ltac plain := apply moves_plain; [first [reflexivity|apply rewrites_refl]|done|done|done|done].

Lemma controlled_moves c action rid cur now t u :
  controlled c action rid cur now t u -> moves t (next_revision now u) /\ phase t <> Terminal.
Proof.
  intros (Hp & [(_ & Hres & -> & _)|(at_ & -> & _)]); (split; [|done]); plain.
Qed.

Lemma by_runner_lives c env (cur : Prop) phases t :
  by_runner c env cur phases t -> cur -> phase t <> Terminal.
Proof.
  intros [_ H] Hc. destruct (H Hc) as [Hv _]. unfold verify_app_runner_write in Hv. guards; by apply is_terminal_false.
Qed.

Lemma acked_moves by_ applied action now t u : acked by_ applied action now t u -> moves t (next_revision now u).
Proof.
  unfold acked. destruct applied; [|intros ->; plain].
  destruct action; [intros ->; plain|intros ->; plain|intros [Hres ->]; plain].
Qed.

(** A new binding of a task that has no result or keeps it *)
Lemma moves_bound now (t u : Task) :
  rewrites t u -> task_revision u = task_revision t -> runner_epoch u = runner_epoch t + 1 ->
  (match executor t with
   | Unbound => executor u <> HumanSet
   | App target _ _ => exists app instance, executor u = App target app instance
   | HumanSet => False
   end) -> task_result u = task_result t -> moves t (next_revision now u).
Proof.
  intros Hc Hr He Hx Hres. unfold next_revision. split; cbn [task_revision runner_epoch executor task_result set_revision]; try lia.
  - change (set_revision (task_revision u + 1) now u = set_revision (task_revision u + 1) now (write_columns u t)). by rewrite <- Hc.
  - by destruct (executor t).
  - by intros _.
Qed.

Lemma bind_edit_inr target app instance now (t u : Task) :
  bind_edit target app instance now t = inr u -> may_bind target t = inr () /\ phase t <> Terminal /\
    u = set_phase Accepted None (set_executor (App target app (Some instance)) (runner_epoch t + 1) t).
Proof.
  unfold bind_edit. destruct (may_bind target t) as [e|[]]; [done|]. intros H.
  destruct (phase t) eqn:E; by simplify_eq/=.
Qed.

Lemma bind_moves target app instance now (t u : Task) : bind_edit target app instance now t = inr u -> moves t (next_revision now u).
Proof.
  intros (Hm & _ & ->)%bind_edit_inr. apply moves_bound; try reflexivity. unfold may_bind in Hm.
  destruct (executor t) as [|target' app' instance'|]; [done| |done].
  destruct (bool_decide (is_Some instance')); [done|]. case_bool_decide as E; [subst|done]. by eexists _, _.
Qed.

Lemma release_moves instance epoch reason now (t u : Task) : release_edit instance epoch reason now t = inr u -> moves t (next_revision now u).
Proof.
  unfold release_edit. intros H. destruct (executor t) as [|target app bound|] eqn:Ex; guards; subst u.
  apply moves_bound; try reflexivity. rewrite Ex. by eexists _, _.
Qed.

Lemma promise_over_inr (t : Task) x : promise_over t = inr x -> executor t = Unbound /\ phase t <> Terminal.
Proof.
  unfold promise_over. intros H. guards.
  match goal with H : negb (bool_decide _) = false |- _ => apply negb_false_iff, bool_decide_eq_true in H end.
  split; [by destruct (executor t)|by apply is_terminal_false].
Qed.

Lemma promise_failure_moves by_ error now (t u : Task) : promise_failure_edit by_ error now t = inr u -> moves t (next_revision now u).
Proof. unfold promise_failure_edit. destruct (promise_over t); [done|]. intros [= <-]. plain. Qed.

Lemma promise_cancel_moves by_ now (t u : Task) : promise_cancel_edit by_ now t = inr u -> moves t (next_revision now u).
Proof. unfold promise_cancel_edit. destruct (promise_over t); [done|]. intros [= <-]. plain. Qed.

(** The guard of every end by a result or an error *)
Lemma unfinished (t : Task) :
  is_terminal (phase t) || bool_decide (is_Some (task_result t)) = false -> phase t <> Terminal /\ task_result t = None.
Proof.
  rewrite orb_false_iff, bool_decide_eq_false. intros [Hp Hr]. split; [by apply is_terminal_false|].
  destruct (task_result t); [|done]. destruct Hr. eauto.
Qed.

Lemma commit_moves by_ result now (t u : Task) : commit_edit by_ result now t = inr u -> moves t (next_revision now u).
Proof.
  unfold commit_edit. destruct (_ || _) eqn:E; [done|]. intros [= <-]. apply unfinished in E as [_ E].
  apply moves_plain; try reflexivity. rewrite E. by intros [].
Qed.

Lemma fail_moves by_ error t0 now (t u : Task) : fail_edit by_ error t0 now t = inr u -> moves t (next_revision now u).
Proof. unfold fail_edit. destruct (_ || _); [done|]. intros [= <-]. plain. Qed.

(** Whatever a request does, the task moves. *)
Lemma permitted_moves c r cur d now t u : permitted c r cur d now t u -> moves t (next_revision now u).
Proof.
  destruct r; cbn [permitted]; try done.
  - intros (_ & _ & H). unfold promise_wait_edit in H. guards. subst u. plain.
  - intros (_ & _ & H). by apply bind_moves in H.
  - intros (_ & H). by apply release_moves in H.
  - intros (_ & _ & H). by apply promise_failure_moves in H.
  - intros (_ & _ & H). by apply promise_cancel_moves in H.
  - intros [_ ->]. plain.
  - intros [_ ->]. plain.
  - intros [_ [= <-]]. plain.
  - intros [_ ->]. plain.
  - intros (_ & at_ & [= <-]). plain.
  - intros (_ & p & _ & _ & H). by eapply acked_moves.
  - intros (_ & _ & H). by apply commit_moves in H.
  - intros [_ H]. by apply fail_moves in H.
  - destruct (rc_recursive req); [|intros (_ & _ & H); revert H]; intros H; by apply controlled_moves in H as [? _].
  - intros (_ & _ & _ & H). by apply controlled_moves in H as [? _].
  - intros (_ & _ & H). unfold archive_edit in H. injection H as <-. destruct (archived_at t); plain.
  - intros (_ & _ & _ & ->). plain.
  - intros (_ & ->). plain.
  - intros (_ & ->). plain.
Qed.

Lemma ended_live (t u : Task) : phase t <> Terminal -> ended t u.
Proof. by intros H E. Qed.

Lemma ended_same now (t : Task) : ended t (next_revision now t).
Proof. intros _. split; [by destruct t|done]. Qed.

(** What a current request does leaves a task that has ended as it is. *)
Lemma permitted_ended c r (cur : Prop) d now t u : permitted c r cur d now t u -> cur -> ended t (next_revision now u).
Proof.
  intros H Hcur.
  assert (Hrun : forall env phases, by_runner c env cur phases t -> ended t (next_revision now u)).
  { intros env phases Hr. by eapply ended_live, by_runner_lives. }
  destruct r; cbn [permitted] in H; try done;
    try (destruct H as [H _]; by eapply Hrun).
  - destruct H as (_ & _ & H). apply ended_live. unfold promise_wait_edit in H. case_bool_decide as E; [|done]. by rewrite E.
  - destruct H as (_ & _ & H). apply ended_live. by apply bind_edit_inr in H as (_ & ? & _).
  - destruct H as (_ & H). apply ended_live. unfold release_edit in H. guards; by apply is_terminal_false.
  - destruct H as (_ & _ & H). apply ended_live. unfold promise_failure_edit in H. destruct (promise_over t) eqn:E; [done|].
    by apply promise_over_inr in E as [_ ?].
  - destruct H as (_ & _ & H). apply ended_live. unfold promise_cancel_edit in H. destruct (promise_over t) eqn:E; [done|].
    by apply promise_over_inr in E as [_ ?].
  - destruct H as (_ & _ & H). apply ended_live. unfold commit_edit in H. destruct (_ || _) eqn:E; [done|]. by apply unfinished in E as [? _].
  - apply ended_live. destruct (rc_recursive req); [|destruct H as (_ & _ & H)]; by apply controlled_moves in H as [_ ?].
  - apply ended_live. destruct H as (_ & _ & _ & H). by apply controlled_moves in H as [_ ?].
  - destruct H as (_ & _ & H). unfold archive_edit in H. injection H as <-. destruct (archived_at t) eqn:E; [apply ended_same|].
    intros _. split; [done|]. rewrite E. by intros [].
  - apply ended_live. apply H.
  - destruct H as [_ ->]. apply ended_same.
  - destruct H as [_ ->]. apply ended_same.
Qed.
End permitted.

(** ** Edits *)

Section edits.
Context {Number : Type}.
Abbreviation Value := (Value Number).
Abbreviation Task := (Task Value).
Abbreviation Edit := (Z -> Task -> RPCErrors + Task).

(** An edit does not look at the assignees, and changes the columns it may. *)
Record edits (f : Edit) : Prop := {
  ed_keeps : keeps f;
  ed_local now t l u : f now (set_assignees t l) = inr u -> f now t = inr (write_columns u t)
}.

Lemma edits_of (f : Edit) :
  (forall now t u, f now t = inr u -> rewrites t u /\ task_revision u = task_revision t) ->
  (forall now t l u, f now (set_assignees t l) = inr u -> f now t = inr (write_columns u t)) -> edits f.
Proof. by split. Qed.

Ltac edit :=
  apply edits_of; intros now t;
    [|intros l; cbn [set_assignees executor runner_epoch phase pending_control task_result archived_at progress task_message]];
  intros u; repeat (case_match; try done); intros; simplify_eq/=; try (split; reflexivity); try reflexivity; try congruence.

Lemma edits_promise_wait reason : edits (promise_wait_edit reason).
Proof. unfold promise_wait_edit. edit. Qed.

Lemma edits_run t0 : edits (run_edit t0).
Proof. unfold run_edit. edit. Qed.

Lemma edits_bind target app instance : edits (bind_edit target app instance).
Proof.
  apply edits_of.
  - by intros now t u (_ & _ & ->)%bind_edit_inr.
  - intros now t l u (Hm & Hp & ->)%bind_edit_inr. unfold bind_edit. cbn in Hm, Hp.
    change (may_bind target t = inr ()) in Hm. rewrite Hm. simpl. by destruct (phase t).
Qed.

Lemma edits_release instance epoch reason : edits (release_edit instance epoch reason).
Proof. unfold release_edit. edit. Qed.

Lemma edits_promise_failure by_ error : edits (promise_failure_edit by_ error).
Proof. unfold promise_failure_edit, promise_over. edit. Qed.

Lemma edits_promise_cancel by_ : edits (promise_cancel_edit by_).
Proof. unfold promise_cancel_edit, promise_over. edit. Qed.

Lemma edits_progress prog message t0 : edits (progress_edit prog message t0).
Proof. unfold progress_edit. edit. Qed.

Lemma edits_wait reason t0 : edits (wait_edit reason t0).
Proof. unfold wait_edit. edit. Qed.

Lemma edits_profile profile at_ t0 : edits (profile_edit profile at_ t0).
Proof. unfold profile_edit. edit. Qed.

Lemma edits_ack by_ applied t0 : edits (ack_edit by_ applied t0).
Proof. unfold ack_edit. edit. Qed.

Lemma edits_commit by_ result : edits (commit_edit by_ result).
Proof. unfold commit_edit. edit. Qed.

Lemma edits_fail by_ error t0 : edits (fail_edit by_ error t0).
Proof. unfold fail_edit. edit. Qed.

Lemma edits_cancel_direct by_ : edits (cancel_direct_edit by_).
Proof. unfold cancel_direct_edit. edit. Qed.

Lemma edits_request request : edits (request_edit request).
Proof. unfold request_edit. edit. Qed.

Lemma edits_archive : edits archive_edit.
Proof.
  apply edits_of; unfold archive_edit; [intros now t u|intros now t l u]; cbn [set_assignees archived_at];
    destruct (archived_at t) eqn:E; intros [= <-]; destruct t; cbn in *; by subst.
Qed.
End edits.
#[export] Hint Resolve edits_promise_wait edits_run edits_bind edits_release edits_promise_failure edits_promise_cancel edits_progress
  edits_wait edits_profile edits_ack edits_commit edits_fail edits_cancel_direct edits_request edits_archive : edits.

(** ** Programs among others *)

Section programs.
Context {Number : Type} (number_eqb : Number -> Number -> bool) (is_integer : Number -> bool).
Context (digest : Value Number -> string).
Context (enforce : string -> string -> string -> string -> option string -> bool) (default_sudo_userid : string -> string).
Abbreviation Value := (Value Number).
Abbreviation Task := (Task Value).
Abbreviation Db := (Db (Number := Number)).
Abbreviation Prog := (Prog (Number := Number)).
Abbreviation Request := (Request (Number := Number)).
Abbreviation exec := (exec digest enforce default_sudo_userid).
Abbreviation handler := (handler number_eqb is_integer digest).

(** What a request promises of each of its steps: the tables stay well formed and
    evolve, and a row it changes becomes what the table of transitions says. *)
Record guarantee (c : RequestContext) (r : Request) (cur : Prop) (d d' : Db) : Prop := {
  gu_wf : wf d';
  gu_evolves : evolves d d';
  gu_changes id t t' : row d id = Some t -> row d' id = Some t' ->
    t' = t \/ exists now u, permitted c r cur d now t u /\ t' = next_revision now u
}.

(** Every step of [p] from tables [d] on keeps the guarantee [G], whatever the
    others do to the tables between its steps. *)
Fixpoint safe {A} (G : Db -> Db -> Prop) (p : Prog A) (d : Db) : Prop :=
  match p with
  | Ret _ => True
  | Op o k => forall d1 tick d2 a, evolves d d1 -> wf d1 -> exec tick o d1 = (d2, a) -> G d1 d2 /\ safe G (k a) d2
  end.

Definition read_only (o : op (Number := Number)) : bool :=
  match o with
  | OpInsertSchema _ | OpSetSchemaEnabled _ _ _ | OpInsertTask _ _ | OpMutate _ _ _ _ _ | OpUpdateAssignees _ _ _ _ _
  | OpInsertGrant _ _ _ _ | OpRevokeGrant _ _ _ _ | OpAddNote _ => false
  | _ => true
  end.

Lemma exec_read_only o tick d : read_only o = true -> (exec tick o d).1 = d.
Proof. by destruct o. Qed.

Lemma safe_mono {A} G (p : Prog A) d d' : evolves d d' -> safe G p d -> safe G p d'.
Proof. destruct p as [a|o k]; [done|]. intros He Hp d1 tick d2 a He1. apply Hp. by transitivity d'. Qed.

Lemma safe_bind {A B} G (p : Prog A) (f : A -> Prog B) d :
  (forall d d', G d d' -> evolves d d') ->
  safe G p d -> (forall a d', evolves d d' -> safe G (f a) d') -> safe G (prog_bind f p) d.
Proof.
  intros HG. revert d. induction p as [a|o k IH]; intros d Hp Hf; [by apply Hf|].
  cbn [prog_bind safe] in *. intros d1 tick d2 a He Hwf E. destruct (Hp d1 tick d2 a He Hwf E) as [Hg Hk].
  split; [done|]. apply IH; [done|]. intros b d' Hd'. apply Hf. transitivity d1; [done|]. transitivity d2; [by apply HG|done].
Qed.

Section request.
Context (c : RequestContext) (r : Request) (cur : Prop).
Abbreviation G := (guarantee c r cur).

Lemma guarantee_refl d : wf d -> G d d.
Proof. intros Hwf. split; [done..|]. intros id t t' -> [= ->]. by left. Qed.

Lemma safe_then {A B} (p : Prog A) (f : A -> Prog B) d :
  safe G p d -> (forall a d', evolves d d' -> safe G (f a) d') -> safe G (prog_bind f p) d.
Proof. apply safe_bind. intros d1 d2 H. apply H. Qed.

Lemma safe_try {A B} (p : Prog (RPCErrors + A)) (k : A -> Prog (RPCErrors + B)) d :
  safe G p d -> (forall a d', evolves d d' -> safe G (k a) d') -> safe G (try p k) d.
Proof. intros Hp Hk. apply safe_then; [done|]. intros [e|a] d' Hd; [done|by apply Hk]. Qed.

Lemma safe_read {A} o (k : reply o -> Prog A) d :
  read_only o = true -> (forall d1 tick, evolves d d1 -> wf d1 -> safe G (k (exec tick o d1).2) d1) -> safe G (Op o k) d.
Proof.
  intros Ho Hk d1 tick d2 a He Hwf E. pose proof (exec_read_only o tick d1 Ho) as Hr. specialize (Hk d1 tick He Hwf).
  rewrite E in Hr, Hk. cbn [fst snd] in Hr, Hk. subst d2. split; [by apply guarantee_refl|done].
Qed.

(** A program that only reads *)
Fixpoint reads {A} (p : Prog A) : Prop :=
  match p with Ret _ => True | Op o k => read_only o = true /\ forall a, reads (k a) end.

Lemma reads_safe {A} (p : Prog A) d : reads p -> safe G p d.
Proof.
  revert d. induction p as [a|o k IH]; intros d Hp; [done|]. destruct Hp as [Ho Hk].
  apply safe_read; [done|]. intros d1 tick _ _. apply IH, Hk.
Qed.

Lemma reads_bind {A B} (p : Prog A) (f : A -> Prog B) : reads p -> (forall a, reads (f a)) -> reads (prog_bind f p).
Proof. intros Hp Hf. induction p as [a|o k IH]; [apply Hf|]. destruct Hp as [Ho Hk]. split; [done|]. intros a. apply IH, Hk. Qed.

Lemma reads_try {A B} (p : Prog (RPCErrors + A)) (k : A -> Prog (RPCErrors + B)) : reads p -> (forall a, reads (k a)) -> reads (try p k).
Proof. intros Hp Hk. apply reads_bind; [done|]. by intros [e|a]. Qed.

Lemma reads_do o : read_only o = true -> reads (do o).
Proof. by split. Qed.

Lemma reads_load_task id : reads (load_task id : Prog (RPCErrors + Task)).
Proof. by split. Qed.

Lemma reads_permission t : reads (permission c t).
Proof. by split. Qed.
Lemma reads_load_visible id : reads (load_visible c id).
Proof.
  apply reads_try; [apply reads_load_task|]. intros t. apply reads_try; [apply reads_permission|]. intros p. by destruct (visible p).
Qed.

Lemma reads_require_action id action : reads (require_action c id action).
Proof. apply reads_try; [apply reads_load_visible|]. intros [t p]. by destruct (allows p action). Qed.

Lemma reads_resolve id version doc kind : reads (resolve_task_schema number_eqb is_integer id version doc kind).
Proof. apply reads_try; [by apply reads_do|]. intros s. by repeat case_match. Qed.

Lemma reads_publish o : reads (publish_outcome o : Prog (RPCErrors + Task)).
Proof. by split. Qed.

(** ** Rules *)

(** A row that is read, with its assignees attached *)
Lemma safe_load {A} id (k : Task -> Prog (RPCErrors + A)) d :
  (forall d1 t l, evolves d d1 -> wf d1 -> row d1 id = Some t -> safe G (k (set_assignees t l)) d1) ->
  safe G (try (load_task id) k) d.
Proof.
  intros Hk. apply safe_read; [done|]. intros d1 tick He Hwf. cbn [exec TaskService.exec snd]. unfold get_task.
  destruct (task_table (tables d1) !! id) as [t|] eqn:Et; [|done]. simpl.
  destruct (attach_assignees_keeps d1 t) as [l ->]. by apply Hk.
Qed.

Lemma safe_assoc {A B C} (p : Prog (RPCErrors + A)) (h : A -> Prog (RPCErrors + B)) (k : B -> Prog (RPCErrors + C)) d :
  safe G (try p (fun a => try (h a) k)) d -> safe G (try (try p h) k) d.
Proof.
  unfold try. cbn [mbind prog_mbind]. revert d. induction p as [[e|a]|o f IH]; intros d Hp; [done|done|].
  intros d1 tick d2 a He Hwf E. destruct (Hp d1 tick d2 a He Hwf E) as [Hg Hs]. split; [done|]. by apply IH.
Qed.

Lemma safe_visible {A} c' id (k : Task * TaskPermission -> Prog (RPCErrors + A)) d :
  (forall d1 d2 t l p, evolves d d1 -> wf d1 -> row d1 id = Some t -> evolves d1 d2 -> safe G (k (set_assignees t l, p)) d2) ->
  safe G (try (load_visible c' id) k) d.
Proof.
  intros Hk. apply safe_assoc, safe_load. intros d1 t l He Hwf Ht. apply safe_assoc.
  apply safe_try; [apply reads_safe; by split|]. intros p d2 He2. destruct (visible p); [|done]. by apply (Hk d1 d2).
Qed.

Lemma safe_require {A} c' id action (k : Task * TaskPermission -> Prog (RPCErrors + A)) d :
  (forall d1 d2 t l p, evolves d d1 -> wf d1 -> row d1 id = Some t -> evolves d1 d2 -> safe G (k (set_assignees t l, p)) d2) ->
  safe G (try (require_action c' id action) k) d.
Proof.
  intros Hk. apply safe_assoc, safe_visible. intros d1 d2 t l p He Hwf Ht He2. destruct (allows p action); [|done].
  by apply (Hk d1 d2).
Qed.

(** An update of one row *)
Lemma guarantee_wrote id t u now d d' :
  wf d -> wrote id t (next_revision now u) d d' -> permitted c r cur d now t u -> G d d'.
Proof.
  intros Hwf Hw Hp. split.
  - by eapply wrote_wf.
  - eapply wrote_evolves; [done|]. by eapply permitted_moves.
  - intros id' v v' Hv. rewrite (wrote_row _ _ _ _ _ id' Hw). destruct (decide (id' = id)) as [->|].
    + intros [= <-]. rewrite (wr_row _ _ _ _ _ Hw) in Hv. injection Hv as <-. right. by exists now, u.
    + intros Hv'. left. congruence.
Qed.

Lemma safe_mutate {A} id actor ty e f (k : reply (OpMutate id actor ty e f) -> Prog A) d :
  edits f ->
  (forall d1 now t u, evolves d d1 -> wf d1 -> row d1 id = Some t -> task_id t = id -> stale e t = false -> f now t = inr u ->
     permitted c r cur d1 now t u) ->
  (forall a d1, evolves d d1 -> safe G (k a) d1) ->
  safe G (Op (OpMutate id actor ty e f) k) d.
Proof.
  intros [Hkeep Hlocal] Hp Hk d1 tick d2 a He Hwf E.
  assert (Hg : G d1 d2).
  { apply mutate_task_spec in E as [->|(t & u & o & Ht & Hs & Hu & _ & Hw)]; [by apply guarantee_refl| |done|done].
    destruct (attach_assignees_keeps d1 t) as [l Hl]. rewrite Hl in Hu. apply Hlocal in Hu.
    eapply guarantee_wrote; [done..|]. apply Hp; try done. by apply (wf_row _ Hwf) in Ht as [-> _]. }
  split; [done|]. apply Hk. transitivity d1; [done|apply Hg].
Qed.

Lemma safe_mutate_publish id actor ty e f d :
  edits f ->
  (forall d1 now t u, evolves d d1 -> wf d1 -> row d1 id = Some t -> task_id t = id -> stale e t = false -> f now t = inr u ->
     permitted c r cur d1 now t u) ->
  safe G (mutate_and_publish id actor ty e f) d.
Proof.
  intros Hf Hp. apply safe_mutate; [done..|]. intros [err|o] d1 _; [done|]. apply reads_safe, reads_publish.
Qed.

Lemma stale_addressed id e (t : Task) : task_id t = id -> stale (Some e) t = false -> addressed id e t.
Proof. intros Hid. simpl. by intros ?%negb_false_iff%Z.eqb_eq. Qed.

(** ** Creation *)

(** The root that was read for a creation *)
Definition root_read (a : CreateTaskArgs (Number := Number)) (root : option TaskId) (d : Db) : Prop :=
  match a_parent_id a with
  | None => root = None
  | Some p => exists tp, row d p = Some tp /\ root = Some (root_id tp)
  end.

Lemma root_read_rooted a root id now d d' :
  root_read a root d -> evolves d d' -> rooted d' (new_row digest a id (default id root) now).
Proof.
  unfold root_read, rooted. cbn [new_row parent_id root_id task_id]. destruct (a_parent_id a) as [p|]; [|by intros ->].
  intros (tp & Hp & ->) He. destruct (He _ _ Hp) as (tp' & Hp' & Hm & _). exists tp'. split; [done|].
  by rewrite (mv_columns _ _ Hm).
Qed.

Lemma safe_insert {A} a root (k : reply (OpInsertTask a root) -> Prog A) d :
  root_read a root d -> (forall x d1, evolves d d1 -> safe G (k x) d1) -> safe G (Op (OpInsertTask a root) k) d.
Proof.
  intros Hroot Hk d1 tick d2 x He Hwf E. cbn [exec TaskService.exec] in E.
  assert (Hg : G d1 d2).
  { apply insert_task_spec in E as [->|[Hi _]]; [by apply guarantee_refl|]. split.
    - eapply inserted_wf; [done| |exact Hi]. by eapply root_read_rooted.
    - by eapply inserted_evolves.
    - intros id t t' Ht Ht'. left. destruct (inserted_evolves _ _ _ Hwf Hi id t Ht) as (t'' & Ht'' & _).
      rewrite (inserted_row _ _ _ id Hi) in Ht'. destruct (decide _) as [->|]; [|congruence].
      by rewrite (inserted_fresh _ _ _ Hwf Hi) in Ht. }
  split; [done|]. apply Hk. transitivity d1; [done|apply Hg].
Qed.

Lemma reads_created_by_another a : reads (created_by_another digest a).
Proof. split; [done|]. intros [t|]; [done|]. by destruct (a_origin_ref a). Qed.

Lemma safe_create_task a d : safe G (create_task digest a) d.
Proof.
  apply safe_read; [done|]. intros d1 tick _ _. destruct (_.2) as [existing|]; [done|].
  assert (Hins : forall root d2, root_read a root d2 -> safe G (inserted ← do (OpInsertTask a root);
      match inserted with
      | None => created_by_another digest a
      | Some (inl e) => refuse e
      | Some (inr (id, event)) => t ← do (OpGetTask id); mret (match t with Some t => inr (mkOutcome t event) | None => inl ReasonError end)
      end) d2).
  { intros root d2 Hroot. apply safe_insert; [done|]. intros [[e|[id event]]|] d3 _; [done| |apply reads_safe, reads_created_by_another].
    apply reads_safe. by split. }
  unfold parent_root. destruct (a_parent_id a) as [p|] eqn:Hp.
  - apply safe_assoc, safe_load. intros d2 t l _ _ Ht. apply Hins. unfold root_read. rewrite Hp. by exists t.
  - apply Hins. unfold root_read. by rewrite Hp.
Qed.

Lemma safe_created a d : safe G (try (create_task digest a) publish_outcome : Prog (RPCErrors + Task)) d.
Proof. apply safe_try; [apply safe_create_task|]. intros o d1 _. apply reads_safe, reads_publish. Qed.

(** ** The handlers *)

(** What a current request read is what it changes. *)
Lemma seen_current (d d1 d2 : Db) id e (t1 t2 : Task) :
  (exists t, row d id = Some t /\ e <= task_revision t) -> evolves d d1 -> evolves d1 d2 ->
  row d1 id = Some t1 -> row d2 id = Some t2 -> task_revision t2 = e -> t1 = t2 /\ assignees_of d1 id = assignees_of d2 id.
Proof.
  intros (t & Ht & He) H1 H2 Ht1 Ht2 Hrev. destruct (H1 _ _ Ht) as (x & Hx & Mx & _). rewrite Ht1 in Hx. injection Hx as <-.
  destruct (H2 _ _ Ht1) as (y & Hy & My & Ay). rewrite Ht2 in Hy. injection Hy as <-.
  pose proof (mv_revision _ _ Mx). pose proof (mv_revision _ _ My).
  split; [apply (mv_same _ _ My)|apply Ay]; lia.
Qed.

(** Whether a request was current, for the task it is about *)
Definition was_current (id : TaskId) (e : Z) (d : Db) : Prop := cur -> exists t, row d id = Some t /\ e <= task_revision t.

Lemma safe_runner_write env ty check edit d :
  was_current (env_task_id env) (env_expected_revision env) d -> (forall t0, edits (edit t0)) ->
  (forall d1 now t t0 l u, addressed (env_task_id env) (env_expected_revision env) t ->
     verify_app_runner_write c t0 env = inr () -> check (set_assignees t0 l) = inr () -> (cur -> t0 = t) ->
     edit (set_assignees t0 l) now t = inr u -> permitted c r cur d1 now t u) ->
  safe G (runner_write c env ty check edit) d.
Proof.
  intros Hcur Hedit Hp. apply safe_load. intros d1 t0 l He Hwf Ht0.
  destruct (verify_app_runner_write c (set_assignees t0 l) env) as [|[]] eqn:Hv; [done|].
  change (verify_app_runner_write c t0 env = inr ()) in Hv. simpl.
  destruct (check (set_assignees t0 l)) as [|[]] eqn:Hc; [done|]. simpl.
  apply safe_mutate_publish; [done|]. intros d2 now t u He2 Hwf2 Ht Hid Hs Hu.
  apply (Hp d2 now t t0 l u); [by apply stale_addressed|done|done| |done].
  intros Hyes. apply negb_false_iff, Z.eqb_eq in Hs. by eapply seen_current; [apply Hcur| | | |done|].
Qed.

Lemma in_phase_inr l (t : Task) x : in_phase l t = inr x -> phase t ∈ l.
Proof.
  unfold in_phase. destruct (existsb _ l) eqn:E; [|done]. intros _. apply existsb_exists in E as (p & Hp & E).
  apply bool_decide_eq_true in E as ->. by apply list_elem_of_In.
Qed.

Lemma verify_live env (t : Task) : verify_app_runner_write c t env = inr () -> phase t ∈ live_phases.
Proof.
  unfold verify_app_runner_write. intros H. guards.
  all: match goal with H : is_terminal _ = false |- _ => apply is_terminal_false in H end; destruct (phase t); set_solver.
Qed.

(** The guard of a runner's write, from what was read *)
Lemma by_runner_of env phases (t t0 : Task) l :
  addressed (env_task_id env) (env_expected_revision env) t -> verify_app_runner_write c t0 env = inr () ->
  in_phase phases (set_assignees t0 l) = inr () -> (cur -> t0 = t) -> by_runner c env cur phases t.
Proof. intros Ha Hv Hc Heq. split; [done|]. intros Hcur. rewrite <- (Heq Hcur). split; [done|]. by apply in_phase_inr in Hc. Qed.

Lemma by_runner_any env (t t0 : Task) :
  addressed (env_task_id env) (env_expected_revision env) t -> verify_app_runner_write c t0 env = inr () ->
  (cur -> t0 = t) -> by_runner c env cur live_phases t.
Proof. intros Ha Hv Heq. split; [done|]. intros Hcur. rewrite <- (Heq Hcur). split; [done|]. by eapply verify_live. Qed.

(** A control request on a task that was read as [t0], in the tables [d0] *)
Lemma safe_control c' action rid expected d d0 d1 t0 l id :
  (forall d2 now t u, task_id t = id -> stale expected t = false ->
     controlled c' action rid (cur /\ is_Some expected) now t u -> permitted c r cur d2 now t u) ->
  (forall e, expected = Some e -> was_current id e d) ->
  evolves d d0 -> wf d0 -> row d0 id = Some t0 -> evolves d0 d1 ->
  safe G (request_control_single c' (set_assignees t0 l) action rid expected) d1.
Proof.
  intros Hp Hcur Hd Hwf Ht0 Hd0. pose proof (wf_row _ Hwf _ _ Ht0) as [Hid _].
  assert (Hsame : forall d2 t, evolves d1 d2 -> row d2 id = Some t -> stale expected t = false -> cur /\ is_Some expected -> t0 = t).
  { intros d2 t He Ht Hs [Hyes [e ->]]. apply negb_false_iff, Z.eqb_eq in Hs.
    eapply (seen_current d d0 d2); [by apply (Hcur e eq_refl)|done|by transitivity d1|done..]. }
  unfold request_control_single. cbn [set_assignees pending_control phase task_id]. rewrite Hid.
  destruct (match pending_control t0 with Some p => _ | None => false end).
  { apply reads_safe. by split. }
  destruct (is_terminal (phase t0)); [done|].
  change (closes_directly (set_assignees t0 l) action) with (closes_directly t0 action).
  change (control_available (set_assignees t0 l) action) with (control_available t0 action).
  change (control_event (set_assignees t0 l) action) with (control_event t0 action).
  destruct (closes_directly t0 action) eqn:Hcl.
  - unfold cancel_direct. cbn [task_id set_assignees]. rewrite Hid.
    apply safe_mutate; [auto with edits| |done]. intros d2 now t u He2 Hwf2 Ht Hidt Hs Hu.
    apply (Hp d2 now t u); [done..|]. unfold cancel_direct_edit in Hu.
    destruct (is_terminal (phase t)) eqn:Hph; [done|]. case_bool_decide as Hres; [done|]. injection Hu as <-.
    split; [by apply is_terminal_false|]. left. split_and!; [| |done|].
    + unfold closes_directly in Hcl. apply andb_true_iff in Hcl as [Ha _]. by apply bool_decide_eq_true in Ha.
    + destruct (task_result t); [|done]. destruct Hres. eauto.
    + intros Hyes. by rewrite <- (Hsame d2 t).
  - destruct (control_available t0 action) as [|[]] eqn:Hav; [done|].
    destruct (control_event t0 action) as [|ty] eqn:Hev; [done|].
    unfold try. cbn [mbind prog_mbind prog_bind mret prog_ret do]. apply safe_read; [done|]. intros d2 tick He2 _. unfold do.
    apply safe_mutate; [auto with edits| |done]. intros d3 now t u He3 Hwf3 Ht Hidt Hs Hu.
    apply (Hp d3 now t u); [done..|]. unfold request_edit in Hu. destruct (is_terminal (phase t)) eqn:Hph; [done|]. injection Hu as <-.
    split; [by apply is_terminal_false|]. right. eexists. split; [done|].
    intros Hyes. rewrite <- (Hsame d3 t); [|by transitivity d2|done..]. split_and!; [done..|by exists ty].
Qed.

Lemma safe_by_zone {A} (p : Prog (RPCErrors + A)) d :
  (zone_trusted c = true -> safe G p d) -> safe G (by_zone c p) d.
Proof. unfold by_zone, require_zone_trusted. destruct (zone_trusted c); [by intros H; apply H|done]. Qed.

Lemma safe_answered {A} (p : Prog A) d : safe G p d -> safe G (answered p) d.
Proof. intros Hp. by apply safe_then. Qed.
End request.

Lemma current_of r d id e : expects r = Some (id, e) -> was_current (current r d) id e d.
Proof. unfold current, was_current. by intros ->. Qed.

(** A transaction on assignees or grants *)
Lemma safe_wrote {A} c r cur o (k : reply o -> Prog A) d :
  (forall d1 tick d2 a, wf d1 -> exec tick o d1 = (d2, a) -> d2 = d1 \/
     exists id t, wrote id t (next_revision (now_ms tick) t) d1 d2 /\ permitted c r cur d1 (now_ms tick) t t) ->
  (forall a, reads (k a)) -> safe (guarantee c r cur) (Op o k) d.
Proof.
  intros Hspec Hk d1 tick d2 a He Hwf E. split; [|apply reads_safe, Hk].
  destruct (Hspec _ _ _ _ Hwf E) as [->|(id & t & Hw & Hp)]; [by apply guarantee_refl|by eapply guarantee_wrote].
Qed.

(** Notes and schemas are no concern of the tasks. *)
Lemma safe_elsewhere {A} c r cur o (k : reply o -> Prog A) d :
  (forall d1 tick d2 a, exec tick o d1 = (d2, a) -> same_tasks d1 d2) ->
  (forall a, reads (k a)) -> safe (guarantee c r cur) (Op o k) d.
Proof.
  intros Hsame Hk d1 tick d2 a He Hwf E. apply Hsame in E. split; [|apply reads_safe, Hk]. split.
  - by eapply same_tasks_wf.
  - by apply same_tasks_evolves.
  - intros id t t' Ht Ht'. left. unfold row in *. rewrite (proj1 E) in Ht'. congruence.
Qed.

Lemma reads_publishing (a : RPCErrors + MutationOutcome (Number := Number)) :
  reads (match a with inl e => mret (inl e) | inr o => publish_outcome o end : Prog (RPCErrors + Task)).
Proof. destruct a; [done|apply reads_publish]. Qed.

(** The creations *)
Lemma safe_handle_create c r cur req d : safe (guarantee c r cur) (handle_create_task number_eqb is_integer digest c req) d.
Proof.
  unfold handle_create_task. destruct (blank _); [done|]. destruct (blank _); [done|].
  apply safe_try; [apply reads_safe; by destruct (initial_state c (r_executor req))|]. intros [[[ex l] ph] wait] d1 _.
  apply safe_try; [apply reads_safe, reads_resolve|]. intros schema d2 _.
  apply safe_try; [|intros [] d3 _; apply safe_created].
  unfold may_create_below. destruct (r_parent_id req); [|done]. apply safe_try; [apply reads_safe, reads_require_action|done].
Qed.

Lemma safe_handle_create_delegated c r cur req d :
  safe (guarantee c r cur) (handle_create_delegated_task number_eqb is_integer digest c req) d.
Proof.
  unfold handle_create_delegated_task. apply safe_by_zone. intros _. destruct (_ || _); [done|]. destruct (_ || _); [done|].
  apply safe_try; [apply reads_safe, reads_resolve|]. intros schema d2 _. apply safe_created.
Qed.

Lemma safe_create_promised c r cur req d : safe (guarantee c r cur) (trusted_create_promised_task number_eqb is_integer digest req) d.
Proof.
  unfold trusted_create_promised_task. destruct (_ || _); [done|]. destruct (_ || _); [done|]. case_match; [done|].
  apply safe_try; [apply reads_safe, reads_resolve|]. intros schema d2 _. apply safe_created.
Qed.

(** The acknowledgement of the pending request that was read *)
Lemma ack_edit_inr by_ applied (t0 t u : Task) now p :
  pending_control t0 = Some p -> ack_edit by_ applied t0 now t = inr u -> acked by_ applied (control_action p) now t u.
Proof.
  intros Hp. unfold ack_edit, acked. rewrite Hp. simpl. destruct applied; [|by intros [= <-]].
  destruct (control_action p); [by intros [= <-]..|]. case_bool_decide as Hr; [done|]. intros [= <-]. split; [|done].
  destruct (task_result t) eqn:E; [|done]. destruct Hr. eauto.
Qed.

Lemma was_current_mono cur id e (d d1 : Db) : evolves d d1 -> was_current cur id e d -> was_current cur id e d1.
Proof.
  intros He H Hc. destruct (H Hc) as (t & Ht & Hle). destruct (He _ _ Ht) as (t' & Ht' & M & _). exists t'.
  split; [done|]. pose proof (mv_revision _ _ M). lia.
Qed.

(** The reports of a runner *)
Lemma safe_phase_report c r cur env ty phases edit d :
  was_current cur (env_task_id env) (env_expected_revision env) d -> (forall t0, edits (edit t0)) ->
  (forall d1 now t t0 u, by_runner c env cur phases t -> edit t0 now t = inr u -> permitted c r cur d1 now t u) ->
  safe (guarantee c r cur) (runner_write c env ty (in_phase phases) edit) d.
Proof.
  intros Hcur Hed Hp. apply safe_runner_write; [done..|]. intros d1 now t t0 l u Ha Hv Hc Heq Hu.
  eapply Hp; [by eapply by_runner_of|done].
Qed.

Lemma safe_report c r cur env ty edit d :
  was_current cur (env_task_id env) (env_expected_revision env) d -> (forall t0, edits (edit t0)) ->
  (forall d1 now t t0 u, by_runner c env cur live_phases t -> edit t0 now t = inr u -> permitted c r cur d1 now t u) ->
  safe (guarantee c r cur) (runner_write c env ty any_phase edit) d.
Proof.
  intros Hcur Hed Hp. apply safe_runner_write; [done..|]. intros d1 now t t0 l u Ha Hv _ Heq Hu.
  eapply Hp; [by eapply by_runner_any|done].
Qed.

Lemma safe_ack c cur env rid applied d :
  was_current cur (env_task_id env) (env_expected_revision env) d ->
  safe (guarantee c (ReqAck env rid applied) cur) (handle_ack_control c env rid applied) d.
Proof.
  intros Hcur. apply safe_runner_write; [done|auto with edits|]. intros d1 now t t0 l u Ha Hv Hc Heq Hu.
  split; [by eapply by_runner_any|]. unfold pending_is in Hc. cbn [pending_control set_assignees] in Hc.
  destruct (pending_control t0) as [p|] eqn:Hp; [|done]. destruct (String.eqb_spec (control_request_id p) rid) as [<-|]; [|done].
  exists p. split_and!; [done|by intros <-%Heq|]. by eapply ack_edit_inr; [|exact Hu].
Qed.

(** A commit by the runner or by a person *)
Lemma safe_commit c cur req d :
  was_current cur (cm_task_id req) (cm_expected_revision req) d ->
  safe (guarantee c (ReqCommit req) cur) (handle_commit_result number_eqb is_integer c req) d.
Proof.
  intros Hcur. apply safe_load. intros d1 t0 l He Hwf Ht0. pose proof (wf_row _ Hwf _ _ Ht0) as [Hid _].
  assert (Hrest : forall d2 schema_id schema_version, evolves d1 d2 ->
      (forall d3 t, evolves d2 d3 -> row d3 (cm_task_id req) = Some t -> cur -> t0 = t -> task_revision t = cm_expected_revision req ->
         may_end c req d3 t) ->
      safe (guarantee c (ReqCommit req) cur)
        (try (do (OpGetSchema schema_id (Some schema_version))) (fun schema : TaskSchemaDefinition Value =>
           if negb (validate_json_schema number_eqb is_integer (output_schema schema) (cm_result req)) then refused ResultSchemaMismatch
           else mutate_and_publish (cm_task_id req) (ctx_actor c) ResultCommitted (Some (cm_expected_revision req))
                  (commit_edit (ctx_actor c) (cm_result req)))) d2).
  { intros d2 si sv He2 Hend. apply safe_try; [by apply reads_safe, reads_do|]. intros schema d3 He3. destruct (negb _); [done|].
    apply safe_mutate_publish; [auto with edits|]. intros d4 now t u He4 Hwf4 Ht Hidt Hs Hu.
    pose proof (stale_addressed _ _ _ Hidt Hs) as Ha. split_and!; [done| |done]. intros Hc.
    apply Hend; [by transitivity d3|done|done| |apply Ha].
    eapply seen_current; [by apply Hcur|exact He| |done|exact Ht|apply Ha]. transitivity d2; [done|]. by transitivity d3. }
  unfold may_commit. cbn [set_assignees executor phase TaskTypes.schema_id TaskTypes.schema_version].
  destruct (executor t0) as [|target app instance|] eqn:Ex; [done| |].
  - destruct (cm_runner_epoch req) as [epoch|] eqn:Hep; [|done]. set (env := mkEnvelope _ _ _ _).
    destruct (verify_app_runner_write c (set_assignees t0 l) env) as [|[]] eqn:Hv; [done|].
    apply (Hrest d1); [done|]. intros d3 t _ _ _ <- _. unfold may_end. rewrite Ex. by exists epoch.
  - unfold try at 1. cbn [mbind prog_mbind prog_bind do]. apply safe_read; [done|]. intros d2 tick He2 Hwf2. cbn [exec TaskService.exec snd].
    destruct (existsb _ _) eqn:Hin; [|done]. destruct (is_terminal (phase t0)) eqn:Hp; [done|].
    apply (Hrest d2); [done|]. intros d3 t He3 Ht Hc <- Hrev. unfold may_end. rewrite Ex.
    destruct (He2 _ _ Ht0) as (t2 & Ht2 & _).
    eapply (seen_current d d2 d3) in Ht2 as [_ Ha]; [|by apply Hcur|by transitivity d1|done|exact Ht|exact Hrev].
    split; [|by apply is_terminal_false]. rewrite Hid, <- Ha. apply existsb_exists in Hin as (x & Hx & ->%String.eqb_eq).
    by apply list_elem_of_In.
Qed.

(** ** Control *)

Lemma controlled_weaken c action rid (P Q : Prop) now (t u : Task) :
  (Q -> P) -> controlled c action rid P now t u -> controlled c action rid Q now t u.
Proof. intros HQ (Hp & [(Ha & Hr & Hu & Hc)|(at_ & Hu & Hc)]); (split; [done|]); [left; split_and!; auto|right; exists at_; split; auto]. Qed.

Lemma safe_single_control c cur req d :
  rc_recursive req = false -> (forall e, rc_expected_revision req = Some e -> was_current cur (rc_task_id req) e d) ->
  forall d1 d2 t0 l, evolves d d1 -> wf d1 -> row d1 (rc_task_id req) = Some t0 -> evolves d1 d2 ->
  safe (guarantee c (ReqControl req) cur)
    (request_control_single c (set_assignees t0 l) (rc_action req) (rc_request_id req) (rc_expected_revision req)) d2.
Proof.
  intros Hrec Hcur d1 d2 t0 l He Hwf Ht0 He2. eapply safe_control; [|exact Hcur|done..].
  intros d3 now t u Hid Hs Hc. cbn [permitted]. rewrite Hrec. done.
Qed.

(** The tasks a recursive request works on are rows. *)
Definition was_row (d : Db) (n : Task) : Prop :=
  exists d0 t l, n = set_assignees t l /\ evolves d0 d /\ wf d0 /\ row d0 (task_id t) = Some t.

Lemma was_row_mono d d' n : evolves d d' -> was_row d n -> was_row d' n.
Proof. intros He (d0 & t & l & -> & H0 & Hwf & Ht). exists d0, t, l. split_and!; [done|by transitivity d|done..]. Qed.

Lemma safe_control_node c cur req root n d :
  rc_recursive req = true -> task_id root = rc_task_id req -> was_row d n ->
  safe (guarantee c (ReqControl req) cur) (control_node c req root n) d.
Proof.
  intros Hrec Hroot (d0 & t0 & l & -> & He & Hwf & Ht0). unfold control_node. destruct (_ && _); [done|].
  destruct (is_terminal _); [done|]. apply safe_try; [apply reads_safe, reads_permission|]. intros p d1 He1.
  destruct (negb _); [done|]. apply safe_then.
  - eapply (safe_control c (ReqControl req) cur c _ _ None d0 d0 d1 t0 l (task_id t0)); [|done..|by transitivity d].
    intros d2 now t u Hid _ Hc. cbn [permitted]. rewrite Hrec. rewrite Hid.
    eapply controlled_weaken; [|cbn [task_id set_assignees] in Hc; rewrite Hroot in Hc; exact Hc]. done.
  - intros [e|o] d2 _.
    + apply reads_safe. destruct (task_mgr_error_code e) as [[]|]; done.
    + apply reads_safe, reads_try; [apply reads_publish|done].
Qed.

Lemma safe_control_all c cur req root nodes res d :
  rc_recursive req = true -> task_id root = rc_task_id req -> Forall (was_row d) nodes ->
  safe (guarantee c (ReqControl req) cur) (control_all c req root nodes res) d.
Proof.
  intros Hrec Hroot. revert res d. induction nodes as [|n nodes IH]; intros res d Hn; [done|]. cbn [control_all].
  apply Forall_cons in Hn as [Hn Hns]. apply safe_try; [by apply safe_control_node|]. intros x d1 He. apply IH.
  eapply Forall_impl; [done|]. intros m. by apply was_row_mono.
Qed.

Lemma push_children_sub (P : Task -> Prop) max current tree frontier found :
  Forall P tree -> Forall P found -> Forall P (push_children max current tree frontier found).1.2.
Proof.
  intros Ht. revert frontier found. induction Ht as [|n tree Hn Ht IH]; intros frontier found Hf; [done|]. cbn [push_children].
  case_bool_decide; [|by apply IH]. case_match; [|apply IH]; (apply Forall_app; split; [done|by constructor]).
Qed.

Lemma walk_subtree_sub (P : Task -> Prop) rounds max tree frontier found res :
  Forall P tree -> Forall P found -> walk_subtree rounds max tree frontier found = Some res -> Forall P res.
Proof.
  intros Ht. revert frontier found. induction rounds as [|rounds IH]; intros [|current frontier] found Hf; cbn [walk_subtree];
    try done; try (by intros [= <-]).
  pose proof (push_children_sub P max current tree frontier found Ht Hf) as Hp.
  destruct (push_children max current tree frontier found) as [[frontier' found'] []]; cbn [fst snd] in Hp; [by intros [= <-]|by apply IH].
Qed.

Lemma page_sub limit (l : list Task) n : n ∈ (page limit l).1 -> n ∈ l.
Proof.
  unfold page. destruct (_ <? _)%nat; cbn [fst]; intros Hn.
  - by apply elem_of_take in Hn as (i & Hi & _); apply list_elem_of_lookup_2, elem_of_take in Hi as (j & Hj & _);
      apply list_elem_of_lookup_2 in Hj.
  - apply elem_of_take in Hn as (j & Hj & _). by apply list_elem_of_lookup_2 in Hj.
Qed.

Lemma ordered_row p (d : Db) n : wf d -> n ∈ ordered p d -> row d (task_id n) = Some n /\ p n = true.
Proof.
  intros Hwf. unfold ordered. rewrite elem_of_sort_stable, elem_of_filterb. intros [Hp Hn]. split; [|done].
  apply list_elem_of_fmap in Hn as ([id t] & -> & Hn). apply elem_of_map_to_list in Hn. simpl.
  by pose proof (wf_row _ Hwf _ _ Hn) as [-> _].
Qed.

Lemma collect_subtree_rows d t max nodes :
  wf d -> was_row d t -> collect_subtree d t max = inr nodes -> Forall (was_row d) nodes.
Proof.
  intros Hwf Hroot. unfold collect_subtree, list_tree, list_tasks. cbn [l_cursor parse_cursor_opt mbind rpc_bind mret rpc_ret].
  destruct (page _ _) as [tree next] eqn:Hp. intros [= <-].
  assert (Htree : Forall (was_row d) tree).
  { apply Forall_forall. intros n Hn. assert (Hin : n ∈ (page (clamp_limit (default 100 (Some (Z.of_nat (Nat.max 1 max))))) 
      (ordered (fun t0 => list_condition (mkListTasks None None None None (Some (root_id t)) None None None None None true None
        (Some (Z.of_nat (Nat.max 1 max)))) t0 && after_cursor None t0) d)).1) by (cbn [l_limit] in Hp; rewrite Hp; done).
    apply page_sub, ordered_row in Hin as [Hr _]; [|done]. exists d, n, (assignees n). split_and!; [by destruct n|done..]. }
  unfold subtree_of. destruct (walk_subtree _ _ _ _ _) as [l|] eqn:Hw; [|done]. simpl.
  eapply walk_subtree_sub; [exact Htree| |exact Hw]. by constructor.
Qed.

Lemma safe_handle_control c cur req d :
  (forall e, rc_recursive req = false -> rc_expected_revision req = Some e -> was_current cur (rc_task_id req) e d) ->
  safe (guarantee c (ReqControl req) cur) (handle_request_control c req) d.
Proof.
  intros Hcur. unfold handle_request_control. destruct (blank _); [done|]. apply safe_require.
  intros d1 d2 t0 l p He Hwf Ht0 He2. destruct (rc_recursive req) eqn:Hrec; cbn [negb].
  - apply safe_read; [done|]. intros d3 tick He3 Hwf3. cbn [exec TaskService.exec snd].
    pose proof (wf_row _ Hwf _ _ Ht0) as [Hid _].
    destruct (collect_subtree _ _ _) as [e|nodes] eqn:Hc; [done|]. apply safe_try; [|done].
    apply safe_control_all; [done..|]. eapply collect_subtree_rows; [done| |exact Hc].
    exists d1, t0, l. split_and!; [done|by transitivity d2|done|]. by rewrite Hid.
  - apply safe_try; [|intros o d3 _; apply reads_safe, reads_try; [apply reads_publish|done]].
    refine (safe_single_control c cur req d Hrec _ d1 d2 t0 l He Hwf Ht0 He2). intros e. by apply Hcur.
Qed.

Lemma safe_handle_delegated c cur controller id action rid e d :
  (forall x, e = Some x -> was_current cur id x d) ->
  safe (guarantee c (ReqDelegatedControl controller id action rid e) cur)
    (handle_request_delegated_control c controller id action rid e) d.
Proof.
  intros Hcur. apply safe_by_zone. intros Hz. destruct (_ || _); [done|]. apply safe_require.
  intros d1 d2 t0 l p He Hwf Ht0 He2. apply safe_try; [|intros o d3 _; apply reads_safe, reads_try; [apply reads_publish|done]].
  eapply safe_control; [|exact Hcur|done..]. intros d3 now t u Hid Hs Hc. done.
Qed.

Lemma safe_handle_archive c cur id e d :
  was_current cur id e d -> safe (guarantee c (ReqArchive id e) cur) (handle_archive_task c id e) d.
Proof.
  intros Hcur. apply safe_require. intros d1 d2 t0 l p He Hwf Ht0 He2.
  change (phase (set_assignees t0 l)) with (phase t0). destruct (is_terminal (phase t0)) eqn:Hp; [|done]. cbn [negb].
  apply safe_mutate_publish; [auto with edits|]. intros d3 now t u He3 Hwf3 Ht Hid Hs Hu.
  pose proof (stale_addressed _ _ _ Hid Hs) as Ha. split_and!; [done| |done]. intros Hc.
  assert (t0 = t) as <-; [|by destruct (phase t0)].
  eapply seen_current; [by apply Hcur|exact He| |done|exact Ht|apply Ha]. by transitivity d2.
Qed.

(** Every handler keeps its promise, whatever runs at the same time. *)
Theorem handler_safe c r d : safe (guarantee c r (current r d)) (handler c r) d.
Proof.
  destruct r as [req|req|req|id reason e|id target app instance e|id instance epoch reason e|id error e|id e|env|env|env prog msg|env reason
    |env profile|env rid applied|req|env error|req|controller id action rid e|id e|id add remove e|id spec e|id gid e|id nt content data|def
    |id version on]; apply safe_answered.
  - apply safe_handle_create.
  - apply safe_handle_create_delegated.
  - apply safe_by_zone. intros _. apply safe_create_promised.
  - apply safe_by_zone. intros Hz. apply safe_mutate_publish; [auto with edits|]. intros d1 now t u _ _ _ Hid Hs Hu.
    split_and!; [done|by apply stale_addressed|done].
  - apply safe_by_zone. intros Hz. apply safe_mutate_publish; [auto with edits|]. intros d1 now t u _ _ _ Hid Hs Hu.
    split_and!; [done|by apply stale_addressed|done].
  - assert (Hrel : forall d1, safe (guarantee c (ReqRelease id instance epoch reason e) (current (ReqRelease id instance epoch reason e) d))
      (trusted_release_app_executor (ctx_actor c) id instance epoch reason e) d1).
    { intros d0. apply safe_mutate_publish; [auto with edits|]. intros d1 now t u _ _ _ Hid Hs Hu.
      split; [by apply stale_addressed|done]. }
    unfold handle_release_app_executor. destruct (zone_trusted c); [apply Hrel|].
    apply safe_try; [apply reads_safe, reads_require_action|]. intros _ d1 _. apply Hrel.
  - apply safe_by_zone. intros Hz. apply safe_mutate_publish; [auto with edits|]. intros d1 now t u _ _ _ Hid Hs Hu.
    split_and!; [done|by apply stale_addressed|done].
  - apply safe_by_zone. intros Hz. apply safe_mutate_publish; [auto with edits|]. intros d1 now t u _ _ _ Hid Hs Hu.
    split_and!; [done|by apply stale_addressed|done].
  - apply safe_phase_report; [by apply current_of|auto with edits|]. intros d1 now t t0 u Hr [= <-]. done.
  - apply safe_phase_report; [by apply current_of|auto with edits|]. intros d1 now t t0 u Hr [= <-]. done.
  - apply safe_report; [by apply current_of|auto with edits|]. done.
  - apply safe_phase_report; [by apply current_of|auto with edits|]. intros d1 now t t0 u Hr [= <-]. done.
  - apply (safe_read c _ _ OpNow); [done|]. intros d1 tick He _.
    apply safe_report; [eapply was_current_mono; [done|by apply current_of]|auto with edits|].
    intros d2 now t t0 u Hr Hu. split; [done|]. by eexists.
  - apply safe_ack. by apply current_of.
  - apply safe_commit. by apply current_of.
  - apply safe_report; [by apply current_of|auto with edits|]. done.
  - apply safe_handle_control. intros e Hrec He. apply current_of. cbn [expects]. by rewrite Hrec, He.
  - apply safe_handle_delegated. intros x ->. by apply current_of.
  - apply safe_handle_archive. by apply current_of.
  - apply safe_try; [apply reads_safe, reads_require_action|]. intros _ d1 _. apply safe_wrote; [|apply reads_publishing].
    intros d2 tick d3 a Hwf [->|(t & o & Ht & Hx & Hp & Hr & _ & Hw)]%update_assignees_spec; [by left| |done]. right.
    exists id, t. split; [done|]. pose proof (wf_row _ Hwf _ _ Ht) as [Hid _]. done.
  - apply safe_try; [apply reads_safe, reads_require_action|]. intros _ d1 _. destruct (bool_decide _); [done|].
    apply safe_wrote; [|apply reads_publishing].
    intros d2 tick d3 a Hwf [->|(t & Ht & Hr & Hw)]%insert_grant_spec; [by left| |done]. right.
    exists id, t. split; [done|]. pose proof (wf_row _ Hwf _ _ Ht) as [Hid _]. done.
  - apply safe_try; [apply reads_safe, reads_require_action|]. intros _ d1 _. apply safe_wrote; [|apply reads_publishing].
    intros d2 tick d3 a Hwf [->|(t & Ht & Hr & Hw)]%revoke_grant_spec; [by left| |done]. right.
    exists id, t. split; [done|]. pose proof (wf_row _ Hwf _ _ Ht) as [Hid _]. done.
  - unfold handle_add_task_note. destruct (String.eqb _ _); [done|].
    apply safe_try; [apply reads_safe, reads_load_visible|]. intros x d1 _. apply (safe_read c _ _ OpNow); [done|]. intros d2 tick _ _.
    apply safe_elsewhere; [|by split]. by intros d3 tick' d4 a [= <- <-].
  - unfold handle_register_task_schema. destruct (blank _); [done|]. destruct (bool_decide _); [done|]. destruct (_ && _); [done|].
    apply safe_read; [done|]. intros d1 tick _ _. cbn [exec TaskService.exec snd]. case_bool_decide.
    + apply safe_try; [by apply reads_safe, reads_do|]. intros s d2 _. by destruct (same_definition _ _ _).
    + apply safe_elsewhere; [|done]. intros d3 tick' d4 a. cbn [exec TaskService.exec]. unfold insert_schema.
      destruct (task_schema d3 !! _); by intros [= <- _].
  - apply safe_by_zone. intros _. apply safe_elsewhere.
    + intros d3 tick' d4 a. cbn [exec TaskService.exec]. unfold set_schema_enabled. destruct (task_schema d3 !! _); by intros [= <- _].
    + intros []; by split.
Qed.

(** ** Runs of the service *)

Abbreviation Service := (Service (Number := Number)).
Abbreviation step := (step number_eqb is_integer digest enforce default_sudo_userid).
Abbreviation reachable := (reachable number_eqb is_integer digest enforce default_sudo_userid).

(** The tables are well formed, and every request that is being answered is safe from here. *)
Record sound (s : Service) : Prop := {
  so_wf : wf (db s);
  so_rest p : p ∈ processes s ->
    safe (guarantee (caller p) (request p) (current (request p) (arrived p))) (rest p) (db s)
}.

Lemma sound_start : sound (mkService empty_db [] []).
Proof. split; [apply wf_empty|]. intros p. by intros ?%not_elem_of_nil. Qed.

Lemma sound_step s s' : sound s -> step s s' -> sound s' /\ evolves (db s) (db s').
Proof.
  intros Hs Hstep. revert Hs.
  destruct Hstep as [d ps bus c r|d ps ps' bus c r d0 o k tick d' a E|d ps p ps' bus]; intros [Hwf Hrest]; cbn [db processes] in *.
  - split; [|done]. split; [done|]. intros p [Hp| ->%list_elem_of_singleton]%elem_of_app; [by apply Hrest|]. apply handler_safe.
  - destruct (Hrest (mkProcess c r d0 (Op o k)) ltac:(set_solver) d tick d' a) as [Hg Hk]; [done|done|exact E|].
    split; [|apply Hg]. split; [apply Hg|]. intros p [Hp|[->|Hp]%elem_of_cons]%elem_of_app; [| exact Hk |].
    + eapply safe_mono; [apply Hg|]. apply Hrest. set_solver.
    + eapply safe_mono; [apply Hg|]. apply Hrest. set_solver.
  - split; [|done]. split; [done|]. intros q Hq. apply Hrest. set_solver.
Qed.

Lemma sound_steps s s' : sound s -> rtc step s s' -> sound s' /\ evolves (db s) (db s').
Proof.
  intros Hs Hrtc. induction Hrtc as [s|s s1 s2 Hstep _ IH]; [done|].
  apply sound_step in Hstep as [Hs1 He1]; [|done]. destruct (IH Hs1) as [Hs2 He2]. split; [done|]. by transitivity (db s1).
Qed.

Lemma reachable_sound s : reachable s -> sound s.
Proof. intros Hr. by apply (sound_steps _ _ sound_start). Qed.
End programs.
