(* ===== verification/TaskLifeTheorems.v ===== *)
(** Theorems on the life of a task: the table of transitions, the history of a
    task, its end, its events and its keys, under all interleavings of requests;
    what the tables hold when requests run alone; the pages of a listing; and what
    the checks outside of the transactions let through. *)
From Stdlib Require Import ZArith Lia Ascii Sorted Permutation.
From stdpp Require Import base tactics numbers gmap strings sorting list relations.
From S2P Require Import Prelude RustString Lists WfJson WfSchema TaskTypes TaskAcl TaskTables TaskService TaskLife.

Section runs.
Context {Number : Type} (number_eqb : Number -> Number -> bool) (is_integer : Number -> bool).
Context (digest : Value Number -> string).
Context (enforce : string -> string -> string -> string -> option string -> bool) (default_sudo_userid : string -> string).
Abbreviation Value := (Value Number).
Abbreviation Task := (Task Value).
Abbreviation Request := (Request (Number := Number)).
Abbreviation Service := (Service (Number := Number)).
Abbreviation step := (step number_eqb is_integer digest enforce default_sudo_userid).
Abbreviation reachable := (reachable number_eqb is_integer digest enforce default_sudo_userid).
Abbreviation exec := (exec digest enforce default_sudo_userid).
Abbreviation handler := (handler number_eqb is_integer digest).
Abbreviation sound := (sound digest enforce default_sudo_userid).

(** ** Schedules *)

(** The requests that arrive and, by its number, the one that goes on. *)
Inductive Move := Arrive (c : RequestContext) (r : Request) | Run (n : nat) (tick : Tick).

Definition play1 (s : Service) (m : Move) : Service :=
  match m with
  | Arrive c r => mkService (db s) (processes s ++ [mkProcess c r (db s) (handler c r)]) (published s)
  | Run n tick =>
    match processes s !! n with
    | Some (mkProcess c r d0 (Op o k)) =>
      let (d', a) := exec tick o (db s) in
      mkService d' (take n (processes s) ++ mkProcess c r d0 (k a) :: drop (S n) (processes s)) (published s ++ published_by o)
    | _ => s
    end
  end.
Definition play (ms : list Move) (s : Service) : Service := fold_left play1 ms s.
Definition start : Service := mkService empty_db [] [].

Lemma play1_step s m : play1 s m = s \/ step s (play1 s m).
Proof.
  destruct s as [d ps bus], m as [c r|n tick]; cbn [play1 db processes published]; [right; apply step_arrive|].
  destruct (ps !! n) as [[c r d0 [|o k]]|] eqn:E; [by left| |by left]. right. destruct (exec tick o d) as [d' a] eqn:Ex.
  rewrite <- (take_drop_middle ps n _ E) at 1. by eapply step_op.
Qed.

Lemma play_steps ms s : rtc step s (play ms s).
Proof.
  revert s. induction ms as [|m ms IH]; intros s; [done|].
  change (play (m :: ms) s) with (play ms (play1 s m)). destruct (play1_step s m) as [->|H]; [done|]. by eapply rtc_l.
Qed.

Lemma play_reachable ms : reachable (play ms start).
Proof. apply play_steps. Qed.

(** ** One step *)

(** Every request gave a revision its task had when it arrived. *)
Definition honest (s : Service) : Prop := forall p, p ∈ processes s -> current (request p) (arrived p).

Definition is_honest (p : Process (Number := Number)) : bool :=
  match expects (request p) with
  | Some (id, e) => match row (arrived p) id with Some t => e <=? task_revision t | None => false end
  | None => true
  end.

Lemma is_honest_spec s : forallb is_honest (processes s) = true -> honest s.
Proof.
  rewrite forallb_forall. intros H p Hp. apply list_elem_of_In, H in Hp. unfold is_honest in Hp. unfold current.
  destruct (expects (request p)) as [[id e]|]; [|done]. destruct (row (arrived p) id) as [t|]; [|done].
  exists t. split; [done|lia].
Qed.

(** A run in which all requests are honest *)
Fixpoint honest_run (ms : list Move) (s : Service) : bool :=
  match ms with [] => true | m :: ms => forallb is_honest (processes s) && honest_run ms (play1 s m) end.

Lemma honest_run_steps ms s : honest_run ms s = true -> rtc (fun x y => honest x /\ step x y) s (play ms s).
Proof.
  revert s. induction ms as [|m ms IH]; intros s; cbn [honest_run]; [done|]. intros [Hs Hms]%andb_true_iff.
  change (play (m :: ms) s) with (play ms (play1 s m)). destruct (play1_step s m) as [E|H].
  - rewrite E in *. by apply IH.
  - eapply rtc_l; [split; [by apply is_honest_spec|exact H]|]. by apply IH.
Qed.

Lemma step_guarantee s s' : sound s -> step s s' ->
  db s' = db s \/
  exists p, p ∈ processes s /\ guarantee (caller p) (request p) (current (request p) (arrived p)) (db s) (db s').
Proof.
  intros Hs Hstep. revert Hs.
  destruct Hstep as [d ps bus c r|d ps ps' bus c r d0 o k tick d' a E|d ps p ps' bus]; intros [Hwf Hrest]; [by left| |by left].
  right. exists (mkProcess c r d0 (Op o k)). cbn [db processes] in *. split; [set_solver|].
  by destruct (Hrest (mkProcess c r d0 (Op o k)) ltac:(set_solver) d tick d' a) as [Hg _].
Qed.

(** C4: A step of the service, whatever requests are under way, leaves a task as
    it is or makes of it what the table of transitions allows a request that is
    being answered to make of it, under the next revision. The guards of the table
    hold in the very state that is changed when the request gave a revision the
    task had already when it arrived. *)
Theorem step_permitted s s' id t :
  reachable s -> step s s' -> row (db s) id = Some t ->
  exists t', row (db s') id = Some t' /\
    (t' = t \/ exists p now u, p ∈ processes s /\
       permitted (caller p) (request p) (current (request p) (arrived p)) (db s) now t u /\ t' = next_revision now u).
Proof.
  intros Hr Hstep Ht. apply reachable_sound in Hr. destruct (step_guarantee _ _ Hr Hstep) as [E|(p & Hp & [_ He Hc])].
  { rewrite E. eauto. }
  destruct (He _ _ Ht) as (t' & Ht' & _). exists t'. split; [done|].
  destruct (Hc _ _ _ Ht Ht') as [->|(now & u & H & ->)]; [by left|]. right. by exists p, now, u.
Qed.

(** C13: A task is never lost, and over any run its identity, its creator, its
    input and its schema stay; its revision and its epoch only grow, a revision
    stands for one content and an epoch for one executor; a task that a person
    does keeps its executor and a bound one its target; a result is final. *)
Theorem task_history s s' id t :
  reachable s -> rtc step s s' -> row (db s) id = Some t -> exists t', row (db s') id = Some t' /\ moves t t'.
Proof.
  intros Hr Hrtc Ht. apply reachable_sound in Hr. destruct (sound_steps _ _ _ _ _ _ _ Hr Hrtc) as [_ He].
  destruct (He _ _ Ht) as (t' & Ht' & Hm & _). by exists t'.
Qed.

(** C14: A task that has ended stays as it is, but for its revision and its place
    in the archive, which it keeps, as long as no request gives a revision its task
    did not have when the request arrived. *)
Theorem terminal_absorbing s s' id t :
  reachable s -> rtc (fun x y => honest x /\ step x y) s s' -> row (db s) id = Some t -> phase t = Terminal ->
  exists t', row (db s') id = Some t' /\
    t' = set_revision (task_revision t') (task_updated_at t') (set_archived (archived_at t') t) /\
    (is_Some (archived_at t) -> archived_at t' = archived_at t).
Proof.
  intros Hr Hrtc Ht Hp. cut (exists t', row (db s') id = Some t' /\ ended t t').
  { intros (t' & Ht' & He). exists t'. split; [done|]. by apply He. }
  clear Hp. revert t Ht. induction Hrtc as [s|s s1 s2 [Hh Hstep] _ IH]; intros t Ht; [by exists t|].
  assert (Hr1 : reachable s1) by (eapply rtc_r; [exact Hr|done]).
  apply reachable_sound in Hr. destruct (step_guarantee _ _ Hr Hstep) as [E|(p & Hp & [_ He Hc])].
  { apply IH; [done|]. by rewrite E. }
  destruct (He _ _ Ht) as (t1 & Ht1 & _). destruct (IH Hr1 _ Ht1) as (t2 & Ht2 & E2). exists t2. split; [done|].
  transitivity t1; [|done]. destruct (Hc _ _ _ Ht Ht1) as [->|(now & u & H & ->)]; [done|].
  eapply permitted_ended; [exact H|]. by apply Hh.
Qed.

(** C29: The durable events of a task are its revisions, one for each, in order. *)
Theorem events_are_revisions s id :
  reachable s ->
  event_revision <$> events_of (db s) id = match row (db s) id with Some t => seqZ 1 (task_revision t) | None => [] end.
Proof. intros Hr%reachable_sound. apply (wf_events _ (so_wf _ _ _ _ Hr)). Qed.

(** However creations race, a creator has one task for an idempotency key and
    an origin has one task. *)
Theorem one_task_per_key s id id' t t' :
  reachable s -> row (db s) id = Some t -> row (db s) id' = Some t' ->
  same_creation t t' = true \/ same_origin t t' = true -> id = id'.
Proof.
  intros Hr%reachable_sound Ht Ht' H. pose proof (so_wf _ _ _ _ Hr) as Hwf.
  destruct H; [by eapply (wf_creation _ Hwf)|by eapply (wf_origin _ Hwf)].
Qed.
End runs.

(** ** Pages *)

Section pages.
Context {Number : Type}.
Abbreviation Value := (Value Number).
Abbreviation Task := (Task Value).
Abbreviation Db := (Db (Number := Number)).




(** What a cursor made of [x] leaves is what comes strictly after [x]. *)
Definition key (x : Task) : Z * string := (created_at x, task_id x).



Definition rows_of (d : Db) : list Task := (map_to_list (task_table (tables d))).*2.

Lemma ordered_perm p d : ordered p d ≡ₚ List.filter p (rows_of d).
Proof. apply sort_stable_perm. Qed.






(** ** All the pages of a listing *)





Section listing.
Context (d : Db) (req : ListTasksReq) (Hwf : wf d) (Hclock : forall id t, row d id = Some t -> 0 <= created_at t <= i64_max).
Abbreviation L := (ordered (list_condition req) d).

Lemma listing_nodup : NoDup (task_id <$> L).
Proof using Hwf.
  rewrite ordered_perm. apply sublist_NoDup with (task_id <$> rows_of d).
  - unfold rows_of. rewrite <- list_fmap_compose.
    rewrite (list_fmap_ext _ fst); [apply NoDup_fst_map_to_list|].
    intros i [id t] Hi. apply list_elem_of_lookup_2, elem_of_map_to_list in Hi. by destruct (wf_row _ Hwf _ _ Hi).
  - apply fmap_sublist. apply filterb_sublist.
Qed.



End listing.

End pages.

(** ** Trees *)

Section trees.
Context {Number : Type}.
Abbreviation Value := (Value Number).
Abbreviation Task := (Task Value).
Abbreviation Db := (Db (Number := Number)).

(** The rows of a tree, in the order of creation *)
Definition tree_of (d : Db) (root : TaskId) : list Task := ordered (fun t => bool_decide (root_id t = root)) d.

(** [y] is a child of [x] in the tree of [root]. *)
Definition child (d : Db) (root x y : TaskId) : Prop :=
  exists t, row d y = Some t /\ root_id t = root /\ parent_id t = Some x.

Lemma list_condition_tree root cursor limit (t : Task) :
  list_condition (mkListTasks None None None None (Some root) None None None None None true cursor limit) t
  = bool_decide (root_id t = root).
Proof.
  unfold list_condition. cbn. rewrite !andb_true_r. apply bool_decide_ext. split; congruence.
Qed.

Lemma ordered_ext p q (d : Db) : (forall t, p t = q t) -> ordered p d = ordered q d.
Proof. intros H. unfold ordered. f_equal. by apply List.filter_ext. Qed.

Lemma page_front limit (l : list Task) : (page limit l).1 = take limit l.
Proof.
  unfold page. destruct (Nat.ltb_spec limit (length (take (S limit) l))) as [H|H]; rewrite length_take in H; simpl.
  - rewrite take_take. f_equal. lia.
  - by rewrite !take_ge by lia.
Qed.

Lemma collect_subtree_eq (d : Db) t :
  collect_subtree d t MAX_RECURSIVE_CONTROL_NODES
  = inr (subtree_of MAX_RECURSIVE_CONTROL_NODES (take 500 (tree_of d (root_id t))) t).
Proof.
  unfold collect_subtree, list_tree, list_tasks. cbn [l_cursor l_limit parse_cursor_opt mbind rpc_bind mret rpc_ret default].
  rewrite (ordered_ext _ (fun x => bool_decide (root_id x = root_id t))).
  2:{ intros x. rewrite list_condition_tree. simpl. apply andb_true_r. }
  fold (tree_of d (root_id t)). replace (clamp_limit _) with 500%nat by by vm_compute.
  pose proof (page_front 500 (tree_of d (root_id t))) as Hp. by destruct (page _ _) as [tree next]; simpl in Hp; subst.
Qed.

Definition parent (d : Db) (x y : TaskId) : Prop := exists t, row d x = Some t /\ parent_id t = Some y.

Lemma climbs (d : Db) id t : wf d -> row d id = Some t ->
  rtc (parent d) id (root_id t) /\ exists r, row d (root_id t) = Some r /\ parent_id r = None.
Proof.
  intros Hwf. destruct (wf_forest _ Hwf) as [rank Hrank]. revert t.
  remember (rank id) as n eqn:E. revert id E. induction (lt_wf n) as [n _ IH]. intros id -> t Ht.
  pose proof (wf_rooted _ Hwf _ _ Ht) as Hr. pose proof (wf_row _ Hwf _ _ Ht) as [Hid _]. unfold rooted in Hr.
  destruct (parent_id t) as [p|] eqn:Hp; [|rewrite Hr, Hid; split; [done|by exists t]].
  destruct Hr as (tp & Htp & <-). destruct (IH (rank p) (Hrank _ _ _ Ht Hp) p eq_refl tp Htp) as [Hc Hroot].
  split; [|done]. eapply rtc_l; [|exact Hc]. by exists t.
Qed.

Lemma parent_ranked (d : Db) (rank : TaskId -> nat) x y :
  (forall id t p, row d id = Some t -> parent_id t = Some p -> (rank p < rank id)%nat) -> tc (parent d) x y -> (rank y < rank x)%nat.
Proof.
  intros Hrank H. induction H as [x y (t & Ht & Hp)|x y z (t & Ht & Hp) _ IH]; [by eapply Hrank|].
  pose proof (Hrank _ _ _ Ht Hp). lia.
Qed.

(** ** The walk over a tree *)

Section walk.
Context (tree : list Task).
Definition children (x : TaskId) : list Task := List.filter (fun n => bool_decide (parent_id n = Some x)) tree.
Abbreviation ids l := (task_id <$> (l : list Task)).

Lemma push_children_spec max x frontier found :
  (length found + length (children x) < max)%nat ->
  push_children max x tree frontier found = (reverse (ids (children x)) ++ frontier, found ++ children x, false).
Proof.
  unfold children. revert frontier found. induction tree as [|n l IH]; intros frontier found; simpl; [by rewrite app_nil_r|].
  case_bool_decide as E; simpl; intros Hlen; [|by rewrite IH].
  destruct (Nat.leb_spec max (length (found ++ [n]))) as [H|H]; [rewrite length_app in H; simpl in H; lia|].
  rewrite IH by (rewrite length_app; simpl; lia). by rewrite reverse_cons, <- !app_assoc.
Qed.

Context (rank : TaskId -> nat) (t : Task).
Context (Hids : NoDup (ids tree)) (Ht : task_id t ∈ ids tree).
Context (Hrank : forall n x, n ∈ tree -> parent_id n = Some x -> (rank x < rank (task_id n))%nat).

(** Tasks [done_] have been taken off the stack: what was found are [t] and their children. *)
Record walking (done_ frontier : list TaskId) (found : list Task) : Prop := {
  wk_found : found ≡ₚ t :: flat_map children done_;
  wk_ids : ids found ≡ₚ done_ ++ frontier;
  wk_once : NoDup (ids found);
  wk_rank n : n ∈ found -> (rank (task_id t) <= rank (task_id n))%nat
}.

Lemma elem_of_children n x : n ∈ children x <-> n ∈ tree /\ parent_id n = Some x.
Proof. unfold children. rewrite elem_of_filterb, bool_decide_eq_true. naive_solver. Qed.

Lemma tree_ids n m : n ∈ tree -> m ∈ tree -> task_id n = task_id m -> n = m.
Proof using Hids.
  intros (i & Hi)%list_elem_of_lookup (j & Hj)%list_elem_of_lookup E.
  assert (i = j) as ->; [|congruence]. eapply NoDup_lookup; [exact Hids| |]; rewrite list_lookup_fmap, ?Hi, ?Hj; simpl; by rewrite ?E.
Qed.

Lemma walking_found done_ frontier found n :
  walking done_ frontier found -> n ∈ found <-> n = t \/ exists x, x ∈ done_ /\ n ∈ tree /\ parent_id n = Some x.
Proof.
  intros [-> _ _ _]. rewrite elem_of_cons, list_elem_of_In, in_flat_map. setoid_rewrite <- list_elem_of_In.
  setoid_rewrite elem_of_children. done.
Qed.

Lemma walking_bound done_ frontier found : walking done_ frontier found -> (length found <= length tree)%nat.
Proof using Ht.
  intros Hw. rewrite <- (length_fmap task_id found), <- (length_fmap task_id tree). apply submseteq_length, NoDup_submseteq.
  { apply Hw. }
  intros i (n & -> & Hn)%list_elem_of_fmap. apply (walking_found _ _ _ _ Hw) in Hn as [->|(x & _ & Hn & _)]; [done|].
  by apply list_elem_of_fmap_2.
Qed.

Lemma walking_step done_ x frontier found :
  walking done_ (x :: frontier) found ->
  walking (done_ ++ [x]) (reverse (ids (children x)) ++ frontier) (found ++ children x).
Proof using Hids Hrank Ht.
  intros Hw. pose proof Hw as [W1 W2 W3 W4]. assert (Hnew : x ∉ done_).
  { rewrite W2 in W3. apply NoDup_app in W3 as (_ & H & _). intros Hx. apply (H x Hx). by left. }
  assert (Hx : exists m, m ∈ found /\ task_id m = x).
  { assert (H : x ∈ ids found) by (rewrite W2; set_solver). apply list_elem_of_fmap in H as (m & -> & Hm). by exists m. }
  destruct Hx as (m & Hm & Hmx). pose proof (W4 _ Hm) as Hr. rewrite Hmx in Hr.
  split.
  - rewrite W1, flat_map_app. simpl. by rewrite app_nil_r.
  - rewrite fmap_app, W2, reverse_Permutation, <- !app_assoc. simpl. f_equiv. f_equiv. by rewrite Permutation_app_comm.
  - rewrite fmap_app. apply NoDup_app. split_and!; [done| |].
    + intros i (n & -> & Hn)%list_elem_of_fmap (n' & E & Hn'%elem_of_children)%list_elem_of_fmap. destruct Hn' as [Hn' Hp'].
      apply (walking_found _ _ _ _ Hw) in Hn as [->|(y & Hy & Hn & Hp)].
      * pose proof (Hrank _ _ Hn' Hp'). rewrite <- E in *. lia.
      * assert (n = n') as -> by by apply tree_ids. congruence.
    + eapply sublist_NoDup; [exact Hids|]. apply fmap_sublist, filterb_sublist.
  - intros n [Hn|[Hn Hp]%elem_of_children]%elem_of_app; [by apply W4|]. pose proof (Hrank _ _ Hn Hp). lia.
Qed.

(** The loop ends with the stack empty, and the result is closed under children. *)
Lemma walk_subtree_exact max rounds done_ frontier found :
  walking done_ frontier found -> (length tree < max)%nat -> (length tree <= rounds + length done_)%nat ->
  exists done' l, walk_subtree rounds max tree frontier found = Some l /\ walking done' [] l /\
    (forall P : TaskId -> Prop, (forall x, x ∈ done_ ++ frontier -> P x) ->
       (forall x n, P x -> n ∈ tree -> parent_id n = Some x -> P (task_id n)) -> forall n, n ∈ l -> P (task_id n)).
Proof using Hids Hrank Ht.
  revert done_ frontier found. induction rounds as [|rounds IH]; intros done_ [|x frontier] found Hw Hmax Hlen; cbn [walk_subtree].
  1,3: exists done_, found; split_and!; [done..|]; intros P HP _ n Hn; apply HP; rewrite <- (wk_ids _ _ _ Hw); by apply list_elem_of_fmap_2.
  - exfalso. pose proof (walking_bound _ _ _ Hw) as Hb. pose proof (Permutation_length (wk_ids _ _ _ Hw)) as Hl.
    rewrite length_fmap, length_app in Hl. simpl in Hl. lia.
  - pose proof (walking_step _ _ _ _ Hw) as Hw'. pose proof (walking_bound _ _ _ Hw') as Hb. rewrite length_app in Hb.
    rewrite push_children_spec by lia. cbn [fst snd].
    destruct (IH _ _ _ Hw') as (done' & l & El & Hl & HP); [done|rewrite length_app; simpl; lia|].
    exists done', l. split_and!; [done..|]. intros P H0 Hc. apply HP; [|done]. intros y Hy. rewrite !elem_of_app, elem_of_reverse, list_elem_of_singleton in Hy.
    destruct Hy as [[Hy|Hy]|[Hy|Hy]]; try (apply H0; apply elem_of_app; rewrite ?elem_of_cons; tauto).
    apply list_elem_of_fmap in Hy as (n & -> & [Hn Hp]%elem_of_children). apply (Hc x); [|done..]. apply H0, elem_of_app. right. by left.
Qed.
End walk.

(** C26: Tasks form trees: from every task the parents lead to its root, which is a
    task without a parent, and no task is its own ancestor. *)
Theorem tasks_form_trees (number_eqb : Number -> Number -> bool) is_integer digest enforce default_sudo_userid (s : Service) id t :
  reachable number_eqb is_integer digest enforce default_sudo_userid s -> row (db s) id = Some t ->
  rtc (parent (db s)) id (root_id t) /\ (exists r, row (db s) (root_id t) = Some r /\ parent_id r = None) /\
  ~ tc (parent (db s)) id id.
Proof.
  intros Hr%reachable_sound Ht. pose proof (so_wf _ _ _ _ Hr) as Hwf.
  destruct (climbs _ _ _ Hwf Ht) as [Hc Hroot]. split_and!; [done..|].
  destruct (wf_forest _ Hwf) as [rank Hrank]. intros H%(parent_ranked _ rank); [lia|exact Hrank].
Qed.

(** C27: A recursive request works on the task and all its descendants, each once,
    when the tree has at most five hundred tasks. *)
Theorem subtree_exact (d : Db) (t t0 : Task) :
  wf d -> row d (task_id t) = Some t0 -> root_id t0 = root_id t ->
  (length (tree_of d (root_id t)) <= 500)%nat ->
  exists l, collect_subtree d t MAX_RECURSIVE_CONTROL_NODES = inr l /\ NoDup (task_id <$> l) /\
    forall id, id ∈ task_id <$> l <-> rtc (child d (root_id t)) (task_id t) id.
Proof.
  intros Hwf Ht Hroot Hlen. destruct (wf_forest _ Hwf) as [rank Hrank]. rewrite collect_subtree_eq, take_ge by done. set (tree := tree_of d (root_id t)).
  assert (Hin : forall n, n ∈ tree <-> row d (task_id n) = Some n /\ root_id n = root_id t).
  { intros n. split.
    - intros [? E]%ordered_row; [|done]. split; [done|]. by apply bool_decide_eq_true in E.
    - intros [Hn E]. unfold tree, tree_of, ordered. rewrite elem_of_sort_stable, elem_of_filterb, bool_decide_eq_true. split; [done|].
      apply list_elem_of_fmap. exists (task_id n, n). split; [done|]. by apply elem_of_map_to_list. }
  assert (Hids : NoDup (task_id <$> tree)).
  { pose proof (listing_nodup d (mkListTasks None None None None (Some (root_id t)) None None None None None true None None) Hwf) as H.
    by rewrite (ordered_ext _ (fun x => bool_decide (root_id x = root_id t))) in H by apply list_condition_tree. }
  assert (Hself : task_id t ∈ task_id <$> tree).
  { pose proof (wf_row _ Hwf _ _ Ht) as [E _]. rewrite <- E. apply list_elem_of_fmap_2, Hin. by rewrite E. }
  destruct (walk_subtree_exact tree rank t Hids Hself) with (max := MAX_RECURSIVE_CONTROL_NODES) (rounds := MAX_RECURSIVE_CONTROL_NODES)
    (done_ := @nil TaskId) (frontier := [task_id t]) (found := [t]) as (done' & l & El & Hl & HP).
  - intros n x [Hn _]%Hin. by apply Hrank.
  - split; try done; [apply NoDup_singleton|]. by intros n ->%list_elem_of_singleton.
  - unfold MAX_RECURSIVE_CONTROL_NODES. fold tree in Hlen. lia.
  - unfold MAX_RECURSIVE_CONTROL_NODES. fold tree in Hlen. simpl. lia.
  - exists l. unfold subtree_of. change (Nat.max 1 MAX_RECURSIVE_CONTROL_NODES) with MAX_RECURSIVE_CONTROL_NODES. rewrite El.
    split_and!; [done|apply Hl|]. intros id. split.
    + intros (n & -> & Hn)%list_elem_of_fmap. apply (HP (fun i => rtc (child d (root_id t)) (task_id t) i)); [| |done].
      * by intros x ->%list_elem_of_singleton.
      * intros x m Hx [Hm Hr]%Hin Hp. eapply rtc_r; [exact Hx|]. by exists m.
    + intros Hrtc. pattern id. eapply rtc_ind_r; [| |exact Hrtc].
      * apply list_elem_of_fmap_2. apply (walking_found _ _ _ _ _ _ _ Hl). by left.
      * intros x y _ (m & Hm & Hr & Hp) Hx. rewrite (wk_ids _ _ _ _ _ _ Hl), app_nil_r in Hx.
        pose proof (wf_row _ Hwf _ _ Hm) as [E _]. rewrite <- E. apply list_elem_of_fmap_2. apply (walking_found _ _ _ _ _ _ _ Hl).
        right. exists x. split_and!; [done|apply Hin; by rewrite E|done].
Qed.

(** A recursive request never refuses a tree: it works on the task and on
    tasks among the first five hundred of its tree, and says nothing of the others. *)
Theorem subtree_truncated (d : Db) (t : Task) :
  exists l, collect_subtree d t MAX_RECURSIVE_CONTROL_NODES = inr l /\
    Forall (fun n => n = t \/ n ∈ take 500 (tree_of d (root_id t))) l.
Proof.
  rewrite collect_subtree_eq. eexists. split; [done|]. unfold subtree_of. destruct (walk_subtree _ _ _ _ _) as [l|] eqn:Hw; [|done].
  simpl. eapply walk_subtree_sub; [| |exact Hw].
  - apply Forall_forall. auto.
  - constructor; auto.
Qed.
End trees.

(** ** Creation *)

Section creation.
Context {Number : Type} (digest : Value Number -> string).
Context (enforce : string -> string -> string -> string -> option string -> bool) (default_sudo_userid : string -> string).
Abbreviation Value := (Value Number).
Abbreviation Task := (Task Value).
Abbreviation Db := (Db (Number := Number)).
Abbreviation Prog := (Prog (Number := Number)).
Abbreviation CreateTaskArgs := (CreateTaskArgs (Number := Number)).

(** A program nothing runs next to *)
Fixpoint run_alone {A} (tick : Tick) (p : Prog A) (d : Db) : Db * A :=
  match p with
  | Ret a => (d, a)
  | Op o k => let (d, a) := exec digest enforce default_sudo_userid tick o d in run_alone tick (k a) d
  end.

Lemma head_unique {A} (l : list A) x : x ∈ l -> (forall y, y ∈ l -> y = x) -> head l = Some x.
Proof. destruct l as [|y l]; [by intros ?%not_elem_of_nil|]. intros _ H. simpl. f_equal. apply H. by left. Qed.

Lemma find_by_idempotency_exact (d : Db) user app key id t :
  wf d -> row d id = Some t -> user_id (creator t) = user -> app_id (creator t) = app -> idempotency_key t = key ->
  find_by_idempotency d user app key = Some (attach_assignees (tables d) t).
Proof.
  intros Hwf Ht <- <- <-. unfold find_by_idempotency. rewrite (head_unique _ t); [done| |].
  - rewrite elem_of_filterb, !String.eqb_refl. split; [done|]. apply list_elem_of_fmap. exists (id, t). split; [done|].
    by apply elem_of_map_to_list.
  - intros u [Hu ([id' u'] & -> & Hin)%list_elem_of_fmap]%elem_of_filterb. apply elem_of_map_to_list in Hin. simpl in *.
    assert (id' = id) as ->; [|unfold row in Ht; congruence]. eapply (wf_creation _ Hwf); [exact Hin|exact Ht|exact Hu].
Qed.

(** What the code compares of a repeated creation: the schema, its version, the
    digest of the input, the parent and the kind of executor. *)
Definition replayable (t : Task) (a : CreateTaskArgs) : Prop :=
  schema_id t = a_schema_id a /\ schema_version t = a_schema_version a /\ input_digest t = digest (a_input a) /\
  parent_id t = a_parent_id a /\ executor_kind (executor t) = executor_kind (a_executor a).
#[export] Instance replayable_dec t a : Decision (replayable t a).
Proof. unfold replayable. apply _. Defined.

(** C25: A creation under a key its creator has used before changes nothing.  It
    is answered with the task made then if schema, version, digest of the input,
    parent and kind of executor are that task's, and refused as a conflict if
    one of them is not.  That is all the code compares: section 13.1 of the
    design document wants the policy, the executor itself and the envelope of a
    dispatch compared as well ([policy_not_compared]). *)
Theorem create_idempotent (d : Db) (a : CreateTaskArgs) tick id t :
  wf d -> row d id = Some t ->
  user_id (creator t) = user_id (a_creator a) -> app_id (creator t) = app_id (a_creator a) -> idempotency_key t = a_idempotency_key a ->
  exists event, run_alone tick (create_task digest a) d =
    (d, if decide (replayable t a) then inr (mkOutcome (attach_assignees (tables d) t) event) else fails IdempotencyConflict).
Proof.
  intros Hwf Ht Hu Ha Hk. unfold create_task, do. cbn [mbind prog_mbind prog_bind run_alone exec].
  rewrite (find_by_idempotency_exact _ _ _ _ _ _ Hwf Ht Hu Ha Hk). cbn [run_alone mret prog_ret]. unfold replay_created.
  destruct (attach_assignees_keeps d t) as [l ->].
  cbn [set_assignees TaskTypes.schema_id TaskTypes.schema_version input_digest parent_id executor task_id root_id task_revision created_at].
  eexists. f_equal. unfold replayable. destruct (decide _) as [(-> & -> & -> & -> & ->)|Hne].
  - rewrite !String.eqb_refl, Z.eqb_refl, !bool_decide_true by done. done.
  - match goal with |- context [if ?b then _ else _] => destruct b eqn:E end; [|done]. destruct Hne.
    rewrite !andb_true_iff, !String.eqb_eq, Z.eqb_eq, !bool_decide_eq_true in E. naive_solver.
Qed.

(** Nothing else of a repeated creation counts: neither the policy, the
    boundary and the control of its children, nor who the executor is. *)
Theorem policy_not_compared (t : Task) (a : CreateTaskArgs) name origin control policy_preset boundary retry supersedes
    executor assignees phase reason message :
  executor_kind executor = executor_kind (a_executor a) ->
  replay_created digest t
    (mkArgs name (a_schema_id a) (a_schema_version a) (a_input a) (a_creator a) (a_idempotency_key a) origin (a_parent_id a) control
       policy_preset boundary retry supersedes executor assignees phase reason message)
  = replay_created digest t a.
Proof. intros E. unfold replay_created. cbn. by rewrite E. Qed.

(** The digest of an input is taken of a text that does not delimit keys: an
    object of one entry and one of two have the same digest. *)
Theorem input_digest_collides scalar_text sha256 k k' (x v : Value) :
  compute_task_input_digest scalar_text sha256
    (VObject [(k +:+ ":" +:+ hash_canonical_json_value scalar_text x +:+ "," +:+ k', v)])
  = compute_task_input_digest scalar_text sha256 (VObject [(k, x); (k', v)]).
Proof. unfold compute_task_input_digest. f_equal. cbn. f_equal. by rewrite !string_app_assoc. Qed.
End creation.

(** ** Runs of a small zone *)

Module LifeExamples.
Definition scalar (v : Value Z) : string :=
  match v with VNumber n => u64_to_string n | VString s => s | VBool true => "true" | VBool false => "false" | _ => "null" end.
Definition digest : Value Z -> string := compute_task_input_digest scalar (fun s => s).
Definition enforce (_ _ _ _ : string) (_ : option string) : bool := false.
Definition sudo_id (s : string) : string := s.
Definition is_integer (_ : Z) : bool := true.
Abbreviation play := (play Z.eqb is_integer digest enforce sudo_id).
Abbreviation play1 := (play1 Z.eqb is_integer digest enforce sudo_id).
Abbreviation step := (step Z.eqb is_integer digest enforce sudo_id).
Abbreviation reachable := (reachable Z.eqb is_integer digest enforce sudo_id).
Abbreviation start := (start (Number := Z)).
Abbreviation Move := (Move (Number := Z)).
Abbreviation Task := (Task (Value Z)).

Definition zone := mkCtx "root" "task-manager" true false.
Definition alice := mkCtx "alice" "notes" false false.
Definition any : Value Z := VObject [].
Definition note := mkSchemaDef "note" 1 any any None [KApp; KHumanSet; KUnbound] true "notes" true 0.
Definition tick n := mkTick n (u64_to_string n) ("e" +:+ u64_to_string n).

(** Request [n] goes on at time [at_], to its end or for some steps. *)
Definition go (n steps : nat) (at_ : Z) : list Move := repeat (Run n (tick at_)) steps.
Definition finish (n : nat) (at_ : Z) : list Move := go n 12 at_.
Definition all (c : RequestContext) (r : Request) (n : nat) (at_ : Z) : list Move := Arrive c r :: finish n at_.

Definition create instance := mkCreate "a note" "note" None any (SelfApp instance) None None None false "k1" None None None.
Definition create_below := mkCreate "below" "note" None any (SelfApp None) (Some "t-2") None None false "k2" None None None.
Definition setup instance : list Move := all alice (ReqRegisterSchema note) 0 1 ++ all alice (ReqCreate (create instance)) 1 2.

Definition env instance epoch revision := mkEnvelope "t-2" instance epoch revision.
Definition commit instance epoch revision := ReqCommit (mkCommit "t-2" (VNumber 42) instance (Some epoch) revision).

(** The row of the task, for a look at it *)
Definition look (ms : list Move) : option Task := row (db (play ms start)) "t-2".

Lemma play_reaches ms : reachable (play ms start).
Proof. apply play_reachable. Qed.

(** A commit about to be written *)
Definition writing : list Move := setup None ++ Arrive alice (commit None 1 1) :: go 2 2 3.
Definition created : option Task := Eval vm_compute in look (setup None).
Definition task : Task := Eval vm_compute in default (new_row digest (mkArgs "" "" 0 any (ctx_actor alice) "" None None default_child_policy "" false
  None None Unbound [] Promised None None) "" "" 0) created.

Lemma writing_step : step (play writing start) (play1 (play writing start) (Run 2 (tick 4))).
Proof.
  destruct (play1_step Z.eqb is_integer digest enforce sudo_id (play writing start) (Run 2 (tick 4))) as [E|H]; [|exact H].
  apply (f_equal (fun s => task_revision <$> row (db s) "t-2")) in E. vm_compute in E. discriminate E.
Qed.

Lemma writing_row : row (db (play writing start)) "t-2" = Some task.
Proof. vm_compute. reflexivity. Qed.

Lemma step_permitted_witness :
  exists t', row (db (play1 (play writing start) (Run 2 (tick 4)))) "t-2" = Some t' /\
    (t' = task \/ exists p now u, p ∈ processes (play writing start) /\
       permitted (caller p) (request p) (current (request p) (arrived p)) (db (play writing start)) now task u /\ t' = next_revision now u).
Proof. exact (step_permitted _ _ _ _ _ _ _ _ _ (play_reaches writing) writing_step writing_row). Defined.

Lemma task_history_witness :
  exists t', row (db (play (finish 2 4) (play writing start))) "t-2" = Some t' /\ moves task t'.
Proof. exact (task_history _ _ _ _ _ _ _ _ _ (play_reaches writing) (play_steps _ _ _ _ _ _ _) writing_row). Defined.

Lemma events_are_revisions_witness :
  event_revision <$> events_of (db (play (writing ++ finish 2 4) start)) "t-2"
  = match row (db (play (writing ++ finish 2 4) start)) "t-2" with Some t => seqZ 1 (task_revision t) | None => [] end.
Proof. exact (events_are_revisions _ _ _ _ _ _ "t-2" (play_reaches (writing ++ finish 2 4))). Defined.

(** The task has ended, and a report comes too late. *)
Definition over : list Move := writing ++ finish 2 4 ++ [Arrive alice (ReqRunning (env None 1 2))].
Definition over_task : Task := Eval vm_compute in default task (look over).

Lemma terminal_absorbing_witness :
  phase over_task = Terminal /\ exists t', row (db (play (finish 3 5) (play over start))) "t-2" = Some t' /\
    t' = set_revision (task_revision t') (task_updated_at t') (set_archived (archived_at t') over_task) /\
    (is_Some (archived_at over_task) -> archived_at t' = archived_at over_task).
Proof.
  split; [reflexivity|]. apply (terminal_absorbing Z.eqb is_integer digest enforce sudo_id (play over start)).
  - apply play_reaches.
  - apply honest_run_steps. vm_compute. reflexivity.
  - vm_compute. reflexivity.
  - reflexivity.
Defined.

Lemma one_task_per_key_witness :
  same_creation task task = true /\ "t-2" = "t-2" :> string.
Proof.
  split; [reflexivity|].
  apply (one_task_per_key Z.eqb is_integer digest enforce sudo_id (play writing start) "t-2" "t-2" task task (play_reaches writing) writing_row writing_row).
  left. reflexivity.
Defined.

(** A report whose revision is guessed, one ahead, is written after the task
    has ended: the task runs again, with its outcome and its result. *)
Theorem guessed_revision_revives :
  exists s s' t t', reachable s /\ rtc step s s' /\ row (db s) "t-2" = Some t /\ row (db s') "t-2" = Some t' /\
    phase t = Terminal /\ outcome t = Some Succeeded /\ task_result t = Some (VNumber 42) /\
    phase t' = PRunning /\ outcome t' = Some Succeeded.
Proof.
  set (ms := setup None ++ Arrive alice (ReqRunning (env None 1 2)) :: go 2 1 3 ++ all alice (commit None 1 1) 3 4).
  exists (play ms start), (play (finish 2 5) (play ms start)). do 2 eexists.
  split; [apply play_reaches|]. split; [apply play_steps|]. split; [vm_compute; reflexivity|]. split; [vm_compute; reflexivity|].
  vm_compute. auto.
Qed.

(** A runner that has been released and replaced commits the result of the
    task of its successor, when it has guessed the revision. *)
Theorem guessed_revision_passes_fence :
  exists s t t', reachable s /\ (request <$> processes s !! 2%nat) = Some (commit (Some "i1") 1 3) /\
    row (db s) "t-2" = Some t /\ executor t = App None "notes" (Some "i2") /\ runner_epoch t = 3 /\ task_result t = None /\
    rtc step s (play (finish 2 8) s) /\
    row (db (play (finish 2 8) s)) "t-2" = Some t' /\ phase t' = Terminal /\ task_result t' = Some (VNumber 42).
Proof.
  set (ms := setup (Some "i1") ++ Arrive alice (commit (Some "i1") 1 3) :: go 2 1 3
    ++ all zone (ReqRelease "t-2" "i1" 1 (new_wait_reason HumanInput) 1) 3 6 ++ all zone (ReqBind "t-2" None "notes" "i2" 2) 4 7).
  exists (play ms start). do 2 eexists. split; [apply play_reaches|]. split; [vm_compute; reflexivity|].
  split; [vm_compute; reflexivity|]. split; [reflexivity|]. split; [reflexivity|]. split; [reflexivity|].
  split; [apply play_steps|]. split; [vm_compute; reflexivity|]. split; reflexivity.
Qed.

(** A request to pause that gives no revision replaces a request to cancel that
    was made after it read the task; no event says that the cancellation was
    superseded or rejected. *)
Theorem pending_cancel_overridden :
  exists s s' t t', reachable s /\ rtc step s s' /\ row (db s) "t-2" = Some t /\ row (db s') "t-2" = Some t' /\
    (control_action <$> pending_control t) = Some Cancel /\ (control_action <$> pending_control t') = Some Pause /\
    phase t' = Accepted /\
    (event_type <$> events_of (db s') "t-2") = [TaskCreated; ControlProfileChanged; ControlRequested; ControlRequested].
Proof.
  set (profile := {| pause := Available; resume := Available; cancel := Interrupt; profile_updated_at := 0 |}).
  set (ms := setup None ++ all alice (ReqProfile (env None 1 1) profile) 2 3
    ++ Arrive alice (ReqControl (mkControl "t-2" Pause "pause-1" false None)) :: go 3 2 4
    ++ all alice (ReqControl (mkControl "t-2" Cancel "cancel-1" false None)) 4 6).
  exists (play ms start), (play (finish 3 7) (play ms start)). do 2 eexists. split; [apply play_reaches|]. split; [apply play_steps|].
  split; [vm_compute; reflexivity|]. split; [vm_compute; reflexivity|]. vm_compute. auto.
Qed.

(** A task with one below it *)
Definition two : list Move := setup None ++ all alice (ReqCreate create_below) 2 3.
Definition tables_of_two : Db := db (play two start).
Lemma two_wf : wf tables_of_two.
Proof. exact (so_wf _ _ _ _ (reachable_sound _ _ _ _ _ _ (play_reaches two))). Qed.




Lemma tasks_form_trees_witness :
  exists t, row tables_of_two "t-3" = Some t /\ rtc (parent tables_of_two) "t-3" (root_id t) /\
    (exists r, row tables_of_two (root_id t) = Some r /\ parent_id r = None) /\ ~ tc (parent tables_of_two) "t-3" "t-3".
Proof.
  eexists. split; [vm_compute; reflexivity|].
  apply (tasks_form_trees Z.eqb is_integer digest enforce sudo_id (play two start) _ _ (play_reaches two)). vm_compute. reflexivity.
Defined.

Lemma subtree_exact_witness :
  exists t l, row tables_of_two "t-2" = Some t /\ collect_subtree tables_of_two t MAX_RECURSIVE_CONTROL_NODES = inr l /\
    NoDup (task_id <$> l) /\ forall id, id ∈ task_id <$> l <-> rtc (child tables_of_two (root_id t)) (task_id t) id.
Proof.
  destruct (row tables_of_two "t-2") as [t|] eqn:E; [|vm_compute in E; discriminate E]. exists t.
  assert (Hid : task_id t = "t-2") by apply (wf_row _ two_wf _ _ E).
  assert (Hroot : root_id t = "t-2").
  { apply (f_equal (fmap root_id)) in E. vm_compute in E. injection E as E. by symmetry. }
  destruct (subtree_exact tables_of_two t t two_wf) as (l & Hl); [by rewrite Hid|done| |].
  - rewrite Hroot. apply Nat.leb_le. vm_compute. reflexivity.
  - exists l. split; [done|exact Hl].
Defined.

Definition again (input : Value Z) : CreateTaskArgs :=
  mkArgs "another" "note" 1 input (ctx_actor alice) "k1" None None default_child_policy default_preset false None None
    (App None "notes" None) [] Accepted None None.

Lemma create_idempotent_witness :
  exists t event event', row tables_of_two "t-2" = Some t /\
    run_alone digest enforce sudo_id (tick 9) (create_task digest (again any)) tables_of_two
    = (tables_of_two, if decide (replayable digest t (again any))
                      then inr (mkOutcome (attach_assignees (tables tables_of_two) t) event) else fails IdempotencyConflict) /\
    run_alone digest enforce sudo_id (tick 9) (create_task digest (again VNull)) tables_of_two
    = (tables_of_two, if decide (replayable digest t (again VNull))
                      then inr (mkOutcome (attach_assignees (tables tables_of_two) t) event') else fails IdempotencyConflict) /\
    replayable digest t (again any) /\ ~ replayable digest t (again VNull).
Proof.
  assert (E : exists t, row tables_of_two "t-2" = Some t /\ user_id (creator t) = "alice" /\ app_id (creator t) = "notes" /\
    idempotency_key t = "k1" /\ replayable digest t (again any) /\ ~ replayable digest t (again VNull)).
  { eexists. split; [vm_compute; reflexivity|]. do 3 (split; [reflexivity|]). split; by_compute. }
  destruct E as (t & Ht & Hu & Ha & Hk & Hyes & Hno).
  destruct (create_idempotent digest enforce sudo_id _ (again any) (tick 9) _ _ two_wf Ht Hu Ha Hk) as (e1 & E1).
  destruct (create_idempotent digest enforce sudo_id _ (again VNull) (tick 9) _ _ two_wf Ht Hu Ha Hk) as (e2 & E2).
  exists t, e1, e2. auto.
Defined.
End LifeExamples.
