(* ===== verification/AiTypes.v ===== *)
(** Models and their providers, the logical names requests use for them, the
    policies of routing and its traces ([frame/aicc/src/model_types.rs]), after
    the operations of [f64] the choice of models uses, on the IEEE doubles of the
    prelude. *)
From Stdlib Require Import ZArith Lia Ascii Sorted Permutation SpecFloat.
From stdpp Require Import base tactics numbers gmap strings sorting list.
From S2P Require Import Prelude RustString Lists.

(** ** Floats *)

Definition f64_zero : float := S754_zero false.
(** A decimal literal: [n] over [d], correctly rounded. *)
Definition f64_lit (n d : Z) : float := f64_div (f64_of_Z n) (f64_of_Z d).
Definition f64_one : float := Eval vm_compute in f64_of_Z 1.
Definition f64_half : float := Eval vm_compute in f64_lit 1 2.
Definition f64_infinity : float := S754_infinity false.
Definition f64_neg_infinity : float := S754_infinity true.
Definition f64_epsilon : float := Eval vm_compute in f64_lit 1 (2 ^ 52).

Definition f64_is_finite (x : float) : bool :=
  match x with S754_zero _ | S754_finite _ _ _ => true | _ => false end.
Definition f64_abs (x : float) : float :=
  match x with
  | S754_zero _ => S754_zero false
  | S754_infinity _ => S754_infinity false
  | S754_finite _ m e => S754_finite false m e
  | S754_nan => S754_nan
  end.

(** [<], [<=] and [>] are false where a side is not a number. *)
Definition f64_ltb (x y : float) : bool := match SFcompare x y with Some Lt => true | _ => false end.
Definition f64_leb (x y : float) : bool := match SFcompare x y with Some (Lt | Eq) => true | _ => false end.
Definition f64_gtb (x y : float) : bool := f64_ltb y x.

(** [f64::max] and [f64::min] drop a side that is not a number; of two equal
    sides, such as the zeros, the first is taken. *)
Definition f64_max (x y : float) : float :=
  if is_nan x then y else if is_nan y then x else if f64_ltb x y then y else x.
Definition f64_min (x y : float) : float :=
  if is_nan x then y else if is_nan y then x else if f64_ltb y x then y else x.

(** [f64::clamp] between bounds in order. *)
Definition f64_clamp (x lo hi : float) : float :=
  let x := if f64_ltb x lo then lo else x in if f64_ltb hi x then hi else x.

(** [partial_cmp(..).unwrap_or(Ordering::Equal)] *)
Definition f64_cmp (x y : float) : comparison := default Eq (SFcompare x y).

(** ** Facts *)

Lemma key_compare_antisym x y : key_compare y x = CompOpp (key_compare x y).
Proof.
  unfold key_compare. rewrite (Z.compare_antisym x.1.1 y.1.1), (Z.compare_antisym x.1.2 y.1.2), (Z.compare_antisym x.2 y.2).
  by destruct (x.1.1 ?= y.1.1), (x.1.2 ?= y.1.2), (x.2 ?= y.2).
Qed.

Lemma f64_cmp_key x y : is_nan x = false -> is_nan y = false -> f64_cmp x y = key_compare (float_key x) (float_key y).
Proof. intros Hx Hy. unfold f64_cmp. by rewrite SFcompare_key, Hx, Hy. Qed.

Lemma f64_ltb_key x y :
  f64_ltb x y = negb (is_nan x) && negb (is_nan y) && match key_compare (float_key x) (float_key y) with Lt => true | _ => false end.
Proof. unfold f64_ltb. rewrite SFcompare_key. by destruct (is_nan x), (is_nan y), (key_compare _ _). Qed.

Lemma f64_finite_nan x : f64_is_finite x = true -> is_nan x = false.
Proof. by destruct x. Qed.

(** ** Errors *)

Inductive RouteErrorCode :=
| InvalidModelName | ModelNotFound | NoCandidate | PolicyRejected | FallbackLoop | LogicalTreeLoop
| SessionConfigInvalid | SessionConfigConflict | SessionConfigExpired | PolicyLocked | ExactModelUnavailable
| ProviderUnavailable | BudgetExceeded | ContextTooLong | FeatureUnsupported.

#[export] Instance RouteErrorCode_eq_dec : EqDecision RouteErrorCode. Proof. solve_decision. Defined.

Record RouteError := mkError { err_code : RouteErrorCode; err_message : string }.

(** [Result<_, RouteError>] *)
Definition routed (A : Type) : Type := RouteError + A.
#[export] Instance routed_ret : MRet routed := fun A a => inr a.
#[export] Instance routed_bind : MBind routed := fun A B f m => match m with inl e => inl e | inr a => f a end.
Definition fail {A} (code : RouteErrorCode) (message : string) : routed A := inl (mkError code message).

(** [for x in l { f(x)?; }] *)
Fixpoint check_all {A} (f : A -> routed unit) (l : list A) : routed unit :=
  match l with
  | [] => mret tt
  | x :: l => f x ;; check_all f l
  end.

(** A loop that passes a state on. *)
Fixpoint fold_routed {S A} (f : S -> A -> routed S) (s : S) (l : list A) : routed S :=
  match l with
  | [] => mret s
  | x :: l => s ← f s x; fold_routed f s l
  end.

(** ** Names of models *)

Definition AT : ascii := "@".
Definition DOT : ascii := ".".

Record ExactModelName := mkExact { provider_model_id : string; provider_instance_name : string }.

Definition instance_name_char (a : ascii) : bool :=
  is_ascii_alphanumeric a || Ascii.eqb a "_" || Ascii.eqb a "-" || Ascii.eqb a ".".

Definition is_valid_provider_instance_name (value : string) : bool :=
  negb (String.eqb value "") && all_chars instance_name_char value.

Definition is_exact_model_name (value : string) : bool := contains_char AT value.

Definition exact_parse (value : string) : routed ExactModelName :=
  match rsplit_once AT value with
  | None => fail InvalidModelName "exact model name must contain provider instance suffix"
  | Some (model_id, instance_name) =>
    if String.eqb (trim model_id) "" || String.eqb (trim instance_name) "" then
      fail InvalidModelName "exact model name contains empty model or provider instance"
    else if negb (is_valid_provider_instance_name instance_name) then
      fail InvalidModelName "provider instance name is invalid"
    else inr (mkExact model_id instance_name)
  end.

Definition exact_as_string (n : ExactModelName) : string := provider_model_id n +:+ "@" +:+ provider_instance_name n.

(** ** Classes *)

Inductive ApiType :=
| Llm | ImageTextToImage | ImageToImage | Embedding | EmbeddingMultimodal | Rerank | ImageInpaint | ImageUpscale
| ImageBgRemove | VisionOcr | VisionCaption | VisionDetect | VisionSegment | AudioTts | AudioAsr | AudioMusic
| AudioEnhance | VideoTextToVideo | VideoImageToVideo | VideoToVideo | VideoExtend | VideoUpscale | AgentComputerUse.

(** The order of the variants, which the derived [Ord] has, with their names. *)
Definition api_types : list (ApiType * string) :=
  [(Llm, "Llm"); (ImageTextToImage, "ImageTextToImage"); (ImageToImage, "ImageToImage"); (Embedding, "Embedding");
   (EmbeddingMultimodal, "EmbeddingMultimodal"); (Rerank, "Rerank"); (ImageInpaint, "ImageInpaint");
   (ImageUpscale, "ImageUpscale"); (ImageBgRemove, "ImageBgRemove"); (VisionOcr, "VisionOcr");
   (VisionCaption, "VisionCaption"); (VisionDetect, "VisionDetect"); (VisionSegment, "VisionSegment");
   (AudioTts, "AudioTts"); (AudioAsr, "AudioAsr"); (AudioMusic, "AudioMusic"); (AudioEnhance, "AudioEnhance");
   (VideoTextToVideo, "VideoTextToVideo"); (VideoImageToVideo, "VideoImageToVideo"); (VideoToVideo, "VideoToVideo");
   (VideoExtend, "VideoExtend"); (VideoUpscale, "VideoUpscale"); (AgentComputerUse, "AgentComputerUse")].

#[export] Instance ApiType_eq_dec : EqDecision ApiType. Proof. solve_decision. Defined.

Definition api_index (a : ApiType) : nat := default 0%nat (fst <$> list_find (fun x => x.1 = a) api_types).
Definition api_debug (a : ApiType) : string := default "" ((fun x => x.2.2) <$> list_find (fun x => x.1 = a) api_types).

#[export] Instance api_index_inj : Inj (=) (=) api_index.
Proof. intros [] []; try reflexivity; intros E; vm_compute in E; discriminate. Qed.
#[export] Program Instance ApiType_countable : Countable ApiType :=
  inj_countable' api_index (fun n => default Llm (fst <$> api_types !! n)) _.
Next Obligation. by intros []. Qed.

Definition namespace (a : ApiType) : string :=
  match a with
  | Llm => "llm"
  | Embedding | EmbeddingMultimodal => "embedding"
  | Rerank => "rerank"
  | ImageTextToImage | ImageToImage | ImageInpaint | ImageUpscale | ImageBgRemove => "image"
  | VisionOcr | VisionCaption | VisionDetect | VisionSegment => "vision"
  | AudioTts | AudioAsr | AudioMusic | AudioEnhance => "audio"
  | VideoTextToVideo | VideoImageToVideo | VideoToVideo | VideoExtend | VideoUpscale => "video"
  | AgentComputerUse => "agent"
  end.

Inductive ProviderType := LocalInference | CloudApi | ProxyUnknown.
Inductive ProviderOrigin := OriginSystemConfig | OriginUserConfig | BuiltIn | ProviderClaimed | OriginUnknown.
Inductive ProviderTypeTrustedSource := SourceSystemConfig | AdminOverride | SourceProviderInventory | DefaultUnknown.
Inductive PricingMode := PerToken | Subscription | FreeQuota | PricingUnknown.
Inductive HealthStatus := Available | Degraded | Unavailable.
Inductive QuotaState := QuotaNormal | NearLimit | Exhausted | QuotaUnknown.
Inductive LatencyClass := LatencyFast | LatencyNormal | LatencySlow | LatencyUnknown.
Inductive CostClass := CostLow | CostMedium | CostHigh | CostUnknown.
Inductive PrivacyClass := PrivacyLocal | PrivacyCloud | PrivateSafe | PublicCloud | PrivacyUnknown.
Inductive OverlayMergeMode := MergeInherit | MergeReplace.
Inductive FallbackMode := FbStrict | FbParent | FbTargetExact | FbTargetLogical | FbDisabled.
Inductive SchedulerProfile := CostFirst | LatencyFirst | QualityFirst | Balanced | LocalFirst | StrictLocal.
Inductive MountMode := MountManual | MountAuto | MountHybrid.
Inductive RequestedModelType := RequestedExact | RequestedLogical.

#[export] Instance ProviderType_eq_dec : EqDecision ProviderType. Proof. solve_decision. Defined.
#[export] Instance HealthStatus_eq_dec : EqDecision HealthStatus. Proof. solve_decision. Defined.
#[export] Instance QuotaState_eq_dec : EqDecision QuotaState. Proof. solve_decision. Defined.
#[export] Instance FallbackMode_eq_dec : EqDecision FallbackMode. Proof. solve_decision. Defined.
#[export] Instance MountMode_eq_dec : EqDecision MountMode. Proof. solve_decision. Defined.
#[export] Instance SchedulerProfile_eq_dec : EqDecision SchedulerProfile. Proof. solve_decision. Defined.

Definition fallback_mode_debug (m : FallbackMode) : string :=
  match m with
  | FbStrict => "Strict" | FbParent => "Parent" | FbTargetExact => "TargetExact" | FbTargetLogical => "TargetLogical"
  | FbDisabled => "Disabled"
  end.

(** ** Capabilities and requirements *)

Record ModelCapabilities := mkCaps {
  cap_streaming : bool;
  cap_tool_call : bool;
  cap_json_schema : bool;
  cap_web_search : bool;
  unsupported_feature_combinations : list (list string);
  cap_vision : bool;
  cap_max_context_tokens : option Z;
  cap_max_output_tokens : option Z
}.

(** [RequiredModelFeatures], [ModelRequirement] and [ModelDisable] have the same
    fields. *)
Record ModelRequirement := mkReq {
  req_streaming : bool;
  req_tool_call : bool;
  req_json_schema : bool;
  req_web_search : bool;
  req_vision : bool;
  req_min_context_tokens : option Z
}.
Definition RequiredModelFeatures : Type := ModelRequirement.
Definition ModelDisable : Type := ModelRequirement.

Definition no_requirement : ModelRequirement := mkReq false false false false false None.

Definition feature_names (r : ModelRequirement) : list string :=
  (if req_streaming r then ["streaming"] else [])
  ++ (if req_tool_call r then ["tool_calling"] else [])
  ++ (if req_json_schema r then ["json_output"] else [])
  ++ (if req_web_search r then ["web_search"] else [])
  ++ (if req_vision r then ["vision"] else [])
  ++ match req_min_context_tokens r with
     | Some tokens => ["min_context_tokens:" +:+ u64_to_string tokens]
     | None => []
     end.

(** [RequiredModelFeatures::feature_names]: without the context. *)
Definition required_feature_names (r : RequiredModelFeatures) : list string :=
  feature_names (mkReq (req_streaming r) (req_tool_call r) (req_json_schema r) (req_web_search r) (req_vision r) None).

Definition unsupported_combination (c : ModelCapabilities) (required_features : list string) : option (list string) :=
  List.find (forallb (fun feature => bool_decide (feature ∈ required_features))) (unsupported_feature_combinations c).

Definition supports_feature (c : ModelCapabilities) (feature : string) : bool :=
  if String.eqb feature "streaming" then cap_streaming c
  else if String.eqb feature "tool_calling" then cap_tool_call c
  else if String.eqb feature "json_output" then cap_json_schema c
  else if String.eqb feature "web_search" then cap_web_search c
  else if String.eqb feature "vision" then cap_vision c
  else false.

Definition enough_context (c : ModelCapabilities) (min : option Z) : bool :=
  match min with Some min => min <=? default 0 (cap_max_context_tokens c) | None => true end.

Definition supports (c : ModelCapabilities) (required : RequiredModelFeatures) : bool :=
  (negb (req_streaming required) || cap_streaming c)
  && (negb (req_tool_call required) || cap_tool_call c)
  && (negb (req_json_schema required) || cap_json_schema c)
  && (negb (req_web_search required) || cap_web_search c)
  && bool_decide (unsupported_combination c (required_feature_names required) = None)
  && (negb (req_vision required) || cap_vision c)
  && enough_context c (req_min_context_tokens required).

Definition explain_missing_requirements (c : ModelCapabilities) (required : ModelRequirement) : list string :=
  (if req_streaming required && negb (cap_streaming c) then ["streaming"] else [])
  ++ (if req_tool_call required && negb (cap_tool_call c) then ["tool_call"] else [])
  ++ (if req_json_schema required && negb (cap_json_schema c) then ["json_schema"] else [])
  ++ (if req_web_search required && negb (cap_web_search c) then ["web_search"] else [])
  ++ match unsupported_combination c (feature_names required) with
     | Some combination =>
       if forallb (supports_feature c) combination
       then ["unsupported_feature_combination:" +:+ join "+" (sort_stable string_leb combination)] else []
     | None => []
     end
  ++ (if req_vision required && negb (cap_vision c) then ["vision"] else [])
  ++ match req_min_context_tokens required with
     | Some min => if default 0 (cap_max_context_tokens c) <? min then ["min_context_tokens:" +:+ u64_to_string min] else []
     | None => []
     end.

(** ** Models and providers *)

Record ModelAttributes := mkAttributes {
  at_provider_type : ProviderType;
  at_local : bool;
  at_privacy : PrivacyClass;
  at_quality_score : option float;
  at_latency_class : LatencyClass;
  at_cost_class : CostClass
}.

Record ModelPricing := mkPricing {
  pr_currency : string;
  pr_input_token : option float;
  pr_output_token : option float;
  pr_cache_input_token : option float;
  pr_estimated_cost : option float
}.

Record ModelHealth := mkHealth {
  he_status : HealthStatus;
  he_p50_latency_ms : option Z;
  he_p95_latency_ms : option Z;
  he_error_rate_5m : option float;
  he_recent_failures : option Z;
  he_queue_depth : option Z;
  he_quota_state : QuotaState
}.

Record CostEstimateInput := mkEstimateInput {
  ei_api_type : ApiType;
  ei_exact_model : string;
  ei_input_tokens : Z;
  ei_estimated_output_tokens : option Z;
  ei_cached_input_tokens : option Z;
  ei_request_features : list string
}.

Record CostEstimateOutput := mkEstimate {
  es_estimated_cost_usd : float;
  es_pricing_mode : PricingMode;
  es_quota_state : QuotaState;
  es_confidence : float;
  es_estimated_latency_ms : option Z
}.

(** ** Items of logical names *)

Record ModelItem := mkItem { it_target : string; it_weight : float }.
Record ModelItemPatch := mkPatch { pa_target : option string; pa_weight : option float }.

Definition LogicalItems : Type := gmap string ModelItem.

Definition apply_to (patch : ModelItemPatch) (base : ModelItem) : ModelItem :=
  mkItem (default (it_target base) (pa_target patch)) (default (it_weight base) (pa_weight patch)).

(** The item a patch makes where there is none. *)
Definition item_of_patch (name : string) (patch : ModelItemPatch) : ModelItem :=
  mkItem (default name (pa_target patch)) (default f64_one (pa_weight patch)).

(** ** Policies *)

Record FallbackRule := mkRule { fr_mode : FallbackMode; fr_target : option string }.
Definition parent_rule : FallbackRule := mkRule FbParent None.

Record LockedValue (A : Type) := mkLocked { lv_value : A; lv_locked : bool }.
Arguments mkLocked {A} _ _.
Arguments lv_value {A} _.
Arguments lv_locked {A} _.

Record SchedulerProfileWeights := mkWeights {
  w_cost : float;
  w_latency : float;
  w_reliability : float;
  w_quality : float;
  w_preference : float;
  w_cache : float;
  w_local : float
}.

Record SchedulerProfileConfig := mkProfiles {
  spc_cost_first : option SchedulerProfileWeights;
  spc_latency_first : option SchedulerProfileWeights;
  spc_quality_first : option SchedulerProfileWeights;
  spc_balanced : option SchedulerProfileWeights;
  spc_local_first : option SchedulerProfileWeights;
  spc_strict_local : option SchedulerProfileWeights
}.

Definition weights_for (c : SchedulerProfileConfig) (profile : SchedulerProfile) : option SchedulerProfileWeights :=
  match profile with
  | CostFirst => spc_cost_first c
  | LatencyFirst => spc_latency_first c
  | QualityFirst => spc_quality_first c
  | Balanced => spc_balanced c
  | LocalFirst => spc_local_first c
  | StrictLocal => spc_strict_local c
  end.

Definition weight_values (w : SchedulerProfileWeights) : list float :=
  [w_cost w; w_latency w; w_reliability w; w_quality w; w_preference w; w_cache w; w_local w].

(** Not finite or negative. *)
Definition bad_weight (w : float) : bool := negb (f64_is_finite w) || f64_ltb w f64_zero.

(** [SchedulerProfileWeights::validate] *)
Definition validate_weights (w : SchedulerProfileWeights) : routed unit :=
  check_all (fun value => if bad_weight value
                          then fail SessionConfigInvalid "scheduler profile weights must be non-negative finite numbers"
                          else mret tt) (weight_values w).

Record PolicyConfig := mkPolicyConfig {
  pc_profile : option (LockedValue SchedulerProfile);
  pc_scheduler_profiles : option (LockedValue SchedulerProfileConfig);
  pc_local_only : option (LockedValue bool);
  pc_allow_fallback : option (LockedValue bool);
  pc_allow_exact_model_fallback : option (LockedValue bool);
  pc_runtime_failover : option (LockedValue bool);
  pc_explain : option (LockedValue bool);
  pc_blocked_provider_instances : option (LockedValue (list string));
  pc_allowed_provider_instances : option (LockedValue (list string));
  pc_max_estimated_cost_usd : option (LockedValue float)
}.

Definition no_policy : PolicyConfig := mkPolicyConfig None None None None None None None None None None.

Record RoutePolicy := mkRoutePolicy {
  rp_profile : SchedulerProfile;
  rp_scheduler_profiles : option SchedulerProfileConfig;
  rp_local_only : bool;
  rp_allow_fallback : bool;
  rp_allow_exact_model_fallback : bool;
  rp_runtime_failover : bool;
  rp_explain : bool;
  rp_required_features : RequiredModelFeatures;
  rp_blocked_provider_instances : list string;
  rp_allowed_provider_instances : list string;
  rp_max_estimated_cost_usd : option float;
  rp_max_latency_ms : option Z;
  rp_fallback : option FallbackRule
}.

(** [RoutePolicy::default] *)
Definition default_route_policy : RoutePolicy :=
  mkRoutePolicy CostFirst None false true false true false no_requirement [] [] None None None.

(** ** What carries JSON *)

Section json.
Context {Json : Type}.

Record ModelMetadata := mkMetadata {
  mm_provider_model_id : string;
  mm_exact_model : string;
  mm_model_driver : string;
  mm_origin_model_id : option string;
  mm_provider_actual_model_id : option string;
  mm_provider_options : option Json;
  mm_parameter_scale : option string;
  mm_api_types : list ApiType;
  mm_logical_mounts : list string;
  mm_capabilities : ModelCapabilities;
  mm_attributes : ModelAttributes;
  mm_pricing : ModelPricing;
  mm_health : ModelHealth
}.

Definition supports_api_type (m : ModelMetadata) (api_type : ApiType) : bool := bool_decide (api_type ∈ mm_api_types m).
Definition supports_requirements (m : ModelMetadata) (required : RequiredModelFeatures) : bool :=
  supports (mm_capabilities m) required.
Definition is_available (m : ModelMetadata) : bool :=
  bool_decide (he_status (mm_health m) <> Unavailable) && bool_decide (he_quota_state (mm_health m) <> Exhausted).

Record ProviderInventory := mkInventory {
  pi_provider_instance_name : string;
  pi_provider_type : ProviderType;
  pi_provider_driver : string;
  pi_provider_origin : ProviderOrigin;
  pi_provider_type_trusted_source : ProviderTypeTrustedSource;
  pi_provider_type_revision : option string;
  pi_version : option string;
  pi_inventory_revision : option string;
  pi_driver_metadata_generation : Z;
  pi_models : list ModelMetadata
}.

Record LogicalModelDefinition := mkDefinition {
  ld_path : string;
  ld_api_type : ApiType;
  ld_min_line : ModelRequirement;
  ld_disable_line : ModelDisable;
  ld_default_options : option Json;
  ld_mount_mode : MountMode;
  ld_scheduler_profile : option SchedulerProfile;
  ld_fallback : option FallbackRule;
  ld_route_policy : option PolicyConfig;
  ld_user_visible_tier : option string
}.

Record ModelCandidate := mkCandidate {
  ca_exact_model : string;
  ca_provider_model_id : string;
  ca_provider_instance_name : string;
  ca_api_type : ApiType;
  ca_metadata : ModelMetadata;
  ca_resolved_logical_path : option string;
  ca_priority_path : list float;
  ca_exact_model_weight : float;
  ca_provider_weight : float;
  ca_route_paths : list string;
  ca_dynamic_cost_estimate : option CostEstimateOutput
}.

Definition candidate_from_metadata (metadata : ModelMetadata) (api_type : ApiType) : routed ModelCandidate :=
  exact ← exact_parse (mm_exact_model metadata);
  mret (mkCandidate (mm_exact_model metadata) (mm_provider_model_id metadata) (provider_instance_name exact) api_type
          metadata None [] f64_one f64_one [] None).

(** ** Traces *)

Record RoutePricingSnapshot := mkSnapshot {
  sn_currency : string;
  sn_input_token : option float;
  sn_output_token : option float;
  sn_cache_input_token : option float;
  sn_estimated_cost : option float
}.

Definition snapshot_from_values (currency : string) (input output cache estimated : option float) : option RoutePricingSnapshot :=
  match input, output, cache, estimated with
  | None, None, None, None => None
  | _, _, _, _ => Some (mkSnapshot currency input output cache estimated)
  end.

Definition snapshot_from_candidate (c : ModelCandidate) : option RoutePricingSnapshot :=
  let p := mm_pricing (ca_metadata c) in
  snapshot_from_values (pr_currency p) (pr_input_token p) (pr_output_token p) (pr_cache_input_token p)
    (match ca_dynamic_cost_estimate c with
     | Some estimate => Some (es_estimated_cost_usd estimate)
     | None => pr_estimated_cost p
     end).

Record FilteredCandidateTrace := mkFiltered { ft_exact_model : string; ft_provider_instance_name : string; ft_reason : string }.

Record ScoreInputs := mkInputs {
  si_cost : float;
  si_latency : float;
  si_reliability : float;
  si_quality : float;
  si_preference : float;
  si_cache : float;
  si_local : float
}.
Definition no_inputs : ScoreInputs :=
  mkInputs f64_zero f64_zero f64_zero f64_zero f64_zero f64_zero f64_zero.

Record PreferenceScoreInputs := mkPreference {
  ps_exact_model_weight : float;
  ps_provider_weight : float;
  ps_combined_weight : float;
  ps_preference_penalty : float;
  ps_exact_model_weight_effect : string;
  ps_provider_weight_effect : string
}.

Definition weight_effect (weight : float) : string :=
  if f64_leb weight f64_zero then "disabled"
  else if f64_ltb weight f64_one then "downweighted"
  else if f64_gtb weight f64_one then "upweighted"
  else "neutral".

(** 0.000_001 *)
Definition least_weight : float := Eval vm_compute in f64_lit 1 1000000.

Definition preference_from_weights (exact_model_weight provider_weight : float) : PreferenceScoreInputs :=
  let combined := f64_max (f64_mul exact_model_weight provider_weight) f64_zero in
  mkPreference exact_model_weight provider_weight combined (f64_div f64_one (f64_max combined least_weight))
    (weight_effect exact_model_weight) (weight_effect provider_weight).

Record RankedCandidateTrace := mkRanked {
  rk_exact_model : string;
  rk_provider_instance_name : string;
  rk_pricing_snapshot : option RoutePricingSnapshot;
  rk_priority_path : list float;
  rk_exact_model_weight : float;
  rk_provider_weight : float;
  rk_preference_score_inputs : PreferenceScoreInputs;
  rk_score_inputs : ScoreInputs;
  rk_final_score : option float;
  rk_selected : bool
}.

Record FallbackTraceItem := mkFallback { fb_from : string; fb_to : string; fb_reason : string }.
Record LogicalItemSourceTrace := mkItemSource {
  ls_logical_path : string; ls_item_name : string; ls_target : string; ls_source : string; ls_weight : float }.
Record LogicalAdmissionTrace := mkAdmission {
  la_logical_path : string; la_exact_model : string; la_source : string; la_accepted : bool; la_reasons : list string }.
Record DisabledCapabilityTrace := mkDisabled {
  dc_logical_path : string; dc_capability : string; dc_source : string; dc_reason : string }.
Record SessionOverlayTrace := mkOverlayTrace {
  ot_logical_profile_scope : string; ot_overlay_path : string; ot_merge_mode : OverlayMergeMode; ot_selected_from_overlay : bool }.

(** [RouteTrace], without the summary for users. *)
Record RouteTrace := mkTrace {
  tr_request_id : string;
  tr_api_type : ApiType;
  tr_requested_model : string;
  tr_requested_model_type : RequestedModelType;
  tr_resolved_logical_path : option string;
  tr_selected_exact_model : option string;
  tr_selected_provider_instance_name : option string;
  tr_selected_provider_model_id : option string;
  tr_provider_options : option Json;
  tr_pricing_snapshot : option RoutePricingSnapshot;
  tr_candidate_count_before_filter : nat;
  tr_candidate_count_after_filter : nat;
  tr_filtered_candidates : list FilteredCandidateTrace;
  tr_ranked_candidates : list RankedCandidateTrace;
  tr_fallback_applied : bool;
  tr_fallback_chain : list FallbackTraceItem;
  tr_logical_item_sources : list LogicalItemSourceTrace;
  tr_logical_admission : list LogicalAdmissionTrace;
  tr_disabled_capability_sources : list DisabledCapabilityTrace;
  tr_session_overlays : list SessionOverlayTrace;
  tr_scheduler_profile : SchedulerProfile;
  tr_runtime_failover_count : Z;
  tr_warnings : list string
}.
End json.
Arguments ModelMetadata Json : clear implicits.
Arguments ProviderInventory Json : clear implicits.
Arguments LogicalModelDefinition Json : clear implicits.
Arguments ModelCandidate Json : clear implicits.
Arguments RouteTrace Json : clear implicits.
