(* ===== verification/AiRegistry.v ===== *)
(** The registry of models ([frame/aicc/src/model_registry.rs]): the inventories
    of the providers, the index of exact names, the logical definitions, and
    the items a logical name has by default. *)
From Stdlib Require Import ZArith Lia Ascii Sorted Permutation.
From stdpp Require Import base tactics numbers gmap strings sorting list.
From S2P Require Import Prelude RustString Lists AiTypes.

(** One character for each character of the name: the continuation bytes of a
    character that is not ASCII go with its first byte. *)
Fixpoint default_item_name (exact_model : string) : string :=
  match exact_model with
  | EmptyString => EmptyString
  | String a s =>
    let n := Z.of_nat (nat_of_ascii a) in
    if is_ascii_alphanumeric a || Ascii.eqb a "_" || Ascii.eqb a "-" then String a (default_item_name s)
    else if (128 <=? n) && (n <? 192) then default_item_name s
    else String "_" (default_item_name s)
  end.

Section registry.
Context {Json : Type} `{HashOrder}.
Abbreviation ModelMetadata := (ModelMetadata Json).
Abbreviation ProviderInventory := (ProviderInventory Json).
Abbreviation LogicalModelDefinition := (LogicalModelDefinition Json).
Abbreviation ModelCandidate := (ModelCandidate Json).

Abbreviation Index := (gmap (string * ApiType) ModelCandidate).

Record ModelRegistry := mkRegistry {
  inventories : gmap string ProviderInventory;
  exact_index : Index;
  logical_definitions : gmap string LogicalModelDefinition
}.

Definition new_registry : ModelRegistry := mkRegistry ∅ ∅ ∅.

(** ** Inventories *)

(** The loop of [validate_inventory]; [seen] is the set of names so far. *)
Fixpoint validate_models (provider : string) (seen : gset string) (models : list ModelMetadata) : routed unit :=
  match models with
  | [] => mret tt
  | model :: models =>
    exact ← exact_parse (mm_exact_model model);
    if negb (String.eqb (provider_instance_name exact) provider) then
      fail InvalidModelName ("exact model '" +:+ mm_exact_model model +:+ "' does not belong to provider '" +:+ provider +:+ "'")
    else if negb (String.eqb (provider_model_id exact) (mm_provider_model_id model)) then
      fail InvalidModelName ("exact model '" +:+ mm_exact_model model +:+ "' does not match provider model id '"
                             +:+ mm_provider_model_id model +:+ "'")
    else if bool_decide (mm_exact_model model ∈ seen) then
      fail SessionConfigInvalid ("duplicate exact model '" +:+ mm_exact_model model +:+ "' in provider '" +:+ provider +:+ "'")
    else validate_models provider ({[mm_exact_model model]} ∪ seen) models
  end.

Definition validate_inventory (inventory : ProviderInventory) : routed unit :=
  if negb (is_valid_provider_instance_name (pi_provider_instance_name inventory)) then
    fail InvalidModelName "provider instance name is invalid"
  else validate_models (pi_provider_instance_name inventory) ∅ (pi_models inventory).

Definition index_entry (model : ModelMetadata) (next : Index) (api_type : ApiType) : routed Index :=
  candidate ← candidate_from_metadata model api_type;
  let key := (mm_exact_model model, api_type) in
  match next !! key with
  | Some _ => fail SessionConfigInvalid ("duplicate exact model '" +:+ mm_exact_model model +:+ "' for api type '"
                                         +:+ api_debug api_type +:+ "'")
  | None => mret (<[key := candidate]> next)
  end.

Definition index_model (next : Index) (model : ModelMetadata) : routed Index :=
  fold_routed (index_entry model) next (mm_api_types model).

Definition index_inventory (next : Index) (inventory : ProviderInventory) : routed Index :=
  validate_inventory inventory ;; fold_routed index_model next (pi_models inventory).

Definition build_exact_index (inventories : list ProviderInventory) : routed Index :=
  fold_routed index_inventory ∅ inventories.

Definition with_driver (driver : string) (m : ModelMetadata) : ModelMetadata :=
  mkMetadata (mm_provider_model_id m) (mm_exact_model m) driver (mm_origin_model_id m) (mm_provider_actual_model_id m)
    (mm_provider_options m) (mm_parameter_scale m) (mm_api_types m) (mm_logical_mounts m) (mm_capabilities m)
    (mm_attributes m) (mm_pricing m) (mm_health m).

(** Models without a driver get that of their provider. *)
Definition fill_drivers (i : ProviderInventory) : ProviderInventory :=
  mkInventory (pi_provider_instance_name i) (pi_provider_type i) (pi_provider_driver i) (pi_provider_origin i)
    (pi_provider_type_trusted_source i) (pi_provider_type_revision i) (pi_version i) (pi_inventory_revision i)
    (pi_driver_metadata_generation i)
    ((fun m => if String.eqb (trim (mm_model_driver m)) "" then with_driver (pi_provider_driver i) m else m) <$> pi_models i).

(** An older generation, or the same generation and revision. *)
Definition not_newer (inventory current : ProviderInventory) : bool :=
  (pi_driver_metadata_generation inventory <? pi_driver_metadata_generation current)
  || (pi_driver_metadata_generation inventory =? pi_driver_metadata_generation current)
     && bool_decide (is_Some (pi_inventory_revision inventory))
     && bool_decide (pi_inventory_revision current = pi_inventory_revision inventory).

(** [&mut self]: the registry after the call, and the result. *)
Definition apply_inventory_if_changed (inventory : ProviderInventory) (r : ModelRegistry) : ModelRegistry * routed bool :=
  let inventory := fill_drivers inventory in
  let name := pi_provider_instance_name inventory in
  match validate_inventory inventory with
  | inl e => (r, inl e)
  | inr _ =>
    if from_option (not_newer inventory) false (inventories r !! name) then (r, inr false)
    else
      let next := <[name := inventory]> (inventories r) in
      match build_exact_index (values next) with
      | inl e => (r, inl e)
      | inr index => (mkRegistry next index (logical_definitions r), inr true)
      end
  end.

Definition apply_inventory (inventory : ProviderInventory) (r : ModelRegistry) : ModelRegistry * routed unit :=
  let '(r, res) := apply_inventory_if_changed inventory r in (r, match res with inl e => inl e | inr _ => inr tt end).

Definition rebuild_index (r : ModelRegistry) : ModelRegistry * routed unit :=
  match build_exact_index (values (inventories r)) with
  | inl e => (r, inl e)
  | inr index => (mkRegistry (inventories r) index (logical_definitions r), inr tt)
  end.

Definition remove_inventory (name : string) (r : ModelRegistry) : ModelRegistry * routed unit :=
  rebuild_index (mkRegistry (delete name (inventories r)) (exact_index r) (logical_definitions r)).

Definition clear (r : ModelRegistry) : ModelRegistry := mkRegistry ∅ ∅ (logical_definitions r).

(** The body of [refresh_once] after the hook: what the source lists now
    replaces what the registry has, provider by provider. *)
Definition apply_all (l : list ProviderInventory) (r : ModelRegistry) : ModelRegistry * nat :=
  fold_left (fun (rc : ModelRegistry * nat) inventory =>
    let '(r, changed) := rc in
    match apply_inventory_if_changed inventory r with
    | (r, inr true) => (r, S changed)
    | (r, _) => (r, changed)
    end) l (r, 0%nat).

Definition remove_all (names : list string) (rc : ModelRegistry * nat) : ModelRegistry * nat :=
  fold_left (fun (rc : ModelRegistry * nat) name =>
    let '(r, changed) := rc in
    match remove_inventory name r with
    | (r, inr _) => (r, S changed)
    | (r, inl _) => (r, changed)
    end) names rc.

Definition stale_providers (active : gset string) (r : ModelRegistry) : list string :=
  pi_provider_instance_name <$> List.filter (fun i => negb (bool_decide (pi_provider_instance_name i ∈ active)))
                                  (values (inventories r)).

Definition refresh_once (hook : option (routed unit)) (source : list ProviderInventory) (r : ModelRegistry)
  : ModelRegistry * routed nat :=
  match hook with
  | Some (inl e) => (r, inl e)
  | _ =>
    let active := list_to_set (pi_provider_instance_name <$> source) in
    let '(r, changed) := apply_all source r in
    let '(r, changed) := remove_all (stale_providers active r) (r, changed) in
    (r, inr changed)
  end.

(** ** Logical definitions *)

Definition validate_logical_definition (d : LogicalModelDefinition) : routed unit :=
  if String.eqb (trim (ld_path d)) "" || contains_char AT (ld_path d) then
    fail SessionConfigInvalid "logical definition path must be a logical model path"
  else if existsb (fun part => String.eqb (trim part) "") (split_on DOT (ld_path d)) then
    fail SessionConfigInvalid "logical definition path contains an empty segment"
  else mret tt.

Definition set_logical_definitions (definitions : list LogicalModelDefinition) (r : ModelRegistry)
  : ModelRegistry * routed unit :=
  match fold_routed (fun next d => validate_logical_definition d ;; mret (<[ld_path d := d]> next)) ∅ definitions with
  | inl e => (r, inl e)
  | inr next => (mkRegistry (inventories r) (exact_index r) next, inr tt)
  end.

Definition logical_definition (r : ModelRegistry) (path : string) : option LogicalModelDefinition := logical_definitions r !! path.
Definition inventory_revision (r : ModelRegistry) (name : string) : option string :=
  inventories r !! name ≫= pi_inventory_revision.
Definition exact_candidate (r : ModelRegistry) (exact_model : string) (api_type : ApiType) : option ModelCandidate :=
  exact_index r !! (exact_model, api_type).

(** ** Default items *)

Record DefaultLogicalItems := mkDefaults {
  df_items : LogicalItems;
  df_item_sources : gmap string string;
  df_admission : list LogicalAdmissionTrace
}.

Definition admission_rejection_reasons (d : LogicalModelDefinition) (m : ModelMetadata) : list string :=
  (if negb (supports_api_type m (ld_api_type d)) then ["api_type_mismatch"] else [])
  ++ explain_missing_requirements (mm_capabilities m) (ld_min_line d).

Definition admit_default (source : string) (m : ModelMetadata) (acc : DefaultLogicalItems) : DefaultLogicalItems :=
  let item_name := default_item_name (mm_exact_model m) in
  mkDefaults (<[item_name := mkItem (mm_exact_model m) f64_one]> (df_items acc)) (<[item_name := source]> (df_item_sources acc))
    (df_admission acc).

Definition note_admission (path source : string) (m : ModelMetadata) (reasons : list string) (acc : DefaultLogicalItems)
  : DefaultLogicalItems :=
  mkDefaults (df_items acc) (df_item_sources acc)
    (df_admission acc ++ [mkAdmission path (mm_exact_model m) source (bool_decide (reasons = [])) reasons]).

(** The body of the loop over the models. *)
Definition mount_model (path : string) (definition : option LogicalModelDefinition) (acc : DefaultLogicalItems) (m : ModelMetadata)
  : DefaultLogicalItems :=
  let mounted := bool_decide (path ∈ mm_logical_mounts m) in
  match definition with
  | None => if mounted then admit_default "driver_metadata_mount" m acc else acc
  | Some d =>
    let reasons := admission_rejection_reasons d m in
    let admit_or_not source :=
      let acc := note_admission path source m reasons acc in
      if bool_decide (reasons = []) then admit_default source m acc else acc in
    if mounted then admit_or_not "driver_metadata_mount"
    else if bool_decide (ld_mount_mode d = MountManual) then acc
    else admit_or_not "auto_admission"
  end.

Definition default_items_from_inventories (inventories : list ProviderInventory) (path : string)
    (definition : option LogicalModelDefinition) : DefaultLogicalItems :=
  fold_left (fun acc i => fold_left (mount_model path definition) (pi_models i) acc) inventories (mkDefaults ∅ ∅ []).

Definition default_items_with_trace_for_path (r : ModelRegistry) (path : string) : DefaultLogicalItems :=
  default_items_from_inventories (values (inventories r)) path (logical_definitions r !! path).

Definition default_items_for_path (r : ModelRegistry) (path : string) : LogicalItems :=
  df_items (default_items_with_trace_for_path r path).

Definition all_mounts (r : ModelRegistry) : list string :=
  flat_map (fun i => flat_map mm_logical_mounts (pi_models i)) (values (inventories r)).

Definition all_default_items (r : ModelRegistry) : gmap string LogicalItems :=
  let mounts := fold_left (fun mounts mount =>
    let items := default_items_for_path r mount in
    if bool_decide (items = ∅) then mounts else <[mount := items]> mounts) (all_mounts r) ∅ in
  fold_left (fun mounts path => <[path := default_items_for_path r path]> mounts) (btree_keys (logical_definitions r)) mounts.
End registry.
Arguments ModelRegistry Json : clear implicits.
