(* ===== verification/AiSession.v ===== *)
(** Configurations of sessions: a tree of logical names over the defaults of the
    registry, weights, and policies whose fields can be locked
    ([frame/aicc/src/model_session.rs]). *)
From Stdlib Require Import ZArith Lia Ascii Sorted Permutation.
From stdpp Require Import base tactics numbers gmap strings sorting list.
From S2P Require Import Prelude RustString Lists AiTypes.

(** ** The configuration *)

Inductive LogicalNode := mkNode {
  ln_children : list (string * LogicalNode);
  ln_source : option string;
  ln_items : option LogicalItems;
  ln_item_overrides : option (gmap string ModelItemPatch);
  ln_exact_model_weights : gmap string float;
  ln_disable_line : option ModelDisable;
  ln_fallback : option FallbackRule;
  ln_policy : option PolicyConfig;
  ln_route_policy_override : option PolicyConfig
}.

Abbreviation LogicalTree := (list (string * LogicalNode)).

Definition default_node : LogicalNode := mkNode [] None None None ∅ None None None None.

Record LogicalTreeOverlay := mkOverlay {
  ov_path : string;
  ov_merge_mode : OverlayMergeMode;
  ov_items : LogicalItems;
  ov_item_overrides : gmap string ModelItemPatch;
  ov_exact_model_weights : gmap string float;
  ov_disable_line : option ModelDisable;
  ov_fallback : option FallbackRule;
  ov_route_policy_override : option PolicyConfig;
  ov_source : option string
}.

Record SessionLogicalProfile := mkProfile {
  sp_name : option string;
  sp_overlays : list LogicalTreeOverlay;
  sp_route_policy_override : option PolicyConfig
}.

Record SessionConfig := mkConfig {
  sc_inherit : option string;
  sc_logical_tree : LogicalTree;
  sc_logical_profile : option SessionLogicalProfile;
  sc_logical_profiles : gmap string SessionLogicalProfile;
  sc_active_logical_profile : option string;
  sc_global_exact_model_weights : gmap string float;
  sc_provider_weights : gmap string float;
  sc_policy : PolicyConfig;
  sc_revision : option string;
  sc_ttl_seconds : option Z
}.

Definition default_config : SessionConfig := mkConfig None [] None ∅ None ∅ ∅ no_policy None None.

(** ** Items of a node *)

Definition both_items (n : LogicalNode) : bool :=
  bool_decide (is_Some (ln_items n)) && bool_decide (is_Some (ln_item_overrides n)).
Definition both_items_error {A} : routed A :=
  fail SessionConfigInvalid "items and item_overrides cannot appear on the same logical node".

(** What a patch makes of the item of this name, if there is one. *)
Definition patched_item (name : string) (patch : ModelItemPatch) (base : option ModelItem) : ModelItem :=
  match base with Some base => apply_to patch base | None => item_of_patch name patch end.

Definition patch_items (items : LogicalItems) (overrides : gmap string ModelItemPatch) : LogicalItems :=
  fold_left (fun items np => <[np.1 := patched_item np.1 np.2 (items !! np.1)]> items) (btree overrides) items.

Definition effective_items (n : LogicalNode) (inherited : option LogicalItems) : routed LogicalItems :=
  if both_items n then both_items_error
  else
    let items := default (default ∅ inherited) (ln_items n) in
    mret (match ln_item_overrides n with Some overrides => patch_items items overrides | None => items end).

(** ** Looking a configuration up *)

Fixpoint node_in (n : LogicalNode) (parts : list string) : option LogicalNode :=
  match parts with
  | [] => Some n
  | part :: parts => alist_get part (ln_children n) ≫= fun n => node_in n parts
  end.

Definition tree_node (tree : LogicalTree) (parts : list string) : option LogicalNode :=
  match parts with
  | [] => None
  | first :: parts => alist_get first tree ≫= fun n => node_in n parts
  end.

Definition node (c : SessionConfig) (path : string) : option LogicalNode := tree_node (sc_logical_tree c) (split_on DOT path).

Definition node_exact_weight (c : SessionConfig) (path exact_model : string) : float :=
  match node c path ≫= fun n => ln_exact_model_weights n !! exact_model with
  | Some weight => weight
  | None => default f64_one (sc_global_exact_model_weights c !! exact_model)
  end.

Definition provider_weight (c : SessionConfig) (provider_instance_name : string) : float :=
  default f64_one (sc_provider_weights c !! provider_instance_name).

(** ** Validation *)

Definition validate_weight (weight : float) : routed unit :=
  if bad_weight weight then fail SessionConfigInvalid "weight must be a non-negative finite number" else mret tt.

Definition check_some {A} (f : A -> routed unit) (o : option A) : routed unit :=
  match o with Some a => f a | None => mret tt end.

Definition profile_weights (c : SchedulerProfileConfig) : list SchedulerProfileWeights :=
  omap id [spc_cost_first c; spc_latency_first c; spc_quality_first c; spc_balanced c; spc_local_first c; spc_strict_local c].

Definition validate_policy_values (p : PolicyConfig) : routed unit :=
  check_some (fun v => validate_weight (lv_value v)) (pc_max_estimated_cost_usd p) ;;
  check_some (fun v => check_all validate_weights (profile_weights (lv_value v))) (pc_scheduler_profiles p).

Definition validate_item (ni : string * ModelItem) : routed unit := validate_weight (it_weight ni.2).
Definition validate_patch (np : string * ModelItemPatch) : routed unit := check_some validate_weight (pa_weight np.2).
Definition validate_weights_of (weights : gmap string float) : routed unit :=
  check_all (fun nw => validate_weight nw.2) (btree weights).

(** [validate_node], but for the children. *)
Definition validate_node_fields (n : LogicalNode) : routed unit :=
  if both_items n then both_items_error
  else
    check_some (fun items => check_all validate_item (btree items)) (ln_items n) ;;
    check_some (fun overrides => check_all validate_patch (btree overrides)) (ln_item_overrides n) ;;
    validate_weights_of (ln_exact_model_weights n) ;;
    check_some validate_policy_values (ln_policy n) ;;
    check_some validate_policy_values (ln_route_policy_override n).

Fixpoint validate_node (n : LogicalNode) : routed unit :=
  validate_node_fields n ;; check_all (fun child => validate_node child.2) (ln_children n).

Definition empty_segment (path : string) : bool := existsb (fun part => String.eqb (trim part) "") (split_on DOT path).

Definition validate_overlay (o : LogicalTreeOverlay) : routed unit :=
  if String.eqb (trim (ov_path o)) "" || empty_segment (ov_path o) then
    fail SessionConfigInvalid "overlay path must be a non-empty logical path"
  else
    check_all validate_item (btree (ov_items o)) ;;
    check_all validate_patch (btree (ov_item_overrides o)) ;;
    validate_weights_of (ov_exact_model_weights o) ;;
    check_some validate_policy_values (ov_route_policy_override o).

Definition validate_profile (p : SessionLogicalProfile) : routed unit :=
  check_some validate_policy_values (sp_route_policy_override p) ;; check_all validate_overlay (sp_overlays p).

Definition validate_provider_weight (nw : string * float) : routed unit :=
  if negb (is_valid_provider_instance_name nw.1) then
    fail SessionConfigInvalid "provider weight key must be a valid provider instance name"
  else validate_weight nw.2.

Definition validate (c : SessionConfig) : routed unit :=
  validate_weights_of (sc_global_exact_model_weights c) ;;
  check_all validate_provider_weight (btree (sc_provider_weights c)) ;;
  validate_policy_values (sc_policy c) ;;
  check_all (fun child => validate_node child.2) (sc_logical_tree c) ;;
  check_some validate_profile (sc_logical_profile c) ;;
  check_all (fun np => validate_profile np.2) (btree (sc_logical_profiles c)).

(** ** Policies *)

(** A field of the patch, if it has it. *)
Definition patched {A} (base patch : option A) : option A := match patch with Some _ => patch | None => base end.

Definition merge_policy_config (base patch : PolicyConfig) : PolicyConfig :=
  mkPolicyConfig
    (patched (pc_profile base) (pc_profile patch))
    (patched (pc_scheduler_profiles base) (pc_scheduler_profiles patch))
    (patched (pc_local_only base) (pc_local_only patch))
    (patched (pc_allow_fallback base) (pc_allow_fallback patch))
    (patched (pc_allow_exact_model_fallback base) (pc_allow_exact_model_fallback patch))
    (patched (pc_runtime_failover base) (pc_runtime_failover patch))
    (patched (pc_explain base) (pc_explain patch))
    (patched (pc_blocked_provider_instances base) (pc_blocked_provider_instances patch))
    (patched (pc_allowed_provider_instances base) (pc_allowed_provider_instances patch))
    (patched (pc_max_estimated_cost_usd base) (pc_max_estimated_cost_usd patch)).

Definition is_locked {A} (field : option (LockedValue A)) : bool := from_option lv_locked false field.

(** [check_locked!] *)
Definition check_locked {A} (name : string) (parent patch : option (LockedValue A)) : routed unit :=
  if is_locked parent && bool_decide (is_Some patch) then fail PolicyLocked ("policy field is locked: " +:+ name)
  else mret tt.

Definition reject_locked_policy_patch (parent patch : PolicyConfig) : routed unit :=
  check_locked "profile" (pc_profile parent) (pc_profile patch) ;;
  check_locked "scheduler_profiles" (pc_scheduler_profiles parent) (pc_scheduler_profiles patch) ;;
  check_locked "local_only" (pc_local_only parent) (pc_local_only patch) ;;
  check_locked "allow_fallback" (pc_allow_fallback parent) (pc_allow_fallback patch) ;;
  check_locked "allow_exact_model_fallback" (pc_allow_exact_model_fallback parent) (pc_allow_exact_model_fallback patch) ;;
  check_locked "runtime_failover" (pc_runtime_failover parent) (pc_runtime_failover patch) ;;
  check_locked "explain" (pc_explain parent) (pc_explain patch) ;;
  check_locked "blocked_provider_instances" (pc_blocked_provider_instances parent) (pc_blocked_provider_instances patch) ;;
  check_locked "allowed_provider_instances" (pc_allowed_provider_instances parent) (pc_allowed_provider_instances patch) ;;
  check_locked "max_estimated_cost_usd" (pc_max_estimated_cost_usd parent) (pc_max_estimated_cost_usd patch).

(** The two calls on a policy of a node, if the patch has it. *)
Definition patch_policy (base patch : option PolicyConfig) : routed (option PolicyConfig) :=
  match patch with
  | None => mret base
  | Some policy =>
    let current := default no_policy base in
    reject_locked_policy_patch current policy ;; mret (Some (merge_policy_config current policy))
  end.

(** ** Merging *)

(** The items and overrides of [merge_node]. *)
Definition merge_items (base patch : LogicalNode) : routed LogicalNode :=
  let set items := mkNode (ln_children base) (ln_source base) (Some items) None (ln_exact_model_weights base)
    (ln_disable_line base) (ln_fallback base) (ln_policy base) (ln_route_policy_override base) in
  if both_items patch then both_items_error
  else
    match ln_items patch, ln_item_overrides patch with
    | Some items, _ => mret (set items)
    | None, Some overrides => current ← effective_items base None; mret (set (patch_items current overrides))
    | None, None => mret base
    end.

(** [merge_node], but for the children. *)
Definition merge_node_fields (base patch : LogicalNode) : routed LogicalNode :=
  base ← merge_items base patch;
  policy ← patch_policy (ln_policy base) (ln_policy patch);
  route_policy_override ← patch_policy (ln_route_policy_override base) (ln_route_policy_override patch);
  mret (mkNode (ln_children base) (patched (ln_source base) (ln_source patch)) (ln_items base) (ln_item_overrides base)
          (ln_exact_model_weights patch ∪ ln_exact_model_weights base)
          (patched (ln_disable_line base) (ln_disable_line patch)) (patched (ln_fallback base) (ln_fallback patch))
          policy route_policy_override).

Definition with_children (n : LogicalNode) (children : LogicalTree) : LogicalNode :=
  mkNode children (ln_source n) (ln_items n) (ln_item_overrides n) (ln_exact_model_weights n) (ln_disable_line n)
    (ln_fallback n) (ln_policy n) (ln_route_policy_override n).

(** The body of the loop of [merge_tree], given [merge_node]. *)
Definition merge_child (merge_node : LogicalNode -> routed LogicalNode) (name : string) (patch : LogicalNode) (base : LogicalTree)
  : routed LogicalTree :=
  match alist_get name base with
  | Some base_node => merged ← merge_node base_node; mret (alist_insert name merged base)
  | None => mret (alist_insert name patch base)
  end.

Fixpoint merge_node (patch base : LogicalNode) {struct patch} : routed LogicalNode :=
  merged ← merge_node_fields base patch;
  children ← fold_routed (fun tree child => merge_child (merge_node child.2) child.1 child.2 tree)
               (ln_children merged) (ln_children patch);
  mret (with_children merged children).

Definition merge_tree (base patch : LogicalTree) : routed LogicalTree :=
  fold_routed (fun tree child => merge_child (merge_node child.2) child.1 child.2 tree) base patch.

Definition merge_session_config (parent child : SessionConfig) : routed SessionConfig :=
  reject_locked_policy_patch (sc_policy parent) (sc_policy child) ;;
  tree ← merge_tree (sc_logical_tree parent) (sc_logical_tree child);
  let merged := mkConfig
    (patched (sc_inherit parent) (sc_inherit child))
    tree
    (patched (sc_logical_profile parent) (sc_logical_profile child))
    (sc_logical_profiles child ∪ sc_logical_profiles parent)
    (patched (sc_active_logical_profile parent) (sc_active_logical_profile child))
    (sc_global_exact_model_weights child ∪ sc_global_exact_model_weights parent)
    (sc_provider_weights child ∪ sc_provider_weights parent)
    (merge_policy_config (sc_policy parent) (sc_policy child))
    (patched (sc_revision parent) (sc_revision child))
    (patched (sc_ttl_seconds parent) (sc_ttl_seconds child)) in
  validate merged ;; mret merged.

(** ** Overlays *)

Definition replace_items_for_overlay (o : LogicalTreeOverlay) : LogicalItems :=
  fold_left (fun items np => <[np.1 := item_of_patch np.1 np.2]> items) (btree (ov_item_overrides o)) (ov_items o).

(** The overrides of an inheriting overlay: its items replace those of its
    overrides that have the same names. *)
Definition overlay_overrides (o : LogicalTreeOverlay) : gmap string ModelItemPatch :=
  fold_left (fun overrides ni => <[ni.1 := mkPatch (Some (it_target ni.2)) (Some (it_weight ni.2))]> overrides)
    (btree (ov_items o)) (ov_item_overrides o).

Definition disabled_rule : FallbackRule := mkRule FbDisabled None.

Definition overlay_patch_node (o : LogicalTreeOverlay) : LogicalNode :=
  let make items item_overrides fallback :=
    mkNode [] (Some (default "session_overlay" (ov_source o))) items item_overrides (ov_exact_model_weights o)
      (ov_disable_line o) fallback None (ov_route_policy_override o) in
  match ov_merge_mode o with
  | MergeReplace => make (Some (replace_items_for_overlay o)) None (Some (default disabled_rule (ov_fallback o)))
  | MergeInherit =>
    let overrides := overlay_overrides o in
    make None (if bool_decide (overrides = ∅) then None else Some overrides) (ov_fallback o)
  end.

Definition with_child (name : string) (child : LogicalNode) : LogicalNode := with_children default_node [(name, child)].

Definition tree_patch_for_path (path : string) (n : LogicalNode) : routed LogicalTree :=
  let parts := split_on DOT path in
  if empty_segment path then fail SessionConfigInvalid "overlay path must be a non-empty logical path"
  else mret (ln_children (fold_right with_child (with_child (List.last parts "") n) (removelast parts))).

Definition set_tree (c : SessionConfig) (tree : LogicalTree) : SessionConfig :=
  mkConfig (sc_inherit c) tree (sc_logical_profile c) (sc_logical_profiles c) (sc_active_logical_profile c)
    (sc_global_exact_model_weights c) (sc_provider_weights c) (sc_policy c) (sc_revision c) (sc_ttl_seconds c).

Definition set_policy (c : SessionConfig) (policy : PolicyConfig) : SessionConfig :=
  mkConfig (sc_inherit c) (sc_logical_tree c) (sc_logical_profile c) (sc_logical_profiles c) (sc_active_logical_profile c)
    (sc_global_exact_model_weights c) (sc_provider_weights c) policy (sc_revision c) (sc_ttl_seconds c).

Definition apply_logical_tree_overlay (effective : SessionConfig) (o : LogicalTreeOverlay) : routed SessionConfig :=
  validate_overlay o ;;
  patch ← tree_patch_for_path (ov_path o) (overlay_patch_node o);
  tree ← merge_tree (sc_logical_tree effective) patch;
  mret (set_tree effective tree).

(** One overlay of [apply_session_profile], with its entry of the trace. *)
Definition apply_overlay_traced (scope : string) (et : SessionConfig * list SessionOverlayTrace) (o : LogicalTreeOverlay)
  : routed (SessionConfig * list SessionOverlayTrace) :=
  effective ← apply_logical_tree_overlay et.1 o;
  mret (effective, et.2 ++ [mkOverlayTrace scope (ov_path o) (ov_merge_mode o) false]).

Definition apply_session_profile (p : SessionLogicalProfile) (scope : string) (et : SessionConfig * list SessionOverlayTrace)
  : routed (SessionConfig * list SessionOverlayTrace) :=
  effective ← match sp_route_policy_override p with
              | Some policy =>
                reject_locked_policy_patch (sc_policy et.1) policy ;;
                mret (set_policy et.1 (merge_policy_config (sc_policy et.1) policy))
              | None => mret et.1
              end;
  fold_routed (apply_overlay_traced scope) (effective, et.2) (sp_overlays p).

Record EffectiveSessionConfig := mkEffective {
  ec_config : SessionConfig;
  ec_overlay_trace : list SessionOverlayTrace
}.

Definition without_profiles (c : SessionConfig) : SessionConfig :=
  mkConfig (sc_inherit c) (sc_logical_tree c) None ∅ None (sc_global_exact_model_weights c) (sc_provider_weights c)
    (sc_policy c) (sc_revision c) (sc_ttl_seconds c).

Definition build_effective_session_config (config : SessionConfig) : routed EffectiveSessionConfig :=
  validate config ;;
  et ← match sc_active_logical_profile config with
       | Some name =>
         match sc_logical_profiles config !! name with
         | None => fail SessionConfigInvalid ("active logical profile not found: " +:+ name)
         | Some p => apply_session_profile p "session" (config, [])
         end
       | None => mret (config, [])
       end;
  et ← match sc_logical_profile config with
       | Some p => apply_session_profile p "session" et
       | None => mret et
       end;
  let effective := without_profiles et.1 in
  validate effective ;; mret (mkEffective effective et.2).
