(* ===== verification/AiRouter.v ===== *)
(** From the name a request asks for to the candidates that may serve it
    ([frame/aicc/src/model_router.rs]): the expansion of logical names, the
    filters of the policy, the highest priority, and fallback.  Then the choice
    among candidates of the same priority ([frame/aicc/src/model_scheduler.rs]):
    a weighted sum of what they cost, how slow, unreliable and bad they are, and
    of preferences, each scaled to what the candidates range over.  The least
    sum is selected. *)
From Stdlib Require Import ZArith Lia Ascii Sorted Permutation.
From stdpp Require Import base tactics numbers gmap strings sorting list.
From S2P Require Import Prelude RustString Lists AiTypes AiRegistry AiSession.

(** [then_with] *)
Definition then_with (c d : comparison) : comparison := match c with Eq => d | _ => c end.

Fixpoint compare_f64_vec (a b : list float) : comparison :=
  match a, b with
  | [], [] => Eq
  | [], _ :: _ => Lt
  | _ :: _, [] => Gt
  | x :: a, y :: b => then_with (f64_cmp x y) (compare_f64_vec a b)
  end.

Definition MAX_FALLBACK_DEPTH : nat := 5.

(** ** Fallback rules *)

Definition fallback_target (current : string) (rule : FallbackRule) : option string :=
  match fr_mode rule with
  | FbStrict | FbDisabled => None
  | FbParent => fst <$> rsplit_once DOT current
  | FbTargetExact | FbTargetLogical => fr_target rule
  end.

Definition first_segment (path : string) : option string := head (split_on DOT path).

Definition same_namespace (from to : string) (api_type : ApiType) : bool :=
  is_exact_model_name to
  || bool_decide (first_segment from = first_segment to) && bool_decide (first_segment to = Some (namespace api_type)).

(** Where an item of a logical name comes from. *)
Definition item_source (node_source : option string) (session_override : bool) (item_name : string)
    (default_sources : gmap string string) : string :=
  if session_override then default "session_overlay" node_source
  else default "manual_override" (default_sources !! item_name).

Section router.
Context {Json : Type} `{HashOrder}.

Abbreviation ModelCandidate := (ModelCandidate Json).
Abbreviation ModelRegistry := (ModelRegistry Json).
Abbreviation RouteTrace := (RouteTrace Json).

(** ** Candidates *)

Definition compare_priority (a b : ModelCandidate) : comparison :=
  then_with (compare_f64_vec (ca_priority_path a) (ca_priority_path b))
    (f64_cmp (ca_exact_model_weight a) (ca_exact_model_weight b)).

Definition candidate_key (c : ModelCandidate) : string * ApiType := (ca_exact_model c, ca_api_type c).

Definition with_route_paths (c : ModelCandidate) (paths : list string) : ModelCandidate :=
  mkCandidate (ca_exact_model c) (ca_provider_model_id c) (ca_provider_instance_name c) (ca_api_type c) (ca_metadata c)
    (ca_resolved_logical_path c) (ca_priority_path c) (ca_exact_model_weight c) (ca_provider_weight c) paths
    (ca_dynamic_cost_estimate c).

(** One candidate into the [BTreeMap] of [dedupe_candidates]. *)
Definition dedupe_insert (deduped : gmap (string * ApiType) ModelCandidate) (c : ModelCandidate)
  : gmap (string * ApiType) ModelCandidate :=
  match deduped !! candidate_key c with
  | None => <[candidate_key c := c]> deduped
  | Some existing =>
    match compare_priority c existing with
    | Gt => <[candidate_key c := c]> deduped
    | Eq => <[candidate_key c := with_route_paths existing (ca_route_paths existing ++ ca_route_paths c)]> deduped
    | Lt => deduped
    end
  end.

(** The order of the keys: by name, then by type. *)
Definition key_leb (x y : string * ApiType) : bool :=
  if String.eqb x.1 y.1 then (api_index x.2 <=? api_index y.2)%nat else string_leb x.1 y.1.

Definition dedupe_candidates (candidates : list ModelCandidate) : list ModelCandidate :=
  (sort_stable (fun x y => key_leb x.1 y.1) (map_to_list (fold_left dedupe_insert candidates ∅))).*2.

(** [Iterator::max_by]: the last of the greatest. *)
Definition max_by {A} (compare : A -> A -> comparison) (l : list A) : option A :=
  match l with
  | [] => None
  | x :: l => Some (fold_left (fun best y => match compare best y with Gt => best | _ => y end) l x)
  end.

Definition same_priority (best c : ModelCandidate) : bool := bool_decide (compare_priority c best = Eq).

Definition select_highest_priority (candidates : list ModelCandidate) : list ModelCandidate :=
  match max_by compare_priority candidates with
  | None => []
  | Some best => List.filter (same_priority best) candidates
  end.

(** ** Traces *)

(** The fields of the trace that the router writes. *)
Definition set_resolution (t : RouteTrace) (resolved : option string) (before after : nat) (filtered : list FilteredCandidateTrace)
    (applied : bool) (chain : list FallbackTraceItem) (sources : list LogicalItemSourceTrace)
    (admission : list LogicalAdmissionTrace) (disabled : list DisabledCapabilityTrace) : RouteTrace :=
  mkTrace (tr_request_id t) (tr_api_type t) (tr_requested_model t) (tr_requested_model_type t) resolved
    (tr_selected_exact_model t) (tr_selected_provider_instance_name t) (tr_selected_provider_model_id t)
    (tr_provider_options t) (tr_pricing_snapshot t) before after filtered (tr_ranked_candidates t) applied chain sources
    admission disabled (tr_session_overlays t) (tr_scheduler_profile t) (tr_runtime_failover_count t) (tr_warnings t).

Definition log_resolved (path : string) (t : RouteTrace) : RouteTrace :=
  set_resolution t (Some path) (tr_candidate_count_before_filter t) (tr_candidate_count_after_filter t)
    (tr_filtered_candidates t) (tr_fallback_applied t) (tr_fallback_chain t) (tr_logical_item_sources t)
    (tr_logical_admission t) (tr_disabled_capability_sources t).
Definition log_counts (before after : nat) (t : RouteTrace) : RouteTrace :=
  set_resolution t (tr_resolved_logical_path t) before after
    (tr_filtered_candidates t) (tr_fallback_applied t) (tr_fallback_chain t) (tr_logical_item_sources t)
    (tr_logical_admission t) (tr_disabled_capability_sources t).
Definition add_before (n : nat) (t : RouteTrace) : RouteTrace :=
  log_counts (tr_candidate_count_before_filter t + n) (tr_candidate_count_after_filter t) t.
Definition add_after (n : nat) (t : RouteTrace) : RouteTrace :=
  log_counts (tr_candidate_count_before_filter t) (tr_candidate_count_after_filter t + n) t.
Definition trace_drop (c : ModelCandidate) (reason : string) (t : RouteTrace) : RouteTrace :=
  set_resolution t (tr_resolved_logical_path t) (tr_candidate_count_before_filter t) (tr_candidate_count_after_filter t)
    (tr_filtered_candidates t ++ [mkFiltered (ca_exact_model c) (ca_provider_instance_name c) reason])
    (tr_fallback_applied t) (tr_fallback_chain t) (tr_logical_item_sources t) (tr_logical_admission t)
    (tr_disabled_capability_sources t).
Definition log_fallback (from to : string) (rule : FallbackRule) (t : RouteTrace) : RouteTrace :=
  set_resolution t (tr_resolved_logical_path t) (tr_candidate_count_before_filter t) (tr_candidate_count_after_filter t)
    (tr_filtered_candidates t) true (tr_fallback_chain t ++ [mkFallback from to (fallback_mode_debug (fr_mode rule))])
    (tr_logical_item_sources t) (tr_logical_admission t) (tr_disabled_capability_sources t).
Definition log_item_source (s : LogicalItemSourceTrace) (t : RouteTrace) : RouteTrace :=
  set_resolution t (tr_resolved_logical_path t) (tr_candidate_count_before_filter t) (tr_candidate_count_after_filter t)
    (tr_filtered_candidates t) (tr_fallback_applied t) (tr_fallback_chain t) (tr_logical_item_sources t ++ [s])
    (tr_logical_admission t) (tr_disabled_capability_sources t).
Definition log_admission (l : list LogicalAdmissionTrace) (t : RouteTrace) : RouteTrace :=
  set_resolution t (tr_resolved_logical_path t) (tr_candidate_count_before_filter t) (tr_candidate_count_after_filter t)
    (tr_filtered_candidates t) (tr_fallback_applied t) (tr_fallback_chain t) (tr_logical_item_sources t)
    (tr_logical_admission t ++ l) (tr_disabled_capability_sources t).
Definition log_disabled (d : DisabledCapabilityTrace) (t : RouteTrace) : RouteTrace :=
  set_resolution t (tr_resolved_logical_path t) (tr_candidate_count_before_filter t) (tr_candidate_count_after_filter t)
    (tr_filtered_candidates t) (tr_fallback_applied t) (tr_fallback_chain t) (tr_logical_item_sources t)
    (tr_logical_admission t) (tr_disabled_capability_sources t ++ [d]).

(** A step of the resolution: it passes the trace on, can fail, and [None] is
    out of fuel. *)
Definition tracing (A : Type) : Type := RouteTrace -> option (routed (A * RouteTrace)).
#[global] Instance tracing_ret : MRet tracing := fun A a t => Some (inr (a, t)).
#[global] Instance tracing_bind : MBind tracing := fun A B f m t =>
  match m t with
  | Some (inr (a, t)) => f a t
  | Some (inl e) => Some (inl e)
  | None => None
  end.
Definition log (f : RouteTrace -> RouteTrace) : tracing unit := fun t => Some (inr (tt, f t)).
Definition lift {A} (r : routed A) : tracing A := fun t => Some (match r with inl e => inl e | inr a => inr (a, t) end).
Definition throw {A} (code : RouteErrorCode) (message : string) : tracing A := lift (fail code message).

(** A loop that collects what its rounds give. *)
Fixpoint collect {A B} (f : A -> tracing (list B)) (l : list A) : tracing (list B) :=
  match l with
  | [] => mret []
  | x :: l => xs ← f x; rest ← collect f l; mret (xs ++ rest)
  end.

(** ** Expansion *)

Context (registry : ModelRegistry) (session_config : SessionConfig).

(** A candidate as it is found, before it is known by which items. *)
Definition resolve_exact_raw (exact_model : string) (api_type : ApiType) : list ModelCandidate :=
  match exact_candidate registry exact_model api_type with
  | None => []
  | Some c =>
    [mkCandidate (ca_exact_model c) (ca_provider_model_id c) (ca_provider_instance_name c) (ca_api_type c) (ca_metadata c)
       (ca_resolved_logical_path c) [f64_one] (ca_exact_model_weight c)
       (provider_weight session_config (ca_provider_instance_name c)) [exact_model] (ca_dynamic_cost_estimate c)]
  end.

(** The candidate an item of a logical name gives. *)
Definition item_candidate (root_path logical_path target : string) (priority : list float) (c : ModelCandidate) : ModelCandidate :=
  mkCandidate (ca_exact_model c) (ca_provider_model_id c) (ca_provider_instance_name c) (ca_api_type c) (ca_metadata c)
    (Some root_path) priority (node_exact_weight session_config logical_path (ca_exact_model c))
    (provider_weight session_config (ca_provider_instance_name c))
    (ca_route_paths c ++ [logical_path +:+ " -> " +:+ target]) (ca_dynamic_cost_estimate c).

Definition is_override (n : option LogicalNode) (item_name : string) : bool :=
  match n ≫= ln_item_overrides with Some overrides => bool_decide (is_Some (overrides !! item_name)) | None => false end.

(** A round of the loop over the items of a logical name; [expand] expands the
    target of an item that is a logical name itself. *)
Definition expand_item (expand : string -> list float -> tracing (list ModelCandidate)) (root_path logical_path : string)
    (api_type : ApiType) (priority_path : list float) (n : option LogicalNode) (default_sources : gmap string string)
    (ni : string * ModelItem) : tracing (list ModelCandidate) :=
  let '(item_name, item) := ni in
  log (log_item_source (mkItemSource logical_path item_name (it_target item)
    (item_source (n ≫= ln_source) (is_override n item_name) item_name default_sources) (it_weight item))) ;;
  if f64_leb (it_weight item) f64_zero then mret []
  else
    let next_priority := priority_path ++ [it_weight item] in
    if is_exact_model_name (it_target item) then
      mret (item_candidate root_path logical_path (it_target item) next_priority <$> resolve_exact_raw (it_target item) api_type)
    else expand (it_target item) next_priority.

(** The items of a logical name: those of its node over those of the registry;
    [None] where it has neither. *)
Definition items_of (logical_path : string) : option (routed LogicalItems) :=
  let defaults := default_items_for_path registry logical_path in
  match node session_config logical_path with
  | None => if bool_decide (defaults = ∅) then None else Some (mret defaults)
  | Some n => Some (effective_items n (Some defaults))
  end.

(** [visited] has the names on the way from the root: a call takes its own name
    out again before it returns. *)
Fixpoint expand_logical (fuel : nat) (root_path logical_path : string) (api_type : ApiType) (priority_path : list float)
    (visited : gset string) : tracing (list ModelCandidate) :=
  match fuel with
  | O => fun _ => None
  | S fuel =>
    if bool_decide (logical_path ∈ visited) then throw LogicalTreeLoop "logical tree item targets form a loop"
    else
      let default_items := default_items_with_trace_for_path registry logical_path in
      log (log_admission (df_admission default_items)) ;;
      match items_of logical_path with
      | None => mret []
      | Some items =>
        items ← lift items;
        candidates ← collect (expand_item (fun target priority => expand_logical fuel root_path target api_type priority
                                                                    ({[logical_path]} ∪ visited))
                                root_path logical_path api_type priority_path (node session_config logical_path)
                                (df_item_sources default_items)) (btree items);
        mret (dedupe_candidates candidates)
      end
  end.

(** The names a path of items can go through without a loop: those of the nodes
    of the session, one more, and the check that it is one too many. *)
Fixpoint node_size (n : LogicalNode) : nat := S (sum_list (map (fun child => node_size child.2) (ln_children n))).
Definition tree_size (tree : LogicalTree) : nat := sum_list (map (fun child => node_size child.2) tree).
Definition expand_fuel : nat := S (S (tree_size (sc_logical_tree session_config))).

Definition resolve_logical_raw (logical_path : string) (api_type : ApiType) : tracing (list ModelCandidate) :=
  expand_logical expand_fuel logical_path logical_path api_type [] ∅.

(** ** Filters *)

(** The first filter a candidate fails. *)
Definition drop_reason (policy : RoutePolicy) (c : ModelCandidate) : option string :=
  let m := ca_metadata c in
  let min_line_reasons :=
    match ca_resolved_logical_path c ≫= logical_definition registry with
    | Some d => explain_missing_requirements (mm_capabilities m) (ld_min_line d)
    | None => []
    end in
  if negb (supports_api_type m (ca_api_type c)) then Some "api_type_mismatch"
  else if negb (is_available m) then
    Some (if bool_decide (he_status (mm_health m) = Unavailable) then "model_unavailable" else "quota_exhausted")
  else if negb (supports_requirements m (rp_required_features policy)) then Some "feature_unsupported"
  else if negb (bool_decide (min_line_reasons = [])) then Some ("min_line_unsatisfied:" +:+ join "," min_line_reasons)
  else if rp_local_only policy && negb (bool_decide (at_provider_type (mm_attributes m) = LocalInference)) then Some "local_only"
  else if negb (bool_decide (rp_allowed_provider_instances policy = []))
          && negb (bool_decide (ca_provider_instance_name c ∈ rp_allowed_provider_instances policy)) then
    Some "provider_not_allowed"
  else if bool_decide (ca_provider_instance_name c ∈ rp_blocked_provider_instances policy) then Some "provider_blocked"
  else if match rp_max_estimated_cost_usd policy, pr_estimated_cost (mm_pricing m) with
          | Some max_cost, Some cost => f64_gtb cost max_cost
          | _, _ => false
          end then Some "budget_exceeded"
  else if match rp_max_latency_ms policy, he_p95_latency_ms (mm_health m) with
          | Some max_latency, Some latency => max_latency <? latency
          | _, _ => false
          end then Some "latency_exceeded"
  else if f64_leb (ca_exact_model_weight c) f64_zero then Some "exact_model_weight_zero"
  else if f64_leb (ca_provider_weight c) f64_zero then Some "provider_weight_zero"
  else None.

Fixpoint apply_hard_filters (candidates : list ModelCandidate) (policy : RoutePolicy) (t : RouteTrace)
  : list ModelCandidate * RouteTrace :=
  match candidates with
  | [] => ([], t)
  | c :: candidates =>
    match drop_reason policy c with
    | Some reason => apply_hard_filters candidates policy (trace_drop c reason t)
    | None => let '(kept, t) := apply_hard_filters candidates policy t in (c :: kept, t)
    end
  end.

(** The capabilities a logical name turns off, each once. *)
Definition trace_capability (logical_path source : string) (t : RouteTrace) (capability : string) : RouteTrace :=
  if existsb (fun d => String.eqb (dc_logical_path d) logical_path && String.eqb (dc_capability d) capability
                       && String.eqb (dc_source d) source) (tr_disabled_capability_sources t)
  then t else log_disabled (mkDisabled logical_path capability source "disable_line") t.

Definition trace_disable_line (logical_path : string) (t : RouteTrace) : RouteTrace :=
  match node session_config logical_path ≫= ln_disable_line with
  | Some disable_line => fold_left (trace_capability logical_path "session_overlay") (feature_names disable_line) t
  | None =>
    match logical_definition registry logical_path with
    | Some d => fold_left (trace_capability logical_path "builtin_definition") (feature_names (ld_disable_line d)) t
    | None => t
    end
  end.

(** ** Resolution *)

(** What [resolve_logical_filtered] and [resolve_fallback] do with the
    candidates they found: the ones that pass, and the best of them. *)
Definition filter_traced (raw : list ModelCandidate) (policy : RoutePolicy) : tracing (list ModelCandidate) := fun t =>
  let '(filtered, t) := apply_hard_filters raw policy (add_before (length raw) t) in
  Some (inr (filtered, add_after (length filtered) t)).

Definition resolve_logical_filtered (logical_path : string) (api_type : ApiType) (policy : RoutePolicy)
  : tracing (list ModelCandidate) :=
  raw ← resolve_logical_raw logical_path api_type;
  log (trace_disable_line logical_path) ;;
  filtered ← filter_traced raw policy;
  (if bool_decide (filtered = []) then mret tt else log (log_resolved logical_path)) ;;
  mret (select_highest_priority filtered).

Definition fallback_rule (path : string) (policy : RoutePolicy) : option FallbackRule :=
  match node session_config path ≫= ln_fallback with
  | Some rule => Some rule
  | None =>
    match rp_fallback policy with
    | Some rule => Some rule
    | None => if contains_char DOT path then Some parent_rule else None
    end
  end.

(** [rounds] left of [MAX_FALLBACK_DEPTH]. *)
Fixpoint fallback_loop (rounds : nat) (from current : string) (visited : gset string) (api_type : ApiType) (policy : RoutePolicy)
  : tracing (list ModelCandidate) :=
  match rounds with
  | O => throw FallbackLoop "fallback chain exceeds max depth"
  | S rounds =>
    if bool_decide (current ∈ visited) then throw FallbackLoop "fallback chain contains a loop"
    else
      match fallback_rule current policy with
      | None => mret []
      | Some rule =>
        match fallback_target current rule with
        | None => mret []
        | Some next =>
          if negb (same_namespace from next api_type) then mret []
          else
            log (log_fallback current next rule) ;;
            raw ← (if is_exact_model_name next then mret (resolve_exact_raw next api_type)
                   else raw ← resolve_logical_raw next api_type; log (trace_disable_line next) ;; mret raw);
            filtered ← filter_traced raw policy;
            let selected := select_highest_priority filtered in
            if negb (bool_decide (selected = [])) then log (log_resolved next) ;; mret selected
            else if is_exact_model_name next then mret []
            else fallback_loop rounds from next ({[current]} ∪ visited) api_type policy
        end
      end
  end.

Definition resolve_fallback (from : string) (api_type : ApiType) (policy : RoutePolicy) : tracing (list ModelCandidate) :=
  if negb (rp_allow_fallback policy) then mret []
  else fallback_loop MAX_FALLBACK_DEPTH from from ∅ api_type policy.

Record RouteRequest := mkRequest {
  rr_request_id : string;
  rr_api_type : ApiType;
  rr_model : string;
  rr_policy : RoutePolicy;
  rr_session_overlay_trace : list SessionOverlayTrace
}.

(** [RouteResolution]: candidates with the trace *)

Definition initial_trace (r : RouteRequest) : RouteTrace :=
  mkTrace (rr_request_id r) (rr_api_type r) (rr_model r)
    (if is_exact_model_name (rr_model r) then RequestedExact else RequestedLogical)
    None None None None None None 0 0 [] [] false [] [] [] [] (rr_session_overlay_trace r) (rp_profile (rr_policy r)) 0 [].

Definition resolve_exact_request (r : RouteRequest) : tracing (list ModelCandidate) :=
  lift (exact_parse (rr_model r)) ;;
  let raw := resolve_exact_raw (rr_model r) (rr_api_type r) in
  candidates ← (fun t => let '(filtered, t) := apply_hard_filters raw (rr_policy r)
                           (log_counts (length raw) (tr_candidate_count_after_filter t) t) in
                         Some (inr (filtered, log_counts (tr_candidate_count_before_filter t) (length filtered) t)));
  if negb (bool_decide (candidates = [])) then mret candidates
  else if negb (rp_allow_exact_model_fallback (rr_policy r)) then
    throw ExactModelUnavailable "exact model is unavailable and exact fallback is disabled"
  else
    fallback ← resolve_fallback (rr_model r) (rr_api_type r) (rr_policy r);
    if bool_decide (fallback = []) then throw NoCandidate "exact model fallback produced no candidate" else mret fallback.

Definition resolve_logical_request (r : RouteRequest) : tracing (list ModelCandidate) :=
  candidates ← resolve_logical_filtered (rr_model r) (rr_api_type r) (rr_policy r);
  if negb (bool_decide (candidates = [])) then mret candidates
  else
    candidates ← resolve_fallback (rr_model r) (rr_api_type r) (rr_policy r);
    if bool_decide (candidates = []) then throw NoCandidate "no candidate after fallback" else mret candidates.

Definition resolve (r : RouteRequest) : option (routed (list ModelCandidate * RouteTrace)) :=
  (if is_exact_model_name (rr_model r) then resolve_exact_request r else resolve_logical_request r) (initial_trace r).
End router.

(** ** The scheduler *)

(** Hundredths, correctly rounded. *)
Definition default_weights (profile : SchedulerProfile) : SchedulerProfileWeights :=
  let w c := f64_lit c 100 in
  match profile with
  | CostFirst => mkWeights (w 55) (w 15) (w 15) (w 10) (w 5) (w 10) f64_zero
  | LatencyFirst => mkWeights (w 20) (w 45) (w 20) (w 10) (w 5) (w 10) f64_zero
  | QualityFirst => mkWeights (w 15) (w 10) (w 20) (w 50) (w 5) (w 10) f64_zero
  | Balanced => mkWeights (w 25) (w 25) (w 25) (w 25) (w 5) (w 10) f64_zero
  | LocalFirst => mkWeights (w 12) (w 8) f64_zero (w 10) f64_zero f64_zero (w 70)
  | StrictLocal => mkWeights (w 12) (w 8) f64_zero (w 10) f64_zero f64_zero (w 1000)
  end.

(** The weights a policy has for its profile. *)
Definition policy_weights (policy : RoutePolicy) : SchedulerProfileWeights :=
  default (default_weights (rp_profile policy))
    (rp_scheduler_profiles policy ≫= fun profiles => weights_for profiles (rp_profile policy)).

Definition value_range (values : list float) : float * float :=
  let '(min, max) := fold_left (fun r value => (f64_min r.1 value, f64_max r.2 value)) values (f64_infinity, f64_neg_infinity) in
  if negb (f64_is_finite min) || negb (f64_is_finite max) then (f64_zero, f64_zero) else (min, max).

Definition normalize (value : float) (range : float * float) : float :=
  if f64_ltb (f64_abs (f64_sub range.2 range.1)) f64_epsilon then f64_zero
  else f64_clamp (f64_div (f64_sub value range.1) (f64_sub range.2 range.1)) f64_zero f64_one.

(** [Iterator::min_by]: the first of the least. *)
Definition min_by {A} (compare : A -> A -> comparison) (l : list A) : option A :=
  match l with
  | [] => None
  | x :: l => Some (fold_left (fun best y => match compare best y with Gt => y | _ => best end) l x)
  end.

Definition score_of (weights : SchedulerProfileWeights) (inputs : ScoreInputs) : float :=
  f64_add (f64_add (f64_add (f64_add (f64_add (f64_add
    (f64_mul (w_cost weights) (si_cost inputs))
    (f64_mul (w_latency weights) (si_latency inputs)))
    (f64_mul (w_reliability weights) (si_reliability inputs)))
    (f64_mul (w_quality weights) (si_quality inputs)))
    (f64_mul (w_preference weights) (si_preference inputs)))
    (f64_mul (w_cache weights) (si_cache inputs)))
    (f64_mul (w_local weights) (si_local inputs)).

Section scheduler.
Context {Json : Type}.
Abbreviation ModelCandidate := (ModelCandidate Json).

Definition cost_value (c : ModelCandidate) : float :=
  match ca_dynamic_cost_estimate c with
  | Some estimate => f64_max (es_estimated_cost_usd estimate) f64_zero
  | None =>
    f64_max (match pr_estimated_cost (mm_pricing (ca_metadata c)) with
             | Some cost => cost
             | None => match at_cost_class (mm_attributes (ca_metadata c)) with
                       | CostLow => f64_lit 1 10
                       | CostMedium => f64_half
                       | CostHigh => f64_one
                       | CostUnknown => f64_lit 75 100
                       end
             end) f64_zero
  end.

Definition latency_value (c : ModelCandidate) : float :=
  f64_max (match he_p95_latency_ms (mm_health (ca_metadata c)) with
           | Some value => f64_of_Z value
           | None => match at_latency_class (mm_attributes (ca_metadata c)) with
                     | LatencyFast => f64_of_Z 100
                     | LatencyNormal => f64_of_Z 1000
                     | LatencySlow => f64_of_Z 5000
                     | LatencyUnknown => f64_of_Z 2000
                     end
           end) f64_zero.

Definition risk_value (c : ModelCandidate) : float :=
  f64_clamp (default f64_zero (he_error_rate_5m (mm_health (ca_metadata c)))) f64_zero f64_one.

Definition quality_penalty (c : ModelCandidate) : float :=
  f64_sub f64_one (f64_clamp (default f64_half (at_quality_score (mm_attributes (ca_metadata c)))) f64_zero f64_one).

Definition preference_penalty (c : ModelCandidate) : float :=
  f64_div f64_one (f64_max (f64_mul (ca_exact_model_weight c) (ca_provider_weight c)) least_weight).

Definition local_penalty (c : ModelCandidate) : float :=
  if bool_decide (at_provider_type (mm_attributes (ca_metadata c)) = LocalInference) then f64_zero else f64_one.

Record ScoredCandidate := mkScored {
  sd_candidate : ModelCandidate;
  sd_score : float;
  sd_inputs : ScoreInputs
}.

Definition score_inputs (candidates : list ModelCandidate) (c : ModelCandidate) : ScoreInputs :=
  let scaled value := normalize (value c) (value_range (value <$> candidates)) in
  mkInputs (scaled cost_value) (scaled latency_value) (scaled risk_value) (scaled quality_penalty)
    (scaled preference_penalty) f64_zero (local_penalty c).

Definition score_candidates (candidates : list ModelCandidate) (policy : RoutePolicy) : list ScoredCandidate :=
  (fun c => let inputs := score_inputs candidates c in mkScored c (score_of (policy_weights policy) inputs) inputs)
    <$> candidates.

Definition ranked_trace (candidates : list ModelCandidate) (selected : option ModelCandidate) (scored : option (list ScoredCandidate))
  : list RankedCandidateTrace :=
  (fun c =>
    let found := scored ≫= List.find (fun item => String.eqb (ca_exact_model (sd_candidate item)) (ca_exact_model c)) in
    mkRanked (ca_exact_model c) (ca_provider_instance_name c) (snapshot_from_candidate c) (ca_priority_path c)
      (ca_exact_model_weight c) (ca_provider_weight c)
      (preference_from_weights (ca_exact_model_weight c) (ca_provider_weight c))
      (default no_inputs (sd_inputs <$> found)) (sd_score <$> found)
      (from_option (fun item => String.eqb (ca_exact_model item) (ca_exact_model c)) false selected)) <$> candidates.

Record ScheduledRoute := mkScheduled {
  sr_selected : ModelCandidate;
  sr_ranked_candidates : list RankedCandidateTrace
}.

Definition compare_scores (left right : ScoredCandidate) : comparison := f64_cmp (sd_score left) (sd_score right).

Definition schedule (candidates : list ModelCandidate) (policy : RoutePolicy) : option ScheduledRoute :=
  let scored := score_candidates candidates policy in
  selected ← sd_candidate <$> min_by compare_scores scored;
  Some (mkScheduled selected (ranked_trace candidates (Some selected) (Some scored))).
End scheduler.
