(* ===== verification/AiRoute.v ===== *)
(** Routing of a request ([frame/aicc/src/aicc.rs], [AIComputeCenter::route_request]):
    its policy, the configuration of its session, the router, the costs the
    providers estimate now, the scheduler, and the attempts of the decision. *)
From Stdlib Require Import ZArith Lia Ascii Sorted Permutation.
From stdpp Require Import base tactics numbers gmap strings sorting list.
From S2P Require Import Prelude RustString Lists WfJson AiTypes AiRegistry AiSession AiRouter.

(** ** Errors *)

Definition error_code_str (c : RouteErrorCode) : string :=
  match c with
  | InvalidModelName => "AICC_ROUTE_INVALID_MODEL_NAME"
  | ModelNotFound => "AICC_ROUTE_MODEL_NOT_FOUND"
  | NoCandidate => "AICC_ROUTE_NO_CANDIDATE"
  | PolicyRejected => "AICC_ROUTE_POLICY_REJECTED"
  | FallbackLoop => "AICC_ROUTE_FALLBACK_LOOP"
  | LogicalTreeLoop => "AICC_ROUTE_LOGICAL_TREE_LOOP"
  | SessionConfigInvalid => "AICC_ROUTE_SESSION_CONFIG_INVALID"
  | SessionConfigConflict => "AICC_ROUTE_SESSION_CONFIG_CONFLICT"
  | SessionConfigExpired => "AICC_ROUTE_SESSION_CONFIG_EXPIRED"
  | PolicyLocked => "AICC_ROUTE_POLICY_LOCKED"
  | ExactModelUnavailable => "AICC_ROUTE_EXACT_MODEL_UNAVAILABLE"
  | ProviderUnavailable => "AICC_ROUTE_PROVIDER_UNAVAILABLE"
  | BudgetExceeded => "AICC_ROUTE_BUDGET_EXCEEDED"
  | ContextTooLong => "AICC_ROUTE_CONTEXT_TOO_LONG"
  | FeatureUnsupported => "AICC_ROUTE_FEATURE_UNSUPPORTED"
  end.

(** [RPCErrors::ReasonError], by its message. *)
Definition reason_error (code detail : string) : string := code +:+ ": " +:+ detail.

Definition route_error_to_rpc (e : RouteError) : string :=
  let code :=
    match err_code e with
    | NoCandidate => "no_provider_available"
    | ModelNotFound => "model_alias_not_mapped"
    | InvalidModelName => "bad_request"
    | BudgetExceeded => "max_cost_exceeded"
    | ContextTooLong => "context_too_long"
    | FeatureUnsupported => "no_provider_available"
    | ExactModelUnavailable | ProviderUnavailable | PolicyRejected => "no_provider_available"
    | c => error_code_str c
    end in
  reason_error code (error_code_str (err_code e) +:+ ": " +:+ err_message e).

(** [?] after [map_err(route_error_to_rpc)] *)
Definition to_rpc {A} (r : routed A) : string + A := match r with inl e => inl (route_error_to_rpc e) | inr a => inr a end.

(** ** Methods *)

Inductive Capability := CapLlm | CapEmbedding | CapRerank | CapImage | CapVision | CapAudio | CapVideo | CapAgent.
#[export] Instance Capability_eq_dec : EqDecision Capability. Proof. solve_decision. Defined.

Definition capability_debug (c : Capability) : string :=
  match c with
  | CapLlm => "Llm" | CapEmbedding => "Embedding" | CapRerank => "Rerank" | CapImage => "Image" | CapVision => "Vision"
  | CapAudio => "Audio" | CapVideo => "Video" | CapAgent => "Agent"
  end.

(** The methods with what they ask for. *)
Definition methods : list (string * (ApiType * Capability)) :=
  [("llm.chat", (Llm, CapLlm));
   ("embedding.text", (Embedding, CapEmbedding)); ("embedding.multimodal", (EmbeddingMultimodal, CapEmbedding));
   ("rerank", (Rerank, CapRerank));
   ("image.txt2img", (ImageTextToImage, CapImage)); ("image.img2img", (ImageToImage, CapImage));
   ("image.inpaint", (ImageInpaint, CapImage)); ("image.upscale", (ImageUpscale, CapImage));
   ("image.bg_remove", (ImageBgRemove, CapImage));
   ("vision.ocr", (VisionOcr, CapVision)); ("vision.caption", (VisionCaption, CapVision));
   ("vision.detect", (VisionDetect, CapVision)); ("vision.segment", (VisionSegment, CapVision));
   ("audio.tts", (AudioTts, CapAudio)); ("audio.asr", (AudioAsr, CapAudio)); ("audio.music", (AudioMusic, CapAudio));
   ("audio.enhance", (AudioEnhance, CapAudio));
   ("video.txt2video", (VideoTextToVideo, CapVideo)); ("video.img2video", (VideoImageToVideo, CapVideo));
   ("video.video2video", (VideoToVideo, CapVideo)); ("video.extend", (VideoExtend, CapVideo));
   ("video.upscale", (VideoUpscale, CapVideo));
   ("agent.computer_use", (AgentComputerUse, CapAgent))].

Definition api_type_for_method (method : string) : option ApiType := fst <$> alist_get method methods.
Definition capability_for_method (method : string) : option Capability := snd <$> alist_get method methods.

(** ** Billing *)

(** 15 dollars *)
Definition SN_AI_PROVIDER_FREE_CREDIT_USD : float := Eval vm_compute in f64_of_Z 15.

Record BillingAdjustment := mkAdjustment {
  ba_raw_cost_usd : float;
  ba_billed_cost_usd : float;
  ba_credit_applied_usd : float;
  ba_remaining_credit_usd : float
}.

(** What each tenant has spent, before credit. *)
Definition BillingLedger : Type := gmap string float.

Definition adjust_from_spent (spent_raw_cost_usd raw_cost_usd : float) : BillingAdjustment :=
  let remaining := f64_max (f64_sub SN_AI_PROVIDER_FREE_CREDIT_USD spent_raw_cost_usd) f64_zero in
  let credit := f64_max (f64_min raw_cost_usd remaining) f64_zero in
  mkAdjustment raw_cost_usd (f64_max (f64_sub raw_cost_usd credit) f64_zero) credit
    (f64_max (f64_sub remaining credit) f64_zero).

Definition spent_by (ledger : BillingLedger) (tenant_id : string) : float :=
  f64_max (default f64_zero (ledger !! tenant_id)) f64_zero.

Definition preview_billed_cost (ledger : BillingLedger) (tenant_id provider_driver : string) (raw_cost_usd : float) : option float :=
  let raw := f64_max raw_cost_usd f64_zero in
  if negb (String.eqb provider_driver "sn-ai-provider") then Some raw
  else Some (f64_max (ba_billed_cost_usd (adjust_from_spent (spent_by ledger tenant_id) raw)) f64_zero).

(** The ledger after the call, and the adjustment. *)
Definition apply_charge (ledger : BillingLedger) (tenant_id provider_driver : string) (raw_cost_usd : option float)
  : BillingLedger * option BillingAdjustment :=
  if negb (String.eqb provider_driver "sn-ai-provider") then (ledger, None)
  else match raw_cost_usd with
       | None => (ledger, None)
       | Some raw_cost_usd =>
         let raw := f64_max raw_cost_usd f64_zero in
         let spent := spent_by ledger tenant_id in
         (<[tenant_id := f64_add spent raw]> ledger, Some (adjust_from_spent spent raw))
       end.

(** ** The catalogue of models *)

(** Capability, alias and provider type. *)
Definition ModelMappingKey : Type := Capability * string * string.
#[export] Program Instance Capability_countable : Countable Capability :=
  inj_countable' (fun c => match c with CapLlm => 0 | CapEmbedding => 1 | CapRerank => 2 | CapImage => 3 | CapVision => 4
                                      | CapAudio => 5 | CapVideo => 6 | CapAgent => 7 end)%nat
    (fun n => default CapLlm ([CapLlm; CapEmbedding; CapRerank; CapImage; CapVision; CapAudio; CapVideo; CapAgent] !! n)) _.
Next Obligation. by intros []. Qed.

Record ModelCatalog := mkCatalog {
  mappings : gmap (Capability * string * string) string;
  tenant_overrides : gmap (string * (Capability * string * string)) string
}.

Definition set_mapping (key : ModelMappingKey) (provider_model : string) (c : ModelCatalog) : ModelCatalog :=
  mkCatalog (<[key := provider_model]> (mappings c)) (tenant_overrides c).
Definition set_tenant_mapping (tenant_id : string) (key : ModelMappingKey) (provider_model : string) (c : ModelCatalog) : ModelCatalog :=
  mkCatalog (mappings c) (<[(tenant_id, key) := provider_model]> (tenant_overrides c)).
Definition catalog_resolve (c : ModelCatalog) (tenant_id : string) (capability : Capability) (alias provider_type : string)
  : option string :=
  let key := (capability, alias, provider_type) in
  match tenant_overrides c !! (tenant_id, key) with
  | Some model => Some model
  | None => mappings c !! key
  end.

(** ** Policies *)

Definition or_else {A} (o o' : option A) : option A := match o with Some _ => o | None => o' end.

Inductive RoutePolicyProfile := ProfileCheap | ProfileFast | ProfileBalanced | ProfileQuality.

(** The policy of a request, [buckyos_api::RoutePolicy]. *)
Record RequestPolicy := mkRequestPolicy {
  qp_profile : RoutePolicyProfile;
  qp_local_only : bool;
  qp_allow_fallback : bool;
  qp_runtime_failover : bool;
  qp_explain : bool;
  qp_allowed_provider_instances : list string;
  qp_blocked_provider_instances : list string;
  qp_max_cost_usd : option float;
  qp_max_latency_ms : option Z
}.

Definition scheduler_profile (p : RoutePolicyProfile) : SchedulerProfile :=
  match p with ProfileCheap => CostFirst | ProfileFast => LatencyFirst | ProfileBalanced => Balanced | ProfileQuality => QualityFirst end.

(** A field of a configuration, if it has it. *)
Definition set_or {A} (field : option (LockedValue A)) (value : A) : A := from_option lv_value value field.

Definition apply_policy_config_to_route_policy (config : PolicyConfig) (p : RoutePolicy) : RoutePolicy :=
  mkRoutePolicy
    (set_or (pc_profile config) (rp_profile p))
    (match pc_scheduler_profiles config with Some v => Some (lv_value v) | None => rp_scheduler_profiles p end)
    (set_or (pc_local_only config) (rp_local_only p))
    (set_or (pc_allow_fallback config) (rp_allow_fallback p))
    (set_or (pc_allow_exact_model_fallback config) (rp_allow_exact_model_fallback p))
    (set_or (pc_runtime_failover config) (rp_runtime_failover p))
    (set_or (pc_explain config) (rp_explain p))
    (rp_required_features p)
    (set_or (pc_blocked_provider_instances config) (rp_blocked_provider_instances p))
    (set_or (pc_allowed_provider_instances config) (rp_allowed_provider_instances p))
    (match pc_max_estimated_cost_usd config with Some v => Some (lv_value v) | None => rp_max_estimated_cost_usd p end)
    (rp_max_latency_ms p) (rp_fallback p).

Definition apply_logical_node_policy_override (session_config : SessionConfig) (model : string) (p : RoutePolicy) : RoutePolicy :=
  if is_exact_model_name model then p
  else
    match node session_config model with
    | None => p
    | Some n =>
      let p := match ln_policy n with Some config => apply_policy_config_to_route_policy config p | None => p end in
      match ln_route_policy_override n with Some config => apply_policy_config_to_route_policy config p | None => p end
    end.

Definition with_failover (runtime_failover : bool) (p : RoutePolicy) : RoutePolicy :=
  mkRoutePolicy (rp_profile p) (rp_scheduler_profiles p) (rp_local_only p) (rp_allow_fallback p)
    (rp_allow_exact_model_fallback p) runtime_failover (rp_explain p) (rp_required_features p)
    (rp_blocked_provider_instances p) (rp_allowed_provider_instances p) (rp_max_estimated_cost_usd p)
    (rp_max_latency_ms p) (rp_fallback p).

(** [ModelRequirement::set_feature_required] *)
Definition set_feature_required (r : ModelRequirement) (feature : string) : ModelRequirement :=
  let named name := String.eqb feature name in
  mkReq (named "streaming" || req_streaming r) (named "tool_calling" || req_tool_call r) (named "json_output" || req_json_schema r)
    (named "web_search" || req_web_search r) (named "vision" || req_vision r) (req_min_context_tokens r).

(** Each name once. *)
Definition merge_disabled_capabilities (base overlay : list string) : list string :=
  fold_left (fun base capability => if bool_decide (capability ∈ base) then base else base ++ [capability]) overlay base.

Definition enabled_capabilities (c : ModelCapabilities) (disabled : list string) : list string :=
  let push feature value := if value && negb (bool_decide (feature ∈ disabled)) then [feature] else [] in
  push "streaming" (cap_streaming c) ++ push "tool_calling" (cap_tool_call c) ++ push "json_output" (cap_json_schema c)
  ++ push "web_search" (cap_web_search c) ++ push "vision" (cap_vision c)
  ++ match cap_max_context_tokens c with Some tokens => ["max_context_tokens:" +:+ u64_to_string tokens] | None => [] end
  ++ match cap_max_output_tokens c with Some tokens => ["max_output_tokens:" +:+ u64_to_string tokens] | None => [] end.

(** ** Requests *)

Section route.
Context {Number : Type} (number_as_u64 : Number -> option Z) `{HashOrder}.
Abbreviation Json := (WfJson.Value Number).
Abbreviation ModelCandidate := (ModelCandidate Json).
Abbreviation ModelRegistry := (ModelRegistry Json).
Abbreviation RouteTrace := (RouteTrace Json).
Abbreviation ProviderInventory := (ProviderInventory Json).

Definition as_bool (v : Json) : option bool := match v with VBool b => Some b | _ => None end.
Definition as_u64 (v : Json) : option Z := match v with VNumber n => number_as_u64 n | _ => None end.

Record Requirements := mkRequirements {
  rq_required : ModelRequirement;
  rq_must_features : list string;
  rq_max_latency_ms : option Z;
  rq_max_cost_usd : option float;
  rq_extra : option Json
}.

(** The fields of [AiMethodRequest] that routing reads: for the payload, the
    tokens [estimate_request_tokens] counts and the [session_overlay] it may
    carry, as the JSON library reads it. *)
Record AiMethodRequest := mkMethodRequest {
  am_capability : Capability;
  am_model_alias : string;
  am_requirements : Requirements;
  am_disable : ModelDisable;
  am_policy : option RequestPolicy;
  am_input_tokens : Z;
  am_output_tokens : Z;
  am_session_overlay : option (routed SessionConfig)
}.

Definition effective_feature_names (r : Requirements) : list string :=
  merge_disabled_capabilities (required_feature_names (rq_required r)) (rq_must_features r).

Definition required_model_features (r : Requirements) : RequiredModelFeatures :=
  fold_left set_feature_required (rq_must_features r) (rq_required r).

Definition with_min_context (r : ModelRequirement) (tokens : option Z) : ModelRequirement :=
  mkReq (req_streaming r) (req_tool_call r) (req_json_schema r) (req_web_search r) (req_vision r)
    (or_else tokens (req_min_context_tokens r)).

(** [extra.get(key).and_then(Value::as_bool)] *)
Definition extra_bool (r : Requirements) (key : string) (value : bool) : bool :=
  default value (rq_extra r ≫= fun extra => get extra key ≫= as_bool).
Definition extra_context (r : Requirements) : option Z :=
  rq_extra r ≫= fun extra => or_else (get extra "min_context_tokens") (get extra "min_context_window_tokens") ≫= as_u64.

Definition route_policy_from_request (request : AiMethodRequest) : RoutePolicy :=
  let r := am_requirements request in
  let d := default_route_policy in
  let q {A} (f : RequestPolicy -> A) (value : A) : A := from_option f value (am_policy request) in
  mkRoutePolicy
    (q (fun p => scheduler_profile (qp_profile p)) (rp_profile d))
    (rp_scheduler_profiles d)
    (extra_bool r "local_only" (q qp_local_only (rp_local_only d)))
    (extra_bool r "allow_fallback" (q qp_allow_fallback (rp_allow_fallback d)))
    (rp_allow_exact_model_fallback d)
    (extra_bool r "runtime_failover" (q qp_runtime_failover (rp_runtime_failover d)))
    (q qp_explain (rp_explain d))
    (with_min_context (required_model_features r) (extra_context r))
    (q qp_blocked_provider_instances (rp_blocked_provider_instances d))
    (q qp_allowed_provider_instances (rp_allowed_provider_instances d))
    (or_else (am_policy request ≫= qp_max_cost_usd) (rq_max_cost_usd r))
    (or_else (am_policy request ≫= qp_max_latency_ms) (rq_max_latency_ms r))
    (rp_fallback d).

Definition disabled_capabilities (request : AiMethodRequest) : list string :=
  let legacy :=
    match rq_extra (am_requirements request) ≫= as_object with
    | Some extra =>
      match map_get "disable_capabilities" extra ≫= as_array with
      | Some items => omap as_str (items : list Json)
      | None => []
      end
    | None => []
    end in
  merge_disabled_capabilities (feature_names (am_disable request)) legacy.

Definition disabled_capabilities_for_logical_path (session_config : SessionConfig) (registry : ModelRegistry) (path : string)
  : list string :=
  match node session_config path ≫= ln_disable_line with
  | Some disable_line => feature_names disable_line
  | None => from_option (fun d => feature_names (ld_disable_line d)) [] (logical_definition registry path)
  end.

(** [extract_session_config] and [resolve_request_session_config] *)
Definition resolve_request_session_config (global : SessionConfig) (request : AiMethodRequest) : routed EffectiveSessionConfig :=
  config ← match am_session_overlay request with
           | None => mret global
           | Some overlay => overlay ← (overlay : routed SessionConfig); validate overlay ;; merge_session_config global overlay
           end;
  validate config ;;
  build_effective_session_config config.

(** The policy [route_request] routes by. *)
Definition effective_policy (request : AiMethodRequest) (session_config : SessionConfig) (fallback_limit : nat) : RoutePolicy :=
  let p := route_policy_from_request request in
  let p := apply_policy_config_to_route_policy (sc_policy session_config) p in
  let p := apply_logical_node_policy_override session_config (am_model_alias request) p in
  if (fallback_limit =? 0)%nat then with_failover false p else p.

(** ** Estimates *)

(** A provider, through the methods of its interface that routing calls. *)
Record Provider := mkProvider {
  pv_inventory : ProviderInventory;
  pv_estimate_cost : CostEstimateInput -> CostEstimateOutput
}.

(** The state of the service routing reads. *)
Record ServiceState := mkService {
  ss_registry : ModelRegistry;
  ss_providers : gmap string Provider;
  ss_session_config : SessionConfig;
  ss_billing : BillingLedger;
  ss_catalog : ModelCatalog
}.

Definition with_estimate (c : ModelCandidate) (estimate : CostEstimateOutput) (cost : float) : ModelCandidate :=
  let m := ca_metadata c in
  let pricing := mm_pricing m in
  let health := mm_health m in
  mkCandidate (ca_exact_model c) (ca_provider_model_id c) (ca_provider_instance_name c) (ca_api_type c)
    (mkMetadata (mm_provider_model_id m) (mm_exact_model m) (mm_model_driver m) (mm_origin_model_id m)
       (mm_provider_actual_model_id m) (mm_provider_options m) (mm_parameter_scale m) (mm_api_types m) (mm_logical_mounts m)
       (mm_capabilities m) (mm_attributes m)
       (mkPricing (pr_currency pricing) (pr_input_token pricing) (pr_output_token pricing) (pr_cache_input_token pricing) (Some cost))
       (mkHealth (he_status health) (he_p50_latency_ms health)
          (or_else (es_estimated_latency_ms estimate) (he_p95_latency_ms health)) (he_error_rate_5m health)
          (he_recent_failures health) (he_queue_depth health) (es_quota_state estimate)))
    (ca_resolved_logical_path c) (ca_priority_path c) (ca_exact_model_weight c) (ca_provider_weight c) (ca_route_paths c)
    (Some (mkEstimate cost (es_pricing_mode estimate) (es_quota_state estimate) (es_confidence estimate)
             (es_estimated_latency_ms estimate))).

Definition dynamic_cost_estimate (s : ServiceState) (tenant_id : string) (request : AiMethodRequest) (c : ModelCandidate)
  : ModelCandidate :=
  match ss_providers s !! ca_provider_instance_name c with
  | None => c
  | Some provider =>
    let estimate := pv_estimate_cost provider
      (mkEstimateInput (ca_api_type c) (ca_exact_model c) (am_input_tokens request) (Some (am_output_tokens request)) None
         (effective_feature_names (am_requirements request))) in
    let driver := from_option (fun p => pi_provider_driver (pv_inventory p)) "" (ss_providers s !! ca_provider_instance_name c) in
    let cost := default (es_estimated_cost_usd estimate)
                  (preview_billed_cost (ss_billing s) tenant_id driver (es_estimated_cost_usd estimate)) in
    with_estimate c estimate (f64_max cost f64_zero)
  end.

Definition apply_dynamic_cost_estimates (s : ServiceState) (tenant_id : string) (request : AiMethodRequest)
    (candidates : list ModelCandidate) : list ModelCandidate := dynamic_cost_estimate s tenant_id request <$> candidates.

(** The closure of [retain]. *)
Definition within_budget (policy : RoutePolicy) (c : ModelCandidate) : bool :=
  let m := ca_metadata c in
  negb (bool_decide (he_quota_state (mm_health m) = Exhausted))
  && match rp_max_estimated_cost_usd policy with
     | Some max_cost =>
       let cost := or_else (es_estimated_cost_usd <$> ca_dynamic_cost_estimate c) (pr_estimated_cost (mm_pricing m)) in
       negb (from_option (fun value => f64_gtb value max_cost) false cost)
     | None => true
     end
  && match rp_max_latency_ms policy with
     | Some max_latency =>
       let latency := or_else (ca_dynamic_cost_estimate c ≫= es_estimated_latency_ms) (he_p95_latency_ms (mm_health m)) in
       negb (from_option (fun value => max_latency <? value) false latency)
     | None => true
     end.

Definition apply_dynamic_budget_filters (policy : RoutePolicy) (candidates : list ModelCandidate) (t : RouteTrace)
  : routed (list ModelCandidate * RouteTrace) :=
  let kept := List.filter (within_budget policy) candidates in
  if bool_decide (kept = []) && negb (bool_decide (candidates = [])) then
    fail BudgetExceeded "all candidates were rejected by dynamic cost or quota estimates"
  else mret (kept, log_counts (tr_candidate_count_before_filter t) (length kept) t).

(** ** Decisions *)

Record RouteAttempt := mkAttempt {
  ra_instance_id : string;
  ra_provider_model : string;
  ra_provider_options : option Json;
  ra_exact_model : string;
  ra_pricing_snapshot : option RoutePricingSnapshot
}.

Record RouteDecision := mkDecision {
  rd_primary_instance_id : string;
  rd_fallback_instance_ids : list string;
  rd_provider_model : string;
  rd_enabled_capabilities : list string;
  rd_disabled_capabilities : list string;
  rd_attempts : list RouteAttempt;
  rd_route_trace : RouteTrace;
  rd_runtime_failover_enabled : bool
}.

Definition provider_call_from_candidate (c : ModelCandidate) : string * option Json :=
  let m := ca_metadata c in
  (default (mm_provider_model_id m) (mm_provider_actual_model_id m), mm_provider_options m).

Definition legacy_catalog_provider_model (s : ServiceState) (tenant_id : string) (capability : Capability) (alias name : string)
  : option string :=
  provider ← ss_providers s !! name;
  let driver := pi_provider_driver (pv_inventory provider) in
  if String.eqb driver "" then None else catalog_resolve (ss_catalog s) tenant_id capability alias driver.

(** The model and options a candidate is called with: those of the catalogue
    of old, which has no options, before its own. *)
Definition provider_call (s : ServiceState) (tenant_id : string) (request : AiMethodRequest) (c : ModelCandidate) : string * option Json :=
  match legacy_catalog_provider_model s tenant_id (am_capability request) (am_model_alias request) (ca_provider_instance_name c) with
  | Some provider_model => (provider_model, None)
  | None => provider_call_from_candidate c
  end.

Definition attempt_of (s : ServiceState) (tenant_id : string) (request : AiMethodRequest) (c : ModelCandidate) : RouteAttempt :=
  let '(provider_model, provider_options) := provider_call s tenant_id request c in
  mkAttempt (ca_provider_instance_name c) provider_model provider_options (ca_exact_model c) (snapshot_from_candidate c).

(** The loop over the candidates after the selected one. *)
Fixpoint failover_attempts (attempt : ModelCandidate -> RouteAttempt) (selected : string) (fallback_limit : nat)
    (attempts : list RouteAttempt) (candidates : list ModelCandidate) : list RouteAttempt :=
  match candidates with
  | [] => attempts
  | c :: candidates =>
    if String.eqb (ca_exact_model c) selected then failover_attempts attempt selected fallback_limit attempts candidates
    else if (fallback_limit <? length attempts)%nat then attempts
    else failover_attempts attempt selected fallback_limit (attempts ++ [attempt c]) candidates
  end.

Definition mark_selected_session_overlay (selected : ModelCandidate) (overlays : list SessionOverlayTrace) : list SessionOverlayTrace :=
  (fun o => mkOverlayTrace (ot_logical_profile_scope o) (ot_overlay_path o) (ot_merge_mode o)
              (existsb (starts_with (ot_overlay_path o +:+ " -> ")) (ca_route_paths selected))) <$> overlays.

Definition log_selection (selected : ModelCandidate) (call : string * option Json) (ranked : list RankedCandidateTrace) (t : RouteTrace)
  : RouteTrace :=
  mkTrace (tr_request_id t) (tr_api_type t) (tr_requested_model t) (tr_requested_model_type t) (tr_resolved_logical_path t)
    (Some (ca_exact_model selected)) (Some (ca_provider_instance_name selected)) (Some call.1) call.2
    (snapshot_from_candidate selected) (tr_candidate_count_before_filter t) (tr_candidate_count_after_filter t)
    (tr_filtered_candidates t) ranked (tr_fallback_applied t) (tr_fallback_chain t) (tr_logical_item_sources t)
    (tr_logical_admission t) (tr_disabled_capability_sources t)
    (mark_selected_session_overlay selected (tr_session_overlays t)) (tr_scheduler_profile t) (tr_runtime_failover_count t)
    (tr_warnings t).

(** From the candidates of the router on. *)
Definition decide_route (s : ServiceState) (tenant_id : string) (request : AiMethodRequest) (fallback_limit : nat)
    (session_config : SessionConfig) (policy : RoutePolicy) (candidates : list ModelCandidate) (t : RouteTrace)
  : string + RouteDecision :=
  let definition_disabled :=
    from_option (disabled_capabilities_for_logical_path session_config (ss_registry s)) [] (tr_resolved_logical_path t) in
  let candidates := apply_dynamic_cost_estimates s tenant_id request candidates in
  match to_rpc (apply_dynamic_budget_filters policy candidates t) with
  | inl e => inl e
  | inr (candidates, t) =>
    match schedule candidates policy with
    | None => inl (reason_error "no_provider_available" "no route candidate generated")
    | Some scheduled =>
      let selected := sr_selected scheduled in
      let call := provider_call s tenant_id request selected in
      let first := [attempt_of s tenant_id request selected] in
      let attempts :=
        if rp_runtime_failover policy then
          failover_attempts (attempt_of s tenant_id request) (ca_exact_model selected) fallback_limit first candidates
        else first in
      let disabled := merge_disabled_capabilities (disabled_capabilities request) definition_disabled in
      inr (mkDecision (ca_provider_instance_name selected) (ra_instance_id <$> drop 1 attempts) call.1
             (enabled_capabilities (mm_capabilities (ca_metadata selected)) disabled) disabled attempts
             (log_selection selected call (sr_ranked_candidates scheduled) t) (rp_runtime_failover policy))
    end
  end.

(** [route_request] after the refresh of the registry.  [None] is out of fuel. *)
Definition route_with (s : ServiceState) (tenant_id : string) (api_type : ApiType) (request : AiMethodRequest)
    (fallback_limit : nat) (request_id : string) : option (string + RouteDecision) :=
  match to_rpc (resolve_request_session_config (ss_session_config s) request) with
  | inl e => Some (inl e)
  | inr effective =>
    let policy := effective_policy request (ec_config effective) fallback_limit in
    resolution ← resolve (ss_registry s) (ec_config effective)
                   (mkRequest request_id api_type (am_model_alias request) policy (ec_overlay_trace effective));
    Some (match to_rpc resolution with
          | inl e => inl e
          | inr (candidates, t) => decide_route s tenant_id request fallback_limit (ec_config effective) policy candidates t
          end)
  end.

Definition with_registry (s : ServiceState) (r : ModelRegistry) : ServiceState :=
  mkService r (ss_providers s) (ss_session_config s) (ss_billing s) (ss_catalog s).

(** The state after the call, and the decision; [hook] and [source] are those
    of the refresh. *)
Definition route_request (hook : option (routed unit)) (source : list ProviderInventory) (s : ServiceState)
    (tenant_id method : string) (request : AiMethodRequest) (fallback_limit : nat) (request_id : string)
  : ServiceState * option (string + RouteDecision) :=
  match api_type_for_method method with
  | None => (s, Some (inl (reason_error "invalid_method" ("method '" +:+ method +:+ "' is not supported by model router"))))
  | Some api_type =>
    if negb (bool_decide (capability_for_method method = Some (am_capability request))) then
      (s, Some (inl (reason_error "invalid_request" ("method '" +:+ method +:+ "' does not match capability '"
                                                     +:+ capability_debug (am_capability request) +:+ "'"))))
    else
      let s := with_registry s (refresh_once hook source (ss_registry s)).1 in
      (s, route_with s tenant_id api_type request fallback_limit request_id)
  end.
End route.
Arguments ServiceState Number : clear implicits.
Arguments RouteDecision Number : clear implicits.
Arguments AiMethodRequest Number : clear implicits.
