(* ===== verification/AiOrder.v ===== *)
(** The order of priorities: comparisons of lists of numbers and of candidates
    are total orders up to equality where no weight is NaN, so that what
    [max_by] and [min_by] select is a greatest and a least element. *)
From Stdlib Require Import ZArith Lia Ascii Sorted Permutation.
From stdpp Require Import base tactics numbers gmap strings sorting list.
From S2P Require Import Prelude RustString Lists AiTypes AiRegistry AiSession AiRouter.

(** ** Comparisons *)

(** What a comparison of the elements in [P] has to have to be one. *)
Class TotalCompare {A} (P : A -> Prop) (cmp : A -> A -> comparison) := {
  cmp_antisym x y : P x -> P y -> cmp y x = CompOpp (cmp x y);
  cmp_eq x y z : P x -> P y -> P z -> cmp x y = Eq -> cmp x z = cmp y z;
  cmp_lt x y z : P x -> P y -> P z -> cmp x y = Lt -> cmp y z = Lt -> cmp x z = Lt
}.

Section total.
Context {A} (P : A -> Prop) (cmp : A -> A -> comparison) `{!TotalCompare P cmp}.

Lemma cmp_refl x : P x -> cmp x x = Eq.
Proof using All. intros Hx. pose proof (cmp_antisym (P := P) (cmp := cmp) x x Hx Hx). by destruct (cmp x x). Qed.

Lemma cmp_le_trans x y z : P x -> P y -> P z -> cmp x y <> Gt -> cmp y z <> Gt -> cmp x z <> Gt.
Proof using All.
  intros Hx Hy Hz. destruct (cmp x y) eqn:E1; [by rewrite (cmp_eq (P := P) (cmp := cmp) x y z)| |done]. intros _.
  destruct (cmp y z) eqn:E2; [|by rewrite (cmp_lt (P := P) (cmp := cmp) x y z)|done]. intros _.
  pose proof (cmp_antisym (P := P) (cmp := cmp) y z Hy Hz) as E. rewrite E2 in E. pose proof (cmp_eq (P := P) (cmp := cmp) z y x Hz Hy Hx E) as E'.
  rewrite (cmp_antisym (P := P) (cmp := cmp) z x), E', (cmp_antisym (P := P) (cmp := cmp) x y), E1 by done. done.
Qed.

(** The elements not below a greatest one are equal to it. *)
Lemma cmp_ge_eq x y : P x -> P y -> cmp x y <> Gt -> cmp y x <> Gt -> cmp x y = Eq.
Proof using All. intros Hx Hy. rewrite (cmp_antisym (P := P) (cmp := cmp) x y) by done. by destruct (cmp x y). Qed.

Lemma max_by_spec l best : Forall P l -> max_by cmp l = Some best -> best ∈ l /\ Forall (fun x => cmp x best <> Gt) l.
Proof using All.
  destruct l as [|x l]; simpl; [done|]. intros [Hx Hl]%Forall_cons [= <-]. revert x Hx.
  induction Hl as [|y l Hy Hl IH]; intros x Hx; simpl.
  - split; [by left|]. by repeat constructor; rewrite cmp_refl.
  - set (z := match cmp x y with Gt => x | _ => y end).
    assert (Hz : P z) by (unfold z; by destruct (cmp x y)).
    destruct (IH z Hz) as [Hin Hle]. apply Forall_cons in Hle as [Hbz Hle]. set (best := fold_left _ l z) in *.
    assert (Hb : P best). { apply elem_of_cons in Hin as [->|Hin]; [done|]. rewrite Forall_forall in Hl. auto. }
    assert (Hxz : cmp x z <> Gt /\ cmp y z <> Gt).
    { unfold z. pose proof (cmp_antisym (P := P) (cmp := cmp) x y Hx Hy) as E. destruct (cmp x y) eqn:E1; simpl in E;
        rewrite ?E1, ?E, ?(cmp_refl x), ?(cmp_refl y) by done; done. }
    split.
    + apply elem_of_cons in Hin as [->|Hin]; [|by do 2 right]. unfold z. destruct (cmp x y); [right; by left..|by left].
    + destruct Hxz. constructor; [|constructor; [|done]]; by eapply cmp_le_trans; [| | | |exact Hbz].
Qed.

Lemma min_by_spec l best : Forall P l -> min_by cmp l = Some best -> best ∈ l /\ Forall (fun x => cmp best x <> Gt) l.
Proof using All.
  destruct l as [|x l]; simpl; [done|]. intros [Hx Hl]%Forall_cons [= <-]. revert x Hx.
  induction Hl as [|y l Hy Hl IH]; intros x Hx; simpl.
  - split; [by left|]. by repeat constructor; rewrite cmp_refl.
  - set (z := match cmp x y with Gt => y | _ => x end).
    assert (Hz : P z) by (unfold z; by destruct (cmp x y)).
    destruct (IH z Hz) as [Hin Hle]. apply Forall_cons in Hle as [Hbz Hle]. set (best := fold_left _ l z) in *.
    assert (Hb : P best). { apply elem_of_cons in Hin as [->|Hin]; [done|]. rewrite Forall_forall in Hl. auto. }
    assert (Hxz : cmp z x <> Gt /\ cmp z y <> Gt).
    { unfold z. pose proof (cmp_antisym (P := P) (cmp := cmp) x y Hx Hy) as E. destruct (cmp x y) eqn:E1; simpl in E;
        rewrite ?E1, ?E, ?(cmp_refl x), ?(cmp_refl y) by done; done. }
    split.
    + apply elem_of_cons in Hin as [->|Hin]; [|by do 2 right]. unfold z. destruct (cmp x y); [by left..|right; by left].
    + destruct Hxz. constructor; [|constructor; [|done]]; by eapply cmp_le_trans; [| | |exact Hbz|].
Qed.
End total.

Lemma max_by_None {A} (cmp : A -> A -> comparison) l : max_by cmp l = None <-> l = [].
Proof. by destruct l. Qed.
Lemma min_by_None {A} (cmp : A -> A -> comparison) l : min_by cmp l = None <-> l = [].
Proof. by destruct l. Qed.

(** ** Numbers *)

Definition not_nan (x : float) : Prop := is_nan x = false.

Lemma key_compare_spec x y :
  match key_compare x y with
  | Eq => x = y
  | Lt => x.1.1 < y.1.1 \/ x.1.1 = y.1.1 /\ (x.1.2 < y.1.2 \/ x.1.2 = y.1.2 /\ x.2 < y.2)
  | Gt => y.1.1 < x.1.1 \/ x.1.1 = y.1.1 /\ (y.1.2 < x.1.2 \/ x.1.2 = y.1.2 /\ y.2 < x.2)
  end.
Proof.
  destruct x as [[a b] c], y as [[a' b'] c']. unfold key_compare. simpl.
  destruct (Z.compare_spec a a'), (Z.compare_spec b b'), (Z.compare_spec c c'); subst; simpl; try done; lia.
Qed.

#[export] Instance f64_total : TotalCompare not_nan f64_cmp.
Proof.
  split.
  - intros x y Hx Hy. rewrite !f64_cmp_key by done. apply key_compare_antisym.
  - intros x y z Hx Hy Hz. rewrite !f64_cmp_key by done. intros E.
    pose proof (key_compare_spec (float_key x) (float_key y)) as Hs. rewrite E in Hs. by rewrite Hs.
  - intros x y z Hx Hy Hz. rewrite !f64_cmp_key by done. intros E1 E2.
    pose proof (key_compare_spec (float_key x) (float_key y)) as H1. rewrite E1 in H1.
    pose proof (key_compare_spec (float_key y) (float_key z)) as H2. rewrite E2 in H2.
    pose proof (key_compare_spec (float_key x) (float_key z)) as H3.
    destruct (key_compare (float_key x) (float_key z)); [|done|lia]. rewrite H3 in H1. lia.
Qed.

(** ** Lists and pairs *)

#[export] Instance f64_vec_total : TotalCompare (Forall not_nan) compare_f64_vec.
Proof.
  split.
  - intros x y Hx. revert y. induction Hx as [|a x Ha Hx IH]; intros y Hy; destruct Hy as [|b y Hb Hy]; simpl; try done.
    rewrite (cmp_antisym (cmp := f64_cmp) a b) by done. destruct (f64_cmp a b); simpl; auto.
  - intros x y z Hx. revert y z. induction Hx as [|a x Ha Hx IH]; intros y z Hy Hz; destruct Hy as [|b y Hb Hy]; simpl; try done.
    destruct (f64_cmp a b) eqn:E; simpl; try done. intros E'.
    destruct Hz as [|c z Hc Hz]; simpl; [done|]. rewrite (cmp_eq (cmp := f64_cmp) a b c) by done. by rewrite (IH y z).
  - intros x y z Hx. revert y z. induction Hx as [|a x Ha Hx IH]; intros y z Hy Hz; destruct Hy as [|b y Hb Hy], Hz as [|c z Hc Hz]; simpl; try done.
    destruct (f64_cmp a b) eqn:E1; simpl; try done.
    + intros Hxy. rewrite (cmp_eq (cmp := f64_cmp) a b c) by done. destruct (f64_cmp b c); simpl; [|done..]. intros. by eapply (IH y).
    + intros _. destruct (f64_cmp b c) eqn:E2; simpl; [|by rewrite (cmp_lt (cmp := f64_cmp) a b c)|done]. intros _.
      assert (E : f64_cmp a c = Lt); [|by rewrite E].
      pose proof (cmp_antisym (cmp := f64_cmp) b c Hb Hc) as E3. rewrite E2 in E3.
      pose proof (cmp_eq (cmp := f64_cmp) c b a Hc Hb Ha E3) as E4.
      rewrite (cmp_antisym (cmp := f64_cmp) c a), E4, (cmp_antisym (cmp := f64_cmp) a b), E1 by done. done.
Qed.

(** ** What it means to come first *)

Definition same_weight (x y : float) : Prop := f64_cmp x y = Eq.

(** The weights [a] come before [b]: at the first level where they differ [a]
    has the greater weight, or they differ nowhere and [a] goes on. *)
Definition weights_above (a b : list float) : Prop :=
  exists p q, Forall2 same_weight p q /\
    ((exists x y a' b', a = p ++ x :: a' /\ b = q ++ y :: b' /\ f64_cmp x y = Gt)
     \/ exists x a', a = p ++ x :: a' /\ b = q).

Lemma compare_f64_vec_eq a b : compare_f64_vec a b = Eq <-> Forall2 same_weight a b.
Proof.
  revert b. induction a as [|x a IH]; intros [|y b]; cbn [compare_f64_vec].
  - split; [constructor|done].
  - split; [done|by inversion 1].
  - split; [done|by inversion 1].
  - rewrite Forall2_cons, <- IH. unfold same_weight. destruct (f64_cmp x y); simpl; naive_solver.
Qed.

Lemma compare_f64_vec_gt a b : compare_f64_vec a b = Gt <-> weights_above a b.
Proof.
  revert b. induction a as [|x a IH]; intros [|y b]; cbn [compare_f64_vec].
  - split; [done|]. intros (p & q & _ & [(? & ? & ? & ? & E & _)|(? & ? & E & _)]); by destruct p.
  - split; [done|]. intros (p & q & _ & [(? & ? & ? & ? & E & _)|(? & ? & E & _)]); by destruct p.
  - split; [|done]. intros _. exists [], []. split; [constructor|]. right. eauto.
  - split.
    + destruct (f64_cmp x y) eqn:E; simpl; [|done|].
      * intros (p & q & Hpq & Hd)%IH. exists (x :: p), (y :: q). split; [by constructor|].
        destruct Hd as [(u & v & a' & b' & -> & -> & Huv)|(u & a' & -> & ->)]; [left; by exists u, v, a', b'|right; by exists u, a'].
      * intros _. exists [], []. split; [constructor|]. left. by exists x, y, a, b.
    + intros (p & q & Hpq & Hd). destruct Hpq as [|u v p q Huv Hpq].
      * destruct Hd as [(u & v & a' & b' & [= -> ->] & [= -> ->] & ->)|(? & ? & _ & [=])]. done.
      * assert (Hab : x = u /\ y = v /\ weights_above a b).
        { destruct Hd as [(u' & v' & a' & b' & [= -> ->] & [= -> ->] & Hgt)|(u' & a' & [= -> ->] & [= -> ->])];
            (split_and!; [done..|]; exists p, q; split; [done|]); [left; by exists u', v', a', b'|right; by exists u', a']. }
        destruct Hab as (-> & -> & Hab). rewrite Huv. simpl. by apply IH.
Qed.

Section candidates.
Context {Json : Type}.
Implicit Types (c : ModelCandidate Json).

(** [d] comes before [c]: by the weights of their routes, level by level from
    the requested name on, then by the weights of the models. *)
Definition outranks (d c : ModelCandidate Json) : Prop :=
  weights_above (ca_priority_path d) (ca_priority_path c)
  \/ Forall2 same_weight (ca_priority_path d) (ca_priority_path c)
     /\ f64_cmp (ca_exact_model_weight d) (ca_exact_model_weight c) = Gt.

Lemma compare_priority_gt (d c : ModelCandidate Json) : compare_priority d c = Gt <-> outranks d c.
Proof.
  unfold compare_priority, outranks. rewrite <- compare_f64_vec_gt, <- compare_f64_vec_eq.
  destruct (compare_f64_vec _ _); simpl; naive_solver.
Qed.

(** No weight of the candidate is NaN. *)
Definition weights_not_nan c : Prop := Forall not_nan (ca_priority_path c) /\ not_nan (ca_exact_model_weight c).

#[export] Instance priority_total : TotalCompare weights_not_nan (compare_priority (Json := Json)).
Proof.
  split.
  - intros x y [Hx Hx'] [Hy Hy']. unfold compare_priority.
    rewrite (cmp_antisym (cmp := compare_f64_vec) (ca_priority_path x)), (cmp_antisym (cmp := f64_cmp) (ca_exact_model_weight x)) by done.
    by destruct (compare_f64_vec _ _).
  - intros x y z [Hx Hx'] [Hy Hy'] [Hz Hz']. unfold compare_priority.
    destruct (compare_f64_vec (ca_priority_path x) (ca_priority_path y)) eqn:E; simpl; try done. intros E'.
    rewrite (cmp_eq (cmp := compare_f64_vec) _ _ _ Hx Hy Hz E). by rewrite (cmp_eq (cmp := f64_cmp) _ _ _ Hx' Hy' Hz' E').
  - intros x y z [Hx Hx'] [Hy Hy'] [Hz Hz']. unfold compare_priority.
    destruct (compare_f64_vec (ca_priority_path x) (ca_priority_path y)) eqn:E1; simpl; try done.
    + intros Hxy. rewrite (cmp_eq (cmp := compare_f64_vec) _ _ _ Hx Hy Hz E1).
      destruct (compare_f64_vec (ca_priority_path y) (ca_priority_path z)); simpl; [|done..].
      intros. by eapply (cmp_lt (cmp := f64_cmp) _ _ _ Hx' Hy' Hz').
    + intros _. destruct (compare_f64_vec (ca_priority_path y) (ca_priority_path z)) eqn:E2; simpl.
      * intros _. pose proof (cmp_antisym (cmp := compare_f64_vec) _ _ Hy Hz) as E3. rewrite E2 in E3.
        pose proof (cmp_eq (cmp := compare_f64_vec) _ _ _ Hz Hy Hx E3) as E4.
        rewrite (cmp_antisym (cmp := compare_f64_vec) _ _ Hz Hx), E4, (cmp_antisym (cmp := compare_f64_vec) _ _ Hx Hy), E1. done.
      * intros _. by rewrite (cmp_lt (cmp := compare_f64_vec) _ _ _ Hx Hy Hz E1 E2).
      * done.
Qed.

(** ** The highest priority *)

(** The candidates of the highest priority: no candidate has a higher one. *)
Lemma select_highest_spec (l : list (ModelCandidate Json)) c :
  Forall weights_not_nan l ->
  c ∈ select_highest_priority l <-> c ∈ l /\ Forall (fun d => compare_priority d c <> Gt) l.
Proof.
  intros Hl. unfold select_highest_priority. destruct (max_by compare_priority l) as [best|] eqn:E.
  2:{ apply max_by_None in E as ->. set_solver. }
  destruct (max_by_spec weights_not_nan compare_priority l best Hl E) as [Hbest Hmax]. rewrite Forall_forall in Hl, Hmax.
  rewrite elem_of_filterb. unfold same_priority. rewrite bool_decide_eq_true. split.
  - intros [Ec Hc]. split; [done|]. apply Forall_forall. intros d Hd.
    eapply (cmp_le_trans weights_not_nan compare_priority d best c); auto.
    rewrite (cmp_antisym (P := weights_not_nan) c best) by auto. by rewrite Ec.
  - intros [Hc Hle]. rewrite Forall_forall in Hle. split; [|done]. apply (cmp_ge_eq weights_not_nan compare_priority); auto.
Qed.

Lemma select_highest_nil (l : list (ModelCandidate Json)) :
  Forall weights_not_nan l -> select_highest_priority l = [] <-> l = [].
Proof.
  intros Hl. split; [|by intros ->]. unfold select_highest_priority.
  destruct (max_by compare_priority l) as [best|] eqn:E; [|by apply max_by_None in E].
  destruct (max_by_spec weights_not_nan compare_priority l best Hl E) as [Hbest Hmax]. intros Hn. exfalso.
  assert (Hin : best ∈ List.filter (same_priority best) l); [|rewrite Hn in Hin; set_solver].
  apply elem_of_filterb. split; [|done]. apply bool_decide_eq_true, (cmp_refl weights_not_nan compare_priority).
  rewrite Forall_forall in Hl. auto.
Qed.

Lemma select_highest_sublist (l : list (ModelCandidate Json)) : select_highest_priority l `sublist_of` l.
Proof. unfold select_highest_priority. destruct (max_by _ _); [apply filterb_sublist|apply sublist_nil_l]. Qed.
End candidates.
