(* ===== verification/AiRegistryFacts.v ===== *)
(** Facts on the names of models and on the registry: the index of exact names
    is what the inventories declare, whatever the order of changes. *)
From Stdlib Require Import ZArith Lia Ascii Sorted Permutation.
From stdpp Require Import base tactics numbers gmap strings sorting list.
From S2P Require Import Prelude RustString Lists AiTypes AiRegistry.

(** ** Results *)

Lemma routed_bind_inr {A B} (m : routed A) (f : A -> routed B) b : m ≫= f = inr b <-> exists a, m = inr a /\ f a = inr b.
Proof. unfold mbind, routed_bind. destruct m; naive_solver. Qed.

Lemma check_all_inr {A} (f : A -> routed unit) l : check_all f l = inr tt <-> Forall (fun x => f x = inr tt) l.
Proof.
  induction l as [|x l IH]; [by split|]. rewrite Forall_cons, <- IH. cbn [check_all]. rewrite routed_bind_inr.
  split; [by intros ([] & ? & ?)|]. intros []. by exists tt.
Qed.

Lemma fold_routed_app {S A} (f : S -> A -> routed S) s l k :
  fold_routed f s (l ++ k) = s' ← fold_routed f s l; fold_routed f s' k.
Proof.
  revert s. induction l as [|x l IH]; intros s; simpl; [done|].
  unfold mbind, routed_bind. destruct (f s x); simpl; [done|]. apply IH.
Qed.

(** An invariant of the body of a loop that succeeds. *)
Lemma fold_routed_ind {S A} (f : S -> A -> routed S) (P : S -> Prop) l s s' :
  (forall s x s', x ∈ l -> P s -> f s x = inr s' -> P s') -> P s -> fold_routed f s l = inr s' -> P s'.
Proof.
  revert s. induction l as [|x l IH]; intros s Hf Hs; simpl; [by intros [= <-]|].
  intros (s1 & H1 & H2)%routed_bind_inr. eapply (IH s1); [|by eapply Hf; [left|..]|done].
  intros. eapply Hf; [by right|..]; eauto.
Qed.

(** ** Exact names *)

(** Parsed names are put together again to what they were parsed from. *)
Lemma exact_parse_inr s n :
  exact_parse s = inr n ->
  s = exact_as_string n /\ trim (provider_model_id n) <> "" /\ is_valid_provider_instance_name (provider_instance_name n) = true.
Proof.
  unfold exact_parse. destruct (rsplit_once AT s) as [[l r]|] eqn:E; [|done].
  destruct (String.eqb_spec (trim l) ""), (String.eqb_spec (trim r) ""); simpl; try done.
  destruct (is_valid_provider_instance_name r) eqn:Ev; simpl; [|done]. intros [= <-]. simpl. split_and!; try done.
  apply rsplit_once_Some in E as [-> _]. done.
Qed.

Lemma valid_name_no_at n : is_valid_provider_instance_name n = true -> contains_char AT n = false.
Proof. intros [_ Hn]%andb_true_iff. by eapply all_chars_contains. Qed.

(** Printable ASCII is no white space. *)
Lemma strip_ws_printable a l : 32 < a < 128 -> strip_ws (a :: l) = None /\ strip_ws_rev (a :: l) = None.
Proof.
  intros Ha. unfold strip_ws, strip_ws_rev, ascii_ws, ws2, ws3, e280_ws.
  split; repeat (case_match; try done); repeat (rewrite ?orb_true_iff, ?andb_true_iff in *); lia.
Qed.

Lemma trim_printable s : Forall (fun z => 32 < z < 128) (bytes_of s) -> trim s = s.
Proof.
  intros Hs. unfold trim.
  assert (E1 : trim_start (bytes_of s) = bytes_of s).
  { apply strip_all_done. destruct Hs as [|a l Ha]; [done|]. by apply strip_ws_printable. }
  assert (E2 : trim_end (bytes_of s) = bytes_of s).
  { unfold trim_end. rewrite strip_all_done; [apply rev_involutive|]. apply Forall_rev in Hs. rewrite rev_alt in *.
    destruct Hs as [|a l Ha]; [done|]. by apply strip_ws_printable. }
  rewrite E1, E2. unfold string_of, bytes_of. rewrite <- list_fmap_compose.
  transitivity (String.string_of_list_ascii (String.list_ascii_of_string s)); [|apply String.string_of_list_ascii_of_string].
  f_equal. rewrite <- (list_fmap_id (String.list_ascii_of_string s)) at 2. apply list_fmap_ext. intros _ a _. simpl.
  rewrite N2Z.id. apply ascii_N_embedding.
Qed.

Lemma instance_name_char_range a : instance_name_char a = true -> 32 < Z.of_N (N_of_ascii a) < 128.
Proof. by destruct a as [[] [] [] [] [] [] [] []]; vm_compute. Qed.

Lemma valid_name_trim n : is_valid_provider_instance_name n = true -> trim n = n /\ n <> "".
Proof.
  unfold is_valid_provider_instance_name. destruct (String.eqb_spec n "") as [|Hne]; [done|]. simpl. intros Hn.
  split; [|done]. apply trim_printable. unfold bytes_of. clear Hne.
  induction n as [|a n IH]; simpl in *; [constructor|]. apply andb_true_iff in Hn as [Ha Hn].
  constructor; [by apply instance_name_char_range|auto].
Qed.

Lemma exact_parse_as_string n :
  trim (provider_model_id n) <> "" -> is_valid_provider_instance_name (provider_instance_name n) = true ->
  exact_parse (exact_as_string n) = inr n.
Proof.
  intros Hid Hv. destruct n as [id name]; simpl in *. unfold exact_parse, exact_as_string. simpl.
  destruct (valid_name_trim name Hv) as [Hname Hne].
  change ("@" +:+ name) with (String AT name). rewrite rsplit_once_app by by apply valid_name_no_at.
  rewrite Hname. destruct (String.eqb_spec (trim id) ""), (String.eqb_spec name ""); simpl; try done. by rewrite Hv.
Qed.

Lemma exact_parse_is_exact s n : exact_parse s = inr n -> is_exact_model_name s = true.
Proof.
  intros [-> _]%exact_parse_inr. unfold is_exact_model_name, exact_as_string. rewrite !contains_char_app. simpl.
  by rewrite orb_true_r.
Qed.

(** ** The index *)

Section registry.
Context {Json : Type} `{HashOrder}.
Abbreviation ModelMetadata := (ModelMetadata Json).
Abbreviation ProviderInventory := (ProviderInventory Json).
Abbreviation ModelCandidate := (ModelCandidate Json).
Abbreviation ModelRegistry := (ModelRegistry Json).
Implicit Types (m : ModelMetadata) (i : ProviderInventory) (r : ModelRegistry).

(** What a model declares, one entry for each type. *)
Definition declared i : list (ModelMetadata * ApiType) := flat_map (fun m => pair m <$> mm_api_types m) (pi_models i).
Definition declared_key (ma : ModelMetadata * ApiType) : string * ApiType := (mm_exact_model ma.1, ma.2).

Lemma elem_of_declared i m a : (m, a) ∈ declared i <-> m ∈ pi_models i /\ a ∈ mm_api_types m.
Proof.
  unfold declared. rewrite list_elem_of_In, in_flat_map. setoid_rewrite <- list_elem_of_In. split.
  - intros (m' & Hm & (a' & [= <- <-] & Ha)%list_elem_of_fmap). done.
  - intros [Hm Ha]. exists m. split; [done|]. apply list_elem_of_fmap. by exists a.
Qed.

Definition enter next (ma : ModelMetadata * ApiType) := index_entry ma.1 next ma.2.

Lemma index_models_flat next (l : list ModelMetadata) :
  fold_routed index_model next l = fold_routed enter next (flat_map (fun m => pair m <$> mm_api_types m) l).
Proof.
  revert next. induction l as [|m l IH]; intros next; simpl; [done|]. rewrite fold_routed_app.
  assert (E : index_model next m = fold_routed enter next (pair m <$> mm_api_types m)).
  { unfold index_model. generalize next. induction (mm_api_types m) as [|a l' IH']; intros next'; simpl; [done|].
    unfold mbind, routed_bind, enter at 1. simpl. by destruct (index_entry m next' a). }
  rewrite E. unfold mbind, routed_bind. by destruct (fold_routed enter next _).
Qed.

(** The index of all inventories succeeds when they are valid and the entries
    of all of them do. *)
Lemma build_index_flat l next idx :
  fold_routed index_inventory next l = inr idx <->
  Forall (fun i => validate_inventory i = inr tt) l /\ fold_routed enter next (flat_map declared l) = inr idx.
Proof.
  revert next. induction l as [|i l IH]; intros next; simpl; [by split; [|intros []]|].
  rewrite fold_routed_app, !routed_bind_inr, Forall_cons. unfold index_inventory at 1.
  setoid_rewrite routed_bind_inr. setoid_rewrite index_models_flat. setoid_rewrite IH. split.
  - intros (next' & ([] & Hi & Hn) & Hl & Hr). eauto.
  - intros ([Hi Hl] & next' & Hn & Hr). exists next'. split_and!; [by exists tt|done..].
Qed.

Lemma enter_inr next ma next' :
  enter next ma = inr next' <->
  exists c, candidate_from_metadata ma.1 ma.2 = inr c /\ next !! declared_key ma = None /\ next' = <[declared_key ma := c]> next.
Proof.
  unfold enter, index_entry. rewrite routed_bind_inr. fold (declared_key ma). split.
  - intros (c & Hc & E). exists c. destruct (next !! declared_key ma) eqn:Ek; [done|]. by injection E as <-.
  - intros (c & Hc & Hn & ->). exists c. by rewrite Hn.
Qed.

(** Entries with different keys, none of them there before, are all entered;
    and only such entries are. *)
Lemma entries_inr next l :
  (exists idx, fold_routed enter next l = inr idx) <->
  Forall (fun ma => (exists c, candidate_from_metadata ma.1 ma.2 = inr c) /\ next !! declared_key ma = None) l
  /\ NoDup (declared_key <$> l).
Proof.
  revert next. induction l as [|ma l IH]; intros next; simpl.
  { split; [by repeat constructor|]. eauto. }
  rewrite Forall_cons, NoDup_cons. split.
  - intros (idx & (next' & (c & Hc & Hn & ->)%enter_inr & Hl)%routed_bind_inr).
    destruct (proj1 (IH (<[declared_key ma := c]> next))) as [Hf Hnd]; [by exists idx|].
    rewrite Forall_forall in Hf. split_and!; [eauto|done| | |done].
    + apply Forall_forall. intros mb Hb. destruct (Hf mb Hb) as [? Hb']. by apply lookup_insert_None in Hb' as [? _].
    + intros (mb & E & Hb)%list_elem_of_fmap. destruct (Hf mb Hb) as [_ Hb']. by apply lookup_insert_None in Hb' as [_ ?].
  - intros ([[[c Hc] Hn] Hf] & Hnot & Hnd).
    destruct (proj2 (IH (<[declared_key ma := c]> next))) as [idx Hidx].
    { split; [|done]. rewrite Forall_forall in *. intros mb Hb. destruct (Hf mb Hb) as [? ?]. split; [done|].
      apply lookup_insert_None. split; [done|]. intros E. apply Hnot. rewrite E. by apply list_elem_of_fmap_2. }
    exists idx. apply routed_bind_inr. exists (<[declared_key ma := c]> next). split; [|done]. apply enter_inr. eauto.
Qed.

Lemma entries_lookup next l idx k c :
  fold_routed enter next l = inr idx ->
  idx !! k = Some c <-> next !! k = Some c \/ exists ma, ma ∈ l /\ declared_key ma = k /\ candidate_from_metadata ma.1 ma.2 = inr c.
Proof.
  revert next. induction l as [|ma l IH]; intros next; simpl.
  { intros [= ->]. set_solver. }
  intros (next' & (c' & Hc & Hn & ->)%enter_inr & Hl)%routed_bind_inr. rewrite (IH _ Hl), lookup_insert_Some. split.
  - intros [[[<- <-]|[Hk ?]]|(mb & ? & ? & ?)]; [right|by left|right].
    + exists ma. split_and!; [by left|done..].
    + exists mb. split_and!; [by right|done..].
  - intros [Hk|(mb & [->|Hb]%elem_of_cons & <- & E)].
    + left. right. split; [|done]. intros <-. congruence.
    + left. left. split; [done|]. congruence.
    + right. eauto.
Qed.

(** ** The invariant *)

(** An inventory the registry takes: its names are right, and no model has a
    type twice. *)
Definition inventory_ok i : Prop := validate_inventory i = inr tt /\ Forall (fun m => NoDup (mm_api_types m)) (pi_models i).

Lemma validate_models_inr p seen l :
  validate_models p seen l = inr tt ->
  Forall (fun m => exists n, exact_parse (mm_exact_model m) = inr n /\ provider_instance_name n = p /\ provider_model_id n = mm_provider_model_id m) l
  /\ NoDup (mm_exact_model <$> l) /\ Forall (fun m => mm_exact_model m ∉ seen) l.
Proof.
  revert seen. induction l as [|m l IH]; intros seen; simpl; [by repeat constructor|].
  intros (n & Hn & E)%routed_bind_inr. destruct (String.eqb_spec (provider_instance_name n) p); simpl in E; [|done].
  destruct (String.eqb_spec (provider_model_id n) (mm_provider_model_id m)); simpl in E; [|done].
  case_bool_decide; [done|]. destruct (IH _ E) as (H1 & H2 & H3). rewrite Forall_forall in H3.
  split_and!.
  - constructor; [by exists n|done].
  - constructor; [|done]. intros (m' & E' & Hm')%list_elem_of_fmap. specialize (H3 m' Hm'). set_solver.
  - constructor; [done|]. apply Forall_forall. set_solver.
Qed.

Lemma validate_inventory_inr i :
  validate_inventory i = inr tt ->
  Forall (fun m => exists n, exact_parse (mm_exact_model m) = inr n /\ provider_instance_name n = pi_provider_instance_name i
                             /\ provider_model_id n = mm_provider_model_id m) (pi_models i)
  /\ NoDup (mm_exact_model <$> pi_models i).
Proof.
  unfold validate_inventory. destruct (is_valid_provider_instance_name _); simpl; [|done].
  intros Hv. by apply validate_models_inr in Hv as (? & ? & _).
Qed.

Lemma declared_keys_NoDup i : inventory_ok i -> NoDup (declared_key <$> declared i).
Proof.
  intros [[_ Hnd]%validate_inventory_inr Hapi]. unfold declared. induction (pi_models i) as [|m l IH]; simpl; [constructor|].
  apply NoDup_cons in Hnd as [Hm Hnd]. apply Forall_cons in Hapi as [Ha Hapi]. rewrite fmap_app. apply NoDup_app. split_and!.
  - rewrite <- list_fmap_compose. apply NoDup_fmap_2_strong; [|done]. by intros a b _ _ [= ->].
  - intros k Hk. rewrite !list_elem_of_fmap in *. destruct Hk as (ma & -> & (a & -> & _)%list_elem_of_fmap).
    intros (mb & E & Hb). apply Hm. rewrite list_elem_of_In, in_flat_map in Hb. destruct Hb as (m' & Hm' & Hb).
    rewrite <- list_elem_of_In in Hb. rewrite <- list_elem_of_In in Hm'. apply list_elem_of_fmap in Hb as (b & -> & _). injection E as E _. simpl in E.
    rewrite E. by apply list_elem_of_fmap_2.
  - auto.
Qed.

Lemma declared_candidate i m a : validate_inventory i = inr tt -> (m, a) ∈ declared i ->
  exists n, exact_parse (mm_exact_model m) = inr n /\ provider_instance_name n = pi_provider_instance_name i
  /\ candidate_from_metadata m a = inr (mkCandidate (mm_exact_model m) (mm_provider_model_id m) (pi_provider_instance_name i) a
                                          m None [] f64_one f64_one [] None).
Proof.
  intros [Hf _]%validate_inventory_inr [Hm Ha]%elem_of_declared. rewrite Forall_forall in Hf.
  destruct (Hf m Hm) as (n & Hn & Hp & Hid). exists n. split_and!; [done..|]. unfold candidate_from_metadata. rewrite Hn. simpl.
  unfold mbind, routed_bind. by rewrite Hp.
Qed.

(** Valid inventories of different providers have an index. *)
Lemma build_index_ok l :
  Forall inventory_ok l -> NoDup (pi_provider_instance_name <$> l) -> exists idx, build_exact_index l = inr idx.
Proof.
  intros Hok Hnd. unfold build_exact_index. setoid_rewrite build_index_flat.
  enough (exists idx, fold_routed enter ∅ (flat_map declared l) = inr idx) as [idx Hidx].
  { exists idx. split; [|done]. eapply Forall_impl; [exact Hok|]. by intros i []. }
  apply entries_inr. split.
  - apply Forall_forall. intros [m a] Hma. split; [|apply lookup_empty].
    rewrite list_elem_of_In, in_flat_map in Hma. setoid_rewrite <- list_elem_of_In in Hma. destruct Hma as (i & Hi & Hma).
    rewrite Forall_forall in Hok. destruct (declared_candidate i m a) as (n & _ & _ & E); [by apply Hok|done|eauto].
  - induction l as [|i l IH]; simpl; [constructor|]. apply Forall_cons in Hok as [Hi Hok]. apply NoDup_cons in Hnd as [Hn Hnd].
    rewrite fmap_app. apply NoDup_app. split_and!; [by apply declared_keys_NoDup| |auto].
    intros k ([m a] & -> & Hma)%list_elem_of_fmap ([m' a'] & E & Hma')%list_elem_of_fmap. injection E as E _. simpl in E.
    rewrite list_elem_of_In, in_flat_map in Hma'. setoid_rewrite <- list_elem_of_In in Hma'. destruct Hma' as (i' & Hi' & Hma').
    rewrite Forall_forall in Hok. apply Hn. apply list_elem_of_fmap. exists i'. split; [|done].
    destruct (declared_candidate i m a) as (n & H1 & <- & _); [by apply Hi|done|].
    destruct (declared_candidate i' m' a') as (n' & H1' & <- & _); [by apply Hok|done|]. congruence.
Qed.

Lemma build_index_inr l idx :
  build_exact_index l = inr idx ->
  Forall inventory_ok l /\
  forall k c, idx !! k = Some c <-> exists i m, i ∈ l /\ m ∈ pi_models i /\ k.1 = mm_exact_model m /\ k.2 ∈ mm_api_types m
    /\ c = mkCandidate (mm_exact_model m) (mm_provider_model_id m) (pi_provider_instance_name i) k.2 m None [] f64_one f64_one [] None.
Proof.
  unfold build_exact_index. rewrite build_index_flat. intros [Hv He]. split.
  - destruct (proj1 (entries_inr ∅ (flat_map declared l))) as [_ Hnd]; [by exists idx|].
    rewrite Forall_forall in *. intros i Hi. split; [by apply Hv|]. apply Forall_forall. intros m Hm.
    apply list_elem_of_split in Hi as (l1 & l2 & ->). rewrite flat_map_app, fmap_app in Hnd. simpl in Hnd.
    apply NoDup_app in Hnd as (_ & _ & Hnd). rewrite fmap_app in Hnd. apply NoDup_app in Hnd as (Hnd & _ & _).
    unfold declared in Hnd. apply list_elem_of_split in Hm as (k1 & k2 & E). rewrite E, flat_map_app, fmap_app in Hnd. simpl in Hnd.
    apply NoDup_app in Hnd as (_ & _ & Hnd). rewrite fmap_app in Hnd. apply NoDup_app in Hnd as (Hnd & _ & _).
    rewrite <- list_fmap_compose in Hnd. by apply NoDup_fmap_1 in Hnd.
  - intros [name a] c. rewrite (entries_lookup _ _ _ _ _ He), lookup_empty. simpl.
    setoid_rewrite list_elem_of_In. setoid_rewrite in_flat_map. setoid_rewrite <- list_elem_of_In.
    rewrite Forall_forall in Hv. split.
    + intros [?|([m b] & (i & Hi & Hma) & [= <- <-] & Hc)]; [done|]. exists i, m.
      destruct (declared_candidate i m b) as (n & _ & _ & E); [by apply Hv|done|]. simpl in *.
      apply elem_of_declared in Hma as [? ?]. split_and!; try done. congruence.
    + intros (i & m & Hi & Hm & -> & Ha & ->). right. exists (m, a). split; [by exists i; rewrite elem_of_declared|].
      split; [done|]. destruct (declared_candidate i m a) as (n & _ & _ & E); [by apply Hv|by apply elem_of_declared|done].
Qed.

(** The index holds what the inventories declare, under the names of their
    providers. *)
Definition indexes (idx : gmap (string * ApiType) ModelCandidate) (invs : gmap string ProviderInventory) : Prop :=
  forall k c, idx !! k = Some c <->
    exists name i m, invs !! name = Some i /\ m ∈ pi_models i /\ k.1 = mm_exact_model m /\ k.2 ∈ mm_api_types m
      /\ c = mkCandidate (mm_exact_model m) (mm_provider_model_id m) name k.2 m None [] f64_one f64_one [] None.

Definition named_ok (name : string) i : Prop := pi_provider_instance_name i = name /\ inventory_ok i.
Definition registry_ok r : Prop := map_Forall named_ok (inventories r) /\ indexes (exact_index r) (inventories r).

Lemma values_names invs :
  map_Forall (fun name i => pi_provider_instance_name i = name) invs -> NoDup (pi_provider_instance_name <$> values invs).
Proof.
  intros Hn. unfold values. rewrite <- list_fmap_compose.
  assert (E : (pi_provider_instance_name ∘ snd) <$> iter invs = (iter invs).*1).
  { apply list_fmap_ext. intros n [k i] Hi. simpl. apply (Hn k i). apply elem_of_iter. by eapply list_elem_of_lookup_2. }
  rewrite E. apply NoDup_keys.
Qed.

(** Valid inventories under their own names have an index, and it is exact. *)
Lemma build_index_of invs :
  map_Forall named_ok invs ->
  exists idx, build_exact_index (values invs) = inr idx /\ indexes idx invs.
Proof.
  intros Hok. destruct (build_index_ok (values invs)) as [idx Hidx].
  - apply Forall_forall. intros i (k & Hk)%elem_of_values. by destruct (Hok k i Hk).
  - apply values_names. intros k i Hk. by destruct (Hok k i Hk).
  - exists idx. split; [done|]. apply build_index_inr in Hidx as [_ Hidx]. intros k c. rewrite Hidx.
    split.
    + intros (i & m & (name & Hi)%elem_of_values & Hm & ? & ? & ->). exists name, i, m. split_and!; try done.
      destruct (Hok name i Hi) as [-> _]. done.
    + intros (name & i & m & Hi & Hm & ? & ? & ->). exists i, m. split_and!; try done; [apply elem_of_values; eauto|].
      destruct (Hok name i Hi) as [-> _]. done.
Qed.

Lemma new_registry_ok : registry_ok new_registry.
Proof.
  split; [apply map_Forall_empty|]. intros k c. simpl. rewrite lookup_empty. split; [done|].
  intros (name & i & m & Hi & _). by rewrite lookup_empty in Hi.
Qed.

Lemma remove_inventory_ok name r :
  registry_ok r ->
  exists idx, remove_inventory name r = (mkRegistry (delete name (inventories r)) idx (logical_definitions r), inr tt)
  /\ registry_ok (mkRegistry (delete name (inventories r)) idx (logical_definitions r)).
Proof.
  intros [Hok _]. destruct (build_index_of (delete name (inventories r))) as (idx & Hidx & Hspec).
  { by apply map_Forall_delete. }
  exists idx. unfold remove_inventory, rebuild_index. simpl. rewrite Hidx. split; [done|]. split; [|done]. by apply map_Forall_delete.
Qed.

(** What the registry has of a provider once its inventory was applied. *)
Definition takes i (old : option ProviderInventory) : Prop :=
  inventory_ok (fill_drivers i) /\ from_option (not_newer (fill_drivers i)) false old = false.

Lemma apply_inventory_ok i r :
  registry_ok r ->
  let '(r', res) := apply_inventory_if_changed i r in
  registry_ok r' /\ logical_definitions r' = logical_definitions r /\
  (takes i (inventories r !! pi_provider_instance_name i) /\ res = inr true
     /\ inventories r' = <[pi_provider_instance_name i := fill_drivers i]> (inventories r)
   \/ ~ takes i (inventories r !! pi_provider_instance_name i) /\ res <> inr true /\ inventories r' = inventories r).
Proof.
  intros Hr. pose proof Hr as [Hok _]. unfold apply_inventory_if_changed, takes. change (pi_provider_instance_name i) with (pi_provider_instance_name (fill_drivers i)).
  set (i' := fill_drivers i). destruct (validate_inventory i') as [e|[]] eqn:Ev.
  { split_and!; [done..|]. right. split_and!; [|done|done]. intros [[E _] _]. congruence. }
  destruct (from_option _ _ _) eqn:En.
  { split_and!; [done..|]. right. split_and!; [|done|done]. by intros [_ ?]. }
  destruct (build_exact_index _) as [e|idx] eqn:Eb.
  - split_and!; [done..|]. right. split_and!; [|done|done]. intros [Hi _].
    destruct (build_index_of (<[pi_provider_instance_name i' := i']> (inventories r))) as (idx & Hidx & _).
    + by apply map_Forall_insert_2.
    + by rewrite Hidx in Eb.
  - assert (Hi : inventory_ok i').
    { apply build_index_inr in Eb as [Hf _]. rewrite Forall_forall in Hf. apply Hf, elem_of_values.
      exists (pi_provider_instance_name i'). by simplify_map_eq. }
    assert (Hok' : map_Forall named_ok (<[pi_provider_instance_name i' := i']> (inventories r))) by by apply map_Forall_insert_2.
    split; [|by split; [|left]]. split; [done|]. destruct (build_index_of _ Hok') as (idx' & Hidx & Hspec). rewrite Hidx in Eb. by injection Eb as ->.
Qed.

Lemma set_logical_definitions_ok definitions r : registry_ok r -> registry_ok (set_logical_definitions definitions r).1.
Proof. intros Hr. unfold set_logical_definitions. by destruct (fold_routed _ _ _). Qed.

(** ** Refreshing *)

Lemma apply_all_ok source r n :
  registry_ok r -> NoDup (pi_provider_instance_name <$> source) ->
  let r' := (fold_left (fun (rc : ModelRegistry * nat) inventory =>
               let '(r, changed) := rc in
               match apply_inventory_if_changed inventory r with
               | (r, inr true) => (r, S changed)
               | (r, _) => (r, changed)
               end) source (r, n)).1 in
  registry_ok r' /\ logical_definitions r' = logical_definitions r
  /\ (forall i, i ∈ source ->
       let old := inventories r !! pi_provider_instance_name i in
       takes i old /\ inventories r' !! pi_provider_instance_name i = Some (fill_drivers i)
       \/ ~ takes i old /\ inventories r' !! pi_provider_instance_name i = old)
  /\ forall name, name ∉ pi_provider_instance_name <$> source -> inventories r' !! name = inventories r !! name.
Proof.
  revert r n. induction source as [|i source IH]; intros r n Hr Hnd; simpl.
  { split_and!; [done..|set_solver|done]. }
  apply NoDup_cons in Hnd as [Hni Hnd].
  pose proof (apply_inventory_ok i r Hr) as Ha. destruct (apply_inventory_if_changed i r) as [r1 res].
  destruct Ha as (Hr1 & Hd & Hcase).
  assert (E : exists n', (let '(r, changed) := (r, n) in
               match (r1, res) with (r, inr true) => (r, S changed) | (r, _) => (r, changed) end) = (r1, n')).
  { destruct res as [|[]]; eauto. }
  destruct E as [n' E]. simpl in E. rewrite E. destruct (IH r1 n' Hr1 Hnd) as (H1 & H2 & H3 & H4).
  assert (Hother : forall name, name <> pi_provider_instance_name i -> inventories r1 !! name = inventories r !! name).
  { intros name Hne. destruct Hcase as [(_ & _ & ->)|(_ & _ & ->)]; [|done]. by rewrite lookup_insert_ne. }
  split_and!; [done|congruence| |].
  - intros j [->|Hj]%elem_of_cons; simpl.
    + rewrite H4 by done. destruct Hcase as [(Ht & _ & E')|(Ht & _ & E')].
      * left. split; [done|]. rewrite E'. by simplify_map_eq.
      * right. by rewrite E'.
    + rewrite <- (Hother (pi_provider_instance_name j)); [by apply H3|].
      intros Ej. apply Hni. rewrite <- Ej. by apply list_elem_of_fmap_2.
  - intros name [Hname1 Hname2]%not_elem_of_cons. rewrite H4, Hother by done. done.
Qed.

Lemma remove_all_ok names r n :
  registry_ok r ->
  let r' := (remove_all names (r, n)).1 in
  registry_ok r' /\ logical_definitions r' = logical_definitions r
  /\ forall name, inventories r' !! name = if bool_decide (name ∈ names) then None else inventories r !! name.
Proof.
  revert r n. unfold remove_all. induction names as [|name names IH]; intros r n Hr; simpl; [done|].
  destruct (remove_inventory_ok name r Hr) as (idx & E & Hr'). rewrite E.
  destruct (IH _ (S n) Hr') as (H1 & H2 & H3). split_and!; [done..|]. intros k. rewrite H3. simpl.
  destruct (decide (k = name)) as [->|Hne].
  - rewrite (bool_decide_eq_true_2 (name ∈ name :: names)) by by left. rewrite lookup_delete_eq. by case_bool_decide.
  - rewrite lookup_delete_ne by done. rewrite (bool_decide_ext (k ∈ name :: names) (k ∈ names)); [done|].
    rewrite elem_of_cons. naive_solver.
Qed.

(** What a refresh leaves: of the providers listed, what the registry takes of
    them or had before; of the others, nothing. *)
Lemma refresh_once_ok hook source r r' res :
  registry_ok r -> NoDup (pi_provider_instance_name <$> source) -> (forall e, hook <> Some (inl e)) ->
  refresh_once hook source r = (r', res) ->
  registry_ok r' /\ logical_definitions r' = logical_definitions r /\ (exists n, res = inr n)
  /\ (forall i, i ∈ source ->
       let old := inventories r !! pi_provider_instance_name i in
       takes i old /\ inventories r' !! pi_provider_instance_name i = Some (fill_drivers i)
       \/ ~ takes i old /\ inventories r' !! pi_provider_instance_name i = old)
  /\ forall name, name ∉ pi_provider_instance_name <$> source -> inventories r' !! name = None.
Proof.
  intros Hr Hnd Hhook. unfold refresh_once.
  pose proof (apply_all_ok source r 0%nat Hr Hnd) as Hap. fold (apply_all source r) in Hap. cbn zeta in Hap.
  destruct (apply_all source r) as [r1 n1] eqn:E1. simpl in Hap. destruct Hap as (Hr1 & Hd1 & Hin & Hout).
  set (active := list_to_set (pi_provider_instance_name <$> source) : gset string).
  pose proof (remove_all_ok (stale_providers active r1) r1 n1 Hr1) as Hrm. cbn zeta in Hrm.
  destruct (remove_all _ _) as [r2 n2] eqn:E2. simpl in Hrm. destruct Hrm as (Hr2 & Hd2 & Hget).
  assert (Hstale : forall name, name ∈ stale_providers active r1 <-> name ∉ active /\ is_Some (inventories r1 !! name)).
  { intros name. unfold stale_providers. rewrite list_elem_of_fmap. split.
    - intros (i & -> & [Hi (k & Hk)%elem_of_values]%elem_of_filterb). destruct Hr1 as [Hok _]. destruct (Hok k i Hk) as [<- _].
      split; [|by eexists]. apply negb_true_iff, bool_decide_eq_false_1 in Hi. done.
    - intros [Hna [i Hi]]. exists i. destruct Hr1 as [Hok _]. destruct (Hok name i Hi) as [En _]. rewrite En. split; [done|].
      apply elem_of_filterb. rewrite En. split; [by apply negb_true_iff, bool_decide_eq_false_2|]. apply elem_of_values. by exists name. }
  assert (Hres : registry_ok r2 /\ logical_definitions r2 = logical_definitions r
    /\ (forall i, i ∈ source -> inventories r2 !! pi_provider_instance_name i = inventories r1 !! pi_provider_instance_name i)
    /\ forall name, name ∉ pi_provider_instance_name <$> source -> inventories r2 !! name = None).
  { split; [done|]. split; [congruence|]. split.
    - intros i Hi. rewrite Hget, bool_decide_eq_false_2; [done|]. intros [Hna _]%Hstale. apply Hna. unfold active.
      apply elem_of_list_to_set. by apply list_elem_of_fmap_2.
    - intros name Hname. rewrite Hget. case_bool_decide as Hs; [done|]. destruct (inventories r1 !! name) eqn:E'; [|done].
      destruct Hs. apply Hstale. split; [|by eexists]. unfold active. by rewrite elem_of_list_to_set. }
  destruct Hres as (H1 & H2 & H3 & H4).
  intros E. assert (E' : (r2, inr n2 : routed nat) = (r', res)).
  { destruct hook as [[e|[]]|]; [by destruct (Hhook e)|done|done]. }
  injection E' as <- <-. clear E. split_and!; first [exact H1|exact H2|exact H4|by eexists|intros i Hi; rewrite H3 by done; by apply Hin].
Qed.
End registry.
