(* ===== verification/AiSessionFacts.v ===== *)
(** Facts on configurations of sessions: a validated one has good weights at
    every node, patches do what they say, locked fields stay, and the nodes of
    a tree are as many as it has. *)
From Stdlib Require Import ZArith Lia Ascii Sorted Permutation.
From stdpp Require Import base tactics numbers gmap strings sorting list.
From S2P Require Import Prelude RustString Lists AiTypes AiRegistry AiSession AiRouter AiOrder AiRegistryFacts.

Lemma routed_unit (r : routed unit) : (exists u, r = inr u) <-> r = inr tt.
Proof. split; [by intros [[] ->]|eauto]. Qed.

(** [f()?; g()?] succeeds when both do. *)
Lemma routed_seq_inr {B} (m : routed unit) (k : routed B) b : (m ;; k) = inr b <-> m = inr tt /\ k = inr b.
Proof. rewrite routed_bind_inr. split; [by intros ([] & ? & ?)|]. intros []. by exists tt. Qed.

(** ** Weights *)

Lemma good_weight w : bad_weight w = false -> not_nan w /\ f64_is_finite w = true /\ f64_ltb w f64_zero = false.
Proof.
  unfold bad_weight. intros [Hf Hl]%orb_false_iff. apply negb_false_iff in Hf. split; [by apply f64_finite_nan|done].
Qed.

Lemma validate_weight_inr w : validate_weight w = inr tt <-> bad_weight w = false.
Proof. unfold validate_weight. by destruct (bad_weight w). Qed.

Lemma validate_weights_of_inr ws : validate_weights_of ws = inr tt -> map_Forall (fun _ w => bad_weight w = false) ws.
Proof.
  intros Hv%check_all_inr k w Hw. rewrite Forall_forall in Hv. apply validate_weight_inr, (Hv (k, w)). by apply elem_of_btree.
Qed.

Definition items_good (items : LogicalItems) : Prop := map_Forall (fun _ it => bad_weight (it_weight it) = false) items.
Definition patches_good (overrides : gmap string ModelItemPatch) : Prop :=
  map_Forall (fun _ p => from_option bad_weight false (pa_weight p) = false) overrides.

(** What validation shows of a node. *)
Record node_good (n : LogicalNode) : Prop := {
  good_both : both_items n = false;
  good_items : from_option items_good True (ln_items n);
  good_patches : from_option patches_good True (ln_item_overrides n);
  good_weights : map_Forall (fun _ w => bad_weight w = false) (ln_exact_model_weights n)
}.

Lemma validate_node_fields_good n : validate_node_fields n = inr tt -> node_good n.
Proof.
  unfold validate_node_fields. destruct (both_items n) eqn:Eb; [done|]. rewrite !routed_seq_inr. intros (Hi & Hp & Hw & _).
  split; [done| | |by apply validate_weights_of_inr].
  - destruct (ln_items n) as [items|]; [|done]. simpl in *. apply check_all_inr in Hi. rewrite Forall_forall in Hi.
    intros k it Hk. apply validate_weight_inr, (Hi (k, it)). by apply elem_of_btree.
  - destruct (ln_item_overrides n) as [overrides|]; [|done]. simpl in *. apply check_all_inr in Hp. rewrite Forall_forall in Hp.
    intros k p Hk. specialize (Hp (k, p) (proj2 (elem_of_btree _ _ _) Hk)). unfold validate_patch in Hp. simpl in *.
    destruct (pa_weight p); [|done]. by apply validate_weight_inr.
Qed.

Lemma validate_node_inr n :
  validate_node n = inr tt <-> validate_node_fields n = inr tt /\ Forall (fun child => validate_node child.2 = inr tt) (ln_children n).
Proof. destruct n. cbn [validate_node]. by rewrite routed_seq_inr, check_all_inr. Qed.

Lemma node_in_valid n parts n' : validate_node n = inr tt -> node_in n parts = Some n' -> validate_node n' = inr tt.
Proof.
  revert n. induction parts as [|part parts IH]; intros n Hn; simpl; [by intros [= <-]|].
  intros (child & Hc%alist_get_elem & Hr)%bind_Some. apply (IH child); [|done].
  apply validate_node_inr in Hn as [_ Hf]. rewrite Forall_forall in Hf. by apply (Hf (part, child)).
Qed.

Lemma node_good_of c path n : validate c = inr tt -> node c path = Some n -> node_good n.
Proof.
  unfold validate. rewrite !routed_seq_inr, !check_all_inr. intros (_ & _ & _ & Ht & _).
  unfold node, tree_node. destruct (split_on DOT path) as [|first parts]; [done|]. intros (n0 & Hn0%alist_get_elem & Hn)%bind_Some.
  rewrite Forall_forall in Ht. apply validate_node_fields_good. apply (node_in_valid n0 parts n) in Hn; [|by apply (Ht (first, n0))].
  by apply validate_node_inr in Hn as [].
Qed.

Lemma node_exact_weight_good c path name : validate c = inr tt -> not_nan (node_exact_weight c path name).
Proof.
  intros Hv. unfold node_exact_weight. destruct (node c path ≫= _) as [w|] eqn:E.
  - apply bind_Some in E as (n & Hn & Hw). eapply good_weight. by apply (good_weights n (node_good_of c path n Hv Hn) name).
  - destruct (sc_global_exact_model_weights c !! name) as [w|] eqn:Ew; [|done]. simpl. eapply good_weight.
    unfold validate in Hv. rewrite !routed_seq_inr in Hv. destruct Hv as [Hv _]. by apply (validate_weights_of_inr _ Hv name).
Qed.

(** ** Items *)

Lemma patch_items_lookup items overrides name :
  patch_items items overrides !! name =
  match overrides !! name with Some p => Some (patched_item name p (items !! name)) | None => items !! name end.
Proof.
  unfold patch_items, LogicalItems in *.
  assert (H : forall l, NoDup l.*1 ->
    forall items, fold_left (fun (items : gmap string ModelItem) np => <[np.1 := patched_item np.1 np.2 (items !! np.1)]> items) l items !! name =
    match list_find (fun np => np.1 = name) l with Some (_, np) => Some (patched_item name np.2 (items !! name)) | None => items !! name end).
  { clear. induction l as [|[k p] l IH]; intros Hnd items; simpl; [done|]. apply NoDup_cons in Hnd as [Hk Hnd].
    rewrite IH by done. case_decide as Ek.
    - simpl in Ek. subst k. assert (E : list_find (fun np => np.1 = name) l = None).
      { apply list_find_None, Forall_forall. intros [k' p'] Hin E. simpl in E. subst k'. apply Hk, list_elem_of_fmap. by exists (name, p'). }
      rewrite E. simpl. by simplify_map_eq.
    - simpl in Ek. destruct (list_find _ l) as [[? ?]|]; simpl; by rewrite lookup_insert_ne by done. }
  rewrite H by apply NoDup_btree_keys. destruct (list_find _ (btree overrides)) as [[n [k p]]|] eqn:E.
  - apply list_find_Some in E as (Hp & Ek & _). simpl in *. subst k. apply list_elem_of_lookup_2, elem_of_btree in Hp. by rewrite Hp.
  - destruct (overrides !! name) as [p|] eqn:Ep; [|done]. apply list_find_None in E. rewrite Forall_forall in E.
    destruct (E (name, p)); [by apply elem_of_btree|done].
Qed.

Lemma patched_item_good name p base :
  from_option bad_weight false (pa_weight p) = false -> from_option (fun it => bad_weight (it_weight it)) false base = false ->
  bad_weight (it_weight (patched_item name p base)) = false.
Proof. destruct p as [t [w|]], base as [[]|]; simpl; done. Qed.

Lemma effective_items_good n inherited :
  node_good n -> from_option items_good True inherited ->
  exists items, effective_items n inherited = inr items /\ items_good items.
Proof.
  intros [Hb Hi Hp _] Hd. unfold effective_items. rewrite Hb.
  assert (Hbase : items_good (default (default ∅ inherited) (ln_items n))).
  { destruct (ln_items n); simpl; [done|]. destruct inherited; simpl; [done|]. apply map_Forall_empty. }
  destruct (ln_item_overrides n) as [overrides|]; simpl in *; eexists; (split; [reflexivity|]); [|done].
  intros name it. rewrite patch_items_lookup. destruct (overrides !! name) as [p|] eqn:Ep; [|by apply Hbase].
  intros [= <-]. apply patched_item_good; [by apply (Hp name)|]. 
  destruct (default (default ∅ inherited) (ln_items n) !! name) as [it|] eqn:E; [|done]. by apply (Hbase name).
Qed.

(** ** The names of the nodes *)

Fixpoint node_paths (n : LogicalNode) : list (list string) :=
  [] :: flat_map (fun child => cons child.1 <$> node_paths child.2) (ln_children n).
Definition tree_paths (tree : LogicalTree) : list (list string) := flat_map (fun child => cons child.1 <$> node_paths child.2) tree.

Lemma length_flat_map_paths (paths : LogicalNode -> list (list string)) (size : LogicalNode -> nat) (l : LogicalTree) :
  Forall (fun child => length (paths child.2) = size child.2) l ->
  length (flat_map (fun child => cons child.1 <$> paths child.2) l) = sum_list (map (fun child => size child.2) l).
Proof. induction 1 as [|child l Hc _ IH]; simpl; [done|]. by rewrite length_app, length_fmap, Hc, IH. Qed.

Lemma node_paths_size : forall n, length (node_paths n) = node_size n.
Proof.
  fix IH 1. intros [children s i o w d f p q]. cbn [node_paths node_size length ln_children]. f_equal. apply length_flat_map_paths.
  induction children as [|[k child] children IHc]; constructor; [apply IH|exact IHc].
Qed.

Lemma tree_paths_size tree : length (tree_paths tree) = tree_size tree.
Proof. apply length_flat_map_paths, Forall_true. intros. apply node_paths_size. Qed.

Lemma elem_of_child_paths first parts (l : LogicalTree) child :
  (first, child) ∈ l -> parts ∈ node_paths child -> first :: parts ∈ flat_map (fun child => cons child.1 <$> node_paths child.2) l.
Proof.
  intros Hc Hp. rewrite list_elem_of_In, in_flat_map. exists (first, child). rewrite <- !list_elem_of_In. split; [done|].
  by apply list_elem_of_fmap_2.
Qed.

Lemma node_in_paths n parts n' : node_in n parts = Some n' -> parts ∈ node_paths n.
Proof.
  revert n. induction parts as [|part parts IH]; intros [children s i o w d f p q] Hn; cbn [node_paths ln_children]; [by left|].
  simpl in Hn. apply bind_Some in Hn as (child & Hc%alist_get_elem & Hr). right. eapply elem_of_child_paths; eauto.
Qed.

Lemma node_path_of c path n : node c path = Some n -> split_on DOT path ∈ tree_paths (sc_logical_tree c).
Proof.
  unfold node, tree_node. destruct (split_on DOT path) as [|first parts]; [done|].
  intros (child & Hc%alist_get_elem & Hr%node_in_paths)%bind_Some. by eapply elem_of_child_paths.
Qed.

(** ** Locks *)

(** What one policy fixes for the others that patch it. *)
Definition kept {A} (before after : option (LockedValue A)) : Prop := is_locked before = true -> after = before.

Record locks_kept (before after : PolicyConfig) : Prop := {
  kept_profile : kept (pc_profile before) (pc_profile after);
  kept_scheduler_profiles : kept (pc_scheduler_profiles before) (pc_scheduler_profiles after);
  kept_local_only : kept (pc_local_only before) (pc_local_only after);
  kept_allow_fallback : kept (pc_allow_fallback before) (pc_allow_fallback after);
  kept_allow_exact_model_fallback : kept (pc_allow_exact_model_fallback before) (pc_allow_exact_model_fallback after);
  kept_runtime_failover : kept (pc_runtime_failover before) (pc_runtime_failover after);
  kept_explain : kept (pc_explain before) (pc_explain after);
  kept_blocked : kept (pc_blocked_provider_instances before) (pc_blocked_provider_instances after);
  kept_allowed : kept (pc_allowed_provider_instances before) (pc_allowed_provider_instances after);
  kept_max_cost : kept (pc_max_estimated_cost_usd before) (pc_max_estimated_cost_usd after)
}.

Lemma kept_refl {A} (o : option (LockedValue A)) : kept o o.
Proof. done. Qed.
Lemma kept_trans {A} (o o' o'' : option (LockedValue A)) : kept o o' -> kept o' o'' -> kept o o''.
Proof. unfold kept. intros H1 H2 Hl. rewrite H2; [auto|]. by rewrite H1. Qed.
Lemma locks_kept_refl p : locks_kept p p.
Proof. by split. Qed.
Lemma locks_kept_trans p q r : locks_kept p q -> locks_kept q r -> locks_kept p r.
Proof. intros [] []. split; by eapply kept_trans. Qed.

Lemma check_locked_kept {A} name (parent patch : option (LockedValue A)) :
  check_locked name parent patch = inr tt -> kept parent (patched parent patch).
Proof. unfold check_locked, kept. intros E Hl. rewrite Hl in E. destruct patch; [done|done]. Qed.

Lemma merge_policy_kept parent patch :
  reject_locked_policy_patch parent patch = inr tt -> locks_kept parent (merge_policy_config parent patch).
Proof.
  unfold reject_locked_policy_patch. rewrite !routed_seq_inr. intros (?&?&?&?&?&?&?&?&?&?).
  split; by eapply check_locked_kept.
Qed.

Lemma apply_overlay_policy o c c' : apply_logical_tree_overlay c o = inr c' -> sc_policy c' = sc_policy c.
Proof.
  unfold apply_logical_tree_overlay. rewrite routed_seq_inr. intros (_ & E). apply routed_bind_inr in E as (patch & _ & E).
  by apply routed_bind_inr in E as (tree & _ & [= <-]).
Qed.

Lemma apply_profile_kept p scope et et' :
  apply_session_profile p scope et = inr et' -> locks_kept (sc_policy et.1) (sc_policy et'.1).
Proof.
  unfold apply_session_profile. rewrite routed_bind_inr. intros (eff & Heff & Hf).
  assert (E : sc_policy et'.1 = sc_policy eff).
  { revert Hf. apply (fold_routed_ind _ (fun x => sc_policy x.1 = sc_policy eff)); [|done].
    intros s o s' _ Hs. unfold apply_overlay_traced. intros (c' & Hc' & [= <-])%routed_bind_inr. simpl.
    by rewrite (apply_overlay_policy _ _ _ Hc'). }
  rewrite E. destruct (sp_route_policy_override p) as [policy|].
  - apply routed_seq_inr in Heff as [Hr [= <-]]. by apply merge_policy_kept.
  - injection Heff as <-. apply locks_kept_refl.
Qed.

Lemma effective_config_kept config effective :
  build_effective_session_config config = inr effective ->
  locks_kept (sc_policy config) (sc_policy (ec_config effective)) /\ validate (ec_config effective) = inr tt.
Proof.
  unfold build_effective_session_config. rewrite routed_seq_inr. intros (_ & E). apply routed_bind_inr in E as (et1 & H1 & E).
  apply routed_bind_inr in E as (et2 & H2 & E). apply routed_seq_inr in E as (Hv & [= <-]). split; [|done]. simpl.
  apply (locks_kept_trans _ (sc_policy et1.1)).
  - destruct (sc_active_logical_profile config) as [name|]; [|injection H1 as <-; apply locks_kept_refl].
    destruct (sc_logical_profiles config !! name); [by apply apply_profile_kept in H1|done].
  - destruct (sc_logical_profile config); [by apply apply_profile_kept in H2|injection H2 as <-; apply locks_kept_refl].
Qed.

Lemma merge_session_kept parent child merged :
  merge_session_config parent child = inr merged -> locks_kept (sc_policy parent) (sc_policy merged).
Proof.
  unfold merge_session_config. rewrite routed_seq_inr. intros (Hr & E). apply routed_bind_inr in E as (tree & _ & E).
  apply routed_seq_inr in E as (_ & [= <-]). by apply merge_policy_kept.
Qed.
