(* ===== verification/AiRouterFacts.v ===== *)
(** Facts on the router: what passes its filters, what is left of several
    routes to one model, and the expansion of logical names, which ends, finds
    loops, and otherwise gives the best route to every model. *)
From Stdlib Require Import ZArith Lia Ascii Sorted Permutation.
From stdpp Require Import base tactics numbers gmap strings sorting list relations.
From S2P Require Import Prelude RustString Lists AiTypes AiRegistry AiSession AiRouter AiOrder.
From S2P Require Import AiRegistryFacts AiSessionFacts.

Section facts.
Context {Json : Type} `{HashOrder} (registry : ModelRegistry Json) (session_config : SessionConfig).
Abbreviation ModelCandidate := (ModelCandidate Json).
Abbreviation RouteTrace := (RouteTrace Json).
Abbreviation tracing := (tracing (Json := Json)).
Implicit Types (c : ModelCandidate) (t : RouteTrace) (path root_path target : string) (api_type : ApiType).

(** ** Filters *)

(** What a policy asks of a candidate. *)
Record admissible (policy : RoutePolicy) c : Prop := {
  ad_api : ca_api_type c ∈ mm_api_types (ca_metadata c);
  ad_available : is_available (ca_metadata c) = true;
  ad_features : supports_requirements (ca_metadata c) (rp_required_features policy) = true;
  ad_min_line : forall path d, ca_resolved_logical_path c = Some path -> logical_definition registry path = Some d ->
    explain_missing_requirements (mm_capabilities (ca_metadata c)) (ld_min_line d) = [];
  ad_local : rp_local_only policy = true -> at_provider_type (mm_attributes (ca_metadata c)) = LocalInference;
  ad_allowed : rp_allowed_provider_instances policy = [] \/ ca_provider_instance_name c ∈ rp_allowed_provider_instances policy;
  ad_blocked : ca_provider_instance_name c ∉ rp_blocked_provider_instances policy;
  ad_cost : forall max cost, rp_max_estimated_cost_usd policy = Some max ->
    pr_estimated_cost (mm_pricing (ca_metadata c)) = Some cost -> f64_gtb cost max = false;
  ad_latency : forall max latency, rp_max_latency_ms policy = Some max ->
    he_p95_latency_ms (mm_health (ca_metadata c)) = Some latency -> latency <= max;
  ad_exact_weight : f64_leb (ca_exact_model_weight c) f64_zero = false;
  ad_provider_weight : f64_leb (ca_provider_weight c) f64_zero = false
}.

(** One test of [drop_reason]. *)
Lemma test_None (b : bool) (s : string) (k : option string) : (if b then Some s else k) = None <-> b = false /\ k = None.
Proof. destruct b; naive_solver. Qed.

Lemma admissible_iff policy c : drop_reason registry policy c = None <-> admissible policy c.
Proof.
  unfold drop_reason. rewrite !test_None. unfold supports_api_type.
  rewrite !negb_false_iff, !bool_decide_eq_true, bool_decide_eq_false, !andb_false_iff, !negb_false_iff, !bool_decide_eq_true. split.
  - intros (H1 & H2 & H3 & H4 & H5 & H6 & H7 & H8 & H9 & H10 & H11 & _). split; try done.
    + intros path d Ep Ed. rewrite Ep in H4. simpl in H4. by rewrite Ed in H4.
    + destruct H5 as [H5|]; [congruence|done].
    + intros max cost Em Ec. by rewrite Em, Ec in H8.
    + intros max latency Em Ec. rewrite Em, Ec in H9. by apply Z.ltb_ge.
  - intros [H1 H2 H3 H4 H5 H6 H7 H8 H9 H10 H11]. split_and!; try done.
    + destruct (ca_resolved_logical_path c) as [path|]; simpl; [|done].
      destruct (logical_definition registry path) as [d|] eqn:Ed; [by eapply H4|done].
    + destruct (rp_local_only policy); auto.
    + destruct (rp_max_estimated_cost_usd policy), (pr_estimated_cost _); eauto.
    + destruct (rp_max_latency_ms policy), (he_p95_latency_ms _); try done. apply Z.ltb_ge. eauto.
Qed.

Lemma hard_filters_exact policy l t :
  (apply_hard_filters registry l policy t).1 = List.filter (fun c => bool_decide (drop_reason registry policy c = None)) l.
Proof.
  revert t. induction l as [|c l IH]; intros t; simpl; [done|]. destruct (drop_reason registry policy c) eqn:E.
  - rewrite bool_decide_eq_false_2 by done. apply IH.
  - rewrite bool_decide_eq_true_2 by done. specialize (IH t). by destruct (apply_hard_filters registry l policy t); simpl in *; subst.
Qed.

Lemma elem_of_hard_filters policy l t c : c ∈ (apply_hard_filters registry l policy t).1 <-> c ∈ l /\ admissible policy c.
Proof. rewrite hard_filters_exact, elem_of_filterb, bool_decide_eq_true, admissible_iff. naive_solver. Qed.

(** ** Routes to the same model *)

(** The same candidate, but for how it was found. *)
Definition same_route c c' : Prop := with_route_paths c [] = with_route_paths c' [].

Lemma same_route_refl c : same_route c c.
Proof. done. Qed.
Lemma same_route_trans c1 c2 c3 : same_route c1 c2 -> same_route c2 c3 -> same_route c1 c3.
Proof. unfold same_route. congruence. Qed.
Lemma same_route_paths c paths : same_route (with_route_paths c paths) c.
Proof. done. Qed.
Lemma same_route_fields c c' :
  same_route c c' -> candidate_key c = candidate_key c' /\ ca_provider_instance_name c = ca_provider_instance_name c'
  /\ ca_metadata c = ca_metadata c' /\ ca_resolved_logical_path c = ca_resolved_logical_path c'
  /\ ca_priority_path c = ca_priority_path c' /\ ca_exact_model_weight c = ca_exact_model_weight c'
  /\ ca_provider_weight c = ca_provider_weight c'.
Proof. destruct c, c'. unfold same_route, with_route_paths, candidate_key. simpl. intros [= -> -> -> -> -> -> -> -> -> ->]. done. Qed.

Lemma same_route_compare c c' d d' : same_route c c' -> same_route d d' -> compare_priority c d = compare_priority c' d'.
Proof.
  intros (_ & _ & _ & _ & E1 & E2 & _)%same_route_fields (_ & _ & _ & _ & E3 & E4 & _)%same_route_fields.
  unfold compare_priority. congruence.
Qed.

Lemma same_route_weights c c' : same_route c c' -> weights_not_nan c' -> weights_not_nan c.
Proof. intros (_ & _ & _ & _ & E1 & E2 & _)%same_route_fields. unfold weights_not_nan. by rewrite E1, E2. Qed.

Lemma same_route_admissible policy c c' : same_route c c' -> admissible policy c' -> admissible policy c.
Proof.
  intros (E0 & E1 & E2 & E3 & _ & E4 & E5)%same_route_fields [].
  assert (E6 : ca_api_type c = ca_api_type c') by (unfold candidate_key in E0; congruence).
  split; rewrite ?E1, ?E2, ?E3, ?E4, ?E5, ?E6; done.
Qed.

(** What the map of [dedupe_candidates] is for a list: for every key that
    occurs, one of the candidates with no greater one beside it. *)
Definition best_of (l : list ModelCandidate) (m : gmap (string * ApiType) ModelCandidate) : Prop :=
  (forall k c, m !! k = Some c -> candidate_key c = k /\ exists c0, c0 ∈ l /\ same_route c c0)
  /\ forall c0, c0 ∈ l -> exists c, m !! candidate_key c0 = Some c /\ compare_priority c0 c <> Gt.

Lemma same_route_same_key c c' : same_route c c' -> candidate_key c = candidate_key c'.
Proof. by intros []%same_route_fields. Qed.

Lemma dedupe_insert_best l m c :
  Forall weights_not_nan l -> weights_not_nan c -> best_of l m -> best_of (l ++ [c]) (dedupe_insert m c).
Proof.
  intros Hl Hc [Hs Hb]. rewrite Forall_forall in Hl.
  assert (Hsr : forall k e, m !! k = Some e -> candidate_key e = k /\ exists c0, c0 ∈ l ++ [c] /\ same_route e c0).
  { intros k e Hk. destruct (Hs k e Hk) as (? & c0 & ? & ?). split; [done|]. exists c0. split; [set_solver|done]. }
  assert (Hin : forall c0, c0 ∈ l ++ [c] -> c0 ∈ l \/ c0 = c) by set_solver.
  assert (Hrefl : compare_priority c c <> Gt) by by rewrite (cmp_refl weights_not_nan compare_priority c Hc).
  unfold dedupe_insert. destruct (m !! candidate_key c) as [old|] eqn:Eo.
  - destruct (Hs _ _ Eo) as (Ek & o0 & Ho0 & Hso).
    assert (Ho : weights_not_nan old) by (eapply same_route_weights; eauto).
    assert (Hgen : forall new, same_route new old \/ same_route new c -> compare_priority c new <> Gt -> compare_priority old new <> Gt ->
      best_of (l ++ [c]) (<[candidate_key c := new]> m)).
    { intros new Hnew Hcn Hon. assert (Hn : weights_not_nan new) by by destruct Hnew as [Hn|Hn]; eapply same_route_weights; eauto.
      split.
      - intros k e. rewrite lookup_insert_Some. intros [[<- <-]|[_ Hk]]; [|by apply Hsr]. destruct Hnew as [Hn'|Hn'].
        + split; [by rewrite (same_route_same_key _ _ Hn')|]. exists o0. split; [set_solver|]. by eapply same_route_trans.
        + split; [by apply same_route_same_key|]. exists c. set_solver.
      - intros c0 [Hc0| ->]%Hin; [|exists new; by simplify_map_eq].
        destruct (Hb c0 Hc0) as (e & He & Hle). destruct (decide (candidate_key c0 = candidate_key c)) as [E|Hne].
        + exists new. rewrite E. split; [by simplify_map_eq|]. rewrite E, Eo in He. injection He as <-.
          eapply (cmp_le_trans weights_not_nan compare_priority c0 old new); auto.
        + exists e. by rewrite lookup_insert_ne. }
    destruct (compare_priority c old) eqn:E.
    + apply Hgen; [left; apply same_route_paths| |].
      * rewrite (same_route_compare c c _ old (same_route_refl _) (same_route_paths _ _)). by rewrite E.
      * rewrite (same_route_compare old old _ old (same_route_refl _) (same_route_paths _ _)).
        by rewrite (cmp_refl weights_not_nan compare_priority old Ho).
    + split; [done|]. intros c0 [Hc0| ->]%Hin; [by apply Hb|]. exists old. split; [done|]. by rewrite E.
    + apply Hgen; [by right|done|]. rewrite (cmp_antisym (P := weights_not_nan) (cmp := compare_priority) c old) by done. by rewrite E.
  - split.
    + intros k e. rewrite lookup_insert_Some. intros [[<- <-]|[_ Hk]]; [|by apply Hsr]. split; [done|]. exists c. set_solver.
    + intros c0 [Hc0| ->]%Hin; [|exists c; by simplify_map_eq]. destruct (Hb c0 Hc0) as (e & He & Hle). exists e. split; [|done].
      rewrite lookup_insert_ne; [done|]. intros E. rewrite E in Eo. congruence.
Qed.

Lemma dedupe_fold_best l k m :
  Forall weights_not_nan l -> Forall weights_not_nan k -> best_of l m -> best_of (l ++ k) (fold_left dedupe_insert k m).
Proof.
  revert l m. induction k as [|c k IH]; intros l m Hl Hk Hm; simpl; [by rewrite app_nil_r|].
  apply Forall_cons in Hk as [Hc Hk]. change (c :: k) with ([c] ++ k). rewrite app_assoc. apply IH; [|done|by apply dedupe_insert_best].
  apply Forall_app. auto.
Qed.

Lemma elem_of_dedupe l c : c ∈ dedupe_candidates l <-> exists k, fold_left dedupe_insert l ∅ !! k = Some c.
Proof.
  unfold dedupe_candidates. rewrite list_elem_of_fmap. setoid_rewrite elem_of_sort_stable. split.
  - intros ([k c'] & -> & Hk%elem_of_map_to_list). eauto.
  - intros [k Hk%elem_of_map_to_list]. by exists (k, c).
Qed.

(** Each model once, by one of its routes, and by none that is worse than
    another. *)
Lemma dedupe_spec l :
  Forall weights_not_nan l ->
  NoDup (candidate_key <$> dedupe_candidates l)
  /\ (forall c, c ∈ dedupe_candidates l -> exists c0, c0 ∈ l /\ same_route c c0)
  /\ forall c0, c0 ∈ l -> exists c, c ∈ dedupe_candidates l /\ candidate_key c = candidate_key c0 /\ compare_priority c0 c <> Gt.
Proof.
  intros Hl. destruct (dedupe_fold_best [] l ∅) as [Hs Hb]; [done|done| |].
  { split; [intros k c Hk; by rewrite lookup_empty in Hk|set_solver]. }
  simpl in Hs, Hb. split_and!.
  - unfold dedupe_candidates. rewrite <- list_fmap_compose. rewrite sort_stable_perm.
    assert (E : (candidate_key ∘ snd) <$> map_to_list (fold_left dedupe_insert l ∅) = (map_to_list (fold_left dedupe_insert l ∅)).*1).
    { apply list_fmap_ext. intros n [k c] Hk. simpl. apply (Hs k c). apply elem_of_map_to_list. by eapply list_elem_of_lookup_2. }
    rewrite E. apply NoDup_fst_map_to_list.
  - intros c [k Hk]%elem_of_dedupe. by apply (Hs k).
  - intros c0 Hc0. destruct (Hb c0 Hc0) as (c & Hc & Hle). exists c. split; [apply elem_of_dedupe; eauto|].
    split; [|done]. by apply (Hs (candidate_key c0)).
Qed.

(** ** Steps that pass a trace on *)

(** What a step comes to, whatever the trace it is given. *)
Definition outcome {A} (m : tracing A) (r : routed A) : Prop :=
  forall t, match r with inl e => m t = Some (inl e) | inr a => exists t', m t = Some (inr (a, t')) end.

Lemma outcome_ret {A} (a : A) : outcome (mret a) (inr a).
Proof. intros t. by exists t. Qed.
Lemma outcome_log f : outcome (log f) (inr tt).
Proof. intros t. by exists (f t). Qed.
Lemma outcome_lift {A} (r : routed A) : outcome (lift r) r.
Proof. intros t. unfold lift. destruct r; eauto. Qed.

Lemma outcome_bind {A B} (m : tracing A) (f : A -> tracing B) a r : outcome m (inr a) -> outcome (f a) r -> outcome (m ≫= f) r.
Proof.
  intros Hm Hf t. specialize (Hm t). destruct Hm as [t' Hm]. specialize (Hf t'). unfold mbind, tracing_bind. rewrite Hm.
  destruct r; [done|]. destruct Hf as [t'' Hf]. by exists t''.
Qed.
Lemma outcome_bind_error {A B} (m : tracing A) (f : A -> tracing B) e : outcome m (inl e) -> outcome (m ≫= f) (inl e).
Proof. intros Hm t. specialize (Hm t). unfold mbind, tracing_bind. by rewrite Hm. Qed.

Lemma outcome_seq_log {B} g (k : tracing B) r : outcome k r -> outcome (log g ;; k) r.
Proof. intros Hk. eapply outcome_bind; [apply outcome_log|done]. Qed.

(** A loop whose rounds all come to something comes to the first error, or to
    all that they give. *)
Lemma collect_outcome {A B} (f : A -> tracing (list B)) l (R : A -> routed (list B) -> Prop) :
  Forall (fun x => exists r, outcome (f x) r /\ R x r) l ->
  (exists x e, x ∈ l /\ R x (inl e) /\ outcome (collect f l) (inl e))
  \/ exists xss, Forall2 (fun x xs => R x (inr xs)) l xss /\ outcome (collect f l) (inr (concat xss)).
Proof.
  induction 1 as [|x l ([e|xs] & Hx & HR) _ IH]; simpl.
  - right. exists []. split; [constructor|apply outcome_ret].
  - left. exists x, e. split; [by left|]. split; [done|]. by apply outcome_bind_error.
  - destruct IH as [(y & e & Hy & HRy & Ho)|(xss & H2 & Ho)].
    + left. exists y, e. split; [by right|]. split; [done|]. eapply outcome_bind; [done|]. by apply outcome_bind_error.
    + right. exists (xs :: xss). split; [by constructor|]. eapply outcome_bind; [done|]. eapply outcome_bind; [done|].
      apply outcome_ret.
Qed.
End facts.
