(* ===== verification/AiExpansion.v ===== *)
(** The expansion of a logical name, against its reference: the routes that
    items lead along from the name to models. *)
From Stdlib Require Import ZArith Lia Ascii Sorted Permutation.
From stdpp Require Import base tactics numbers gmap strings sorting list relations.
From S2P Require Import Prelude RustString Lists AiTypes AiRegistry AiSession AiRouter AiOrder.
From S2P Require Import AiRegistryFacts AiSessionFacts AiRouterFacts.

Section defaults.
Context {Json : Type} `{HashOrder}.

(** The items the registry has for a name are models, each with weight one. *)
Lemma mount_model_items path d acc (m : ModelMetadata Json) name it :
  df_items (mount_model path d acc m) !! name = Some it ->
  df_items acc !! name = Some it \/ it = mkItem (mm_exact_model m) f64_one.
Proof.
  unfold mount_model.
  assert (Hadmit : forall source acc', df_items acc' = df_items acc ->
    df_items (admit_default source m acc') !! name = Some it -> df_items acc !! name = Some it \/ it = mkItem (mm_exact_model m) f64_one).
  { intros source acc' E. unfold admit_default, LogicalItems in *. simpl. rewrite lookup_insert_Some, E. naive_solver. }
  destruct d as [d|]; repeat case_bool_decide; solve [by left | by apply Hadmit].
Qed.

Lemma default_items_models (r : ModelRegistry Json) path name it :
  default_items_for_path r path !! name = Some it ->
  exists k i m, inventories r !! k = Some i /\ m ∈ pi_models i /\ it = mkItem (mm_exact_model m) f64_one.
Proof.
  unfold default_items_for_path, default_items_with_trace_for_path, default_items_from_inventories.
  set (d := logical_definitions r !! path). set (acc := mkDefaults ∅ ∅ []).
  assert (H0 : df_items acc !! name = None) by apply lookup_empty.
  assert (Hgen : forall l acc, (df_items acc !! name = Some it -> exists k i m, inventories r !! k = Some i /\ m ∈ pi_models i /\ it = mkItem (mm_exact_model m) f64_one) ->
    (forall i, i ∈ l -> exists k, inventories r !! k = Some i) ->
    df_items (fold_left (fun acc i => fold_left (mount_model path d) (pi_models i) acc) l acc) !! name = Some it ->
    exists k i m, inventories r !! k = Some i /\ m ∈ pi_models i /\ it = mkItem (mm_exact_model m) f64_one).
  { clear acc H0. induction l as [|i l IH]; intros acc Hacc Hl; simpl; [done|]. apply IH; [|intros; apply Hl; by right].
    destruct (Hl i) as [k Hk]; [by left|].
    assert (Hm : forall ms acc, (df_items acc !! name = Some it -> exists k i m, inventories r !! k = Some i /\ m ∈ pi_models i /\ it = mkItem (mm_exact_model m) f64_one) ->
      (forall m, m ∈ ms -> m ∈ pi_models i) -> df_items (fold_left (mount_model path d) ms acc) !! name = Some it ->
      exists k i m, inventories r !! k = Some i /\ m ∈ pi_models i /\ it = mkItem (mm_exact_model m) f64_one).
    { clear acc Hacc. induction ms as [|m ms IHm]; intros acc Hacc Hms; simpl; [done|]. apply IHm; [|intros; apply Hms; by right].
      intros [Hi|Hi]%mount_model_items; [by apply Hacc|]. exists k, i, m. split_and!; [done| |done]. apply Hms. by left. }
    apply Hm; [done|auto]. }
  apply Hgen; [by rewrite H0|]. intros i Hi. by apply elem_of_values in Hi.
Qed.

Lemma default_items_exact (r : ModelRegistry Json) path name it :
  registry_ok r -> default_items_for_path r path !! name = Some it ->
  is_exact_model_name (it_target it) = true /\ it_weight it = f64_one.
Proof.
  intros [Hok _] (k & i & m & Hi & Hm & ->)%default_items_models. split; [|done]. simpl.
  destruct (Hok k i Hi) as [_ [[Hf _]%validate_inventory_inr _]]. rewrite Forall_forall in Hf.
  destruct (Hf m Hm) as (n & Hn & _). by eapply exact_parse_is_exact.
Qed.

Lemma exact_candidate_fields (r : ModelRegistry Json) name api_type c :
  registry_ok r -> exact_candidate r name api_type = Some c -> ca_exact_model c = name /\ ca_api_type c = api_type.
Proof. intros [_ Hidx] (k & i & m & _ & _ & E & _ & ->)%Hidx. done. Qed.
End defaults.

Section expansion.
Context {Json : Type} `{HashOrder} (registry : ModelRegistry Json) (session_config : SessionConfig).
Abbreviation ModelCandidate := (ModelCandidate Json).
Implicit Types (c : ModelCandidate) (path target name : string) (api_type : ApiType) (priority : list float).

(** ** Routes *)

(** An item that counts: of positive weight, at a name. *)
Definition item_at path (it : ModelItem) : Prop :=
  exists items name, items_of registry session_config path = Some (inr items) /\ items !! name = Some it
                     /\ f64_leb (it_weight it) f64_zero = false.

(** From a logical name to the logical name that an item of it has for target. *)
Definition leads path target : Prop := exists it, item_at path it /\ it_target it = target /\ is_exact_model_name target = false.

(** The routes from a name to the candidates of a type, with the weights along
    them. *)
Inductive route (root_path : string) (api_type : ApiType) : string -> list float -> ModelCandidate -> Prop :=
| route_model path priority it c :
  item_at path it -> is_exact_model_name (it_target it) = true ->
  c ∈ resolve_exact_raw registry session_config (it_target it) api_type ->
  route root_path api_type path priority
    (item_candidate session_config root_path path (it_target it) (priority ++ [it_weight it]) c)
| route_name path priority it c :
  item_at path it -> is_exact_model_name (it_target it) = false ->
  route root_path api_type (it_target it) (priority ++ [it_weight it]) c ->
  route root_path api_type path priority c.

(** A loop that an expansion below the names of [visited] runs into. *)
Definition loop_from (visited : gset string) path : Prop := exists p, rtc leads path p /\ (p ∈ visited \/ tc leads p p).

Definition loop_error : RouteError := mkError LogicalTreeLoop "logical tree item targets form a loop".

(** What the expansion of a name is to come to. *)
Definition expansion_spec root_path api_type path priority (visited : gset string) (r : routed (list ModelCandidate)) : Prop :=
  match r with
  | inl e => e = loop_error /\ loop_from visited path
  | inr cs =>
    ~ loop_from visited path
    /\ NoDup (candidate_key <$> cs)
    /\ (forall c, c ∈ cs -> exists c0, route root_path api_type path priority c0 /\ same_route c c0)
    /\ forall c0, route root_path api_type path priority c0 ->
         exists c, c ∈ cs /\ candidate_key c = candidate_key c0 /\ compare_priority c0 c <> Gt
  end.

Lemma loop_below visited path target :
  leads path target -> loop_from ({[path]} ∪ visited) target -> loop_from visited path.
Proof.
  intros Hl (p & Hp & Hcase). destruct Hcase as [Hp'|Ht].
  - apply elem_of_union in Hp' as [->%elem_of_singleton|Hp'].
    + exists path. split; [done|]. right. apply tc_rtc_r with target; [by apply tc_once|done].
    + exists p. split; [by eapply rtc_l|by left].
  - exists p. split; [by eapply rtc_l|by right].
Qed.


Lemma loop_above visited path :
  path ∉ visited -> loop_from visited path -> exists target, leads path target /\ loop_from ({[path]} ∪ visited) target.
Proof.
  intros Hn (p & Hp & Hcase). apply rtc_inv in Hp as [<-|(q & Hq & Hrest)].
  - destruct Hcase as [|Ht]; [done|]. inversion Ht as [? ? Hq|? q ? Hq Hrest]; subst.
    + exists path. split; [done|]. exists path. split; [apply rtc_refl|left; set_solver].
    + exists q. split; [done|]. exists path. split; [by apply tc_rtc|left; set_solver].
  - exists q. split; [done|]. exists p. split; [done|]. destruct Hcase; [left; set_solver|by right].
Qed.

(** ** Weights *)

Context (Hreg : registry_ok registry) (Hval : validate session_config = inr tt).

Lemma items_of_good path items :
  items_of registry session_config path = Some items -> exists its, items = inr its /\ items_good its.
Proof using Hreg Hval.
  unfold items_of. set (defaults := default_items_for_path registry path).
  assert (Hd : items_good defaults).
  { intros name it Hit. by apply default_items_exact in Hit as [_ ->]. }
  destruct (node session_config path) as [n|] eqn:En; [|case_bool_decide; [done|]; intros [= <-]; by exists defaults].
  intros [= <-]. destruct (effective_items_good n (Some defaults)) as (its & E & Hg); [by eapply node_good_of|done|eauto].
Qed.

Lemma item_at_weight path it : item_at path it -> not_nan (it_weight it).
Proof using Hreg Hval.
  intros (items & name & Hi & Hit & _). destruct (items_of_good path _ Hi) as (its & [= ->] & Hg). by eapply good_weight, Hg.
Qed.

Lemma route_weights root_path api_type path priority c :
  route root_path api_type path priority c -> Forall not_nan priority -> weights_not_nan c.
Proof using Hreg Hval.
  assert (Happ : forall path priority it, item_at path it -> Forall not_nan priority -> Forall not_nan (priority ++ [it_weight it])).
  { intros. apply Forall_app. split; [done|]. repeat constructor. by eapply item_at_weight. }
  induction 1 as [path priority it c Hit Hex Hc|path priority it c Hit Hex Hr IH]; intros Hp; [|by eapply IH, Happ].
  split; simpl; [by eapply Happ|by apply node_exact_weight_good].
Qed.

(** Where the node is missing, every item is a model. *)
Lemma item_at_no_node path it : node session_config path = None -> item_at path it -> is_exact_model_name (it_target it) = true.
Proof using Hreg.
  intros En (items & name & Hi & Hit & _). unfold items_of in Hi. rewrite En in Hi. case_bool_decide; [done|].
  injection Hi as <-. by eapply default_items_exact.
Qed.

(** ** The expansion *)

(** What is left to visit. *)
Definition unvisited (visited : gset string) : list (list string) :=
  List.filter (fun parts => negb (bool_decide (join "." parts ∈ visited))) (tree_paths (sc_logical_tree session_config)).

Lemma length_filterb_lt {A} (p q : A -> bool) l x :
  (forall y, q y = true -> p y = true) -> x ∈ l -> p x = true -> q x = false ->
  (length (List.filter q l) < length (List.filter p l))%nat.
Proof.
  intros Hqp. assert (Hle : forall l, (length (List.filter q l) <= length (List.filter p l))%nat).
  { induction l0 as [|y l0 IH]; simpl; [done|]. specialize (Hqp y). destruct (q y); [rewrite Hqp by done; simpl; lia|destruct (p y); simpl; lia]. }
  induction l as [|y l IH]; intros Hx Hp Hq; [set_solver|]. apply elem_of_cons in Hx as [<-|Hx]; simpl.
  - rewrite Hp, Hq. simpl. specialize (Hle l). lia.
  - specialize (Hqp y). specialize (IH Hx Hp Hq). destruct (q y); [rewrite Hqp by done; simpl; lia|destruct (p y); simpl; lia].
Qed.

Lemma unvisited_shrinks visited path n :
  path ∉ visited -> node session_config path = Some n -> (length (unvisited ({[path]} ∪ visited)) < length (unvisited visited))%nat.
Proof.
  intros Hn En. unfold unvisited. apply length_filterb_lt with (x := split_on DOT path).
  - intros parts. rewrite !negb_true_iff, !bool_decide_eq_false. set_solver.
  - by eapply node_path_of.
  - apply negb_true_iff, bool_decide_eq_false. change "." with (String DOT ""). by rewrite join_split.
  - apply negb_false_iff, bool_decide_eq_true. change "." with (String DOT ""). rewrite join_split. set_solver.
Qed.

(** The routes of a name through one of its items. *)
Definition via root_path api_type path priority (it : ModelItem) c : Prop :=
  f64_leb (it_weight it) f64_zero = false /\
  if is_exact_model_name (it_target it) then
    exists c', c' ∈ resolve_exact_raw registry session_config (it_target it) api_type
      /\ c = item_candidate session_config root_path path (it_target it) (priority ++ [it_weight it]) c'
  else route root_path api_type (it_target it) (priority ++ [it_weight it]) c.

Lemma route_via root_path api_type path priority items c :
  items_of registry session_config path = Some (inr items) ->
  route root_path api_type path priority c <-> exists name it, items !! name = Some it /\ via root_path api_type path priority it c.
Proof.
  intros Hi. split.
  - intros Hr. inversion Hr as [? ? it c' (items' & name & Hi' & Hit & Hw) Hex Hc'|? ? it ? (items' & name & Hi' & Hit & Hw) Hex Hr']; subst;
      rewrite Hi in Hi'; injection Hi' as <-; exists name, it; (split; [done|]); (split; [done|]); rewrite Hex; eauto.
  - intros (name & it & Hit & Hw & Hv). assert (Hat : item_at path it) by by exists items, name.
    destruct (is_exact_model_name (it_target it)) eqn:Hex; [|by eapply route_name].
    destruct Hv as (c' & Hc' & ->). by apply route_model.
Qed.

(** What a round of the loop over the items is to come to. *)
Definition item_spec root_path api_type path priority (visited : gset string) (ni : string * ModelItem) (r : routed (list ModelCandidate)) : Prop :=
  let targets_loop := f64_leb (it_weight ni.2) f64_zero = false /\ is_exact_model_name (it_target ni.2) = false
                      /\ loop_from ({[path]} ∪ visited) (it_target ni.2) in
  match r with
  | inl e => e = loop_error /\ targets_loop
  | inr cs =>
    ~ targets_loop
    /\ (forall c, c ∈ cs -> exists c0, via root_path api_type path priority ni.2 c0 /\ same_route c c0)
    /\ forall c0, via root_path api_type path priority ni.2 c0 ->
         exists c, c ∈ cs /\ candidate_key c = candidate_key c0 /\ compare_priority c0 c <> Gt
  end.

Lemma compare_refl c : weights_not_nan c -> compare_priority c c <> Gt.
Proof. intros Hc. by rewrite (cmp_refl weights_not_nan compare_priority c Hc). Qed.

Lemma expand_item_spec expand root_path api_type path priority visited default_sources items ni :
  items_of registry session_config path = Some (inr items) -> ni ∈ btree items -> Forall not_nan priority ->
  (forall target, leads path target -> exists r, outcome (expand target (priority ++ [it_weight ni.2])) r
     /\ expansion_spec root_path api_type target (priority ++ [it_weight ni.2]) ({[path]} ∪ visited) r) ->
  exists r, outcome (expand_item registry session_config expand root_path path api_type priority (node session_config path) default_sources ni) r
    /\ item_spec root_path api_type path priority visited ni r.
Proof using Hreg Hval.
  intros Hi Hni Hp Hexp. destruct ni as [name it]. apply elem_of_btree in Hni. unfold expand_item.
  destruct (f64_leb (it_weight it) f64_zero) eqn:Hw.
  { exists (inr []). split; [apply outcome_seq_log, outcome_ret|]. simpl.
    split_and!; [intros (? & _); congruence|set_solver|intros c0 [? _]; congruence]. }
  assert (Hat : item_at path it) by by exists items, name.
  destruct (is_exact_model_name (it_target it)) eqn:Hex.
  - eexists (inr _). split; [apply outcome_seq_log, outcome_ret|]. simpl. split_and!; [intros (_ & ? & _); congruence| |].
    + intros c (c' & -> & Hc')%list_elem_of_fmap. eexists. split; [|apply same_route_refl].
      split; [done|]. rewrite Hex. by exists c'.
    + intros c0 [_ Hv]. rewrite Hex in Hv. destruct Hv as (c' & Hc' & ->). eexists. split; [by apply list_elem_of_fmap_2|].
      split; [done|]. apply compare_refl. eapply route_weights; [by apply route_model|done].
  - destruct (Hexp (it_target it)) as (r & Ho & Hspec); [by exists it|]. exists r. split; [by apply outcome_seq_log|].
    destruct r as [e|cs]; simpl in *; [by destruct Hspec as [-> ?]|]. destruct Hspec as (Hnl & _ & Hs & Hc).
    split_and!; [by intros (_ & _ & ?)| |].
    + intros c (c0 & Hr & Hsame)%Hs. exists c0. split; [|done]. split; [done|]. by rewrite Hex.
    + intros c0 [_ Hv]. rewrite Hex in Hv. by apply Hc.
Qed.

Lemma Forall2_in_l {A B} (R : A -> B -> Prop) l k x : Forall2 R l k -> x ∈ l -> exists y, y ∈ k /\ R x y.
Proof. intros H2 [i Hi]%list_elem_of_lookup. destruct (Forall2_lookup_l _ _ _ _ _ H2 Hi) as (y & Hy & HR). exists y. split; [by eapply list_elem_of_lookup_2|done]. Qed.
Lemma Forall2_in_r {A B} (R : A -> B -> Prop) l k y : Forall2 R l k -> y ∈ k -> exists x, x ∈ l /\ R x y.
Proof. intros H2 [i Hi]%list_elem_of_lookup. destruct (Forall2_lookup_r _ _ _ _ _ H2 Hi) as (x & Hx & HR). exists x. split; [by eapply list_elem_of_lookup_2|done]. Qed.

(** With fuel for the names not visited, an expansion comes to what it should. *)
Lemma expand_logical_spec fuel root_path api_type path priority visited :
  (length (unvisited visited) < fuel)%nat -> Forall not_nan priority ->
  exists r, outcome (expand_logical registry session_config fuel root_path path api_type priority visited) r
    /\ expansion_spec root_path api_type path priority visited r.
Proof using Hreg Hval.
  revert path priority visited. induction fuel as [|fuel IH]; intros path priority visited Hfuel Hp; [lia|]. cbn [expand_logical].
  case_bool_decide as Hin.
  { exists (inl loop_error). split; [apply outcome_lift|]. split; [done|]. exists path. split; [apply rtc_refl|by left]. }
  destruct (items_of registry session_config path) as [its|] eqn:Ei.
  2:{ exists (inr []). split; [apply outcome_seq_log, outcome_ret|].
      assert (Hno : forall it, ~ item_at path it) by (intros it (? & ? & Hi & _); congruence).
      split_and!; [|constructor|set_solver|].
      - intros (target & (it & Hit & _) & _)%loop_above; [by eapply Hno|done].
      - intros c0 Hr. destruct Hr; by edestruct Hno. }
  destruct (items_of_good path its Ei) as (items & -> & Hgood).
  set (body := expand_item registry session_config _ root_path path api_type priority _ _).
  destruct (collect_outcome body (btree items) (item_spec root_path api_type path priority visited)) as [(ni & e & Hni & [-> Hl] & Ho)|(css & H2 & Ho)].
  - apply Forall_forall. intros ni Hni. apply (expand_item_spec _ root_path api_type path priority visited _ items); [done..|].
    intros target Hlead. pose proof Hlead as (it & Hit & <- & Hex). apply IH.
    + destruct (node session_config path) as [n|] eqn:En; [|by apply item_at_no_node in Hit; [congruence|]].
      pose proof (unvisited_shrinks visited path n Hin En). lia.
    + apply Forall_app. split; [done|]. repeat constructor. destruct ni as [name it']. apply elem_of_btree in Hni.
      eapply good_weight. by apply (Hgood name).
  - exists (inl loop_error). split; [apply outcome_seq_log; eapply outcome_bind; [apply outcome_lift|by apply outcome_bind_error]|].
    destruct Hl as (Hw & Hex & Hl). split; [done|]. eapply loop_below; [|done]. destruct ni as [name it]. apply elem_of_btree in Hni.
    exists it. split; [|done]. by exists items, name.
  - exists (inr (dedupe_candidates (concat css))).
    split; [apply outcome_seq_log; eapply outcome_bind; [apply outcome_lift|eapply outcome_bind; [done|apply outcome_ret]]|].
    assert (Hcat : forall c, c ∈ concat css -> exists c0, route root_path api_type path priority c0 /\ same_route c c0).
    { intros c Hc. rewrite list_elem_of_In, in_concat in Hc. destruct Hc as (cs & Hcs & Hc). rewrite <- list_elem_of_In in Hcs.
      rewrite <- list_elem_of_In in Hc. destruct (Forall2_in_r _ _ _ _ H2 Hcs) as ([name it] & Hni & _ & Hs & _).
      destruct (Hs c Hc) as (c0 & Hv & Hsame). exists c0. split; [|done]. apply (route_via _ _ _ _ items); [done|].
      exists name, it. split; [by apply elem_of_btree|done]. }
    assert (Hnan : Forall weights_not_nan (concat css)).
    { apply Forall_forall. intros c (c0 & Hr & Hsame)%Hcat. eapply same_route_weights; [done|]. by eapply route_weights. }
    destruct (dedupe_spec (concat css) Hnan) as (Hnd & Hs & Hb). split_and!.
    + intros (target & (it & (items' & name & Hi' & Hit & Hw) & <- & Hex) & Hl)%loop_above; [|done].
      rewrite Ei in Hi'. injection Hi' as <-.
      destruct (Forall2_in_l _ _ _ (name, it) H2) as (cs & _ & Hno & _); [by apply elem_of_btree|]. by apply Hno.
    + done.
    + intros c (c1 & (c0 & Hr & Hs1)%Hcat & Hs2)%Hs. exists c0. split; [done|]. by eapply same_route_trans.
    + intros c0 Hr. pose proof Hr as (name & it & Hit & Hv)%(route_via _ _ _ _ items); [|done].
      destruct (Forall2_in_l _ _ _ (name, it) H2) as (cs & Hcs & _ & _ & Hc); [by apply elem_of_btree|].
      destruct (Hc c0 Hv) as (c1 & Hc1 & Hk1 & Hle1). destruct (Hb c1) as (c2 & Hc2 & Hk2 & Hle2).
      { rewrite list_elem_of_In, in_concat. exists cs. rewrite <- !list_elem_of_In. done. }
      exists c2. split; [done|]. split; [congruence|].
      assert (Hw1 : weights_not_nan c1).
      { rewrite Forall_forall in Hnan. apply Hnan. rewrite list_elem_of_In, in_concat. exists cs. by rewrite <- !list_elem_of_In. }
      assert (Hw2 : weights_not_nan c2).
      { destruct (Hs c2 Hc2) as (c3 & Hc3 & Hs3). rewrite Forall_forall in Hnan. eapply same_route_weights; eauto. }
      eapply (cmp_le_trans weights_not_nan compare_priority c0 c1 c2); eauto using route_weights.
Qed.

(** What [resolve_logical_raw] comes to. *)
Lemma resolve_raw_spec path api_type :
  exists r, outcome (resolve_logical_raw registry session_config path api_type) r /\ expansion_spec path api_type path [] ∅ r.
Proof using Hreg Hval.
  apply expand_logical_spec; [|constructor]. unfold unvisited, expand_fuel. rewrite <- tree_paths_size.
  eapply Nat.le_lt_trans; [apply filter_length_le|lia].
Qed.
End expansion.
