(* ===== verification/AiResolve.v ===== *)
(** What a request comes to in the router: the best of the candidates that its
    policy admits, of its name or of a name it falls back to. *)
From Stdlib Require Import ZArith Lia Ascii Sorted Permutation.
From stdpp Require Import base tactics numbers gmap strings sorting list relations.
From S2P Require Import Prelude RustString Lists AiTypes AiRegistry AiSession AiRouter AiOrder.
From S2P Require Import AiRegistryFacts AiSessionFacts AiRouterFacts AiExpansion.

Section resolve.
Context {Json : Type} `{HashOrder} (registry : ModelRegistry Json) (session_config : SessionConfig).
Context (Hreg : registry_ok registry) (Hval : validate session_config = inr tt).
Abbreviation ModelCandidate := (ModelCandidate Json).
Implicit Types (c : ModelCandidate) (path name : string) (api_type : ApiType) (policy : RoutePolicy).

(** ** Candidates of the registry *)

(** The candidate is the model the registry knows by its name. *)
Definition registered api_type c : Prop :=
  ca_api_type c = api_type /\
  exists i m, inventories registry !! ca_provider_instance_name c = Some i /\ m ∈ pi_models i /\ api_type ∈ mm_api_types m
    /\ mm_exact_model m = ca_exact_model c /\ ca_metadata c = m.

Lemma exact_raw_registered name api_type c :
  c ∈ resolve_exact_raw registry session_config name api_type ->
  registered api_type c /\ ca_exact_model c = name /\ weights_not_nan c /\ ca_resolved_logical_path c = None.
Proof using Hreg Hval.
  unfold resolve_exact_raw. destruct (exact_candidate registry name api_type) as [c'|] eqn:E; [|set_solver].
  intros ->%list_elem_of_singleton. destruct Hreg as [_ Hidx]. apply Hidx in E as (k & i & m & Hi & Hm & Hname & Ha & ->).
  simpl in *. split_and!; [|done|split; [by repeat constructor|done]|done]. split; [done|]. by exists i, m.
Qed.

Lemma exact_raw_keys name api_type : NoDup (candidate_key <$> resolve_exact_raw registry session_config name api_type).
Proof. unfold resolve_exact_raw. destruct (exact_candidate _ _ _); [apply NoDup_singleton|constructor]. Qed.

Lemma route_registered root_path api_type path priority c :
  route registry session_config root_path api_type path priority c -> registered api_type c /\ ca_resolved_logical_path c = Some root_path.
Proof using Hreg Hval. induction 1 as [path priority it c _ _ Hc|]; [|done]. split; [|done]. by apply exact_raw_registered in Hc as (? & _). Qed.

Lemma same_route_registered api_type c c' : same_route c c' -> registered api_type c' -> registered api_type c.
Proof.
  intros (E0 & E1 & E2 & _)%same_route_fields [Ha (i & m & Hi & Hm & Hapi & Hname & Hmd)]. injection E0 as E3 E4.
  split; [congruence|]. exists i, m. rewrite E1, E2, E3. done.
Qed.

(** ** Filtering *)

Definition passing policy (raw : list ModelCandidate) : list ModelCandidate :=
  List.filter (fun c => bool_decide (drop_reason registry policy c = None)) raw.

Lemma filter_traced_outcome policy raw : outcome (filter_traced registry raw policy) (inr (passing policy raw)).
Proof.
  intros t. unfold filter_traced. pose proof (hard_filters_exact registry policy raw (add_before (length raw) t)) as E.
  destruct (apply_hard_filters registry raw policy _) as [filtered t']. simpl in E. subst. eauto.
Qed.

Lemma elem_of_passing policy raw c : c ∈ passing policy raw <-> c ∈ raw /\ admissible registry policy c.
Proof. unfold passing. rewrite elem_of_filterb, bool_decide_eq_true, admissible_iff. naive_solver. Qed.

Lemma passing_keys policy raw : NoDup (candidate_key <$> raw) -> NoDup (candidate_key <$> passing policy raw).
Proof. intros Hnd. eapply sublist_NoDup; [exact Hnd|]. apply fmap_sublist, filterb_sublist. Qed.

(** What candidates a resolution may give for a policy: of the registry,
    admitted by the policy, each model once, all of one priority. *)
Record selection policy api_type (cs : list ModelCandidate) : Prop := {
  se_registered : Forall (registered api_type) cs;
  se_admissible : Forall (admissible registry policy) cs;
  se_keys : NoDup (candidate_key <$> cs);
  se_priority : forall c d, c ∈ cs -> d ∈ cs -> compare_priority c d = Eq
}.

Lemma selection_nil policy api_type : selection policy api_type [].
Proof. split; [constructor..|set_solver]. Qed.

Lemma selection_of policy api_type raw :
  Forall weights_not_nan raw -> Forall (registered api_type) raw -> NoDup (candidate_key <$> raw) ->
  selection policy api_type (select_highest_priority (passing policy raw)).
Proof.
  intros Hw Hr Hnd. rewrite Forall_forall in Hw, Hr.
  assert (Hpw : Forall weights_not_nan (passing policy raw)).
  { apply Forall_forall. intros c [Hc _]%elem_of_passing. auto. }
  assert (Hsel : forall c, c ∈ select_highest_priority (passing policy raw) -> c ∈ raw /\ admissible registry policy c).
  { intros c [Hc _]%select_highest_spec; [|done]. by apply elem_of_passing in Hc. }
  split.
  - apply Forall_forall. intros c [Hc _]%Hsel. auto.
  - apply Forall_forall. by intros c [_ Hc]%Hsel.
  - eapply sublist_NoDup; [by apply (passing_keys policy raw)|]. apply fmap_sublist, select_highest_sublist.
  - intros c d [Hc Hcmax]%select_highest_spec [Hd Hdmax]%select_highest_spec; [|done..]. rewrite Forall_forall in Hcmax, Hdmax, Hpw.
    apply (cmp_ge_eq weights_not_nan compare_priority); auto.
Qed.

Lemma raw_selection policy path api_type cs :
  expansion_spec registry session_config path api_type path [] ∅ (inr cs) ->
  Forall weights_not_nan cs /\ selection policy api_type (select_highest_priority (passing policy cs)).
Proof using Hreg Hval.
  intros (_ & Hnd & Hs & _).
  assert (Hw : Forall weights_not_nan cs).
  { apply Forall_forall. intros c (c0 & Hr & Hsame)%Hs. eapply same_route_weights; [done|]. eapply route_weights; [done..|constructor]. }
  split; [done|]. apply selection_of; [done| |done]. apply Forall_forall. intros c (c0 & Hr & Hsame)%Hs.
  eapply same_route_registered; [done|]. by apply route_registered in Hr as [].
Qed.

(** ** The name itself *)

Lemma resolve_logical_filtered_spec policy path api_type :
  exists r, outcome (resolve_logical_filtered registry session_config path api_type policy) r
    /\ match r with
       | inl e => e = loop_error
       | inr cs => selection policy api_type cs
         /\ exists raw, expansion_spec registry session_config path api_type path [] ∅ (inr raw)
                        /\ cs = select_highest_priority (passing policy raw)
       end.
Proof using Hreg Hval.
  destruct (resolve_raw_spec registry session_config Hreg Hval path api_type) as ([e|raw] & Ho & Hspec).
  - exists (inl e). split; [by apply outcome_bind_error|]. by destruct Hspec.
  - exists (inr (select_highest_priority (passing policy raw))). split.
    + eapply outcome_bind; [done|]. apply outcome_seq_log. eapply outcome_bind; [apply filter_traced_outcome|].
      eapply outcome_bind; [|apply outcome_ret]. case_bool_decide; [apply outcome_ret|apply outcome_log].
    + split; [by apply raw_selection with (path := path)|eauto].
Qed.

(** ** Fallback *)

(** The errors fallback can end with. *)
Definition fallback_error (e : RouteError) : Prop := err_code e = FallbackLoop \/ e = loop_error.

Lemma fallback_raw_spec policy next api_type :
  exists r, outcome (if is_exact_model_name next then mret (resolve_exact_raw registry session_config next api_type)
                     else raw ← resolve_logical_raw registry session_config next api_type;
                          log (trace_disable_line registry session_config next) ;; mret raw) r
    /\ match r with inl e => e = loop_error | inr raw => selection policy api_type (select_highest_priority (passing policy raw)) end.
Proof using Hreg Hval.
  destruct (is_exact_model_name next).
  - eexists (inr _). split; [apply outcome_ret|]. apply selection_of; [..|apply exact_raw_keys];
      apply Forall_forall; intros c (? & ? & ? & ?)%exact_raw_registered; done.
  - destruct (resolve_raw_spec registry session_config Hreg Hval next api_type) as ([e|raw] & Ho & Hspec).
    + exists (inl e). split; [by apply outcome_bind_error|]. by destruct Hspec.
    + exists (inr raw). split; [eapply outcome_bind; [done|]; apply outcome_seq_log, outcome_ret|].
      by apply (raw_selection policy next).
Qed.

Lemma fallback_loop_spec rounds from current visited api_type policy :
  exists r, outcome (fallback_loop registry session_config rounds from current visited api_type policy) r
    /\ match r with inl e => fallback_error e | inr cs => selection policy api_type cs end.
Proof using Hreg Hval.
  revert current visited. induction rounds as [|rounds IH]; intros current visited; cbn [fallback_loop].
  { eexists (inl _). split; [apply outcome_lift|by left]. }
  case_bool_decide; [eexists (inl _); split; [apply outcome_lift|by left]|].
  assert (Hnil : exists r, outcome (mret [] : tracing (Json := Json) (list ModelCandidate)) r
    /\ match r with inl e => fallback_error e | inr cs => selection policy api_type cs end).
  { exists (inr []). split; [apply outcome_ret|apply selection_nil]. }
  destruct (fallback_rule session_config current policy) as [rule|]; [|done].
  destruct (fallback_target current rule) as [next|]; [|done].
  destruct (same_namespace from next api_type); simpl; [|done].
  destruct (fallback_raw_spec policy next api_type) as ([e|raw] & Ho & Hspec).
  { exists (inl e). split; [apply outcome_seq_log; by apply outcome_bind_error|by right]. }
  destruct (select_highest_priority (passing policy raw)) as [|c cs] eqn:Esel.
  - assert (Hnext : exists r, outcome (if is_exact_model_name next then mret [] else
        fallback_loop registry session_config rounds from next ({[current]} ∪ visited) api_type policy) r
      /\ match r with inl e => fallback_error e | inr cs => selection policy api_type cs end).
    { destruct (is_exact_model_name next); [done|apply IH]. }
    destruct Hnext as (r & Hor & Hr). exists r. split; [|done]. apply outcome_seq_log. eapply outcome_bind; [done|].
    eapply outcome_bind; [apply filter_traced_outcome|]. rewrite Esel. done.
  - exists (inr (c :: cs)). split; [|done]. apply outcome_seq_log. eapply outcome_bind; [done|].
    eapply outcome_bind; [apply filter_traced_outcome|]. rewrite Esel. simpl. apply outcome_seq_log, outcome_ret.
Qed.

Lemma resolve_fallback_spec from api_type policy :
  exists r, outcome (resolve_fallback registry session_config from api_type policy) r
    /\ match r with inl e => fallback_error e | inr cs => selection policy api_type cs end.
Proof using Hreg Hval.
  unfold resolve_fallback. destruct (rp_allow_fallback policy); cbn [negb]; [apply fallback_loop_spec|].
  exists (inr []). split; [apply outcome_ret|apply selection_nil].
Qed.

(** ** Requests *)

Lemma outcome_some {A} (m : tracing (Json := Json) A) r t : outcome m r ->
  exists x, m t = Some x /\ match r, x with inl e, inl e' => e = e' | inr a, inr (b, _) => a = b | _, _ => False end.
Proof. intros Hm. specialize (Hm t). destruct r as [e|a]; [by eexists|]. destruct Hm as [t' Hm]. by exists (inr (a, t')). Qed.

(** Every request is resolved: to candidates of the registry that its policy
    admits, at least one, or to an error. *)
Lemma resolve_spec (r : RouteRequest) :
  match resolve registry session_config r with
  | None => False
  | Some (inl e) => True
  | Some (inr (cs, _)) => cs <> [] /\ selection (rr_policy r) (rr_api_type r) cs
  end.
Proof using Hreg Hval.
  unfold resolve.
  enough (exists res, outcome (if is_exact_model_name (rr_model r) then resolve_exact_request registry session_config r
                               else resolve_logical_request registry session_config r) res
          /\ match res with inl e => True | inr cs => cs <> [] /\ selection (rr_policy r) (rr_api_type r) cs end)
    as (res & Ho & Hres).
  { destruct (outcome_some _ _ (initial_trace r) Ho) as (x & -> & Hx). destruct res, x as [|[]]; naive_solver. }
  destruct (resolve_fallback_spec (rr_model r) (rr_api_type r) (rr_policy r)) as (fb & Hfb & Hfspec).
  assert (Hlast : forall message, exists res,
    outcome (fallback ← resolve_fallback registry session_config (rr_model r) (rr_api_type r) (rr_policy r);
             if bool_decide (fallback = []) then throw NoCandidate message else mret fallback) res
    /\ match res with inl e => True | inr cs => cs <> [] /\ selection (rr_policy r) (rr_api_type r) cs end).
  { intros message. destruct fb as [e|cs]; [exists (inl e); split; [by apply outcome_bind_error|done]|].
    destruct (decide (cs = [])) as [->|Hne].
    - eexists (inl _). split; [eapply outcome_bind; [done|]; apply outcome_lift|done].
    - exists (inr cs). split; [|done]. eapply outcome_bind; [done|]. rewrite bool_decide_eq_false_2 by done. apply outcome_ret. }
  destruct (is_exact_model_name (rr_model r)).
  - unfold resolve_exact_request. destruct (exact_parse (rr_model r)) as [e|n].
    { exists (inl e). split; [|done]. apply outcome_bind_error, outcome_lift. }
    set (raw := resolve_exact_raw _ _ _ _).
    assert (Hf : outcome (fun t => let '(filtered, t) := apply_hard_filters registry raw (rr_policy r)
                           (log_counts (length raw) (tr_candidate_count_after_filter t) t) in
                         Some (inr (filtered, log_counts (tr_candidate_count_before_filter t) (length filtered) t)))
                  (inr (passing (rr_policy r) raw))).
    { intros t. pose proof (hard_filters_exact registry (rr_policy r) raw (log_counts (length raw) (tr_candidate_count_after_filter t) t)) as E.
      destruct (apply_hard_filters registry raw (rr_policy r) _) as [filtered t']. simpl in E. subst. eauto. }
    destruct (decide (passing (rr_policy r) raw = [])) as [E|Hne].
    + destruct (rp_allow_exact_model_fallback (rr_policy r)) eqn:Ea.
      * destruct (Hlast "exact model fallback produced no candidate") as (res & Hres & Hspec). exists res. split; [|done].
        eapply outcome_bind; [apply outcome_lift|]. eapply outcome_bind; [done|]. rewrite E. simpl. by rewrite ?Ea.
      * eexists (inl _). split; [|done]. eapply outcome_bind; [apply outcome_lift|]. eapply outcome_bind; [done|]. rewrite E. simpl.
        apply outcome_lift.
    + exists (inr (passing (rr_policy r) raw)). split.
      * eapply outcome_bind; [apply outcome_lift|]. eapply outcome_bind; [done|]. rewrite bool_decide_eq_false_2 by done. apply outcome_ret.
      * split; [done|].
        assert (Hone : forall c d, c ∈ raw -> d ∈ raw -> c = d).
        { unfold raw, resolve_exact_raw. destruct (exact_candidate _ _ _); set_solver. }
        split.
        -- apply Forall_forall. intros c [(? & _)%exact_raw_registered _]%elem_of_passing. done.
        -- apply Forall_forall. by intros c [_ ?]%elem_of_passing.
        -- apply passing_keys, exact_raw_keys.
        -- intros c d [Hc _]%elem_of_passing [Hd _]%elem_of_passing. rewrite (Hone c d Hc Hd).
           apply (cmp_refl weights_not_nan compare_priority). by apply exact_raw_registered in Hd as (_ & _ & ? & _).
  - unfold resolve_logical_request.
    destruct (resolve_logical_filtered_spec (rr_policy r) (rr_model r) (rr_api_type r)) as ([e|cs] & Ho & Hspec).
    { exists (inl e). split; [by apply outcome_bind_error|done]. }
    destruct (decide (cs = [])) as [->|Hne].
    + destruct (Hlast "no candidate after fallback") as (res & Hres & Hs). exists res. split; [|done]. by eapply outcome_bind.
    + exists (inr cs). split; [|by destruct Hspec]. eapply outcome_bind; [done|]. rewrite bool_decide_eq_false_2 by done. apply outcome_ret.
Qed.
End resolve.
