(* ===== verification/AiTheorems.v ===== *)
(** Properties of the choice of models: the candidates of a logical name, the
    index of exact names, what is selected; after the service of the examples. *)
From Stdlib Require Import ZArith Lia Ascii Sorted Permutation.
From stdpp Require Import base tactics numbers gmap strings sorting list relations.
From S2P Require Import Prelude RustString Lists WfJson AiTypes AiRegistry AiSession AiRouter AiRoute.
From S2P Require Import AiOrder AiRegistryFacts AiSessionFacts AiRouterFacts AiExpansion AiResolve.

(** ** The service of the examples *)

Module AiExample.
#[local] Existing Instance canonical_order.

Abbreviation Json := (WfJson.Value Z).

Definition caps : ModelCapabilities := mkCaps true true true true [] false (Some 128000) (Some 16384).
Definition health : ModelHealth := mkHealth Available None (Some 500) None None None QuotaNormal.
Definition model (provider name : string) (type : ProviderType) (mounts : list string) : ModelMetadata Json :=
  mkMetadata name (name +:+ "@" +:+ provider) provider None None None None [Llm] mounts caps
    (mkAttributes type (bool_decide (type = LocalInference)) PrivacyCloud None LatencyNormal CostMedium)
    (mkPricing "USD" None None None (Some f64_zero)) health.
Definition inventory (provider : string) (type : ProviderType) (models : list (ModelMetadata Json)) : ProviderInventory Json :=
  mkInventory provider type provider OriginSystemConfig SourceSystemConfig None None (Some "r1") 0 models.

Definition cloud : ProviderInventory Json := inventory "cloud" CloudApi [model "cloud" "gpt" CloudApi ["llm.chat"]].
Definition home : ProviderInventory Json := inventory "home" LocalInference [model "home" "qwen" LocalInference ["llm.chat"]].

Definition registry : ModelRegistry Json := (apply_inventory home (apply_inventory cloud new_registry).1).1.

Definition estimate (i : CostEstimateInput) : CostEstimateOutput := mkEstimate f64_zero PerToken QuotaNormal f64_one (Some 400).
Definition providers : gmap string (Provider (Number := Z)) :=
  {[ "cloud" := mkProvider cloud estimate; "home" := mkProvider home estimate ]}.

(** The configuration of a house that keeps to itself, and the node of an
    overlay that has a policy of its own for chats. *)
Definition locked_local : PolicyConfig := mkPolicyConfig None None (Some (mkLocked true true)) None None None None None None None.
Definition open_again : PolicyConfig := mkPolicyConfig None None (Some (mkLocked false false)) None None None None None None None.
Definition at_home : SessionConfig := set_policy default_config locked_local.
Definition chat_node : LogicalNode := mkNode [] None None None ∅ None None (Some open_again) None.
Definition overlay : SessionConfig := set_tree default_config [("llm", with_child "chat" chat_node)].

Definition service (registry : ModelRegistry Json) (config : SessionConfig) : ServiceState Z :=
  mkService registry providers config ∅ (mkCatalog ∅ ∅).
Definition chat (alias : string) (overlay : option SessionConfig) : AiMethodRequest Z :=
  mkMethodRequest CapLlm alias (mkRequirements no_requirement [] None None None) no_requirement None 10 100
    ((fun o => inr o) <$> overlay).

Definition as_u64 (n : Z) : option Z := if (0 <=? n) && (n <=? u64_max) then Some n else None.

(** The models a request for a name is routed to, in order. *)
Definition routed_to (registry : ModelRegistry Json) (config : SessionConfig) (alias : string) (overlay : option SessionConfig)
  : option (string + list string) :=
  match route_with as_u64 (service registry config) "tenant" Llm (chat alias overlay) 2 "task-1" with
  | None => None
  | Some (inl e) => Some (inl e)
  | Some (inr d) => Some (inr (ra_exact_model <$> rd_attempts d))
  end.
End AiExample.

(** ** Names *)

(** Names of models round trip: a well-formed pair of a model and a provider
    is printed to a name that parses to it, and whatever parses is well formed
    and prints to the name it was parsed from. *)
Theorem exact_name_roundtrip n s :
  (trim (provider_model_id n) <> "" -> is_valid_provider_instance_name (provider_instance_name n) = true ->
   exact_parse (exact_as_string n) = inr n)
  /\ (exact_parse s = inr n ->
      exact_as_string n = s /\ is_exact_model_name s = true /\ trim (provider_model_id n) <> ""
      /\ is_valid_provider_instance_name (provider_instance_name n) = true).
Proof.
  split; [apply exact_parse_as_string|]. intros Hp. pose proof (exact_parse_is_exact _ _ Hp).
  apply exact_parse_inr in Hp as (-> & ? & ?). done.
Qed.

(** ** The registry *)

Section registry.
Context {Json : Type} `{HashOrder}.
Implicit Types (r : ModelRegistry Json).

(** The states of the registry: what its operations lead to. *)
Inductive reachable : ModelRegistry Json -> Prop :=
| reach_new : reachable new_registry
| reach_apply i r : reachable r -> reachable (apply_inventory i r).1
| reach_remove name r : reachable r -> reachable (remove_inventory name r).1
| reach_clear r : reachable r -> reachable (clear r)
| reach_refresh hook source r : reachable r -> reachable (refresh_once hook source r).1
| reach_definitions definitions r : reachable r -> reachable (set_logical_definitions definitions r).1.

Lemma apply_all_invariant source r n :
  registry_ok r ->
  registry_ok (fold_left (fun (rc : ModelRegistry Json * nat) inventory =>
               let '(r, changed) := rc in
               match apply_inventory_if_changed inventory r with
               | (r, inr true) => (r, S changed)
               | (r, _) => (r, changed)
               end) source (r, n)).1.
Proof.
  revert r n. induction source as [|i source IH]; intros r n Hr; simpl; [done|].
  pose proof (apply_inventory_ok i r Hr) as Ha. destruct (apply_inventory_if_changed i r) as [r1 res].
  destruct Ha as (Hr1 & _ & _). destruct res as [|[]]; by apply IH.
Qed.

Lemma refresh_invariant hook source r : registry_ok r -> registry_ok (refresh_once hook source r).1.
Proof.
  intros Hr. unfold refresh_once. pose proof (apply_all_invariant source r 0%nat Hr) as Ha. fold (apply_all source r) in Ha.
  assert (Hgo : forall active, registry_ok (let '(r, changed) := apply_all source r in
    let '(r, changed) := remove_all (stale_providers active r) (r, changed) in (r, inr changed : routed nat)).1).
  { intros active. destruct (apply_all source r) as [r1 n1]. simpl in Ha.
    destruct (remove_all_ok (stale_providers active r1) r1 n1 Ha) as (Hr2 & _). by destruct (remove_all _ _). }
  destruct hook as [[e|]|]; [done|apply Hgo..].
Qed.

Lemma reachable_registry_ok r : reachable r -> registry_ok r.
Proof.
  induction 1 as [|i r _ IH|name r _ IH|r _ IH|hook source r _ IH|definitions r _ IH].
  - apply new_registry_ok.
  - pose proof (apply_inventory_ok i r IH) as Ha. unfold apply_inventory. by destruct (apply_inventory_if_changed i r), Ha.
  - destruct (remove_inventory_ok name r IH) as (idx & -> & Hok). done.
  - destruct (new_registry_ok (Json := Json)) as [H1 H2]. by split.
  - by apply refresh_invariant.
  - by apply set_logical_definitions_ok.
Qed.

(** C24: after any changes, a name and a type find a model exactly when the
    inventory of a provider in the registry declares it so, and the candidate
    found is that model at that provider; a provider is removed without an
    error, and no inventory stands in the way of another: a valid one that is
    newer than the one there is taken. *)
Theorem registry_index_exact r :
  reachable r ->
  (forall name api_type c, exact_candidate r name api_type = Some c <->
     exists provider i m, inventories r !! provider = Some i /\ m ∈ pi_models i /\ mm_exact_model m = name
       /\ api_type ∈ mm_api_types m
       /\ c = mkCandidate name (mm_provider_model_id m) provider api_type m None [] f64_one f64_one [] None)
  /\ (forall provider, (remove_inventory provider r).2 = inr tt)
  /\ forall i, inventory_ok (fill_drivers i) ->
       from_option (not_newer (fill_drivers i)) false (inventories r !! pi_provider_instance_name i) = false ->
       (apply_inventory i r).2 = inr tt
       /\ inventories (apply_inventory i r).1 = <[pi_provider_instance_name i := fill_drivers i]> (inventories r).
Proof.
  intros Hr%reachable_registry_ok. pose proof Hr as [_ Hidx]. split_and!.
  - intros name api_type c. unfold exact_candidate. rewrite (Hidx (name, api_type) c). simpl.
    split; intros (k & i & m & H1 & H2 & H3 & H4 & ->); exists k, i, m; naive_solver.
  - intros provider. destruct (remove_inventory_ok provider r Hr) as (idx & -> & _). done.
  - intros i Hi Hn. unfold apply_inventory. pose proof (apply_inventory_ok i r Hr) as Ha.
    destruct (apply_inventory_if_changed i r) as [r1 res]. simpl. destruct Ha as (_ & _ & [(_ & -> & ->)|(Ht & _)]); [done|].
    destruct Ht. by split.
Qed.

(** A refresh leaves of every provider the source lists its inventory, if
    it is valid and newer than the one there, or what was there; and nothing of
    the providers the source does not list. *)
Theorem registry_refresh_exact source r :
  reachable r -> NoDup (pi_provider_instance_name <$> source) ->
  let r' := (refresh_once None source r).1 in
  forall provider,
    (provider ∉ pi_provider_instance_name <$> source -> inventories r' !! provider = None)
    /\ forall i, i ∈ source -> pi_provider_instance_name i = provider ->
         let old := inventories r !! provider in
         inventory_ok (fill_drivers i) /\ from_option (not_newer (fill_drivers i)) false old = false
           /\ inventories r' !! provider = Some (fill_drivers i)
         \/ ~ (inventory_ok (fill_drivers i) /\ from_option (not_newer (fill_drivers i)) false old = false)
           /\ inventories r' !! provider = old.
Proof.
  intros Hr%reachable_registry_ok Hnd. cbn zeta.
  destruct (refresh_once None source r) as [r' res] eqn:E. simpl.
  destruct (refresh_once_ok None source r r' res Hr Hnd ltac:(done) E) as (_ & _ & _ & Hin & Hout).
  intros provider. split; [apply Hout|]. intros i Hi <-. specialize (Hin i Hi). unfold takes in Hin. simpl in Hin. naive_solver.
Qed.

(** ** Logical names *)

Context (r : ModelRegistry Json) (session_config : SessionConfig).

(** C10: the expansion of a logical name always ends.  It fails when the items
    it goes through lead from a name back to it, and only then; otherwise it
    finds each model that they lead to once, by a route no other route to the
    model has priority over. *)
Theorem expansion_exact path api_type :
  reachable r -> validate session_config = inr tt ->
  exists res, outcome (resolve_logical_raw r session_config path api_type) res
  /\ match res with
     | inl e => err_code e = LogicalTreeLoop
       /\ exists p, rtc (leads r session_config) path p /\ tc (leads r session_config) p p
     | inr cs => (forall p, rtc (leads r session_config) path p -> ~ tc (leads r session_config) p p)
       /\ NoDup (candidate_key <$> cs)
       /\ (forall c, c ∈ cs -> exists c0, route r session_config path api_type path [] c0 /\ same_route c c0)
       /\ forall c0, route r session_config path api_type path [] c0 ->
            exists c, c ∈ cs /\ candidate_key c = candidate_key c0 /\ compare_priority c0 c <> Gt
     end.
Proof.
  intros Hr%reachable_registry_ok Hv. destruct (resolve_raw_spec r session_config Hr Hv path api_type) as (res & Ho & Hs).
  exists res. split; [done|]. destruct res as [e|cs].
  - destruct Hs as (-> & p & Hp & [Hin|Ht]); [set_solver|]. split; [done|]. by exists p.
  - destruct Hs as (Hno & Hs). split; [|done]. intros p Hp Ht. apply Hno. exists p. auto.
Qed.

(** C20: of the models a logical name expands to, a request gets those that its
    policy admits and that no other model it admits comes before, where models
    of different branches are compared as those of one: by the weights along
    their routes, level by level, then by the weight of the model.  Section 10.4
    of the design document compares the weights below a branch with each other
    only, and keeps all branches of the same weight: [tie_broken_below] is a
    configuration where the code keeps one. *)
Theorem logical_choice_exact path api_type policy :
  reachable r -> validate session_config = inr tt ->
  (exists e, outcome (resolve_logical_filtered r session_config path api_type policy) (inl e) /\ err_code e = LogicalTreeLoop)
  \/ exists raw cs, outcome (resolve_logical_raw r session_config path api_type) (inr raw)
     /\ outcome (resolve_logical_filtered r session_config path api_type policy) (inr cs)
     /\ (forall c, c ∈ cs <-> c ∈ raw /\ admissible r policy c
           /\ forall d, d ∈ raw -> admissible r policy d -> ~ outranks d c)
     /\ (cs = [] <-> forall d, d ∈ raw -> ~ admissible r policy d).
Proof.
  intros Hr%reachable_registry_ok Hv. destruct (resolve_raw_spec r session_config Hr Hv path api_type) as ([e|raw] & Ho & Hs).
  - left. exists e. split; [by apply outcome_bind_error|]. by destruct Hs as [-> _].
  - right. exists raw, (select_highest_priority (passing r policy raw)).
    destruct (raw_selection r session_config Hr Hv policy path api_type raw Hs) as [Hw _].
    assert (Hpw : Forall weights_not_nan (passing r policy raw)).
    { rewrite Forall_forall in Hw |- *. intros c [Hc _]%elem_of_passing. auto. }
    split; [done|]. split; [|split].
    + eapply outcome_bind; [done|]. apply outcome_seq_log. eapply outcome_bind; [apply filter_traced_outcome|].
      eapply outcome_bind; [|apply outcome_ret]. case_bool_decide; [apply outcome_ret|apply outcome_log].
    + intros c. rewrite select_highest_spec, Forall_forall, elem_of_passing by done. setoid_rewrite elem_of_passing.
      setoid_rewrite <- compare_priority_gt. naive_solver.
    + rewrite select_highest_nil by done. split.
      * intros E d Hd Ha. assert (Hin : d ∈ passing r policy raw) by by apply elem_of_passing. rewrite E in Hin. set_solver.
      * intros Hno. destruct (passing r policy raw) as [|d l] eqn:E; [done|].
        destruct (Hno d); apply (elem_of_passing r policy raw d); rewrite E; by left.
Qed.
End registry.

(** ** Examples *)

Module Examples.
#[local] Existing Instance canonical_order.
Import AiExample.

Lemma registry_reachable : reachable registry.
Proof. do 2 apply reach_apply. apply reach_new. Qed.

Lemma exact_name_roundtrip_witness :
  exact_parse (exact_as_string (mkExact "gpt" "cloud")) = inr (mkExact "gpt" "cloud")
  /\ exact_as_string (mkExact "gpt" "cloud") = "gpt@cloud".
Proof.
  destruct (exact_name_roundtrip (mkExact "gpt" "cloud") "gpt@cloud") as [H1 H2]. split.
  - apply H1; [by vm_compute|reflexivity].
  - by apply H2.
Defined.

Lemma registry_index_exact_witness : exists c, exact_candidate registry "gpt@cloud" Llm = Some c /\ ca_provider_instance_name c = "cloud".
Proof.
  exists (mkCandidate "gpt@cloud" "gpt" "cloud" Llm (model "cloud" "gpt" CloudApi ["llm.chat"]) None [] f64_one f64_one [] None).
  split; [|reflexivity]. apply (proj1 (registry_index_exact registry registry_reachable) "gpt@cloud" Llm).
  exists "cloud", cloud, (model "cloud" "gpt" CloudApi ["llm.chat"]).
  split; [reflexivity|]. split; [by left|]. split; [reflexivity|]. split; [by left|reflexivity].
Defined.

Lemma registry_refresh_exact_witness : inventories (refresh_once None [home] registry).1 !! "cloud" = None.
Proof.
  apply (registry_refresh_exact [home] registry registry_reachable ltac:(repeat constructor; set_solver) "cloud"). set_solver.
Defined.

Lemma expansion_exact_witness :
  validate at_home = inr tt /\
  exists res, outcome (resolve_logical_raw registry at_home "llm.chat" Llm) res.
Proof.
  split; [reflexivity|].
  destruct (expansion_exact registry at_home "llm.chat" Llm registry_reachable ltac:(reflexivity)) as (res & Ho & _). by exists res.
Defined.

(** Two branches of the same weight, and a weight below the first of them. *)
Definition items (l : list (string * ModelItem)) : LogicalNode := mkNode [] None (Some (list_to_map l)) None ∅ None None None None.
Definition branches (below : float) : SessionConfig :=
  set_tree default_config
    [("llm", mkNode
       [("plan", items [("left", mkItem "llm.left" f64_one); ("right", mkItem "llm.right" f64_one)]);
        ("left", items [("gpt", mkItem "gpt@cloud" below)]);
        ("right", items [("qwen", mkItem "qwen@home" f64_one)])] None None None ∅ None None None None)].

(** A weight inside one of two branches of the same weight takes the other
    branch out of the choice. *)
Theorem tie_broken_below :
  routed_to registry (branches f64_one) "llm.plan" None = Some (inr ["gpt@cloud"; "qwen@home"])
  /\ routed_to registry (branches (f64_of_Z 5)) "llm.plan" None = Some (inr ["gpt@cloud"]).
Proof. vm_compute. auto. Qed.

Lemma logical_choice_exact_witness :
  (exists e, outcome (resolve_logical_filtered registry at_home "llm.chat" Llm default_route_policy) (inl e))
  \/ exists cs, outcome (resolve_logical_filtered registry at_home "llm.chat" Llm default_route_policy) (inr cs).
Proof.
  destruct (logical_choice_exact registry at_home "llm.chat" Llm default_route_policy registry_reachable ltac:(reflexivity))
    as [(e & He & _)|(raw & cs & _ & Hcs & _)]; [left; by exists e|right; by exists cs].
Defined.
End Examples.
