(* ===== verification/AiRouteTheorems.v ===== *)
(** The properties of routing as a whole: the score that decides, the attempts
    of a decision, and locked policies. *)
From Stdlib Require Import ZArith Lia Ascii Sorted Permutation SpecFloat.
From stdpp Require Import base tactics numbers gmap strings sorting list relations.
From S2P Require Import Prelude RustString Lists WfJson AiTypes AiRegistry AiSession AiRouter AiRoute.
From S2P Require Import AiOrder AiRegistryFacts AiSessionFacts AiRouterFacts AiExpansion AiResolve AiTheorems.

(** ** The score *)

(** Between zero and one, or not a number. *)
Definition unit_or_nan (x : float) : bool := is_nan x || f64_leb f64_zero x && f64_leb x f64_one.

Lemma f64_leb_ltb x y : is_nan x = false -> is_nan y = false -> f64_ltb x y = false -> f64_leb y x = true.
Proof.
  intros Hx Hy. unfold f64_ltb, f64_leb. rewrite !SFcompare_key, Hx, Hy. simpl. rewrite (key_compare_antisym (float_key x)).
  by destruct (key_compare (float_key x) (float_key y)).
Qed.

Lemma clamp_unit x : unit_or_nan (f64_clamp x f64_zero f64_one) = true.
Proof.
  unfold unit_or_nan, f64_clamp. destruct (is_nan x) eqn:Hx.
  { destruct x; try done. }
  destruct (f64_ltb x f64_zero) eqn:H0; [done|]. destruct (f64_ltb f64_one x) eqn:H1; [done|].
  rewrite Hx. simpl. by rewrite (f64_leb_ltb x f64_zero), (f64_leb_ltb f64_one x).
Qed.

Lemma normalize_unit x r : unit_or_nan (normalize x r) = true.
Proof. unfold normalize. destruct (f64_ltb _ _); [done|apply clamp_unit]. Qed.

(** The least of a list by a score. *)
Lemma min_by_fmap {A B} (mk : A -> B) cmp l : min_by cmp (mk <$> l) = mk <$> min_by (fun x y => cmp (mk x) (mk y)) l.
Proof.
  destruct l as [|x l]; simpl; [done|]. f_equal. revert x. induction l as [|y l IH]; intros x; simpl; [done|].
  rewrite <- IH. by destruct (cmp (mk x) (mk y)).
Qed.

Lemma min_by_in {A} (cmp : A -> A -> comparison) l x : min_by cmp l = Some x -> x ∈ l.
Proof.
  destruct l as [|y l]; simpl; [done|]. intros [= <-]. revert y. induction l as [|z l IH]; intros y; simpl; [by left|].
  specialize (IH (match cmp y z with Gt => z | _ => y end)).
  apply elem_of_cons in IH as [->|IH]; [destruct (cmp y z); [by left|by left|right; by left]|by do 2 right].
Qed.

Lemma min_by_score {A} (score : A -> float) l x :
  min_by (fun x y => f64_cmp (score x) (score y)) l = Some x -> Forall (fun y => not_nan (score y)) l ->
  Forall (fun y => f64_cmp (score x) (score y) <> Gt) l.
Proof.
  intros E Hl. assert (HT : TotalCompare (fun y => not_nan (score y)) (fun x y => f64_cmp (score x) (score y))).
  { split; intros.
    - by apply (cmp_antisym (P := not_nan) (cmp := f64_cmp)).
    - by apply (cmp_eq (P := not_nan) (cmp := f64_cmp)).
    - by eapply (cmp_lt (P := not_nan) (cmp := f64_cmp)); [| | |eassumption|]. }
  by destruct (min_by_spec _ _ _ x Hl E).
Qed.

Section scheduler.
Context {Json : Type}.
Implicit Types (c : ModelCandidate Json) (policy : RoutePolicy).

(** The score of a candidate among others. *)
Definition score_among policy (candidates : list (ModelCandidate Json)) c : float :=
  score_of (policy_weights policy) (score_inputs candidates c).

Definition scored_among policy (candidates : list (ModelCandidate Json)) c : ScoredCandidate :=
  mkScored c (score_among policy candidates c) (score_inputs candidates c).

Lemma score_candidates_map candidates policy : score_candidates candidates policy = scored_among policy candidates <$> candidates.
Proof. unfold score_candidates, scored_among, score_among. cbn zeta. reflexivity. Qed.

(** What is selected is the first of the least. *)
Lemma schedule_min (candidates : list (ModelCandidate Json)) policy :
  sr_selected <$> schedule candidates policy =
  min_by (fun x y => f64_cmp (score_among policy candidates x) (score_among policy candidates y)) candidates.
Proof.
  unfold schedule. rewrite score_candidates_map, min_by_fmap. set (score := score_among policy candidates).
  change (fun x y => compare_scores (scored_among policy candidates x) (scored_among policy candidates y))
    with (fun x y => f64_cmp (score x) (score y)).
  by destruct (min_by _ _).
Qed.

Lemma schedule_selected (candidates : list (ModelCandidate Json)) policy s :
  schedule candidates policy = Some s -> sr_selected s ∈ candidates.
Proof. intros E. pose proof (schedule_min candidates policy) as Hm. rewrite E in Hm. by eapply min_by_in. Qed.

Lemma score_inputs_unit candidates c :
  let inputs := score_inputs candidates c in
  Forall (fun x => unit_or_nan x = true) [si_cost inputs; si_latency inputs; si_reliability inputs; si_quality inputs;
                                          si_preference inputs; si_cache inputs; si_local inputs].
Proof. repeat constructor; try apply normalize_unit. simpl. unfold local_penalty. by case_bool_decide. Qed.

(** With candidates to choose from, one is chosen.  What makes up its score
    is between zero and one, each part (or not a number); and if the scores
    are numbers, no candidate has a lower one. *)
Theorem schedule_least (candidates : list (ModelCandidate Json)) policy :
  candidates <> [] ->
  exists s, schedule candidates policy = Some s
  /\ sr_selected s ∈ candidates
  /\ Forall (fun c => let inputs := score_inputs candidates c in
       Forall (fun x => unit_or_nan x = true) [si_cost inputs; si_latency inputs; si_reliability inputs; si_quality inputs;
                                               si_preference inputs; si_cache inputs; si_local inputs]) candidates
  /\ (Forall (fun c => not_nan (score_among policy candidates c)) candidates ->
      Forall (fun c => f64_cmp (score_among policy candidates (sr_selected s)) (score_among policy candidates c) <> Gt) candidates).
Proof.
  intros Hne. pose proof (schedule_min candidates policy) as Hm. destruct (schedule candidates policy) as [s|] eqn:E.
  2:{ symmetry in Hm. by apply min_by_None in Hm. }
  exists s. split; [reflexivity|]. split; [by eapply schedule_selected|]. split.
  - apply Forall_true. intros c. apply score_inputs_unit.
  - intros Hn. by apply min_by_score.
Qed.
End scheduler.

(** ** Attempts *)

Section route.
Context {Number : Type} (number_as_u64 : Number -> option Z) `{HashOrder}.
Abbreviation Json := (WfJson.Value Number).
Implicit Types (s : ServiceState Number) (request : AiMethodRequest Number) (c : ModelCandidate Json).

Lemma failover_attempts_spec (attempt : ModelCandidate Json -> RouteAttempt (Number := Number)) selected limit attempts candidates :
  (length attempts <= S limit)%nat ->
  exists extra, failover_attempts attempt selected limit attempts candidates = attempts ++ (attempt <$> extra)
  /\ extra `sublist_of` candidates /\ Forall (fun c => ca_exact_model c <> selected) extra
  /\ (length attempts + length extra <= S limit)%nat.
Proof.
  revert attempts. induction candidates as [|c candidates IH]; intros attempts Hlen; simpl.
  { exists []. rewrite app_nil_r. split_and!; [done|constructor|constructor|simpl; lia]. }
  destruct (String.eqb_spec (ca_exact_model c) selected) as [|Hne].
  { destruct (IH attempts Hlen) as (extra & E & Hs & Hf & Hl). exists extra. split_and!; [done|by constructor|done|done]. }
  destruct (Nat.ltb_spec limit (length attempts)).
  { exists []. rewrite app_nil_r. split_and!; [done|apply sublist_nil_l|constructor|simpl; lia]. }
  destruct (IH (attempts ++ [attempt c])) as (extra & E & Hs & Hf & Hl); [rewrite length_app; simpl; lia|].
  exists (c :: extra). rewrite E, <- app_assoc. split_and!; [done|by constructor|by constructor|].
  rewrite length_app in Hl. simpl in *. lia.
Qed.

Lemma attempt_exact s tenant_id request c : ra_exact_model (attempt_of s tenant_id request c) = ca_exact_model c.
Proof. unfold attempt_of. by destruct (provider_call _ _ _ _). Qed.
Lemma attempt_instance s tenant_id request c : ra_instance_id (attempt_of s tenant_id request c) = ca_provider_instance_name c.
Proof. unfold attempt_of. by destruct (provider_call _ _ _ _). Qed.
Lemma estimate_exact s tenant_id request c : ca_exact_model (dynamic_cost_estimate s tenant_id request c) = ca_exact_model c.
Proof. unfold dynamic_cost_estimate. by destruct (_ !! _). Qed.

(** What a decision may try for a request: a model of the registry that the
    policy admits, within its budget by what the provider estimates now. *)
Definition permitted s tenant_id request policy api_type (a : RouteAttempt (Number := Number)) : Prop :=
  exists c, registered (ss_registry s) api_type c /\ admissible (ss_registry s) policy c
  /\ within_budget policy (dynamic_cost_estimate s tenant_id request c) = true
  /\ a = attempt_of s tenant_id request (dynamic_cost_estimate s tenant_id request c).

Lemma selection_models policy api_type (cs : list (ModelCandidate Json)) registry :
  selection registry policy api_type cs -> NoDup (ca_exact_model <$> cs).
Proof.
  intros [Hr _ Hnd _]. rewrite Forall_forall in Hr. revert Hnd Hr. induction cs as [|c cs IH]; simpl; [constructor|].
  intros [Hc Hnd]%NoDup_cons Hr. apply NoDup_cons. split; [|apply IH; [done|set_solver]].
  intros (d & E & Hd)%list_elem_of_fmap. apply Hc. apply list_elem_of_fmap. exists d. split; [|done]. unfold candidate_key.
  destruct (Hr c ltac:(by left)) as [-> _], (Hr d ltac:(by right)) as [-> _]. by rewrite E.
Qed.

Lemma decide_route_permitted s tenant_id request limit session_config policy api_type candidates t d :
  selection (ss_registry s) policy api_type candidates ->
  decide_route s tenant_id request limit session_config policy candidates t = inr d ->
  Forall (permitted s tenant_id request policy api_type) (rd_attempts d)
  /\ NoDup (ra_exact_model <$> rd_attempts d)
  /\ ra_instance_id <$> rd_attempts d = rd_primary_instance_id d :: rd_fallback_instance_ids d
  /\ (length (rd_attempts d) <= if rp_runtime_failover policy then S limit else 1)%nat.
Proof.
  intros Hsel. pose proof (selection_models _ _ _ _ Hsel) as Hmodels. destruct Hsel as [Hreg Had _ _]. unfold decide_route.
  set (ests := apply_dynamic_cost_estimates s tenant_id request candidates).
  unfold apply_dynamic_budget_filters. set (kept := List.filter (within_budget policy) ests).
  destruct (bool_decide (kept = []) && _); [done|]. simpl.
  destruct (schedule kept policy) as [scheduled|] eqn:Es; [|done]. apply schedule_selected in Es. intros [= <-]. simpl.
  set (first := attempt_of s tenant_id request (sr_selected scheduled)).
  assert (Hperm : forall c, c ∈ kept -> permitted s tenant_id request policy api_type (attempt_of s tenant_id request c)).
  { intros c [Hw Hc]%elem_of_filterb. apply list_elem_of_fmap in Hc as (c0 & -> & Hc0).
    rewrite Forall_forall in Hreg, Had. exists c0. auto. }
  assert (Hkept : NoDup (ca_exact_model <$> kept)).
  { eapply sublist_NoDup; [|apply fmap_sublist, filterb_sublist]. unfold ests, apply_dynamic_cost_estimates.
    rewrite <- list_fmap_compose. erewrite list_fmap_ext; [exact Hmodels|]. intros. apply estimate_exact. }
  assert (Hatt : exists extra, (if rp_runtime_failover policy then
        failover_attempts (attempt_of s tenant_id request) (ca_exact_model (sr_selected scheduled)) limit [first] kept else [first])
      = first :: (attempt_of s tenant_id request <$> extra) /\ extra `sublist_of` kept
      /\ Forall (fun c => ca_exact_model c <> ca_exact_model (sr_selected scheduled)) extra
      /\ (S (length extra) <= if rp_runtime_failover policy then S limit else 1)%nat).
  { destruct (rp_runtime_failover policy).
    - destruct (failover_attempts_spec (attempt_of s tenant_id request) (ca_exact_model (sr_selected scheduled)) limit [first] kept)
        as (extra & E & ? & ? & ?); [simpl; lia|]. exists extra. split_and!; done.
    - exists []. split_and!; [done|apply sublist_nil_l|constructor|done]. }
  destruct Hatt as (extra & -> & Hsub & Hother & Hlen). split_and!.
  - constructor; [by apply Hperm|]. apply Forall_fmap, Forall_forall. intros c Hc. apply Hperm.
    eapply elem_of_submseteq; [exact Hc|]. by apply sublist_submseteq.
  - simpl. rewrite <- list_fmap_compose. unfold first. rewrite attempt_exact. apply NoDup_cons. split.
    + rewrite Forall_forall in Hother. intros (c & E & Hc)%list_elem_of_fmap. simpl in E. rewrite attempt_exact in E.
      by eapply Hother.
    + erewrite list_fmap_ext; [eapply sublist_NoDup; [exact Hkept|by apply fmap_sublist]|]. intros. apply attempt_exact.
  - simpl. unfold first. by rewrite attempt_instance.
  - simpl. by rewrite length_fmap.
Qed.

Lemma request_config_kept global request effective :
  resolve_request_session_config global request = inr effective ->
  locks_kept (sc_policy global) (sc_policy (ec_config effective)) /\ validate (ec_config effective) = inr tt.
Proof.
  unfold resolve_request_session_config. intros (config & Hc & E)%routed_bind_inr. apply routed_seq_inr in E as (_ & E).
  apply effective_config_kept in E as [Hk Hv]. split; [|done]. eapply locks_kept_trans; [|done].
  destruct (am_session_overlay request) as [overlay|]; [|injection Hc as <-; apply locks_kept_refl].
  apply routed_bind_inr in Hc as (o & _ & Hc). apply routed_seq_inr in Hc as (_ & Hc). by eapply merge_session_kept.
Qed.

(** C9: a request with any registry the service can have is routed to an answer:
    an error, or a decision.  What a decision has providers try, first and as
    fallback, are different models of the registry as it is now, as many as the
    limit allows; each is declared for the kind of request, up, has the
    features required, and is local, allowed, not blocked, and within cost and
    latency as the policy of the request asks. *)
Theorem attempts_within_policy hook source s tenant_id method request limit request_id :
  reachable (ss_registry s) ->
  let '(s', res) := route_request number_as_u64 hook source s tenant_id method request limit request_id in
  res <> None /\
  forall d, res = Some (inr d) ->
    exists api_type effective, api_type_for_method method = Some api_type
    /\ resolve_request_session_config (ss_session_config s) request = inr effective
    /\ let policy := effective_policy number_as_u64 request (ec_config effective) limit in
       Forall (permitted s' tenant_id request policy api_type) (rd_attempts d)
       /\ NoDup (ra_exact_model <$> rd_attempts d)
       /\ ra_instance_id <$> rd_attempts d = rd_primary_instance_id d :: rd_fallback_instance_ids d
       /\ (length (rd_attempts d) <= if rp_runtime_failover policy then S limit else 1)%nat.
Proof.
  intros Hr. unfold route_request. destruct (api_type_for_method method) as [api_type|]; [|by split].
  destruct (bool_decide (capability_for_method method = _)); simpl; [|by split].
  set (s' := with_registry s _). assert (Hreg : registry_ok (ss_registry s')).
  { by apply reachable_registry_ok, reach_refresh. }
  unfold route_with. change (ss_session_config s') with (ss_session_config s).
  destruct (resolve_request_session_config (ss_session_config s) request) as [e|effective] eqn:Ee; simpl; [by split|].
  set (policy := effective_policy number_as_u64 request (ec_config effective) limit).
  destruct (request_config_kept _ _ _ Ee) as [_ Hv].
  pose proof (resolve_spec (ss_registry s') (ec_config effective) Hreg Hv
    (mkRequest request_id api_type (am_model_alias request) policy (ec_overlay_trace effective))) as Hspec.
  destruct (resolve _ _ _) as [[e|[candidates t]]|]; simpl in *; [by split| |by destruct Hspec]. split; [done|]. intros d [= Hd].
  destruct Hspec as [_ Hsel]. exists api_type, effective. split; [done|]. split; [done|]. by eapply decide_route_permitted.
Qed.

(** A field of the policy that the service's configuration locks keeps its
    value in the configuration that a request is routed by, whatever overlay
    and profiles it brings; and where the node of the requested name has no
    policy of its own, the request is routed by that value. *)
Theorem locked_policy_kept global request effective limit local_only :
  resolve_request_session_config global request = inr effective ->
  locks_kept (sc_policy global) (sc_policy (ec_config effective))
  /\ (pc_local_only (sc_policy global) = Some (mkLocked local_only true) ->
      from_option (fun n => ln_policy n = None /\ ln_route_policy_override n = None) True
        (node (ec_config effective) (am_model_alias request)) ->
      rp_local_only (effective_policy number_as_u64 request (ec_config effective) limit) = local_only).
Proof.
  intros [Hk _]%request_config_kept. split; [done|]. intros Hl Hn.
  assert (E : pc_local_only (sc_policy (ec_config effective)) = Some (mkLocked local_only true)).
  { rewrite <- Hl. apply (kept_local_only _ _ Hk). by rewrite Hl. }
  unfold effective_policy. set (p := apply_policy_config_to_route_policy _ _).
  assert (Hp : rp_local_only p = local_only) by (unfold p; simpl; by rewrite E).
  assert (Hnode : rp_local_only (apply_logical_node_policy_override (ec_config effective) (am_model_alias request) p) = local_only).
  { unfold apply_logical_node_policy_override. destruct (is_exact_model_name _); [done|].
    destruct (node _ _) as [n|]; [|done]. by destruct Hn as [-> ->]. }
  by destruct (limit =? 0)%nat.
Qed.
End route.

(** ** Examples *)

Module Examples.
#[local] Existing Instance canonical_order.
Import AiExample.

Definition choices : list (ModelCandidate Json) :=
  match resolve registry at_home (mkRequest "task-1" Llm "llm.chat" default_route_policy []) with
  | Some (inr (candidates, _)) => candidates
  | _ => []
  end.

Lemma schedule_least_witness : exists s, schedule choices default_route_policy = Some s.
Proof.
  destruct (schedule_least choices default_route_policy ltac:(by vm_compute)) as (s & Hs & _). by exists s.
Defined.

Lemma attempts_within_policy_witness :
  (route_request as_u64 None [cloud; home] (service registry at_home) "tenant" "llm.chat" (chat "llm.chat" None) 2 "task-1").2 <> None.
Proof.
  pose proof (attempts_within_policy as_u64 None [cloud; home] (service registry at_home) "tenant" "llm.chat" (chat "llm.chat" None) 2
                "task-1" AiTheorems.Examples.registry_reachable) as Hw.
  destruct (route_request _ _ _ _ _ _ _ _ _) as [s' res]. by destruct Hw as [Hw _].
Defined.

Definition at_home_now : EffectiveSessionConfig := mkEffective at_home [].

Lemma locked_policy_kept_witness :
  rp_local_only (effective_policy as_u64 (chat "llm.chat" None) at_home 2) = true.
Proof.
  destruct (locked_policy_kept as_u64 at_home (chat "llm.chat" None) at_home_now 2 true ltac:(reflexivity)) as [_ Hl].
  by apply Hl.
Defined.
End Examples.
