(* ===== verification/AiBuiltin.v ===== *)
(** The configuration built into the service ([frame/aicc/src/default_logical_tree.rs]):
    the logical names it defines and the items that lead from the names for
    purposes to the names of families of models.  No name runs into a loop with
    it; and what the router makes of its locks and of its fallback rules. *)
From Stdlib Require Import ZArith Lia Ascii Sorted Permutation.
From stdpp Require Import base tactics numbers gmap strings sorting list relations.
From S2P Require Import Prelude RustString Lists WfJson AiTypes AiRegistry AiSession AiRouter AiRoute.
From S2P Require Import AiTheorems AiOrder AiRegistryFacts AiSessionFacts AiRouterFacts AiExpansion AiResolve.
From S2P Require Import AiTheorems AiRouteTheorems.

Definition DEFAULT_LOGICAL_TREE_REVISION : string := "builtin-aicc-router-v4".

(** ** Templates *)

Inductive FallbackPreset := PresetParent | PresetStrict | PresetDisabled.

Definition fallback_to_rule (preset : FallbackPreset) : FallbackRule :=
  match preset with
  | PresetParent => parent_rule
  | PresetStrict => mkRule FbStrict None
  | PresetDisabled => mkRule FbDisabled None
  end.

Definition tool_json (min_context_tokens : Z) : ModelRequirement := mkReq false true true false false (Some min_context_tokens).
Definition vision (min_context_tokens : Z) : ModelRequirement := mkReq false false false false true (Some min_context_tokens).
Definition context (min_context_tokens : Z) : ModelRequirement := mkReq false false false false false (Some min_context_tokens).

(** Every template turns nothing off. *)
Record Level2Template := mkTemplate {
  tp_path : string;
  tp_fallback : FallbackPreset;
  tp_profile : option SchedulerProfile;
  tp_min_line : ModelRequirement;
  tp_mount_mode : MountMode;
  tp_tier : string
}.

Definition LLM_TEMPLATES : list Level2Template :=
  [
   mkTemplate "llm.chat" PresetParent (Some Balanced) no_requirement MountHybrid "general";
   mkTemplate "llm.plan" PresetParent (Some QualityFirst) (tool_json 32768) MountHybrid "pro";
   mkTemplate "llm.code" PresetParent None (tool_json 32768) MountHybrid "pro";
   mkTemplate "llm.swift" PresetParent (Some LatencyFirst) no_requirement MountHybrid "fast";
   mkTemplate "llm.summarize" PresetParent (Some CostFirst) (context 16384) MountHybrid "utility";
   mkTemplate "llm.reason" PresetDisabled (Some QualityFirst) (context 32768) MountHybrid "reasoning";
   mkTemplate "llm.vision" PresetParent None (vision 32768) MountHybrid "multimodal";
   mkTemplate "llm.long" PresetParent None (context 128000) MountHybrid "long_context";
   mkTemplate "llm.fallback" PresetDisabled None no_requirement MountHybrid "fallback"].

Section definitions.
Context {Json : Type}.

Definition logical_definition (path : string) (api_type : ApiType) (fallback : FallbackPreset) (profile : option SchedulerProfile)
    (min_line : ModelRequirement) (mount_mode : MountMode) (tier : string) : LogicalModelDefinition Json :=
  mkDefinition path api_type min_line no_requirement None mount_mode profile (Some (fallback_to_rule fallback)) None (Some tier).

Definition of_template (t : Level2Template) : LogicalModelDefinition Json :=
  logical_definition (tp_path t) Llm (tp_fallback t) (tp_profile t) (tp_min_line t) (tp_mount_mode t) (tp_tier t).

(** In the order of their paths, "llm" first. *)
Definition build_default_logical_definitions : list (LogicalModelDefinition Json) :=
  let definitions :=
    [logical_definition "llm" Llm PresetParent (Some Balanced) no_requirement MountAuto "general"]
    ++ (of_template <$> LLM_TEMPLATES)
    ++ [
        logical_definition "llm.summary" Llm PresetParent (Some CostFirst) (context 16384) MountHybrid "utility";
        logical_definition "llm.translate" Llm PresetParent (Some CostFirst) no_requirement MountHybrid "utility";
        logical_definition "embedding.text" Embedding PresetStrict (Some LatencyFirst) no_requirement MountHybrid "general";
        logical_definition "embedding.multilingual" Embedding PresetStrict (Some LatencyFirst) no_requirement MountHybrid "general";
        logical_definition "embedding.code" Embedding PresetStrict (Some LatencyFirst) no_requirement MountHybrid "code";
        logical_definition "embedding.multimodal" EmbeddingMultimodal PresetStrict (Some LatencyFirst) no_requirement MountHybrid "multimodal";
        logical_definition "rerank.general" Rerank PresetStrict (Some LatencyFirst) no_requirement MountHybrid "general";
        logical_definition "rerank.multilingual" Rerank PresetStrict (Some LatencyFirst) no_requirement MountHybrid "general";
        logical_definition "image.txt2img" ImageTextToImage PresetParent (Some QualityFirst) no_requirement MountHybrid "general";
        logical_definition "image.img2img" ImageToImage PresetParent (Some QualityFirst) no_requirement MountHybrid "general";
        logical_definition "image.inpaint" ImageInpaint PresetParent (Some QualityFirst) no_requirement MountHybrid "edit";
        logical_definition "image.upscale" ImageUpscale PresetParent (Some QualityFirst) no_requirement MountHybrid "edit";
        logical_definition "image.bg_remove" ImageBgRemove PresetParent (Some LatencyFirst) no_requirement MountHybrid "utility";
        logical_definition "image.ocr" VisionOcr PresetStrict (Some LatencyFirst) no_requirement MountHybrid "vision";
        logical_definition "image.caption" VisionCaption PresetStrict (Some LatencyFirst) no_requirement MountHybrid "vision";
        logical_definition "image.detect" VisionDetect PresetStrict (Some LatencyFirst) no_requirement MountHybrid "vision";
        logical_definition "image.segment" VisionSegment PresetStrict (Some LatencyFirst) no_requirement MountHybrid "vision";
        logical_definition "audio.tts" AudioTts PresetStrict (Some LatencyFirst) no_requirement MountHybrid "audio";
        logical_definition "audio.asr" AudioAsr PresetStrict (Some LatencyFirst) no_requirement MountHybrid "audio";
        logical_definition "audio.music" AudioMusic PresetStrict (Some QualityFirst) no_requirement MountHybrid "audio";
        logical_definition "audio.enhance" AudioEnhance PresetStrict (Some QualityFirst) no_requirement MountHybrid "audio";
        logical_definition "video.txt2video" VideoTextToVideo PresetParent (Some QualityFirst) no_requirement MountHybrid "video";
        logical_definition "video.img2video" VideoImageToVideo PresetParent (Some QualityFirst) no_requirement MountHybrid "video";
        logical_definition "video.video2video" VideoToVideo PresetParent (Some QualityFirst) no_requirement MountHybrid "video";
        logical_definition "video.extend" VideoExtend PresetParent (Some QualityFirst) no_requirement MountHybrid "video";
        logical_definition "video.upscale" VideoUpscale PresetParent (Some QualityFirst) no_requirement MountHybrid "video";
        logical_definition "agent.computer_use" AgentComputerUse PresetParent (Some Balanced) (vision 8192) MountHybrid "agent"] in
  let sorted := sort_stable (fun x y => string_leb (ld_path x) (ld_path y)) definitions in
  match List.find (fun d => String.eqb (ld_path d) "llm") sorted with
  | Some llm => llm :: List.filter (fun d => negb (String.eqb (ld_path d) "llm")) sorted
  | None => sorted
  end.
End definitions.

(** ** The tree *)

(** Weights in tenths. *)
Definition logical_node_with_items (items : list (string * string * Z)) : LogicalNode :=
  mkNode [] (Some DEFAULT_LOGICAL_TREE_REVISION)
    (Some (list_to_map ((fun i => (i.1.1, mkItem i.1.2 (f64_lit i.2 10))) <$> items))) None ∅ None None None None.

Definition empty_logical_node : LogicalNode :=
  mkNode [] (Some DEFAULT_LOGICAL_TREE_REVISION) None None ∅ None None None None.

(** The children by name. *)
Definition llm_children : LogicalTree :=
  [
   ("chat", logical_node_with_items [("gpt", "llm.gpt-standard", 22); ("sonnet", "llm.sonnet", 21);
      ("gemini", "llm.gemini-flash", 19); ("mini", "llm.gpt-mini", 14)]);
   ("code", logical_node_with_items [("sonnet", "llm.sonnet", 24); ("gpt", "llm.gpt-standard", 21);
      ("local", "llm.qwen-coder", 18); ("opus", "llm.opus", 14)]);
   ("fallback", empty_logical_node);
   ("gemini-flash", empty_logical_node);
   ("gemini-flash-lite", empty_logical_node);
   ("gemini-pro", empty_logical_node);
   ("gpt-mini", empty_logical_node);
   ("gpt-pro", empty_logical_node);
   ("gpt-standard", empty_logical_node);
   ("haiku", empty_logical_node);
   ("long", logical_node_with_items [("gemini", "llm.gemini-pro", 23); ("opus", "llm.opus", 21);
      ("gpt_pro", "llm.gpt-pro", 20); ("gpt", "llm.gpt-standard", 18)]);
   ("opus", empty_logical_node);
   ("plan", logical_node_with_items [("opus", "llm.opus", 25); ("gemini", "llm.gemini-pro", 24);
      ("gpt_pro", "llm.gpt-pro", 23); ("gpt", "llm.gpt-standard", 20); ("local_code", "llm.qwen-coder", 11)]);
   ("qwen-coder", empty_logical_node);
   ("qwen-small", empty_logical_node);
   ("reason", logical_node_with_items [("gpt_pro", "llm.gpt-pro", 25); ("opus", "llm.opus", 24);
      ("gemini", "llm.gemini-pro", 22)]);
   ("sonnet", empty_logical_node);
   ("summarize", logical_node_with_items [("mini", "llm.gpt-mini", 20); ("gemini_flash", "llm.gemini-flash", 18);
      ("haiku", "llm.haiku", 16); ("local_small", "llm.qwen-small", 13)]);
   ("summary", logical_node_with_items [("mini", "llm.gpt-mini", 20); ("gemini_flash", "llm.gemini-flash", 18);
      ("haiku", "llm.haiku", 16); ("local_small", "llm.qwen-small", 13)]);
   ("swift", logical_node_with_items [("mini", "llm.gpt-mini", 20); ("haiku", "llm.haiku", 19);
      ("gemini_flash", "llm.gemini-flash", 18); ("gemini_flash_lite", "llm.gemini-flash-lite", 16);
      ("local_small", "llm.qwen-small", 14)]);
   ("translate", logical_node_with_items [("gemini_flash", "llm.gemini-flash", 19); ("mini", "llm.gpt-mini", 18);
      ("haiku", "llm.haiku", 16); ("local_small", "llm.qwen-small", 12)]);
   ("vision", logical_node_with_items [("gpt", "llm.gpt-standard", 22); ("gemini", "llm.gemini-pro", 21);
      ("opus", "llm.opus", 19); ("sonnet", "llm.sonnet", 18)])].

Definition build_default_logical_tree : LogicalTree :=
  [("llm", mkNode llm_children (Some DEFAULT_LOGICAL_TREE_REVISION) None None ∅ None None None None)].

Definition default_global_session_config : SessionConfig :=
  mkConfig None build_default_logical_tree None ∅ None ∅ ∅ no_policy (Some DEFAULT_LOGICAL_TREE_REVISION) None.

(** ** The nodes of a tree *)

Fixpoint subnodes (n : LogicalNode) : list LogicalNode := n :: flat_map (fun child => subnodes child.2) (ln_children n).
Definition tree_nodes (tree : LogicalTree) : list LogicalNode := flat_map (fun child => subnodes child.2) tree.

Lemma elem_of_child_subnodes name child n (l : LogicalTree) :
  (name, child) ∈ l -> n ∈ subnodes child -> n ∈ flat_map (fun child => subnodes child.2) l.
Proof. intros Hc Hn. rewrite list_elem_of_In, in_flat_map. exists (name, child). by rewrite <- !list_elem_of_In. Qed.

Lemma node_in_subnodes n parts n' : node_in n parts = Some n' -> n' ∈ subnodes n.
Proof.
  revert n. induction parts as [|part parts IH]; intros [children s i o w d f p q] Hn; cbn [subnodes ln_children].
  - injection Hn as <-. by left.
  - simpl in Hn. apply bind_Some in Hn as (child & Hc%alist_get_elem & Hr). right. eapply elem_of_child_subnodes; eauto.
Qed.

Lemma node_of_tree c path n : node c path = Some n -> n ∈ tree_nodes (sc_logical_tree c).
Proof.
  unfold node, tree_node. destruct (split_on DOT path) as [|first parts]; [done|].
  intros (child & Hc%alist_get_elem & Hr%node_in_subnodes)%bind_Some. by eapply elem_of_child_subnodes.
Qed.

(** ** Two levels *)

Definition missing {A} (o : option A) : bool := match o with None => true | Some _ => false end.

(** A node without items of its own, or with items that lead to models and to
    such nodes only. *)
Definition bare_node (n : LogicalNode) : bool := missing (ln_items n) && missing (ln_item_overrides n).
Definition flat_node (c : SessionConfig) (n : LogicalNode) : bool :=
  missing (ln_item_overrides n)
  && match ln_items n with
     | None => true
     | Some items => forallb (fun ni => is_exact_model_name (it_target ni.2) || from_option bare_node true (node c (it_target ni.2)))
                       (btree items)
     end.

Section flat.
Context {Json : Type} `{HashOrder} (r : ModelRegistry Json) (c : SessionConfig) (Hr : registry_ok r).

Lemma bare_leads_nowhere path target :
  from_option bare_node true (node c path) = true -> leads r c path target -> False.
Proof using Hr.
  intros Hb (it & (items & name & Hi & Hit & _) & <- & Hex).
  assert (Hd : items = default_items_for_path r path).
  { unfold items_of in Hi. destruct (node c path) as [n|]; simpl in *.
    - unfold bare_node, effective_items, both_items in *. destruct (ln_items n), (ln_item_overrides n); try done. by inversion Hi.
    - case_bool_decide; [done|]. by inversion Hi. }
  subst. apply default_items_exact in Hit as [? _]; [congruence|done].
Qed.

(** In such a tree nothing leads back to where it came from. *)
Lemma flat_no_loop path : forallb (flat_node c) (tree_nodes (sc_logical_tree c)) = true -> ~ tc (leads r c) path path.
Proof using Hr.
  intros Hflat Ht.
  assert (Hone : forall p q, leads r c p q -> from_option bare_node true (node c q) = true).
  { intros p q (it & (items & name & Hi & Hit & Hw) & <- & Hex). destruct (node c p) as [n|] eqn:En.
    2:{ exfalso. eapply (bare_leads_nowhere p (it_target it)); [by rewrite En|]. exists it. split; [by exists items, name|done]. }
    rewrite forallb_forall in Hflat. specialize (Hflat n (proj1 (list_elem_of_In _ _) (node_of_tree c p n En))).
    unfold flat_node in Hflat. apply andb_true_iff in Hflat as [Ho Hits]. unfold items_of in Hi. rewrite En in Hi. injection Hi as Hi.
    unfold effective_items, both_items in Hi. destruct (ln_item_overrides n); [done|]. destruct (ln_items n) as [its|].
    - inversion Hi; subst. rewrite forallb_forall in Hits. specialize (Hits (name, it)). rewrite <- list_elem_of_In, elem_of_btree in Hits.
      specialize (Hits Hit). simpl in Hits. by rewrite Hex in Hits.
    - inversion Hi; subst. apply default_items_exact in Hit as [? _]; [congruence|done]. }
  assert (Htwo : exists q t, leads r c path q /\ leads r c q t).
  { inversion Ht as [? ? Hl|? q ? Hl Hrest]; subst; [by exists path, path|]. exists q. inversion Hrest; subst; eauto. }
  destruct Htwo as (q & t & H1 & H2). by apply (bare_leads_nowhere q t); [eapply Hone|].
Qed.
End flat.

(** Valid definitions of different paths are taken, each under its path. *)
Lemma set_definitions_lookup {Json : Type} (l : list (LogicalModelDefinition Json)) (r : ModelRegistry Json) :
  Forall (fun d => validate_logical_definition d = inr tt) l -> NoDup (ld_path <$> l) ->
  (set_logical_definitions l r).2 = inr tt
  /\ forall d, d ∈ l -> AiRegistry.logical_definition (set_logical_definitions l r).1 (ld_path d) = Some d.
Proof.
  intros Hl Hnd. unfold set_logical_definitions.
  assert (Hfold : forall m : gmap string (LogicalModelDefinition Json), exists m',
    fold_routed (fun next d => validate_logical_definition d ;; mret (<[ld_path d := d]> next)) m l = inr m'
    /\ (forall d, d ∈ l -> m' !! ld_path d = Some d)
    /\ forall k, k ∉ ld_path <$> l -> m' !! k = m !! k).
  { induction Hl as [|d l Hd Hl IH]; intros m; simpl; [exists m; set_solver|]. apply NoDup_cons in Hnd as [Hn Hnd].
    rewrite Hd. simpl. destruct (IH Hnd (<[ld_path d := d]> m)) as (m' & E & Hin & Hout). exists m'. split; [exact E|]. split.
    - intros e [->|He]%elem_of_cons; [|by apply Hin]. rewrite Hout by done. by simplify_map_eq.
    - intros k [Hk1 Hk2]%not_elem_of_cons. rewrite Hout, lookup_insert_ne by done. done. }
  destruct (Hfold ∅) as (m' & -> & Hin & _). split; [reflexivity|exact Hin].
Qed.

(** The built-in configuration is valid and its definitions are taken, each
    under its path; and with it a request for any name, of any type, finds its
    candidates, whatever the providers declare: it never runs into a loop. *)
Theorem builtin_configuration {Json : Type} `{HashOrder} (r : ModelRegistry Json) :
  validate default_global_session_config = inr tt
  /\ (set_logical_definitions build_default_logical_definitions r).2 = inr tt
  /\ Forall (fun d => AiRegistry.logical_definition (set_logical_definitions build_default_logical_definitions r).1 (ld_path d) = Some d)
       (build_default_logical_definitions (Json := Json))
  /\ (reachable r -> forall path api_type,
        exists cs, outcome (resolve_logical_raw r default_global_session_config path api_type) (inr cs)).
Proof.
  destruct (set_definitions_lookup (build_default_logical_definitions (Json := Json)) r) as [Hset Hget].
  { assert (Hb : forallb (fun d => match validate_logical_definition d with inr _ => true | inl _ => false end)
                   (build_default_logical_definitions (Json := Json)) = true) by by vm_compute.
    rewrite forallb_forall in Hb. apply Forall_forall. intros d Hd%list_elem_of_In. specialize (Hb d Hd).
    by destruct (validate_logical_definition d) as [|[]]. }
  { by_compute. }
  split; [by vm_compute|]. split; [done|]. split.
  - apply Forall_forall. exact Hget.
  - clear Hset Hget. intros Hr%reachable_registry_ok path api_type.
    destruct (resolve_raw_spec r default_global_session_config Hr ltac:(by vm_compute) path api_type) as ([e|cs] & Ho & Hs); [|by exists cs].
    destruct Hs as (_ & p & _ & [Hin|Ht]); [set_solver|]. exfalso. revert Ht. by apply flat_no_loop.
Qed.

(** ** Examples *)

Module BuiltinExamples.
#[local] Existing Instance canonical_order.
Import AiExample.

(** A house that locks its policy to local models routes a chat to the
    model in the house; the overlay of a request that has a policy of its own
    at the node of the requested name is not refused, and its request goes to
    the cloud first. *)
Theorem node_policy_unlocks :
  sc_policy at_home = locked_local
  /\ routed_to registry at_home "llm.chat" None = Some (inr ["qwen@home"])
  /\ routed_to registry at_home "llm.chat" (Some overlay) = Some (inr ["gpt@cloud"; "qwen@home"]).
Proof. by vm_compute. Qed.

(** A model of a small context, that serves as [llm.gpt-mini]. *)
Definition small : ModelMetadata Json :=
  let m := model "home" "qwen" LocalInference ["llm.gpt-mini"] in
  mkMetadata (mm_provider_model_id m) (mm_exact_model m) (mm_model_driver m) None None None None (mm_api_types m)
    (mm_logical_mounts m) (mkCaps true false false true [] false (Some 8192) None) (mm_attributes m) (mm_pricing m) (mm_health m).
Definition builtin : ModelRegistry Json :=
  (set_logical_definitions build_default_logical_definitions
     (apply_inventory (inventory "home" LocalInference [small]) new_registry).1).1.
Definition with_cloud : ModelRegistry Json := (apply_inventory cloud builtin).1.

(** The built-in definition of [llm.reason] disables fallback; its request gets
    the model of the name above it all the same. *)
Lemma definition_fallback_ignored :
  (AiRegistry.logical_definition builtin "llm.reason" ≫= ld_fallback) = Some disabled_rule
  /\ routed_to builtin default_global_session_config "llm.reason" None = Some (inr ["qwen@home"]).
Proof. by vm_compute. Qed.

(** An overlay that inherits and adds a model to [llm.gpt-mini]. *)
Definition mine : LogicalTreeOverlay :=
  mkOverlay "llm.gpt-mini" MergeInherit ∅ {[ "mine" := mkPatch (Some "gpt@cloud") None ]} ∅ None None None None.
Definition inheriting : SessionConfig :=
  mkConfig None [] (Some (mkProfile None [mine] None)) ∅ None ∅ ∅ no_policy None None.

Lemma inherit_drops_models :
  routed_to with_cloud default_global_session_config "llm.gpt-mini" None = Some (inr ["qwen@home"])
  /\ routed_to with_cloud default_global_session_config "llm.gpt-mini" (Some inheriting) = Some (inr ["gpt@cloud"]).
Proof. by vm_compute. Qed.

Lemma builtin_configuration_witness :
  exists cs, outcome (resolve_logical_raw with_cloud default_global_session_config "llm.chat" Llm) (inr cs).
Proof.
  apply builtin_configuration. do 2 (apply reach_apply || apply reach_definitions). apply reach_apply, reach_new.
Defined.
End BuiltinExamples.
