(* ===== verification/KEventPattern.v ===== *)
(** Names of events and the patterns of their readers
    ([kernel/buckyos-api/src/kevent_client.rs]): what is a valid name, which
    events a pattern matches, and when a pattern makes another redundant. *)
From Stdlib Require Import ZArith Lia Ascii.
From stdpp Require Import base tactics numbers gmap strings list.
From S2P Require Import Prelude RustString Lists.

Definition SLASH : ascii := "/".
Definition STAR : ascii := "*".

(** ** Errors *)

Inductive KEventError :=
| InvalidEventId (message : string)
| InvalidPattern (message : string)
| DaemonUnavailable (message : string)
| TimerInvalidTarget (message : string)
| TimerNotFound (message : string)
| NotSupported (message : string)
| ReaderClosed (message : string)
| Internal (message : string).
#[export] Instance KEventError_eq_dec : EqDecision KEventError. Proof. solve_decision. Defined.

(** [KEventResult] *)
Definition kresult (A : Type) : Type := KEventError + A.
#[export] Instance kresult_ret : MRet kresult := fun A a => inr a.
#[export] Instance kresult_bind : MBind kresult := fun A B f m =>
  match m with inl e => inl e | inr a => f a end.

Definition error_code (e : KEventError) : string :=
  match e with
  | InvalidEventId _ => "INVALID_EVENTID" | InvalidPattern _ => "INVALID_PATTERN"
  | DaemonUnavailable _ => "DAEMON_UNAVAILABLE" | TimerInvalidTarget _ => "TIMER_INVALID_TARGET"
  | TimerNotFound _ => "TIMER_NOT_FOUND" | NotSupported _ => "NOT_SUPPORTED"
  | ReaderClosed _ => "READER_CLOSED" | Internal _ => "INTERNAL"
  end.

(** An error of a daemon, from its code and message. *)
Definition map_response_error (code message : string) : KEventError :=
  if String.eqb code "INVALID_EVENTID" then InvalidEventId message
  else if String.eqb code "INVALID_PATTERN" then InvalidPattern message
  else if String.eqb code "DAEMON_UNAVAILABLE" then DaemonUnavailable message
  else if String.eqb code "TIMER_INVALID_TARGET" then TimerInvalidTarget message
  else if String.eqb code "TIMER_NOT_FOUND" then TimerNotFound message
  else if String.eqb code "NOT_SUPPORTED" then NotSupported message
  else if String.eqb code "READER_CLOSED" then ReaderClosed message
  else Internal message.

(** [f(x)?] for every [x], in order. *)
Fixpoint try_all {A} (f : A -> kresult unit) (l : list A) : kresult unit :=
  match l with [] => inr tt | x :: l => f x ;; try_all f l end.

(** ** Names *)

(** [starts_with('/')] *)
Definition is_global (name : string) : bool := match name with String a _ => Ascii.eqb a SLASH | EmptyString => false end.
Definition is_global_eventid : string -> bool := is_global.
Definition is_global_pattern : string -> bool := is_global.

(** [path.split('/').skip(1)] *)
Definition segments (path : string) : list string := drop 1 (split_on SLASH path).

Definition is_valid_name_char (ch : ascii) : bool :=
  is_ascii_alphanumeric ch || Ascii.eqb ch "_" || Ascii.eqb ch "-" || Ascii.eqb ch ".".

(** The loop over the segments; [depth] is how many came before. *)
Fixpoint validate_segments (allow_wildcard : bool) (depth : nat) (segs : list string) : string + unit :=
  match segs with
  | [] => inr tt
  | seg :: segs =>
    if String.eqb seg "" then inl "global id/pattern contains empty segment"
    else if (8 <? S depth)%nat then inl "global id/pattern depth must be <= 8"
    else if allow_wildcard && (String.eqb seg "*" || String.eqb seg "**") then validate_segments allow_wildcard (S depth) segs
    else if contains_char STAR seg then inl "wildcard must be a full segment '*' or '**'"
    else if negb (all_chars is_valid_name_char seg) then inl ("invalid segment '" +:+ seg +:+ "'")
    else validate_segments allow_wildcard (S depth) segs
  end.

Definition validate_global_path (path : string) (allow_wildcard : bool) : string + unit :=
  if negb (is_global path) then inl "global id/pattern must start with '/'"
  else if (256 <? String.length path)%nat then inl "global id/pattern length must be <= 256"
  else if String.eqb path "/" then inl "global id/pattern must not be '/'"
  else validate_segments allow_wildcard 0 (segments path).

Definition validate_local_name (name : string) : string + unit :=
  if (128 <? String.length name)%nat then inl "local id/pattern length must be <= 128"
  else if contains_char SLASH name then inl "local id/pattern must not contain '/'"
  else if negb (all_chars is_valid_name_char name) then inl "local id/pattern has invalid char"
  else inr tt.

Definition map_err {A} (f : string -> KEventError) (r : string + A) : kresult A :=
  match r with inl e => inl (f e) | inr a => inr a end.

Definition validate_eventid (eventid : string) : kresult unit :=
  if String.eqb eventid "" then inl (InvalidEventId "empty eventid")
  else if is_global_eventid eventid then map_err InvalidEventId (validate_global_path eventid false)
  else map_err InvalidEventId (validate_local_name eventid).

Definition validate_pattern (pattern : string) : kresult unit :=
  if String.eqb pattern "" then inl (InvalidPattern "empty pattern")
  else if is_global_pattern pattern then map_err InvalidPattern (validate_global_path pattern true)
  else
    map_err InvalidPattern (validate_local_name pattern) ;;
    if contains_char STAR pattern then inl (InvalidPattern "local pattern does not support wildcard") else inr tt.

(** ** Matching *)

(** The recursion of the code shortens the pattern, or for [**] the event. *)
Fixpoint match_global_segments (pattern : list string) : list string -> bool :=
  match pattern with
  | [] => fun event => match event with [] => true | _ => false end
  | p :: rest =>
    if String.eqb p "**" then
      fix star event :=
        if match_global_segments rest event then true
        else match event with [] => false | _ :: event => star event end
    else fun event =>
      match event with
      | [] => false
      | e :: event => if String.eqb p "*" then match_global_segments rest event
                      else if negb (String.eqb p e) then false else match_global_segments rest event
      end
  end.

Definition match_global_pattern (pattern eventid : string) : bool :=
  if negb (is_global pattern) || negb (is_global eventid) then false
  else match_global_segments (segments pattern) (segments eventid).

(** One pattern of [match_event_patterns]. *)
Definition match_event_pattern (eventid pattern : string) : bool :=
  if is_global_pattern pattern then is_global_eventid eventid && match_global_pattern pattern eventid
  else String.eqb pattern eventid.

Definition match_event_patterns (patterns : list string) (eventid : string) : bool :=
  existsb (match_event_pattern eventid) patterns.

(** ** Redundant patterns *)

Fixpoint pattern_subsumes_segments (broad : list string) : list string -> bool :=
  match broad with
  | [] => fun narrow => match narrow with [] => true | _ => false end
  | b0 :: rest =>
    if String.eqb b0 "**" then
      fix star narrow :=
        match narrow with
        | [] => forallb (fun s => String.eqb s "**") (b0 :: rest)
        | n0 :: narrow' =>
          if String.eqb n0 "**" then star narrow'
          else if pattern_subsumes_segments rest narrow then true else star narrow'
        end
    else fun narrow =>
      match narrow with
      | [] => forallb (fun s => String.eqb s "**") (b0 :: rest)
      | n0 :: narrow' =>
        if String.eqb n0 "**" then false
        else if String.eqb b0 "*" then pattern_subsumes_segments rest narrow'
        else if String.eqb n0 "*" then false
        else if negb (String.eqb b0 n0) then false else pattern_subsumes_segments rest narrow'
      end
  end.

Definition pattern_subsumes (broad narrow : string) : bool :=
  if String.eqb broad narrow then true
  else if negb (Bool.eqb (is_global_pattern broad) (is_global_pattern narrow)) then false
  else if negb (is_global_pattern broad) then false
  else pattern_subsumes_segments (segments broad) (segments narrow).

(** The body of the loop of [normalize_patterns]. *)
Definition keep_pattern (out : list string) (p : string) : list string :=
  if existsb (fun kept => pattern_subsumes kept p) out then out
  else List.filter (fun kept => negb (pattern_subsumes p kept)) out ++ [p].

Definition normalize_patterns (patterns : list string) : list string := fold_left keep_pattern patterns [].

(** ** What a pattern means *)

(** The events, by their segments, that the segments of a pattern stand for. *)
Inductive denotes : list string -> list string -> Prop :=
| denotes_nil : denotes [] []
| denotes_one p s e : denotes p e -> denotes ("*" :: p) (s :: e)
| denotes_any p e1 e2 : denotes p e2 -> denotes ("**" :: p) (e1 ++ e2)
| denotes_name s p e : s <> "*" -> s <> "**" -> denotes p e -> denotes (s :: p) (s :: e).

(** The events a pattern stands for. *)
Definition stands_for (pattern eventid : string) : Prop :=
  if is_global pattern then is_global eventid = true /\ denotes (segments pattern) (segments eventid)
  else pattern = eventid.

(** The two equations of [**], as the code has them. *)
Lemma match_any_nil p : match_global_segments ("**" :: p) [] = match_global_segments p [].
Proof. simpl. by destruct (match_global_segments p []). Qed.
Lemma match_any_cons p e event :
  match_global_segments ("**" :: p) (e :: event)
  = match_global_segments p (e :: event) || match_global_segments ("**" :: p) event.
Proof. simpl. by destruct (match_global_segments p (e :: event)). Qed.

Lemma denotes_any_inv p e :
  denotes ("**" :: p) e -> exists e1 e2, e = e1 ++ e2 /\ denotes p e2.
Proof. inversion 1; subst; [by exists e1, e2|done]. Qed.

Lemma match_global_segments_spec p e : match_global_segments p e = true <-> denotes p e.
Proof.
  revert e. induction p as [|s p IH]; intros e.
  { destruct e; simpl; split; try done; [by constructor|by inversion 1]. }
  destruct (decide (s = "**")) as [->|Hs].
  - induction e as [|x e IHe].
    + rewrite match_any_nil, IH. split; [by intros; apply (denotes_any _ [])|].
      intros (e1 & e2 & E & H)%denotes_any_inv. by destruct e1, e2.
    + rewrite match_any_cons, orb_true_iff, IH, IHe. split.
      * intros [H|(e1 & e2 & -> & H)%denotes_any_inv]; [by apply (denotes_any _ [])|by apply (denotes_any _ (x :: e1))].
      * intros (e1 & e2 & E & H)%denotes_any_inv. destruct e1 as [|y e1]; simplify_eq/=; [by left|].
        right. by constructor.
  - simpl. rewrite (proj2 (String.eqb_neq s "**")) by done. destruct e as [|x e]; [split; [done|by inversion 1]|].
    destruct (String.eqb_spec s "*") as [->|Hone].
    + rewrite IH. split; [by constructor|]. inversion 1; by subst.
    + destruct (String.eqb_spec s x) as [->|Hne]; simpl.
      * rewrite IH. split; [by constructor|]. inversion 1; by subst.
      * split; [done|]. inversion 1; by subst.
Qed.

Lemma match_event_pattern_spec e p : match_event_pattern e p = true <-> stands_for p e.
Proof.
  unfold match_event_pattern, match_global_pattern, stands_for, is_global_pattern, is_global_eventid.
  destruct (is_global p); [|by rewrite String.eqb_eq]. simpl. destruct (is_global e); simpl; [|naive_solver].
  rewrite match_global_segments_spec. naive_solver.
Qed.

Lemma match_event_patterns_spec ps e : match_event_patterns ps e = true <-> exists p, p ∈ ps /\ stands_for p e.
Proof.
  unfold match_event_patterns. rewrite existsb_exists. split; intros (p & Hp & H); exists p.
  - by rewrite list_elem_of_In, <- match_event_pattern_spec.
  - by rewrite <- list_elem_of_In, match_event_pattern_spec.
Qed.

(** ** Redundant patterns are redundant *)

Lemma denotes_all_any p : forallb (fun s => String.eqb s "**") p = true -> denotes p [].
Proof.
  induction p as [|s p IH]; simpl; [by constructor|]. intros [->%String.eqb_eq Hp]%andb_true_iff.
  apply (denotes_any _ []). auto.
Qed.

Lemma denotes_nil_inv e : denotes [] e -> e = [].
Proof. by inversion 1. Qed.

Lemma denotes_any_app p e1 e2 : denotes ("**" :: p) e2 -> denotes ("**" :: p) (e1 ++ e2).
Proof. intros (f1 & f2 & -> & H)%denotes_any_inv. rewrite app_assoc. by constructor. Qed.

Lemma denotes_single s p e : s <> "**" -> denotes (s :: p) e ->
  exists x e', e = x :: e' /\ denotes p e' /\ (s = "*" \/ s = x).
Proof. intros Hs. inversion 1; subst; naive_solver. Qed.

Lemma subsumes_segments_sound b n e :
  pattern_subsumes_segments b n = true -> denotes n e -> denotes b e.
Proof.
  revert n e. induction b as [|b0 b IH]; intros n e.
  { destruct n; simpl; [done|done]. }
  destruct (decide (b0 = "**")) as [->|Hb].
  - revert e. induction n as [|n0 n IHn]; intros e.
    + intros H ->%denotes_nil_inv. by apply denotes_all_any.
    + simpl. destruct (String.eqb_spec n0 "**") as [->|Hn].
      * intros H (e1 & e2 & -> & He)%denotes_any_inv. apply denotes_any_app. by apply IHn.
      * destruct (pattern_subsumes_segments b (n0 :: n)) eqn:Es.
        -- intros _ He. apply (denotes_any _ []). by eapply IH.
        -- intros H (x & e' & -> & He & _)%denotes_single; [|done]. apply (denotes_any_app _ [x]). by apply IHn.
  - simpl. rewrite (proj2 (String.eqb_neq b0 "**")) by done. destruct n as [|n0 n]; [done|].
    destruct (String.eqb_spec n0 "**") as [|Hn]; [done|]. destruct (String.eqb_spec b0 "*") as [->|Hone].
    + intros H (x & e' & -> & He & _)%denotes_single; [|done]. constructor. by eapply IH.
    + destruct (String.eqb_spec n0 "*") as [|Hno]; [done|]. destruct (String.eqb_spec b0 n0) as [->|]; simpl; [|done].
      intros H (x & e' & -> & He & [? | ->])%denotes_single; [done| |done]. constructor; [done..|]. by eapply IH.
Qed.

Lemma pattern_subsumes_sound b n e : pattern_subsumes b n = true -> stands_for n e -> stands_for b e.
Proof.
  unfold pattern_subsumes, stands_for, is_global_pattern. destruct (String.eqb_spec b n) as [->|_]; [done|].
  destruct (is_global b), (is_global n); simpl; try done. intros H [? ?]. split; [done|]. by eapply subsumes_segments_sound.
Qed.

Lemma pattern_subsumes_refl p : pattern_subsumes p p = true.
Proof. unfold pattern_subsumes. by rewrite String.eqb_refl. Qed.

(** Neither of two patterns makes the other redundant. *)
Definition independent (p q : string) : Prop := pattern_subsumes p q = false /\ pattern_subsumes q p = false.
Fixpoint all_independent (ps : list string) : Prop :=
  match ps with [] => True | p :: ps => Forall (independent p) ps /\ all_independent ps end.

Lemma all_independent_filter f ps : all_independent ps -> all_independent (List.filter f ps).
Proof.
  induction ps as [|p ps IH]; simpl; [done|]. intros [Hp Hps]. destruct (f p); [|auto]. split; [|auto].
  rewrite Forall_forall in *. intros q [_ Hq]%elem_of_filterb. auto.
Qed.

Lemma all_independent_snoc ps p : all_independent ps -> Forall (fun q => independent q p) ps -> all_independent (ps ++ [p]).
Proof.
  induction ps as [|q ps IH]; simpl; [done|]. intros [Hq Hps] [Hqp Hp]%Forall_cons. split; [|auto].
  rewrite Forall_app. split; [done|]. by constructor.
Qed.

Lemma keep_pattern_independent out p : all_independent out -> all_independent (keep_pattern out p).
Proof.
  intros Hout. unfold keep_pattern. destruct (existsb _ out) eqn:E; [done|]. apply all_independent_snoc; [by apply all_independent_filter|].
  rewrite Forall_forall. intros q [Hn%negb_true_iff Hq]%elem_of_filterb. split; [|done].
  rewrite existsb_false, Forall_forall in E. by apply E.
Qed.

Lemma keep_pattern_stands out p e :
  (exists q, q ∈ keep_pattern out p /\ stands_for q e) <-> (exists q, q ∈ out ++ [p] /\ stands_for q e).
Proof.
  unfold keep_pattern. setoid_rewrite elem_of_app. setoid_rewrite list_elem_of_singleton.
  destruct (existsb _ out) eqn:E.
  - split; [naive_solver|]. intros (q & [Hq| ->] & Hs); [by exists q|].
    apply existsb_exists in E as (k & Hk%list_elem_of_In & Hsub). exists k. split; [done|]. by eapply pattern_subsumes_sound.
  - setoid_rewrite elem_of_app. setoid_rewrite list_elem_of_singleton. setoid_rewrite elem_of_filterb. split.
    + intros (q & [[_ Hq]| ->] & Hs); [|by exists p; auto]. exists q. auto.
    + intros (q & [Hq| ->] & Hs); [|by exists p; auto]. destruct (pattern_subsumes p q) eqn:Ep.
      * exists p. split; [by right|]. by eapply pattern_subsumes_sound.
      * exists q. split; [|done]. left. by rewrite Ep.
Qed.

Lemma keep_pattern_sublist out p : keep_pattern out p `sublist_of` out ++ [p].
Proof.
  unfold keep_pattern. destruct (existsb _ out); [by apply sublist_inserts_r|]. apply sublist_app; [apply filterb_sublist|done].
Qed.
