(* ===== verification/KEventRing.v ===== *)
(** The ring buffers of the event bus in shared memory
    ([kernel/buckyos-api/src/kevent_ringbuffer.rs]).  A ring has one writer and
    any number of readers and no lock: a slot carries the number of the event
    it holds, which the writer clears before it copies and the reader compares
    before and after it copies.

    The accesses of writer and reader to the ring are steps here, one for each
    atomic operation and for each byte copied, in any interleaving
    (sequentially consistent: what the weaker orderings of the code allow beyond
    that is not modelled).  The directory of rings is changed by whole calls. *)
From Stdlib Require Import ZArith Lia.
From stdpp Require Import base tactics numbers gmap strings relations list.
From S2P Require Import Prelude RustString Lists.

(** The sizes: a ring has a power of two of slots. *)
Class Layout := {
  capacity_bits : nat;
  SLOT_DATA_SIZE : nat;
  MAX_RINGS : nat
}.
Definition kevent_layout : Layout := {| capacity_bits := 9; SLOT_DATA_SIZE := 2048; MAX_RINGS := 16 |}.

Definition wrapping_add (x y : Z) : Z := (x + y) mod (u64_max + 1).
Definition wrapping_sub (x y : Z) : Z := (x - y) mod (u64_max + 1).

Section ring.
Context `{Layout}.

Definition RING_CAPACITY : Z := 2 ^ Z.of_nat capacity_bits.

(** ** Memory *)

Record RingSlot := mkSlot { sl_seq : Z; sl_len : Z; sl_payload : list Z }.
Record PublishRing := mkRing { head_seq : Z; slots : list RingSlot }.

Definition zero_slot : RingSlot := mkSlot 0 0 (replicate SLOT_DATA_SIZE 0).
Definition zero_ring : PublishRing := mkRing 0 (replicate (Z.to_nat RING_CAPACITY) zero_slot).

(** [(seq as usize) & (RING_CAPACITY - 1)] *)
Definition slot_index (seq : Z) : nat := Z.to_nat (Z.land seq (RING_CAPACITY - 1)).
Definition slot_of (ring : PublishRing) (seq : Z) : RingSlot := default zero_slot (slots ring !! slot_index seq).
Definition on_slot (f : RingSlot -> RingSlot) (seq : Z) (ring : PublishRing) : PublishRing :=
  mkRing (head_seq ring) (alter f (slot_index seq) (slots ring)).

Definition store_seq (seq : Z) (s : RingSlot) : RingSlot := mkSlot seq (sl_len s) (sl_payload s).
Definition store_len (len : Z) (s : RingSlot) : RingSlot := mkSlot (sl_seq s) len (sl_payload s).
Definition store_byte (i : nat) (b : Z) (s : RingSlot) : RingSlot := mkSlot (sl_seq s) (sl_len s) (<[i := b]> (sl_payload s)).
Definition store_head (seq : Z) (ring : PublishRing) : PublishRing := mkRing seq (slots ring).

(** ** The writer, [publish_payload] *)

(** Where it is, with the number and the payload of its event. *)
Inductive writer :=
| WIdle
| WInvalidate (seq : Z) (payload : list Z)
| WCopy (seq : Z) (payload : list Z) (i : nat)     (* the next byte *)
| WLen (seq : Z) (payload : list Z)
| WCommit (seq : Z) (payload : list Z)
| WHead (seq : Z) (payload : list Z).

Definition start_publish (ring : PublishRing) (payload : list Z) : writer :=
  WInvalidate (wrapping_add (head_seq ring) 1) payload.

Definition write_step (ring : PublishRing) (w : writer) : PublishRing * writer :=
  match w with
  | WIdle => (ring, WIdle)
  | WInvalidate seq payload => (on_slot (store_seq 0) seq ring, WCopy seq payload 0)
  | WCopy seq payload i =>
    match payload !! i with
    | Some b => (on_slot (store_byte i b) seq ring, WCopy seq payload (S i))
    | None => (ring, WLen seq payload)
    end
  | WLen seq payload => (on_slot (store_len (Z.of_nat (length payload))) seq ring, WCommit seq payload)
  | WCommit seq payload => (on_slot (store_seq seq) seq ring, WHead seq payload)
  | WHead seq payload => (store_head seq ring, WIdle)
  end.

(** ** The reader, [consume_one_payload] *)

Inductive reader :=
| RStart
| RSeq (target : Z)                              (* the first look at the slot *)
| RLen (target : Z)
| RCopy (target : Z) (len : nat) (copy : list Z)
| RCheck (target : Z) (copy : list Z)            (* the second look *)
| RDone (payload : option (list Z)).

(** The cursor and where the reader is, after a step. *)
Definition read_step (ring : PublishRing) (read_seq : Z) (r : reader) : Z * reader :=
  match r with
  | RStart =>
    let head := head_seq ring in
    if read_seq =? head then (read_seq, RDone None)
    else
      let read_seq := if RING_CAPACITY <? wrapping_sub head read_seq then wrapping_sub head RING_CAPACITY else read_seq in
      (read_seq, RSeq (wrapping_add read_seq 1))
  | RSeq target =>
    let s1 := sl_seq (slot_of ring target) in
    if s1 =? target then (read_seq, RLen target)
    else (if target <? s1 then wrapping_sub s1 1 else read_seq, RDone None)
  | RLen target =>
    let len := sl_len (slot_of ring target) in
    if (len =? 0) || (Z.of_nat SLOT_DATA_SIZE <? len) then (target, RDone None)
    else (read_seq, RCopy target (Z.to_nat len) [])
  | RCopy target len copy =>
    if (length copy <? len)%nat then
      (read_seq, RCopy target len (copy ++ [default 0 (sl_payload (slot_of ring target) !! length copy)]))
    else (read_seq, RCheck target copy)
  | RCheck target copy =>
    let s2 := sl_seq (slot_of ring target) in
    if s2 =? target then (target, RDone (Some copy))
    else (if target <? s2 then wrapping_sub s2 1 else read_seq, RDone None)
  | RDone _ => (read_seq, r)
  end.

(** ** Whole calls *)

(** A call of [consume_one_payload] with no writer about: the cursor after it
    and the payload. *)
Fixpoint run_read (fuel : nat) (ring : PublishRing) (read_seq : Z) (r : reader) : Z * option (list Z) :=
  match r, fuel with
  | RDone payload, _ => (read_seq, payload)
  | _, O => (read_seq, None)
  | _, S fuel => let '(read_seq, r) := read_step ring read_seq r in run_read fuel ring read_seq r
  end.
Definition consume_one_payload (ring : PublishRing) (read_seq : Z) : Z * option (list Z) :=
  run_read (SLOT_DATA_SIZE + 6) ring read_seq RStart.

(** The inner loop of [drain_payloads], with room for [n] payloads. *)
Fixpoint consume_payloads (n : nat) (ring : PublishRing) (read_seq : Z) : Z * list (list Z) :=
  match n with
  | O => (read_seq, [])
  | S n =>
    match consume_one_payload ring read_seq with
    | (read_seq, None) => (read_seq, [])
    | (read_seq, Some payload) => let '(read_seq, out) := consume_payloads n ring read_seq in (read_seq, payload :: out)
    end
  end.

(** The part of [publish_payload] on the ring, run to its end. *)
Fixpoint run_write (fuel : nat) (ring : PublishRing) (w : writer) : PublishRing :=
  match w, fuel with
  | WIdle, _ | _, O => ring
  | _, S fuel => let '(ring, w) := write_step ring w in run_write fuel ring w
  end.
Definition publish_ring (ring : PublishRing) (payload : list Z) : PublishRing :=
  run_write (SLOT_DATA_SIZE + 6) ring (start_publish ring payload).

(** ** Interleaving *)

Record ring_system := mkSystem {
  ring : PublishRing;
  writers : gmap nat writer;
  readers : gmap nat (Z * reader);
  published : list (list Z);               (* the payloads committed so far *)
  received : gmap nat (list (Z * list Z))  (* what each reader got, with its number *)
}.

Definition with_ring (s : ring_system) (r : PublishRing) : ring_system :=
  mkSystem r (writers s) (readers s) (published s) (received s).

Definition start_write (s : ring_system) (w : nat) (payload : list Z) : ring_system :=
  mkSystem (ring s) (<[w := start_publish (ring s) payload]> (writers s)) (readers s) (published s) (received s).

Definition write (s : ring_system) (w : nat) (pc : writer) : ring_system :=
  let '(ring', pc') := write_step (ring s) pc in
  mkSystem ring' (<[w := pc']> (writers s)) (readers s)
    (match pc with WCommit _ payload => published s ++ [payload] | _ => published s end) (received s).

Definition got (r : reader) (cursor : Z) : list (Z * list Z) :=
  match r with RDone (Some payload) => [(cursor, payload)] | _ => [] end.

Definition read (s : ring_system) (i : nat) (cursor : Z) (pc : reader) : ring_system :=
  let '(cursor', pc') := read_step (ring s) cursor pc in
  mkSystem (ring s) (writers s) (<[i := (cursor', pc')]> (readers s)) (published s)
    (<[i := default [] (received s !! i) ++ got pc' cursor']> (received s)).

Definition set_reader (s : ring_system) (i : nat) (cursor : Z) (pc : reader) : ring_system :=
  mkSystem (ring s) (writers s) (<[i := (cursor, pc)]> (readers s)) (published s) (received s).

(** [initial_read_seq] *)
Definition initial_read_seq (head : Z) (primed_existing_rings : bool) : Z :=
  if primed_existing_rings then sat_sub head 1 else head.

Definition fits (payload : list Z) : Prop := payload <> [] /\ (length payload <= SLOT_DATA_SIZE)%nat.

Inductive ring_step : ring_system -> ring_system -> Prop :=
| step_publish s w payload : writers s !! w = Some WIdle -> fits payload -> ring_step s (start_write s w payload)
| step_write s w pc : writers s !! w = Some pc -> pc <> WIdle -> ring_step s (write s w pc)
| step_join s i primed : readers s !! i = None -> ring_step s (set_reader s i (initial_read_seq (head_seq (ring s)) primed) (RDone None))
| step_poll s i cursor o : readers s !! i = Some (cursor, RDone o) -> ring_step s (set_reader s i cursor RStart)
| step_read s i cursor pc : readers s !! i = Some (cursor, pc) -> (forall o, pc <> RDone o) -> ring_step s (read s i cursor pc).

(** A ring as [activate_ring] leaves it, with its writers. *)
Definition ring_init (ws : gset nat) : ring_system :=
  mkSystem zero_ring (set_to_map (fun w => (w, WIdle)) ws) ∅ [] ∅.
Definition reachable_ring (ws : gset nat) : ring_system -> Prop := rtc ring_step (ring_init ws).

(** ** The region *)

Definition SHM_MAGIC : Z := 0x4255434B594F534B.
Definition SHM_VERSION : Z := 2.
Definition ENTRY_FREE : Z := 0.
Definition ENTRY_INIT : Z := 1.
Definition ENTRY_READY : Z := 2.
Definition DIRTY_WORDS : nat := (MAX_RINGS + 63) / 64.

Record SharedHeader := mkHeader {
  magic : Z; version : Z; hd_max_rings : Z; hd_ring_capacity : Z; hd_slot_data_size : Z; init_lock : Z;
  epoch : Z; notify_seq : Z; dirty_mask : list Z
}.

Record RingDirectoryEntry := mkEntry {
  en_state : Z; owner_pid : Z; generation : Z; last_heartbeat_ms : Z; ring_offset : Z; ring_bytes : Z
}.

Record SharedRegion := mkRegion { header : SharedHeader; directory : list RingDirectoryEntry; rings : list PublishRing }.

Definition entry_of (region : SharedRegion) (ring_id : nat) : RingDirectoryEntry :=
  default (mkEntry 0 0 0 0 0 0) (directory region !! ring_id).
Definition ring_of (region : SharedRegion) (ring_id : nat) : PublishRing := default zero_ring (rings region !! ring_id).
Definition on_header (f : SharedHeader -> SharedHeader) (region : SharedRegion) : SharedRegion :=
  mkRegion (f (header region)) (directory region) (rings region).
Definition on_entry (f : RingDirectoryEntry -> RingDirectoryEntry) (ring_id : nat) (region : SharedRegion) : SharedRegion :=
  mkRegion (header region) (alter f ring_id (directory region)) (rings region).
Definition on_ring (f : PublishRing -> PublishRing) (ring_id : nat) (region : SharedRegion) : SharedRegion :=
  mkRegion (header region) (directory region) (alter f ring_id (rings region)).

Definition header_matches (region : SharedRegion) : bool :=
  let h := header region in
  (magic h =? SHM_MAGIC) && (version h =? SHM_VERSION) && (hd_max_rings h =? Z.of_nat MAX_RINGS)
  && (hd_ring_capacity h =? RING_CAPACITY) && (hd_slot_data_size h =? Z.of_nat SLOT_DATA_SIZE).

(** [size_of] of the structures of the layout, each aligned to 64 bytes. *)
Definition aligned (size : Z) : Z := (size + 63) / 64 * 64.
Definition size_of_slot : Z := aligned (16 + Z.of_nat SLOT_DATA_SIZE).
Definition size_of_ring : Z := 64 + RING_CAPACITY * size_of_slot.
Definition size_of_header : Z := aligned (48 + 8 * Z.of_nat DIRTY_WORDS).
Definition size_of_directory : Z := 64 * Z.of_nat MAX_RINGS.

(** [reset_region]: all of it is written. *)
Definition reset_region : SharedRegion :=
  let offset i := (size_of_header + size_of_directory + Z.of_nat i * size_of_ring) mod (u32_max + 1) in
  mkRegion
    (mkHeader SHM_MAGIC SHM_VERSION (Z.of_nat MAX_RINGS) RING_CAPACITY (Z.of_nat SLOT_DATA_SIZE) 0 1 0 (replicate DIRTY_WORDS 0))
    ((fun i => mkEntry ENTRY_FREE 0 0 0 (offset i) (size_of_ring mod (u32_max + 1))) <$> seq 0 MAX_RINGS)
    (replicate MAX_RINGS zero_ring).

(** [initialize_region_if_needed], with no other process about: with the lock
    or, after its wait for it, without, the region is reset. *)
Definition initialize_region_if_needed (region : SharedRegion) : SharedRegion :=
  if header_matches region then region else reset_region.

(** ** Allocation of rings *)

Context (is_process_alive : Z -> bool).

Definition set_state (state : Z) (e : RingDirectoryEntry) : RingDirectoryEntry :=
  mkEntry state (owner_pid e) (generation e) (last_heartbeat_ms e) (ring_offset e) (ring_bytes e).
Definition heartbeat (now : Z) (e : RingDirectoryEntry) : RingDirectoryEntry :=
  mkEntry (en_state e) (owner_pid e) (generation e) now (ring_offset e) (ring_bytes e).

(** What the passes of [allocate_ring] look for. *)
Definition free_entry (e : RingDirectoryEntry) : bool := en_state e =? ENTRY_FREE.
Definition reclaimable_entry (pid : Z) (e : RingDirectoryEntry) : bool :=
  ((en_state e =? ENTRY_READY) || (en_state e =? ENTRY_INIT))
  && negb (negb (owner_pid e =? 0) && negb (owner_pid e =? pid) && is_process_alive (owner_pid e)).
Definition own_entry (pid : Z) (e : RingDirectoryEntry) : bool := (en_state e =? ENTRY_READY) && (owner_pid e =? pid).

Definition find_entry (p : RingDirectoryEntry -> bool) (region : SharedRegion) : option nat :=
  fst <$> list_find (fun e => p e = true) (directory region).

(** The ring the passes settle on, with its entry exchanged to [ENTRY_INIT]. *)
Definition claim_ring (region : SharedRegion) (pid : Z) : option (SharedRegion * nat) :=
  ring_id ← match find_entry free_entry region with
            | Some ring_id => Some ring_id
            | None => match find_entry (reclaimable_entry pid) region with
                      | Some ring_id => Some ring_id
                      | None => find_entry (own_entry pid) region
                      end
            end;
  Some (on_entry (set_state ENTRY_INIT) ring_id region, ring_id).

Definition reset_ring (ring : PublishRing) : PublishRing :=
  mkRing 0 ((fun sl => mkSlot 0 0 (sl_payload sl)) <$> slots ring).

Definition activate_ring (region : SharedRegion) (ring_id : nat) (pid now : Z) : SharedRegion :=
  on_entry (fun e => mkEntry ENTRY_READY pid (wrapping_add (generation e) 1) now (ring_offset e) (ring_bytes e)) ring_id
    (on_ring reset_ring ring_id region).

Definition allocate_ring (region : SharedRegion) (pid now : Z) : option (SharedRegion * nat) :=
  '(region, ring_id) ← claim_ring region pid; Some (activate_ring region ring_id pid now, ring_id).

(** ** Handles, [SharedKEventRingBuffer] *)

Record RingCursor := mkCursor { cur_generation : Z; read_seq : Z }.
Record Handle := mkHandle { my_ring_id : nat; cursors : gmap nat RingCursor; primed_existing_rings : bool }.

Definition open (region : SharedRegion) (pid now : Z) : option (SharedRegion * Handle) :=
  '(region, ring_id) ← allocate_ring (initialize_region_if_needed region) pid now;
  Some (region, mkHandle ring_id ∅ false).

Definition bump_epoch : SharedRegion -> SharedRegion :=
  on_header (fun h => mkHeader (magic h) (version h) (hd_max_rings h) (hd_ring_capacity h) (hd_slot_data_size h) (init_lock h)
                        (wrapping_add (epoch h) 1) (notify_seq h) (dirty_mask h)).

(** The dirty bit of the ring is set and [notify_seq] moves on. *)
Definition notify_header (ring_id : nat) (h : SharedHeader) : SharedHeader :=
  mkHeader (magic h) (version h) (hd_max_rings h) (hd_ring_capacity h) (hd_slot_data_size h) (init_lock h) (epoch h)
    (wrapping_add (notify_seq h) 1)
    (alter (fun word => Z.lor word (Z.shiftl 1 (Z.of_nat (ring_id mod 64)))) (ring_id / 64)%nat (dirty_mask h)).

Definition publish_payload (region : SharedRegion) (h : Handle) (payload : list Z) (now : Z) : SharedRegion * (string + unit) :=
  if bool_decide (payload = []) then (region, inr tt)
  else if (SLOT_DATA_SIZE <? length payload)%nat then
    (region, inl ("payload too large: " +:+ u64_to_string (Z.of_nat (length payload)) +:+ " > "
                  +:+ u64_to_string (Z.of_nat SLOT_DATA_SIZE))%string)
  else
    let ring_id := my_ring_id h in
    (on_header (notify_header ring_id)
       (on_entry (heartbeat now) ring_id (on_ring (fun ring => publish_ring ring payload) ring_id region)), inr tt).

Definition ready (region : SharedRegion) (ring_id : nat) : bool := en_state (entry_of region ring_id) =? ENTRY_READY.

(** The rings of the others that are ready, in order. *)
Definition other_rings (region : SharedRegion) (h : Handle) : list nat :=
  List.filter (fun ring_id => negb (ring_id =? my_ring_id h)%nat && ready region ring_id) (seq 0 MAX_RINGS).

Definition prime_cursors (region : SharedRegion) (h : Handle) (now : Z) : SharedRegion * Handle :=
  let cursor ring_id := mkCursor (generation (entry_of region ring_id)) (head_seq (ring_of region ring_id)) in
  let prime cs ring_id := match cs !! ring_id with Some _ => cs | None => <[ring_id := cursor ring_id]> cs end in
  (on_entry (heartbeat now) (my_ring_id h) region,
   mkHandle (my_ring_id h) (fold_left prime (other_rings region h) (cursors h)) true).

(** The cursor the loop of [drain_payloads] reads a ring with: a new one for
    a ring it does not know or that has changed hands. *)
Definition cursor_for (region : SharedRegion) (primed : bool) (cs : gmap nat RingCursor) (ring_id : nat) : RingCursor :=
  let gen := generation (entry_of region ring_id) in
  let fresh := mkCursor gen (initial_read_seq (head_seq (ring_of region ring_id)) primed) in
  match cs !! ring_id with
  | None => fresh
  | Some cursor => if cur_generation cursor =? gen then cursor else fresh
  end.

(** One round of that loop. *)
Definition drain_ring (region : SharedRegion) (primed : bool) (max_events : nat)
    (acc : gmap nat RingCursor * list (list Z)) (ring_id : nat) : gmap nat RingCursor * list (list Z) :=
  let '(cs, out) := acc in
  if (max_events <=? length out)%nat then (cs, out)
  else
    let cursor := cursor_for region primed cs ring_id in
    let '(seq, payloads) := consume_payloads (max_events - length out) (ring_of region ring_id) (read_seq cursor) in
    (<[ring_id := mkCursor (cur_generation cursor) seq]> cs, out ++ payloads).

Definition drain_payloads (region : SharedRegion) (h : Handle) (max_events : nat) (now : Z)
  : SharedRegion * Handle * list (list Z) :=
  if (max_events =? 0)%nat then (region, h, [])
  else
    let '(cs, out) := fold_left (drain_ring region (primed_existing_rings h) max_events) (other_rings region h) (cursors h, []) in
    (on_entry (heartbeat now) (my_ring_id h) region, mkHandle (my_ring_id h) cs (primed_existing_rings h), out).

(** The payloads that decode; [decode] is [serde_json::from_slice]. *)
Definition drain_events {T} (decode : list Z -> option T) (region : SharedRegion) (h : Handle) (max_events : nat) (now : Z)
  : SharedRegion * Handle * list T :=
  let '(region, h, payloads) := drain_payloads region h max_events now in (region, h, omap decode payloads).
End ring.
