(* ===== verification/KEventRingFacts.v ===== *)
(** Facts on one ring: with one writer, whatever the interleaving, a reader
    gets only payloads that were published, whole, each once and in order; and
    what a ring at rest has to give. *)
From Stdlib Require Import ZArith Lia Sorted.
From stdpp Require Import base tactics numbers gmap strings fin_map_dom relations list.
From S2P Require Import Prelude RustString Lists KEventRing.

Section facts.
Context `{Layout}.
Implicit Types (r : PublishRing) (s : ring_system) (p : list Z) (seq t m : Z) (l : list (list Z)).

(** ** Slots *)

Lemma capacity_pos : 0 < RING_CAPACITY.
Proof. unfold RING_CAPACITY. apply Z.pow_pos_nonneg; lia. Qed.

Lemma slot_index_mod seq : slot_index seq = Z.to_nat (seq mod RING_CAPACITY).
Proof.
  unfold slot_index, RING_CAPACITY. rewrite Z.sub_1_r, <- Z.ones_equiv, Z.land_ones by lia. done.
Qed.

Lemma slot_index_lt seq : (slot_index seq < Z.to_nat RING_CAPACITY)%nat.
Proof. rewrite slot_index_mod. pose proof capacity_pos. pose proof (Z.mod_pos_bound seq RING_CAPACITY). lia. Qed.

Lemma slot_index_eq a b : slot_index a = slot_index b <-> exists k, a = b + k * RING_CAPACITY.
Proof.
  rewrite !slot_index_mod. pose proof capacity_pos as Hc. split.
  - intros E. pose proof (Z.mod_pos_bound a RING_CAPACITY Hc). pose proof (Z.mod_pos_bound b RING_CAPACITY Hc).
    exists (a / RING_CAPACITY - b / RING_CAPACITY).
    pose proof (Z.div_mod a RING_CAPACITY). pose proof (Z.div_mod b RING_CAPACITY). lia.
  - intros [k ->]. by rewrite Z.mod_add by lia.
Qed.

(** Two numbers of the same slot are a round apart. *)
Lemma slot_index_window a b : slot_index a = slot_index b -> a < b -> b - a >= RING_CAPACITY.
Proof. intros [k E]%slot_index_eq Hl. pose proof capacity_pos. assert (k < 0) by nia. nia. Qed.

Definition full r : Prop := length (slots r) = Z.to_nat RING_CAPACITY.

Lemma slot_of_on_slot f seq r t : full r ->
  slot_of (on_slot f seq r) t = if decide (slot_index t = slot_index seq) then f (slot_of r seq) else slot_of r t.
Proof.
  intros Hf. unfold slot_of, on_slot. simpl. case_decide as E.
  - rewrite E, list_lookup_alter_eq. assert (Hl : is_Some (slots r !! slot_index seq)).
    { apply lookup_lt_is_Some. rewrite Hf. apply slot_index_lt. }
    by destruct Hl as [sl ->].
  - by rewrite list_lookup_alter_ne by congruence.
Qed.

Lemma slot_of_on_slot_same f seq r : full r -> slot_of (on_slot f seq r) seq = f (slot_of r seq).
Proof. intros Hf. rewrite slot_of_on_slot by done. by rewrite decide_True by done. Qed.

Lemma full_on_slot f seq r : full r -> full (on_slot f seq r).
Proof. unfold full, on_slot. simpl. by rewrite length_alter. Qed.

(** ** The ring and its writer *)

(** The payload with this number. *)
Definition event_at (l : list (list Z)) m p : Prop := 1 <= m /\ l !! Z.to_nat (m - 1) = Some p.

Lemma event_at_range l m p : event_at l m p -> 1 <= m <= Z.of_nat (length l).
Proof. intros [? Hl%lookup_lt_Some]. lia. Qed.
Lemma event_at_app l k m p : event_at l m p -> event_at (l ++ k) m p.
Proof. intros [? ?]. split; [done|]. by apply lookup_app_l_Some. Qed.
Lemma event_at_fun l m p q : event_at l m p -> event_at l m q -> p = q.
Proof. intros [_ ?] [_ ?]. congruence. Qed.
Lemma event_at_exists l m : 1 <= m <= Z.of_nat (length l) -> exists p, event_at l m p.
Proof. intros Hm. destruct (lookup_lt_is_Some_2 l (Z.to_nat (m - 1))) as [p Hp]; [lia|]. exists p. split; [lia|done]. Qed.
Lemma event_at_snoc l p : event_at (l ++ [p]) (Z.of_nat (length l) + 1) p.
Proof. split; [lia|]. apply list_lookup_middle. lia. Qed.

(** The slot holds this payload. *)
Definition holds (sl : RingSlot) p : Prop := sl_len sl = Z.of_nat (length p) /\ take (length p) (sl_payload sl) = p.

Record slot_ok (l : list (list Z)) t (sl : RingSlot) : Prop := {
  ok_length : length (sl_payload sl) = SLOT_DATA_SIZE;
  ok_number : sl_seq sl <> 0 -> slot_index (sl_seq sl) = slot_index t /\ exists p, event_at l (sl_seq sl) p /\ holds sl p
}.

(** The slot the writer is at, past the first store. *)
Definition busy (w : writer) : option Z :=
  match w with WCopy seq _ _ | WLen seq _ | WCommit seq _ => Some seq | _ => None end.

(** What the writer has done so far. *)
Definition writer_ok r (l : list (list Z)) (w : writer) : Prop :=
  let n := Z.of_nat (length l) in
  match w with
  | WIdle => head_seq r = n
  | WInvalidate seq p => head_seq r = n /\ seq = n + 1 /\ fits p
  | WCopy seq p i => head_seq r = n /\ seq = n + 1 /\ fits p /\ sl_seq (slot_of r seq) = 0
      /\ (i <= length p)%nat /\ take i (sl_payload (slot_of r seq)) = take i p
  | WLen seq p => head_seq r = n /\ seq = n + 1 /\ fits p /\ sl_seq (slot_of r seq) = 0
      /\ take (length p) (sl_payload (slot_of r seq)) = p
  | WCommit seq p => head_seq r = n /\ seq = n + 1 /\ fits p /\ sl_seq (slot_of r seq) = 0 /\ holds (slot_of r seq) p
  | WHead seq p => head_seq r = n - 1 /\ seq = n /\ 1 <= n
  end.

Record memory_ok r (l : list (list Z)) (w : writer) : Prop := {
  mem_full : full r;
  mem_slots t : slot_ok l t (slot_of r t);
  mem_writer : writer_ok r l w;
  mem_fits : Forall fits l;
  mem_recent m : 1 <= m <= Z.of_nat (length l) -> Z.of_nat (length l) < m + RING_CAPACITY ->
    (forall seq, busy w = Some seq -> slot_index m <> slot_index seq) -> sl_seq (slot_of r m) = m
}.

Lemma take_insert_next {A} (l : list A) i x : (i < length l)%nat -> take (S i) (<[i := x]> l) = take i l ++ [x].
Proof.
  intros Hi. rewrite (take_S_r _ i x) by (by apply list_lookup_insert_eq). rewrite take_insert_ge by lia. done.
Qed.

(** ** The steps of the writer *)

(** A store of the writer that keeps the number of its slot, which is 0. *)
Lemma slots_kept r l seq f : full r -> (forall t, slot_ok l t (slot_of r t)) -> sl_seq (slot_of r seq) = 0 ->
  (forall sl, sl_seq (f sl) = sl_seq sl /\ length (sl_payload (f sl)) = length (sl_payload sl)) ->
  forall t, slot_ok l t (slot_of (on_slot f seq r) t).
Proof.
  intros Hf Hs H0 Hk t. rewrite slot_of_on_slot by done. case_decide; [|done].
  destruct (Hk (slot_of r seq)) as [E1 E2]. destruct (Hs seq) as [Hl _]. split; [congruence|]. rewrite E1, H0. done.
Qed.

Lemma recent_kept r l seq f m : full r ->
  (slot_index m <> slot_index seq -> sl_seq (slot_of r m) = m) -> slot_index m <> slot_index seq ->
  sl_seq (slot_of (on_slot f seq r) m) = m.
Proof. intros Hf Hm Hne. rewrite slot_of_on_slot, decide_False by done. auto. Qed.

Lemma write_step_ok r l w : memory_ok r l w -> Z.of_nat (length l) < u64_max -> w <> WIdle ->
  memory_ok (write_step r w).1 (match w with WCommit _ p => l ++ [p] | _ => l end) (write_step r w).2.
Proof.
  intros [Hf Hs Hw Hl Hr] Hn Hne. destruct w as [|seq p|seq p i|seq p|seq p|seq p]; simpl in *; [done|..].
  - destruct Hw as (Hh & -> & Hp). set (n := Z.of_nat (length l)) in *.
    split; simpl; [by apply full_on_slot| | |done|].
    + intros t. rewrite slot_of_on_slot by done. case_decide; [|done]. split; [|done]. apply (Hs (n + 1)).
    + rewrite slot_of_on_slot_same by done. simpl. split_and!; try done. lia.
    + intros m H1 H2 H3. apply recent_kept; [done..| |by apply H3]. intros _. by apply Hr.
  - destruct Hw as (Hh & -> & Hp & H0 & Hi & Ht). set (n := Z.of_nat (length l)) in *. destruct (p !! i) as [b|] eqn:Eb.
    + assert (E : slot_of (on_slot (store_byte i b) (n + 1) r) (n + 1) = store_byte i b (slot_of r (n + 1))).
      { rewrite slot_of_on_slot by done. by rewrite decide_True by done. }
      assert (Hlen : length (sl_payload (slot_of r (n + 1))) = SLOT_DATA_SIZE) by apply (Hs (n + 1)).
      apply lookup_lt_Some in Eb as Hlt. destruct Hp as [Hp Hsz].
      split; simpl; [by apply full_on_slot| | |done|].
      * apply slots_kept; [done..|]. intros sl. simpl. by rewrite length_insert.
      * rewrite slot_of_on_slot_same by done. simpl. split_and!; try done; try lia. rewrite take_insert_next by lia.
        rewrite Ht. symmetry. by apply take_S_r.
      * intros m H1 H2 H3. apply recent_kept; [done..| |by apply H3]. intros Hx. apply Hr; [done..|]. by intros ? [= <-].
    + split; simpl; try done. split_and!; try done. apply lookup_ge_None in Eb.
      replace (length p) with i by lia. rewrite Ht. apply take_ge. lia.
  - destruct Hw as (Hh & -> & Hp & H0 & Ht). set (n := Z.of_nat (length l)) in *.
    split; simpl; [by apply full_on_slot| | |done|].
    + by apply slots_kept.
    + rewrite slot_of_on_slot_same by done. simpl. by split_and!.
    + intros m H1 H2 H3. apply recent_kept; [done..| |by apply H3]. intros Hx. apply Hr; [done..|]. by intros ? [= <-].
  - destruct Hw as (Hh & -> & Hp & H0 & Hd). set (n := Z.of_nat (length l)) in *.
    split; simpl; [by apply full_on_slot| | | |].
    + intros t. rewrite slot_of_on_slot by done. case_decide as Et.
      * split; [apply (Hs (n + 1))|]. simpl. intros _. split; [done|]. exists p. split; [apply event_at_snoc|done].
      * destruct (Hs t) as [H1 H2]. split; [done|]. intros Hx. destruct (H2 Hx) as (? & q & Hq & ?). split; [done|].
        exists q. split; [by apply event_at_app|done].
    + rewrite length_app. simpl. lia.
    + apply Forall_app. split; [done|by apply Forall_singleton].
    + rewrite length_app. simpl. intros m H1 H2 _. rewrite slot_of_on_slot by done. case_decide as Em.
      * simpl. destruct (decide (m = n + 1)) as [|Hm]; [done|]. pose proof (slot_index_window m (n + 1) Em ltac:(lia)). lia.
      * apply Hr; [|lia|by intros ? [= <-]]. destruct (decide (m = n + 1)) as [->|]; [done|lia].
  - destruct Hw as (Hh & -> & _). split; simpl; done.
Qed.

(** A slot whose event is in the log does not get its number again. *)
Lemma write_step_seq r l w t : memory_ok r l w -> t <= Z.of_nat (length l) -> 1 <= t ->
  sl_seq (slot_of (write_step r w).1 t) = t -> sl_seq (slot_of r t) = t.
Proof.
  intros [Hf Hs Hw Hl Hr] Ht Ht1. destruct w as [|seq p|seq p i|seq p|seq p|seq p]; simpl in *; try done.
  - rewrite slot_of_on_slot by done. case_decide; simpl; [lia|done].
  - destruct (p !! i); simpl; [|done]. rewrite slot_of_on_slot by done. case_decide as E; simpl; [|done].
    destruct Hw as (_ & _ & _ & H0 & _). lia.
  - rewrite slot_of_on_slot by done. case_decide as E; simpl; [|done]. destruct Hw as (_ & _ & _ & H0 & _). lia.
  - rewrite slot_of_on_slot by done. case_decide as E; simpl; [|done]. lia.
Qed.

Lemma head_range r l w : memory_ok r l w ->
  0 <= head_seq r /\ Z.of_nat (length l) - 1 <= head_seq r <= Z.of_nat (length l).
Proof. intros [_ _ Hw _ _]. destruct w; simpl in Hw; lia. Qed.

Lemma write_step_head r l w : memory_ok r l w -> head_seq r <= head_seq (write_step r w).1.
Proof. intros [_ _ Hw _ _]. destruct w as [|? ?|? p i|? ?|? ?|? ?]; simpl in *; try lia. destruct (p !! i); simpl; lia. Qed.

(** ** The steps of a reader *)

(** What a reader has read of the event [t] is right if its slot still has the
    number [t]. *)
Definition reader_ok r l (cursor : Z) (rd : reader) : Prop :=
  let before t := 0 <= cursor /\ cursor + 1 = t /\ t <= head_seq r in
  match rd with
  | RStart | RDone _ => 0 <= cursor <= head_seq r
  | RSeq t | RLen t => before t
  | RCopy t len copy => before t /\ (length copy <= len)%nat
      /\ (sl_seq (slot_of r t) = t -> forall p, event_at l t p -> len = length p /\ copy = take (length copy) p)
  | RCheck t copy => before t /\ (sl_seq (slot_of r t) = t -> forall p, event_at l t p -> copy = p)
  end.

Lemma reader_ok_write r l w c rd : memory_ok r l w -> reader_ok r l c rd ->
  reader_ok (write_step r w).1 (match w with WCommit _ p => l ++ [p] | _ => l end) c rd.
Proof.
  intros Hm. pose proof (write_step_head _ _ _ Hm) as Hh. pose proof (head_range _ _ _ Hm) as Hn.
  assert (Hev : forall t p, 1 <= t <= Z.of_nat (length l) ->
    event_at (match w with WCommit _ p => l ++ [p] | _ => l end) t p -> event_at l t p).
  { intros t p Ht. destruct w; try done. intros Hp. destruct (event_at_exists l t Ht) as [q Hq].
    by rewrite (event_at_fun _ _ _ _ Hp (event_at_app _ _ _ _ Hq)). }
  destruct rd as [|t|t|t len copy|t copy|o]; simpl; try lia.
  - intros (Hb & Hl & Hc). split; [lia|]. split; [done|]. intros E p Hp.
    apply Hc; [eapply write_step_seq; [done|lia..|done]|]. apply Hev; [lia|done].
  - intros (Hb & Hc). split; [lia|]. intros E p Hp.
    apply Hc; [eapply write_step_seq; [done|lia..|done]|]. apply Hev; [lia|done].
Qed.

Lemma small_sub x y : 0 <= y <= x -> x <= u64_max -> wrapping_sub x y = x - y.
Proof. intros. unfold wrapping_sub. apply Z.mod_small. lia. Qed.
Lemma small_add x y : 0 <= x + y <= u64_max -> wrapping_add x y = x + y.
Proof. intros. unfold wrapping_add. apply Z.mod_small. lia. Qed.

(** The step keeps the reader right, moves the cursor forward, and what it
    hands out is the event at the new cursor. *)
Lemma read_step_ok r l w c rd : memory_ok r l w -> Z.of_nat (length l) < u64_max -> reader_ok r l c rd ->
  (forall o, rd <> RDone o) ->
  let '(c', rd') := read_step r c rd in
  reader_ok r l c' rd' /\ c <= c' /\ forall p, rd' = RDone (Some p) -> c < c' /\ event_at l c' p.
Proof.
  intros Hm Hn Hok Hnd. pose proof (head_range _ _ _ Hm) as Hh. pose proof capacity_pos as Hcap.
  assert (Hnum : forall t, sl_seq (slot_of r t) <> 0 -> 1 <= sl_seq (slot_of r t) <= Z.of_nat (length l)).
  { intros t Hx. destruct (mem_slots _ _ _ Hm t) as [_ H2]. destruct (H2 Hx) as (_ & p & Hp & _). by eapply event_at_range. }
  assert (Hjump : forall t, 0 < t -> t < sl_seq (slot_of r t) ->
    wrapping_sub (sl_seq (slot_of r t)) 1 = sl_seq (slot_of r t) - 1 /\ sl_seq (slot_of r t) - 1 <= head_seq r).
  { intros t H0 Hlt. specialize (Hnum t ltac:(lia)). rewrite small_sub by lia. lia. }
  destruct rd as [|t|t|t len copy|t copy|o]; simpl in *.
  - destruct (Z.eqb_spec c (head_seq r)) as [->|Hne]; [simpl; split_and!; try lia; done|].
    rewrite (small_sub (head_seq r) c) by lia. destruct (Z.ltb_spec RING_CAPACITY (head_seq r - c)) as [Hlt|Hge].
    + rewrite small_sub by lia. rewrite small_add by lia. simpl. split_and!; try lia; done.
    + rewrite small_add by lia. simpl. split_and!; try lia; done.
  - destruct (Z.eqb_spec (sl_seq (slot_of r t)) t) as [E|Hne]; simpl; [split_and!; try lia; done|].
    destruct (Z.ltb_spec t (sl_seq (slot_of r t))) as [Hlt|]; [|split_and!; try lia; done].
    destruct (Hjump t) as [-> ?]; [lia..|]. split_and!; try lia; done.
  - destruct ((sl_len (slot_of r t) =? 0) || (Z.of_nat SLOT_DATA_SIZE <? sl_len (slot_of r t))) eqn:El; simpl.
    { split_and!; try lia; done. }
    split_and!; try lia; try done. intros E p Hp. destruct (mem_slots _ _ _ Hm t) as [_ H2].
    destruct H2 as (_ & q & Hq & [Hlen _]); [lia|]. rewrite E in Hq. rewrite (event_at_fun _ _ _ _ Hp Hq), Hlen. split; [lia|done].
  - destruct Hok as (Hb & Hle & Hc). destruct (Nat.ltb_spec (length copy) len) as [Hlt|Hge].
    + simpl. split_and!; try lia; try done; [rewrite length_app; simpl; lia|]. intros E p Hp.
      destruct (Hc E p Hp) as [-> Hcopy]. split; [done|].
      destruct (mem_slots _ _ _ Hm t) as [_ H2]. destruct H2 as (_ & q & Hq & [Hlen Hd]); [lia|].
      rewrite E in Hq. rewrite (event_at_fun _ _ _ _ Hq Hp) in Hd. rewrite length_app. simpl. rewrite Nat.add_1_r.
      destruct (lookup_lt_is_Some_2 p (length copy)) as [b Hb']; [lia|].
      rewrite (take_S_r p _ b) by done. rewrite <- Hcopy. f_equal. f_equal.
      rewrite <- Hd, lookup_take_Some in Hb'. by destruct Hb' as [-> _].
    + simpl. split_and!; try lia; try done. intros E p Hp. destruct (Hc E p Hp) as [-> Hcopy]. rewrite Hcopy. apply take_ge. lia.
  - destruct Hok as (Hb & Hc). destruct (Z.eqb_spec (sl_seq (slot_of r t)) t) as [E|Hne]; simpl.
    + split_and!; try lia. intros p [= ->]. split; [lia|]. destruct (event_at_exists l t) as [q Hq]; [lia|].
      by rewrite (Hc E q Hq).
    + destruct (Z.ltb_spec t (sl_seq (slot_of r t))) as [Hlt|]; [|split_and!; try lia; done].
      destruct (Hjump t) as [-> ?]; [lia..|]. split_and!; try lia; done.
  - by destruct (Hnd o).
Qed.

(** ** Every interleaving *)

Record received_ok (l : list (list Z)) (cursor : Z) (got : list (Z * list Z)) : Prop := {
  rec_events : Forall (fun e => event_at l e.1 e.2 /\ e.1 <= cursor) got;
  rec_sorted : StronglySorted (fun e e' => e.1 < e'.1) got
}.

Lemma received_ok_weaken l k c c' got : received_ok l c got -> c <= c' -> received_ok (l ++ k) c' got.
Proof.
  intros [He Hs] Hc. split; [|done]. eapply Forall_impl; [done|]. intros e [H1 H2]. split; [by apply event_at_app|lia].
Qed.

Lemma received_ok_snoc l c c' got p : received_ok l c got -> c < c' -> event_at l c' p -> received_ok l c' (got ++ [(c', p)]).
Proof.
  intros [He Hs] Hc Hp. rewrite Forall_forall in He. split.
  - rewrite Forall_app, Forall_singleton, Forall_forall. split; [|by split; [|simpl; lia]].
    intros e [H1 H2]%He. split; [done|lia].
  - rewrite StronglySorted_app_inv. split_and!; [done|by repeat constructor|]. intros e e' [_ H2]%He ->%list_elem_of_singleton.
    simpl. lia.
Qed.

Record system_ok (w : nat) s (pc : writer) : Prop := {
  sys_writers : writers s = {[w := pc]};
  sys_memory : memory_ok (ring s) (published s) pc;
  sys_readers i c rd : readers s !! i = Some (c, rd) -> reader_ok (ring s) (published s) c rd;
  sys_received i c rd : readers s !! i = Some (c, rd) -> received_ok (published s) c (default [] (received s !! i));
  sys_known i : readers s !! i = None -> received s !! i = None
}.

Lemma zero_ring_ok : memory_ok zero_ring [] WIdle.
Proof.
  split; simpl; try done.
  - unfold full. simpl. by rewrite length_replicate.
  - intros t. unfold slot_of. simpl. destruct (replicate _ zero_slot !! slot_index t) as [sl|] eqn:E.
    + apply lookup_replicate in E as [-> _]. split; simpl; [apply length_replicate|done].
    + split; simpl; [apply length_replicate|done].
  - intros. lia.
Qed.

Lemma system_init_ok w : system_ok w (ring_init {[w]}) WIdle.
Proof.
  split; simpl; [|apply zero_ring_ok|done..]. unfold set_to_map. by rewrite elements_singleton.
Qed.

Lemma published_step s s' : ring_step s s' -> published s `prefix_of` published s'.
Proof.
  destruct 1; simpl; try done.
  - unfold write. destruct (write_step _ _). simpl. destruct pc; try done. by eexists.
  - unfold read. by destruct (read_step _ _ _).
Qed.

Lemma system_step_ok w s s' pc : ring_step s s' -> Z.of_nat (length (published s')) < u64_max -> system_ok w s pc ->
  exists pc', system_ok w s' pc'.
Proof.
  intros Hstep Hn [Hw Hm Hrd Hrc Hk]. assert (Hn' : Z.of_nat (length (published s)) < u64_max).
  { apply published_step, prefix_length in Hstep. lia. }
  pose proof (head_range _ _ _ Hm) as Hh. destruct Hstep as [s w' p Hp Hfit|s w' pc' Hp Hne|s i primed Hi|s i c o Hi|s i c rd Hi Hnd].
  - rewrite Hw in Hp. apply lookup_singleton_Some in Hp as [<- ->]. exists (start_publish (ring s) p).
    split; simpl; [by rewrite Hw, insert_singleton_eq| |done..].
    destruct Hm as [Hf Hs Hhd Hl Hr]. split; [done..| | |done]; [|done]. simpl in *. rewrite small_add by lia. by rewrite Hhd.
  - rewrite Hw in Hp. apply lookup_singleton_Some in Hp as [<- ->].
    pose proof (write_step_ok _ _ _ Hm Hn' Hne) as Hm'.
    assert (Hrd' := fun i c rd Hi => reader_ok_write _ _ _ c rd Hm (Hrd i c rd Hi)).
    unfold write in *. destruct (write_step (ring s) pc') as [r' pc''] eqn:E. simpl in *. exists pc''.
    split; simpl; [by rewrite Hw, insert_singleton_eq| | |..]; try (destruct pc'; done).
    intros i c rd Hi. specialize (Hrc i c rd Hi). destruct pc'; try done. by eapply received_ok_weaken.
  - exists pc. assert (Hc : 0 <= initial_read_seq (head_seq (ring s)) primed <= head_seq (ring s)).
    { unfold initial_read_seq, sat_sub. destruct primed; lia. }
    split; simpl; [done..| | |].
    + intros j c rd [[<- [= <- <-]]|[_ ?]]%lookup_insert_Some; [done|by apply (Hrd j)].
    + intros j c rd [[<- [= <- <-]]|[_ ?]]%lookup_insert_Some; [|by eapply Hrc]. rewrite (Hk i Hi). by repeat constructor.
    + intros j [? ?]%lookup_insert_None. by apply Hk.
  - exists pc. split; simpl; [done..| | |].
    + intros j c' rd [[<- [= <- <-]]|[_ ?]]%lookup_insert_Some; [by apply (Hrd i c (RDone o))|by apply (Hrd j)].
    + intros j c' rd [[<- [= <- <-]]|[_ ?]]%lookup_insert_Some; [by eapply Hrc|by eapply Hrc].
    + intros j [? ?]%lookup_insert_None. by apply Hk.
  - exists pc. pose proof (read_step_ok _ _ _ c rd Hm Hn' (Hrd i c rd Hi) Hnd) as Hr.
    unfold read in *. destruct (read_step (ring s) c rd) as [c' rd'] eqn:E. destruct Hr as (Hok & Hle & Hgot).
    split; simpl; [done..| | |].
    + intros j cj rdj [[<- [= <- <-]]|[_ ?]]%lookup_insert_Some; [done|by apply (Hrd j)].
    + intros j cj rdj [[<- [= <- <-]]|[Hij ?]]%lookup_insert_Some.
      * rewrite lookup_insert_eq. simpl. specialize (Hrc i c rd Hi).
        assert (Hsame : received_ok (published s) c' (default [] (received s !! i))).
        { rewrite <- (app_nil_r (published s)). by eapply received_ok_weaken. }
        destruct rd' as [| | | | |[p|]]; simpl; rewrite ?app_nil_r; try done.
        destruct (Hgot p eq_refl) as [? ?]. by apply (received_ok_snoc _ c).
      * rewrite lookup_insert_ne by done. by eapply Hrc.
    + intros j [? ?]%lookup_insert_None. rewrite lookup_insert_ne by done. by apply Hk.
Qed.

Lemma reachable_ring_ok w s : reachable_ring {[w]} s -> Z.of_nat (length (published s)) < u64_max ->
  exists pc, system_ok w s pc.
Proof.
  intros Hr. revert s Hr. refine (rtc_ind_r _ _ _ _); [intros _; eexists; apply system_init_ok|].
  intros s s' Hr Hstep IH Hn. destruct IH as [pc Hok]; [|by eapply system_step_ok].
  apply published_step, prefix_length in Hstep. lia.
Qed.

(** ** At rest *)

Section rest.
Context (r : PublishRing) (l : list (list Z)) (Hm : memory_ok r l WIdle) (Hn : Z.of_nat (length l) < u64_max).

Lemma rest_head : head_seq r = Z.of_nat (length l).
Proof using Hm. apply (mem_writer _ _ _ Hm). Qed.

(** The slot of an event that is not overwritten. *)
Lemma rest_slot t p : event_at l t p -> Z.of_nat (length l) < t + RING_CAPACITY ->
  sl_seq (slot_of r t) = t /\ holds (slot_of r t) p /\ (0 < length p <= SLOT_DATA_SIZE)%nat.
Proof using Hm.
  intros Hp Ht. pose proof (event_at_range _ _ _ Hp) as Hr.
  assert (E : sl_seq (slot_of r t) = t) by (apply (mem_recent _ _ _ Hm); done).
  destruct (mem_slots _ _ _ Hm t) as [_ H2]. destruct H2 as (_ & q & Hq & Hh); [lia|]. rewrite E in Hq.
  rewrite (event_at_fun _ _ _ _ Hp Hq). split; [done|]. split; [done|]. destruct Hq as [_ Hq].
  pose proof (mem_fits _ _ _ Hm) as Hf. rewrite Forall_lookup in Hf. destruct (Hf _ _ Hq). destruct q; [done|simpl in *; lia].
Qed.

Lemma rest_copy t p c fuel copy : event_at l t p -> Z.of_nat (length l) < t + RING_CAPACITY ->
  copy = take (length copy) p -> (length copy <= length p)%nat -> (length p - length copy + 3 <= fuel)%nat ->
  run_read fuel r c (RCopy t (length p) copy) = (t, Some p).
Proof using Hm.
  intros Hp Ht. destruct (rest_slot t p Hp Ht) as (Hs & [Hlen Hd] & _).
  revert copy. induction fuel as [|fuel IH]; intros copy Hc Hle Hf; [lia|]. cbn [run_read read_step].
  destruct (Nat.ltb_spec (length copy) (length p)) as [Hlt|Hge].
  - apply IH; rewrite ?length_app; simpl; [|lia..]. rewrite Nat.add_1_r.
    destruct (lookup_lt_is_Some_2 p (length copy) Hlt) as [b Hb]. rewrite (take_S_r p _ b Hb), <- Hc. f_equal. f_equal.
    rewrite <- Hd, lookup_take_Some in Hb. by destruct Hb as [-> _].
  - destruct fuel as [|[|fuel]]; [lia|lia|]. cbn [run_read read_step]. rewrite Hs, Z.eqb_refl. cbn [run_read].
    rewrite Hc. by rewrite take_ge by lia.
Qed.

(** Where a reader with this cursor goes on. *)
Definition resume (c : Z) : Z := Z.max c (Z.of_nat (length l) - RING_CAPACITY).

Lemma consume_one_exact c : 0 <= c <= Z.of_nat (length l) ->
  consume_one_payload r c
  = match l !! Z.to_nat (resume c) with Some p => (resume c + 1, Some p) | None => (c, None) end.
Proof using Hm Hn.
  intros Hc. unfold consume_one_payload. replace (SLOT_DATA_SIZE + 6)%nat with (S (S (S (SLOT_DATA_SIZE + 3)))) by lia.
  remember (SLOT_DATA_SIZE + 3)%nat as fuel eqn:Hfuel. cbn [run_read read_step]. rewrite rest_head.
  pose proof capacity_pos. unfold resume. destruct (Z.eqb_spec c (Z.of_nat (length l))) as [->|Hne].
  { rewrite lookup_ge_None_2 by lia. done. }
  destruct (lookup_lt_is_Some_2 l (Z.to_nat (Z.max c (Z.of_nat (length l) - RING_CAPACITY)))) as [p Hp]; [lia|]. rewrite Hp.
  rewrite small_sub by lia.
  assert (E : (if RING_CAPACITY <? Z.of_nat (length l) - c then wrapping_sub (Z.of_nat (length l)) RING_CAPACITY else c)
              = resume c).
  { unfold resume. destruct (Z.ltb_spec RING_CAPACITY (Z.of_nat (length l) - c)); [rewrite small_sub by lia|]; lia. }
  rewrite E. clear E. unfold resume. set (c0 := Z.max c _) in *. rewrite small_add by lia.
  assert (Hev : event_at l (c0 + 1) p) by (split; [lia|by rewrite Z.add_simpl_r]).
  destruct (rest_slot (c0 + 1) p Hev) as (Hs & [Hlen Hd] & Hsz); [lia|].
  cbn [run_read read_step]. rewrite Hs, Z.eqb_refl. cbn [run_read read_step]. rewrite Hlen.
  rewrite (proj2 (Z.eqb_neq _ 0)) by lia. rewrite (proj2 (Z.ltb_ge _ _)) by lia. cbn [orb].
  rewrite Nat2Z.id. apply rest_copy; [done|lia|done|simpl; lia|simpl; lia].
Qed.

(** What one call of [drain_payloads] takes from a ring. *)
Lemma consume_payloads_exact n c : 0 <= c <= Z.of_nat (length l) ->
  let out := take n (drop (Z.to_nat (resume c)) l) in
  consume_payloads n r c = (if bool_decide (out = []) then c else resume c + Z.of_nat (length out), out).
Proof using Hm Hn.
  simpl. revert c. induction n as [|n IH]; intros c Hc; [done|]. cbn [consume_payloads]. rewrite consume_one_exact by done.
  assert (Hr : resume c <= Z.of_nat (length l)). { unfold resume. pose proof capacity_pos. lia. }
  destruct (l !! Z.to_nat (resume c)) as [p|] eqn:E.
  - rewrite (drop_S _ _ _ E). cbn [take]. rewrite bool_decide_false by done.
    apply lookup_lt_Some in E as Hlt. rewrite IH by (unfold resume in *; lia).
    assert (E1 : resume (resume c + 1) = resume c + 1) by (unfold resume; lia). rewrite E1.
    replace (Z.to_nat (resume c + 1)) with (S (Z.to_nat (resume c))) by (unfold resume in *; lia).
    f_equal. case_bool_decide as Ho; [rewrite Ho; simpl; lia|]. simpl length. lia.
  - apply lookup_ge_None in E. rewrite drop_ge by done. by rewrite take_nil.
Qed.
End rest.

(** A publication that runs to its end. *)
Lemma run_write_copy r l seq p i fuel : memory_ok r l (WCopy seq p i) -> Z.of_nat (length l) < u64_max ->
  (length p - i + 4 <= fuel)%nat -> memory_ok (run_write fuel r (WCopy seq p i)) (l ++ [p]) WIdle.
Proof.
  intros Hm Hn. revert r i Hm. induction fuel as [|fuel IH]; intros r i Hm Hf; [lia|]. cbn [run_write].
  pose proof (write_step_ok _ _ _ Hm Hn ltac:(done)) as H1. destruct (write_step r (WCopy seq p i)) as [r1 w1] eqn:E1.
  cbn [write_step] in E1. cbn [fst snd] in H1. destruct (p !! i) as [b|] eqn:Eb.
  - injection E1 as <- <-. apply IH; [done|]. apply lookup_lt_Some in Eb. lia.
  - injection E1 as <- <-. destruct fuel as [|fuel]; [lia|]. cbn [run_write write_step].
    pose proof (write_step_ok _ _ _ H1 Hn ltac:(done)) as H2. cbn [write_step fst snd] in H2.
    destruct fuel as [|fuel]; [lia|]. cbn [run_write write_step].
    pose proof (write_step_ok _ _ _ H2 Hn ltac:(done)) as H3. cbn [write_step fst snd] in H3.
    destruct fuel as [|fuel]; [lia|]. cbn [run_write write_step].
    destruct (mem_writer _ _ _ H3) as (Hh & Hseq & _).
    assert (H4 : memory_ok (store_head seq (on_slot (store_seq seq) seq (on_slot (store_len (Z.of_nat (length p))) seq r)))
                   (l ++ [p]) WIdle).
    { destruct H3 as [Hf' Hs Hw Hl Hr]. split; try done. }
    by destruct fuel.
Qed.

Lemma publish_ring_ok r l p : memory_ok r l WIdle -> Z.of_nat (length l) < u64_max -> fits p ->
  memory_ok (publish_ring r p) (l ++ [p]) WIdle.
Proof.
  intros Hm Hn Hp. unfold publish_ring, start_publish. rewrite (rest_head r l Hm). rewrite small_add by lia.
  replace (SLOT_DATA_SIZE + 6)%nat with (S (SLOT_DATA_SIZE + 5)) by lia.
  remember (SLOT_DATA_SIZE + 5)%nat as fuel eqn:Hfuel. cbn [run_write].
  assert (H0 : memory_ok r l (WInvalidate (Z.of_nat (length l) + 1) p)).
  { destruct Hm as [Hf Hs Hw Hl Hr]. split; try done. }
  pose proof (write_step_ok _ _ _ H0 Hn ltac:(done)) as H1. destruct (write_step r _) as [r1 w1] eqn:E1.
  cbn [write_step] in E1. injection E1 as <- <-. cbn [fst snd] in H1.
  apply run_write_copy; [done|done|]. destruct Hp. lia.
Qed.

(** ** The region *)

(** Every ring is at rest, with these events. *)
Record region_ok (region : SharedRegion) (logs : list (list (list Z))) : Prop := {
  reg_directory : length (directory region) = MAX_RINGS;
  reg_rings : Forall2 (fun r l => memory_ok r l WIdle /\ Z.of_nat (length l) < u64_max) (rings region) logs;
  reg_length : length (rings region) = MAX_RINGS
}.

Definition log_of (logs : list (list (list Z))) (i : nat) : list (list Z) := default [] (logs !! i).

Lemma ring_of_ok region logs i : region_ok region logs -> (i < MAX_RINGS)%nat ->
  memory_ok (ring_of region i) (log_of logs i) WIdle /\ Z.of_nat (length (log_of logs i)) < u64_max.
Proof.
  intros [_ Hr Hl] Hi. destruct (lookup_lt_is_Some_2 (rings region) i) as [r Er]; [lia|].
  destruct (Forall2_lookup_l _ _ _ _ _ Hr Er) as (l & El & H1). unfold ring_of, log_of. by rewrite Er, El.
Qed.

(** The events of a ring a handle has still to read. *)
Definition unread (region : SharedRegion) (h : Handle) (logs : list (list (list Z))) (i : nat) : list (list Z) :=
  drop (Z.to_nat (resume (log_of logs i) (read_seq (cursor_for region (primed_existing_rings h) (cursors h) i)))) (log_of logs i).
Definition pending (region : SharedRegion) (h : Handle) (logs : list (list (list Z))) : list (list Z) :=
  flat_map (unread region h logs) (other_rings region h).

(** No cursor is ahead of its ring. *)
Definition cursors_ok (region : SharedRegion) (h : Handle) (logs : list (list (list Z))) : Prop :=
  forall i, (i < MAX_RINGS)%nat ->
    0 <= read_seq (cursor_for region (primed_existing_rings h) (cursors h) i) <= Z.of_nat (length (log_of logs i)).

Lemma elem_of_other_rings region h i :
  i ∈ other_rings region h <-> (i < MAX_RINGS)%nat /\ i <> my_ring_id h /\ ready region i = true.
Proof.
  unfold other_rings. rewrite elem_of_filterb, elem_of_seq, andb_true_iff, negb_true_iff, Nat.eqb_neq. naive_solver lia.
Qed.

Lemma NoDup_other_rings region h : NoDup (other_rings region h).
Proof. apply NoDup_filterb, NoDup_seq. Qed.

Lemma cursor_for_insert region primed cs i c j :
  cursor_for region primed (<[i := c]> cs) j
  = if decide (i = j) then (if cur_generation c =? generation (entry_of region j) then c else
       mkCursor (generation (entry_of region j)) (initial_read_seq (head_seq (ring_of region j)) primed))
    else cursor_for region primed cs j.
Proof.
  unfold cursor_for. case_decide as E; [subst; by rewrite lookup_insert_eq|by rewrite lookup_insert_ne].
Qed.

Lemma cursor_for_generation region primed cs i : cur_generation (cursor_for region primed cs i) = generation (entry_of region i).
Proof. unfold cursor_for. destruct (cs !! i) as [c|]; [|done]. by destruct (Z.eqb_spec (cur_generation c) (generation (entry_of region i))). Qed.

Section drain.
Context (region : SharedRegion) (logs : list (list (list Z))) (Hok : region_ok region logs).

(** A handle with these cursors. *)
Definition handle_with (h : Handle) (cs : gmap nat RingCursor) : Handle := mkHandle (my_ring_id h) cs (primed_existing_rings h).

Lemma drain_ring_exact h n cs out i : (i < MAX_RINGS)%nat -> cursors_ok region (handle_with h cs) logs ->
  let '(cs', out') := drain_ring region (primed_existing_rings h) n (cs, out) i in
  let todo := unread region (handle_with h cs) logs i in
  out' = out ++ take (n - length out) todo
  /\ unread region (handle_with h cs') logs i = drop (n - length out) todo
  /\ (forall j, j <> i -> unread region (handle_with h cs') logs j = unread region (handle_with h cs) logs j)
  /\ cursors_ok region (handle_with h cs') logs.
Proof using Hok.
  intros Hi Hc. destruct (ring_of_ok _ _ _ Hok Hi) as [Hm Hn]. unfold drain_ring.
  destruct (Nat.leb_spec n (length out)) as [Hle|Hlt].
  { replace (n - length out)%nat with 0%nat by lia. rewrite take_0, app_nil_r, drop_0. done. }
  specialize (Hc i Hi) as Hci. simpl in Hci. rewrite (consume_payloads_exact _ _ Hm Hn) by done.
  unfold unread at 1 2 3. simpl. set (c := cursor_for _ _ cs i) in *. set (l := log_of logs i) in *.
  set (got := take _ (drop _ l)). set (seq' := if bool_decide _ then _ else _).
  assert (Hseq : 0 <= seq' <= Z.of_nat (length l) /\ drop (Z.to_nat (resume l seq')) l = drop (n - length out) (drop (Z.to_nat (resume l (read_seq c))) l)).
  { assert (Hres : read_seq c <= resume l (read_seq c) <= Z.of_nat (length l)).
    { unfold resume. pose proof capacity_pos. lia. }
    assert (Hlen : length got = Nat.min (n - length out) (length l - Z.to_nat (resume l (read_seq c)))).
    { unfold got. by rewrite length_take, length_drop. }
    unfold seq'. case_bool_decide as Eg; [|].
    - split; [done|]. rewrite Eg in Hlen. simpl in Hlen. rewrite drop_drop. rewrite !drop_ge by lia. done.
    - assert (length got <> 0%nat) by (by destruct got). split; [lia|].
      assert (Er : resume l (resume l (read_seq c) + Z.of_nat (length got)) = resume l (read_seq c) + Z.of_nat (length got)).
      { unfold resume. lia. }
      rewrite Er, drop_drop. rewrite Hlen. destruct (Nat.min_spec (n - length out) (length l - Z.to_nat (resume l (read_seq c)))) as [[? ->]|[? ->]].
      + f_equal. lia.
      + rewrite !drop_ge by lia. done. }
  destruct Hseq as [Hr Hd]. unfold handle_with. simpl.
  assert (Hfor : cursor_for region (primed_existing_rings h) (<[i := mkCursor (cur_generation c) seq']> cs) i = mkCursor (cur_generation c) seq').
  { rewrite cursor_for_insert, decide_True by done. simpl. unfold c. by rewrite cursor_for_generation, Z.eqb_refl. }
  split_and!; [done|by rewrite Hfor| |].
  - intros j Hj. unfold unread. simpl. by rewrite cursor_for_insert, decide_False by done.
  - intros j Hj. simpl. destruct (decide (i = j)) as [<-|Hne]; [by rewrite Hfor|].
    rewrite cursor_for_insert, decide_False by done. by apply Hc.
Qed.

Lemma drain_rings_exact h n (ids : list nat) cs out : NoDup ids -> Forall (fun i => (i < MAX_RINGS)%nat) ids -> (length out <= n)%nat ->
  cursors_ok region (handle_with h cs) logs ->
  let '(cs', out') := fold_left (drain_ring region (primed_existing_rings h) n) ids (cs, out) in
  let todo := flat_map (unread region (handle_with h cs) logs) ids in
  out' = out ++ take (n - length out) todo
  /\ flat_map (unread region (handle_with h cs') logs) ids = drop (n - length out) todo
  /\ (forall j, j ∉ ids -> unread region (handle_with h cs') logs j = unread region (handle_with h cs) logs j)
  /\ cursors_ok region (handle_with h cs') logs.
Proof using Hok.
  revert cs out. induction ids as [|i ids IH]; intros cs out Hnd Hl Hle Hc; cbn [flat_map fold_left].
  { by rewrite take_nil, drop_nil, app_nil_r. }
  apply NoDup_cons in Hnd as [Hi Hnd]. apply Forall_cons in Hl as [Him Hl].
  pose proof (drain_ring_exact h n cs out i Him Hc) as H1.
  destruct (drain_ring _ _ _ _ _) as [cs1 out1]. destruct H1 as (-> & Hu & Hother & Hc1).
  set (todo := unread region (handle_with h cs) logs i) in *.
  assert (Hlen : length (out ++ take (n - length out) todo) = (length out + Nat.min (n - length out) (length todo))%nat).
  { by rewrite length_app, length_take. }
  pose proof (IH cs1 (out ++ take (n - length out) todo) Hnd Hl) as H2.
  destruct (fold_left _ ids _) as [cs2 out2]. destruct H2 as (-> & Hrest & Hothers & Hc2); [lia|done|].
  assert (Erest : flat_map (unread region (handle_with h cs1) logs) ids = flat_map (unread region (handle_with h cs) logs) ids).
  { clear -Hother Hi. induction ids as [|j ids IH]; simpl; [done|]. apply not_elem_of_cons in Hi as [? ?]. rewrite Hother, IH; done. }
  rewrite Erest in *. rewrite (Hothers i Hi), Hu, Hrest, Hlen. rewrite take_app, drop_app, <- app_assoc.
  replace (n - (length out + Nat.min (n - length out) (length todo)))%nat with (n - length out - length todo)%nat by lia.
  split_and!; try done. intros j [? ?]%not_elem_of_cons. by rewrite Hothers, Hother.
Qed.
End drain.
End facts.
