(* ===== verification/KEventService.v ===== *)
(** The event bus: the daemon of a node ([kernel/kevent/src/service.rs], with
    the connections of [native_server.rs] and the peers of [native.rs]) and the
    client in a process ([kernel/buckyos-api/src/kevent_client.rs]).

    Calls run one after the other.  A daemon keeps a queue of bounded length for
    each of its readers, mirrors what it accepts to the ring buffers of its node
    and hands it to its peers; a client reads the ring buffers and dispatches to
    readers of its own. *)
From Stdlib Require Import ZArith Lia Ascii.
From stdpp Require Import base tactics numbers gmap strings list.
From S2P Require Import Prelude RustString Lists KEventPattern KEventRing.

Definition DEFAULT_READER_CAPACITY : nat := 1024.
Definition MAX_EVENT_DATA_SIZE_BYTES : nat := 65536.
Definition SHARED_RING_DRAIN_BATCH : nat := 128.

Section service.
(** [Value] is the JSON of the events' data. *)
Context `{Layout} {Value : Type}.

Record Event := mkEvent {
  eventid : string;
  ev_source_node : string;
  source_pid : Z;
  ingress_node : option string;
  timestamp : Z;
  data : Value
}.
Definition with_ingress (node : string) (e : Event) : Event :=
  mkEvent (eventid e) (ev_source_node e) (source_pid e) (Some node) (timestamp e) (data e).

(** [serde_json::to_vec] of the data and of an event, or its message. *)
Context (encode_data : Value -> string + list Z) (encode_event : Event -> string + list Z).
(** [serde_json::from_slice] *)
Context (decode_event : list Z -> option Event).

Definition validate_event_data_size (data : Value) : kresult unit :=
  match encode_data data with
  | inl err => inl (Internal ("failed to encode event data: " +:+ err))
  | inr bytes =>
    if (MAX_EVENT_DATA_SIZE_BYTES <? length bytes)%nat then
      inl (InvalidEventId ("event data too large: " +:+ u64_to_string (Z.of_nat (length bytes)) +:+ " bytes, max "
                           +:+ u64_to_string (Z.of_nat MAX_EVENT_DATA_SIZE_BYTES)))
    else inr tt
  end.

(** ** Readers, [ServiceReaderState] and [ReaderState] *)

Record ReaderState := mkReader { patterns : list string; queue : list Event; capacity : nat }.

Definition matches (r : ReaderState) (id : string) : bool := match_event_patterns (patterns r) id.
Definition push (e : Event) (r : ReaderState) : ReaderState :=
  let queue := if (capacity r <=? length (queue r))%nat then drop 1 (queue r) else queue r in
  mkReader (patterns r) (queue ++ [e]) (capacity r).
Definition pop (r : ReaderState) : ReaderState * option Event :=
  match queue r with
  | [] => (r, None)
  | e :: queue => (mkReader (patterns r) queue (capacity r), Some e)
  end.
Definition with_patterns (patterns : list string) (r : ReaderState) : ReaderState := mkReader patterns (queue r) (capacity r).

(** The body of the loop of [distribute] and [dispatch_event]. *)
Definition offer (e : Event) (r : ReaderState) : ReaderState := if matches r (eventid e) then push e r else r.

(** What a wait for an event comes to: a result, or the wait itself. *)
Inductive pulled := Pulled (r : kresult (option Event)) | Waits.

(** ** The daemon *)

(** A session and a reader's id. *)
Abbreviation ReaderKey := (Z * string)%type.
Definition SHARED : Z := 0.

Record KEventService := mkService {
  source_node : string;
  reader_capacity : nat;
  readers : gmap ReaderKey ReaderState;
  shm : SharedRegion;                 (* the region of the node *)
  shared_ring : option Handle;        (* the daemon's handle on it *)
  session_seq : Z
}.

Definition set_readers (readers : gmap ReaderKey ReaderState) (s : KEventService) : KEventService :=
  mkService (source_node s) (reader_capacity s) readers (shm s) (shared_ring s) (session_seq s).
Definition set_shm (shm : SharedRegion) (s : KEventService) : KEventService :=
  mkService (source_node s) (reader_capacity s) (readers s) shm (shared_ring s) (session_seq s).

Definition new_with_capacity (source_node : string) (reader_capacity : nat) (shm : SharedRegion) : KEventService :=
  mkService source_node (Nat.max reader_capacity 1) ∅ shm None 0.

Definition open_session (s : KEventService) : KEventService * Z :=
  (mkService (source_node s) (reader_capacity s) (readers s) (shm s) (shared_ring s) (wrapping_add (session_seq s) 1),
   wrapping_add (session_seq s) 1).

Definition close_session (session : Z) (s : KEventService) : KEventService * nat :=
  if session =? SHARED then (s, 0%nat)
  else
    let kept := filter (fun kr => kr.1.1 <> session) (readers s) in
    (set_readers kept s, (size (readers s) - size kept)%nat).

Definition daemon_pattern (pattern : string) : kresult unit :=
  validate_pattern pattern ;;
  if is_global_pattern pattern then inr tt else inl (InvalidPattern "daemon only supports global patterns").

Definition register_reader_in (session : Z) (reader_id : string) (patterns : list string) (s : KEventService)
  : KEventService * kresult unit :=
  if String.eqb reader_id "" then (s, inl (InvalidPattern "reader_id must not be empty"))
  else if bool_decide (patterns = []) then (s, inl (InvalidPattern "patterns must not be empty"))
  else
    match try_all daemon_pattern patterns with
    | inl e => (s, inl e)
    | inr _ =>
      let normalized := normalize_patterns patterns in
      let key := (session, reader_id) in
      let r := match readers s !! key with
               | Some existing => with_patterns normalized existing
               | None => mkReader normalized [] (reader_capacity s)
               end in
      (set_readers (<[key := r]> (readers s)) s, inr tt)
    end.

Definition unregister_reader_in (session : Z) (reader_id : string) (s : KEventService) : KEventService :=
  set_readers (delete (session, reader_id) (readers s)) s.

(** [next] of [update_reader_in]. *)
Definition updated_patterns (add remove current : list string) : list string :=
  let next := List.filter (fun p => negb (existsb (String.eqb p) remove)) current in
  if bool_decide (add = []) then next else normalize_patterns (next ++ add).

Definition update_reader_in (session : Z) (reader_id : string) (add remove : list string) (s : KEventService)
  : KEventService * kresult unit :=
  if String.eqb reader_id "" then (s, inl (InvalidPattern "reader_id must not be empty"))
  else
    match try_all daemon_pattern (add ++ remove) with
    | inl e => (s, inl e)
    | inr _ =>
      match readers s !! (session, reader_id) with
      | None => (s, inl (ReaderClosed reader_id))
      | Some r =>
        let next := updated_patterns add remove (patterns r) in
        if bool_decide (next = []) then (s, inl (InvalidPattern "reader must keep at least one pattern"))
        else (set_readers (<[(session, reader_id) := with_patterns next r]> (readers s)) s, inr tt)
      end
    end.

(** A round of the loop of [pull_event_in]. *)
Definition pull_event_in (session : Z) (reader_id : string) (timeout_ms : option Z) (s : KEventService) : KEventService * pulled :=
  match readers s !! (session, reader_id) with
  | None => (s, Pulled (inl (ReaderClosed reader_id)))
  | Some r =>
    match pop r with
    | (r, Some e) => (set_readers (<[(session, reader_id) := r]> (readers s)) s, Pulled (inr (Some e)))
    | (_, None) => (s, if bool_decide (timeout_ms = Some 0) then Pulled (inr None) else Waits)
    end
  end.

(** Every reader that matches, in whatever order. *)
Definition distribute (e : Event) (s : KEventService) : KEventService := set_readers (offer e <$> readers s) s.

Definition mirror_to_shared_ring (e : Event) (now : Z) (s : KEventService) : KEventService * kresult unit :=
  match shared_ring s with
  | None => (s, inr tt)
  | Some h =>
    match encode_event e with
    | inl err => (s, inl (Internal ("encode event failed: " +:+ err)))
    | inr payload =>
      match publish_payload (shm s) h payload now with
      | (_, inl err) => (s, inl (Internal err))
      | (region, inr _) => (set_shm region s, inr tt)
      end
    end
  end.

Definition should_broadcast_to_peers (e : Event) (local_node : string) : bool :=
  match ingress_node e with Some node => String.eqb node local_node | None => true end.

(** The three checks of every publication. *)
Definition check_event (not_global : string) (id : string) (data : Value) : kresult unit :=
  (if is_global_eventid id then inr tt else inl (InvalidEventId not_global)) ;;
  validate_eventid id ;;
  validate_event_data_size data.

(** What a publication does on its node, and the event for the peers. *)
Definition local : Type := KEventService -> KEventService * kresult (option Event).

Definition to_peers (e : Event) : local := fun s =>
  let s := distribute e s in (s, inr (if should_broadcast_to_peers e (source_node s) then Some e else None)).
Definition mirrored (e : Event) (now : Z) (k : local) : local := fun s =>
  match mirror_to_shared_ring e now s with (s, inl err) => (s, inl err) | (s, inr _) => k s end.
Definition checked (not_global id : string) (data : Value) (k : local) : local := fun s =>
  match check_event not_global id data with inl err => (s, inl err) | inr _ => k s end.

Definition daemon_event (s : KEventService) (id : string) (data : Value) (pid now : Z) : Event :=
  mkEvent id (source_node s) pid (Some (source_node s)) now data.

Definition publish_local_global (id : string) (data : Value) (pid now : Z) : local := fun s =>
  checked "daemon only accepts global eventid" id data
    (let e := daemon_event s id data pid now in mirrored e now (to_peers e)) s.

Definition accept_external_global (e : Event) (now : Z) : local := fun s =>
  checked "daemon only accepts global eventid" (eventid e) (data e)
    (let e := with_ingress (source_node s) e in mirrored e now (to_peers e)) s.

Definition publish_http_global (id : string) (data : Value) (pid now : Z) : local := fun s =>
  accept_external_global (daemon_event s id data pid now) now s.

Definition default_ingress (node : string) (e : Event) : Event :=
  match ingress_node e with None => with_ingress node e | Some _ => e end.

(** From the importer of the ring buffers. *)
Definition publish_external_global (e : Event) : local := fun s =>
  checked "daemon only accepts global eventid" (eventid e) (data e) (to_peers (default_ingress (source_node s) e)) s.

(** Nothing for the peers. *)
Definition publish_from_peer (e : Event) (now : Z) : local :=
  checked "peer event must be global eventid" (eventid e) (data e)
    (let e := default_ingress (ev_source_node e) e in mirrored e now (fun s => (distribute e s, inr None))).

(** ** Nodes and their peers *)

(** The daemons by name, and the peers each has. *)
Record Zone := mkZone { nodes : gmap string KEventService; peers : gmap string (list string) }.
Definition set_node (name : string) (s : KEventService) (z : Zone) : Zone := mkZone (<[name := s]> (nodes z)) (peers z).

(** [InProcessPeerPublisher::broadcast] *)
Definition broadcast (e : Event) (now : Z) (peer : string) (z : Zone) : Zone * kresult unit :=
  match nodes z !! peer with
  | None => (z, inl (DaemonUnavailable peer))
  | Some s => let '(s, res) := publish_from_peer e now s in
              (set_node peer s z, match res with inl err => inl err | inr _ => inr tt end)
  end.

(** All peers are tried, and the last error is the result. *)
Definition broadcast_to_peers (e : Event) (now : Z) (targets : list string) (z : Zone) : Zone * kresult unit :=
  fold_left (fun (acc : Zone * kresult unit) peer =>
    let '(z, res) := broadcast e now peer acc.1 in (z, match res with inl err => inl err | inr _ => acc.2 end)) targets (z, inr tt).

(** A publication at a node. *)
Definition publish_at (node : string) (now : Z) (p : local) (z : Zone) : option (Zone * kresult unit) :=
  s ← nodes z !! node;
  let '(s, res) := p s in
  let z := set_node node s z in
  Some (match res with
        | inl err => (z, inl err)
        | inr None => (z, inr tt)
        | inr (Some e) => broadcast_to_peers e now (default [] (peers z !! node)) z
        end).

(** ** The protocol *)

Inductive KEventDaemonRequest :=
| RegisterReader (reader_id : string) (patterns : list string)
| UnregisterReader (reader_id : string)
| UpdateReader (reader_id : string) (add remove : list string)
| PublishGlobal (e : Event)
| PullEvent (reader_id : string) (timeout_ms : option Z).

(** [handle_protocol_request_in], up to the form of its response; the
    broadcast of a publication is [publish_at]'s. *)
Definition handle_protocol_request_in (session now : Z) (req : KEventDaemonRequest) (s : KEventService)
  : KEventService * pulled * option Event :=
  let reply (sr : KEventService * kresult unit) :=
    (sr.1, Pulled (match sr.2 with inl err => inl err | inr _ => inr None end), None) in
  match req with
  | RegisterReader reader_id patterns => reply (register_reader_in session reader_id patterns s)
  | UnregisterReader reader_id => (unregister_reader_in session reader_id s, Pulled (inr None), None)
  | UpdateReader reader_id add remove => reply (update_reader_in session reader_id add remove s)
  | PublishGlobal e =>
    match accept_external_global e now s with
    | (s, inl err) => (s, Pulled (inl err), None)
    | (s, inr for_peers) => (s, Pulled (inr None), for_peers)
    end
  | PullEvent reader_id timeout_ms => (pull_event_in session reader_id timeout_ms s, None)
  end.

(** [handle_native_tcp_connection]: the requests of a connection in a session
    of their own, which ends with it. *)
Definition serve_requests (session : Z) (reqs : list (Z * KEventDaemonRequest)) (s : KEventService) : KEventService :=
  fold_left (fun s req => (handle_protocol_request_in session req.1 req.2 s).1.1) reqs s.
Definition handle_connection (reqs : list (Z * KEventDaemonRequest)) (s : KEventService) : KEventService :=
  let '(s, session) := open_session s in (close_session session (serve_requests session reqs s)).1.

(** ** The client of a process *)

Inductive KEventClientMode := ModeLocal | ModeFull | ModeLight | ModeLocalPubOnly.
#[local] Instance mode_eq_dec : EqDecision KEventClientMode. Proof. solve_decision. Defined.

(** The channel of global events; what a bridge answers is an argument of the
    calls that use one. *)
Inductive KEventTransport :=
| TransportNone
| SharedMemory (ring : Handle)
| DaemonBridge
| PublishOnlyBridge.

Record KEventClient := mkClient {
  mode : KEventClientMode;
  cl_source_node : string;
  cl_readers : gmap string ReaderState;
  transport : KEventTransport;
  instance_nonce : string;
  reader_seq : Z;
  cl_reader_capacity : nat;
  publish_dropped : Z
}.

(** The client with the region of its node. *)
Abbreviation Client := (SharedRegion * KEventClient)%type.

Definition set_cl_readers (readers : gmap string ReaderState) (c : KEventClient) : KEventClient :=
  mkClient (mode c) (cl_source_node c) readers (transport c) (instance_nonce c) (reader_seq c) (cl_reader_capacity c) (publish_dropped c).
Definition set_transport (t : KEventTransport) (c : KEventClient) : KEventClient :=
  mkClient (mode c) (cl_source_node c) (cl_readers c) t (instance_nonce c) (reader_seq c) (cl_reader_capacity c) (publish_dropped c).
Definition note_publish_dropped (c : KEventClient) : KEventClient :=
  mkClient (mode c) (cl_source_node c) (cl_readers c) (transport c) (instance_nonce c) (reader_seq c) (cl_reader_capacity c)
    (wrapping_add (publish_dropped c) 1).

(** [build] *)
Definition build_client (source_node : string) (mode : KEventClientMode) (transport : KEventTransport) (nonce : string)
    (capacity : nat) : KEventClient :=
  mkClient mode source_node ∅ transport nonce 0 (Nat.max capacity 1) 0.

(** A full client on the ring buffers of its node. *)
Definition new_shared_memory (is_process_alive : Z -> bool) (source_node nonce : string) (pid now : Z) (region : SharedRegion)
  : option Client :=
  '(region, ring) ← open is_process_alive region pid now;
  Some (region, build_client source_node ModeFull (SharedMemory ring) nonce DEFAULT_READER_CAPACITY).

Record EventReader := mkEventReader { er_id : string; er_linked : bool; has_global_patterns : bool }.

Definition create_event_reader (patterns : list string) (now : Z) (rc : Client) : Client * kresult EventReader :=
  let '(region, c) := rc in
  if bool_decide (patterns = []) then (rc, inl (InvalidPattern "patterns must not be empty"))
  else if bool_decide (mode c = ModeLight \/ mode c = ModeLocalPubOnly) then
    (rc, inl (NotSupported "current mode does not support create_event_reader"))
  else
    match try_all validate_pattern patterns with
    | inl e => (rc, inl e)
    | inr _ =>
      let has_global := existsb is_global_pattern patterns in
      let seq := wrapping_add (reader_seq c) 1 in
      let id := "r_" +:+ instance_nonce c +:+ "_" +:+ u64_to_string seq in
      let c := mkClient (mode c) (cl_source_node c)
                 (<[id := mkReader (normalize_patterns patterns) [] (Nat.max (cl_reader_capacity c) 1)]> (cl_readers c))
                 (transport c) (instance_nonce c) seq (cl_reader_capacity c) (publish_dropped c) in
      if bool_decide (mode c = ModeFull) && has_global then
        match transport c with
        | SharedMemory ring =>
          let '(region, ring) := prime_cursors region ring now in
          ((region, set_transport (SharedMemory ring) c), inr (mkEventReader id false has_global))
        | DaemonBridge => ((region, c), inr (mkEventReader id true has_global))
        | _ => ((region, c), inr (mkEventReader id false has_global))
        end
      else ((region, c), inr (mkEventReader id false has_global))
    end.

(** [dispatch_event], and its twin of the thread of the ring buffers. *)
Definition dispatch_event (e : Event) (c : KEventClient) : KEventClient := set_cl_readers (offer e <$> cl_readers c) c.

Definition is_transport_error (e : KEventError) : bool :=
  match e with DaemonUnavailable _ | Internal _ => true | _ => false end.

(** [sent] is what the bridge answers. *)
Definition publish_global_best_effort (e : Event) (now : Z) (sent : kresult unit) (rc : Client) : Client * kresult unit :=
  let '(region, c) := rc in
  match transport c with
  | SharedMemory ring =>
    match encode_event e with
    | inl err => (rc, inl (Internal ("failed to encode event: " +:+ err)))
    | inr payload =>
      if (SLOT_DATA_SIZE <? length payload)%nat then
        (rc, inl (InvalidEventId ("event too large for shared ring: " +:+ u64_to_string (Z.of_nat (length payload)) +:+ " bytes, max "
                                  +:+ u64_to_string (Z.of_nat SLOT_DATA_SIZE))))
      else
        match publish_payload region ring payload now with
        | (region, inr _) => ((region, c), inr tt)
        | (region, inl _) => ((region, note_publish_dropped c), inr tt)
        end
    end
  | DaemonBridge | PublishOnlyBridge =>
    match sent with
    | inr _ => (rc, inr tt)
    | inl err => if is_transport_error err then ((region, note_publish_dropped c), inr tt) else (rc, inl err)
    end
  | TransportNone => (rc, inl (NotSupported "client has no global event transport"))
  end.

Definition client_event (c : KEventClient) (id : string) (data : Value) (pid now : Z) : Event :=
  mkEvent id (cl_source_node c) pid (if is_global_eventid id then Some (cl_source_node c) else None) now data.

Definition pub_event (id : string) (data : Value) (pid now : Z) (sent : kresult unit) (rc : Client) : Client * kresult unit :=
  let '(region, c) := rc in
  match validate_eventid id ;; validate_event_data_size data with
  | inl err => (rc, inl err)
  | inr _ =>
    let e := client_event c id data pid now in
    let global := is_global_eventid id in
    let dispatch_locally := negb global || negb (match transport c with DaemonBridge => true | _ => false end) in
    let c := if dispatch_locally then dispatch_event e c else c in
    match mode c with
    | ModeLocal | ModeLocalPubOnly => ((region, c), inr tt)
    | ModeFull => if global then publish_global_best_effort e now sent (region, c) else ((region, c), inr tt)
    | ModeLight => if global then publish_global_best_effort e now sent (region, c)
                   else ((region, c), inl (NotSupported "light mode only supports global event publishing"))
    end
  end.

Definition ingest_global_event (e : Event) (c : KEventClient) : KEventClient * kresult unit :=
  if negb (is_global_eventid (eventid e)) then (c, inl (InvalidEventId "ingest_global_event only accepts global eventid"))
  else match validate_eventid (eventid e) with
       | inl err => (c, inl err)
       | inr _ => (dispatch_event (default_ingress (ev_source_node e) e) c, inr tt)
       end.

(** The result says whether the link of the reader is marked dirty. *)
Definition add_patterns (er : EventReader) (patterns' : list string) (c : KEventClient) : KEventClient * kresult bool :=
  if bool_decide (patterns' = []) then (c, inr false)
  else
    match try_all validate_pattern patterns' with
    | inl e => (c, inl e)
    | inr _ =>
      if existsb is_global_pattern patterns' && negb (has_global_patterns er) then
        (c, inl (NotSupported "cannot add global patterns to a reader with no global subscriptions; create a new reader instead"))
      else
        match cl_readers c !! er_id er with
        | None => (c, inl (ReaderClosed (er_id er)))
        | Some r =>
          let normalized := normalize_patterns (patterns r ++ patterns') in
          let differs l k := existsb (fun p => is_global_pattern p && negb (existsb (String.eqb p) k)) l in
          (set_cl_readers (<[er_id er := with_patterns normalized r]> (cl_readers c)) c,
           inr (er_linked er && (differs normalized (patterns r) || differs (patterns r) normalized)))
        end
    end.

Definition remove_patterns (er : EventReader) (patterns' : list string) (c : KEventClient) : KEventClient * kresult bool :=
  if bool_decide (patterns' = []) then (c, inr false)
  else
    match cl_readers c !! er_id er with
    | None => (c, inl (ReaderClosed (er_id er)))
    | Some r =>
      let next := List.filter (fun p => negb (existsb (String.eqb p) patterns')) (patterns r) in
      if bool_decide (next = []) then (c, inl (InvalidPattern "reader must keep at least one pattern"))
      else
        (set_cl_readers (<[er_id er := with_patterns next r]> (cl_readers c)) c,
         inr (er_linked er && existsb (fun p => negb (existsb (String.eqb p) next) && is_global_pattern p) (patterns r)))
    end.

(** A round of the loop of [pull_event]. *)
Definition pull_event (er : EventReader) (timeout_ms : option Z) (c : KEventClient) : KEventClient * pulled :=
  match cl_readers c !! er_id er with
  | None => (c, Pulled (inl (ReaderClosed (er_id er))))
  | Some r =>
    match pop r with
    | (r, Some e) => (set_cl_readers (<[er_id er := r]> (cl_readers c)) c, Pulled (inr (Some e)))
    | (_, None) => (c, if bool_decide (timeout_ms = Some 0) then Pulled (inr None) else Waits)
    end
  end.

Definition close_reader (er : EventReader) (c : KEventClient) : KEventClient := set_cl_readers (delete (er_id er) (cl_readers c)) c.

(** [ClientReaderSink::deliver] *)
Definition deliver (id : string) (e : Event) (c : KEventClient) : KEventClient :=
  match cl_readers c !! id with
  | Some r => set_cl_readers (<[id := offer e r]> (cl_readers c)) c
  | None => c
  end.

(** [import_shared_events_sync], the round of [shm_dispatch_thread]. *)
Definition import_shared_events (max_events : nat) (now : Z) (rc : Client) : Client * nat :=
  let '(region, c) := rc in
  match transport c with
  | SharedMemory ring =>
    let '(region, ring, events) := drain_events decode_event region ring max_events now in
    let dispatch c e := if is_global_eventid (eventid e) then dispatch_event e c else c in
    ((region, fold_left dispatch events (set_transport (SharedMemory ring) c)), length events)
  | _ => (rc, 0%nat)
  end.

(** The importer of the daemon ([node_daemon/src/kevent_server.rs]): the events
    of a batch are published at the daemon one after the other. *)
Definition drain_for_import (now : Z) (s : KEventService) : KEventService * list Event :=
  match shared_ring s with
  | None => (s, [])
  | Some h =>
    let '(region, h, events) := drain_events decode_event (shm s) h SHARED_RING_DRAIN_BATCH now in
    (mkService (source_node s) (reader_capacity s) (readers s) region (Some h) (session_seq s), events)
  end.
End service.
