(* ===== verification/KEventTheorems.v ===== *)
(** The properties of the event bus: its ring buffers, its patterns, its
    readers, and the way of an event through a zone. *)
From Stdlib Require Import ZArith Lia Ascii Sorted.
From stdpp Require Import base tactics numbers gmap strings relations list.
From S2P Require Import Prelude RustString Lists KEventPattern KEventRing KEventRingFacts KEventService.

(** ** Patterns *)

(** C22: what is left of a set of patterns when the redundant ones are dropped
    matches the same events, which are those one of them stands for; the
    patterns left are some of those given, in their order, and
    [pattern_subsumes] finds none of them redundant beside another.  It is a
    test on the texts that is sound and not complete: [equal_patterns_kept]. *)
Theorem normalize_exact ps :
  (forall e, match_event_patterns (normalize_patterns ps) e = match_event_patterns ps e)
  /\ (forall e, match_event_patterns ps e = true <-> exists p, p ∈ ps /\ stands_for p e)
  /\ normalize_patterns ps `sublist_of` ps
  /\ all_independent (normalize_patterns ps).
Proof.
  assert (Hgo : forall out, all_independent out ->
    let r := fold_left keep_pattern ps out in
    (forall e, (exists p, p ∈ r /\ stands_for p e) <-> (exists p, p ∈ out ++ ps /\ stands_for p e))
    /\ r `sublist_of` out ++ ps /\ all_independent r).
  { induction ps as [|p ps IH]; intros out Hout; simpl; [by rewrite app_nil_r|].
    destruct (IH (keep_pattern out p)) as (H1 & H2 & H3); [by apply keep_pattern_independent|].
    replace (out ++ p :: ps) with ((out ++ [p]) ++ ps) by by rewrite <- app_assoc. split_and!; [| |done].
    - intros e. rewrite H1. pose proof (keep_pattern_stands out p e) as Hk.
      transitivity ((exists q, q ∈ keep_pattern out p /\ stands_for q e) \/ exists q, q ∈ ps /\ stands_for q e);
        [|rewrite Hk]; clear; setoid_rewrite (elem_of_app _ ps); naive_solver.
    - etrans; [exact H2|]. apply sublist_app; [apply keep_pattern_sublist|done]. }
  destruct (Hgo [] I) as (H1 & H2 & H3). split_and!; [|apply match_event_patterns_spec|done|done].
  intros e. apply eq_iff_eq_true. rewrite !match_event_patterns_spec. apply H1.
Qed.

(** Two patterns that match the same events, those with a segment at least, and
    are both kept. *)
Theorem equal_patterns_kept :
  normalize_patterns ["/*/**"; "/**/*"] = ["/*/**"; "/**/*"]
  /\ forall e, match_event_pattern e "/*/**" = match_event_pattern e "/**/*".
Proof.
  split; [reflexivity|]. intros e. apply eq_iff_eq_true. rewrite !match_event_pattern_spec. unfold stands_for.
  change (is_global "/*/**") with true. change (is_global "/**/*") with true. cbv iota.
  change (segments "/*/**") with ["*"; "**"]. change (segments "/**/*") with ["**"; "*"].
  enough (Hd : forall l, denotes ["*"; "**"] l <-> denotes ["**"; "*"] l) by (by rewrite Hd).
  intros l. split.
  - inversion 1 as [|p s l' Hl| |]; subst; [|done].
    destruct l' as [|x l' _] using rev_ind; [apply (denotes_any _ [])|rewrite app_comm_cons; apply denotes_any]; repeat constructor.
  - intros (l1 & l2 & -> & Hl)%denotes_any_inv. inversion Hl as [|p s l' Hnil| |]; subst; [|done]. inversion Hnil; subst.
    destruct l1 as [|x l1]; cbn; constructor; [apply (denotes_any _ [])|rewrite <- (app_nil_r (l1 ++ _)); apply denotes_any]; constructor.
Qed.

Section rings.
Context `{Layout}.
Implicit Types (region : SharedRegion) (h : Handle) (logs : list (list (list Z))).

(** ** One ring *)

(** C8: while a ring has one writer, and whatever the interleaving of its steps
    and those of the readers, each payload a reader gets is one that was
    published, whole, at the number the reader has it for; the numbers only go
    up, so that no payload is got twice or out of order. *)
Theorem no_torn_reads w s i :
  reachable_ring {[w]} s -> Z.of_nat (length (published s)) < u64_max ->
  Forall (fun e => event_at (published s) e.1 e.2) (default [] (received s !! i))
  /\ StronglySorted (fun e e' => e.1 < e'.1) (default [] (received s !! i)).
Proof.
  intros Hr Hn. destruct (reachable_ring_ok w s Hr Hn) as [pc Hok].
  destruct (KEventRing.readers s !! i) as [[c rd]|] eqn:Hi.
  - destruct (sys_received _ _ _ Hok i c rd Hi) as [He Hs]. split; [|done]. eapply Forall_impl; [done|]. by intros e [??].
  - rewrite (sys_known _ _ _ Hok i Hi). by repeat constructor.
Qed.

(** ** All rings *)

Lemma entry_of_heartbeat region now i j :
  en_state (entry_of (on_entry (heartbeat now) i region) j) = en_state (entry_of region j)
  /\ generation (entry_of (on_entry (heartbeat now) i region) j) = generation (entry_of region j).
Proof.
  unfold entry_of, on_entry. simpl. destruct (decide (i = j)) as [<-|Hne]; [|by rewrite list_lookup_alter_ne].
  rewrite list_lookup_alter_eq. by destruct (directory region !! i).
Qed.

Lemma other_rings_heartbeat region h now i : other_rings (on_entry (heartbeat now) i region) h = other_rings region h.
Proof.
  unfold other_rings. apply List.filter_ext. intros j. f_equal. unfold ready. by destruct (entry_of_heartbeat region now i j) as [-> _].
Qed.

Lemma cursor_for_heartbeat region primed cs now i j : cursor_for (on_entry (heartbeat now) i region) primed cs j = cursor_for region primed cs j.
Proof. unfold cursor_for. by destruct (entry_of_heartbeat region now i j) as [_ ->]. Qed.

Lemma pending_heartbeat region h logs now i : pending (on_entry (heartbeat now) i region) h logs = pending region h logs.
Proof.
  unfold pending. rewrite other_rings_heartbeat. apply flat_map_ext. intros j. unfold unread. by rewrite cursor_for_heartbeat.
Qed.

(** C23: a reader of all rings takes the next events of those it has not read,
    in the order of the rings, up to the number it asks for; what it leaves is
    what the next call finds. *)
Theorem drain_exact region h logs n now :
  region_ok region logs -> cursors_ok region h logs -> (0 < n)%nat ->
  let '(region', h', out) := drain_payloads region h n now in
  out = take n (pending region h logs)
  /\ pending region' h' logs = drop n (pending region h logs)
  /\ region_ok region' logs /\ cursors_ok region' h' logs.
Proof.
  intros Hok Hc Hn. unfold drain_payloads. rewrite (proj2 (Nat.eqb_neq n 0)) by lia.
  pose proof (drain_rings_exact region logs Hok h n (other_rings region h) (cursors h) [] (NoDup_other_rings region h)) as Hd.
  destruct (fold_left _ _ _) as [cs out]. destruct Hd as (-> & Hrest & _ & Hc').
  { rewrite Forall_forall. by intros i [? _]%elem_of_other_rings. }
  { simpl. lia. }
  { by destruct h. }
  rewrite Nat.sub_0_r in *. rewrite pending_heartbeat. destruct h as [my cs0 primed]. split_and!; [done|done| |].
  - destruct Hok as [Hdir Hr Hl]. split; [|done..]. simpl. by rewrite length_alter.
  - intros i Hi. rewrite cursor_for_heartbeat. by apply Hc'.
Qed.

(** ** Publication *)

(** The last [n] elements. *)
Definition latest {A} (n : nat) (l : list A) : list A := drop (length l - n) l.

Lemma unread_latest l c (p : list Z) : 0 <= c <= Z.of_nat (length l) ->
  drop (Z.to_nat (resume (l ++ [p]) c)) (l ++ [p]) = latest (Z.to_nat RING_CAPACITY) (drop (Z.to_nat (resume l c)) l ++ [p]).
Proof.
  intros Hc. pose proof capacity_pos. unfold latest, resume.
  rewrite <- drop_app_le by lia. rewrite drop_drop, length_drop, !length_app. simpl. f_equal. lia.
Qed.

Lemma ring_of_on_ring f region i j : (i < length (rings region))%nat ->
  ring_of (on_ring f i region) j = if decide (i = j) then f (ring_of region i) else ring_of region j.
Proof.
  intros Hi. unfold ring_of, on_ring. simpl. case_decide as E; [subst|by rewrite list_lookup_alter_ne].
  rewrite list_lookup_alter_eq. by destruct (lookup_lt_is_Some_2 (rings region) j Hi) as [r ->].
Qed.

Lemma region_ok_on_ring region logs f i l' : region_ok region logs ->
  (forall r l, rings region !! i = Some r -> logs !! i = Some l -> memory_ok r l WIdle ->
     memory_ok (f r) l' WIdle /\ Z.of_nat (length l') < u64_max) ->
  region_ok (on_ring f i region) (<[i := l']> logs).
Proof.
  intros [Hd Hr Hl] Hf. split; simpl; [done| |by rewrite length_alter].
  apply Forall2_same_length_lookup_2; [by rewrite length_alter, length_insert; apply (Forall2_length _ _ _ Hr)|].
  intros j r l Er El. rewrite list_lookup_insert_Some in El. destruct El as [(<- & <- & Hlt)|[Hne El]].
  - rewrite list_lookup_alter_eq in Er. apply fmap_Some in Er as (r0 & Er0 & ->).
    destruct (Forall2_lookup_l _ _ _ _ _ Hr Er0) as (l0 & El0 & Hm & _). by apply (Hf r0 l0).
  - rewrite list_lookup_alter_ne in Er by done. by apply (Forall2_lookup_lr _ _ _ _ _ _ Hr Er El).
Qed.

Lemma log_of_insert logs i l j : (i < length logs)%nat -> log_of (<[i := l]> logs) j = if decide (i = j) then l else log_of logs j.
Proof.
  intros Hi. unfold log_of. case_decide as E; [subst; by rewrite list_lookup_insert_eq|by rewrite list_lookup_insert_ne].
Qed.

(** A payload that fits is the last event of the ring of its writer.  A
    reader with a cursor on the ring has it to read after what it had, of which
    the oldest goes when there are more than the ring has slots; a reader that
    meets the ring first has nothing of it to read, or, if it was primed, the
    last event only, however many there are. *)
Theorem publish_reaches region h logs payload now :
  region_ok region logs -> (my_ring_id h < MAX_RINGS)%nat -> fits payload ->
  let i := my_ring_id h in
  let l := log_of logs i in
  Z.of_nat (length l) + 1 < u64_max ->
  let logs' := <[i := l ++ [payload]]> logs in
  let '(region', res) := publish_payload region h payload now in
  res = inr tt /\ region_ok region' logs'
  /\ (forall h' j, j <> i -> unread region' h' logs' j = unread region h' logs j)
  /\ (forall h' c, cursors h' !! i = Some c -> cur_generation c = generation (entry_of region i) ->
        0 <= read_seq c <= Z.of_nat (length l) ->
        unread region' h' logs' i = latest (Z.to_nat RING_CAPACITY) (unread region h' logs i ++ [payload]))
  /\ (forall h', cursors h' !! i = None -> unread region' h' logs' i = if primed_existing_rings h' then [payload] else []).
Proof.
  intros Hok Hi Hp i l Hn logs'. unfold publish_payload. destruct Hp as [Hne Hfit] eqn:Ep.
  rewrite bool_decide_false by done. rewrite (proj2 (Nat.ltb_ge _ _)) by lia. fold i.
  set (region1 := on_ring (fun ring => publish_ring ring payload) i region).
  assert (Hlen : (i < length (rings region))%nat) by (rewrite (reg_length _ _ Hok); done).
  assert (Hlogs : length logs = length (rings region)) by (symmetry; apply (Forall2_length _ _ _ (reg_rings _ _ Hok))).
  assert (Hok1 : region_ok region1 logs').
  { apply region_ok_on_ring; [done|]. intros r l0 Er El Hm. assert (l0 = l) as -> by (unfold l, log_of; by rewrite El).
    rewrite length_app. simpl. split; [apply publish_ring_ok; [done|lia|done]|lia]. }
  assert (Hring : forall j, ring_of region1 j = if decide (i = j) then publish_ring (ring_of region i) payload else ring_of region j).
  { intros j. by apply ring_of_on_ring. }
  assert (Hgen : forall j, generation (entry_of (on_header (notify_header i) (on_entry (heartbeat now) i region1)) j) = generation (entry_of region j)).
  { intros j. apply (entry_of_heartbeat region1 now i j). }
  assert (Hunread : forall h' j, unread (on_header (notify_header i) (on_entry (heartbeat now) i region1)) h' logs' j = unread region1 h' logs' j).
  { intros h' j. unfold unread, cursor_for. by rewrite Hgen. }
  split_and!; [done|destruct Hok1 as [H1 H2 H3]; split; [simpl; by rewrite length_alter|done..]|..].
  - intros h' j Hj. rewrite Hunread. unfold unread, cursor_for. unfold logs'. rewrite log_of_insert, decide_False by (done || lia).
    by rewrite Hring, decide_False by done.
  - intros h' c Hc Hg Hr. rewrite Hunread. unfold unread, cursor_for. unfold logs'. rewrite log_of_insert, decide_True by (done || lia).
    rewrite Hc. change (entry_of region1 i) with (entry_of region i). rewrite Hg, Z.eqb_refl. by apply unread_latest.
  - intros h' Hc. rewrite Hunread. unfold unread, cursor_for. rewrite Hc. simpl.
    destruct (ring_of_ok _ _ i Hok1 Hi) as [Hm _]. unfold logs' in *. rewrite log_of_insert, decide_True in * by (done || lia).
    rewrite (rest_head _ _ Hm). unfold initial_read_seq, resume, sat_sub. rewrite length_app. simpl. pose proof capacity_pos.
    destruct (primed_existing_rings h').
    + rewrite drop_app_length' by lia. done.
    + rewrite drop_ge; [done|]. rewrite length_app. simpl. lia.
Qed.

(** ** Allocation *)

(** The entry belongs to a live process other than this one. *)
Definition taken (is_process_alive : Z -> bool) (pid : Z) (e : RingDirectoryEntry) : Prop :=
  free_entry e = false /\ reclaimable_entry is_process_alive pid e = false.

Lemma find_entry_Some p region i : find_entry p region = Some i ->
  exists e, directory region !! i = Some e /\ p e = true /\ forall j e', (j < i)%nat -> directory region !! j = Some e' -> p e' = false.
Proof.
  unfold find_entry. intros ([j e] & Hj & ->)%fmap_Some. simpl. apply list_find_Some in Hj as (Hl & Hp & Hb).
  exists e. split_and!; [done..|]. intros k e' Hk He'. apply not_true_iff_false. by eapply Hb.
Qed.

Lemma find_entry_None p region : find_entry p region = None -> Forall (fun e => p e = false) (directory region).
Proof.
  unfold find_entry. intros Hn%fmap_None%list_find_None. eapply Forall_impl; [done|]. intros e. apply not_true_iff_false.
Qed.

Lemma own_reclaimable alive pid e : own_entry pid e = true -> reclaimable_entry alive pid e = true.
Proof.
  unfold own_entry, reclaimable_entry. intros [-> ->]%andb_true_iff. simpl. by rewrite andb_false_r.
Qed.

Lemma reset_ring_ok r l : memory_ok r l WIdle -> memory_ok (reset_ring r) [] WIdle.
Proof.
  intros [Hf Hs _ _ _]. split; simpl; try done.
  - unfold full, reset_ring in *. simpl. by rewrite length_fmap.
  - intros t. destruct (Hs t) as [Hl _]. unfold slot_of, reset_ring in *. simpl. rewrite list_lookup_fmap.
    destruct (slots r !! slot_index t) as [sl|]; simpl in *; split; simpl; done.
  - intros m. lia.
Qed.

Lemma activate_ring_ok region logs i pid now : region_ok region logs -> region_ok (activate_ring region i pid now) (<[i := []]> logs).
Proof.
  intros Hok. assert (Hok1 : region_ok (on_ring reset_ring i region) (<[i := []]> logs)).
  { apply region_ok_on_ring; [done|]. intros r l _ _ Hm. split; [by eapply reset_ring_ok|done]. }
  destruct Hok1 as [H1 H2 H3]. split; simpl; [by rewrite length_alter|done..].
Qed.

Lemma reset_region_ok : region_ok reset_region (replicate MAX_RINGS []).
Proof.
  split; simpl; [by rewrite length_fmap, length_seq| |by rewrite length_replicate].
  apply Forall2_same_length_lookup_2; [by rewrite !length_replicate|].
  intros i r l [-> _]%lookup_replicate [-> _]%lookup_replicate. split; [apply zero_ring_ok|done].
Qed.

(** A process that opens the rings gets one that is free, or when none is,
    one whose owner is not known, dead, or the process itself; it gets none
    only if all belong to other live processes.  The ring it gets is empty, its
    generation is new, and the other rings are as before. *)
Theorem allocate_exact alive region logs pid now :
  region_ok region logs ->
  match allocate_ring alive region pid now with
  | None => Forall (taken alive pid) (directory region)
  | Some (region', i) =>
    exists e, directory region !! i = Some e /\ ~ taken alive pid e
    /\ (free_entry e = false -> Forall (fun e' => free_entry e' = false) (directory region))
    /\ entry_of region' i = mkEntry ENTRY_READY pid (wrapping_add (generation e) 1) now (ring_offset e) (ring_bytes e)
    /\ (forall j, j <> i -> entry_of region' j = entry_of region j /\ ring_of region' j = ring_of region j)
    /\ region_ok region' (<[i := []]> logs)
  end.
Proof.
  intros Hok. unfold allocate_ring, claim_ring. set (claimed := match find_entry free_entry region with Some _ => _ | None => _ end).
  destruct claimed as [i|] eqn:Ec; unfold claimed in Ec; simpl.
  - assert (He : exists e, directory region !! i = Some e /\ ~ taken alive pid e
      /\ (free_entry e = false -> Forall (fun e' => free_entry e' = false) (directory region))).
    { unfold taken. destruct (find_entry free_entry region) as [k|] eqn:E1.
      { injection Ec as ->. apply find_entry_Some in E1 as (e & He & Hp & _). exists e. rewrite Hp. naive_solver. }
      apply find_entry_None in E1. destruct (find_entry (reclaimable_entry alive pid) region) as [k|] eqn:E2.
      { injection Ec as ->. apply find_entry_Some in E2 as (e & He & Hp & _). exists e. rewrite Hp. naive_solver. }
      apply find_entry_Some in Ec as (e & He & Hp & _). exists e. apply (own_reclaimable alive) in Hp. rewrite Hp. naive_solver. }
    destruct He as (e & He & Ht & Hfree). exists e. split_and!; [done..| | |].
    + unfold activate_ring, entry_of, on_entry. simpl. rewrite !list_lookup_alter_eq, He. done.
    + intros j Hj. unfold activate_ring, entry_of, ring_of, on_entry, on_ring. simpl. by rewrite !list_lookup_alter_ne.
    + apply activate_ring_ok. destruct Hok as [H1 H2 H3]. split; simpl; [by rewrite length_alter|done..].
  - destruct (find_entry free_entry region) eqn:E1; [done|]. destruct (find_entry (reclaimable_entry alive pid) region) eqn:E2; [done|].
    apply find_entry_None in E1, E2. rewrite Forall_forall in *. intros e He. split; auto.
Qed.

(** ** Runs of a ring *)

Inductive action := Publish (w : nat) (payload : list Z) | Write (w : nat) | Join (i : nat) | Poll (i : nat) | Read (i : nat).

Definition act (s : ring_system) (a : action) : option ring_system :=
  match a with
  | Publish w p =>
    match writers s !! w with
    | Some WIdle => if bool_decide (p <> [] /\ (length p <= SLOT_DATA_SIZE)%nat) then Some (start_write s w p) else None
    | _ => None
    end
  | Write w => match writers s !! w with Some WIdle | None => None | Some pc => Some (write s w pc) end
  | Join i => match KEventRing.readers s !! i with
              | None => Some (set_reader s i (initial_read_seq (head_seq (ring s)) false) (RDone None))
              | _ => None
              end
  | Poll i => match KEventRing.readers s !! i with Some (c, RDone _) => Some (set_reader s i c RStart) | _ => None end
  | Read i => match KEventRing.readers s !! i with Some (_, RDone _) | None => None | Some (c, pc) => Some (read s i c pc) end
  end.

Lemma act_step s a s' : act s a = Some s' -> ring_step s s'.
Proof.
  destruct a as [w p|w|i|i|i]; simpl; intros Ha.
  - destruct (writers s !! w) as [[]|] eqn:E; try done. case_bool_decide as Hp; [|done]. injection Ha as <-. by constructor.
  - destruct (writers s !! w) as [pc|] eqn:E; [|done]. destruct pc; simplify_eq; by apply step_write.
  - destruct (KEventRing.readers s !! i) eqn:E; [done|]. injection Ha as <-. by apply (step_join s i false).
  - destruct (KEventRing.readers s !! i) as [[c []]|] eqn:E; simplify_eq. by eapply step_poll.
  - destruct (KEventRing.readers s !! i) as [[c rd]|] eqn:E; [|done]. destruct rd; simplify_eq; by apply step_read.
Qed.

Fixpoint acts (s : ring_system) (l : list action) : option ring_system :=
  match l with [] => Some s | a :: l => s' ← act s a; acts s' l end.

Lemma acts_reachable s l s' : acts s l = Some s' -> rtc ring_step s s'.
Proof.
  revert s. induction l as [|a l IH]; intros s; simpl; [by intros [= ->]|]. intros (s1 & H1%act_step & H2)%bind_Some.
  eapply rtc_l; [done|]. by apply IH.
Qed.

(** The end of a run that can be made. *)
Definition ends (s : ring_system) (l : list action) : ring_system := default s (acts s l).
Lemma ends_reachable s l : bool_decide (is_Some (acts s l)) = true -> rtc ring_step s (ends s l).
Proof. intros [s' Hs]%bool_decide_eq_true_1. apply (acts_reachable s l). unfold ends. by rewrite Hs. Qed.
End rings.

(** ** Two handles of one process *)

Module RingExamples.
#[local] Existing Instance kevent_layout.

(** Two writers publish at a ring at once.  The second clears the slot before
    the first commits to it, and copies its payload under the reader. *)
Definition schedule : list action :=
  [Join 0; Publish 0 [1; 1]; Publish 1 [2; 2]; Write 0; Write 1; Write 0; Write 0; Write 0; Write 0; Write 0; Write 0;
   Poll 0; Read 0; Read 0; Read 0; Read 0; Write 1; Write 1; Read 0; Read 0; Read 0].
Definition after : option ring_system := acts (ring_init {[0%nat; 1%nat]}) schedule.

(** The region and the rings of the handles, after processes open one each. *)
Fixpoint open_all (pids : list Z) (region : SharedRegion) : option (SharedRegion * list nat) :=
  match pids with
  | [] => Some (region, [])
  | pid :: pids =>
    '(region, h) ← open (fun _ => true) region pid 0;
    '(region, ids) ← open_all pids region;
    Some (region, my_ring_id h :: ids)
  end.

(** Process 8 exchanges the state of its ring; before it goes on, process 9
    looks for one. *)
Definition claims (region : SharedRegion) : option (nat * nat) :=
  '(region, i) ← claim_ring (fun _ => true) region 8;
  '(region, j) ← claim_ring (fun _ => true) region 9;
  Some (i, j).

(** Two writers can come to share a ring, although all processes live: a
    process that opens one handle more than there are rings gets the ring of
    its first; and of two processes that open the last free ring at once, the
    second takes it from the first, which has not yet written its number.  With
    two writers a reader is handed a payload nobody published, half of one and
    half of another. *)
Theorem shared_ring_tears :
  snd <$> open_all (replicate 17 7) reset_region = Some (seq 0 16 ++ [0%nat])
  /\ ('(region, _) ← open_all (replicate 15 7) reset_region; claims region) = Some (15%nat, 15%nat)
  /\ exists s, reachable_ring {[0%nat; 1%nat]} s /\ published s = [[1; 1]]
       /\ received s !! 0%nat = Some [(1, [1; 2])].
Proof.
  split_and!; [vm_compute; reflexivity..|].
  assert (E : (fun s => (published s, received s !! 0%nat)) <$> after = Some ([[1; 1]], Some [(1, [1; 2])])) by (vm_compute; reflexivity).
  apply fmap_Some in E as (s & Hs%acts_reachable & [= -> ->]). exists s. by split_and!.
Qed.

(** One writer, and a reader that gets its event. *)
Definition single : ring_system :=
  ends (ring_init {[0%nat]})
    [Join 0; Publish 0 [1; 2]; Write 0; Write 0; Write 0; Write 0; Write 0; Write 0; Write 0; Poll 0; Read 0; Read 0; Read 0;
     Read 0; Read 0; Read 0; Read 0].

Lemma no_torn_reads_witness :
  received single !! 0%nat = Some [(1, [1; 2])] /\ Forall (fun e => event_at (published single) e.1 e.2) (default [] (received single !! 0%nat)).
Proof.
  split; [vm_compute; reflexivity|]. refine (proj1 (no_torn_reads 0 single 0 _ _)); [apply ends_reachable|]; vm_compute; reflexivity.
Defined.

Definition first_ring : Handle := mkHandle 0 ∅ false.

Lemma publish_reaches_witness : (publish_payload reset_region first_ring [1; 2] 5).2 = inr tt.
Proof.
  pose proof (publish_reaches reset_region first_ring (replicate MAX_RINGS []) [1; 2] 5 reset_region_ok) as Hp. cbv zeta in Hp.
  specialize (Hp ltac:(simpl; lia) ltac:(split; [done|simpl; lia]) ltac:(done)).
  destruct (publish_payload _ _ _ _) as [region res]. apply Hp.
Defined.

(** A ring with one event, and a reader that knows the ring. *)
Definition one_event : SharedRegion := on_ring (fun r => publish_ring r [1; 2]) 0 (activate_ring reset_region 0 7 0).
Definition one_log : list (list (list Z)) := <[0%nat := [[1; 2]]]> (<[0%nat := []]> (replicate MAX_RINGS [])).
Definition second_ring : Handle := mkHandle 1 {[0%nat := mkCursor 1 0]} false.

Lemma one_event_ok : region_ok one_event one_log.
Proof.
  apply region_ok_on_ring; [apply activate_ring_ok, reset_region_ok|]. intros r l _ [= <-] Hm.
  split; [|done]. apply (publish_ring_ok r []); [done|done|]. split; [done|simpl; lia].
Qed.

Lemma drain_exact_witness : (drain_payloads one_event second_ring 8 9).2 = [[1; 2]].
Proof.
  pose proof (drain_exact one_event second_ring one_log 8 9 one_event_ok) as Hd.
  assert (Hc : cursors_ok one_event second_ring one_log).
  { intros i Hi. do 16 (destruct i as [|i]; [vm_compute; split; discriminate|]). simpl in Hi. lia. }
  specialize (Hd Hc ltac:(lia)). destruct (drain_payloads _ _ _ _) as [[region h] out]. destruct Hd as [-> _]. vm_compute. reflexivity.
Defined.

Lemma allocate_exact_witness : exists region' i,
  allocate_ring (fun _ => true) reset_region 7 0 = Some (region', i) /\ region_ok region' (<[i := []]> (replicate MAX_RINGS [])).
Proof.
  pose proof (allocate_exact (fun _ => true) reset_region (replicate MAX_RINGS []) 7 0 reset_region_ok) as Ha.
  assert (E : bool_decide (is_Some (allocate_ring (fun _ => true) reset_region 7 0)) = true) by (vm_compute; reflexivity).
  destruct (allocate_ring _ _ _ _) as [[region' i]|]; [|discriminate]. exists region', i. destruct Ha as (e & _ & _ & _ & _ & _ & Hok). done.
Defined.
End RingExamples.

(** ** Sessions and zones *)

Section events.
Context `{Layout} {Value : Type} (encode_data : Value -> string + list Z) (encode_event : Event (Value := Value) -> string + list Z).
Abbreviation KEventService := (KEventService (Value := Value)).
Abbreviation Event := (Event (Value := Value)).
Abbreviation handle_protocol_request_in := (handle_protocol_request_in encode_data encode_event).
Abbreviation accept_external_global := (accept_external_global encode_data encode_event).
Abbreviation publish_external_global := (publish_external_global encode_data).
Abbreviation publish_at := (publish_at encode_data encode_event).
Implicit Types (s : KEventService) (e : Event) (k : Z * string).

(** The event a request publishes, if the daemon accepts it. *)
Definition accepted (now : Z) (req : KEventDaemonRequest (Value := Value)) (s : KEventService) : list Event :=
  match req with
  | PublishGlobal e => match (accept_external_global e now s).2 with inr _ => [with_ingress (source_node s) e] | inl _ => [] end
  | _ => []
  end.

Lemma mirror_readers e now s : readers (mirror_to_shared_ring encode_event e now s).1 = readers s.
Proof.
  unfold mirror_to_shared_ring. destruct (shared_ring s) as [h|]; [|done]. destruct (encode_event e) as [err|payload]; [done|].
  by destruct (publish_payload _ _ _ _) as [region [err|[]]].
Qed.

Lemma mirror_source_node e now s : source_node (mirror_to_shared_ring encode_event e now s).1 = source_node s.
Proof.
  unfold mirror_to_shared_ring. destruct (shared_ring s) as [h|]; [|done]. destruct (encode_event e) as [err|payload]; [done|].
  by destruct (publish_payload _ _ _ _) as [region [err|[]]].
Qed.

Lemma accept_readers e now s :
  readers (accept_external_global e now s).1
  = match (accept_external_global e now s).2 with inr _ => offer (with_ingress (source_node s) e) <$> readers s | inl _ => readers s end.
Proof.
  unfold KEventService.accept_external_global, checked, mirrored. destruct (check_event _ _ _ _) as [err|[]]; [done|].
  pose proof (mirror_readers (with_ingress (source_node s) e) now s) as Hr.
  destruct (mirror_to_shared_ring _ _ _ _) as [s1 [err|[]]]; simpl in *; [done|]. by rewrite Hr.
Qed.

(** What a request does to the readers of other sessions. *)
Lemma request_others session now req s k : k.1 <> session ->
  readers (handle_protocol_request_in session now req s).1.1 !! k
  = fold_left (fun r e => offer e <$> r) (accepted now req s) (readers s !! k).
Proof.
  intros Hk. assert (Hne : forall id, (session, id) <> k) by (intros id <-; done).
  destruct req as [id ps|id|id add remove|e|id timeout]; simpl.
  - unfold register_reader_in. repeat case_match; simpl; try done; by rewrite lookup_insert_ne.
  - by rewrite lookup_delete_ne.
  - unfold update_reader_in. repeat case_match; simpl; try done; by rewrite lookup_insert_ne.
  - pose proof (accept_readers e now s) as Ha. destruct (accept_external_global e now s) as [s1 [err|o]]; simpl in *; rewrite Ha; [done|].
    apply lookup_fmap.
  - unfold pull_event_in. repeat case_match; simpl; try done; by rewrite lookup_insert_ne.
Qed.

Lemma serve_others session reqs s : exists events, forall k, k.1 <> session ->
  readers (serve_requests encode_data encode_event session reqs s) !! k = fold_left (fun r e => offer e <$> r) events (readers s !! k).
Proof.
  revert s. induction reqs as [|[now req] reqs IH]; intros s; [by exists []|]. unfold serve_requests. simpl.
  destruct (IH (handle_protocol_request_in session now req s).1.1) as [events Hev]. exists (accepted now req s ++ events).
  intros k Hk. rewrite fold_left_app, <- (request_others session) by done. by apply Hev.
Qed.

(** A connection has a session of its own, and when it ends none of the
    readers of this session is left.  What it asked has no effect on the readers
    of any other session, but that they are offered the events it published. *)
Theorem sessions_isolated reqs s :
  0 <= session_seq s < u64_max ->
  exists events, forall k,
    readers (handle_connection encode_data encode_event reqs s) !! k
    = if decide (k.1 = session_seq s + 1) then None
      else fold_left (fun r e => offer e <$> r) events (readers s !! k).
Proof.
  intros Hs. unfold handle_connection, open_session. rewrite small_add by lia. unfold close_session, SHARED.
  rewrite (proj2 (Z.eqb_neq _ _)) by lia. simpl. set (s1 := mkService _ _ _ _ _ _).
  destruct (serve_others (session_seq s + 1) reqs s1) as [events Hev]. exists events. intros k. case_decide as Ek.
  - apply map_lookup_filter_None. right. intros r _. simpl. tauto.
  - specialize (Hev k Ek). change (readers s1) with (readers s) in Hev. rewrite <- Hev. apply option_eq. intros r. rewrite map_lookup_filter_Some. simpl. tauto.
Qed.

(** The daemons at the nodes have no ring buffers, or rings that take the
    event. *)
Definition rings_take (e : Event) (s : KEventService) : Prop :=
  shared_ring s = None \/ exists payload, encode_event e = inr payload /\ (length payload <= SLOT_DATA_SIZE)%nat.

Lemma mirror_ok e now s : rings_take e s -> exists region, mirror_to_shared_ring encode_event e now s = (set_shm region s, inr tt).
Proof.
  unfold mirror_to_shared_ring. intros [->|(payload & Ep & Hl)]; [exists (shm s); by destruct s|].
  destruct (shared_ring s) as [h|]; [|exists (shm s); by destruct s]. rewrite Ep. unfold publish_payload.
  case_bool_decide; [by eexists|]. rewrite (proj2 (Nat.ltb_ge _ _)) by lia. by eexists.
Qed.

(** The node's readers are offered the event, and the rest of it is as it was
    but for the region. *)
Definition offered (e : Event) (s s' : KEventService) : Prop :=
  readers s' = offer e <$> readers s /\ source_node s' = source_node s /\ shared_ring s' = shared_ring s.

Lemma broadcast_all e now targets z :
  NoDup targets -> ingress_node e <> None ->
  is_global_eventid (eventid e) = true -> validate_eventid (eventid e) = inr tt -> validate_event_data_size encode_data (data e) = inr tt ->
  Forall (fun peer => exists s, nodes z !! peer = Some s /\ rings_take e s) targets ->
  let '(z', res) := broadcast_to_peers encode_data encode_event e now targets z in
  res = inr tt
  /\ (forall m, m ∉ targets -> nodes z' !! m = nodes z !! m)
  /\ (forall m, m ∈ targets -> exists s s', nodes z !! m = Some s /\ nodes z' !! m = Some s' /\ offered e s s').
Proof.
  intros Hnd Hin Hg Hv Hsz. unfold broadcast_to_peers. revert z.
  induction Hnd as [|peer targets Hp Hnd IH]; intros z Hall; simpl; [split_and!; set_solver|].
  apply Forall_cons in Hall as [(s & Hs & Hr) Hall].
  assert (E : exists s', broadcast encode_data encode_event e now peer z = (set_node peer s' z, inr tt) /\ offered e s s').
  { unfold broadcast. rewrite Hs. unfold publish_from_peer, checked, check_event. rewrite Hg, Hv, Hsz. cbn.
    assert (Ed : default_ingress (ev_source_node e) e = e) by (unfold default_ingress; by destruct (ingress_node e)).
    rewrite Ed. unfold mirrored. destruct (mirror_ok e now s Hr) as [region ->]. eexists. by split. }
  destruct E as (s' & -> & Ho). simpl.
  specialize (IH (set_node peer s' z)). destruct (fold_left _ _ _) as [z' res]. destruct IH as (-> & Hother & Hmine).
  { rewrite Forall_forall in *. intros m Hm. destruct (Hall m Hm) as (sm & ? & ?). exists sm. simpl.
    rewrite lookup_insert_ne by (intros <-; done). done. }
  split_and!; [done| |].
  - intros m [? ?]%not_elem_of_cons. rewrite Hother by done. simpl. by rewrite lookup_insert_ne.
  - intros m [->|Hm]%elem_of_cons.
    + exists s, s'. rewrite Hother by done. simpl. by rewrite lookup_insert_eq.
    + destruct (Hmine m Hm) as (sm & sm' & H1 & H2 & H3). exists sm, sm'. simpl in H1.
      rewrite lookup_insert_ne in H1 by (intros <-; done). done.
Qed.

(** C21: an event that a daemon accepts from a client is offered to every reader
    of its node and of each of its peers, once, and nowhere else: the peers do
    not pass it on. *)
Theorem zone_delivers_once z node s e now :
  let e' := with_ingress (source_node s) e in
  nodes z !! node = Some s -> rings_take e' s ->
  is_global_eventid (eventid e) = true -> validate_eventid (eventid e) = inr tt -> validate_event_data_size encode_data (data e) = inr tt ->
  let targets := default [] (peers z !! node) in
  NoDup targets -> node ∉ targets ->
  Forall (fun peer => exists s, nodes z !! peer = Some s /\ rings_take e' s) targets ->
  exists z', publish_at node now (accept_external_global e now) z = Some (z', inr tt)
  /\ (forall m, m <> node -> m ∉ targets -> nodes z' !! m = nodes z !! m)
  /\ (forall m, m = node \/ m ∈ targets -> exists s s', nodes z !! m = Some s /\ nodes z' !! m = Some s' /\ offered e' s s').
Proof.
  intros e' Hs Hr Hg Hv Hsz targets Hnd Hnode Hall. unfold KEventService.publish_at. rewrite Hs. simpl.
  unfold KEventService.accept_external_global, checked, check_event. rewrite Hg, Hv, Hsz. cbn. unfold mirrored.
  destruct (mirror_ok e' now s Hr) as [region Hm]. fold e'. rewrite Hm. unfold to_peers, should_broadcast_to_peers. cbn. rewrite String.eqb_refl.
  set (s' := distribute e' _). pose proof (broadcast_all e' now targets (set_node node s' z) Hnd ltac:(done) Hg Hv Hsz) as Hb.
  fold targets. destruct (broadcast_to_peers _ _ _ _ _ _) as [z' res]. destruct Hb as (-> & Hother & Hmine).
  { rewrite Forall_forall in *. intros m Hmt. destruct (Hall m Hmt) as (sm & ? & ?). exists sm. simpl.
    rewrite lookup_insert_ne by (intros <-; done). done. }
  exists z'. split_and!; [done| |].
  - intros m Hmn Hmt. rewrite Hother by done. simpl. by rewrite lookup_insert_ne.
  - intros m [->|Hmt].
    + exists s, s'. rewrite Hother by done. simpl. by rewrite lookup_insert_eq.
    + destruct (Hmine m Hmt) as (sm & sm' & H1 & H2 & H3). exists sm, sm'. simpl in H1.
      rewrite lookup_insert_ne in H1 by (intros <-; done). done.
Qed.

(** An event that a client on the ring buffers publishes under a name
    other than that of the node is imported at the node and goes no further:
    no peer is told of it. *)
Theorem client_event_stays z node s (c : KEventClient (Value := Value)) id data pid now now' :
  nodes z !! node = Some s -> cl_source_node c <> source_node s -> is_global_eventid id = true ->
  let e := client_event c id data pid now in
  exists z' res, publish_at node now' (publish_external_global e) z = Some (z', res)
  /\ forall m, m <> node -> nodes z' !! m = nodes z !! m.
Proof.
  intros Hs Hc Hg e. unfold KEventService.publish_at. rewrite Hs. cbn.
  unfold KEventService.publish_external_global, checked. destruct (check_event _ _ _ _) as [err|[]].
  { eexists _, _. split; [done|]. intros m Hm. simpl. by rewrite lookup_insert_ne. }
  unfold to_peers, default_ingress, should_broadcast_to_peers, e, client_event. rewrite Hg. cbn.
  rewrite (proj2 (String.eqb_neq _ _)) by done. eexists _, _. split; [done|]. intros m Hm. simpl. by rewrite lookup_insert_ne.
Qed.

(** An event whose data is within the limit, but whose encoding is longer
    than a slot of the rings, is refused by the daemon before any reader or
    peer is told; the client of a bridge takes an error of this code for an
    outage, and reports success although not even its own readers have the event. *)
Theorem oversized_event_lost s h region (c : KEventClient (Value := Value)) id data pid now payload :
  let e := client_event c id data pid now in
  shared_ring s = Some h -> is_global_eventid id = true -> validate_eventid id = inr tt ->
  validate_event_data_size encode_data data = inr tt ->
  encode_event (with_ingress (source_node s) e) = inr payload -> (SLOT_DATA_SIZE < length payload)%nat ->
  transport c = DaemonBridge -> mode c = ModeFull ->
  exists err, accept_external_global e now s = (s, inl err)
  /\ forall message, let answer := inl (map_response_error (error_code err) message) in
       pub_event encode_data encode_event id data pid now answer (region, c) = ((region, note_publish_dropped c), inr tt).
Proof.
  intros e Hh Hg Hv Hsz Ep Hlong Ht Hmode.
  exists (Internal ("payload too large: " +:+ u64_to_string (Z.of_nat (length payload)) +:+ " > " +:+ u64_to_string (Z.of_nat SLOT_DATA_SIZE))).
  split.
  - assert (Ec : check_event encode_data "daemon only accepts global eventid" (eventid e) (KEventService.data e) = inr tt).
    { unfold check_event. cbn. by rewrite Hg, Hv, Hsz. }
    unfold KEventService.accept_external_global, checked. rewrite Ec. unfold mirrored, mirror_to_shared_ring. rewrite Hh, Ep.
    unfold publish_payload. rewrite bool_decide_false by (intros ->; simpl in Hlong; lia). by rewrite (proj2 (Nat.ltb_lt _ _)) by done.
  - intros message. unfold pub_event. rewrite Hv, Hsz. cbn. rewrite Hg. cbn. rewrite Ht. cbn. rewrite Hmode. cbn. by rewrite Ht.
Qed.
End events.

Module EventExamples.
#[local] Existing Instance kevent_layout.
Import RingExamples.

Definition no_data (_ : unit) : string + list Z := inr [].
Definition small (_ : Event (Value := unit)) : string + list Z := inr [1].
Definition large (_ : Event (Value := unit)) : string + list Z := inr (replicate 2049 0).
Definition daemon (name : string) (ring : option Handle) : KEventService (Value := unit) := mkService name 4 ∅ reset_region ring 0.
Definition zone : Zone (Value := unit) := mkZone {["a" := daemon "a" None; "b" := daemon "b" None]} {["a" := ["b"]]}.
Definition news : Event (Value := unit) := mkEvent "/news" "phone" 7 None 0 tt.
Definition app (t : KEventTransport) : KEventClient (Value := unit) := build_client "app" ModeFull t "1" 4.

Lemma sessions_isolated_witness : exists events : list (Event (Value := unit)), forall k,
  readers (handle_connection no_data small [(0, RegisterReader "r1" ["/news"])] (daemon "a" None)) !! k
  = if decide (k.1 = 1) then None else fold_left (fun r e => offer e <$> r) events None.
Proof.
  destruct (sessions_isolated no_data small [(0, RegisterReader "r1" ["/news"])] (daemon "a" None)) as [events He]; [done|].
  exists events. intros k. rewrite (He k). unfold readers, daemon. rewrite lookup_empty. reflexivity.
Defined.

Lemma zone_delivers_once_witness : exists z',
  publish_at no_data small "a" 0 (accept_external_global no_data small news 0) zone = Some (z', inr tt)
  /\ exists s', nodes z' !! "b" = Some s'.
Proof.
  destruct (zone_delivers_once no_data small zone "a" (daemon "a" None) news 0) as (z' & Hz & _ & Hm);
    [reflexivity|by left|reflexivity..|by apply NoDup_singleton|set_solver| |].
  - apply Forall_singleton. exists (daemon "b" None). split; [reflexivity|by left].
  - exists z'. split; [exact Hz|]. destruct (Hm "b") as (s & s' & _ & Hs & _); [by right; left|]. by exists s'.
Defined.

Lemma client_event_stays_witness : exists z' res,
  publish_at no_data small "a" 1 (publish_external_global no_data (client_event (app TransportNone) "/news" tt 7 0)) zone = Some (z', res)
  /\ nodes z' !! "b" = nodes zone !! "b".
Proof.
  destruct (client_event_stays no_data small zone "a" (daemon "a" None) (app TransportNone) "/news" tt 7 0 1) as (z' & res & Hz & Hm);
    [reflexivity|done|reflexivity|]. exists z', res. split; [exact Hz|]. by apply Hm.
Defined.

Lemma oversized_event_lost_witness : exists err,
  accept_external_global no_data large (client_event (app DaemonBridge) "/news" tt 7 0) 0 (daemon "a" (Some first_ring))
  = (daemon "a" (Some first_ring), inl err).
Proof.
  destruct (oversized_event_lost no_data large (daemon "a" (Some first_ring)) first_ring reset_region (app DaemonBridge) "/news" tt 7 0
              (replicate 2049 0)) as (err & Ha & _); [reflexivity..| |reflexivity|reflexivity|by exists err].
  rewrite length_replicate. simpl. lia.
Defined.
End EventExamples.
